(* ===== verification/_CoqProject ===== *)
-Q . S2P
Prelude.v
JsString.v
JsRegExp.v
JsNumber.v
JsInteger.v
JsIntegerText.v
JsValue.v
JsObject.v
JsonRoundTrip.v
JsMap.v
StatusCodeRules.v
ModelMapping.v
GroupSelection.v
BillingExpr.v
BillingExprFacts.v
BillingRoundTrip.v
TierExpr.v
TierExprFacts.v
KeywordHighlight.v
PriceVariants.v
PriceTable.v
PriceTableFacts.v
PriceFormat.v
PriceSheet.v
PriceSheetFacts.v
PriceSheetLifecycle.v
PriceSheetSave.v
AdvancedCustom.v
AdvancedCustomFacts.v
ChannelForm.v
ChannelFormFacts.v
ChannelFormSave.v
ChannelUpdates.v
ChannelUpdatesFacts.v
ChannelRows.v
ChannelRowsFacts.v
OAuthBinding.v
OAuthBindingFacts.v
OAuthHandshake.v
ParamOverride.v
ParamEditor.v
ParamOverrideFacts.v
ParamEditorFacts.v
AuthStore.v
AuthSession.v
AuthSessionFacts.v
AuthSync.v
AuthSyncFacts.v
HttpClient.v
HttpClientFacts.v
AuthRedirect.v
AuthRedirectFacts.v
ExtensionMarket.v
ExtensionMarketFacts.v
UpstreamSync.v
UpstreamSyncFacts.v
SensitiveRules.v
SensitiveRulesFacts.v
FlowGraph.v
FlowGraphFacts.v
PlaygroundMessages.v
PlaygroundChat.v
PlaygroundMessagesFacts.v
PlaygroundChatFacts.v
PlaygroundLifecycle.v
PlaygroundStorage.v
PlaygroundStorageFacts.v
CustomNav.v
CustomNavFacts.v
NavModules.v
NavModulesFacts.v
PasskeyEncoding.v
SecureVerification.v
SecureVerificationFacts.v
