(* ===== verification/Prelude.v ===== *)
(** * NewAPI-Mao: verification of the web console's core logic

    The program is an API gateway (a Go server) with a TypeScript console under
    [src/web/src/].  This development models the console's own logic: the code
    that decides who is signed in, what a channel or a price configuration
    means, and what an administrator sees.  Every definition translates the
    function or type of the same name; where a function is cut into several
    definitions (a loop body, the code after an [await]) the name says which
    part it is.

    ** The language

    - [Prelude]: the error monad [exc] (a function that may throw), insertion
      ordered sets ([set_add], [set_of]), list lemmas, tactics ([bool_hyps],
      [bool_goal], [break]) and the hint databases [js] and [js_rw].
    - [JsString]: strings as lists of UTF-16 code units, with [trim], [split],
      [join], [startsWith] and the rest; literals are written in UTF-8.  The
      class [LowerCase] is what the code needs of [toLowerCase], with an
      instance.
    - [JsRegExp]: a backtracking matcher for the regular expressions used, in
      continuation-passing style as ECMAScript defines it, and lemmas that
      compute matches on texts with unknown parts.
    - [JsNumber]: IEEE doubles (the Standard Library's [spec_float]), text to
      number and number to shortest text, order lemmas.  [JsInteger]: safe
      integers are exact, with exact sums, differences and comparisons;
      [JsIntegerText]: their text is plain decimal and reads back.
    - [JsValue]: JSON values and [undefined], property reads, [JSON.parse] and
      [JSON.stringify].  [JsObject]: reads after assignments, distinct keys of
      parsed objects.  [JsonRoundTrip]: printed values read back.
    - [JsMap]: [Map] as an association list in insertion order, stable [sort].

    ** The components

    - [AuthStore] ([stores/auth-store.ts]) and [AuthSession]
      ([lib/auth-session.ts]): the store of a tab; guards on server data;
      sign-in, token rotation, sign-out; the refresh loop, written against the
      class [AuthRefreshRuntime] and cut at its awaits ([RunPoint]); the
      browser lock; single flight; bootstrap; header handout.  [Tab] is the
      store with the module variables, [resume] lets a suspended refresh go
      on, [tab_step] interleaves everything.  [AuthSessionFacts]: the loop ends
      after at most eight requests and fourteen turns in any environment; an
      overtaken refresh is inert; which answer (bundle, status, code) gives which
      outcome with which effects; the invariant of reachable tabs; rotation,
      bootstrap and headers.
    - [AuthSync] ([lib/auth-session-sync.ts], the listener of
      [routes/__root.tsx]): the tabs of a browser as a [Group] with the notices
      on their way, over a broadcast channel or storage events.
      [AuthSyncFacts]: a tab with everything it does refines the deterministic
      machine of its identity ([Identity]: keep, enter, leave), which computes
      its session and the notices it publishes; a sign-out and a sign-in reach
      every tab once the notices are delivered.
    - [HttpClient] ([lib/http-client.ts], [lib/server-error-message.ts]): the
      axios instance on top of [AuthSession]: tokens, GET requests in flight
      that are shared, the 401 that refreshes and retries, error messages.
      [HttpClientFacts]: a call ends after at most two requests and one refresh
      whatever happens meanwhile; what a 401 does; which requests share an
      answer: those of one session with the same address and parameters, and
      those that the key does not tell apart (addresses with a question mark,
      parameters given as [URLSearchParams]).
    - [OAuthBinding] ([features/profile/components/tabs/account-bindings-tab.tsx],
      [routes/oauth/$provider.tsx], [features/auth/lib/oauth-callback-mode.ts],
      [features/auth/lib/oauth-bind-window.ts]): linking an account through a
      popup: the profile tab and the callback page as two state machines with
      messages, timers and session storage.  [OAuthBindingFacts]: which messages
      make the tab exchange a code; the invariant of its windows, timers and
      exchanges.  [OAuthHandshake]: tab and page together finish as the server
      answered, and a page never stays open.
    - [AuthRedirect] ([features/auth/lib/auth-redirect.ts],
      [features/auth/lib/storage.ts], [features/auth/hooks/use-auth-redirect.ts],
      [routes/(auth)/]): where a sign-in leads, and the invitation in an
      address.  [AuthRedirectFacts]: the paths that pass, the target that is
      used once, the sign-ins that do not use it, the captured invitation.
    - [SecureVerification] ([features/auth/secure-verification/],
      [lib/secure-verification.ts]): protected calls that need a proof: the hook
      and its dialog as a state machine.  [SecureVerificationFacts]: where proofs
      come from and which calls get them; what closing the dialog does not stop.
      [PasskeyEncoding] ([lib/passkey.ts]): the bytes of a passkey read back.
    - [ExtensionMarket] ([features/extensions/marketplace-download.ts]): the
      catalogue of online extensions and the download of an archive.
      [ExtensionMarketFacts]: which catalogues are accepted, against a
      description of the entries ([entry_ok]) that does not use the checks, which
      archives are handed on, how much is kept while reading.
    - [AdvancedCustom] ([features/channels/lib/advanced-custom.ts]): routes of
      advanced custom channels over untyped JSON.  [AdvancedCustomFacts]: the
      validation accepts exactly the routes that are well formed and do not
      compete; normalisation is idempotent; templates and defaults are
      accepted; the editor text reads back.
    - [ChannelForm] ([features/channels/lib/channel-form.ts],
      [hooks/use-channel-mutate-form.ts]): the form of a channel: opening it,
      its schema, the two stored texts, the payloads and what an update sends.
      [ChannelFormFacts]: the assignments to the stored object, what they leave
      alone, the options read again.  [ChannelFormSave]: a saved channel opens
      with what was entered; saving it again writes the same texts; what an
      update carries without the permission for sensitive settings.
    - [ChannelUpdates] ([features/channels/lib/upstream-update-utils.ts],
      [lib/channel-field-update.ts], [hooks/use-channel-upstream-updates.ts],
      [components/dialogs/upstream-update-dialog.tsx]): the page's state with the
      calls in flight, driven by events; the scheduler of a number field as a
      step relation.  [ChannelUpdatesFacts]: locks of reachable pages, what an
      update sends, the selection that outlives the dialog; the values a field
      sends.
    - [ChannelRows] ([features/channels/lib/channel-utils.ts],
      [lib/status-code-risk-guard.ts], [lib/channel-form-errors.ts],
      [lib/multi-key-utils.ts]): rows of tags, keys, groups, attention, status
      code mappings.  [ChannelRowsFacts]: the rows against a direct description,
      distinct keys, the redirects that are reported.
    - [ParamOverride] and [ParamEditor]
      ([features/channels/components/dialogs/param-override-editor-dialog.tsx]):
      the rules that rewrite requests, as JSON and as the editor holds them;
      their validation; the drafts behind two kinds of values; the dialog as a
      state machine.  [ParamOverrideFacts]: what written rules open as, and when
      saving them again writes the same.  [ParamEditorFacts]: the invariant of
      reachable dialogs; the controls of pruning rules.
    - [BillingExpr] ([features/pricing/lib/billing-expr.ts]): billing
      expressions and request rules.  [BillingExprFacts] has the lemmas on its
      patterns and splitters, [BillingRoundTrip] the theorems: rules, and base
      expression with rules, read back as written, but for the five modes of
      request parameters that are never read back; unwrapping parentheses;
      stability of normalised conditions.
    - [TierExpr] ([features/pricing/lib/tier-expr.ts]): the visual tier editor
      and the cost estimator around an evaluator.  [TierExprFacts]: a single
      tier reads back.
    - [FlowGraph] ([features/dashboard/lib/flow.ts]): the usage flow diagram.
      [FlowGraphFacts]: metrics are sums over paths, ends of links are nodes,
      the top-node limit, masking.
    - [UpstreamSync] ([features/system-settings/models/], the ratio
      synchronisation): differences, picked values, what is written.
      [UpstreamSyncFacts]: fixed price and ratios never mix; the settings
      written are exactly the picked values over the current ones.
    - [SensitiveRules] ([features/system-settings/request-limits/]): the
      sensitive word rules as drafts and as text.  [SensitiveRulesFacts]: the
      saved text reads back as the normalised drafts; what is reported.
    - [PlaygroundMessages], [PlaygroundChat], [PlaygroundStorage]
      ([features/playground/lib/], [features/playground/hooks/]): messages and
      think tags; the stream controller, the chat handler and React's queue of
      updaters as one state machine; saving and loading.
      [PlaygroundMessagesFacts]: think tags against their grammar.
      [PlaygroundChatFacts]: the text a stream leaves, whenever timers and
      renders come; what stopping keeps.  The relation [chat_step] has every
      event of the page and of the stream; its orderly part leaves out edits
      that are saved while an updater waits and error messages that are no
      texts.  [PlaygroundLifecycle]: the invariant of the chats that orderly
      steps reach by rule induction, and a run with such an edit that leaves an
      unfinished message behind; a superseded request is never heard again,
      whatever the steps; stopping settles everything.  [PlaygroundStorageFacts]:
      saved conversations pass their schema and read back, stay within the
      limits, and give a chat its invariant again.
    - [CustomNav] ([lib/custom-nav.ts], [lib/canvas-settings.ts]) and
      [NavModules] ([lib/nav-modules.ts]): which modules, pages and custom
      links are shown.  [CustomNavFacts]: links are safe, identifiers are in
      normal form.  [NavModulesFacts]: the type of the parsed modules, and that
      every switch and access is the stored one.
    - [PriceVariants] ([lib/model-price-variants.ts]): price variants per
      resolution and quality: what the guard accepts, the price range, cloning.
    - [PriceTable] ([features/system-settings/models/model-ratio-visual-editor.tsx],
      [lib/model-price-unit.ts]): the thirteen price settings as texts and as the
      rows of a table; saving, copying and deleting models.  [PriceTableFacts]:
      what is saved is shown, after the texts were written and read again, and
      nothing else changes; opening and saving a model changes nothing; what
      deleting leaves.
    - [PriceSheet] ([features/system-settings/models/model-pricing-sheet.tsx]) and
      [PriceFormat] ([features/system-settings/models/pricing-format.ts]): the
      form of one model, with its drafts, checks, lanes and submission.
      [PriceSheetFacts]: what the checks accept and what is built from it.
      [PriceSheetLifecycle]: invariants of the sheets that can be reached
      (identifiers, ratios), exact errors, prices that are lost.
      [PriceSheetSave]: a submitted sheet in the table.
    - [StatusCodeRules] ([lib/http-status-code-rules.ts]): status code ranges:
      normal form, the codes denoted, rejected tokens, reading a normal form.
    - [KeywordHighlight] ([features/security-audit/matched-keyword-highlight.ts]):
      highlighted segments partition the text and mark exactly the matches; the
      rehype plugin keeps the text.
    - [GroupSelection] ([features/keys/lib/group-selection.ts]) and
      [ModelMapping] ([features/channels/lib/model-mapping-validation.ts]):
      groups of an API key; model lists and redirects.

    ** Interaction

    [AuthSession] works on [AuthStore]; [AuthSync] and [HttpClient] run its
    operations on the tabs they model, and their theorems use its lemmas and
    not its definitions where it has them.  [OAuthHandshake] runs the two
    machines of [OAuthBinding] against each other.  [AuthRedirect] signs in with
    [AuthSession] and words errors with [HttpClient].  [ParamEditorFacts] uses
    from [ParamOverrideFacts] which rules are known, so what a reachable dialog
    writes is what [rules_reopen] speaks of.  [TierExpr] uses the variables and
    the condition parser of [BillingExpr].  [PlaygroundChat] builds on
    [PlaygroundMessages]; [PlaygroundStorageFacts] composes storage and life
    cycle: what is saved in any state that orderly steps reach and loaded again is
    a state the chat may start in.  [NavModules] uses [CustomNav]; theorem
    [item_switch_exact] composes them.  [PriceTable] splits and combines with
    [BillingExpr] and guards and clones with [PriceVariants]; [PriceSheet] hands
    its data to [PriceTable], and theorem [submit_shows] composes the three: the
    checks of the sheet give what the guard and the table ask for.  [ChannelForm] parses and checks the
    routes of a channel with [AdvancedCustom]; theorem [save_settles] composes
    them: the text of the routes a saved channel opens stands for the same
    routes.  The interfaces are the classes
    [AuthRefreshRuntime] (what the refresh loop asks of its runtime, with the
    tab as instance), [LowerCase] and [WordClass], and [UrlParser] and [SearchParams] with their laws (each
    with a concrete instance).  The other components do not call each other.

    ** Parameters

    What belongs to the host or to libraries is an argument: [parse_url] (the
    result of [new URL]) in [AdvancedCustom] and [CustomNav], [new_URL] in
    [ChannelForm], and with [URLSearchParams] the classes of [AuthRedirect];
    window messages, timers and the answers of the server are events in
    [OAuthBinding] and [SecureVerification]; the chunks of a body are events in
    [ExtensionMarket], which also takes the digest and the decoder as arguments,
    and [PasskeyEncoding] what a host without [atob] offers; when the dialog of [ParamEditor] renders is an event, since
    rendering takes ids; [run] (evaluating
    a text as code) in [TierExpr]; [localeCompare], the chart library's colour
    schemes and [Intl] number formatting in [FlowGraph]; [localeCompare] and
    the relative time format in [ChannelRows]; case folding through
    [LowerCase]; the Unicode classes of letters and numbers through
    [WordClass]; the server's answers, the clock and the lock manager in
    [AuthSession], [AuthSync] and [HttpClient]; [nanoid] in [SensitiveRules];
    in the playground the clock ([T]), when React renders and whether it runs
    an updater at once ([eager]) and the room in the storage ([accepts]);
    translation ([t]).  No theorem
    assumes anything of them except the laws of these classes, and that the
    message for a missing formula is not empty.

    ** Fuel

    Functions that are not structurally recursive take fuel that is enough by a
    bound on the input: a repetition of a pattern consumes a character per
    iteration, [JSON_parse] has two units per character (theorem
    [vsize_text] shows printed values need one), [unwrapOuterParens] loses two
    characters per round (theorem [unwrap_complete]), digits of an integer are
    bounded by its binary logarithm, and a double has at most seventeen
    significant digits.  The loop over think tags has one unit per character,
    and theorem [think_tags_exact] says that it gives the result.  The refresh
    loop and a call of the HTTP client are step functions; their termination is
    [refresh_terminates] and [call_bounded].

    ** Not modelled

    The Go server; React components, routes and hooks other than those named
    above; translations, generated and vendored code; API call wrappers; the
    Sankey chart options of [flow.ts]; the schemas zod checks, except those of
    the channel form and of the playground's storage; previews and help texts of the price sheet; icons and
    amounts of money in the channel table.  Left out within the modelled
    files: conditional and multi-tier round trips of [TierExpr] (modelled, not
    proved), filters and highlighting of [FlowGraph], the search box, statistics
    and labels of the override editor, the cards of the profile tab, the objects
    exchanged with the authenticator in [lib/passkey.ts].  Currency,
    quota and usage log formats rest on [Intl] and are display code; the
    remaining features are forms, tables and calls of the server with little
    logic of their own. *)

From stdpp Require Export base numbers list gmap sorting.
From Stdlib Require Export Lia ZifyBool ZifyN.

(** ** Hint databases of the development *)

Create HintDb js.
Create Rewrite HintDb js_rw.

(** ** Tactics *)

(** Splits every boolean connective of the hypotheses into propositions. *)
Ltac bool_hyps :=
  repeat match goal with
  | H : _ && _ = true |- _ => apply andb_true_iff in H; destruct H
  | H : _ || _ = false |- _ => apply orb_false_iff in H; destruct H
  | H : negb _ = true |- _ => apply negb_true_iff in H
  | H : negb _ = false |- _ => apply negb_false_iff in H
  | H : bool_decide _ = true |- _ => apply bool_decide_eq_true in H
  | H : bool_decide _ = false |- _ => apply bool_decide_eq_false in H
  | H : Is_true _ |- _ => apply Is_true_eq_true in H
  end.

(** Splits a boolean conjunction to be proved. *)
Ltac bool_goal :=
  repeat match goal with
  | |- _ && _ = true => apply andb_true_iff; split
  | |- bool_decide _ = true => apply bool_decide_eq_true
  | |- bool_decide _ = false => apply bool_decide_eq_false
  | |- negb _ = true => apply negb_true_iff
  end; auto.

(** Case analysis on the innermost test of a goal or a hypothesis, keeping
    the equation and dropping the impossible branches. *)
Ltac break :=
  match goal with
  | |- context [match ?x with _ => _ end] =>
      lazymatch x with
      | context [match _ with _ => _ end] => fail
      | _ => let E := fresh "E" in destruct x eqn:E
      end
  end; simplify_eq/=.

Ltac break_in H :=
  match type of H with
  | context [match ?x with _ => _ end] =>
      lazymatch x with
      | context [match _ with _ => _ end] => fail
      | _ => let E := fresh "E" in destruct x eqn:E
      end
  end; simplify_eq/=.

(** ** JavaScript's insertion-ordered [Set] as a duplicate-free list *)

Section JsSet.
Context {A : Type} `{EqDecision A}.
Implicit Types (x y : A) (s xs ys : list A).

(** [s.add(x)]: a known element keeps its place, a new one goes last. *)
Definition set_add s x : list A :=
  if bool_decide (x ∈ s) then s else s ++ [x].

(** [s.has(x)] *)
Definition set_has s x : bool := bool_decide (x ∈ s).

(** [new Set(xs)], listed in iteration order. *)
Definition set_of xs : list A := fold_left set_add xs [].

Lemma elem_of_set_add x y s : y ∈ set_add s x ↔ y = x ∨ y ∈ s.
Proof.
  unfold set_add. case_bool_decide; [|set_solver].
  split; [by right|]. by intros [->|].
Qed.

Lemma NoDup_set_add x s : NoDup s → NoDup (set_add s x).
Proof.
  intros Hs. unfold set_add. case_bool_decide; [done|].
  apply NoDup_app. repeat split; [done|set_solver|].
  apply NoDup_singleton.
Qed.

Lemma elem_of_fold_set_add xs s y :
  y ∈ fold_left set_add xs s ↔ y ∈ s ∨ y ∈ xs.
Proof.
  revert s. induction xs as [|x xs IH]; intros s; cbn; [set_solver|].
  rewrite IH, elem_of_set_add. set_solver.
Qed.

Lemma NoDup_fold_set_add xs s : NoDup s → NoDup (fold_left set_add xs s).
Proof.
  revert s. induction xs as [|x xs IH]; intros s Hs; cbn; [done|].
  by apply IH, NoDup_set_add.
Qed.

Lemma elem_of_set_of xs y : y ∈ set_of xs ↔ y ∈ xs.
Proof. unfold set_of. rewrite elem_of_fold_set_add. set_solver. Qed.

Lemma NoDup_set_of xs : NoDup (set_of xs).
Proof. apply NoDup_fold_set_add, NoDup_nil_2. Qed.

Lemma fold_set_add_fresh xs s :
  NoDup (s ++ xs) → fold_left set_add xs s = s ++ xs.
Proof.
  revert s. induction xs as [|x xs IH]; intros s Hs; cbn.
  { by rewrite app_nil_r. }
  assert (set_add s x = s ++ [x]) as ->.
  { unfold set_add. rewrite bool_decide_eq_false_2; [done|].
    apply NoDup_app in Hs. set_solver. }
  rewrite IH; rewrite <- app_assoc; done.
Qed.

(** Building a set from a list without duplicates keeps the list. *)
Lemma set_of_NoDup xs : NoDup xs → set_of xs = xs.
Proof. intros. by apply (fold_set_add_fresh xs []). Qed.

Lemma set_of_idemp xs : set_of (set_of xs) = set_of xs.
Proof. apply set_of_NoDup, NoDup_set_of. Qed.

Lemma set_has_spec s x : set_has s x = true ↔ x ∈ s.
Proof. apply bool_decide_eq_true. Qed.
End JsSet.

#[export] Hint Resolve NoDup_set_add NoDup_set_of NoDup_fold_set_add : js.
#[export] Hint Rewrite @elem_of_set_add @elem_of_set_of @elem_of_fold_set_add : js_rw.

(** ** Functions that may throw *)

Inductive exc (A : Type) := Throw | Ret (a : A).
Arguments Throw {A}.
Arguments Ret {A} a.

#[global] Instance exc_ret : MRet exc := @Ret.
#[global] Instance exc_bind : MBind exc :=
  λ A B f x, match x with Throw => Throw | Ret a => f a end.
#[global] Instance exc_fmap : FMap exc :=
  λ A B f x, match x with Throw => Throw | Ret a => Ret (f a) end.

(** ** Lists *)

Section Lists.
Context {A : Type}.
Implicit Types (l : list A) (P : A → bool).

(** Longest prefix satisfying [P], with the remaining list. *)
Fixpoint span (P : A → bool) l : list A * list A :=
  match l with
  | [] => ([], [])
  | x :: l' => if P x then let '(a, b) := span P l' in (x :: a, b) else ([], l)
  end.

Lemma span_app P l : (span P l).1 ++ (span P l).2 = l.
Proof.
  induction l as [|x l IH]; cbn; [done|].
  destruct (P x), (span P l); cbn in *; congruence.
Qed.

Lemma forallb_app P l1 l2 : forallb P (l1 ++ l2) = forallb P l1 && forallb P l2.
Proof. induction l1 as [|x l1 IH]; cbn; [done|]. by rewrite IH, andb_assoc. Qed.

Lemma forallb_elem P l x : forallb P l = true → x ∈ l → P x = true.
Proof.
  induction l as [|y l IH]; cbn; intros H Hx; [set_solver|].
  bool_hyps. apply elem_of_cons in Hx as [->|]; auto.
Qed.

Lemma forallb_True' P l : forallb P l = true ↔ Forall (λ x, P x = true) l.
Proof.
  induction l as [|x l IH]; cbn; [by split|].
  rewrite andb_true_iff, IH, Forall_cons. done.
Qed.

Lemma elem_of_lfilter P l x : x ∈ List.filter P l ↔ x ∈ l /\ P x = true.
Proof. rewrite !list_elem_of_In. apply filter_In. Qed.

Lemma NoDup_lfilter P l : NoDup l → NoDup (List.filter P l).
Proof. rewrite !NoDup_ListNoDup. apply List.NoDup_filter. Qed.

Lemma list_filter_all P l : (∀ x, x ∈ l → P x = true) → List.filter P l = l.
Proof.
  induction l as [|x l IH]; intros H; cbn; [done|].
  rewrite H by set_solver. f_equal. apply IH. set_solver.
Qed.

Lemma list_filter_none P l : (∀ x, x ∈ l → P x = false) → List.filter P l = [].
Proof.
  induction l as [|x l IH]; intros H; cbn; [done|].
  rewrite H by set_solver. apply IH. set_solver.
Qed.

Lemma forallb_impl P (Q : A → bool) l :
  (∀ x, P x = true → Q x = true) → forallb P l = true → forallb Q l = true.
Proof.
  intros HPQ. induction l as [|x l IH]; cbn; [done|]. intros. bool_hyps.
  rewrite HPQ; auto.
Qed.
End Lists.

#[export] Hint Resolve NoDup_lfilter : js.
#[export] Hint Rewrite @elem_of_lfilter : js_rw.
