(* ===== verification/JsString.v ===== *)
(** * JavaScript strings

    A JavaScript string is a sequence of UTF-16 code units.  [jsstr] is that
    sequence; literals between quotes are decoded from UTF-8 to UTF-16 when
    the file is read, so the constants of the TypeScript sources can be written
    as they are there.  The file models the members of [String.prototype] the
    sources call: [trim], [slice], [startsWith], [endsWith], [includes],
    [split], [join] (of arrays), [replaceAll] and [toLowerCase]. *)

From Stdlib Require Import Strings.Byte.
From S2P Require Import Prelude.
Local Open Scope N_scope.

Abbreviation jsstr := (list N).

(** ** Literals *)

(** A declared name for the notation; the values are plain [list N]. *)
Definition js_literal : Type := list N.

Fixpoint utf16_of_utf8 (bs : list Byte.byte) : list N :=
  match bs with
  | [] => []
  | b0 :: r0 =>
    let n0 := Byte.to_N b0 in
    if n0 <? 128 then n0 :: utf16_of_utf8 r0
    else match r0 with
    | [] => []
    | b1 :: r1 =>
      let n1 := Byte.to_N b1 mod 64 in
      if n0 <? 224 then ((n0 mod 32) * 64 + n1) :: utf16_of_utf8 r1
      else match r1 with
      | [] => []
      | b2 :: r2 =>
        let n2 := Byte.to_N b2 mod 64 in
        if n0 <? 240 then ((n0 mod 16) * 4096 + n1 * 64 + n2) :: utf16_of_utf8 r2
        else match r2 with
        | [] => []
        | b3 :: r3 =>
          let n3 := Byte.to_N b3 mod 64 in
          let cp := (n0 mod 8) * 262144 + n1 * 4096 + n2 * 64 + n3 - 65536 in
          (55296 + cp / 1024) :: (56320 + cp mod 1024) :: utf16_of_utf8 r3
        end end end
  end.

Inductive lit := LNil | LCons (n : N) (l : lit).

Definition lit_parse (bs : list Byte.byte) : lit :=
  fold_right LCons LNil (utf16_of_utf8 bs).

Fixpoint lit_bytes (l : lit) : option (list Byte.byte) :=
  match l with
  | LNil => Some []
  | LCons n l =>
    match (if n <? 128 then Byte.of_N n else None), lit_bytes l with
    | Some b, Some bs => Some (b :: bs)
    | _, _ => None
    end
  end.

Definition lit_print (l : lit) : option (list Byte.byte) :=
  match l with LNil => None | _ => lit_bytes l end.

Declare Scope js_scope.
Delimit Scope js_scope with js.
#[warnings="-via-type-remapping,-via-type-mismatch"]
String Notation js_literal lit_parse lit_print
  (via lit mapping [[nil] => LNil, [cons] => LCons]) : js_scope.
Open Scope js_scope.

(** The double quote, U+0022. *)
Definition DQ : jsstr := [34].

(** ** Equality and characters *)

Definition str_eqb (s t : jsstr) : bool := bool_decide (s = t).

Lemma str_eqb_spec s t : str_eqb s t = true ↔ s = t.
Proof. apply bool_decide_eq_true. Qed.

Lemma str_eqb_neq s t : str_eqb s t = false ↔ s ≠ t.
Proof. apply bool_decide_eq_false. Qed.

(** Truthiness of a string, [Boolean(s)]. *)
Definition nonempty (s : jsstr) : bool := match s with [] => false | _ => true end.

(** ECMAScript WhiteSpace and LineTerminator; also the class [\s]. *)
Definition is_ws (c : N) : bool :=
  ((9 <=? c) && (c <=? 13)) || (c =? 32) || (c =? 160) || (c =? 5760)
  || ((8192 <=? c) && (c <=? 8202)) || (c =? 8232) || (c =? 8233)
  || (c =? 8239) || (c =? 8287) || (c =? 12288) || (c =? 65279).

Definition is_digit (c : N) : bool := (48 <=? c) && (c <=? 57).

(** The class [\w]. *)
Definition is_word (c : N) : bool :=
  is_digit c || ((65 <=? c) && (c <=? 90)) || ((97 <=? c) && (c <=? 122)) || (c =? 95).

(** The characters [.] does not match without the [s] flag. *)
Definition is_line_terminator (c : N) : bool :=
  (c =? 10) || (c =? 13) || (c =? 8232) || (c =? 8233).

(** ** [trim] *)

Fixpoint trim_start (s : jsstr) : jsstr :=
  match s with
  | c :: s' => if is_ws c then trim_start s' else s
  | [] => []
  end.

Definition trim_end (s : jsstr) : jsstr := reverse (trim_start (reverse s)).

Definition trim (s : jsstr) : jsstr := trim_end (trim_start s).

(** ** Prefixes, suffixes, substrings *)

Fixpoint startsWith (s w : jsstr) : bool :=
  match w, s with
  | [], _ => true
  | c :: w', d :: s' => (c =? d) && startsWith s' w'
  | _, [] => false
  end.

Definition endsWith (s w : jsstr) : bool := startsWith (reverse s) (reverse w).

Fixpoint includes (s w : jsstr) : bool :=
  startsWith s w || match s with [] => false | _ :: s' => includes s' w end.

(** [s.slice(i, j)] for [0 <= i], [0 <= j]. *)
Definition slice (s : jsstr) (i j : nat) : jsstr := take (j - i) (drop i s).

(** [s.indexOf(w, i)] for [i] within the text; [None] for -1. *)
Fixpoint find_at (w s : jsstr) (i : nat) : option nat :=
  if startsWith s w then Some i
  else match s with [] => None | _ :: r => find_at w r (S i) end.
Definition indexOf (s w : jsstr) (i : nat) : option nat := find_at w (drop i s) i.

(** ** [split], [join], [replaceAll] *)

(** [s.split(sep)] for a one-character separator. *)
Fixpoint split_char (sep : N) (s : jsstr) : list jsstr :=
  match s with
  | [] => [[]]
  | c :: s' =>
    if c =? sep then [] :: split_char sep s'
    else match split_char sep s' with
         | p :: ps => (c :: p) :: ps
         | [] => [[c]]
         end
  end.

Fixpoint join (sep : jsstr) (ps : list jsstr) : jsstr :=
  match ps with
  | [] => []
  | [p] => p
  | p :: ps' => p ++ sep ++ join sep ps'
  end.

(** [s.replaceAll(c, w)] for a one-character pattern. *)
Definition replace_char (c : N) (w s : jsstr) : jsstr :=
  s ≫= (λ d, if d =? c then w else [d]).

(** [toLowerCase] on the Basic Latin and Latin-1 letters; the other code
    units have no lower-case mapping in this model and stay. *)
Definition lower_unit (c : N) : N :=
  if (65 <=? c) && (c <=? 90) then c + 32
  else if (192 <=? c) && (c <=? 222) && negb (c =? 215) then c + 32
  else c.

Definition toLowerCase (s : jsstr) : jsstr := lower_unit <$> s.

(** ** Lemmas on [trim] *)

(** A string [trim] leaves alone: empty, or with no white space at its ends. *)
Definition trimmed (s : jsstr) : bool :=
  match head s, last s with
  | Some a, Some b => negb (is_ws a) && negb (is_ws b)
  | _, _ => true
  end.

Lemma trim_start_head s :
  match head (trim_start s) with Some c => is_ws c = false | None => True end.
Proof. induction s as [|c s IH]; cbn; [done|]. by destruct (is_ws c) eqn:E. Qed.

Lemma trim_start_id s :
  match head s with Some c => is_ws c = false | None => True end → trim_start s = s.
Proof. destruct s as [|c s]; cbn; [done|]. by intros ->. Qed.

Lemma trim_start_suffix s : ∃ w, s = w ++ trim_start s.
Proof.
  induction s as [|c s [w IH]]; cbn; [by exists []|].
  destruct (is_ws c); [|by exists []]. exists (c :: w). cbn. congruence.
Qed.

Lemma head_reverse (s : jsstr) : head (reverse s) = last s.
Proof. rewrite <- (reverse_involutive s) at 2. by rewrite last_reverse. Qed.

Lemma trim_id s : trimmed s = true → trim s = s.
Proof.
  unfold trimmed, trim, trim_end. destruct s as [|c s]; [done|].
  destruct (last (c :: s)) as [b|] eqn:Hl; cbn [head]; [|by apply last_None in Hl].
  intros H. bool_hyps. rewrite (trim_start_id (c :: s)) by done.
  rewrite trim_start_id, reverse_involutive; [done|]. by rewrite head_reverse, Hl.
Qed.

Lemma trim_end_prefix s : ∃ w, s = trim_end s ++ w.
Proof.
  unfold trim_end. destruct (trim_start_suffix (reverse s)) as [w Hw].
  exists (reverse w). rewrite <- reverse_app, <- Hw. by rewrite reverse_involutive.
Qed.

Lemma trim_trimmed s : trimmed (trim s) = true.
Proof.
  unfold trimmed, trim. pose proof (trim_start_head s) as Hh.
  set (u := trim_start s) in *. destruct (trim_end_prefix u) as [w Hw].
  pose proof (trim_start_head (reverse u)) as Hl.
  destruct (trim_end u) as [|c t] eqn:E; [done|].
  assert (last (c :: t) = head (trim_start (reverse u))) as ->.
  { rewrite <- E. unfold trim_end. by rewrite last_reverse. }
  rewrite Hw in Hh. cbn in Hh |- *.
  destruct (head (trim_start (reverse u))); [|done]. by rewrite Hh, Hl.
Qed.

(** [trim] is idempotent. *)
Lemma trim_length s : (length (trim s) <= length s)%nat.
Proof.
  unfold trim. destruct (trim_start_suffix s) as [w Hw].
  destruct (trim_end_prefix (trim_start s)) as [u Hu].
  rewrite Hw at 2. rewrite Hu at 2. rewrite !length_app. lia.
Qed.

Lemma trim_nil_head c s : is_ws c = false → trim (c :: s) ≠ [].
Proof.
  intros Hc H. unfold trim in H. cbn [trim_start] in H. rewrite Hc in H. unfold trim_end in H.
  rewrite reverse_cons in H. apply (f_equal reverse) in H. rewrite reverse_involutive in H.
  assert (∀ u, trim_start (u ++ [c]) ≠ []) as Hn; [|by apply (Hn _ H)].
  intros u. induction u as [|d u IH]; cbn; [by rewrite Hc|]. by destruct (is_ws d).
Qed.

Lemma trim_idemp s : trim (trim s) = trim s.
Proof. apply trim_id, trim_trimmed. Qed.

(** ** Strings without white space *)

Definition no_ws (s : jsstr) : bool := forallb (λ c, negb (is_ws c)) s.

Lemma no_ws_trimmed s : no_ws s = true → trimmed s = true.
Proof.
  intros H. unfold trimmed. destruct (head s) as [a|] eqn:Ha; [|done].
  destruct (last s) as [b|] eqn:Hb; [|done].
  rewrite (forallb_elem _ _ a H), (forallb_elem _ _ b H); [done|..].
  - by apply last_Some_elem_of.
  - destruct s; cbn in *; set_solver.
Qed.

Lemma no_ws_trim s : no_ws s = true → trim s = s.
Proof. intros. by apply trim_id, no_ws_trimmed. Qed.

(** ** [split] and [join] *)

Definition lacks (sep : N) (s : jsstr) : bool := forallb (λ c, negb (c =? sep)) s.

Lemma split_char_lacks sep s : lacks sep s = true → split_char sep s = [s].
Proof.
  induction s as [|c s IH]; cbn; [done|]. intros. bool_hyps.
  rewrite H, IH; done.
Qed.

Lemma split_char_app sep s t :
  lacks sep s = true → split_char sep (s ++ sep :: t) = s :: split_char sep t.
Proof.
  induction s as [|c s IH]; cbn; intros.
  { by rewrite N.eqb_refl. }
  bool_hyps. by rewrite H, IH.
Qed.

(** Joining pieces that lack the separator and splitting again. *)
Lemma split_join sep ps :
  ps ≠ [] → forallb (lacks sep) ps = true → split_char sep (join [sep] ps) = ps.
Proof.
  induction ps as [|p [|q ps] IH]; intros Hne H; [done|..]; cbn [forallb] in H; bool_hyps.
  - by apply split_char_lacks.
  - change (join [sep] (p :: q :: ps)) with (p ++ sep :: join [sep] (q :: ps)).
    rewrite split_char_app by done. rewrite IH; [done..|].
    cbn. by rewrite H0, H1.
Qed.

Lemma split_char_parts_lack sep s : forallb (lacks sep) (split_char sep s) = true.
Proof.
  induction s as [|c s IH]; cbn; [done|]. destruct (c =? sep) eqn:E; cbn; [done|].
  destruct (split_char sep s) as [|p ps]; cbn in *; bool_hyps; bool_goal; by rewrite ?E.
Qed.

Lemma split_char_ne sep s : split_char sep s ≠ [].
Proof. destruct s; cbn; [done|]. by repeat case_match. Qed.

(** Splitting and joining again is the identity. *)
Lemma join_split sep s : join [sep] (split_char sep s) = s.
Proof.
  induction s as [|c s IH]; cbn; [done|].
  pose proof (split_char_ne sep s). destruct (c =? sep) eqn:E.
  - apply N.eqb_eq in E as ->. destruct (split_char sep s) eqn:Hs; [done|].
    rewrite <- IH. done.
  - destruct (split_char sep s) as [|p [|q ps]]; cbn in *; [done|congruence..].
Qed.

Lemma replace_char_lacks c w s : lacks c s = true → replace_char c w s = s.
Proof.
  unfold replace_char. induction s as [|d s IH]; cbn; [done|]. intros. bool_hyps.
  rewrite H. cbn. by rewrite IH.
Qed.

Lemma nonempty_spec s : nonempty s = true ↔ s ≠ [].
Proof. by destruct s. Qed.

(** A predicate on every character of the pieces and of the separator. *)
Lemma join_forallb (P : N → bool) sep ps :
  forallb P sep = true → forallb (forallb P) ps = true → forallb P (join sep ps) = true.
Proof.
  intros Hs. induction ps as [|p [|q ps] IH]; intros H; [done|..].
  - cbn in H. by bool_hyps.
  - change (join sep (p :: q :: ps)) with (p ++ sep ++ join sep (q :: ps)).
    cbn [forallb] in H. bool_hyps. rewrite !forallb_app. bool_goal. apply IH. cbn. bool_goal.
Qed.

(** Joining joined lists. *)
Lemma join_app sep ps qs :
  ps ≠ [] → qs ≠ [] → join sep (ps ++ qs) = join sep ps ++ sep ++ join sep qs.
Proof.
  intros Hp Hq. induction ps as [|p [|p' ps] IH]; [done|..].
  - by destruct qs.
  - change (join sep ((p :: p' :: ps) ++ qs)) with (p ++ sep ++ join sep ((p' :: ps) ++ qs)).
    rewrite IH by done.
    change (join sep (p :: p' :: ps)) with (p ++ sep ++ join sep (p' :: ps)). by rewrite <- !app_assoc.
Qed.

Lemma join_concat sep pss :
  Forall (λ ps, ps ≠ []) pss → join sep (join sep <$> pss) = join sep (concat pss).
Proof.
  induction pss as [|ps [|qs pss] IH]; intros H; [done|..]; apply Forall_cons in H as [H1 H2].
  - cbn. by rewrite app_nil_r.
  - change (concat (ps :: qs :: pss)) with (ps ++ concat (qs :: pss)).
    rewrite join_app, <- IH by (done || apply Forall_cons in H2 as [? _]; cbn; by destruct qs).
    done.
Qed.

(** Text between a first character and an end that [trim] keeps. *)
Lemma trimmed_between a s t :
  is_ws a = false → t ≠ [] → trimmed t = true → trimmed (a :: s ++ t) = true.
Proof.
  unfold trimmed. intros Ha Hne Ht. cbn [head]. rewrite app_comm_cons, last_app.
  destruct (last t) as [b|] eqn:E; [|by apply last_None in E].
  destruct t as [|c t]; [done|]. cbn in Ht. bool_hyps. by rewrite Ha, H0.
Qed.

Lemma trimmed_join a sep ps :
  Forall (λ p, trimmed p = true ∧ p ≠ []) (a :: ps) → trimmed (join sep (a :: ps)) = true.
Proof.
  intros [[Ha Hn] Hps]%Forall_cons. destruct ps as [|b ps]; [done|].
  assert (∃ u q, join sep (b :: ps) = u ++ q ∧ trimmed q = true ∧ q ≠ []) as (u & q & Hj & Hq & Hqn).
  { clear Ha Hn. revert b Hps. induction ps as [|d ps IH]; intros b [[Hb Hbn] Hps]%Forall_cons.
    - by exists [], b.
    - destruct (IH d Hps) as (u & q & E & ? & ?). exists (b ++ sep ++ u), q.
      change (join sep (b :: d :: ps)) with (b ++ sep ++ join sep (d :: ps)).
      by rewrite E, <- !app_assoc. }
  change (join sep (a :: b :: ps)) with (a ++ sep ++ join sep (b :: ps)). rewrite Hj.
  destruct a as [|x a]; [done|]. rewrite !app_assoc. cbn [app]. apply trimmed_between; [|done..].
  unfold trimmed in Ha. cbn [head] in Ha. destruct (last (x :: a)) eqn:E; [by bool_hyps|by apply last_None in E].
Qed.

(** Text without one of the characters of a pattern does not include it. *)
Lemma includes_lacks x s w : x ∈ w → lacks x s = true → includes s w = false.
Proof.
  intros Hx. assert (∀ s, lacks x s = true → startsWith s w = false) as Hw.
  { clear s. induction w as [|y w IH]; [set_solver|]. intros [|c s] Hs; [done|].
    cbn in Hs |- *. bool_hyps. apply elem_of_cons in Hx as [<-|Hx].
    - rewrite N.eqb_sym, H. done.
    - rewrite IH by done. by rewrite andb_false_r. }
  induction s as [|c s IH]; intros Hs; cbn [includes]; rewrite Hw by done; [done|].
  cbn in Hs. bool_hyps. by rewrite IH.
Qed.

Lemma startsWith_app w s : startsWith (w ++ s) w = true.
Proof. induction w as [|x w IH]; cbn; [by destruct s|]. by rewrite N.eqb_refl. Qed.

Lemma includes_app a w b : includes (a ++ w ++ b) w = true.
Proof.
  induction a as [|c a IH]; cbn [app].
  - destruct (w ++ b) eqn:E; cbn [includes]; rewrite <- E, startsWith_app; done.
  - cbn [includes]. by rewrite IH, orb_true_r.
Qed.

Lemma startsWith_nil s : startsWith s [] = true.
Proof. by destruct s. Qed.

(** Evaluates the string comparisons between constants. *)
Ltac str_eval :=
  repeat match goal with
  | |- context [str_eqb ?a ?b] =>
    let v := eval vm_compute in (str_eqb a b) in
    match v with true => idtac | false => idtac end;
    change (str_eqb a b) with v
  end; cbv iota.

(** ** Case folding

    What the sources rely on of [toLowerCase]: folding twice is folding once,
    white space at the ends neither appears nor disappears, the empty string
    is the only one folded to it, and ASCII text without capitals stays. *)

Definition ascii_lower (s : jsstr) : bool :=
  forallb (λ c, (c <? 128) && negb ((65 <=? c) && (c <=? 90))) s.

Class LowerCase (lower : jsstr → jsstr) : Prop := {
  lower_idemp s : lower (lower s) = lower s;
  lower_trimmed s : trimmed s = true → trimmed (lower s) = true;
  lower_empty s : lower s = [] → s = [];
  lower_ascii s : ascii_lower s = true → lower s = s;
}.

Lemma lower_unit_ws c : is_ws (lower_unit c) = is_ws c.
Proof. unfold lower_unit, is_ws. repeat case_match; lia. Qed.

#[export] Instance toLowerCase_LowerCase : LowerCase toLowerCase.
Proof.
  split.
  - intros s. unfold toLowerCase. rewrite <- list_fmap_compose. apply list_fmap_ext. intros i c _.
    cbn. unfold lower_unit. repeat case_match; lia.
  - intros s. unfold trimmed, toLowerCase. rewrite fmap_last. destruct s as [|c s]; [done|]. cbn [fmap list_fmap head].
    destruct (last (c :: s)); cbn; [by rewrite !lower_unit_ws|done].
  - by intros [|c s].
  - intros s. unfold ascii_lower, toLowerCase. induction s as [|c s IH]; cbn; [done|]. intros H. bool_hyps.
    rewrite IH by done. f_equal. unfold lower_unit. repeat case_match; lia.
Qed.
