(* ===== verification/JsRegExp.v ===== *)
(** * JavaScript regular expressions

    A backtracking matcher for the part of ECMAScript regular expressions the
    sources use: character classes, sequence, ordered alternation, greedy
    repetition, capture groups, back-references, [\b], and [^] and [$] (with the
    flag m [LineStart] and [LineEnd]).  Matching is written in
    continuation-passing style, as in the ECMAScript
    specification: [mtch r prev s caps k] matches [r] at the front of [s]
    ([prev] is the character before [s], [None] at the start of the input) and
    hands the rest to [k]; when [k] fails the next way to match [r] is tried,
    in the order the language fixes (greedy first, left alternative first).

    A repetition gives up when an iteration consumes nothing, as in
    ECMAScript, so [length s] iterations always suffice; the loop below is
    started with [S (length s)]. *)

From S2P Require Import Prelude JsString.
Local Open Scope N_scope.

Inductive re :=
  | Chr (P : N → bool)
  | Eps
  | Seq (r1 r2 : re)
  | Alt (r1 r2 : re)
  | Star (r : re)
  | Grp (i : nat) (r : re)
  | Back (i : nat)
  | Bol
  | Eol
  | WordB
  | LineStart
  | LineEnd.

(** Captured groups, the last write of a group first. *)
Abbreviation caps := (list (nat * jsstr)).

Fixpoint cap (c : caps) (i : nat) : option jsstr :=
  match c with
  | [] => None
  | (j, s) :: c' => if Nat.eqb i j then Some s else cap c' i
  end.

(** The capture groups of a pattern; a repetition forgets them before each
    iteration. *)
Fixpoint groups (r : re) : list nat :=
  match r with
  | Seq a b | Alt a b => groups a ++ groups b
  | Star a => groups a
  | Grp i a => i :: groups a
  | _ => []
  end.

Definition forget (gs : list nat) (c : caps) : caps :=
  List.filter (λ p, negb (bool_decide (p.1 ∈ gs))) c.

Definition last_char (prev : option N) (s : jsstr) : option N :=
  match last s with Some c => Some c | None => prev end.

Definition word_at (o : option N) : bool :=
  match o with Some c => is_word c | None => false end.

(** The loop of a greedy repetition, over a matcher for its body. *)
Definition star_loop {R} (body : option N → jsstr → caps →
      (option N → jsstr → caps → option R) → option R)
    (gs : list nat) (k : option N → jsstr → caps → option R) :=
  fix loop (n : nat) (prev : option N) (s : jsstr) (c : caps) : option R :=
    match n with
    | O => k prev s c
    | S n' =>
      match body prev s (forget gs c)
              (λ prev' s' c', if Nat.ltb (length s') (length s)
                              then loop n' prev' s' c' else None) with
      | Some x => Some x
      | None => k prev s c
      end
    end.

Fixpoint mtch {R} (r : re) (prev : option N) (s : jsstr) (c : caps)
    (k : option N → jsstr → caps → option R) {struct r} : option R :=
  match r with
  | Chr P => match s with
             | a :: s' => if P a then k (Some a) s' c else None
             | [] => None
             end
  | Eps => k prev s c
  | Seq a b => mtch a prev s c (λ prev' s' c', mtch b prev' s' c' k)
  | Alt a b => match mtch a prev s c k with
               | Some x => Some x
               | None => mtch b prev s c k
               end
  | Star a => star_loop (mtch a) (groups a) k (S (length s)) prev s c
  | Grp i a =>
    mtch a prev s c (λ prev' s' c',
      k prev' s' ((i, take (length s - length s') s) :: c'))
  | Back i =>
    match cap c i with
    | None => k prev s c
    | Some w => if startsWith s w
                then k (last_char prev w) (drop (length w) s) c else None
    end
  | Bol => match prev with None => k prev s c | Some _ => None end
  | Eol => match s with [] => k prev s c | _ => None end
  | WordB => if xorb (word_at prev) (word_at (head s)) then k prev s c else None
  | LineStart => match prev with Some a => if is_line_terminator a then k prev s c else None | None => k prev s c end
  | LineEnd => match s with a :: _ => if is_line_terminator a then k prev s c else None | [] => k prev s c end
  end.

(** ** Derived forms *)

(** A literal string. *)
Definition lit_re (w : jsstr) : re := fold_right (λ a r, Seq (Chr (N.eqb a)) r) Eps w.

Definition Plus (r : re) : re := Seq r (Star r).
Definition Opt (r : re) : re := Alt r Eps.
Definition seqs (rs : list re) : re := fold_right Seq Eps rs.

(** Ordered alternation [(a|b|...)] of literals. *)
Fixpoint alts (ws : list jsstr) : re :=
  match ws with
  | [] => Chr (λ _, false)
  | [w] => lit_re w
  | w :: ws' => Alt (lit_re w) (alts ws')
  end.

Definition digit : re := Chr is_digit.
Definition space : re := Chr is_ws.
Definition none_of (w : jsstr) : re := Chr (λ a, negb (bool_decide (a ∈ w))).
Definition one_of (w : jsstr) : re := Chr (λ a, bool_decide (a ∈ w)).
Definition any : re := Chr (λ a, negb (is_line_terminator a)).
Definition any_s : re := Chr (λ _, true).

(** ** Searching *)

(** A match: where it starts, where the rest of the input starts, groups. *)
Record match_result := Match {
  m_index : nat;
  m_text : jsstr;
  m_prev : option N;
  m_rest : jsstr;
  m_caps : caps;
}.

(** The match at the current position. *)
Definition match_here (r : re) (i : nat) (prev : option N) (s : jsstr) : option match_result :=
  mtch r prev s [] (λ prev' s' c, Some (Match i (take (length s - length s') s) prev' s' c)).

(** The leftmost match from the current position on ([RegExp.prototype.exec]). *)
Fixpoint exec_from (r : re) (i : nat) (prev : option N) (s : jsstr) : option match_result :=
  match match_here r i prev s with
  | Some m => Some m
  | None => match s with
            | [] => None
            | a :: s' => exec_from r (S i) (Some a) s'
            end
  end.

(** [s.match(r)] for a pattern without the [g] flag: the groups of the
    leftmost match. *)
Fixpoint re_match_from (r : re) (prev : option N) (s : jsstr) : option caps :=
  match mtch r prev s [] (λ _ _ c, Some c) with
  | Some c => Some c
  | None => match s with
            | [] => None
            | a :: s' => re_match_from r (Some a) s'
            end
  end.

Definition re_match (r : re) (s : jsstr) : option caps := re_match_from r None s.

(** [r.test(s)] *)
Definition re_test (r : re) (s : jsstr) : bool :=
  match re_match r s with Some _ => true | None => false end.

(** The successive matches of a pattern with the [g] flag; the patterns the
    sources iterate never match the empty string, which would loop. *)
Fixpoint exec_all_fuel (n : nat) (r : re) (i : nat) (prev : option N) (s : jsstr) : list match_result :=
  match n with
  | O => []
  | S n' =>
    match exec_from r i prev s with
    | None => []
    | Some m => m :: exec_all_fuel n' r (m_index m + length (m_text m)) (m_prev m) (m_rest m)
    end
  end.

Definition exec_all (r : re) (s : jsstr) : list match_result :=
  exec_all_fuel (S (length s)) r 0 None s.

(** [s.replaceAll(r, w)]. *)
Fixpoint replace_fuel (n : nat) (r : re) (w : jsstr) (i : nat) (prev : option N) (s : jsstr) : jsstr :=
  match n with
  | O => s
  | S n' =>
    match exec_from r i prev s with
    | None => s
    | Some m =>
      take (m_index m - i) s ++ w ++
      replace_fuel n' r w (m_index m + length (m_text m)) (m_prev m) (m_rest m)
    end
  end.

Definition re_replace (r : re) (w s : jsstr) : jsstr := replace_fuel (S (length s)) r w 0 None s.

(** [s.split(r)] for a pattern without groups that never matches the empty
    string. *)
Fixpoint split_fuel (n : nat) (r : re) (i : nat) (prev : option N) (s : jsstr) : list jsstr :=
  match n with
  | O => [s]
  | S n' =>
    match exec_from r i prev s with
    | None => [s]
    | Some m =>
      take (m_index m - i) s ::
      split_fuel n' r (m_index m + length (m_text m)) (m_prev m) (m_rest m)
    end
  end.

Definition re_split (r : re) (s : jsstr) : list jsstr := split_fuel (S (length s)) r 0 None s.

(** [m[i]] of a match, as the source reads it ([undefined] as empty). *)
Definition grp (c : caps) (i : nat) : jsstr := default [] (cap c i).

(** ** Equations of the matcher *)

Section Equations.
Context {R : Type}.
Implicit Types (k : option N → jsstr → caps → option R) (prev : option N)
  (s w a b : jsstr) (c : caps) (r : re) (P : N → bool).

Lemma mtch_seq r1 r2 prev s c k :
  mtch (Seq r1 r2) prev s c k = mtch r1 prev s c (λ p s c, mtch r2 p s c k).
Proof. done. Qed.

Lemma mtch_grp i r prev s c k :
  mtch (Grp i r) prev s c k =
  mtch r prev s c (λ p s' c', k p s' ((i, take (length s - length s') s) :: c')).
Proof. done. Qed.

Lemma mtch_ext r prev s c k k' :
  (∀ p t d, k p t d = k' p t d) → mtch r prev s c k = mtch r prev s c k'.
Proof.
  revert prev s c k k'. induction r; intros prev s c k k' Hk; cbn [mtch].
  - destruct s; [done|]. destruct (P n); auto.
  - done.
  - apply IHr1. intros. by apply IHr2.
  - rewrite (IHr1 _ _ _ k k') by done. by rewrite (IHr2 _ _ _ k k').
  - generalize (S (length s)) as n. intros n. revert prev s c.
    induction n as [|n IHn]; intros prev s c; cbn; [done|].
    erewrite IHr; [by rewrite Hk|]. intros p t d. cbn.
    case_match; [apply IHn|done].
  - by apply IHr.
  - destruct (cap c i); [case_match|]; auto.
  - destruct prev; auto.
  - destruct s; auto.
  - case_match; auto.
  - destruct prev; [case_match|]; auto.
  - destruct s; [|case_match]; auto.
Qed.

(** Literals. *)
Lemma last_char_cons prev x w : last_char (Some x) w = last_char prev (x :: w).
Proof.
  unfold last_char. destruct w as [|y w]; [done|]. rewrite last_cons_cons.
  destruct (last (y :: w)) eqn:E; [done|]. by apply last_None in E.
Qed.

Lemma mtch_lit w prev s c k :
  mtch (lit_re w) prev s c k =
  if startsWith s w then k (last_char prev w) (drop (length w) s) c else None.
Proof.
  revert prev s. induction w as [|x w IH]; intros prev s; cbn -[last_char]; [by destruct s|].
  destruct s as [|y s]; [done|]. cbn -[last_char]. destruct (x =? y) eqn:E; [|done].
  apply N.eqb_eq in E as ->. fold (lit_re w). by rewrite IH, (last_char_cons prev).
Qed.


Lemma mtch_lit_app w prev s c k :
  mtch (lit_re w) prev (w ++ s) c k = k (last_char prev w) s c.
Proof. by rewrite mtch_lit, startsWith_app, drop_app_length. Qed.

(** Greedy repetition of a character class. *)
Fixpoint greedy P k prev s c : option R :=
  match s with
  | x :: s' =>
    if P x then match greedy P k (Some x) s' c with
                | Some y => Some y
                | None => k prev s c
                end
    else k prev s c
  | [] => k prev s c
  end.

Lemma star_loop_S body gs k n prev s c :
  star_loop body gs k (S n) prev s c =
  match body prev s (forget gs c)
          (λ prev' s' c', if Nat.ltb (length s') (length s)
                          then star_loop body gs k n prev' s' c' else None) with
  | Some x => Some x
  | None => k prev s c
  end.
Proof. done. Qed.

Lemma forget_nil c : forget [] c = c.
Proof. induction c as [|p c IH]; cbn; [done|]. f_equal. exact IH. Qed.

Lemma mtch_star_chr P prev s c k : mtch (Star (Chr P)) prev s c k = greedy P k prev s c.
Proof.
  cbn [mtch groups].
  assert (∀ n, (length s < n)%nat →
    star_loop (mtch (Chr P)) [] k n prev s c = greedy P k prev s c) as H;
    [|apply H; lia].
  intros n. revert prev s. induction n as [|n IH]; intros prev s Hn; [lia|].
  rewrite star_loop_S, forget_nil. cbn [mtch].
  destruct s as [|x s]; [done|]. cbn [greedy length] in *. destruct (P x); [|done].
  rewrite (proj2 (Nat.ltb_lt _ _)) by lia. by rewrite IH by lia.
Qed.

Lemma mtch_plus_chr P prev s c k :
  mtch (Plus (Chr P)) prev s c k =
  match s with
  | x :: s' => if P x then greedy P k (Some x) s' c else None
  | [] => None
  end.
Proof.
  unfold Plus. rewrite mtch_seq. cbn [mtch]. destruct s as [|x s]; [done|].
  destruct (P x); [|done]. apply (mtch_star_chr P (Some x) s c k).
Qed.

(** [k] fails on every string that starts with a [P] character. *)
Definition rejects P k : Prop :=
  ∀ prev x s c, P x = true → k prev (x :: s) c = None.

Definition starts_out P s : Prop :=
  match s with x :: _ => P x = false | [] => True end.

Lemma greedy_longest P k prev a b c :
  forallb P a = true → starts_out P b → rejects P k →
  greedy P k prev (a ++ b) c = k (last_char prev a) b c.
Proof.
  intros Ha Hb Hk. revert prev Ha. induction a as [|x a IH]; intros prev Ha; cbn in *.
  { destruct b as [|y b]; cbn in *; [done|]. by rewrite Hb. }
  bool_hyps. rewrite H, IH by done. rewrite (last_char_cons prev).
  destruct (k _ b c) eqn:E; [done|]. by apply Hk.
Qed.

Lemma rejects_lit P x w r k :
  P x = false → rejects P (λ p s c, mtch (Seq (lit_re (x :: w)) r) p s c k).
Proof.
  intros Hx prev y s c Hy. cbn. destruct (x =? y) eqn:E; [|done].
  apply N.eqb_eq in E. congruence.
Qed.

Lemma rejects_eol P r k : rejects P (λ p s c, mtch (Seq Eol r) p s c k).
Proof. by intros prev x s c _. Qed.

Lemma rejects_chr P Q r k :
  (∀ x, P x = true → Q x = false) →
  rejects P (λ p s c, mtch (Seq (Chr Q) r) p s c k).
Proof. intros H prev x s c Hx. cbn. by rewrite H. Qed.

Lemma take_app_sub (a b : jsstr) : take (length (a ++ b) - length b) (a ++ b) = a.
Proof. rewrite length_app, Nat.add_sub. apply take_app_length. Qed.

(** A captured greedy run [(P+)] followed by something a [P] character
    cannot start: the longest run is taken. *)
Lemma mtch_grp_plus P i r prev a b c k :
  forallb P a = true → a ≠ [] → starts_out P b →
  rejects P (λ p s c, mtch r p s c k) →
  mtch (Seq (Grp i (Plus (Chr P))) r) prev (a ++ b) c k =
  mtch r (last_char prev a) b ((i, a) :: c) k.
Proof.
  intros Ha Hne Hb Hr. rewrite mtch_seq. cbn [mtch].
  destruct a as [|x a]; [done|]. cbn [app]. cbn in Ha. bool_hyps.
  change (mtch (Plus (Chr P)) prev (x :: a ++ b) c) with
    (λ k, mtch (Plus (Chr P)) (R:=R) prev (x :: a ++ b) c k). cbv beta.
  rewrite mtch_plus_chr, H, greedy_longest; [|done..|].
  - change (x :: a ++ b) with ((x :: a) ++ b).
    by rewrite take_app_sub, (last_char_cons prev).
  - intros p y s d Hy. by apply Hr.
Qed.

(** The same run with nothing to match. *)
Lemma mtch_grp_plus_none P i r prev s c k :
  starts_out P s → mtch (Seq (Grp i (Plus (Chr P))) r) prev s c k = None.
Proof.
  intros Hs. rewrite mtch_seq. cbn [mtch].
  change (mtch (Plus (Chr P)) prev s c) with
    (λ k, mtch (Plus (Chr P)) (R:=R) prev s c k). cbv beta.
  rewrite mtch_plus_chr. destruct s as [|x s]; cbn in *; [done|]. by rewrite Hs.
Qed.
End Equations.

(** A pattern that starts with [^] can only match at the start. *)
Lemma re_match_anchored r s :
  re_match (Seq Bol r) s = mtch r None s [] (λ _ _ c, Some c).
Proof.
  unfold re_match. destruct s as [|a s]; cbn; [by destruct (mtch r _ _ _ _)|].
  destruct (mtch r None (a :: s) _ _); [done|].
  revert a. induction s as [|b s IH]; intros a; cbn; [done|]. apply IH.
Qed.

(** ** Soundness of the matcher

    [matches r c w s c'] says that [r] matches [w] when [s] follows, turning
    the captures [c] into [c']; the character before the match is not
    tracked, so the relation over-approximates [^] and [\b]. *)

Inductive matches : re → caps → jsstr → jsstr → caps → Prop :=
  | matches_chr P c x s : P x = true → matches (Chr P) c [x] s c
  | matches_eps c s : matches Eps c [] s c
  | matches_seq r1 r2 c w1 w2 s c1 c2 :
      matches r1 c w1 (w2 ++ s) c1 → matches r2 c1 w2 s c2 →
      matches (Seq r1 r2) c (w1 ++ w2) s c2
  | matches_alt_l r1 r2 c w s c' : matches r1 c w s c' → matches (Alt r1 r2) c w s c'
  | matches_alt_r r1 r2 c w s c' : matches r2 c w s c' → matches (Alt r1 r2) c w s c'
  | matches_star_nil r c s : matches (Star r) c [] s c
  | matches_star_cons r c w1 w2 s c1 c2 :
      matches r (forget (groups r) c) w1 (w2 ++ s) c1 → matches (Star r) c1 w2 s c2 →
      matches (Star r) c (w1 ++ w2) s c2
  | matches_grp i r c w s c' : matches r c w s c' → matches (Grp i r) c w s ((i, w) :: c')
  | matches_back_some i c w s : cap c i = Some w → matches (Back i) c w s c
  | matches_back_none i c s : cap c i = None → matches (Back i) c [] s c
  | matches_bol c s : matches Bol c [] s c
  | matches_eol c : matches Eol c [] [] c
  | matches_wordb c s : matches WordB c [] s c
  | matches_line_start c s : matches LineStart c [] s c
  | matches_line_end c s : matches LineEnd c [] s c.

#[export] Hint Constructors matches : js.

Lemma startsWith_take s w : startsWith s w = true → s = w ++ drop (length w) s.
Proof.
  revert s. induction w as [|x w IH]; intros s; [done|].
  destruct s as [|y s]; [done|]. cbn. intros H. bool_hyps. apply N.eqb_eq in H as ->.
  f_equal. by apply IH.
Qed.

Lemma mtch_sound {R} r prev s c (k : option N → jsstr → caps → option R) x :
  mtch r prev s c k = Some x →
  ∃ w s' p c', s = w ++ s' ∧ matches r c w s' c' ∧ k p s' c' = Some x.
Proof.
  revert prev s c k x. induction r; intros prev s c k x; cbn [mtch]; intros H.
  - destruct s as [|a s]; [done|]. destruct (P a) eqn:E; [|done].
    exists [a]. eauto 10 with js.
  - exists []. eauto 10 with js.
  - apply IHr1 in H as (w1 & s1 & p1 & c1 & -> & ? & H).
    apply IHr2 in H as (w2 & s2 & p2 & c2 & -> & ? & H).
    exists (w1 ++ w2), s2, p2, c2. rewrite <- app_assoc. eauto 10 with js.
  - destruct (mtch r1 prev s c k) eqn:E; simplify_eq.
    + apply IHr1 in E as (w1 & s1 & p1 & c1 & -> & ? & E). eauto 10 with js.
    + apply IHr2 in H as (w1 & s1 & p1 & c1 & -> & ? & H). eauto 10 with js.
  - revert H. generalize (S (length s)) as n. intros n. revert prev s c.
    induction n as [|n IHn]; intros prev s c H; [exists []; eauto 10 with js|].
    rewrite star_loop_S in H. destruct (mtch r _ _ _ _) eqn:E; simplify_eq.
    + apply IHr in E as (w1 & s1 & p1 & c1 & -> & ? & E).
      case_match; [|done]. apply IHn in E as (w2 & s2 & p2 & c2 & -> & ? & E).
      exists (w1 ++ w2), s2, p2, c2. rewrite <- app_assoc. eauto 10 with js.
    + exists []. eauto 10 with js.
  - apply IHr in H as (w & s' & p & c' & -> & ? & H).
    rewrite take_app_sub in H. eauto 10 with js.
  - destruct (cap c i) as [w|] eqn:E; [|exists []; eauto 10 with js].
    destruct (startsWith s w) eqn:Hw; [|done].
    exists w. apply startsWith_take in Hw. eauto 10 with js.
  - destruct prev; [done|]. exists []. eauto 10 with js.
  - destruct s; [|done]. exists []. eauto 10 with js.
  - case_match; [|done]. exists []. eauto 10 with js.
  - assert (k prev s c = Some x) by (repeat case_match; by simplify_eq). exists []. eauto 10 with js.
  - assert (k prev s c = Some x) by (repeat case_match; by simplify_eq). exists []. eauto 10 with js.
Qed.

(** An anchored pattern that succeeds describes the whole text up to where it
    stopped. *)
Lemma re_match_sound r s c :
  re_match (Seq Bol r) s = Some c → ∃ w s', s = w ++ s' ∧ matches r [] w s' c.
Proof.
  rewrite re_match_anchored. intros H.
  apply mtch_sound in H as (w & s' & p & c' & -> & ? & H). simplify_eq. eauto.
Qed.

(** The characters a pattern without back-references can consume. *)
Fixpoint only (Q : N → Prop) (r : re) : Prop :=
  match r with
  | Chr P => ∀ x, P x = true → Q x
  | Seq a b | Alt a b => only Q a ∧ only Q b
  | Star a | Grp _ a => only Q a
  | Back _ => False
  | _ => True
  end.

Lemma matches_only Q r c w s c' : matches r c w s c' → only Q r → Forall Q w.
Proof.
  induction 1; cbn [only]; intros HQ; destruct_and?;
    rewrite ?Forall_app, ?Forall_nil, ?Forall_singleton; auto; done.
Qed.

(** Patterns that always consume something. *)
Fixpoint nonnull (r : re) : bool :=
  match r with
  | Chr _ => true
  | Seq a b => nonnull a || nonnull b
  | Alt a b => nonnull a && nonnull b
  | Grp _ a => nonnull a
  | _ => false
  end.

Lemma matches_nonnull r c w s c' : matches r c w s c' → nonnull r = true → w ≠ [].
Proof.
  induction 1; cbn; intros HQ; bool_hyps; auto; try done.
  apply orb_true_iff in HQ as [HQ|HQ]; intros [-> ->]%app_nil; tauto.
Qed.

(** A pattern that ends with [$] leaves nothing. *)
Lemma matches_seqs_eol rs c w s c' : matches (seqs (rs ++ [Eol])) c w s c' → s = [].
Proof.
  revert c w. induction rs as [|r rs IH]; cbn; intros c w H; inversion H; subst.
  - by match goal with H1 : matches Eps _ _ _ _, H2 : matches Eol _ _ _ _ |- _ =>
      inversion H1; subst; inversion H2 end.
  - eauto.
Qed.

(** ** Forward evaluation of patterns on partly known text *)

Section Forward.
Context {R : Type}.
Implicit Types (k : option N → jsstr → caps → option R).

Lemma mtch_seq_lit w r prev s c k :
  mtch (Seq (lit_re w) r) prev s c k =
  if startsWith s w then mtch r (last_char prev w) (drop (length w) s) c k else None.
Proof. by rewrite mtch_seq, mtch_lit. Qed.

Lemma mtch_grp_lit i w r prev s c k :
  mtch (Seq (Grp i (lit_re w)) r) prev s c k =
  if startsWith s w
  then mtch r (last_char prev w) (drop (length w) s) ((i, w) :: c) k else None.
Proof.
  rewrite mtch_seq. cbn [mtch]. rewrite mtch_lit. destruct (startsWith s w) eqn:E; [|done].
  apply startsWith_take in E. remember (drop (length w) s) as u eqn:Hu. clear Hu.
  subst s. by rewrite take_app_sub.
Qed.

(** The alternatives of a captured choice of literals are tried in order. *)
Fixpoint choose i ws r prev s c k : option R :=
  match ws with
  | [] => None
  | w :: ws' =>
    match (if startsWith s w
           then mtch r (last_char prev w) (drop (length w) s) ((i, w) :: c) k else None) with
    | Some x => Some x
    | None => choose i ws' r prev s c k
    end
  end.

Lemma mtch_grp_alts i ws r prev s c k :
  mtch (Seq (Grp i (alts ws)) r) prev s c k = choose i ws r prev s c k.
Proof.
  induction ws as [|w [|w' ws] IH].
  - cbn. by destruct s.
  - cbn [alts choose]. rewrite mtch_grp_lit. by destruct (if startsWith s w then _ else _).
  - change (alts (w :: w' :: ws)) with (Alt (lit_re w) (alts (w' :: ws))).
    remember (w' :: ws) as ws'. cbn [choose]. rewrite <- IH, <- mtch_grp_lit. done.
Qed.

Lemma choose_none i ws r prev s c k :
  (∀ w, w ∈ ws → startsWith s w = false) → choose i ws r prev s c k = None.
Proof.
  induction ws as [|w ws IH]; intros H; cbn; [done|].
  rewrite H by set_solver. apply IH. set_solver.
Qed.

(** Only one alternative is a prefix of the text. *)
Lemma choose_one i ws w r prev s c k :
  w ∈ ws → (∀ w', w' ∈ ws → w' ≠ w → startsWith (w ++ s) w' = false) → NoDup ws →
  choose i ws r prev (w ++ s) c k = mtch r (last_char prev w) s ((i, w) :: c) k.
Proof.
  induction ws as [|u ws IH]; intros Hw H Hnd; [set_solver|]. apply NoDup_cons in Hnd as [Hu Hnd].
  cbn. destruct (decide (u = w)) as [->|Hne].
  - rewrite startsWith_app, drop_app_length, choose_none; [by destruct (mtch _ _ _ _ _)|].
    intros w' Hw'. apply H; set_solver.
  - rewrite H by set_solver. apply IH; set_solver.
Qed.

Lemma mtch_back i w r prev s c k :
  cap c i = Some w →
  mtch (Seq (Back i) r) prev s c k =
  if startsWith s w then mtch r (last_char prev w) (drop (length w) s) c k else None.
Proof. intros H. rewrite mtch_seq. cbn [mtch]. by rewrite H. Qed.

(** A greedy run whose continuation fails on every proper suffix of [b]. *)
Lemma greedy_to P k prev a b c x :
  forallb P (a ++ b) = true →
  (∀ d e prev', b = d ++ e → d ≠ [] → k prev' e c = None) →
  k (last_char prev a) b c = Some x →
  greedy P k prev (a ++ b) c = Some x.
Proof.
  intros Ha Hb Hk. revert prev Ha Hk. induction a as [|y a IH]; intros prev Ha Hk; cbn in *.
  - assert (∀ d e prev', b = d ++ e → d ≠ [] → greedy P k prev' e c = None) as Hg.
    { intros d e. revert d. induction e as [|z e IHe]; intros d prev' -> Hd; cbn.
      - by eapply Hb.
      - rewrite (Hb d (z :: e)) by done. destruct (P z); [|done].
        rewrite (IHe (d ++ [z])); [done| |by destruct d]. by rewrite <- app_assoc. }
    destruct b as [|z b]; cbn in *; [done|]. bool_hyps. rewrite H.
    by rewrite (Hg [z] b).
  - bool_hyps. rewrite H. by rewrite (IH (Some y)) by (rewrite ?(last_char_cons prev); done).
Qed.

(** A captured greedy run that stops at [b] because what follows matches at no
    later place. *)
Lemma mtch_grp_plus_to P i r prev a b c k x :
  a ≠ [] → forallb P (a ++ b) = true →
  (∀ d e prev' c', b = d ++ e → d ≠ [] → mtch r prev' e c' k = None) →
  mtch r (last_char prev a) b ((i, a) :: c) k = Some x →
  mtch (Seq (Grp i (Plus (Chr P))) r) prev (a ++ b) c k = Some x.
Proof.
  intros Hne Ha Hb Hx. rewrite mtch_seq, mtch_grp. destruct a as [|y a]; [done|].
  cbn [app forallb] in *. bool_hyps. rewrite mtch_plus_chr, H.
  apply greedy_to; [done| |].
  - intros d e prev' -> Hd. by eapply Hb.
  - change (y :: a ++ b) with ((y :: a) ++ b). rewrite take_app_sub.
    by rewrite (last_char_cons prev).
Qed.
End Forward.

(** Evaluates the literals at the front of a pattern on known text. *)
Ltac lit_eval :=
  cbn [startsWith app drop length N.eqb Pos.eqb andb DQ];
  rewrite ?startsWith_nil, ?drop_0; cbv iota.
Ltac lit_step := rewrite mtch_seq_lit; lit_eval.

Lemma option_or_none {R} (o : option R) : match o with Some x => Some x | None => None end = o.
Proof. by destruct o. Qed.

(** A repetition whose first alternative is a character class, on a run of
    that class after which the loop cannot go on. *)
Lemma mtch_star_alt {R} P r prev a b c (k : option N → jsstr → caps → option R) x :
  groups r = [] → forallb P a = true → starts_out P b →
  (∀ prev c k', @mtch R r prev b c k' = None) →
  k (last_char prev a) b c = Some x →
  mtch (Star (Alt (Chr P) r)) prev (a ++ b) c k = Some x.
Proof.
  intros Hg Ha Hb Hr Hk. cbn [mtch groups]. rewrite Hg. cbn [app].
  assert (∀ n prev, (length (a ++ b) < n)%nat → k (last_char prev a) b c = Some x →
    star_loop (mtch (Alt (Chr P) r)) [] k n prev (a ++ b) c = Some x) as H; [|apply H; [lia|done]].
  clear Hk prev. induction a as [|y a IH]; intros [|n] prev Hn Hk; [lia| |cbn in Hn; lia|];
    rewrite star_loop_S, forget_nil; cbn [mtch app].
  - destruct b as [|z b]; cbn in Hb; rewrite ?Hb, Hr; done.
  - cbn in Ha. bool_hyps. rewrite H. cbn [app length] in *.
    rewrite (proj2 (Nat.ltb_lt _ _)) by lia. rewrite IH; [done|done|lia|].
    by rewrite (last_char_cons prev).
Qed.
