(* ===== verification/JsNumber.v ===== *)
(** * JavaScript numbers

    A number is an IEEE-754 binary64 value, taken from the Standard Library's
    executable specification ([spec_float] with 53 bits of precision).  The
    file gives the arithmetic and comparisons the sources use, the conversion
    from text ([Number(s)], correctly rounded) and the conversion to text
    ([String(x)], the shortest decimal that reads back as [x]). *)

From Stdlib Require Import SpecFloat.
From S2P Require Import Prelude JsString.
Local Open Scope Z_scope.

Abbreviation number := spec_float.

Definition NaN : number := S754_nan.
Definition pos_inf : number := S754_infinity false.
Definition neg_inf : number := S754_infinity true.

Definition of_Z (z : Z) : number := binary_normalize 53 1024 z 0 false.

Definition num_add : number → number → number := SFadd 53 1024.
Definition num_sub : number → number → number := SFsub 53 1024.
Definition num_mul : number → number → number := SFmul 53 1024.
Definition num_div : number → number → number := SFdiv 53 1024.
Definition num_ltb : number → number → bool := SFltb.
Definition num_leb : number → number → bool := SFleb.
(** [===] on numbers: [NaN] differs from itself, the zeros are equal. *)
Definition num_eqb : number → number → bool := SFeqb.

#[global] Instance number_eq_dec : EqDecision number.
Proof. solve_decision. Defined.

(** [Number.isFinite] *)
Definition is_finite (x : number) : bool :=
  match x with S754_zero _ | S754_finite _ _ _ => true | _ => false end.

(** [Number.isInteger] *)
Definition is_integer (x : number) : bool :=
  match x with
  | S754_zero _ => true
  | S754_finite _ m e => (0 <=? e) || (Z.pos m mod 2 ^ (- e) =? 0)
  | _ => false
  end.

(** [Boolean(x)] *)
Definition num_truthy (x : number) : bool :=
  match x with S754_zero _ | S754_nan => false | _ => true end.

(** [x || 0] *)
Definition num_or_0 (x : number) : number := if num_truthy x then x else of_Z 0.

(** ** Text to number *)

(** The double nearest to [(-1)^neg * m * 10^e].  Beyond 10^400 or below
    10^-400 the result is infinite or zero whatever the digits. *)
Definition dec_to_num (neg : bool) (m : Z) (e : Z) : number :=
  match m with
  | Z.pos p =>
    if 400 <? Z.log2 m * 3 / 10 + e then S754_infinity neg
    else if e + (Z.log2 m + 1) / 3 + 1 <? -400 then S754_zero neg
    else if 0 <=? e then binary_round 53 1024 neg (p * Z.to_pos (10 ^ e))%positive 0
    else let '(q, e', l) := SFdiv_core_binary 53 1024 m 0 (10 ^ (- e)) 0 in
         binary_round_aux 53 1024 neg q e' l
  | _ => S754_zero neg
  end.

Definition digits_val (ds : jsstr) : Z :=
  fold_left (λ acc d, 10 * acc + (Z.of_N d - 48)) ds 0.

(** An optional exponent part; [None] when the text is not one. *)
Definition parse_exp (s : jsstr) : option Z :=
  match s with
  | [] => Some 0
  | c :: s' =>
    if (c =? 101)%N || (c =? 69)%N then
      let '(neg, ds) := match s' with
                        | 43%N :: r => (false, r)
                        | 45%N :: r => (true, r)
                        | _ => (false, s')
                        end in
      if nonempty ds && forallb is_digit ds
      then Some (if (neg : bool) then - digits_val ds else digits_val ds)
      else None
    else None
  end.

(** StrUnsignedDecimalLiteral *)
Definition parse_unsigned (neg : bool) (s : jsstr) : number :=
  if str_eqb s "Infinity" then S754_infinity neg else
  let '(ip, r) := span is_digit s in
  let '(fp, r') := match r with
                   | 46%N :: r1 => span is_digit r1
                   | _ => ([], r)
                   end in
  if nonempty ip || nonempty fp then
    match parse_exp r' with
    | Some e => dec_to_num neg (digits_val (ip ++ fp)) (e - Z.of_nat (length fp))
    | None => NaN
    end
  else NaN.

Definition hex_val (c : N) : option Z :=
  if is_digit c then Some (Z.of_N c - 48)
  else if ((97 <=? c) && (c <=? 102))%N then Some (Z.of_N c - 87)
  else if ((65 <=? c) && (c <=? 70))%N then Some (Z.of_N c - 55)
  else None.

(** Digits of [0x], [0o] and [0b] literals. *)
Definition parse_radix (radix : Z) (s : jsstr) : number :=
  match s with
  | [] => NaN
  | _ => match fold_left (λ acc c, match acc, hex_val c with
                                   | Some a, Some d => if d <? radix then Some (radix * a + d) else None
                                   | _, _ => None
                                   end) s (Some 0) with
         | Some v => of_Z v
         | None => NaN
         end
  end.

(** [Number(s)] on a string. *)
Definition Number_of_string (s : jsstr) : number :=
  match trim s with
  | [] => of_Z 0
  | 43%N :: r => parse_unsigned false r
  | 45%N :: r => parse_unsigned true r
  | 48%N :: c :: r =>
    if (c =? 120)%N || (c =? 88)%N then parse_radix 16 r
    else if (c =? 111)%N || (c =? 79)%N then parse_radix 8 r
    else if (c =? 98)%N || (c =? 66)%N then parse_radix 2 r
    else parse_unsigned false (48%N :: c :: r)
  | r => parse_unsigned false r
  end.

(** ** Number to text *)

Fixpoint digits_fuel (n : nat) (z : Z) (acc : jsstr) : jsstr :=
  match n with
  | O => acc
  | S n' =>
    let acc' := (Z.to_N (z mod 10) + 48)%N :: acc in
    if z / 10 =? 0 then acc' else digits_fuel n' (z / 10) acc'
  end.

(** Decimal digits of a non-negative integer. *)
Definition Z_digits (z : Z) : jsstr := digits_fuel (S (Z.to_nat (Z.log2 z))) z [].

(** Decimal text of an integer, [String(z)] below 10^21. *)
Definition Z_to_string (z : Z) : jsstr :=
  if z <? 0 then 45%N :: Z_digits (- z) else Z_digits z.

(** The value [p/q] of a positive finite double. *)
Definition num_ratio (m : positive) (e : Z) : Z * Z :=
  if 0 <=? e then (Z.pos m * 2 ^ e, 1) else (Z.pos m, 2 ^ (- e)).

(** [10^x] as a ratio, [p * 10^x / q]. *)
Definition scale10 (p q x : Z) : Z * Z :=
  if 0 <=? x then (p * 10 ^ x, q) else (p, q * 10 ^ (- x)).

(** The [n] with [10^(n-1) <= p/q < 10^n]; the estimate from the binary
    logarithms is at most two below it. *)
Definition dec_exponent (p q : Z) : Z :=
  let est := (Z.log2 p - Z.log2 q) * 30103 / 100000 - 1 in
  let below n := let '(a, b) := scale10 p q (- n) in a <? b in
  if below est then est else if below (est + 1) then est + 1
  else if below (est + 2) then est + 2 else est + 3.

(** The shortest digits: for [k] digits the two neighbours of
    [p/q * 10^(k-n)], the nearer one first. *)
Fixpoint shortest (fuel : nat) (k : Z) (x : number) (p q n : Z) : Z * Z * Z :=
  let '(a, b) := scale10 p q (k - n) in
  let lo := a / b in
  let '(c1, c2) := if 2 * (a - lo * b) <=? b then (lo, lo + 1) else (lo + 1, lo) in
  let ok c := (0 <? c) && bool_decide (dec_to_num false c (n - k) = x) in
  match fuel with
  | O => (c1, k, n)
  | S fuel' =>
    if ok c1 then (c1, k, n) else if ok c2 then (c2, k, n)
    else shortest fuel' (k + 1) x p q n
  end.

Definition zeros (n : Z) : jsstr := replicate (Z.to_nat n) 48%N.

(** The layout of [Number::toString]: [k] digits [ds], decimal exponent [n]. *)
Definition layout (ds : jsstr) (k n : Z) : jsstr :=
  if (k <=? n) && (n <=? 21) then ds ++ zeros (n - k)
  else if (0 <? n) && (n <=? 21) then
    take (Z.to_nat n) ds ++ "." ++ drop (Z.to_nat n) ds
  else if (-6 <? n) && (n <=? 0) then "0." ++ zeros (- n) ++ ds
  else
    let e := (if 0 <=? n - 1 then "+" else "-") ++ Z_digits (Z.abs (n - 1)) in
    match ds with
    | [d] => [d] ++ "e" ++ e
    | d :: r => [d] ++ "." ++ r ++ "e" ++ e
    | [] => []
    end.

(** [String(x)], also [`${x}`]. *)
Definition num_to_string (x : number) : jsstr :=
  match x with
  | S754_nan => "NaN"
  | S754_infinity s => if s then "-Infinity" else "Infinity"
  | S754_zero _ => "0"
  | S754_finite s m e =>
    let '(p, q) := num_ratio m e in
    let '(c, k, n) := shortest 17 1 (S754_finite false m e) p q (dec_exponent p q) in
    let ds := Z_digits c in
    (* rounding up to a power of ten leaves one digit *)
    let '(ds, k, n) := if Z.of_nat (length ds) =? k then (ds, k, n) else ([49%N], 1, n + 1) in
    (if s then [45%N] else []) ++ layout ds k n
  end.

(** [Math.max] and [Math.min] of two numbers. *)
Definition num_max (x y : number) : number :=
  match x, y with
  | S754_nan, _ | _, S754_nan => NaN
  | S754_zero true, S754_zero _ => y
  | S754_zero false, S754_zero _ => x
  | _, _ => if num_ltb x y then y else x
  end.

Definition num_min (x y : number) : number :=
  match x, y with
  | S754_nan, _ | _, S754_nan => NaN
  | S754_zero false, S754_zero _ => y
  | S754_zero true, S754_zero _ => x
  | _, _ => if num_ltb y x then y else x
  end.

(** Text whose conversion to a number and back is faithful. *)
Definition num_text_ok (x : number) : bool :=
  bool_decide (Number_of_string (num_to_string x) = x).

Example number_text_1 :
  map (λ s, num_to_string (Number_of_string s))
    ["0.1"; "1e21"; "123456789012345680000"; "1e-7"; "2.50"; "1e23"; "-0.000001";
     "4.35"; "0x1F"; "1e400"; "5e-324"; "1.7976931348623157e308"; "x"; "100"]
  = ["0.1"; "1e+21"; "123456789012345680000"; "1e-7"; "2.5"; "1e+23"; "-0.000001";
     "4.35"; "31"; "Infinity"; "5e-324"; "1.7976931348623157e+308"; "NaN"; "100"].
Proof. vm_compute. reflexivity. Qed.

(** ** Order

    Comparison is lexicographic on the sign, the exponent and the mantissa. *)

Definition is_nan (x : number) : bool := match x with S754_nan => true | _ => false end.

Definition rank (x : number) : Z * Z * Z :=
  match x with
  | S754_nan => (0, 0, 0)
  | S754_zero _ => (0, 0, 0)
  | S754_infinity s => ((if s then -2 else 2), 0, 0)
  | S754_finite s m e => if s then (-1, - e, - Z.pos m) else (1, e, Z.pos m)
  end.

Definition lex_le (a b : Z * Z * Z) : Prop :=
  let '(x, y, z) := a in let '(x', y', z') := b in
  x < x' ∨ x = x' ∧ (y < y' ∨ y = y' ∧ z <= z').

Lemma num_leb_rank x y :
  is_nan x = false → is_nan y = false → num_leb x y = true ↔ lex_le (rank x) (rank y).
Proof.
  intros Hx Hy. unfold num_leb, SFleb, SFcompare, lex_le, rank.
  destruct x as [sx|sx| |sx mx ex], y as [sy|sy| |sy my ey]; try done;
    try destruct sx; try destruct sy; try (split; intros; first [done|lia]);
    change (Pos.compare_cont Eq mx my) with (mx ?= my)%positive;
    destruct (Z.compare_spec ex ey), (Pos.compare_spec mx my); cbn; split; intros; first [done|lia].
Qed.

Lemma num_leb_refl x : is_nan x = false → num_leb x x = true.
Proof. intros H. apply num_leb_rank; [done..|]. unfold lex_le. destruct (rank x) as [[a b] c]. lia. Qed.

Lemma num_leb_trans x y z :
  is_nan y = false → num_leb x y = true → num_leb y z = true → num_leb x z = true.
Proof.
  intros Hy Hxy Hyz.
  assert (is_nan x = false ∧ is_nan z = false) as [Hx Hz] by (by destruct x, y, z).
  apply num_leb_rank in Hxy, Hyz; try done. apply num_leb_rank; [done..|].
  unfold lex_le in *. destruct (rank x) as [[? ?] ?], (rank y) as [[? ?] ?], (rank z) as [[? ?] ?]. lia.
Qed.

Lemma num_leb_total x y :
  is_nan x = false → is_nan y = false → num_leb x y = true ∨ num_leb y x = true.
Proof.
  intros Hx Hy. rewrite !num_leb_rank by done. unfold lex_le.
  destruct (rank x) as [[? ?] ?], (rank y) as [[? ?] ?]. lia.
Qed.

Lemma num_ltb_leb x y : is_nan x = false → is_nan y = false → num_ltb x y = negb (num_leb y x).
Proof.
  intros Hx Hy. unfold num_ltb, num_leb, SFltb, SFleb, SFcompare.
  destruct x as [sx|sx| |sx mx ex], y as [sy|sy| |sy my ey]; try done; try destruct sx; try destruct sy; try done;
    rewrite (Z.compare_antisym ey ex); destruct (ey ?= ex); try done; cbn;
    change (Pos.compare_cont Eq mx my) with (mx ?= my)%positive;
    change (Pos.compare_cont Eq my mx) with (my ?= mx)%positive;
    rewrite (Pos.compare_antisym my mx); by destruct (my ?= mx)%positive.
Qed.

Lemma num_min_spec x y :
  is_nan x = false → is_nan y = false →
  (num_min x y = x ∨ num_min x y = y) ∧ num_leb (num_min x y) x = true ∧ num_leb (num_min x y) y = true.
Proof.
  intros Hx Hy. assert (num_min x y = (if num_ltb y x then y else x) ∨
    num_leb x y = true ∧ num_leb y x = true ∧ (num_min x y = x ∨ num_min x y = y)) as [->|(H1 & H2 & H3)].
  { destruct x as [[]|[]| |[] ? ?], y as [[]|[]| |[] ? ?]; try done; auto. }
  - rewrite num_ltb_leb by done. destruct (num_leb x y) eqn:E; cbn.
    + auto using num_leb_refl.
    + destruct (num_leb_total x y Hx Hy); [congruence|]. auto using num_leb_refl.
  - split; [done|]. destruct H3 as [-> | ->]; auto using num_leb_refl.
Qed.

Lemma num_max_spec x y :
  is_nan x = false → is_nan y = false →
  (num_max x y = x ∨ num_max x y = y) ∧ num_leb x (num_max x y) = true ∧ num_leb y (num_max x y) = true.
Proof.
  intros Hx Hy. assert (num_max x y = (if num_ltb x y then y else x) ∨
    num_leb x y = true ∧ num_leb y x = true ∧ (num_max x y = x ∨ num_max x y = y)) as [->|(H1 & H2 & H3)].
  { destruct x as [[]|[]| |[] ? ?], y as [[]|[]| |[] ? ?]; try done; auto. }
  - rewrite num_ltb_leb by done. destruct (num_leb y x) eqn:E; cbn.
    + auto using num_leb_refl.
    + destruct (num_leb_total x y Hx Hy); [|congruence]. auto using num_leb_refl.
  - split; [done|]. destruct H3 as [-> | ->]; auto using num_leb_refl.
Qed.

(** [Math.min(...xs)] and [Math.max(...xs)] of a non-empty list without [NaN]. *)
Lemma num_min_fold x xs :
  Forall (λ y, is_nan y = false) (x :: xs) →
  let m := fold_left num_min xs x in
  m ∈ x :: xs ∧ Forall (λ y, num_leb m y = true) (x :: xs).
Proof.
  revert x. induction xs as [|y xs IH]; intros x [Hx H]%Forall_cons; cbn.
  - split; [set_solver|]. apply Forall_singleton. by apply num_leb_refl.
  - apply Forall_cons in H as [Hy H]. destruct (num_min_spec x y Hx Hy) as (Hm & Hmx & Hmy).
    assert (is_nan (num_min x y) = false) as Hn by (by destruct Hm as [-> | ->]).
    destruct (IH (num_min x y)) as [I1 I2]; [by apply Forall_cons|].
    apply Forall_cons in I2 as [I2 I3]. split.
    + apply elem_of_cons in I1 as [->|I1]; [destruct Hm as [-> | ->]; set_solver|set_solver].
    + rewrite !Forall_cons. repeat split; [..|done]; by eapply num_leb_trans.
Qed.

Lemma num_max_fold x xs :
  Forall (λ y, is_nan y = false) (x :: xs) →
  let m := fold_left num_max xs x in
  m ∈ x :: xs ∧ Forall (λ y, num_leb y m = true) (x :: xs).
Proof.
  revert x. induction xs as [|y xs IH]; intros x [Hx H]%Forall_cons; cbn.
  - split; [set_solver|]. apply Forall_singleton. by apply num_leb_refl.
  - apply Forall_cons in H as [Hy H]. destruct (num_max_spec x y Hx Hy) as (Hm & Hmx & Hmy).
    assert (is_nan (num_max x y) = false) as Hn by (by destruct Hm as [-> | ->]).
    destruct (IH (num_max x y)) as [I1 I2]; [by apply Forall_cons|].
    apply Forall_cons in I2 as [I2 I3]. split.
    + apply elem_of_cons in I1 as [->|I1]; [destruct Hm as [-> | ->]; set_solver|set_solver].
    + rewrite !Forall_cons. repeat split; [..|done]; by eapply num_leb_trans.
Qed.

(** ** Rounding *)

(** [Math.floor(x)] of a finite double. *)
Definition num_floor (x : number) : option Z :=
  match x with
  | S754_zero _ => Some 0
  | S754_finite s m e =>
    let '(p, q) := num_ratio m e in Some ((if s then - p else p) / q)
  | _ => None
  end.

(** [Math.ceil(x)] *)
Definition num_ceil (x : number) : number :=
  match x with
  | S754_finite s m e =>
    let '(p, q) := num_ratio m e in
    let z := - ((if s then p else - p) / q) in
    if s && (z =? 0) then S754_zero true else of_Z z
  | _ => x
  end.

(** [x.toFixed(2)] below 10^21: the nearest multiple of a hundredth, the larger
    one of two. *)
Definition num_to_fixed2 (x : number) : jsstr :=
  match x with
  | S754_zero _ => "0.00"
  | S754_finite s m e =>
    let '(p, q) := num_ratio m e in
    let n := (200 * p + q) / (2 * q) in
    let ds := Z_digits (n mod 100) in
    (if s then [45%N] else []) ++ Z_digits (n / 100) ++ "." ++ (if (n mod 100) <? 10 then "0" ++ ds else ds)
  | _ => num_to_string x
  end.

Example to_fixed2_1 : map (λ s, num_to_fixed2 (Number_of_string s)) ["0.34"; "0.24"; "0.3066666666666667"; "1.005"; "0.44"; "0"; "12"]
  = ["0.34"; "0.24"; "0.31"; "1.00"; "0.44"; "0.00"; "12.00"].
Proof. vm_compute. reflexivity. Qed.
