(* ===== verification/JsInteger.v ===== *)
(** * Integers as JavaScript numbers

    Integers of magnitude below 2^53 are doubles, and the sums, differences
    and comparisons of such doubles are those of the integers as long as the
    result stays in that range.  The components that keep clocks, counters and
    prices as numbers use these lemmas to reason about them as integers. *)

From Stdlib Require Import SpecFloat.
From S2P Require Import Prelude JsString JsNumber.
Local Open Scope Z_scope.

(** [Number.isSafeInteger] *)
Definition safe (z : Z) : Prop := - 2 ^ 53 < z < 2 ^ 53.

(** ** Digits and shifts *)

Definition digits (n : positive) : Z := Z.pos (digits2_pos n).

Lemma digits_size n : digits2_pos n = Pos.size n.
Proof. induction n as [n IH|n IH|]; cbn; congruence. Qed.

Lemma digits_bounds n : 2 ^ (digits n - 1) <= Z.pos n < 2 ^ digits n.
Proof.
  unfold digits. rewrite digits_size. pose proof (Pos.size_gt n) as H1. pose proof (Pos.size_le n) as H2.
  apply Pos2Z.pos_lt_pos in H1. apply Pos2Z.pos_le_pos in H2.
  rewrite Pos2Z.inj_pow in H1, H2. split; [|exact H1].
  apply Z.mul_le_mono_pos_l with 2; [lia|]. rewrite <- Z.pow_succ_r by lia.
  replace (Z.succ (Z.pos (Pos.size n) - 1)) with (Z.pos (Pos.size n)) by lia. lia.
Qed.

(** The digits of a number are fixed by its bounds. *)
Lemma digits_unique n d : 1 <= d → 2 ^ (d - 1) <= Z.pos n < 2 ^ d → digits n = d.
Proof.
  intros Hd H. pose proof (digits_bounds n) as B. assert (1 <= digits n) by (unfold digits; lia).
  destruct (Z.lt_trichotomy (digits n) d) as [L|[L|L]]; [|done|].
  - assert (2 ^ digits n <= 2 ^ (d - 1)) by (apply Z.pow_le_mono_r; lia). lia.
  - assert (2 ^ d <= 2 ^ (digits n - 1)) by (apply Z.pow_le_mono_r; lia). lia.
Qed.

Lemma digits_shift n m a : 0 <= a → Z.pos m = Z.pos n * 2 ^ a → digits m = digits n + a.
Proof.
  intros Ha Hm. pose proof (digits_bounds n). assert (1 <= digits n) by (unfold digits; lia).
  apply digits_unique; [lia|]. rewrite Hm.
  replace (digits n + a - 1) with ((digits n - 1) + a) by lia. rewrite !Z.pow_add_r by lia. nia.
Qed.

Lemma digits_safe n : Z.pos n < 2 ^ 53 → digits n <= 53.
Proof.
  intros H. pose proof (digits_bounds n) as [B _]. destruct (Z_le_gt_dec (digits n) 53); [done|].
  assert (2 ^ 53 <= 2 ^ (digits n - 1)) by (apply Z.pow_le_mono_r; lia). lia.
Qed.

Lemma iter_xO n p : Z.pos (Pos.iter xO n p) = Z.pos n * 2 ^ Z.pos p.
Proof.
  induction p as [|p IH] using Pos.peano_ind; [cbn; lia|].
  rewrite Pos.iter_succ, Pos2Z.inj_xO, IH, Pos2Z.inj_succ, Z.pow_succ_r by lia. lia.
Qed.

Lemma shl_align_spec m ex ex' : ex' <= ex →
  ∃ m', shl_align m ex ex' = (m', ex') ∧ Z.pos m' = Z.pos m * 2 ^ (ex - ex').
Proof.
  intros H. unfold shl_align. destruct (ex' - ex) as [|p|p] eqn:E; [|lia|].
  - exists m. assert (ex = ex') as -> by lia. rewrite Z.sub_diag, Z.pow_0_r. split; [done|lia].
  - eexists. split; [reflexivity|]. rewrite iter_xO. do 2 f_equal. lia.
Qed.

Lemma iter_pos_down {A} (f : A → A) (g : Z → A) p k :
  0 <= k → (∀ j, k <= j → f (g (j + 1)) = g j) → SpecFloat.iter_pos f p (g (k + Z.pos p)) = g k.
Proof.
  intros Hk. revert k Hk. induction p as [p IH|p IH|]; intros k Hk Hf; cbn [SpecFloat.iter_pos].
  - replace (k + Z.pos p~1) with (k + Z.pos p + Z.pos p + 1) by lia. rewrite Hf by lia.
    rewrite IH; [apply IH; [done|intros; apply Hf; lia]|lia|intros; apply Hf; lia].
  - replace (k + Z.pos p~0) with (k + Z.pos p + Z.pos p) by lia.
    rewrite IH; [apply IH; [done|intros; apply Hf; lia]|lia|intros; apply Hf; lia].
  - by apply Hf.
Qed.

(** Shifting out zeros loses nothing. *)
Lemma shr_zeros n p : SpecFloat.iter_pos shr_1 p (Build_shr_record (Z.pos n * 2 ^ Z.pos p) false false)
  = Build_shr_record (Z.pos n) false false.
Proof.
  replace (Z.pos p) with (0 + Z.pos p) by lia.
  rewrite (iter_pos_down shr_1 (λ a, Build_shr_record (Z.pos n * 2 ^ a) false false) p 0); [f_equal; lia|done|].
  intros j Hj. rewrite Z.pow_add_r, Z.mul_assoc by lia.
  assert (∃ q, Z.pos n * 2 ^ j = Z.pos q) as [q ->].
  { assert (0 < Z.pos n * 2 ^ j) by (pose proof (Z.pow_pos_nonneg 2 j); nia).
    destruct (Z.pos n * 2 ^ j); [lia|by eexists|lia]. }
  change (2 ^ 1) with 2. rewrite Z.mul_comm. done.
Qed.

(** ** Exact values *)

(** The double of an integer: the mantissa padded to 53 digits. *)
Definition canon (s : bool) (n : positive) : number :=
  S754_finite s (Z.to_pos (Z.pos n * 2 ^ (53 - digits n))) (digits n - 53).

Lemma fexp_digits d : 0 < d → fexp 53 1024 d = d - 53.
Proof. intros. unfold fexp, emin. lia. Qed.

(** A mantissa that already has 53 digits is kept, and the zeros of a longer
    one are shifted out. *)
Lemma shr_full m e : digits m = 53 → -52 <= e →
  shr_fexp 53 1024 (Z.pos m) e loc_Exact = (Build_shr_record (Z.pos m) false false, e).
Proof.
  intros Hm He. unfold shr_fexp, Zdigits2. fold (digits m). rewrite Hm, fexp_digits by lia.
  by replace (53 + e - 53 - e) with 0 by lia.
Qed.

Lemma shr_exact n m p e : digits n = 53 → Z.pos m = Z.pos n * 2 ^ Z.pos p → -52 <= e + Z.pos p →
  shr_fexp 53 1024 (Z.pos m) e loc_Exact = (Build_shr_record (Z.pos n) false false, e + Z.pos p).
Proof.
  intros Hn Hm He. unfold shr_fexp, Zdigits2. fold (digits m).
  rewrite (digits_shift n m (Z.pos p)) by (lia || done). rewrite Hn, fexp_digits by lia.
  replace (53 + Z.pos p + e - 53 - e) with (Z.pos p) by lia.
  cbn [shr shr_record_of_loc]. by rewrite Hm, shr_zeros.
Qed.

Lemma round_aux_exact s n mx ex e : digits n = 53 → -52 <= e <= 900 →
  shr_fexp 53 1024 mx ex loc_Exact = (Build_shr_record (Z.pos n) false false, e) →
  binary_round_aux 53 1024 s mx ex loc_Exact = S754_finite s n e.
Proof.
  intros Hn He E. unfold binary_round_aux. rewrite E. cbn [shr_m loc_of_shr_record round_nearest_even].
  rewrite shr_full by (done || lia). cbn [shr_m]. destruct (Z.leb_spec e (1024 - 53)); [done|lia].
Qed.

Lemma canon_mantissa n : digits n <= 53 →
  ∃ c, Z.pos c = Z.pos n * 2 ^ (53 - digits n) ∧ Z.to_pos (Z.pos n * 2 ^ (53 - digits n)) = c ∧ digits c = 53.
Proof.
  intros Hn. assert (0 < Z.pos n * 2 ^ (53 - digits n)) by (pose proof (Z.pow_pos_nonneg 2 (53 - digits n)); nia).
  eexists. split; [|split; [reflexivity|]].
  - by rewrite Z2Pos.id.
  - rewrite (digits_shift n _ (53 - digits n)); [lia|lia|]. by rewrite Z2Pos.id.
Qed.

(** [n * 2^a] at exponent [-a] is the double of [n]. *)
Lemma round_exact s n m a : digits n <= 53 → 0 <= a <= 900 → Z.pos m = Z.pos n * 2 ^ a →
  binary_round 53 1024 s m (- a) = canon s n.
Proof.
  intros Hn Ha Hm. assert (0 < digits n) by (unfold digits; lia).
  unfold binary_round, canon. fold (digits m). rewrite (digits_shift n m a) by (lia || done).
  replace (digits n + a + - a) with (digits n) by lia. rewrite fexp_digits by lia.
  destruct (canon_mantissa n Hn) as (c & Hc & -> & Hd).
  destruct (Z_le_gt_dec (digits n - 53) (- a)) as [L|L].
  - destruct (shl_align_spec m (- a) (digits n - 53) L) as (m' & -> & Hm').
    assert (m' = c) as ->.
    { apply Pos2Z.inj. rewrite Hm', Hc, Hm, <- Z.mul_assoc, <- Z.pow_add_r by lia. do 2 f_equal. lia. }
    apply round_aux_exact; [done|lia|]. apply shr_full; [done|lia].
  - unfold shl_align. destruct (digits n - 53 - - a) as [|p|p] eqn:E; [lia| |lia].
    apply round_aux_exact; [done|lia|]. rewrite (shr_exact c m p); [f_equal; lia|done| |lia].
    rewrite Hm, Hc, <- Z.mul_assoc, <- Z.pow_add_r by lia. do 2 f_equal. lia.
Qed.

Lemma of_Z_pos n : Z.pos n < 2 ^ 53 → of_Z (Z.pos n) = canon false n.
Proof. intros H. apply (round_exact false n n 0); [by apply digits_safe|lia|lia]. Qed.

Lemma of_Z_neg n : Z.pos n < 2 ^ 53 → of_Z (Z.neg n) = canon true n.
Proof. intros H. apply (round_exact true n n 0); [by apply digits_safe|lia|lia]. Qed.

Lemma of_Z_finite z : safe z → is_finite (of_Z z) = true.
Proof.
  unfold safe. intros H. destruct z; [done| |]; [rewrite of_Z_pos by lia|rewrite of_Z_neg by lia]; done.
Qed.

Lemma normalize_exact z a : safe z → 0 <= a <= 900 →
  binary_normalize 53 1024 (z * 2 ^ a) (- a) false = of_Z z.
Proof.
  unfold safe. intros Hz Ha. assert (0 < 2 ^ a) by (apply Z.pow_pos_nonneg; lia).
  destruct z as [|n|n]; [done|..].
  - rewrite of_Z_pos by lia. destruct (Z.pos n * 2 ^ a) as [|m|m] eqn:E; [nia| |nia].
    apply round_exact; [apply digits_safe; lia|done|done].
  - rewrite of_Z_neg by lia. destruct (Z.neg n * 2 ^ a) as [|m|m] eqn:E; [nia|nia|].
    apply round_exact; [apply digits_safe; lia|done|]. lia.
Qed.

(** The mantissa of [n] brought to a lower exponent. *)
Lemma canon_align n e : digits n <= 53 → e <= digits n - 53 →
  Z.pos (shl_align (Z.to_pos (Z.pos n * 2 ^ (53 - digits n))) (digits n - 53) e).1 = Z.pos n * 2 ^ (- e).
Proof.
  intros Hn He. destruct (canon_mantissa n Hn) as (c & Hc & -> & _).
  destruct (shl_align_spec c (digits n - 53) e He) as (m' & -> & Hm'). cbn.
  rewrite Hm', Hc, <- Z.mul_assoc, <- Z.pow_add_r by lia. do 2 f_equal. lia.
Qed.

(** ** Differences, sums and comparisons *)

Lemma num_sub_exact a b : safe a → safe b → safe (a - b) → num_sub (of_Z a) (of_Z b) = of_Z (a - b).
Proof.
  unfold safe. intros Ha Hb Hab.
  destruct a as [|n|n], b as [|m|m]; try done;
    rewrite ?of_Z_pos, ?of_Z_neg by lia; rewrite ?Z.sub_0_r, ?Z.sub_0_l, ?Pos2Z.opp_pos, ?Pos2Z.opp_neg;
    rewrite ?of_Z_pos, ?of_Z_neg by lia; try done.
  all: unfold num_sub, SFsub, canon; cbn [negb]; try done.
  all: assert (digits n <= 53 ∧ digits m <= 53) as [Hn Hm] by (split; apply digits_safe; lia).
  all: assert (0 < digits n ∧ 0 < digits m) as [? ?] by (unfold digits; lia).
  all: cbn [cond_Zopp]; rewrite !canon_align by lia.
  all: rewrite <- ?Z.mul_opp_l, <- Z.mul_sub_distr_r, ?Pos2Z.opp_pos.
  all: set (e := Z.min _ _); replace e with (- - e) at 2 by lia; apply normalize_exact; [done|lia].
Qed.

Lemma num_add_exact a b : safe a → safe b → safe (a + b) → num_add (of_Z a) (of_Z b) = of_Z (a + b).
Proof.
  unfold safe. intros Ha Hb Hab.
  destruct a as [|n|n], b as [|m|m]; try done;
    rewrite ?of_Z_pos, ?of_Z_neg by lia; rewrite ?Z.add_0_r, ?Z.add_0_l;
    rewrite ?of_Z_pos, ?of_Z_neg by lia; try done.
  all: unfold num_add, SFadd, canon; try done.
  all: assert (digits n <= 53 ∧ digits m <= 53) as [Hn Hm] by (split; apply digits_safe; lia).
  all: assert (0 < digits n ∧ 0 < digits m) as [? ?] by (unfold digits; lia).
  all: cbn [cond_Zopp]; rewrite !canon_align by lia.
  all: rewrite <- ?Z.mul_opp_l, <- Z.mul_add_distr_r, ?Pos2Z.opp_pos.
  all: set (e := Z.min _ _); replace e with (- - e) at 2 by lia; apply normalize_exact; [done|lia].
Qed.

Lemma canon_compare n m : digits n <= 53 → digits m <= 53 →
  match (digits n - 53 ?= digits m - 53) with
  | Lt => Lt | Gt => Gt
  | Eq => Pos.compare_cont Eq (Z.to_pos (Z.pos n * 2 ^ (53 - digits n))) (Z.to_pos (Z.pos m * 2 ^ (53 - digits m)))
  end = (n ?= m)%positive.
Proof.
  intros Hn Hm. pose proof (digits_bounds n) as Bn. pose proof (digits_bounds m) as Bm.
  destruct (Z.compare_spec (digits n - 53) (digits m - 53)) as [E|E|E].
  - change (Pos.compare_cont Eq ?x ?y) with (x ?= y)%positive. replace (digits m) with (digits n) by lia.
    assert (0 < 2 ^ (53 - digits n)) by (apply Z.pow_pos_nonneg; lia).
    change ((Z.to_pos (Z.pos n * 2 ^ (53 - digits n)) ?= Z.to_pos (Z.pos m * 2 ^ (53 - digits n)))%positive) with
      (Z.pos (Z.to_pos (Z.pos n * 2 ^ (53 - digits n))) ?= Z.pos (Z.to_pos (Z.pos m * 2 ^ (53 - digits n)))).
    rewrite !Z2Pos.id by nia. symmetry. apply (Zmult_compare_compat_r (Z.pos n) (Z.pos m)). lia.
  - symmetry. apply Pos.compare_lt_iff. assert (2 ^ digits n <= 2 ^ (digits m - 1)) by (apply Z.pow_le_mono_r; lia). lia.
  - symmetry. apply Pos.compare_gt_iff. assert (2 ^ digits m <= 2 ^ (digits n - 1)) by (apply Z.pow_le_mono_r; lia). lia.
Qed.

Lemma compare_exact a b : safe a → safe b → SFcompare (of_Z a) (of_Z b) = Some (a ?= b).
Proof.
  unfold safe. intros Ha Hb.
  destruct a as [|n|n], b as [|m|m]; try done; rewrite ?of_Z_pos, ?of_Z_neg by lia; try done.
  all: assert (digits n <= 53 ∧ digits m <= 53) as [Hn Hm] by (split; apply digits_safe; lia).
  all: pose proof (canon_compare n m Hn Hm) as C; unfold SFcompare, canon.
  - rewrite C. done.
  - f_equal. cbn [Z.compare]. rewrite <- C. by destruct (_ ?= _).
Qed.

Lemma num_ltb_exact a b : safe a → safe b → num_ltb (of_Z a) (of_Z b) = (a <? b).
Proof. intros. unfold num_ltb, SFltb. rewrite compare_exact by done. unfold Z.ltb. by destruct (a ?= b). Qed.

Lemma num_leb_exact a b : safe a → safe b → num_leb (of_Z a) (of_Z b) = (a <=? b).
Proof. intros. unfold num_leb, SFleb. rewrite compare_exact by done. unfold Z.leb. by destruct (a ?= b). Qed.

Lemma num_eqb_exact a b : safe a → safe b → num_eqb (of_Z a) (of_Z b) = (a =? b).
Proof.
  intros. unfold num_eqb, SFeqb. rewrite compare_exact by done.
  destruct (Z.compare_spec a b); symmetry; [by apply Z.eqb_eq|apply Z.eqb_neq; lia|apply Z.eqb_neq; lia].
Qed.

Lemma of_Z_inj a b : safe a → safe b → of_Z a = of_Z b → a = b.
Proof.
  intros Ha Hb E. apply Z.eqb_eq. rewrite <- (num_eqb_exact a b Ha Hb), E, num_eqb_exact by done. apply Z.eqb_refl.
Qed.

(** [Math.abs] *)
Definition num_abs (x : number) : number := SFabs x.

Lemma num_abs_exact a : safe a → num_abs (of_Z a) = of_Z (Z.abs a).
Proof.
  unfold safe. intros Ha. destruct a as [|n|n]; [done|change (Z.abs (Z.pos n)) with (Z.pos n)|change (Z.abs (Z.neg n)) with (Z.pos n)];
    rewrite of_Z_pos by lia; rewrite ?of_Z_neg by lia; done.
Qed.

(** [Math.floor] of an integer is the integer. *)
Lemma num_floor_of_Z z : safe z → num_floor (of_Z z) = Some z.
Proof.
  unfold safe. intros Hz. destruct z as [|n|n]; [done|rewrite of_Z_pos by lia|rewrite of_Z_neg by lia].
  all: assert (digits n <= 53) as Hd by (apply digits_safe; lia); destruct (canon_mantissa n Hd) as (c & Hc & E & _).
  all: unfold num_floor, canon; rewrite E; unfold num_ratio; destruct (Z.leb_spec 0 (digits n - 53)).
  all: try (replace (digits n) with 53 in Hc |- * by lia; rewrite Hc; cbn; rewrite Z.div_1_r; f_equal; lia).
  all: replace (- (digits n - 53)) with (53 - digits n) by lia; rewrite Hc.
  all: assert (0 < 2 ^ (53 - digits n)) by (apply Z.pow_pos_nonneg; lia).
  - by rewrite Z.div_mul by lia.
  - by rewrite <- Z.mul_opp_l, Z.div_mul by lia.
Qed.
