(* ===== verification/JsIntegerText.v ===== *)
(** * Decimal text of integers

    [String(z)] of an integer in the safe range is its plain decimal text, and
    reading that text gives the number back: the search for the shortest digits
    finds the digits of [z] without its trailing zeros, which the layout of
    numbers below 10^21 puts back. *)

From Stdlib Require Import SpecFloat.
From S2P Require Import Prelude JsString JsNumber JsInteger.
Local Open Scope Z_scope.

(** ** Digits of an integer *)

Lemma digits_fuel_acc f z acc : digits_fuel f z acc = digits_fuel f z [] ++ acc.
Proof.
  revert z acc. induction f as [|f IH]; intros z acc; [done|]. cbn [digits_fuel].
  destruct (z / 10 =? 0); [done|]. rewrite IH, (IH _ [_]), <- app_assoc. done.
Qed.

Lemma log2_div10 z : 10 <= z → Z.log2 (z / 10) + 1 <= Z.log2 z.
Proof.
  intros H. assert (0 < z / 10) by (apply Z.div_str_pos; lia). pose proof (Z.div_mod z 10). pose proof (Z.mod_pos_bound z 10).
  pose proof (Z.log2_double (z / 10)). assert (Z.log2 (2 * (z / 10)) <= Z.log2 z) by (apply Z.log2_le_mono; lia). lia.
Qed.

Lemma digits_fuel_enough f f' z : 0 <= z → (Z.to_nat (Z.log2 z) < f)%nat → (Z.to_nat (Z.log2 z) < f')%nat →
  digits_fuel f z [] = digits_fuel f' z [].
Proof.
  revert f' z. induction f as [|f IH]; intros [|f'] z Hz H1 H2; try lia. cbn [digits_fuel].
  destruct (Z.eqb_spec (z / 10) 0) as [E|E]; [done|]. rewrite digits_fuel_acc, (digits_fuel_acc f'). f_equal.
  assert (10 <= z) by (destruct (Z_lt_le_dec z 10); [rewrite Z.div_small in E; lia|done]).
  pose proof (log2_div10 z ltac:(done)). pose proof (Z.log2_nonneg (z / 10)).
  apply IH; [apply Z.div_pos; lia|lia|lia].
Qed.

Definition digit_char (d : Z) : N := (Z.to_N d + 48)%N.

Lemma Z_digits_small z : 0 <= z < 10 → Z_digits z = [digit_char z].
Proof.
  intros H. unfold Z_digits. cbn [digits_fuel]. rewrite Z.div_small, Z.mod_small by lia. done.
Qed.

Lemma Z_digits_step z : 10 <= z → Z_digits z = Z_digits (z / 10) ++ [digit_char (z mod 10)].
Proof.
  intros H. pose proof (log2_div10 z H). pose proof (Z.log2_nonneg (z / 10)).
  unfold Z_digits at 1. cbn [digits_fuel]. destruct (Z.eqb_spec (z / 10) 0) as [E|E].
  { assert (10 / 10 <= z / 10) by (apply Z.div_le_mono; lia). change (10 / 10) with 1 in *. lia. }
  rewrite digits_fuel_acc. f_equal. apply digits_fuel_enough; [apply Z.div_pos; lia|lia|lia].
Qed.

(** Induction on the digits. *)
Lemma digits_ind (P : Z → Prop) :
  (∀ z, 0 <= z < 10 → P z) → (∀ z, 10 <= z → P (z / 10) → P z) → ∀ z, 0 <= z → P z.
Proof.
  intros H1 H2. apply Zlt_0_ind. intros x IH Hx. destruct (Z_lt_le_dec x 10); [by apply H1|].
  apply H2; [done|]. apply IH. split; [apply Z.div_pos; lia|apply Z.div_lt; lia].
Qed.

Lemma digit_char_digit d : 0 <= d < 10 → is_digit (digit_char d) = true.
Proof. intros. unfold is_digit, digit_char. lia. Qed.

Lemma Z_digits_are_digits z : 0 <= z → forallb is_digit (Z_digits z) = true.
Proof.
  revert z. apply digits_ind; intros z Hz.
  - rewrite Z_digits_small by done. cbn. by rewrite digit_char_digit.
  - intros IH. rewrite Z_digits_step, forallb_app, IH by done. cbn.
    rewrite digit_char_digit; [done|]. apply Z.mod_pos_bound. lia.
Qed.

Lemma digits_val_app a b : digits_val (a ++ b) = fold_left (λ acc d, 10 * acc + (Z.of_N d - 48)) b (digits_val a).
Proof. unfold digits_val. apply fold_left_app. Qed.

Lemma digits_val_Z_digits z : 0 <= z → digits_val (Z_digits z) = z.
Proof.
  revert z. apply digits_ind; intros z Hz.
  - rewrite Z_digits_small by done. unfold digits_val, digit_char. cbn -[Z.mul]. lia.
  - intros IH. rewrite Z_digits_step, digits_val_app, IH by done. unfold digit_char. cbn -[Z.mul Z.div Z.modulo].
    pose proof (Z.mod_pos_bound z 10). pose proof (Z.div_mod z 10). lia.
Qed.

(** No leading zero. *)
Lemma Z_digits_head z : 0 < z → ∃ c r, Z_digits z = c :: r ∧ is_digit c = true ∧ c ≠ 48%N.
Proof.
  intros H. assert (0 <= z) as H0 by lia. revert z H0 H. apply (digits_ind (λ z, 0 < z → _)); intros z Hz.
  - intros Hp. rewrite Z_digits_small by done. eexists _, _. split; [reflexivity|].
    split; [by apply digit_char_digit|]. unfold digit_char. lia.
  - intros IH _. assert (0 < z / 10) as Hp by (apply Z.div_str_pos; lia).
    destruct (IH Hp) as (c & r & E & Hc). rewrite Z_digits_step, E by done. by eexists _, _.
Qed.

Lemma Z_digits_length z : 0 <= z → ∀ k, 0 < k → 10 ^ (k - 1) <= z < 10 ^ k → length (Z_digits z) = Z.to_nat k.
Proof.
  revert z. apply (digits_ind (λ z, ∀ k, 0 < k → 10 ^ (k - 1) <= z < 10 ^ k → length (Z_digits z) = Z.to_nat k)); intros z Hz.
  - intros k Hk H. assert (k = 1) as ->; [|by rewrite Z_digits_small].
    destruct (Z_lt_le_dec 1 k); [|lia]. assert (10 ^ 1 <= 10 ^ (k - 1)) by (apply Z.pow_le_mono_r; lia). lia.
  - intros IH k Hk H. assert (1 < k).
    { destruct (Z_lt_le_dec 1 k); [done|]. assert (10 ^ k <= 10 ^ 1) by (apply Z.pow_le_mono_r; lia). lia. }
    rewrite Z_digits_step, length_app, (IH (k - 1)); [cbn; lia|lia|..|done].
    replace (10 ^ k) with (10 * 10 ^ (k - 1)) in H by (rewrite <- Z.pow_succ_r by lia; f_equal; lia).
    replace (10 ^ (k - 1)) with (10 * 10 ^ (k - 1 - 1)) in H at 1 by (rewrite <- Z.pow_succ_r by lia; f_equal; lia).
    split; [apply Z.div_le_lower_bound; lia|apply Z.div_lt_upper_bound; lia].
Qed.

Lemma Z_digits_zeros c j : 0 < c → 0 <= j → Z_digits (c * 10 ^ j) = Z_digits c ++ zeros j.
Proof.
  intros Hc. revert j. apply natlike_ind; [rewrite Z.mul_1_r; by rewrite app_nil_r|].
  intros j Hj IH. assert (0 < 10 ^ j) by (by apply Z.pow_pos_nonneg).
  rewrite Z.pow_succ_r, Z.mul_assoc, (Z.mul_comm c 10), <- Z.mul_assoc by done.
  rewrite Z_digits_step by nia. rewrite Z.mul_comm, Z.div_mul, Z.mod_mul, IH by lia.
  unfold zeros. rewrite Z2Nat.inj_succ, <- app_assoc by done. f_equal. change [digit_char 0] with (replicate 1 48%N).
  by rewrite <- replicate_add, Nat.add_1_r.
Qed.

(** ** Reading *)

Lemma dec_to_num_exact s n : Z.pos n < 2 ^ 53 → dec_to_num s (Z.pos n) 0 = canon s n.
Proof.
  intros H. unfold dec_to_num.
  assert (0 <= Z.log2 (Z.pos n) <= 53).
  { split; [apply Z.log2_nonneg|]. change 53 with (Z.log2 (2 ^ 53)). apply Z.log2_le_mono. lia. }
  destruct (Z.ltb_spec 400 (Z.log2 (Z.pos n) * 3 / 10 + 0)); [pose proof (Z.div_le_upper_bound (Z.log2 (Z.pos n) * 3) 10 100); lia|].
  destruct (Z.ltb_spec (0 + (Z.log2 (Z.pos n) + 1) / 3 + 1) (-400)); [pose proof (Z.div_pos (Z.log2 (Z.pos n) + 1) 3); lia|].
  cbn [Z.leb]. change (10 ^ 0) with 1. rewrite Pos.mul_1_r.
  apply (round_exact s n n 0); [by apply digits_safe|lia|lia].
Qed.

Lemma dec_to_num_of_Z z : 0 <= z < 2 ^ 53 → dec_to_num false z 0 = of_Z z.
Proof. destruct z as [|n|n]; intros H; [done| |lia]. by rewrite dec_to_num_exact, of_Z_pos by lia. Qed.

(** An integer of 54 digits or more is a double with a positive exponent. *)
Lemma shr_exponent mrs e n : e <= (shr mrs e n).2.
Proof. unfold shr. destruct n; cbn; lia. Qed.

Lemma round_large s m s' c e : 2 ^ 53 <= Z.pos m → binary_round 53 1024 s m 0 = S754_finite s' c e → 1 <= e.
Proof.
  intros H. pose proof (digits_bounds m) as [_ B].
  assert (53 < digits m).
  { destruct (Z_lt_le_dec 53 (digits m)); [done|]. assert (2 ^ digits m <= 2 ^ 53) by (apply Z.pow_le_mono_r; lia). lia. }
  unfold binary_round. fold (digits m). rewrite Z.add_0_r, fexp_digits by lia.
  unfold shl_align. destruct (digits m - 53 - 0) as [|p|p] eqn:E; [lia| |lia].
  unfold binary_round_aux. destruct (shr_fexp 53 1024 (Z.pos m) 0 loc_Exact) as [mrs' e'] eqn:E1.
  assert (1 <= e').
  { unfold shr_fexp, Zdigits2 in E1. fold (digits m) in E1. rewrite Z.add_0_r, fexp_digits, E in E1 by lia.
    cbn [shr] in E1. injection E1 as _ <-. lia. }
  destruct (shr_fexp _ _ _ e' _) as [mrs'' e''] eqn:E2. pose proof (shr_exponent (shr_record_of_loc
    (round_nearest_even (shr_m mrs') (loc_of_shr_record mrs')) loc_Exact) e'
    (fexp 53 1024 (Zdigits2 (round_nearest_even (shr_m mrs') (loc_of_shr_record mrs')) + e') - e')) as L.
  unfold shr_fexp in E2. rewrite E2 in L. cbn in L.
  destruct (shr_m mrs''); [done| |done]. destruct (_ <=? _); [|done]. intros [= _ _ <-]. lia.
Qed.

(** Decimals that read as an integer in the safe range are that integer. *)
Lemma dec_to_num_inj c j n : Z.pos n < 2 ^ 53 → 0 <= j →
  dec_to_num false c j = canon false n → c * 10 ^ j = Z.pos n.
Proof.
  intros Hn Hj E. unfold dec_to_num in E. destruct c as [|c|c]; try done.
  destruct (400 <? _); [done|]. destruct (_ <? -400); [done|].
  destruct (Z.leb_spec 0 j) as [_|]; [|lia]. set (m := (c * Z.to_pos (10 ^ j))%positive) in *.
  assert (Hm : Z.pos c * 10 ^ j = Z.pos m).
  { unfold m. rewrite Pos2Z.inj_mul, Z2Pos.id; [done|]. by apply Z.pow_pos_nonneg. }
  rewrite Hm. destruct (Z_lt_le_dec (Z.pos m) (2 ^ 53)) as [L|L].
  - apply of_Z_inj; [unfold safe; lia..|]. by rewrite (of_Z_pos n), <- E by lia.
  - pose proof (digits_safe n Hn). apply round_large in E; lia.
Qed.

(** The estimate of the decimal exponent, for each number of binary digits. *)
Lemma estimate_ok L : 0 <= L <= 52 → let est := L * 30103 / 100000 - 1 in
  (est - 1 <= 0 ∨ 10 ^ (est - 1) <= 2 ^ L) ∧ 0 < est + 3 ∧ 2 ^ (L + 1) <= 10 ^ (est + 3).
Proof.
  intros HL. set (ok := λ L, let est := L * 30103 / 100000 - 1 in
    ((est - 1 <=? 0) || (10 ^ (est - 1) <=? 2 ^ L)) && (0 <? est + 3) && (2 ^ (L + 1) <=? 10 ^ (est + 3))).
  assert (forallb ok (seqZ 0 53) = true) as H by (vm_compute; reflexivity).
  rewrite forallb_forall in H. specialize (H L ltac:(apply list_elem_of_In, elem_of_seqZ; lia)).
  unfold ok in H. cbv zeta in *. rewrite !andb_true_iff, orb_true_iff in H. lia.
Qed.

Lemma below_int n q k : 0 < n → 0 < q →
  (let '(a, b) := scale10 (n * q) q (- k) in a <? b) = (0 <? k) && (n <? 10 ^ k).
Proof.
  intros Hn Hq. unfold scale10. destruct (Z.leb_spec 0 (- k)) as [L|L].
  - assert (0 < 10 ^ (- k)) by (apply Z.pow_pos_nonneg; lia). destruct (Z.ltb_spec 0 k); [lia|]. apply Z.ltb_ge. cbn [andb]. assert (1 <= n * 10 ^ (- k)) by nia. nia.
  - destruct (Z.ltb_spec 0 k); [|lia]. rewrite Z.opp_involutive. cbn [andb].
    destruct (Z.ltb_spec n (10 ^ k)); [apply Z.ltb_lt|apply Z.ltb_ge]; nia.
Qed.

Lemma dec_exponent_int n q a : 0 < n < 2 ^ 53 → 0 <= a → q = 2 ^ a →
  let N := dec_exponent (n * q) q in 1 <= N <= 16 ∧ 10 ^ (N - 1) <= n < 10 ^ N.
Proof.
  intros Hn Ha ->. assert (0 < 2 ^ a) by (by apply Z.pow_pos_nonneg).
  unfold dec_exponent. cbv zeta. rewrite Z.log2_mul_pow2, Z.log2_pow2 by lia.
  replace (a + Z.log2 n - a) with (Z.log2 n) by lia.
  assert (HL : 0 <= Z.log2 n <= 52).
  { split; [apply Z.log2_nonneg|]. assert (Z.log2 n < 53); [|lia]. apply Z.log2_lt_pow2; lia. }
  pose proof (Z.log2_spec n) as [B1 B2]; [lia|]. rewrite <- Z.add_1_r in B2.
  destruct (estimate_ok _ HL) as (E1 & E2 & E3). set (est := Z.log2 n * 30103 / 100000 - 1) in *.
  assert (Hsmall : ∀ k, 10 ^ (k - 1) <= n → k <= 16).
  { intros k Hk. destruct (Z_le_gt_dec k 16); [done|]. assert (10 ^ 16 <= 10 ^ (k - 1)) by (apply Z.pow_le_mono_r; lia). lia. }
  assert (Hone : ∀ k, k <= 1 → 10 ^ (k - 1) <= n).
  { intros k Hk. assert (10 ^ (k - 1) <= 10 ^ 0) by (apply Z.pow_le_mono_r; lia). lia. }
  assert (Hlow : 10 ^ (est - 1) <= n) by (destruct E1; [apply Hone; lia|lia]).
  assert (Hup : ∀ k, (0 <? k) && (n <? 10 ^ k) = false → 10 ^ (k + 1 - 1) <= n).
  { intros k. rewrite andb_false_iff, !Z.ltb_ge. intros [|]; [apply Hone; lia|]. by replace (k + 1 - 1) with k by lia. }
  assert (Hin : ∀ k, 10 ^ (k - 1) <= n → 0 < k ∧ n < 10 ^ k → 1 <= k <= 16 ∧ 10 ^ (k - 1) <= n < 10 ^ k).
  { intros k H1 [H2 H3]. split; [split; [lia|by apply Hsmall]|done]. }
  rewrite !below_int by lia.
  destruct ((0 <? est) && _) eqn:F1; [apply Hin; [done|lia]|]. apply Hup in F1.
  destruct ((0 <? est + 1) && _) eqn:F2; [apply Hin; [done|lia]|]. apply Hup in F2.
  destruct ((0 <? est + 2) && _) eqn:F3; [apply Hin; [by replace (est + 2) with (est + 1 + 1) by lia|lia]|]. apply Hup in F3.
  apply Hin; [by replace (est + 3) with (est + 2 + 1) by lia|lia].
Qed.

(** ** Writing *)

(** The search for the shortest digits ends at digits whose value is [n]. *)
Lemma shortest_int f k n q N : Z.pos n < 2 ^ 53 → 0 < q → 10 ^ (N - 1) <= Z.pos n < 10 ^ N →
  1 <= k <= N → N - k <= Z.of_nat f →
  ∃ c k', shortest f k (canon false n) (Z.pos n * q) q N = (c, k', N) ∧ 1 <= k' <= N ∧ c * 10 ^ (N - k') = Z.pos n.
Proof.
  intros Hn Hq HN. revert k. induction f as [|f IH]; intros k Hk Hf.
  - assert (k = N) as -> by lia. cbn [shortest]. unfold scale10. rewrite Z.sub_diag. change (0 <=? 0) with true. change (10 ^ 0) with 1. cbv iota beta zeta.
    rewrite Z.mul_1_r, Z.div_mul, Z.sub_diag, Z.mul_0_r by lia. destruct (Z.leb_spec 0 q); [|lia].
    exists (Z.pos n), N. rewrite Z.sub_diag. split; [done|]. lia.
  - destruct (Z.eq_dec k N) as [->|Hne]; cbn [shortest]; unfold scale10.
    + rewrite Z.sub_diag. change (0 <=? 0) with true. change (10 ^ 0) with 1. cbv iota beta zeta.
      rewrite Z.mul_1_r, Z.div_mul, Z.sub_diag, Z.mul_0_r by lia. destruct (Z.leb_spec 0 q); [|lia].
      rewrite dec_to_num_exact by done. rewrite bool_decide_true by done.
      exists (Z.pos n), N. rewrite Z.sub_diag. split; [done|]. lia.
    + destruct (Z.leb_spec 0 (k - N)); [lia|].
      assert (Hok : ∀ c, (0 <? c) && bool_decide (dec_to_num false c (N - k) = canon false n) = true →
        c * 10 ^ (N - k) = Z.pos n).
      { intros c. rewrite andb_true_iff, bool_decide_eq_true. intros [_ E]. apply dec_to_num_inj; [done|lia|done]. }
      set (lo := Z.pos n * q / _). destruct (2 * _ <=? _); cbv iota beta.
      all: match goal with |- context [if ?c1 then (?x, _, _) else if ?c2 then _ else _] =>
             destruct c1 eqn:O1; [eexists _, _; split; [reflexivity|]; split; [lia|by apply Hok]|];
             destruct c2 eqn:O2; [eexists _, _; split; [reflexivity|]; split; [lia|by apply Hok]|] end.
      all: apply IH; lia.
Qed.

Lemma num_to_string_pos s n : Z.pos n < 2 ^ 53 →
  num_to_string (canon s n) = (if s then [45%N] else []) ++ Z_digits (Z.pos n).
Proof.
  intros Hn. pose proof (digits_safe n Hn) as Hd. destruct (canon_mantissa n Hd) as (c & Hc & Ec & _).
  unfold num_to_string, canon. rewrite Ec. set (a := 53 - digits n) in *.
  assert (num_ratio c (digits n - 53) = (Z.pos n * 2 ^ a, 2 ^ a)) as ->.
  { unfold num_ratio. destruct (Z.leb_spec 0 (digits n - 53)).
    - replace (digits n - 53) with 0 by lia. assert (a = 0) as -> by lia. rewrite Hc. f_equal; lia.
    - replace (- (digits n - 53)) with a by lia. by rewrite Hc. }
  destruct (dec_exponent_int (Z.pos n) (2 ^ a) a) as [HN1 HN2]; [lia|lia|done|].
  set (N := dec_exponent _ _) in *.
  destruct (shortest_int 17 1 n (2 ^ a) N) as (x & k & E & Hk & Hx); [done|apply Z.pow_pos_nonneg; lia|done|lia|lia|].
  unfold canon in E. fold a in E. rewrite Ec in E. replace (digits n - 53) with (- a) in * by lia. rewrite E.
  assert (Hp : 0 < 10 ^ (N - k)) by (apply Z.pow_pos_nonneg; lia).
  assert (Hl : length (Z_digits x) = Z.to_nat k).
  { apply Z_digits_length; [nia|lia|].
    replace (10 ^ (N - 1)) with (10 ^ (k - 1) * 10 ^ (N - k)) in HN2 by (rewrite <- Z.pow_add_r by lia; f_equal; lia).
    replace (10 ^ N) with (10 ^ k * 10 ^ (N - k)) in HN2 by (rewrite <- Z.pow_add_r by lia; f_equal; lia). nia. }
  rewrite Hl, Z2Nat.id, Z.eqb_refl by lia. unfold layout.
  destruct (Z.leb_spec k N); [|lia]. destruct (Z.leb_spec N 21); [|lia]. cbn [andb].
  rewrite <- Hx, Z_digits_zeros; [done|nia|lia].
Qed.

(** [String(z)] of a safe integer is its decimal text. *)
Lemma num_to_string_of_Z z : safe z → num_to_string (of_Z z) = Z_to_string z.
Proof.
  unfold safe, Z_to_string. intros H. destruct z as [|n|n]; [done|..].
  - rewrite of_Z_pos, num_to_string_pos by lia. done.
  - rewrite of_Z_neg, num_to_string_pos by lia. done.
Qed.
