(* ===== verification/JsValue.v ===== *)
(** * JavaScript values and JSON

    The values [JSON.parse] produces, together with [undefined], and what the
    sources do with values of type [unknown]: [typeof] tests, property reads,
    [Array.isArray], [Object.keys] and [Object.entries], truthiness,
    [JSON.parse] and [JSON.stringify].

    An object is an association list without duplicate keys in the order
    [Object.keys] enumerates: array-index keys ascending, then the others in
    insertion order. *)

From S2P Require Import Prelude JsString JsNumber.
Local Open Scope N_scope.

Inductive value :=
  | VUndef
  | VNull
  | VBool (b : bool)
  | VNum (n : number)
  | VStr (s : jsstr)
  | VArr (vs : list value)
  | VObj (fs : list (jsstr * value)).

Abbreviation obj := (list (jsstr * value)).

(** ** Objects *)

(** The array index a key denotes, if it is the canonical text of one. *)
Definition key_index (k : jsstr) : option Z :=
  match k with
  | [] => None
  | [48] => Some 0%Z
  | c :: _ =>
    if forallb is_digit k && negb (c =? 48) then
      let v := digits_val k in if (v <? 4294967295)%Z then Some v else None
    else None
  end.

Fixpoint obj_get (fs : obj) (k : jsstr) : option value :=
  match fs with
  | [] => None
  | (j, v) :: fs' => if str_eqb k j then Some v else obj_get fs' k
  end.

(** Whether a new key [k] is enumerated before an existing key [j]. *)
Definition key_before (k j : jsstr) : bool :=
  match key_index k, key_index j with
  | Some a, Some b => (a <? b)%Z
  | Some _, None => true
  | None, _ => false
  end.

Fixpoint obj_insert (fs : obj) (k : jsstr) (v : value) : obj :=
  match fs with
  | [] => [(k, v)]
  | (j, w) :: fs' => if key_before k j then (k, v) :: fs else (j, w) :: obj_insert fs' k v
  end.

Fixpoint obj_update (fs : obj) (k : jsstr) (v : value) : obj :=
  match fs with
  | [] => []
  | (j, w) :: fs' => if str_eqb k j then (j, v) :: fs' else (j, w) :: obj_update fs' k v
  end.

(** [o[k] = v] *)
Definition obj_set (fs : obj) (k : jsstr) (v : value) : obj :=
  match obj_get fs k with
  | Some _ => obj_update fs k v
  | None => obj_insert fs k v
  end.

(** Property read of a value known not to be [null] or [undefined]; a missing
    property and a property of a primitive read as [undefined]. *)
Definition prop (v : value) (k : jsstr) : value :=
  match v with VObj fs => default VUndef (obj_get fs k) | _ => VUndef end.

(** What an object literal inherits, and an index by a text finds too. *)
Definition object_prototype : list jsstr :=
  ["constructor"; "__defineGetter__"; "__defineSetter__"; "hasOwnProperty"; "__lookupGetter__"; "__lookupSetter__";
   "isPrototypeOf"; "propertyIsEnumerable"; "toString"; "valueOf"; "__proto__"; "toLocaleString"].

(** ** Tests on values *)

Definition truthy (v : value) : bool :=
  match v with
  | VUndef | VNull => false
  | VBool b => b
  | VNum n => num_truthy n
  | VStr s => nonempty s
  | VArr _ | VObj _ => true
  end.

Definition is_string (v : value) : bool := match v with VStr _ => true | _ => false end.
Definition is_number (v : value) : bool := match v with VNum _ => true | _ => false end.
Definition is_boolean (v : value) : bool := match v with VBool _ => true | _ => false end.
Definition is_undefined (v : value) : bool := match v with VUndef => true | _ => false end.
Definition is_array (v : value) : bool := match v with VArr _ => true | _ => false end.
(** [typeof v === 'object'] *)
Definition is_object (v : value) : bool :=
  match v with VNull | VArr _ | VObj _ => true | _ => false end.

(** [String(v)], the text [toString] gives: arrays join their elements with
    commas ([null] and [undefined] as the empty text). *)
Fixpoint to_string (v : value) : jsstr :=
  match v with
  | VUndef => "undefined"
  | VNull => "null"
  | VBool b => if b then "true" else "false"
  | VNum x => num_to_string x
  | VStr s => s
  | VArr vs => join "," (map (λ w, match w with VUndef | VNull => [] | _ => to_string w end) vs)
  | VObj _ => "[object Object]"
  end.

(** [v ?? ''] *)
Definition or_empty (v : value) : value :=
  match v with VUndef | VNull => VStr [] | _ => v end.

(** ** JSON.parse *)

Definition json_ws (c : N) : bool := (c =? 32) || (c =? 9) || (c =? 10) || (c =? 13).

Fixpoint skip_ws (s : jsstr) : jsstr :=
  match s with c :: s' => if json_ws c then skip_ws s' else s | [] => [] end.

Definition hex4 (a b c d : N) : option N :=
  match hex_val a, hex_val b, hex_val c, hex_val d with
  | Some x, Some y, Some z, Some w => Some (Z.to_N (x * 4096 + y * 256 + z * 16 + w)%Z)
  | _, _, _, _ => None
  end.

(** The characters of a string literal, after its opening quote. *)
Fixpoint json_chars (s : jsstr) : option (jsstr * jsstr) :=
  let more c r := match json_chars r with Some (t, r') => Some (c :: t, r') | None => None end in
  match s with
  | [] => None
  | 34 :: r => Some ([], r)
  | 92 :: 117 :: a :: b :: c :: d :: r =>
    match hex4 a b c d with Some u => more u r | None => None end
  | 92 :: e :: r =>
    match e with
    | 34 => more 34 r | 92 => more 92 r | 47 => more 47 r
    | 98 => more 8 r | 102 => more 12 r | 110 => more 10 r
    | 114 => more 13 r | 116 => more 9 r
    | _ => None
    end
  | c :: r => if (c <? 32) || (c =? 92) then None else more c r
  end.

(** A number: sign, integer part without leading zeros, fraction, exponent. *)
Definition json_number (s : jsstr) : option (number * jsstr) :=
  let '(neg, s1) := match s with 45 :: r => (true, r) | _ => (false, s) end in
  let '(ip, s2) := span is_digit s1 in
  let int_ok := match ip with [] => false | [_] => true | c :: _ => negb (c =? 48) end in
  if int_ok then
    let '(fp, s3, frac_ok) :=
      match s2 with
      | 46 :: r => let '(f, r') := span is_digit r in (f, r', nonempty f)
      | _ => ([], s2, true)
      end in
    if (frac_ok : bool) then
      let '(e, s4, exp_ok) :=
        match s3 with
        | c :: r =>
          if (c =? 101) || (c =? 69) then
            let '(eneg, r1) := match r with 43 :: t => (false, t) | 45 :: t => (true, t) | _ => (false, r) end in
            let '(ed, r2) := span is_digit r1 in
            ((if (eneg : bool) then - digits_val ed else digits_val ed)%Z, r2, nonempty ed)
          else (0%Z, s3, true)
        | [] => (0%Z, s3, true)
        end in
      if (exp_ok : bool)
      then Some (dec_to_num neg (digits_val (ip ++ fp)) (e - Z.of_nat (length fp)), s4)
      else None
    else None
  else None.

(** A value at the front of the text (leading white space skipped).  Every
    call consumes a character, so [S (length s)] is enough fuel. *)
Fixpoint json_value (n : nat) (s : jsstr) : option (value * jsstr) :=
  match n with
  | O => None
  | S n' =>
    match skip_ws s with
    | 34 :: r => match json_chars r with Some (t, r') => Some (VStr t, r') | None => None end
    | 123 :: r =>
      match skip_ws r with
      | 125 :: r' => Some (VObj [], r')
      | _ => json_members n' r []
      end
    | 91 :: r =>
      match skip_ws r with
      | 93 :: r' => Some (VArr [], r')
      | _ => json_elements n' r []
      end
    | 116 :: 114 :: 117 :: 101 :: r => Some (VBool true, r)
    | 102 :: 97 :: 108 :: 115 :: 101 :: r => Some (VBool false, r)
    | 110 :: 117 :: 108 :: 108 :: r => Some (VNull, r)
    | t => match json_number t with Some (x, r) => Some (VNum x, r) | None => None end
    end
  end
with json_elements (n : nat) (s : jsstr) (acc : list value) : option (value * jsstr) :=
  match n with
  | O => None
  | S n' =>
    match json_value n' s with
    | None => None
    | Some (v, r) =>
      match skip_ws r with
      | 44 :: r' => json_elements n' r' (acc ++ [v])
      | 93 :: r' => Some (VArr (acc ++ [v]), r')
      | _ => None
      end
    end
  end
with json_members (n : nat) (s : jsstr) (acc : obj) : option (value * jsstr) :=
  match n with
  | O => None
  | S n' =>
    match skip_ws s with
    | 34 :: r =>
      match json_chars r with
      | None => None
      | Some (k, r1) =>
        match skip_ws r1 with
        | 58 :: r2 =>
          match json_value n' r2 with
          | None => None
          | Some (v, r3) =>
            match skip_ws r3 with
            | 44 :: r4 => json_members n' r4 (obj_set acc k v)
            | 125 :: r4 => Some (VObj (obj_set acc k v), r4)
            | _ => None
            end
          end
        | _ => None
        end
      end
    | _ => None
    end
  end.

(** [JSON.parse(s)]; [None] when it throws. *)
Definition JSON_parse (s : jsstr) : option value :=
  match json_value (2 * length s + 2) s with
  | Some (v, r) => match skip_ws r with [] => Some v | _ => None end
  | None => None
  end.

(** ** JSON.stringify *)

Definition hex_digit (n : N) : N := if n <? 10 then n + 48 else n + 87.

Definition u_escape (c : N) : jsstr :=
  [92; 117; hex_digit (c / 4096); hex_digit (c / 256 mod 16);
   hex_digit (c / 16 mod 16); hex_digit (c mod 16)].

Definition is_lead (c : N) : bool := (55296 <=? c) && (c <=? 56319).
Definition is_trail (c : N) : bool := (56320 <=? c) && (c <=? 57343).

(** The body of a quoted string; lone surrogates are escaped. *)
Fixpoint quote_chars (s : jsstr) : jsstr :=
  match s with
  | [] => []
  | c :: r =>
    if c =? 34 then [92; 34] ++ quote_chars r
    else if c =? 92 then [92; 92] ++ quote_chars r
    else if c =? 8 then [92; 98] ++ quote_chars r
    else if c =? 12 then [92; 102] ++ quote_chars r
    else if c =? 10 then [92; 110] ++ quote_chars r
    else if c =? 13 then [92; 114] ++ quote_chars r
    else if c =? 9 then [92; 116] ++ quote_chars r
    else if c <? 32 then u_escape c ++ quote_chars r
    else if is_lead c then
      match r with
      | d :: r' => if is_trail d then c :: d :: quote_chars r' else u_escape c ++ quote_chars r
      | [] => u_escape c
      end
    else if is_trail c then u_escape c ++ quote_chars r
    else c :: quote_chars r
  end.

(** [JSON.stringify(s)] of a string. *)
Definition quote (s : jsstr) : jsstr := DQ ++ quote_chars s ++ DQ.

Definition indent_by (n : nat) : jsstr := replicate n 32.

(** [JSON.stringify(v, null, 2)] at indentation [ind]; [None] for a value
    JSON has no text for ([undefined]), which members skip and elements print
    as [null]. *)
Fixpoint stringify2 (ind : nat) (v : value) : option jsstr :=
  match v with
  | VUndef => None
  | VNull => Some "null"
  | VBool b => Some (if b then "true" else "false")
  | VNum x => Some (if is_finite x then num_to_string x else "null")
  | VStr s => Some (quote s)
  | VArr vs =>
    match vs with
    | [] => Some "[]"
    | _ =>
      let els := map (λ w, indent_by (ind + 2) ++ default "null" (stringify2 (ind + 2) w)) vs in
      Some ("[" ++ [10] ++ join ("," ++ [10]) els ++ [10] ++ indent_by ind ++ "]")
    end
  | VObj fs =>
    let ms := omap (λ p, match stringify2 (ind + 2) p.2 with
                         | Some t => Some (indent_by (ind + 2) ++ quote p.1 ++ ": " ++ t)
                         | None => None
                         end) fs in
    match ms with
    | [] => Some "{}"
    | _ => Some ("{" ++ [10] ++ join ("," ++ [10]) ms ++ [10] ++ indent_by ind ++ "}")
    end
  end.

Definition JSON_stringify2 (v : value) : option jsstr := stringify2 0 v.

(** [JSON.stringify(v)], without indentation. *)
Fixpoint JSON_stringify (v : value) : option jsstr :=
  match v with
  | VUndef => None
  | VNull => Some "null"
  | VBool b => Some (if b then "true" else "false")
  | VNum x => Some (if is_finite x then num_to_string x else "null")
  | VStr s => Some (quote s)
  | VArr vs => Some ("[" ++ join "," (map (λ w, default "null" (JSON_stringify w)) vs) ++ "]")
  | VObj fs =>
    Some ("{" ++ join "," (omap (λ p, match JSON_stringify p.2 with
                                      | Some t => Some (quote p.1 ++ ":" ++ t)
                                      | None => None
                                      end) fs) ++ "}")
  end.
