(* ===== verification/JsObject.v ===== *)
(** * Facts about objects

    Reading after an assignment, and that the keys of every object
    [JSON.parse] gives are distinct, at every depth. *)

From S2P Require Import Prelude JsString JsNumber JsValue.

Lemma obj_get_update fs k v j : is_Some (obj_get fs k) → obj_get (obj_update fs k v) j = if decide (j = k) then Some v else obj_get fs j.
Proof.
  induction fs as [|[i w] fs IH]; cbn; [by intros [? ?]|]. unfold str_eqb in *. intros H.
  case_bool_decide as Ek; subst; cbn.
  - unfold str_eqb. case_bool_decide; destruct (decide (j = i)); congruence.
  - unfold str_eqb. rewrite IH by done. case_bool_decide; destruct (decide (j = k)); congruence.
Qed.

Lemma obj_get_insert fs k v j : obj_get fs k = None → obj_get (obj_insert fs k v) j = if decide (j = k) then Some v else obj_get fs j.
Proof.
  induction fs as [|[i w] fs IH]; cbn; unfold str_eqb in *.
  - intros _. case_bool_decide; destruct (decide (j = k)); congruence.
  - case_bool_decide as Ek; [done|]. intros H. destruct (key_before k i); cbn; unfold str_eqb.
    + case_bool_decide; destruct (decide (j = k)); congruence.
    + rewrite IH by done. case_bool_decide; destruct (decide (j = k)); congruence.
Qed.

Lemma obj_get_set fs k v j : obj_get (obj_set fs k v) j = if decide (j = k) then Some v else obj_get fs j.
Proof. unfold obj_set. destruct (obj_get fs k) eqn:E; [by apply obj_get_update|by apply obj_get_insert]. Qed.

Lemma obj_get_set_eq fs k v : obj_get (obj_set fs k v) k = Some v.
Proof. rewrite obj_get_set. by destruct (decide _). Qed.

Lemma obj_get_set_ne fs k v j : j ≠ k → obj_get (obj_set fs k v) j = obj_get fs j.
Proof. intros H. rewrite obj_get_set. by destruct (decide _). Qed.

Lemma obj_get_absent fs k : obj_get fs k = None ↔ k ∉ fs.*1.
Proof.
  induction fs as [|[i w] fs IH]; cbn; [split; [by intros _ ?%elem_of_nil|done]|].
  rewrite not_elem_of_cons, <- IH. unfold str_eqb. case_bool_decide; [|tauto]. split; [done|tauto].
Qed.

Lemma obj_get_elem fs k v : obj_get fs k = Some v → (k, v) ∈ fs.
Proof.
  induction fs as [|[j w] fs IH]; [done|]. cbn. destruct (str_eqb k j) eqn:E.
  - apply str_eqb_spec in E as ->. intros [= ->]. left.
  - intros H. right. by apply IH.
Qed.

(** The entries of an object are what reading gives. *)
Lemma elem_of_obj_get fs k v : NoDup fs.*1 → (k, v) ∈ fs ↔ obj_get fs k = Some v.
Proof.
  intros Hn. split; [|apply obj_get_elem]. induction fs as [|[j w] fs IH]; [by intros ?%elem_of_nil|]. cbn in *.
  apply NoDup_cons in Hn as [Hj Hn]. rewrite elem_of_cons. unfold str_eqb. intros [[= -> ->]|Hin]; [by rewrite bool_decide_true|].
  rewrite bool_decide_false; [by apply IH|]. intros ->. apply Hj, list_elem_of_fmap. by exists (j, v).
Qed.

Lemma obj_update_keys fs k v : (obj_update fs k v).*1 = fs.*1.
Proof. induction fs as [|[i w] fs IH]; [done|]. cbn. destruct (str_eqb k i); [done|]. cbn. by rewrite IH. Qed.

Lemma obj_insert_perm fs k v : obj_insert fs k v ≡ₚ (k, v) :: fs.
Proof. induction fs as [|[i w] fs IH]; [done|]. cbn. destruct (key_before k i); [done|]. rewrite IH. constructor. Qed.

Lemma obj_set_NoDup fs k v : NoDup fs.*1 → NoDup (obj_set fs k v).*1.
Proof.
  intros H. unfold obj_set. destruct (obj_get fs k) eqn:E; [by rewrite obj_update_keys|].
  rewrite obj_insert_perm. cbn. constructor; [by apply obj_get_absent|done].
Qed.

(** The values after an assignment. *)
Lemma obj_set_Forall (P : value → Prop) fs k v : P v → Forall (λ p, P p.2) fs → Forall (λ p, P p.2) (obj_set fs k v).
Proof.
  intros Hv H. unfold obj_set. destruct (obj_get fs k); [|by rewrite obj_insert_perm; constructor].
  induction H as [|[i w] fs Hw H IH]; cbn; [constructor|]. destruct (str_eqb k i); by constructor.
Qed.

(** ** Distinct keys *)

Fixpoint keys_distinct (v : value) : bool :=
  match v with
  | VArr vs => forallb keys_distinct vs
  | VObj fs => bool_decide (NoDup fs.*1) && forallb (λ p, keys_distinct p.2) fs
  | _ => true
  end.

Lemma distinct_obj fs : keys_distinct (VObj fs) = true ↔ NoDup fs.*1 ∧ Forall (λ p, keys_distinct p.2 = true) fs.
Proof. cbn. rewrite andb_true_iff, bool_decide_eq_true, forallb_forall, Forall_forall. by setoid_rewrite list_elem_of_In. Qed.

Lemma distinct_arr vs : keys_distinct (VArr vs) = true ↔ Forall (λ v, keys_distinct v = true) vs.
Proof. cbn. rewrite forallb_forall, Forall_forall. by setoid_rewrite list_elem_of_In. Qed.

Lemma distinct_prop v k : keys_distinct v = true → keys_distinct (prop v k) = true.
Proof.
  destruct v as [| | | | | |fs]; try done. intros [_ H]%distinct_obj. unfold prop. destruct (obj_get fs k) as [w|] eqn:E; [|done]. cbn.
  induction H as [|[i x] fs Hx H IH]; [done|]. cbn in E. destruct (str_eqb k i); [by injection E as <-|auto].
Qed.

Lemma obj_set_distinct fs k v : keys_distinct v = true → Forall (λ p, keys_distinct p.2 = true) fs →
  Forall (λ p, keys_distinct p.2 = true) (obj_set fs k v).
Proof. apply (obj_set_Forall (λ v, keys_distinct v = true)). Qed.

Local Abbreviation good o := (∀ v r, o = Some (v, r) → keys_distinct v = true).

Lemma json_distinct n :
  (∀ s, good (json_value n s)) ∧
  (∀ s acc, Forall (λ v, keys_distinct v = true) acc → good (json_elements n s acc)) ∧
  (∀ s acc, NoDup acc.*1 → Forall (λ p, keys_distinct p.2 = true) acc → good (json_members n s acc)).
Proof.
  induction n as [|n (IHv & IHe & IHm)]; [by repeat split|]. split_and!.
  - intros s v r. cbn [json_value]. set (t := skip_ws s). clearbody t.
    repeat (case_match; try (discriminate || intros [= <- <-]; done)); intros; simplify_eq; eauto.
    all: by eapply (IHm _ []); [constructor|constructor|].
  - intros s acc Ha v r. cbn [json_elements]. destruct (json_value n s) as [[w r']|] eqn:Ew; [|done].
    apply IHv in Ew. assert (Forall (λ v, keys_distinct v = true) (acc ++ [w])) as Ha' by (rewrite Forall_app; auto).
    repeat (case_match; try done); intros; simplify_eq; eauto. by apply distinct_arr.
  - intros s acc Hd Ha v r. cbn [json_members]. destruct (skip_ws s) as [|c r0]; [done|].
    repeat (case_match; try done); intros; simplify_eq.
    all: match goal with H : json_value _ _ = Some _ |- _ => apply IHv in H end.
    all: first [eapply IHm; [| |done] | apply distinct_obj; split]; auto using obj_set_NoDup, obj_set_distinct.
Qed.

Lemma JSON_parse_distinct s v : JSON_parse s = Some v → keys_distinct v = true.
Proof.
  unfold JSON_parse. destruct (json_value _ s) as [[w r]|] eqn:E; [|done]. apply json_distinct in E.
  by destruct (skip_ws r); intros [= <-].
Qed.
