(* ===== verification/JsonRoundTrip.v ===== *)
(** * Printing and reading JSON

    [JSON.parse] reads back what [JSON.stringify] wrote, with or without
    two-space indentation, for values built from [null], booleans, numbers that
    are what their text reads as (integers in the safe range always are, other
    numbers are tested, [readable]), strings, arrays and objects whose keys are
    distinct and no array indices (index keys would be enumerated first).  Any string is
    allowed, lone surrogates included.  Both printers are one printer with a
    different layout of white space. *)

From S2P Require Import Prelude JsString JsNumber JsInteger JsIntegerText JsValue.
Local Open Scope N_scope.

Lemma value_ind' (P : value → Prop) :
  P VUndef → P VNull → (∀ b, P (VBool b)) → (∀ x, P (VNum x)) → (∀ s, P (VStr s)) →
  (∀ vs, Forall P vs → P (VArr vs)) → (∀ fs, Forall (λ p, P p.2) fs → P (VObj fs)) → ∀ v, P v.
Proof.
  intros H1 H2 H3 H4 H5 H6 H7. fix IH 1.
  intros [| |b|x|s|vs|fs]; [exact H1|exact H2|apply H3|apply H4|apply H5| |].
  - apply H6. revert vs. fix IHvs 1. intros [|v vs]; constructor; [apply IH|apply IHvs].
  - apply H7. revert fs. fix IHfs 1. intros [|[k v] fs]; constructor; [apply IH|apply IHfs].
Qed.

(** ** Strings *)

Lemma hex_digit_val n : n < 16 → hex_val (hex_digit n) = Some (Z.of_N n).
Proof.
  intros H. unfold hex_digit, hex_val. destruct (n <? 10) eqn:E.
  - unfold is_digit. rewrite (proj2 (N.leb_le 48 _)), (proj2 (N.leb_le _ 57)) by lia. cbn. f_equal. lia.
  - unfold is_digit. rewrite (proj2 (N.leb_gt _ 57)), andb_false_r by lia.
    rewrite (proj2 (N.leb_le 97 _)), (proj2 (N.leb_le _ 102)) by lia. cbn. f_equal. lia.
Qed.

Lemma hex4_escape c : c < 65536 →
  hex4 (hex_digit (c / 4096)) (hex_digit (c / 256 mod 16)) (hex_digit (c / 16 mod 16)) (hex_digit (c mod 16)) = Some c.
Proof.
  intros H. unfold hex4.
  rewrite (hex_digit_val (c / 4096)) by (apply N.Div0.div_lt_upper_bound; lia).
  rewrite !hex_digit_val by (apply N.mod_lt; lia).
  f_equal. apply N2Z.inj. rewrite Z2N.id by (zify; Z.to_euclidean_division_equations; lia).
  zify. Z.to_euclidean_division_equations. lia.
Qed.

(** What reading a string does after a character [c]. *)
Definition json_cons (c : N) (o : option (jsstr * jsstr)) : option (jsstr * jsstr) :=
  match o with Some (t, r) => Some (c :: t, r) | None => None end.

Lemma json_chars_u c r : c < 65536 → json_chars (u_escape c ++ r) = json_cons c (json_chars r).
Proof.
  intros H. unfold u_escape.
  change (match hex4 (hex_digit (c / 4096)) (hex_digit (c / 256 mod 16)) (hex_digit (c / 16 mod 16)) (hex_digit (c mod 16))
          with Some u => json_cons u (json_chars r) | None => None end = json_cons c (json_chars r)).
  by rewrite (hex4_escape c H).
Qed.

(** A character that stands for itself in a string literal. *)
Lemma json_chars_other c r : c ≠ 34 → c ≠ 92 → 32 <= c → json_chars (c :: r) = json_cons c (json_chars r).
Proof.
  intros H1 H2 H3. cbn.
  assert (E : (c <? 32) || (c =? 92) = false) by (apply orb_false_iff; lia). revert E.
  destruct c as [|c]; [lia|]. repeat (destruct c as [c|c|]; try (intros ->; reflexivity); try lia).
Qed.

Lemma json_chars_quote_len n s r : (length s <= n)%nat →
  json_chars (quote_chars s ++ 34 :: r) = Some (s, r).
Proof.
  revert s. induction n as [|n IH]; intros [|c s] L; try (cbn in L; lia); try done.
  assert (L' : (length s <= n)%nat) by (cbn in L; lia).
  cbn [quote_chars].
  destruct (c =? 34) eqn:E1; [apply N.eqb_eq in E1 as ->; cbn; by rewrite (IH _ L')|].
  destruct (c =? 92) eqn:E2; [apply N.eqb_eq in E2 as ->; cbn; by rewrite (IH _ L')|].
  destruct (c =? 8) eqn:E3; [apply N.eqb_eq in E3 as ->; cbn; by rewrite (IH _ L')|].
  destruct (c =? 12) eqn:E4; [apply N.eqb_eq in E4 as ->; cbn; by rewrite (IH _ L')|].
  destruct (c =? 10) eqn:E5; [apply N.eqb_eq in E5 as ->; cbn; by rewrite (IH _ L')|].
  destruct (c =? 13) eqn:E6; [apply N.eqb_eq in E6 as ->; cbn; by rewrite (IH _ L')|].
  destruct (c =? 9) eqn:E7; [apply N.eqb_eq in E7 as ->; cbn; by rewrite (IH _ L')|].
  destruct (c <? 32) eqn:E8; [rewrite <- app_assoc, json_chars_u, (IH _ L') by lia; done|].
  destruct (is_lead c) eqn:E9.
  - unfold is_lead in E9. apply andb_true_iff in E9 as [E9 E10].
    destruct s as [|d s]; [rewrite json_chars_u by lia; done|].
    destruct (is_trail d) eqn:E11.
    + unfold is_trail in E11. apply andb_true_iff in E11 as [E11 E12].
      cbn [app]. rewrite !json_chars_other by lia. rewrite IH by (cbn in L'; lia). done.
    + rewrite <- app_assoc, json_chars_u, (IH _ L') by lia. done.
  - destruct (is_trail c) eqn:E11.
    + unfold is_trail in E11. apply andb_true_iff in E11 as [E11 E12].
      rewrite <- app_assoc, json_chars_u, (IH _ L') by lia. done.
    + cbn [app]. rewrite json_chars_other by lia. by rewrite (IH _ L').
Qed.

(** Every text survives quoting. *)
Lemma json_chars_quote s r : json_chars (quote_chars s ++ 34 :: r) = Some (s, r).
Proof. by apply (json_chars_quote_len (length s)). Qed.

(** ** Numbers *)

(** The integer a number is, in the safe range. *)
Definition safe_int (x : number) : option Z :=
  match num_floor x with
  | Some z => if bool_decide (x = of_Z z) && (Z.abs z <? 2 ^ 53)%Z then Some z else None
  | None => None
  end.

Lemma safe_int_spec x z : safe_int x = Some z → x = of_Z z ∧ safe z.
Proof.
  unfold safe_int, safe. destruct (num_floor x) as [y|]; [|done].
  destruct (bool_decide _) eqn:E; [|done]. destruct (Z.ltb_spec (Z.abs y) (2 ^ 53)); [|done].
  intros [= <-]. apply bool_decide_eq_true in E. split; [done|lia].
Qed.

Lemma safe_int_of_Z z : safe z → safe_int (of_Z z) = Some z.
Proof.
  intros Hz. unfold safe_int. rewrite num_floor_of_Z, bool_decide_true by done. unfold safe in Hz.
  destruct (Z.ltb_spec (Z.abs z) (2 ^ 53)); [done|lia].
Qed.

(** A character that does not continue a number. *)
Definition stops (rest : jsstr) : Prop :=
  match rest with [] => True | c :: _ => is_digit c = false ∧ c ≠ 46 ∧ c ≠ 101 ∧ c ≠ 69 end.

Lemma span_digits ds rest : forallb is_digit ds = true → stops rest → span is_digit (ds ++ rest) = (ds, rest).
Proof.
  intros Hd Hr. induction ds as [|c ds IH]; cbn in *.
  - destruct rest as [|c r]; [done|]. destruct Hr as [Hc _]. cbn. by rewrite Hc.
  - apply andb_true_iff in Hd as [-> Hd]. by rewrite IH.
Qed.

Lemma Z_digits_int_ok z : (0 <= z)%Z →
  match Z_digits z with [] => false | [_] => true | c :: _ => negb (c =? 48) end = true.
Proof.
  intros Hz. destruct (Z.eq_dec z 0%Z) as [->|]; [done|].
  destruct (Z_digits_head z) as (c & r & -> & _ & Hc); [lia|]. destruct r; [done|]. lia.
Qed.

Lemma json_number_unsigned z rest : (0 <= z)%Z → stops rest → ∀ neg s,
  match s with 45 :: r => (true, r) | _ => (false, s) end = (neg, Z_digits z ++ rest) →
  json_number s = Some (dec_to_num neg z 0, rest).
Proof.
  intros Hz Hr neg s E. unfold json_number. rewrite E, span_digits by (done || by apply Z_digits_are_digits).
  rewrite Z_digits_int_ok by done.
  assert (match rest with 46 :: r => let '(f, r') := span is_digit r in (f, r', nonempty f) | _ => ([], rest, true) end
    = ([], rest, true)) as ->.
  { destruct rest as [|c r]; [done|]. destruct Hr as (_ & Hc & _).
    destruct c as [|c]; [done|]. by repeat (destruct c as [c|c|]; try done). }
  cbv iota beta.
  destruct rest as [|c r].
  - rewrite app_nil_r, digits_val_Z_digits by done. done.
  - destruct Hr as (_ & _ & H1 & H2).
    assert ((c =? 101) || (c =? 69) = false) as -> by (apply orb_false_iff; lia).
    rewrite app_nil_r, digits_val_Z_digits by done. done.
Qed.

(** The text of a safe integer is read back. *)
Lemma json_number_int z rest : safe z → stops rest →
  json_number (Z_to_string z ++ rest) = Some (of_Z z, rest).
Proof.
  unfold safe, Z_to_string. intros Hz Hr. destruct (Z.ltb_spec z 0%Z) as [L|L].
  - rewrite (json_number_unsigned (- z) rest ltac:(lia) Hr true) by done.
    destruct z as [|n|n]; [lia|lia|]. change (- Z.neg n)%Z with (Z.pos n). by rewrite dec_to_num_exact, of_Z_neg by lia.
  - rewrite (json_number_unsigned z rest L Hr false); [by rewrite dec_to_num_of_Z by lia|].
    destruct (Z.eq_dec z 0%Z) as [->|]; [done|].
    destruct (Z_digits_head z) as (c & r & -> & Hc & _); [lia|]. cbn [app].
    unfold is_digit in Hc. destruct c as [|c]; [done|]. repeat (destruct c as [c|c|]; try done).
Qed.

(** *** Numbers whose text reads back *)

(** The parts of [json_number], with their tests written out. *)
Definition sign_of (s : jsstr) : bool * jsstr :=
  match s with c :: r => if c =? 45 then (true, r) else (false, s) | [] => (false, s) end.
Definition fraction_of (s : jsstr) : jsstr * jsstr * bool :=
  match s with
  | c :: r => if c =? 46 then let '(f, r') := span is_digit r in (f, r', nonempty f) else ([], s, true)
  | [] => ([], s, true)
  end.
Definition exp_sign_of (s : jsstr) : bool * jsstr :=
  match s with c :: r => if c =? 43 then (false, r) else if c =? 45 then (true, r) else (false, s) | [] => (false, s) end.
Definition exponent_of (s : jsstr) : Z * jsstr * bool :=
  match s with
  | c :: r =>
    if (c =? 101) || (c =? 69) then
      let '(eneg, r1) := exp_sign_of r in
      let '(ed, r2) := span is_digit r1 in
      ((if (eneg : bool) then - digits_val ed else digits_val ed)%Z, r2, nonempty ed)
    else (0%Z, s, true)
  | [] => (0%Z, s, true)
  end.

Local Ltac char_cases := let c := fresh in intros [|c ?]; [done|]; destruct c as [|c]; [done|]; by repeat (destruct c as [c|c|]; try done).

Lemma sign_of_match s : match s with 45 :: r => (true, r) | _ => (false, s) end = sign_of s.
Proof. revert s. char_cases. Qed.
Lemma fraction_of_match s : match s with
    | 46 :: r => let '(f, r') := span is_digit r in (f, r', nonempty f)
    | _ => ([], s, true)
    end = fraction_of s.
Proof. revert s. char_cases. Qed.
Lemma exp_sign_of_match s : match s with 43 :: t => (false, t) | 45 :: t => (true, t) | _ => (false, s) end = exp_sign_of s.
Proof. revert s. char_cases. Qed.

Lemma json_number_parts s : json_number s =
  let '(neg, s1) := sign_of s in
  let '(ip, s2) := span is_digit s1 in
  if match ip with [] => false | [_] => true | c :: _ => negb (c =? 48) end then
    let '(fp, s3, frac_ok) := fraction_of s2 in
    if (frac_ok : bool) then
      let '(e, s4, exp_ok) := exponent_of s3 in
      if (exp_ok : bool)
      then Some (dec_to_num neg (digits_val (ip ++ fp)) (e - Z.of_nat (length fp)), s4)
      else None
    else None
  else None.
Proof.
  unfold json_number. rewrite sign_of_match. destruct (sign_of s) as [neg s1]. destruct (span is_digit s1) as [ip s2].
  destruct (match ip with [] => false | [_] => true | c :: _ => negb (c =? 48) end); [|done].
  rewrite fraction_of_match. destruct (fraction_of s2) as [[fp s3] [|]]; [|done].
  destruct s3 as [|c r]; [done|]. unfold exponent_of. by rewrite exp_sign_of_match.
Qed.

Lemma span_stops s rest a b : span is_digit s = (a, b) → stops rest → span is_digit (s ++ rest) = (a, b ++ rest).
Proof.
  revert a b. induction s as [|c s IH]; intros a b E Hr; cbn in E.
  - injection E as <- <-. destruct rest as [|d r]; [done|]. destruct Hr as [Hd _]. cbn. by rewrite Hd.
  - destruct (is_digit c) eqn:Ec; cbn; rewrite Ec; [|by injection E as <- <-].
    destruct (span is_digit s) as [a' b']. injection E as <- <-. by rewrite (IH a' b').
Qed.

Lemma fraction_stops s rest f r ok : fraction_of s = (f, r, ok) → stops rest → fraction_of (s ++ rest) = (f, r ++ rest, ok).
Proof.
  destruct s as [|c s]; cbn.
  - intros [= <- <- <-]. destruct rest as [|d t]; [done|]. intros (_ & Hd & _). cbn. by destruct (N.eqb_spec d 46).
  - destruct (c =? 46); [|by intros [= <- <- <-]]. destruct (span is_digit s) as [a b] eqn:E. intros [= <- <- <-] Hr.
    by rewrite (span_stops _ _ _ _ E Hr).
Qed.

Lemma exponent_stops s rest e r : exponent_of s = (e, r, true) → stops rest → exponent_of (s ++ rest) = (e, r ++ rest, true).
Proof.
  destruct s as [|c s]; cbn.
  - intros [= <- <-]. destruct rest as [|d t]; [done|]. intros (_ & _ & H1 & H2). cbn.
    destruct (N.eqb_spec d 101), (N.eqb_spec d 69); done.
  - destruct (_ || _); [|by intros [= <- <-]]. destruct s as [|d s]; [done|].
    assert (exp_sign_of ((d :: s) ++ rest) = ((exp_sign_of (d :: s)).1, (exp_sign_of (d :: s)).2 ++ rest)) as ->.
    { cbn. destruct (d =? 43), (d =? 45); done. }
    destruct (exp_sign_of (d :: s)) as [eneg r1]. cbn [fst snd]. destruct (span is_digit r1) as [ed r2] eqn:E.
    intros [= <- <- Hne] Hr. by rewrite (span_stops _ _ _ _ E Hr), Hne.
Qed.

(** What follows a number is left alone. *)
Lemma json_number_stops s rest x r : json_number s = Some (x, r) → stops rest → json_number (s ++ rest) = Some (x, r ++ rest).
Proof.
  rewrite !json_number_parts. intros E Hr. destruct s as [|c s]; [done|].
  assert (sign_of ((c :: s) ++ rest) = ((sign_of (c :: s)).1, (sign_of (c :: s)).2 ++ rest)) as ->.
  { cbn. destruct (c =? 45); done. }
  destruct (sign_of (c :: s)) as [neg s1]. cbn [fst snd]. destruct (span is_digit s1) as [ip s2] eqn:Es.
  rewrite (span_stops _ _ _ _ Es Hr). destruct (match ip with [] => false | [_] => true | c :: _ => negb (c =? 48) end); [|done].
  destruct (fraction_of s2) as [[fp s3] [|]] eqn:Ef; [|done]. rewrite (fraction_stops _ _ _ _ _ Ef Hr).
  destruct (exponent_of s3) as [[e s4] [|]] eqn:Ee; [|done]. rewrite (exponent_stops _ _ _ _ Ee Hr). by injection E as <- <-.
Qed.

(** Finite numbers that are what their text reads as: every safe integer, and
    every other number for which the digits printed are enough. *)
Definition readable (x : number) : bool := is_finite x && bool_decide (json_number (num_to_string x) = Some (x, [])).

Lemma readable_spec x : readable x → is_finite x = true ∧ ∀ rest, stops rest → json_number (num_to_string x ++ rest) = Some (x, rest).
Proof.
  unfold readable. rewrite andb_True, bool_decide_spec. intros [Hf E]. split; [by apply Is_true_true|].
  intros rest Hr. by rewrite (json_number_stops _ _ _ _ E Hr).
Qed.

Lemma safe_readable z : safe z → readable (of_Z z).
Proof.
  intros Hz. unfold readable. rewrite of_Z_finite, num_to_string_of_Z by done. apply bool_decide_spec.
  pose proof (json_number_int z [] Hz I) as H. by rewrite app_nil_r in H.
Qed.

Lemma safe_int_readable x : is_Some (safe_int x) → readable x.
Proof. intros [z [-> Hz]%safe_int_spec]. by apply safe_readable. Qed.

(** The text of a number starts with its sign or a digit. *)
Lemma readable_head x : readable x → ∃ c t, num_to_string x = c :: t ∧ (c = 45 ∨ is_digit c = true).
Proof.
  intros [_ H]%readable_spec. specialize (H [] I). rewrite app_nil_r in H. destruct (num_to_string x) as [|c t]; [done|].
  exists c, t. split; [done|]. rewrite json_number_parts in H. cbn [sign_of] in H. destruct (N.eqb_spec c 45) as [|]; [by left|].
  right. cbn in H. by destruct (is_digit c).
Qed.

(** ** Values *)

Fixpoint jsonable (v : value) : bool :=
  match v with
  | VUndef => false
  | VNum x => readable x
  | VNull | VBool _ | VStr _ => true
  | VArr vs => forallb jsonable vs
  | VObj fs =>
    bool_decide (NoDup (fs.*1)) &&
    forallb (λ p, bool_decide (key_index p.1 = None) && jsonable p.2) fs
  end.

Lemma jsonable_obj fs : jsonable (VObj fs) →
  NoDup (fs.*1) ∧ ∀ p, p ∈ fs → key_index p.1 = None ∧ jsonable p.2.
Proof.
  cbn. rewrite andb_True, bool_decide_spec. intros [H1 H2]. split; [done|]. intros p Hp.
  apply Is_true_true in H2. rewrite forallb_forall in H2. apply list_elem_of_In, H2, Is_true_true in Hp.
  by rewrite andb_True, bool_decide_spec in Hp.
Qed.

Lemma obj_jsonable fs : NoDup (fs.*1) → (∀ p, p ∈ fs → key_index p.1 = None ∧ jsonable p.2) → jsonable (VObj fs).
Proof.
  intros H1 H2. cbn. rewrite andb_True, bool_decide_spec. split; [done|]. apply forallb_True, Forall_forall.
  intros p Hp. rewrite andb_True, bool_decide_spec. by apply H2.
Qed.

Lemma strings_jsonable l : jsonable (VArr (VStr <$> l)).
Proof. apply forallb_True, Forall_fmap, Forall_true. done. Qed.

Fixpoint vsize (v : value) : nat :=
  match v with
  | VArr vs => 1 + sum_list (map (λ w, 1 + vsize w)%nat vs)
  | VObj fs => 1 + sum_list (map (λ p, 1 + vsize p.2)%nat fs)
  | _ => 1
  end.

Lemma omap_map {A B} (f : A → option B) (g : A → B) l :
  (∀ x, x ∈ l → f x = Some (g x)) → omap f l = map g l.
Proof.
  induction l as [|x l IH]; intros H; [done|]. cbn. rewrite (H x) by set_solver. f_equal. apply IH. set_solver.
Qed.

Lemma skip_ws_app ws t : forallb json_ws ws → skip_ws (ws ++ t) = skip_ws t.
Proof. induction ws as [|c ws IH]; [done|]. cbn. destruct (json_ws c); [apply IH|done]. Qed.

Lemma indent_ws n : forallb json_ws (indent_by n).
Proof. induction n; [done|]. cbn. done. Qed.

Lemma obj_get_fresh fs k : k ∉ fs.*1 → obj_get fs k = None.
Proof.
  induction fs as [|[j w] fs IH]; [done|]. cbn. rewrite not_elem_of_cons. intros [H1 H2].
  destruct (str_eqb k j) eqn:E; [|by apply IH]. apply str_eqb_spec in E. done.
Qed.

Lemma obj_set_fresh fs k v : k ∉ fs.*1 → key_index k = None → obj_set fs k v = fs ++ [(k, v)].
Proof.
  intros H1 H2. unfold obj_set. rewrite obj_get_fresh by done. clear H1.
  induction fs as [|[j w] fs IH]; [done|]. cbn. unfold key_before. rewrite H2. by rewrite IH.
Qed.

(** A value's text starts with a quote, an opening bracket, a letter of a
    keyword, a digit or a minus sign: no white space and no closing bracket. *)
Definition starts_value (c : N) : bool :=
  (c =? 34) || (c =? 91) || (c =? 123) || (c =? 110) || (c =? 116) || (c =? 102) || (c =? 45) || is_digit c.
Definition head_ok (t : jsstr) : Prop := ∃ c t', t = c :: t' ∧ starts_value c = true.

Lemma starts_value_not c : starts_value c = true → json_ws c = false ∧ c ≠ 93 ∧ c ≠ 125.
Proof. unfold starts_value, json_ws, is_digit. lia. Qed.

Lemma skip_ws_head t : head_ok t → skip_ws t = t.
Proof. intros (c & t' & -> & Hc). apply starts_value_not in Hc as (Hc & _). cbn. by rewrite Hc. Qed.

Lemma head_ok_app t r : head_ok t → head_ok (t ++ r).
Proof. intros (c & t' & -> & Hc). by exists c, (t' ++ r). Qed.

Lemma head_not_arr {A} t (f : jsstr → A) (d : A) :
  head_ok t → match t with 93 :: r => f r | _ => d end = d.
Proof.
  intros (c & t' & -> & Hc). apply starts_value_not in Hc as (_ & Hc & _).
  destruct c as [|c]; [done|]. repeat (destruct c as [c|c|]; try done).
Qed.

Lemma head_not_obj {A} t (f : jsstr → A) (d : A) :
  head_ok t → match t with 125 :: r => f r | _ => d end = d.
Proof.
  intros (c & t' & -> & Hc). apply starts_value_not in Hc as (_ & _ & Hc).
  destruct c as [|c]; [done|]. repeat (destruct c as [c|c|]; try done).
Qed.

Lemma Z_to_string_head z : ∃ c t, Z_to_string z = c :: t ∧ (c = 45 ∨ is_digit c = true).
Proof.
  unfold Z_to_string. destruct (Z.ltb_spec z 0%Z); [eauto|].
  destruct (Z.eq_dec z 0%Z) as [->|]; [eexists _, _; split; [reflexivity|by right]|].
  destruct (Z_digits_head z) as (c & r & -> & Hc & _); [lia|]. eauto.
Qed.

(** Reading falls through to the number case. *)
Lemma json_value_number n c t : c = 45 ∨ is_digit c = true →
  json_value (S n) (c :: t) =
  match json_number (c :: t) with Some (x, r) => Some (VNum x, r) | None => None end.
Proof.
  intros Hc. assert (starts_value c = true ∧ c ≠ 34 ∧ c ≠ 91 ∧ c ≠ 123 ∧ c ≠ 110 ∧ c ≠ 116 ∧ c ≠ 102) as (Hs & Hn).
  { unfold starts_value, is_digit in *. lia. }
  cbn [json_value]. rewrite skip_ws_head by (by exists c, t). clear Hc.
  destruct c as [|c]; [done|]. repeat (destruct c as [c|c|]; try done); lia.
Qed.

Lemma json_value_ws n ws t : forallb json_ws ws → json_value (S n) (ws ++ t) = json_value (S n) t.
Proof. intros H. cbn [json_value]. by rewrite skip_ws_app. Qed.

(** ** A printer with a layout

    [gap n] is the white space before an item or a closing bracket at
    indentation [n], [sp] the one after a colon. *)

Section Layout.
Variable gap : nat → jsstr.
Variable sp : jsstr.
Hypothesis gap_ws : ∀ n, forallb json_ws (gap n).
Hypothesis sp_ws : forallb json_ws sp.

Fixpoint print (ind : nat) (v : value) : option jsstr :=
  match v with
  | VUndef => None
  | VNull => Some "null"
  | VBool b => Some (if b then "true" else "false")
  | VNum x => Some (if is_finite x then num_to_string x else "null")
  | VStr s => Some (quote s)
  | VArr vs =>
    match vs with
    | [] => Some "[]"
    | _ => Some ("[" ++ join "," (map (λ w, gap (ind + 2) ++ default "null" (print (ind + 2) w)) vs) ++ gap ind ++ "]")
    end
  | VObj fs =>
    match omap (λ p, match print (ind + 2) p.2 with
                     | Some t => Some (gap (ind + 2) ++ quote p.1 ++ ":" ++ sp ++ t)
                     | None => None
                     end) fs with
    | [] => Some "{}"
    | ms => Some ("{" ++ join "," ms ++ gap ind ++ "}")
    end
  end.

(** The printed text and its items. *)
Definition text (ind : nat) (v : value) : jsstr := default [] (print ind v).
Definition element (ind : nat) (v : value) : jsstr := gap (ind + 2) ++ text (ind + 2) v.
Definition member (ind : nat) (p : jsstr * value) : jsstr :=
  gap (ind + 2) ++ quote p.1 ++ ":" ++ sp ++ text (ind + 2) p.2.

Lemma print_text ind v : jsonable v → print ind v = Some (text ind v).
Proof. unfold text. destruct v as [| | | | |vs|fs]; cbn; try done; [by destruct vs|]. by case_match. Qed.

Lemma text_num ind x : readable x → text ind (VNum x) = num_to_string x.
Proof. intros [Hf _]%readable_spec. unfold text. cbn. by rewrite Hf. Qed.

Lemma text_arr ind v vs : forallb jsonable (v :: vs) →
  text ind (VArr (v :: vs)) = "[" ++ join "," (map (element ind) (v :: vs)) ++ gap ind ++ "]".
Proof.
  intros H. unfold text at 1. cbn [print default]. unfold id. do 2 f_equal. f_equal.
  apply map_ext_in. intros w Hw. unfold element. f_equal.
  rewrite print_text; [done|]. apply Is_true_true in H. rewrite forallb_forall in H. by apply Is_true_true, H.
Qed.

Lemma text_obj ind p fs : jsonable (VObj (p :: fs)) →
  text ind (VObj (p :: fs)) = "{" ++ join "," (map (member ind) (p :: fs)) ++ gap ind ++ "}".
Proof.
  intros [_ H]%jsonable_obj. unfold text at 1. cbn [print].
  rewrite (omap_map _ (member ind)); [done|].
  intros q Hq. rewrite print_text by (by apply H). done.
Qed.

Lemma text_head ind v : jsonable v → head_ok (text ind v).
Proof.
  destruct v as [| |b|x|s|[|v vs]|[|p fs]]; intros H; try done; try (by eexists _, _).
  - destruct b; by eexists _, _.
  - cbn in H. rewrite text_num by done. destruct (readable_head x H) as (c & t & -> & Hc). exists c, t. split; [done|].
    unfold starts_value. destruct Hc as [->| ->]; [done|]. by rewrite orb_true_r.
  - rewrite text_obj by done. by eexists _, _.
Qed.

(** ** Reading back *)

Definition reads (v : value) : Prop := ∀ n ind ws rest,
  (vsize v <= n)%nat → forallb json_ws ws → stops rest → json_value n (ws ++ text ind v ++ rest) = Some (v, rest).

Lemma skip_text ind v ws rest : jsonable v → forallb json_ws ws →
  skip_ws (ws ++ text ind v ++ rest) = text ind v ++ rest.
Proof. intros Hv Hw. rewrite skip_ws_app by done. by apply skip_ws_head, head_ok_app, text_head. Qed.

Lemma skip_close ind c rest : json_ws c = false → skip_ws (gap ind ++ c :: rest) = c :: rest.
Proof. intros H. rewrite skip_ws_app by done. cbn. by rewrite H. Qed.

Lemma ws_stops ws c rest : forallb json_ws ws → stops (c :: rest) → stops (ws ++ c :: rest).
Proof. destruct ws as [|d ws]; [done|]. cbn. intros [H _]%andb_True _. apply Is_true_true in H. unfold json_ws, is_digit in *. lia. Qed.

Lemma read_elements vs : ∀ v acc n ind rest,
  Forall reads (v :: vs) → (sum_list (map (λ w, 1 + vsize w) (v :: vs)) <= n)%nat →
  json_elements n (join "," (map (element ind) (v :: vs)) ++ gap ind ++ 93 :: rest) acc
  = Some (VArr (acc ++ v :: vs), rest).
Proof.
  induction vs as [|w vs IH]; intros v acc n ind rest [Hv Hvs]%Forall_cons Hn;
    cbn in Hn; (destruct n as [|n]; [lia|]).
  - cbn [map join json_elements]. unfold element at 1. rewrite <- app_assoc.
    rewrite Hv by (lia || done || by apply ws_stops). by rewrite skip_close.
  - change (join "," (map (element ind) (v :: w :: vs)))
      with (element ind v ++ "," ++ join "," (map (element ind) (w :: vs))).
    rewrite <- !app_assoc. cbn [json_elements]. unfold element at 1. rewrite <- app_assoc.
    rewrite Hv by (lia || done).
    change (skip_ws ("," ++ ?x)) with (44 :: x). cbv iota.
    rewrite IH by (done || (cbn in *; lia)). by rewrite <- app_assoc.
Qed.

Lemma read_member acc n ind p tail : reads p.2 → (1 + vsize p.2 <= n)%nat → stops tail →
  json_members n (member ind p ++ tail) acc =
  match skip_ws tail with
  | 44 :: r => json_members (pred n) r (obj_set acc p.1 p.2)
  | 125 :: r => Some (VObj (obj_set acc p.1 p.2), r)
  | _ => None
  end.
Proof.
  intros Hp Hn Ht. destruct n as [|n]; [lia|]. destruct p as [k v]. cbn in Hp, Hn. unfold member.
  cbn [fst snd json_members pred]. rewrite <- !app_assoc.
  rewrite skip_ws_app by done. unfold quote. rewrite <- !app_assoc.
  change (skip_ws (DQ ++ ?x)) with (34 :: x). cbv iota.
  change (DQ ++ ?x) with (34 :: x). rewrite json_chars_quote.
  change (skip_ws (":" ++ ?x)) with (58 :: x). cbv iota.
  by rewrite Hp by (lia || done).
Qed.

Lemma read_members fs : ∀ p acc n ind rest,
  Forall (λ p, reads p.2 ∧ key_index p.1 = None) (p :: fs) → NoDup ((acc ++ p :: fs).*1) →
  (sum_list (map (λ q, 1 + vsize q.2) (p :: fs)) <= n)%nat →
  json_members n (join "," (map (member ind) (p :: fs)) ++ gap ind ++ 125 :: rest) acc
  = Some (VObj (acc ++ p :: fs), rest).
Proof.
  induction fs as [|q fs IH]; intros p acc n ind rest [[Hp Hk] Hfs]%Forall_cons Hd Hn;
    (assert (Hset : obj_set acc p.1 p.2 = acc ++ [p]) by
      (destruct p; apply obj_set_fresh; [|done]; rewrite fmap_app, NoDup_app in Hd; cbn in Hd;
       destruct Hd as (_ & Hd & _); intros Hin; apply (Hd _ Hin); left)).
  - cbn [map join]. rewrite read_member by (done || (by apply ws_stops) || (cbn in *; lia)). by rewrite skip_close, Hset.
  - change (join "," (map (member ind) (p :: q :: fs)))
      with (member ind p ++ "," ++ join "," (map (member ind) (q :: fs))).
    rewrite <- !app_assoc. rewrite read_member by (done || (cbn in *; lia)).
    change (skip_ws ("," ++ ?x)) with (44 :: x). cbv iota. rewrite Hset.
    rewrite IH; [by rewrite <- app_assoc|done|by rewrite <- app_assoc|cbn in *; lia].
Qed.

(** The first element or member hides the closing bracket. *)
Lemma join_first {A} (f : A → jsstr) a l x : ∃ y, join "," (map f (a :: l)) ++ x = f a ++ y.
Proof. destruct l; [by eexists|]. cbn [map join]. rewrite <- !app_assoc. by eexists. Qed.

Lemma skip_first_element ind v vs x : jsonable v →
  head_ok (skip_ws (join "," (map (element ind) (v :: vs)) ++ x)).
Proof.
  intros Hv. destruct (join_first (element ind) v vs x) as [y ->]. unfold element. rewrite <- app_assoc.
  rewrite skip_text by done. by apply head_ok_app, text_head.
Qed.

Lemma skip_first_member ind p fs x : head_ok (skip_ws (join "," (map (member ind) (p :: fs)) ++ x)).
Proof.
  destruct (join_first (member ind) p fs x) as [y ->]. unfold member. rewrite <- app_assoc, skip_ws_app by done.
  by eexists _, _.
Qed.

(** A printed value is read back, and what follows is left. *)
Lemma reads_all v : jsonable v → reads v.
Proof.
  induction v as [| |b|x|s|vs IH|fs IH] using value_ind'; intros Hj; try done;
    intros n ind ws rest Hn Hw Hr; (destruct n as [|n]; [cbn in Hn; lia|]).
  3: {
    cbn in Hj. rewrite json_value_ws, text_num by done. destruct (readable_spec x Hj) as [_ Hnum]. specialize (Hnum rest Hr).
    destruct (readable_head x Hj) as (c & t & E & Hc). rewrite E in *. cbn [app] in *.
    by rewrite json_value_number, Hnum. }
  all: cbn [json_value]; rewrite skip_text by done.
  - done.
  - by destruct b.
  - unfold text. cbn [print default]. unfold id, quote. rewrite <- app_assoc.
    change (DQ ++ ?x) with (34 :: x). cbv iota. rewrite <- app_assoc.
    change (DQ ++ ?x) with (34 :: x). by rewrite json_chars_quote.
  - destruct vs as [|v vs]; [done|]. rewrite text_arr by done. rewrite <- !app_assoc.
    change ("[" ++ ?x) with (91 :: x). cbv iota. change ("]" ++ rest) with (93 :: rest).
    apply forallb_True in Hj. pose proof (Forall_inv Hj) as Hv.
    rewrite (head_not_arr _ (λ r', Some (VArr [], r'))) by by apply skip_first_element.
    rewrite read_elements; [done| |cbn in *; lia].
    rewrite Forall_forall in *. intros w Hin. by apply IH, Hj.
  - destruct fs as [|p fs]; [done|]. rewrite text_obj by done. rewrite <- !app_assoc.
    change ("{" ++ ?x) with (123 :: x). cbv iota. change ("}" ++ rest) with (125 :: rest).
    apply jsonable_obj in Hj as [Hd Hj].
    rewrite (head_not_obj _ (λ r', Some (VObj [], r'))) by apply skip_first_member.
    rewrite read_members; [done| |done|cbn in *; lia].
    rewrite Forall_forall in *. intros q Hin. split; [by apply IH, Hj|by apply Hj].
Qed.

(** ** Fuel *)

Lemma join_length sep l : (1 <= length sep)%nat →
  (sum_list (map (λ t : jsstr, 1 + length t) l) <= 1 + length (join sep l))%nat.
Proof.
  intros Hs. induction l as [|t [|u l] IH]; [cbn; lia|cbn; lia|].
  change (join sep (t :: u :: l)) with (t ++ sep ++ join sep (u :: l)). rewrite !length_app. cbn in *. lia.
Qed.

Lemma sum_map_le {A} (f g : A → nat) l : Forall (λ x, f x <= g x)%nat l → (sum_list (map f l) <= sum_list (map g l))%nat.
Proof. induction 1; cbn; lia. Qed.

Lemma vsize_text v : jsonable v → ∀ ind, (vsize v <= length (text ind v))%nat.
Proof.
  induction v as [| |b|x|s|vs IH|fs IH] using value_ind'; intros Hj ind; try done; try (cbn; lia).
  - destruct b; cbn; lia.
  - destruct (text_head ind (VNum x) Hj) as (c & t & -> & _). cbn. lia.
  - destruct vs as [|v vs]; [cbn; lia|]. rewrite text_arr by done. rewrite !length_app.
    pose proof (join_length "," (map (element ind) (v :: vs))) as Hl.
    rewrite map_map in Hl. apply forallb_True in Hj.
    assert (Hs : (sum_list (map (λ w, 1 + vsize w) (v :: vs)) <= sum_list (map (λ w, 1 + length (element ind w)) (v :: vs)))%nat).
    { apply sum_map_le. rewrite Forall_forall in *. intros w Hw. unfold element. rewrite length_app.
      pose proof (IH w Hw (Hj w Hw) (ind + 2)%nat). lia. }
    cbn -[sum_list map join] in *. lia.
  - destruct fs as [|p fs]; [cbn; lia|]. rewrite text_obj by done. rewrite !length_app.
    pose proof (join_length "," (map (member ind) (p :: fs))) as Hl.
    rewrite map_map in Hl. apply jsonable_obj in Hj as [_ Hj].
    assert (Hs : (sum_list (map (λ q, 1 + vsize q.2) (p :: fs)) <= sum_list (map (λ q, 1 + length (member ind q)) (p :: fs)))%nat).
    { apply sum_map_le. rewrite Forall_forall in *. intros q Hq. unfold member. rewrite !length_app.
      pose proof (IH q Hq (proj2 (Hj q Hq)) (ind + 2)%nat). lia. }
    cbn -[sum_list map join] in *. lia.
Qed.

Lemma JSON_parse_print v : jsonable v → ∃ t, print 0 v = Some t ∧ head_ok t ∧ JSON_parse t = Some v.
Proof.
  intros Hv. exists (text 0 v). split; [by apply print_text|]. split; [by apply text_head|]. unfold JSON_parse.
  pose proof (reads_all v Hv (2 * length (text 0 v) + 2) 0 [] [])%nat as H.
  rewrite app_nil_r in H. cbn [app] in H. rewrite H; [done| |done|done].
  pose proof (vsize_text v Hv 0). lia.
Qed.
End Layout.

(** ** The two printers *)

Definition line_gap (n : nat) : jsstr := 10 :: indent_by n.
Definition no_gap (n : nat) : jsstr := [].

Lemma join_lines ts : ts ≠ [] → [10] ++ join ("," ++ [10]) ts = join "," (map (cons 10) ts).
Proof.
  induction ts as [|t [|u ts] IH]; intros H; [done|done|].
  change (join ("," ++ [10]) (t :: u :: ts)) with (t ++ ("," ++ [10]) ++ join ("," ++ [10]) (u :: ts)).
  rewrite <- (app_assoc "," [10]), IH by done. done.
Qed.

Lemma stringify2_print v : ∀ ind, stringify2 ind v = print line_gap " " ind v.
Proof.
  induction v as [| |b|x|s|vs IH|fs IH] using value_ind'; intros ind; try done.
  - destruct vs as [|v vs]; [done|]. cbn [stringify2 print]. f_equal.
    change ("[" ++ [10] ++ ?x) with ("[" ++ ([10] ++ x)).
    rewrite (app_assoc [10]), join_lines, map_map by done. f_equal. f_equal. f_equal.
    apply map_ext_in. intros w Hw. rewrite Forall_forall in IH. rewrite IH by (by apply list_elem_of_In). done.
  - cbn [stringify2 print].
    assert (omap (λ p, match print line_gap " " (ind + 2) p.2 with
       | Some t => Some (line_gap (ind + 2) ++ quote p.1 ++ ":" ++ " " ++ t) | None => None end) fs =
      map (cons 10) (omap (λ p, match stringify2 (ind + 2) p.2 with
       | Some t => Some (indent_by (ind + 2) ++ quote p.1 ++ ": " ++ t) | None => None end) fs)) as ->.
    { clear -IH. induction fs as [|p fs IHfs]; [done|]. apply Forall_cons in IH as [Hp IH]. cbn [omap list_omap].
      rewrite Hp, IHfs by done. by destruct (print line_gap " " (ind + 2) p.2). }
    destruct (omap _ fs) as [|t ts]; [done|]. cbn [map]. f_equal.
    change ("{" ++ [10] ++ ?x) with ("{" ++ ([10] ++ x)). by rewrite (app_assoc [10]), join_lines by done.
Qed.

Lemma JSON_stringify_print v : ∀ ind, JSON_stringify v = print no_gap [] ind v.
Proof.
  induction v as [| |b|x|s|vs IH|fs IH] using value_ind'; intros ind; try done.
  - cbn [JSON_stringify print].
    replace (map (λ w, default "null" (JSON_stringify w)) vs)
      with (map (λ w, no_gap (ind + 2) ++ default "null" (print no_gap [] (ind + 2) w)) vs); [by destruct vs|].
    apply map_ext_in. intros w Hw. rewrite Forall_forall in IH. by rewrite (IH w ltac:(by apply list_elem_of_In) (ind + 2)%nat).
  - cbn [JSON_stringify print].
    replace (omap (λ p, match JSON_stringify p.2 with Some t => Some (quote p.1 ++ ":" ++ t) | None => None end) fs)
      with (omap (λ p, match print no_gap [] (ind + 2) p.2 with
        | Some t => Some (no_gap (ind + 2) ++ quote p.1 ++ ":" ++ [] ++ t) | None => None end) fs); [by destruct (omap _ fs)|].
    clear -IH. induction fs as [|p fs IHfs]; [done|]. apply Forall_cons in IH as [Hp IH]. cbn [omap list_omap].
    rewrite (Hp (ind + 2)%nat), IHfs by done. by destruct (print no_gap [] (ind + 2) p.2).
Qed.

(** What [JSON.stringify(v, null, 2)] and [JSON.stringify(v)] write,
    [JSON.parse] reads back. *)
Lemma JSON_parse_stringify2 v : jsonable v →
  ∃ t, JSON_stringify2 v = Some t ∧ head_ok t ∧ JSON_parse t = Some v.
Proof.
  unfold JSON_stringify2. rewrite stringify2_print. apply JSON_parse_print; [intros n; apply indent_ws|done].
Qed.

Lemma JSON_parse_stringify v : jsonable v →
  ∃ t, JSON_stringify v = Some t ∧ head_ok t ∧ JSON_parse t = Some v.
Proof. rewrite (JSON_stringify_print v 0). by apply JSON_parse_print. Qed.

(** ** Undefined members

    [JSON.stringify] leaves out members without a value and writes [null] for
    such elements: it prints what [defined] leaves of the value. *)

Fixpoint defined (v : value) : value :=
  match v with
  | VArr vs => VArr (map (λ w, if is_undefined w then VNull else defined w) vs)
  | VObj fs => VObj (omap (λ p, if is_undefined p.2 then None else Some (p.1, defined p.2)) fs)
  | _ => v
  end.

Lemma defined_undef v : defined v = VUndef ↔ v = VUndef.
Proof. by destruct v. Qed.

Lemma print_None gap sp ind v : print gap sp ind v = None ↔ v = VUndef.
Proof. destruct v as [| | | | |vs|fs]; cbn; try done; [by destruct vs|]. by case_match. Qed.

Lemma print_defined gap sp v : ∀ ind, print gap sp ind (defined v) = print gap sp ind v.
Proof.
  induction v as [| |b|x|s|vs IH|fs IH] using value_ind'; intros ind; try done.
  - set (D := λ w, if is_undefined w then VNull else defined w).
    set (item := λ w, gap (ind + 2)%nat ++ default "null" (print gap sp (ind + 2) w)).
    assert (map item (map D vs) = map item vs) as E.
    { rewrite map_map. apply map_ext_in. intros w Hw. unfold item, D. f_equal. rewrite Forall_forall in IH.
      rewrite <- (IH w ltac:(by apply list_elem_of_In)). by destruct w. }
    destruct vs as [|v vs]; [done|].
    change (Some ("[" ++ join "," (map item (map D (v :: vs))) ++ gap ind ++ "]") =
            Some ("[" ++ join "," (map item (v :: vs)) ++ gap ind ++ "]")). by rewrite E.
  - cbn [defined print].
    assert (∀ f : jsstr → option jsstr → option jsstr, (∀ k, f k None = None) →
      omap (λ p, f p.1 (print gap sp (ind + 2) p.2)) (omap (λ p, if is_undefined p.2 then None else Some (p.1, defined p.2)) fs)
      = omap (λ p, f p.1 (print gap sp (ind + 2) p.2)) fs) as H.
    { intros f Hf. induction fs as [|[k w] fs IHfs]; [done|]. apply Forall_cons in IH as [Hw IH]. cbn in Hw.
      specialize (IHfs IH). cbn [omap list_omap fst snd]. destruct (is_undefined w) eqn:Ew.
      - destruct w; try done. cbn [print]. by rewrite Hf.
      - cbn [omap list_omap fst snd]. by rewrite Hw, IHfs. }
    rewrite (H (λ k o, match o with Some t => Some (gap (ind + 2)%nat ++ quote k ++ ":" ++ sp ++ t) | None => None end)); done.
Qed.

(** [JSON.parse(JSON.stringify(v, null, 2))] *)
Lemma JSON_parse_stringify2_defined v : jsonable (defined v) →
  ∃ t, JSON_stringify2 v = Some t ∧ head_ok t ∧ JSON_parse t = Some (defined v).
Proof.
  intros H. destruct (JSON_parse_stringify2 _ H) as (t & Ht & Hh). exists t. split; [|done]. revert Ht.
  unfold JSON_stringify2. by rewrite !stringify2_print, print_defined.
Qed.

(** [JSON.parse(JSON.stringify(v))] *)
Lemma JSON_parse_stringify_defined v : jsonable (defined v) →
  ∃ t, JSON_stringify v = Some t ∧ head_ok t ∧ JSON_parse t = Some (defined v).
Proof.
  intros H. destruct (JSON_parse_stringify _ H) as (t & Ht & Hh). exists t. split; [|done]. revert Ht.
  by rewrite !(JSON_stringify_print _ 0), print_defined.
Qed.

(** Reading a member does not see which members were left out. *)
Lemma prop_defined fs k : NoDup fs.*1 → prop (defined (VObj fs)) k = defined (prop (VObj fs) k).
Proof.
  cbn. induction fs as [|[j w] fs IH]; [done|]. cbn [fmap list_fmap fst]. rewrite NoDup_cons. intros [Hj Hfs].
  cbn [omap list_omap fst snd obj_get]. destruct (is_undefined w) eqn:Ew.
  - destruct w; try done. rewrite IH by done. destruct (str_eqb k j) eqn:E; [|done]. apply str_eqb_spec in E as ->.
    by rewrite obj_get_fresh.
  - cbn [obj_get]. destruct (str_eqb k j); [done|]. by apply IH.
Qed.

(** What is left of an object can be printed when its members can. *)
Lemma defined_obj_jsonable fs : NoDup fs.*1 → Forall (λ p, key_index p.1 = None ∧ (p.2 = VUndef ∨ jsonable (defined p.2))) fs →
  jsonable (defined (VObj fs)).
Proof.
  intros Hd Hf. cbn [defined]. apply obj_jsonable.
  - clear Hf. induction fs as [|[k v] fs IH]; [constructor|]. cbn [fmap list_fmap fst] in Hd. apply NoDup_cons in Hd as [Hk Hd].
    cbn [omap list_omap fst snd]. destruct (is_undefined v); [by apply IH|]. cbn. apply NoDup_cons. split; [|by apply IH].
    intros ([j w] & -> & Hin)%list_elem_of_fmap. apply list_elem_of_omap in Hin as ([j' w'] & Hin & E). cbn in E.
    destruct (is_undefined w'); [done|]. injection E as -> _. apply Hk, list_elem_of_fmap. by exists (j, w').
  - intros p Hp. apply list_elem_of_omap in Hp as ([k v] & Hin & E). cbn in E. destruct (is_undefined v) eqn:Ev; [done|].
    injection E as <-. rewrite Forall_forall in Hf. destruct (Hf _ Hin) as [H1 [H2|H2]]; [by cbn in H2; subst|done].
Qed.

Lemma defined_arr_jsonable vs : (∀ v, v ∈ vs → is_undefined v = false ∧ jsonable (defined v)) → jsonable (defined (VArr vs)).
Proof.
  intros H. cbn [defined jsonable]. apply forallb_True, Forall_forall. intros w Hw. change (map ?f ?l) with (f <$> l) in Hw.
  apply list_elem_of_fmap in Hw as (v & -> & Hv). destruct (H v Hv) as [-> ?]. done.
Qed.

(** The text of an object has no white space around it. *)
Lemma stringify2_obj_trimmed fs t : JSON_stringify2 (VObj fs) = Some t → trimmed t = true.
Proof.
  unfold JSON_stringify2. rewrite stringify2_print. cbn [print].
  destruct (omap _ fs) as [|m ms]; intros <-%(inj Some); [done|]. rewrite (app_assoc (join "," _)).
  by apply (trimmed_between 123 _ "}").
Qed.
