(* ===== verification/JsMap.v ===== *)
(** * JavaScript maps and sorting

    A [Map] keeps its entries in insertion order and replaces a value in
    place: it is an association list without duplicate keys.  [sort] is stable;
    it is insertion sort here, driven by the sign of a comparator that returns
    a number ([NaN] counts as zero). *)

From S2P Require Import Prelude JsString JsNumber.

Section Maps.
Context {K A : Type} `{EqDecision K}.
Implicit Types (m : list (K * A)) (k : K).

Fixpoint map_get m k : option A :=
  match m with
  | [] => None
  | (j, v) :: m' => if decide (j = k) then Some v else map_get m' k
  end.

Fixpoint map_set m k (v : A) : list (K * A) :=
  match m with
  | [] => [(k, v)]
  | (j, w) :: m' => if decide (j = k) then (j, v) :: m' else (j, w) :: map_set m' k v
  end.

Lemma map_get_set m k v j : map_get (map_set m k v) j = if decide (j = k) then Some v else map_get m j.
Proof.
  induction m as [|[i w] m IH]; cbn.
  - destruct (decide (k = j)) as [->|]; [by rewrite decide_True|by rewrite decide_False].
  - destruct (decide (i = k)) as [->|Hik]; cbn.
    + destruct (decide (k = j)) as [->|]; [by rewrite decide_True|]. by rewrite !decide_False.
    + rewrite IH. destruct (decide (i = j)) as [->|]; [|done]. by rewrite decide_False.
Qed.

Lemma map_get_None m k : map_get m k = None ↔ k ∉ m.*1.
Proof.
  induction m as [|[j v] m IH]; cbn; [set_solver|]. rewrite not_elem_of_cons.
  destruct (decide (j = k)) as [->|]; [naive_solver|]. rewrite IH. naive_solver.
Qed.

Lemma map_set_keys m k v : (map_set m k v).*1 = if decide (k ∈ m.*1) then m.*1 else m.*1 ++ [k].
Proof.
  induction m as [|[j w] m IH]; cbn; [done|]. destruct (decide (j = k)) as [->|Hjk]; cbn.
  - rewrite decide_True by set_solver. done.
  - rewrite IH. destruct (decide (k ∈ m.*1)); [rewrite decide_True by set_solver|rewrite decide_False by set_solver]; done.
Qed.

Lemma map_set_NoDup m k v : NoDup m.*1 → NoDup (map_set m k v).*1.
Proof.
  intros H. rewrite map_set_keys. destruct (decide _); [done|]. apply NoDup_app.
  split; [done|]. split; [set_solver|]. apply NoDup_singleton.
Qed.

Lemma elem_of_map_set_keys m k v j : j ∈ (map_set m k v).*1 ↔ j = k ∨ j ∈ m.*1.
Proof. rewrite map_set_keys. destruct (decide _); set_solver. Qed.

Lemma map_get_elem m k v : NoDup m.*1 → (k, v) ∈ m ↔ map_get m k = Some v.
Proof.
  induction m as [|[j w] m IH]; cbn; [set_solver|]. rewrite NoDup_cons. intros [Hj Hm].
  destruct (decide (j = k)) as [->|Hjk].
  - rewrite elem_of_cons. split; [|intros [= ->]; by left]. intros [[= ->]|Hin]; [done|].
    destruct Hj. apply list_elem_of_fmap. by exists (k, v).
  - rewrite elem_of_cons, <- (IH Hm). naive_solver.
Qed.

(** [m.set(k, f(m.get(k) ?? d))], the update every accumulation uses. *)
Definition map_update m k (d : A) (f : A → A) : list (K * A) := map_set m k (f (default d (map_get m k))).

Lemma map_get_update m k d f j :
  map_get (map_update m k d f) j = if decide (j = k) then Some (f (default d (map_get m k))) else map_get m j.
Proof. apply map_get_set. Qed.
End Maps.

(** ** Sorting *)

Section Sort.
Context {A : Type} (cmp : A → A → number).

Definition sort_le (x y : A) : bool := negb (num_ltb (of_Z 0) (cmp x y)).

Fixpoint sort_insert (x : A) (l : list A) : list A :=
  match l with
  | [] => [x]
  | y :: l' => if sort_le y x then y :: sort_insert x l' else x :: l
  end.

Definition sort_by (l : list A) : list A := fold_left (λ acc x, sort_insert x acc) l [].

Lemma sort_insert_Permutation x l : sort_insert x l ≡ₚ x :: l.
Proof. induction l as [|y l IH]; cbn; [done|]. destruct (sort_le y x); [|done]. rewrite IH. apply Permutation_swap. Qed.

Lemma sort_by_Permutation l : sort_by l ≡ₚ l.
Proof.
  unfold sort_by. assert (∀ acc, fold_left (λ acc x, sort_insert x acc) l acc ≡ₚ acc ++ l) as H; [|by rewrite H].
  induction l as [|x l IH]; intros acc; cbn; [by rewrite app_nil_r|].
  rewrite IH, sort_insert_Permutation. by rewrite <- Permutation_middle.
Qed.

Lemma elem_of_sort_by l x : x ∈ sort_by l ↔ x ∈ l.
Proof. by rewrite sort_by_Permutation. Qed.

Lemma sort_by_length l : length (sort_by l) = length l.
Proof. by rewrite sort_by_Permutation. Qed.

Lemma sort_by_NoDup {B} (f : A → B) l : NoDup (f <$> l) → NoDup (f <$> sort_by l).
Proof. by rewrite sort_by_Permutation. Qed.

(** A list in order stays, and a total preorder on its elements puts it in
    order. *)
Lemma sort_insert_last x l : Forall (λ y, sort_le y x = true) l → sort_insert x l = l ++ [x].
Proof. induction 1 as [|y l Hy _ IH]; cbn; [done|]. by rewrite Hy, IH. Qed.

Lemma sort_by_sorted l : StronglySorted (λ x y, sort_le x y = true) l → sort_by l = l.
Proof.
  unfold sort_by. intros Hl.
  assert (∀ acc, StronglySorted (λ x y, sort_le x y = true) (acc ++ l) → fold_left (λ acc x, sort_insert x acc) l acc = acc ++ l)
    as H; [|by apply (H [])].
  clear Hl. induction l as [|x l IH]; intros acc Hs; cbn; [by rewrite app_nil_r|].
  assert (Forall (λ y, sort_le y x = true) acc) as Hx.
  { apply StronglySorted_app in Hs as (H & _). apply Forall_forall. intros y Hy. apply H; [done|left]. }
  rewrite sort_insert_last by done. rewrite IH; [by rewrite <- app_assoc|]. by rewrite <- app_assoc.
Qed.

Lemma sort_insert_StronglySorted (P : A → Prop) x l :
  (∀ a b c, P a → P b → P c → sort_le a b = true → sort_le b c = true → sort_le a c = true) →
  (∀ a b, P a → P b → sort_le a b = true ∨ sort_le b a = true) → P x → Forall P l →
  StronglySorted (λ x y, sort_le x y = true) l → StronglySorted (λ x y, sort_le x y = true) (sort_insert x l).
Proof.
  intros Ht Htot Hx. induction l as [|y l IH]; cbn; intros HP Hs; [by repeat constructor|].
  apply Forall_cons in HP as [Hy HP]. apply StronglySorted_inv in Hs as [Hs Hyl].
  destruct (sort_le y x) eqn:E.
  - constructor; [by apply IH|]. rewrite sort_insert_Permutation. by constructor.
  - constructor; [by constructor|]. destruct (Htot x y Hx Hy) as [Hxy|]; [|congruence]. constructor; [done|].
    rewrite Forall_forall in *. intros z Hz. eapply (Ht x y z); eauto.
Qed.

Lemma sort_by_StronglySorted (P : A → Prop) l :
  (∀ a b c, P a → P b → P c → sort_le a b = true → sort_le b c = true → sort_le a c = true) →
  (∀ a b, P a → P b → sort_le a b = true ∨ sort_le b a = true) → Forall P l →
  StronglySorted (λ x y, sort_le x y = true) (sort_by l).
Proof.
  intros Ht Htot. unfold sort_by.
  assert (∀ acc, Forall P acc → Forall P l → StronglySorted (λ x y, sort_le x y = true) acc →
    StronglySorted (λ x y, sort_le x y = true) (fold_left (λ acc x, sort_insert x acc) l acc)) as H; [|intros; apply H; auto using Forall_nil_2, SSorted_nil].
  induction l as [|x l IH]; intros acc Ha Hl Hs; [done|]. apply Forall_cons in Hl as [Hx Hl]. cbn. apply IH; [|done|].
  - rewrite sort_insert_Permutation. by constructor.
  - by apply (sort_insert_StronglySorted P).
Qed.
End Sort.

(** ** Distinct elements

    The loops over a [Set] of keys seen so far: the first element of every
    key. *)

Section Distinct.
Context {A K : Type} `{EqDecision K} (key : A → K).

Fixpoint distinct_by (seen : list K) (l : list A) : list A :=
  match l with
  | [] => []
  | x :: l' => if bool_decide (key x ∈ seen) then distinct_by seen l' else x :: distinct_by (key x :: seen) l'
  end.

Lemma distinct_by_spec seen l :
  NoDup (key <$> distinct_by seen l) ∧ ∀ x, x ∈ distinct_by seen l → x ∈ l ∧ key x ∉ seen.
Proof.
  revert seen. induction l as [|x l IH]; intros seen; cbn; [split; [constructor|set_solver]|].
  case_bool_decide as Hx.
  - destruct (IH seen) as [I1 I2]. split; [done|]. intros y Hy. destruct (I2 y Hy). split; [by right|done].
  - destruct (IH (key x :: seen)) as [I1 I2]. cbn. rewrite NoDup_cons. split; [split; [|done]|].
    + intros (y & E & Hy)%list_elem_of_fmap. apply I2 in Hy as [_ Hy]. apply Hy. rewrite E. left.
    + intros y [->|Hy]%elem_of_cons; [split; [left|done]|]. apply I2 in Hy as [? Hy]. split; [by right|].
      intros Hin. apply Hy. by right.
Qed.

Lemma distinct_by_id seen l : NoDup (key <$> l) → (∀ x, x ∈ l → key x ∉ seen) → distinct_by seen l = l.
Proof.
  revert seen. induction l as [|x l IH]; intros seen; cbn; [done|]. rewrite NoDup_cons. intros [Hx Hl] Hs.
  rewrite bool_decide_false by (apply Hs; left). f_equal. apply IH; [done|]. intros y Hy. rewrite not_elem_of_cons.
  split; [|apply Hs; by right]. intros E. apply Hx. rewrite <- E. by apply list_elem_of_fmap_2.
Qed.
End Distinct.

(** ** The order of [sort()] without a comparator: by code units *)

Fixpoint str_leb (s t : list N) : bool :=
  match s, t with
  | [], _ => true
  | _, [] => false
  | c :: s', d :: t' => (c <? d)%N || ((c =? d)%N && str_leb s' t')
  end.

Definition cmp_strings (s t : list N) : number :=
  if bool_decide (s = t) then of_Z 0 else if str_leb s t then of_Z (-1) else of_Z 1.

Definition sort_strings : list (list N) → list (list N) := sort_by cmp_strings.

Lemma str_leb_refl s : str_leb s s = true.
Proof. induction s as [|c s IH]; cbn; [done|]. by rewrite N.eqb_refl, IH, orb_true_r. Qed.

Lemma str_leb_total s t : str_leb s t = true ∨ str_leb t s = true.
Proof.
  revert t. induction s as [|c s IH]; intros [|d t]; cbn; auto.
  destruct (N.lt_trichotomy c d) as [H|[->|H]].
  - left. apply orb_true_iff. left. by apply N.ltb_lt.
  - rewrite !N.eqb_refl. destruct (IH t) as [-> | ->]; [left|right]; by rewrite orb_true_r.
  - right. apply orb_true_iff. left. by apply N.ltb_lt.
Qed.

Lemma str_leb_trans s t u : str_leb s t = true → str_leb t u = true → str_leb s u = true.
Proof.
  revert t u. induction s as [|c s IH]; intros [|d t] [|e u]; cbn; try done.
  rewrite !orb_true_iff, !andb_true_iff, !N.ltb_lt, !N.eqb_eq. intros [H1|[-> H1]] [H2|[-> H2]].
  - left. lia.
  - by left.
  - by left.
  - right. eauto.
Qed.

Lemma sort_le_strings s t : sort_le cmp_strings s t = str_leb s t.
Proof.
  unfold sort_le, cmp_strings. case_bool_decide as E; [subst; by rewrite str_leb_refl|].
  by destruct (str_leb s t).
Qed.

Lemma sort_strings_sorted l : StronglySorted (λ s t, str_leb s t = true) (sort_strings l).
Proof.
  assert (StronglySorted (λ x y, sort_le cmp_strings x y = true) (sort_strings l)) as H.
  { apply (sort_by_StronglySorted _ (λ _, True)); [| |by apply Forall_true].
    - intros a b c _ _ _. rewrite !sort_le_strings. apply str_leb_trans.
    - intros a b _ _. rewrite !sort_le_strings. apply str_leb_total. }
  induction H as [|x m _ IH Hx]; constructor; [done|].
  rewrite Forall_forall in *. intros y Hy. specialize (Hx y Hy). by rewrite sort_le_strings in *.
Qed.

Lemma sort_strings_idemp l : sort_strings (sort_strings l) = sort_strings l.
Proof.
  pose proof (sort_strings_sorted l) as H. unfold sort_strings at 1. apply sort_by_sorted.
  induction H as [|x m _ IH Hx]; constructor; [done|].
  rewrite Forall_forall in *. intros y Hy. specialize (Hx y Hy). by rewrite sort_le_strings in *.
Qed.

(** Comparators joined with [||]: the first difference that is not zero. *)
Definition cmp_or (x y : number) : number := if num_truthy x then x else y.
