(* ===== verification/StatusCodeRules.v ===== *)
(** * HTTP status code rules ([web/src/lib/http-status-code-rules.ts])

    The administrator writes rules such as [401, 500-503]; the parser
    validates the tokens and returns sorted, merged ranges with their normal
    text.  Codes are kept as [Z]: a token is only used when its value lies in
    100..599, where doubles are exact, and outside of it rounding is monotone,
    so both bound tests answer as on the exact value. *)

From S2P Require Import Prelude JsString JsRegExp JsNumber JsValue.
Local Open Scope Z_scope.

Module StatusCodeRules.

Record StatusCodeRange := Range { start : Z; end_ : Z }.

#[global] Instance range_eq_dec : EqDecision StatusCodeRange.
Proof. solve_decision. Defined.

Record ParsedHttpStatusCodeRules := Parsed {
  ok : bool;
  ranges : list StatusCodeRange;
  tokens : list jsstr;
  normalized : jsstr;
  invalidTokens : list jsstr;
}.

(** [/^\d+$/.test(s)] *)
Definition isNumber (s : jsstr) : bool := re_test (seqs [Bol; Plus digit; Eol]) s.

Definition isValidCode (code : Z) : bool := (100 <=? code) && (code <=? 599).

Definition parseToken (token : jsstr) : option StatusCodeRange :=
  let cleaned := List.filter (λ c, negb (is_ws c)) (trim token) in
  if negb (nonempty cleaned) then None
  else if includes cleaned "-" then
    let parts := split_char 45 cleaned in
    let a := default [] (parts !! 0%nat) in
    let b := default [] (parts !! 1%nat) in
    if negb (isNumber a) || negb (isNumber b) then None
    else
      let s := digits_val a in
      let e := digits_val b in
      if negb (isValidCode s) || negb (isValidCode e) || (e <? s) then None
      else Some (Range s e)
  else if negb (isNumber cleaned) then None
  else
    let code := digits_val cleaned in
    if negb (isValidCode code) then None else Some (Range code code).

(** The comparator of the sort, [compare(a, b) <= 0]. *)
Definition range_le (a b : StatusCodeRange) : Prop :=
  (if bool_decide (start a = start b) then end_ a - end_ b else start a - start b) <= 0.

#[global] Instance range_le_dec : RelDecision range_le.
Proof. intros a b. unfold range_le. apply _. Defined.

(** One step of the reduction; the array is kept newest first, so that
    [merged[merged.length - 1]] is its head. *)
Definition merge_step (merged : list StatusCodeRange) (current : StatusCodeRange) : list StatusCodeRange :=
  match merged with
  | [] => [current]
  | last :: older =>
    if end_ last + 1 <? start current then current :: merged
    else Range (start last) (Z.max (end_ last) (end_ current)) :: older
  end.

Definition mergeRanges (rs : list StatusCodeRange) : list StatusCodeRange :=
  match rs with
  | [] => []
  | _ => reverse (fold_left merge_step (merge_sort range_le rs) [])
  end.

Definition range_token (r : StatusCodeRange) : jsstr :=
  if start r =? end_ r then Z_to_string (start r)
  else Z_to_string (start r) ++ "-" ++ Z_to_string (end_ r).

(** The loop over the segments: the parsed ranges and the invalid tokens. *)
Definition parse_segments (segments : list jsstr) : list StatusCodeRange * list jsstr :=
  (omap parseToken segments,
   List.filter (λ s, match parseToken s with None => true | Some _ => false end) segments).

Definition segments_of (raw : jsstr) : list jsstr :=
  List.filter nonempty (trim <$> split_char 44 (replace_char 65292 "," raw)).

Definition parseHttpStatusCodeRules (input : value) : ParsedHttpStatusCodeRules :=
  let raw := trim (to_string (or_empty input)) in
  if negb (nonempty raw) then Parsed true [] [] [] []
  else
    let '(rs, invalid) := parse_segments (segments_of raw) in
    match invalid with
    | _ :: _ => Parsed false [] [] raw invalid
    | [] =>
      let merged := mergeRanges rs in
      let toks := range_token <$> merged in
      Parsed true merged toks (join "," toks) []
    end.

Example parse_ex :
  let r := parseHttpStatusCodeRules (VStr " 500-503，401, 402 ,502-599") in
  (ok r, ranges r, normalized r) = (true, [Range 401 402; Range 500 599], "401-402,500-599").
Proof. vm_compute. reflexivity. Qed.

(** ** Invariant of the merged ranges *)

(** A range a token can denote. *)
Definition valid_range (r : StatusCodeRange) : Prop :=
  100 <= start r /\ start r <= end_ r /\ end_ r <= 599.

(** Ascending, with at least one code between neighbours. *)
Definition separated (a b : StatusCodeRange) : Prop := end_ a + 1 < start b.

(** [c] is matched by one of the ranges. *)
Definition covers (rs : list StatusCodeRange) (c : Z) : Prop :=
  Exists (λ r, start r <= c <= end_ r) rs.

#[local] Instance range_le_total : Total range_le.
Proof. intros a b. unfold range_le. repeat case_bool_decide; lia. Qed.

#[local] Instance range_le_trans : Transitive range_le.
Proof. intros a b c. unfold range_le. repeat case_bool_decide; lia. Qed.

Lemma range_le_start a b : range_le a b → start a <= start b.
Proof. unfold range_le. case_bool_decide; lia. Qed.

Lemma parseToken_valid t r : parseToken t = Some r → valid_range r.
Proof.
  unfold parseToken, valid_range, isValidCode. intros H.
  repeat (break_in H; try done); cbn; bool_hyps; lia.
Qed.

(** What the reduction maintains about the array, newest range first. *)
Record merge_inv (acc : list StatusCodeRange) : Prop := {
  inv_valid : Forall valid_range acc;
  inv_sep : StronglySorted (λ n o, separated o n) acc;
}.

Lemma merge_inv_step acc cur :
  merge_inv acc → valid_range cur →
  Forall (λ r, start r <= start cur) acc →
  merge_inv (merge_step acc cur) /\
  Forall (λ r, start r <= start cur) (merge_step acc cur) /\
  ∀ c, covers (merge_step acc cur) c ↔ covers acc c \/ start cur <= c <= end_ cur.
Proof.
  intros [Hv Hs] Hcur Hle. destruct acc as [|l acc]; cbn.
  { split; [split; [by apply Forall_singleton|by repeat constructor]|].
    split; [by apply Forall_singleton|].
    intros c. unfold covers. rewrite Exists_cons, Exists_nil. tauto. }
  apply Forall_cons in Hv as [Hl Hv]. apply StronglySorted_inv in Hs as [Hs Hsl].
  apply Forall_cons in Hle as [Hll Hle].
  destruct (Z.ltb_spec (end_ l + 1) (start cur)) as [Hgap|Hgap].
  - split; [split|split].
    + by rewrite !Forall_cons.
    + constructor; [by constructor|]. constructor; [done|].
      eapply Forall_impl; [exact Hsl|].
      unfold separated, valid_range in *. intros; cbn in *; lia.
    + rewrite !Forall_cons. split; [lia|done].
    + intros c. unfold covers. rewrite !Exists_cons. tauto.
  - unfold valid_range in *. split; [split|split].
    + constructor; [unfold valid_range; cbn; lia|done].
    + by constructor.
    + by constructor.
    + intros c. unfold covers. rewrite !Exists_cons. cbn.
      split; [intros [?|?]|intros [[?|?]|?]]; try tauto; try (left; lia).
      destruct (decide (start l <= c <= end_ l)); [tauto|right; lia].
Qed.

Lemma merge_fold xs acc :
  merge_inv acc → Forall valid_range xs → StronglySorted range_le xs →
  Forall (λ x, Forall (λ r, start r <= start x) acc) xs →
  merge_inv (fold_left merge_step xs acc) /\
  ∀ c, covers (fold_left merge_step xs acc) c ↔ covers acc c \/ covers xs c.
Proof.
  revert acc. induction xs as [|x xs IH]; intros acc Hi Hv Hs Hle; cbn.
  { split; [done|]. unfold covers. intros. rewrite Exists_nil. tauto. }
  apply Forall_cons in Hv as [Hx Hv]. apply StronglySorted_inv in Hs as [Hs Hsx].
  apply Forall_cons in Hle as [Hlx Hle].
  destruct (merge_inv_step acc x Hi Hx Hlx) as (Hi' & Hb & Hc).
  destruct (IH (merge_step acc x)) as [Hi'' Hc'']; [done..| |].
  - apply Forall_forall. intros y Hy. eapply Forall_impl; [exact Hb|]. cbn. intros r Hr.
    rewrite Forall_forall in Hsx. apply Hsx, range_le_start in Hy. lia.
  - split; [done|]. intros c. rewrite Hc'', Hc. unfold covers. rewrite Exists_cons. tauto.
Qed.

Lemma mergeRanges_inv rs :
  Forall valid_range rs →
  merge_inv (reverse (mergeRanges rs)) /\
  ∀ c, covers (mergeRanges rs) c ↔ covers rs c.
Proof.
  intros Hv. destruct rs as [|r rs]; [split; [split; constructor|done]|].
  change (mergeRanges (r :: rs)) with
    (reverse (fold_left merge_step (merge_sort range_le (r :: rs)) [])).
  set (l := r :: rs) in *. rewrite reverse_involutive.
  destruct (merge_fold (merge_sort range_le l) []) as [Hi Hc].
  - split; constructor.
  - by rewrite merge_sort_Permutation.
  - apply (StronglySorted_merge_sort range_le).
  - apply Forall_forall. by constructor.
  - split; [done|]. intros c. specialize (Hc c). unfold covers in *.
    rewrite reverse_Permutation, Hc, Exists_nil.
    rewrite (merge_sort_Permutation range_le l). tauto.
Qed.

(** ** Printing and reading a range *)

(** The three digits of a status code and their properties, checked over the
    five hundred codes. *)
Definition code_text_ok (c : Z) : bool :=
  let t := Z_to_string c in
  bool_decide (digits_val t = c) && nonempty t && forallb is_digit t.

Lemma code_text c : 100 <= c <= 599 →
  digits_val (Z_to_string c) = c /\ Z_to_string c ≠ [] /\
  forallb is_digit (Z_to_string c) = true.
Proof.
  intros Hc.
  assert (forallb code_text_ok (Z.of_nat <$> seq 100 500) = true) as H by (vm_compute; done).
  apply (forallb_elem _ _ c) in H.
  - unfold code_text_ok in H. bool_hyps. by rewrite nonempty_spec in *.
  - apply list_elem_of_fmap. exists (Z.to_nat c). split; [lia|].
    apply elem_of_seq. lia.
Qed.

Lemma digit_facts c : is_digit c = true →
  is_ws c = false /\ (c =? 45)%N = false /\ (c =? 44)%N = false /\ (c =? 65292)%N = false.
Proof.
  unfold is_digit, is_ws. lia.
Qed.

Lemma isNumber_digits s : s ≠ [] → forallb is_digit s = true → isNumber s = true.
Proof.
  intros Hne Hd. unfold isNumber, re_test.
  change (seqs [Bol; Plus digit; Eol]) with (Seq Bol (Seq (Plus (Chr is_digit)) (Seq Eol Eps))).
  rewrite re_match_anchored, mtch_seq. destruct s as [|x s]; [done|]. cbn in Hd. bool_hyps.
  rewrite mtch_plus_chr, H, <- (app_nil_r s).
  rewrite greedy_longest; [done|done|done|apply rejects_eol].
Qed.

Lemma range_token_chars r :
  valid_range r →
  range_token r ≠ [] /\ forallb (λ c, is_digit c || (c =? 45)%N) (range_token r) = true.
Proof.
  intros (H1 & H2 & H3).
  destruct (code_text (start r)) as (_ & Hl & Hd); [lia|].
  destruct (code_text (end_ r)) as (_ & Hl' & Hd'); [lia|].
  assert (∀ t, forallb is_digit t = true → forallb (λ c, is_digit c || (c =? 45)%N) t = true) as Hw.
  { intros t. apply forallb_impl. by intros ? ->. }
  unfold range_token. destruct (start r =? end_ r); split.
  - done.
  - auto.
  - destruct (Z_to_string (start r)); done.
  - rewrite forallb_app. bool_goal. cbn. auto.
Qed.

Lemma split_range_token a b :
  forallb is_digit a = true → forallb is_digit b = true →
  split_char 45 (a ++ "-" ++ b) = [a; b].
Proof.
  intros Ha Hb. change ("-" ++ b) with (45%N :: b).
  assert (∀ t, forallb is_digit t = true → lacks 45 t = true) as Hl.
  { intros t. apply forallb_impl. intros x Hx. by apply digit_facts in Hx as (_ & -> & _). }
  rewrite split_char_app, split_char_lacks by auto. done.
Qed.

Lemma includes_app_mid a b : includes (a ++ "-" ++ b) "-" = true.
Proof.
  induction a as [|x a IH]; [by destruct b|].
  change (includes ((x :: a) ++ "-" ++ b) "-") with
    (startsWith (x :: a ++ "-" ++ b) "-" || includes (a ++ "-" ++ b) "-").
  rewrite IH. apply orb_true_r.
Qed.

Lemma includes_digits a : forallb is_digit a = true → includes a "-" = false.
Proof.
  induction a as [|x a IH]; [done|]. cbn [forallb]. intros. bool_hyps.
  cbn [includes startsWith]. rewrite IH by done.
  apply digit_facts in H as (_ & H & _). rewrite N.eqb_sym, H. done.
Qed.

Lemma parse_range_token r : valid_range r → parseToken (range_token r) = Some r.
Proof.
  intros Hv. destruct (range_token_chars r Hv) as [Hne Hch].
  assert (no_ws (range_token r) = true) as Hws.
  { eapply forallb_impl; [|exact Hch]. cbn. intros x Hx.
    apply orb_true_iff in Hx as [Hx|Hx].
    - by apply digit_facts in Hx as (-> & _).
    - by apply N.eqb_eq in Hx as ->. }
  unfold parseToken. rewrite (no_ws_trim _ Hws).
  assert (List.filter (λ c, negb (is_ws c)) (range_token r) = range_token r) as ->.
  { clear -Hws. induction (range_token r) as [|x t IH]; cbn in *; [done|].
    bool_hyps. rewrite H, IH; done. }
  rewrite (proj2 (nonempty_spec _) Hne). cbn [negb].
  destruct Hv as (H1 & H2 & H3).
  destruct (code_text (start r)) as (Hs & Hsl & Hsd); [lia|].
  destruct (code_text (end_ r)) as (He & Hel & Hed); [lia|].
  unfold range_token. destruct r as [s e]; cbn [start end_] in *.
  destruct (Z.eqb_spec s e) as [<-|Hse].
  - rewrite includes_digits, isNumber_digits by done.
    cbn [negb]. rewrite Hs. unfold isValidCode.
    rewrite !(proj2 (Z.leb_le _ _)) by lia. done.
  - rewrite includes_app_mid, split_range_token by done. cbn [lookup list_lookup from_option]. unfold id.
    rewrite !isNumber_digits by done.
    cbn [negb orb]. rewrite Hs, He. unfold isValidCode.
    rewrite !(proj2 (Z.leb_le _ _)) by lia. cbn.
    rewrite (proj2 (Z.ltb_ge _ _)) by lia. done.
Qed.

(** ** Merging an already merged list *)

Lemma fold_merge_separated xs acc :
  StronglySorted separated (reverse acc ++ xs) →
  fold_left merge_step xs acc = reverse xs ++ acc.
Proof.
  revert acc. induction xs as [|x xs IH]; intros acc Hs; [done|].
  cbn [fold_left]. assert (merge_step acc x = x :: acc) as ->.
  { destruct acc as [|l acc]; [done|]. unfold merge_step.
    rewrite (proj2 (Z.ltb_lt _ _)); [done|].
    rewrite reverse_cons, <- app_assoc in Hs.
    apply StronglySorted_app in Hs as (_ & _ & Hs).
    apply StronglySorted_inv in Hs as [_ Hs]. apply Forall_cons in Hs as [Hs _]. exact Hs. }
  rewrite IH; [by rewrite reverse_cons, <- app_assoc|].
  by rewrite reverse_cons, <- app_assoc.
Qed.

Lemma StronglySorted_reverse {A} (R : relation A) l :
  StronglySorted (λ x y, R y x) (reverse l) ↔ StronglySorted R l.
Proof.
  induction l as [|x l IH]; [by split; intros; constructor|]. rewrite reverse_cons.
  rewrite StronglySorted_app, IH, (StronglySorted_cons R). split.
  - intros (Hall & Hl & _). split; [|done]. apply Forall_forall. intros y Hy.
    apply Hall; [by apply elem_of_reverse|set_solver].
  - intros [Hx Hl]. rewrite Forall_forall in Hx. repeat split; [|done|by repeat constructor].
    intros y z Hy Hz%list_elem_of_singleton. rewrite elem_of_reverse in Hy. subst. auto.
Qed.

Lemma mergeRanges_normal rs :
  Forall valid_range rs →
  StronglySorted separated (mergeRanges rs) /\ Forall valid_range (mergeRanges rs).
Proof.
  intros Hv. destruct (mergeRanges_inv rs Hv) as [[Hval Hsep] _].
  split; [|by rewrite reverse_Permutation in Hval].
  by apply StronglySorted_reverse.
Qed.

Lemma separated_sorted rs :
  StronglySorted separated rs → Forall valid_range rs → StronglySorted range_le rs.
Proof.
  induction rs as [|r rs IH]; intros Hs Hv; [constructor|].
  apply StronglySorted_cons in Hs as [Hr Hs]. apply Forall_cons in Hv as [Hvr Hv].
  constructor; [auto|]. eapply Forall_impl; [exact Hr|].
  unfold separated, range_le, valid_range in *. intros. case_bool_decide; lia.
Qed.

Lemma mergeRanges_merged rs :
  StronglySorted separated rs → Forall valid_range rs → mergeRanges rs = rs.
Proof.
  intros Hs Hv. destruct rs as [|r rs]; [done|].
  change (mergeRanges (r :: rs)) with
    (reverse (fold_left merge_step (merge_sort range_le (r :: rs)) [])).
  set (l := r :: rs) in *.
  assert (merge_sort range_le l = l) as ->.
  { apply (StronglySorted_unique_strong range_le); [|apply (StronglySorted_merge_sort range_le)|..].
    - intros a b _ _. unfold range_le. intros Hab Hba.
      destruct a, b. repeat case_bool_decide; cbn in *; f_equal; lia.
    - by apply separated_sorted.
    - apply merge_sort_Permutation. }
  rewrite fold_merge_separated by done. by rewrite app_nil_r, reverse_involutive.
Qed.

(** ** The parser *)

(** The text the parser works on. *)
Definition raw_text (input : value) : jsstr := trim (to_string (or_empty input)).

Lemma omap_parse_valid segs : Forall valid_range (omap parseToken segs).
Proof.
  apply Forall_forall. intros r (t & _ & Ht)%list_elem_of_omap.
  by apply parseToken_valid in Ht.
Qed.

Lemma parse_cases input :
  let p := parseHttpStatusCodeRules input in
  let segs := segments_of (raw_text input) in
  (invalidTokens p = [] /\ ok p = true /\ Forall (λ t, is_Some (parseToken t)) segs /\
   ranges p = mergeRanges (omap parseToken segs) /\
   normalized p = join "," (range_token <$> ranges p) /\
   tokens p = range_token <$> ranges p) \/
  (invalidTokens p ≠ [] /\ ok p = false /\ ¬ Forall (λ t, is_Some (parseToken t)) segs /\
   invalidTokens p = List.filter (λ t, match parseToken t with None => true | Some _ => false end) segs /\
   ranges p = [] /\ tokens p = [] /\ normalized p = raw_text input).
Proof.
  cbv zeta. unfold parseHttpStatusCodeRules. fold (raw_text input).
  destruct (raw_text input) as [|x t] eqn:Hraw.
  { left. change (segments_of []) with (@nil jsstr). repeat split. constructor. }
  cbn [nonempty negb]. set (segs := segments_of (x :: t)). unfold parse_segments.
  destruct (List.filter _ segs) as [|bad rest] eqn:Hf; [left|right]; cbn;
    (split; [done|]); (split; [done|]).
  - split; [|done]. apply Forall_forall. intros u Hu.
    destruct (parseToken u) eqn:E; [done|].
    assert (In u []) as []. rewrite <- Hf. apply filter_In. split; [|by rewrite E].
    by apply list_elem_of_In.
  - split; [|by rewrite <- Hf]. rewrite Forall_forall. intros Hall.
    assert (In bad (bad :: rest)) as Hin by (by left).
    rewrite <- Hf in Hin. apply filter_In in Hin as [Hin Hb].
    apply list_elem_of_In in Hin. destruct (Hall bad Hin) as [? E]. by rewrite E in Hb.
Qed.

Lemma parse_ranges_normal input :
  StronglySorted separated (ranges (parseHttpStatusCodeRules input)) /\
  Forall valid_range (ranges (parseHttpStatusCodeRules input)).
Proof.
  destruct (parse_cases input) as [(_ & _ & _ & -> & _)|(_ & _ & _ & _ & -> & _)].
  - apply mergeRanges_normal, omap_parse_valid.
  - repeat constructor.
Qed.

(** Whatever the input, the ranges the parser returns are in ascending
    order with at least one code between neighbours, and every range lies in
    100..599 with its start not after its end. *)
Theorem parse_normal_form (input : value) :
  StronglySorted separated (ranges (parseHttpStatusCodeRules input)) /\
  Forall valid_range (ranges (parseHttpStatusCodeRules input)).
Proof. apply parse_ranges_normal. Qed.

(** When the rules are accepted, merging neither adds nor loses a status
    code: a code is matched by the returned ranges exactly when one of the
    comma separated tokens denotes a range that contains it. *)
Theorem parse_denotation (input : value) (c : Z) :
  ok (parseHttpStatusCodeRules input) = true →
  covers (ranges (parseHttpStatusCodeRules input)) c ↔
  ∃ seg r, seg ∈ segments_of (raw_text input) /\ parseToken seg = Some r /\
           start r <= c <= end_ r.
Proof.
  destruct (parse_cases input) as [(_ & _ & _ & -> & _)|(_ & -> & _)]; [intros _|done].
  destruct (mergeRanges_inv _ (omap_parse_valid (segments_of (raw_text input)))) as [_ ->].
  unfold covers. rewrite Exists_exists. setoid_rewrite list_elem_of_omap. naive_solver.
Qed.

Lemma parse_denotation_witness :
  ok (parseHttpStatusCodeRules (VStr "500-503,401")) = true /\
  (covers (ranges (parseHttpStatusCodeRules (VStr "500-503,401"))) 502 ↔
   ∃ seg r, seg ∈ segments_of (raw_text (VStr "500-503,401")) /\ parseToken seg = Some r /\
            start r <= 502 <= end_ r).
Proof.
  split; [vm_compute; reflexivity|].
  apply (parse_denotation (VStr "500-503,401") 502). vm_compute. reflexivity.
Defined.

(** The rules are refused exactly when some token is not a valid code or
    range; the result then carries no range, the trimmed input as its text,
    and the invalid tokens in their order. *)
Theorem parse_rejects (input : value) :
  let p := parseHttpStatusCodeRules input in
  let segs := segments_of (raw_text input) in
  (ok p = false ↔ ∃ t, t ∈ segs /\ parseToken t = None) /\
  (ok p = false → ranges p = [] /\ tokens p = [] /\ normalized p = raw_text input) /\
  invalidTokens p =
    List.filter (λ t, match parseToken t with None => true | Some _ => false end) segs.
Proof.
  cbv zeta. pose proof (parse_cases input) as Hc. cbv zeta in Hc.
  destruct Hc as [(Hi & Hok & Hall & _)|(Hi & Hok & Hall & Hinv & Hr & Ht & Hn)];
    rewrite Hok.
  - rewrite Forall_forall in Hall. repeat split; try done.
    + intros (t & Ht & E). destruct (Hall t Ht) as [? ?]. congruence.
    + rewrite Hi. symmetry. apply list_filter_none. intros t Ht.
      by destruct (Hall t Ht) as [? ->].
  - split; [|done]. split; [|done]. intros _.
    apply not_Forall_Exists, Exists_exists in Hall as (t & Hin & Hn'); [|apply _].
    exists t. split; [done|]. by apply eq_None_not_Some.
Qed.

Lemma segments_of_tokens rs :
  Forall valid_range rs → segments_of (join "," (range_token <$> rs)) = range_token <$> rs.
Proof.
  intros Hv. assert (∀ r x, r ∈ rs → x ∈ range_token r → is_digit x || (x =? 45)%N = true) as Hch.
  { intros r x Hr Hx. rewrite Forall_forall in Hv.
    destruct (range_token_chars r (Hv r Hr)) as [_ Hc]. by apply (forallb_elem _ _ x Hc). }
  destruct rs as [|r0 rs']; [done|]. set (rs := r0 :: rs') in *. unfold segments_of.
  rewrite replace_char_lacks.
  2:{ apply join_forallb; [done|]. apply forallb_True', Forall_fmap, Forall_forall. intros r Hr.
      apply forallb_True', Forall_forall. intros x Hx. pose proof (Hch r x Hr Hx).
      unfold is_digit in *. lia. }
  rewrite split_join; [|done|].
  2:{ apply forallb_True', Forall_fmap, Forall_forall. intros r Hr.
      apply forallb_True', Forall_forall. intros x Hx. pose proof (Hch r x Hr Hx).
      unfold is_digit in *. lia. }
  assert (trim <$> (range_token <$> rs) = range_token <$> rs) as ->.
  { rewrite <- list_fmap_compose. apply list_fmap_ext. intros i r Hr%list_elem_of_lookup_2.
    apply no_ws_trim, forallb_True', Forall_forall. intros x Hx. pose proof (Hch r x Hr Hx).
    unfold is_digit, is_ws in *. lia. }
  apply list_filter_all. intros t (r & -> & Hr)%list_elem_of_fmap.
  apply nonempty_spec. rewrite Forall_forall in Hv. by apply range_token_chars, Hv.
Qed.

Lemma omap_parse_tokens rs :
  Forall valid_range rs → omap parseToken (range_token <$> rs) = rs.
Proof.
  induction rs as [|r rs IH]; intros Hv; [done|]. apply Forall_cons in Hv as [Hr Hv].
  cbn. rewrite parse_range_token by done. f_equal. auto.
Qed.

Lemma parse_raw_ext a b :
  raw_text a = raw_text b → parseHttpStatusCodeRules a = parseHttpStatusCodeRules b.
Proof. unfold parseHttpStatusCodeRules, raw_text. by intros ->. Qed.

Lemma tokens_raw rs :
  Forall valid_range rs →
  raw_text (VStr (join "," (range_token <$> rs))) = join "," (range_token <$> rs).
Proof.
  intros Hv. apply no_ws_trim, join_forallb; [done|].
  apply forallb_True', Forall_fmap. eapply Forall_impl; [exact Hv|]. intros r Hr. cbn.
  destruct (range_token_chars r Hr) as [_ Hc]. eapply forallb_impl; [|exact Hc].
  intros x. unfold is_digit, is_ws. lia.
Qed.

Lemma parse_of_tokens rs :
  StronglySorted separated rs → Forall valid_range rs →
  let toks := range_token <$> rs in
  parseHttpStatusCodeRules (VStr (join "," toks)) = Parsed true rs toks (join "," toks) [].
Proof.
  intros Hs Hv toks. unfold parseHttpStatusCodeRules.
  change (trim (to_string (or_empty (VStr (join "," toks))))) with (raw_text (VStr (join "," toks))).
  unfold toks. rewrite tokens_raw, segments_of_tokens by done.
  destruct rs as [|r0 rs']; [done|]. set (rs := r0 :: rs') in *.
  assert (join "," (range_token <$> rs) ≠ []) as Hne.
  { apply Forall_cons in Hv as [Hr _]. destruct (range_token_chars r0 Hr) as [H0 _].
    unfold rs. cbn. destruct (range_token r0), rs'; done. }
  rewrite (proj2 (nonempty_spec _) Hne). cbn [negb]. unfold parse_segments.
  rewrite omap_parse_tokens, mergeRanges_merged by done. rewrite list_filter_none; [done|].
  intros t (r & -> & Hr)%list_elem_of_fmap. rewrite Forall_forall in Hv.
  by rewrite parse_range_token by auto.
Qed.

(** Parsing the normal text of a result gives that result back, whether
    the rules were accepted or refused: normalisation is a fixed point. *)
Theorem parse_normalized (input : value) :
  parseHttpStatusCodeRules (VStr (normalized (parseHttpStatusCodeRules input))) =
  parseHttpStatusCodeRules input.
Proof.
  pose proof (parse_cases input) as Hc. cbv zeta in Hc.
  destruct Hc as [(Hi & Hok & _ & Hr & Hn & Ht)|(_ & _ & _ & _ & _ & _ & Hn)].
  - destruct (parse_ranges_normal input) as [Hsep Hval].
    rewrite Hn, parse_of_tokens by done.
    destruct (parseHttpStatusCodeRules input); cbn in *; congruence.
  - apply parse_raw_ext. rewrite Hn. apply trim_idemp.
Qed.

End StatusCodeRules.
