(* ===== verification/ModelMapping.v ===== *)
(** * Channel model lists and model mappings
      ([web/src/features/channels/lib/model-mapping-validation.ts])

    A channel stores its models as comma separated text and its model mapping
    as the text of a JSON object from requested to upstream model names. *)

From S2P Require Import Prelude JsString JsNumber JsValue.
Local Open Scope N_scope.

Module ModelMapping.

Definition parseModelsString (modelsStr : jsstr) : list jsstr :=
  if nonempty modelsStr
  then List.filter nonempty (trim <$> split_char 44 modelsStr)
  else [].

Definition formatModelsArray (models : list jsstr) : jsstr := join "," (set_of models).

Definition normalizeModelName (model : jsstr) : jsstr := trim model.

(** [Object.keys] and [Object.values] of a parsed JSON object; [None] when the
    text is not JSON or not an object. *)
Definition parse_mapping (text : jsstr) : option obj :=
  match JSON_parse text with
  | Some (VObj fs) => Some fs
  | _ => None
  end.

Definition extractMappingSourceModels (modelMapping : jsstr) : list jsstr :=
  let trimmed := trim modelMapping in
  if negb (nonempty trimmed) then []
  else match parse_mapping trimmed with
       | None => []
       | Some fs => set_of (List.filter nonempty (trim <$> fs.*1))
       end.

Definition extractRedirectModels (modelMapping : jsstr) : list jsstr :=
  let trimmed := trim modelMapping in
  if negb (nonempty trimmed) then []
  else match parse_mapping trimmed with
       | None => []
       | Some fs =>
         set_of (List.filter nonempty
           (omap (λ v, match v with VStr s => Some (trim s) | _ => None end) fs.*2))
       end.

Definition hasModelConfigChanged (currentModels : list jsstr) (currentModelMapping : jsstr)
    (initialModels : list jsstr) (initialModelMapping : jsstr) : bool :=
  if Nat.eqb (length initialModels) 0 && negb (nonempty initialModelMapping) then true
  else if negb (Nat.eqb (length currentModels) (length initialModels)) then true
  else if negb (forallb (λ p, str_eqb p.1 p.2) (zip currentModels initialModels)) then true
  else negb (str_eqb (trim currentModelMapping) (trim initialModelMapping)).

Definition findMissingModelsInMapping (modelMapping : jsstr) (currentModels : list jsstr) : list jsstr :=
  if negb (nonempty modelMapping) || str_eqb (trim modelMapping) "" then []
  else match parse_mapping modelMapping with
       | None => []
       | Some fs =>
         let modelSet := set_of (normalizeModelName <$> currentModels) in
         set_of (List.filter (λ key, nonempty key && negb (set_has modelSet key))
                   (normalizeModelName <$> fs.*1))
       end.

(** The error text of [validateModelMappingJson]; [None] is [{ valid: true }]. *)
Definition validateModelMappingJson (modelMapping : jsstr) : option jsstr :=
  if negb (nonempty modelMapping) || str_eqb (trim modelMapping) "" then None
  else match JSON_parse modelMapping with
       | None => Some "Model mapping must be valid JSON format"
       | Some (VObj fs) =>
         if existsb (λ v, negb (is_string v)) fs.*2
         then Some "Model mapping values must be strings"
         else None
       | Some _ => Some "Model mapping must be a valid JSON object"
       end.

Definition findExposedTargetModels (modelMapping : jsstr) (currentModels : list jsstr) : list jsstr :=
  let redirectModels := extractRedirectModels modelMapping in
  match redirectModels with
  | [] => []
  | _ =>
    let modelSet := set_of (normalizeModelName <$> currentModels) in
    List.filter (λ m, set_has modelSet (normalizeModelName m)) redirectModels
  end.

Record ModelCategories := Categories {
  normalizedCurrentModels : list jsstr;
  normalizedRedirectModels : list jsstr;
  classificationSet : list jsstr;
  redirectOnlySet : list jsstr;
}.

Definition categorizeModelsWithRedirect (currentModels redirectModels : list jsstr) : ModelCategories :=
  let current := set_of (List.filter nonempty (normalizeModelName <$> currentModels)) in
  let redirect := set_of (List.filter nonempty (normalizeModelName <$> redirectModels)) in
  Categories current redirect
    (set_of (current ++ redirect))
    (set_of (List.filter (λ m, negb (set_has current m)) redirect)).

(** ** Lemmas *)

Lemma parse_models_pieces s :
  Forall (λ m, trim m = m /\ m ≠ [] /\ lacks 44 m = true) (parseModelsString s).
Proof.
  unfold parseModelsString. destruct (nonempty s) eqn:E; [|constructor].
  apply Forall_forall. intros m (Hm & Hne)%elem_of_lfilter.
  apply list_elem_of_fmap in Hm as (p & -> & Hp). rewrite nonempty_spec in Hne.
  split; [apply trim_idemp|]. split; [done|].
  pose proof (split_char_parts_lack 44 s) as Hl. apply (forallb_elem _ _ p) in Hl; [|done].
  unfold trim. destruct (trim_start_suffix p) as [w Hw].
  destruct (trim_end_prefix (trim_start p)) as [w' Hw'].
  unfold lacks in *. rewrite Hw, forallb_app in Hl. bool_hyps.
  rewrite Hw', forallb_app in H0. by bool_hyps.
Qed.

Lemma parse_join_models ms :
  Forall (λ m, trim m = m /\ m ≠ [] /\ lacks 44 m = true) ms →
  parseModelsString (join "," ms) = ms.
Proof.
  intros H. rewrite Forall_forall in H. destruct ms as [|m0 ms']; [done|].
  set (ms := m0 :: ms') in *. unfold parseModelsString.
  assert (nonempty (join "," ms) = true) as ->.
  { apply nonempty_spec. destruct (H m0) as (_ & Hne & _); [unfold ms; set_solver|].
    unfold ms. cbn. destruct m0, ms'; done. }
  rewrite split_join; [|done|].
  2:{ apply forallb_True', Forall_forall. intros m Hm. by apply H. }
  assert (trim <$> ms = ms) as ->.
  { rewrite <- (list_fmap_id ms) at 2. apply list_fmap_ext.
    intros i m Hm%list_elem_of_lookup_2. by apply H. }
  apply list_filter_all. intros m Hm. apply nonempty_spec. by apply H.
Qed.

Lemma elem_of_current current redirect m :
  m ∈ normalizedCurrentModels (categorizeModelsWithRedirect current redirect) ↔
  m ≠ [] /\ m ∈ (trim <$> current).
Proof. cbn -[set_of]. rewrite elem_of_set_of, elem_of_lfilter, nonempty_spec. tauto. Qed.

Lemma elem_of_redirectOnly current redirect m :
  m ∈ redirectOnlySet (categorizeModelsWithRedirect current redirect) ↔
  m ≠ [] /\ m ∈ (trim <$> redirect) /\ m ∉ (trim <$> current).
Proof.
  cbn -[set_of]. unfold set_has.
  rewrite elem_of_set_of, elem_of_lfilter, negb_true_iff, bool_decide_eq_false, !elem_of_set_of.
  rewrite !elem_of_lfilter, nonempty_spec. unfold normalizeModelName. tauto.
Qed.

(** ** Properties *)

(** Writing a model list back as text and reading it again gives the list
    without its duplicates, first occurrences kept, for every text: no model
    is lost, changed or invented by the round trip. *)
Theorem models_text_roundtrip (s : jsstr) :
  parseModelsString (formatModelsArray (parseModelsString s)) = set_of (parseModelsString s).
Proof.
  unfold formatModelsArray. apply parse_join_models.
  pose proof (parse_models_pieces s) as H. rewrite Forall_forall in *.
  intros m Hm. rewrite elem_of_set_of in Hm. auto.
Qed.

(** The missing models of a mapping are, without duplicates, exactly the
    trimmed non-empty source names of the JSON object that the model list does
    not contain after trimming; text that is not a JSON object reports none. *)
Theorem missing_models_spec (mapping : jsstr) (models : list jsstr) :
  NoDup (findMissingModelsInMapping mapping models) /\
  ∀ m, m ∈ findMissingModelsInMapping mapping models ↔
       ∃ fs key, parse_mapping mapping = Some fs /\ trim mapping ≠ [] /\
         key ∈ fs.*1 /\ m = trim key /\ m ≠ [] /\ m ∉ (trim <$> models).
Proof.
  unfold findMissingModelsInMapping.
  assert (negb (nonempty mapping) || str_eqb (trim mapping) "" = bool_decide (trim mapping = [])) as ->.
  { destruct mapping; [done|]. by apply bool_decide_ext. }
  case_bool_decide as E; [split; [constructor|]; set_solver|].
  destruct (parse_mapping mapping) as [fs|]; [|split; [constructor|]; set_solver].
  split; [apply NoDup_set_of|]. intros m. rewrite elem_of_set_of, elem_of_lfilter.
  rewrite list_elem_of_fmap. unfold normalizeModelName, set_has.
  rewrite andb_true_iff, negb_true_iff, nonempty_spec, bool_decide_eq_false, elem_of_set_of.
  naive_solver.
Qed.

(** The categories of the editor: the redirect-only models are the
    redirect targets outside the model list; with the current models they
    partition everything classified. *)
Theorem categorize_partition (current redirect : list jsstr) :
  let c := categorizeModelsWithRedirect current redirect in
  NoDup (normalizedCurrentModels c ++ redirectOnlySet c) /\
  (∀ m, m ∈ classificationSet c ↔ m ∈ normalizedCurrentModels c \/ m ∈ redirectOnlySet c) /\
  (∀ m, m ∈ redirectOnlySet c ↔
        m ≠ [] /\ m ∈ (trim <$> redirect) /\ m ∉ (trim <$> current)).
Proof.
  cbv zeta. split; [|split; [intros m; split|intros m; apply elem_of_redirectOnly]].
  - apply NoDup_app. repeat split; [apply NoDup_set_of| |apply NoDup_set_of].
    intros m Hm. rewrite elem_of_current in Hm. rewrite elem_of_redirectOnly. tauto.
  - cbn -[set_of]. rewrite !elem_of_set_of, elem_of_app, !elem_of_set_of.
    intros [Hm|Hm]; [by left|].
    destruct (decide (m ∈ List.filter nonempty (normalizeModelName <$> current))); [by left|right].
    apply elem_of_lfilter. rewrite elem_of_set_of, negb_true_iff. unfold set_has.
    by rewrite bool_decide_eq_false, elem_of_set_of.
  - cbn -[set_of]. rewrite !elem_of_set_of, elem_of_app, (elem_of_lfilter _ (set_of _)), !elem_of_set_of.
    tauto.
Qed.

End ModelMapping.
