(* ===== verification/GroupSelection.v ===== *)
(** * API key group selection ([web/src/features/keys/lib/group-selection.ts])

    A key inherits the user's group, is routed automatically, or names a list
    of groups; exclusive groups and [auto] stand alone. *)

From S2P Require Import Prelude JsString JsNumber JsValue.
Local Open Scope N_scope.

Module GroupSelection.

Inductive GroupMode := inherit | explicit | auto.

Record GroupIdentity := Identity {
  gi_id : option number;
  gi_code : jsstr;
  gi_name : option jsstr;
  gi_exclusive : option bool;
}.

Record GroupSelectionOption := Option {
  o_value : jsstr;
  o_label : jsstr;
  o_desc : option jsstr;
  o_ratio : option value;
  o_id : option number;
  o_exclusive : option bool;
}.

(** An entry of the groups table; [key] is its property name. *)
Record GroupInfo := Info {
  key : jsstr;
  i_desc : option jsstr;
  i_ratio : option value;
  i_id : option number;
  i_code : option jsstr;
  i_name : option jsstr;
  i_exclusive : option bool;
}.

(** [o || d] on an optional string. *)
Definition or_str (o : option jsstr) (d : jsstr) : jsstr :=
  match o with Some (c :: s) => c :: s | _ => d end.

(** [Number.isInteger(id) ? id : undefined] *)
Definition integer_id (o : option number) : option number :=
  match o with Some n => if is_integer n then Some n else None | None => None end.

Definition is_true (o : option bool) : bool := match o with Some true => true | _ => false end.

Definition option_of_info (g : GroupInfo) : GroupSelectionOption :=
  let code := or_str (i_code g) (key g) in
  Option code (or_str (i_name g) code)
    (Some (or_str (i_desc g) (or_str (i_name g) code)))
    (i_ratio g) (integer_id (i_id g)) (Some (is_true (i_exclusive g))).

(** One turn of the loop over the retained identities. *)
Definition retain_step (st : list GroupSelectionOption * list jsstr) (identity : GroupIdentity) :=
  let '(options, known) := st in
  if negb (nonempty (gi_code identity)) || set_has known (gi_code identity) then (options, known)
  else
    (options ++ [Option (gi_code identity)
                   (or_str (gi_name identity) (gi_code identity))
                   (Some (or_str (gi_name identity) (gi_code identity)))
                   None (integer_id (gi_id identity)) (Some (is_true (gi_exclusive identity)))],
     set_add known (gi_code identity)).

Definition createGroupSelectionOptions (groups : list GroupInfo) (retained : list GroupIdentity)
    : list GroupSelectionOption :=
  let options := option_of_info <$> groups in
  (fold_left retain_step retained (options, set_of (o_value <$> options))).1.

Definition find_option (options : list GroupSelectionOption) (v : jsstr) : option GroupSelectionOption :=
  List.find (λ o, str_eqb (o_value o) v) options.

Definition exclusive_value (options : list GroupSelectionOption) (v : jsstr) : bool :=
  match find_option options v with Some o => is_true (o_exclusive o) | None => false end.

Definition normalizeGroupSelection (previous next : list jsstr)
    (options : list GroupSelectionOption) : list jsstr :=
  let unique := set_of (List.filter nonempty next) in
  let keep := List.filter (λ v, negb (exclusive_value options v))
                (List.filter (λ v, negb (str_eqb v "auto")) unique) in
  match List.find (λ v, negb (bool_decide (v ∈ previous))) unique with
  | Some newlySelected =>
    if str_eqb newlySelected "auto" || exclusive_value options newlySelected
    then [newlySelected] else keep
  | None => keep
  end.

Record ApiKeyGroups := KeyGroups {
  k_group : option jsstr;
  k_group_mode : option GroupMode;
  k_group_details : option (list GroupIdentity);
}.

Definition resolveApiKeyGroups (apiKey : ApiKeyGroups) : list jsstr :=
  let by_text := List.filter nonempty (trim <$> split_char 44 (default [] (k_group apiKey))) in
  match k_group_mode apiKey with
  | Some inherit => []
  | mode =>
    if match mode with Some auto => true | _ => false end
       || match k_group apiKey with Some g => str_eqb g "auto" | None => false end
    then ["auto"]
    else match k_group_details apiKey with
         | Some (d :: ds) => List.filter nonempty (gi_code <$> (d :: ds))
         | _ => by_text
         end
  end.

Record GroupPayload := Payload {
  p_group : jsstr;
  p_group_ids : list number;
  p_group_mode : GroupMode;
}.

(** [optionMap.get(code)]: the map keeps the last option of a value. *)
Definition option_map_get (options : list GroupSelectionOption) (code : jsstr) : option GroupSelectionOption :=
  List.find (λ o, str_eqb (o_value o) code) (reverse options).

Definition buildGroupSelectionPayload (groups : list jsstr)
    (options : list GroupSelectionOption) : GroupPayload :=
  match groups with
  | [] => Payload [] [] inherit
  | _ =>
    if bool_decide (groups = ["auto"]) then Payload "auto" [] auto
    else Payload (join "," groups)
           (omap (λ code, option_map_get options code ≫= λ o, integer_id (o_id o)) groups)
           explicit
  end.

(** ** Lemmas *)

Lemma retain_fold retained options known :
  (∀ v, v ∈ known ↔ v ∈ (o_value <$> options)) →
  ∃ extra,
    (fold_left retain_step retained (options, known)).1 = options ++ extra /\
    NoDup (o_value <$> extra) /\
    (∀ v, v ∈ (o_value <$> extra) ↔
          v ≠ [] /\ (v ∉ (o_value <$> options)) /\ v ∈ (gi_code <$> retained)).
Proof.
  revert options known. induction retained as [|g gs IH]; intros options known Hk.
  { exists []. rewrite app_nil_r. split; [done|]. split; [constructor|]. set_solver. }
  cbn [fold_left retain_step].
  destruct (negb (nonempty (gi_code g)) || set_has known (gi_code g)) eqn:E.
  - destruct (IH options known Hk) as (ex & Hfold & Hnd & Hin). exists ex.
    split; [done|]. split; [done|]. intros v. rewrite Hin, fmap_cons, elem_of_cons.
    apply orb_true_iff in E as [E|E].
    + rewrite negb_true_iff in E. destruct (gi_code g); [|done].
      split; [tauto|]. intros (? & ? & [->|?]); tauto.
    + unfold set_has in E. apply bool_decide_eq_true in E. rewrite Hk in E.
      split; [tauto|]. intros (? & ? & [->|?]); tauto.
  - apply orb_false_iff in E as [E1 E2]. rewrite negb_false_iff, nonempty_spec in E1.
    unfold set_has in E2. apply bool_decide_eq_false in E2. rewrite Hk in E2.
    set (o := Option _ _ _ _ _ _).
    destruct (IH (options ++ [o]) (set_add known (gi_code g))) as (ex & Hfold & Hnd & Hin).
    { intros v. rewrite elem_of_set_add, Hk, fmap_app, elem_of_app. set_solver. }
    exists (o :: ex). rewrite Hfold, <- app_assoc. split; [done|]. split.
    + rewrite fmap_cons. constructor; [|done]. rewrite Hin, fmap_app. set_solver.
    + intros v. rewrite !fmap_cons, !elem_of_cons, Hin, fmap_app, elem_of_app.
      change (o_value o) with (gi_code g). change (o_value <$> [o]) with [gi_code g].
      rewrite list_elem_of_singleton. destruct (decide (v = gi_code g)) as [->|]; tauto.
Qed.

(** ** Properties *)

(** A normalised selection has no duplicates, only values of the request,
    and every [auto] or exclusive group in it stands alone. *)
Theorem normalize_selection_exclusive (previous next : list jsstr) (options : list GroupSelectionOption) :
  let r := normalizeGroupSelection previous next options in
  NoDup r /\ (∀ v, v ∈ r → v ∈ next /\ v ≠ []) /\
  (∀ v, v ∈ r → v = "auto" \/ exclusive_value options v = true → r = [v]).
Proof.
  cbv zeta. unfold normalizeGroupSelection.
  set (unique := set_of (List.filter nonempty next)).
  set (keep := List.filter _ (List.filter _ unique)).
  assert (∀ v, v ∈ unique → v ∈ next /\ v ≠ []) as Hu.
  { intros v. unfold unique. rewrite elem_of_set_of, elem_of_lfilter, nonempty_spec. done. }
  assert (NoDup keep /\ (∀ v, v ∈ keep → v ∈ unique /\ v ≠ "auto" /\ exclusive_value options v = false)) as [Hnd Hk].
  { split; [by apply NoDup_lfilter, NoDup_lfilter, NoDup_set_of|].
    intros v. unfold keep. rewrite !elem_of_lfilter, !negb_true_iff. unfold str_eqb.
    rewrite bool_decide_eq_false. tauto. }
  assert (NoDup keep /\ (∀ v, v ∈ keep → v ∈ next /\ v ≠ []) /\
    (∀ v, v ∈ keep → v = "auto" \/ exclusive_value options v = true → keep = [v])) as Hkeep.
  { split; [done|]. split; intros v Hv.
    - apply Hu. by apply Hk.
    - destruct (Hk v Hv) as (_ & H1 & H2). intros [?|?]; congruence. }
  destruct (List.find _ unique) as [n|] eqn:Hf; [|done].
  destruct (_ || _); [|done]. apply List.find_some in Hf as [Hf _].
  apply list_elem_of_In in Hf. split; [apply NoDup_singleton|].
  split; intros v ->%list_elem_of_singleton; auto.
Qed.

(** A selection of well-formed group codes survives the round trip
    through the stored key: the group text and mode built for it resolve back
    to the same selection, in the same order. *)
Theorem group_payload_roundtrip (groups : list jsstr) (options : list GroupSelectionOption) :
  Forall (λ g, trim g = g /\ g ≠ [] /\ lacks 44 g = true) groups →
  let p := buildGroupSelectionPayload groups options in
  resolveApiKeyGroups (KeyGroups (Some (p_group p)) (Some (p_group_mode p)) None) = groups.
Proof.
  intros H. cbv zeta. unfold buildGroupSelectionPayload.
  destruct groups as [|g0 gs]; [done|].
  case_bool_decide as E; [by rewrite E|].
  unfold resolveApiKeyGroups. cbn [k_group_mode k_group p_group p_group_mode k_group_details].
  set (l := g0 :: gs) in *. rewrite Forall_forall in H.
  assert (split_char 44 (join "," l) = l) as Hsplit.
  { apply split_join; [done|]. apply forallb_True', Forall_forall. intros g Hg. by apply H. }
  assert (str_eqb (join "," l) "auto" = false) as ->.
  { apply bool_decide_eq_false. intros Hj. rewrite Hj in Hsplit. cbn in Hsplit. congruence. }
  cbn [orb from_option]. unfold id. rewrite Hsplit.
  assert (trim <$> l = l) as ->.
  { rewrite <- (list_fmap_id l) at 2. apply list_fmap_ext.
    intros i m Hm%list_elem_of_lookup_2. by apply H. }
  apply list_filter_all. intros m Hm. apply nonempty_spec. by apply H.
Qed.

Lemma group_payload_roundtrip_witness :
  resolveApiKeyGroups (KeyGroups
    (Some (p_group (buildGroupSelectionPayload ["vip"; "default"] [])))
    (Some (p_group_mode (buildGroupSelectionPayload ["vip"; "default"] []))) None)
  = ["vip"; "default"].
Proof.
  apply (group_payload_roundtrip ["vip"; "default"] []).
  repeat constructor; done.
Defined.

(** The options offered keep every configured group in order, add each
    retained group the table lacks exactly once, and nothing else. *)
Theorem selection_options_complete (groups : list GroupInfo) (retained : list GroupIdentity) :
  ∃ extra,
    createGroupSelectionOptions groups retained = (option_of_info <$> groups) ++ extra /\
    NoDup (o_value <$> extra) /\
    (∀ v, v ∈ (o_value <$> extra) ↔
          v ≠ [] /\ (v ∉ (o_value <$> (option_of_info <$> groups))) /\ v ∈ (gi_code <$> retained)).
Proof. apply retain_fold. intros v. apply elem_of_set_of. Qed.

End GroupSelection.
