(* ===== verification/BillingExpr.v ===== *)
(** * Billing expressions ([web/src/features/pricing/lib/billing-expr.ts])

    The dynamic billing expression of a model is a base expression of priced
    tiers, multiplied by request-rule factors [(condition ? multiplier : 1)].
    This file translates the parser and the printer of that language: the
    tier parser, the request-rule parser, combining and splitting of the two
    halves, and the editor's functions that build expression text.  The
    regular expressions are transcribed pattern by pattern over [JsRegExp].
    The theorems are in [BillingExprFacts]. *)

From S2P Require Import Prelude JsString JsRegExp JsNumber JsValue.
Local Open Scope N_scope.

Module BillingExpr.

(** ** Variable registry *)

Inductive Side := input | output | condition.

Record BillingVar := Var {
  v_key : jsstr;
  v_field : option jsstr;
  v_tierField : option jsstr;
  v_label : jsstr;
  v_shortLabel : jsstr;
  v_side : Side;
  v_isBase : bool;
  v_isConditionOnly : bool;
  v_group : option jsstr;
}.

Definition BILLING_VARS : list BillingVar := [
  Var "p" (Some "inputPrice") (Some "input_unit_cost") "Input price" "Input" input true false None;
  Var "c" (Some "outputPrice") (Some "output_unit_cost") "Completion price" "Output" output true false None;
  Var "len" None None "Input length" "Length" condition false true None;
  Var "cr" (Some "cacheReadPrice") (Some "cache_read_unit_cost") "Cache read price" "Cache Read" input false false (Some "cache");
  Var "cc" (Some "cacheCreatePrice") (Some "cache_create_unit_cost") "Cache create price" "Cache Write" input false false (Some "cache");
  Var "cc1h" (Some "cacheCreate1hPrice") (Some "cache_create_1h_unit_cost") "Cache create (1h) price" "Cache Write (1h)" input false false (Some "cache");
  Var "img" (Some "imagePrice") (Some "image_unit_cost") "Image input price" "Image In" input false false (Some "media");
  Var "img_o" (Some "imageOutputPrice") (Some "image_output_unit_cost") "Image output price" "Image Out" output false false (Some "media");
  Var "ai" (Some "audioInputPrice") (Some "audio_input_unit_cost") "Audio input price" "Audio In" input false false (Some "media");
  Var "ao" (Some "audioOutputPrice") (Some "audio_output_unit_cost") "Audio output price" "Audio Out" output false false (Some "media")
].

Definition BILLING_PRICING_VARS : list BillingVar :=
  List.filter (λ v, negb (v_isConditionOnly v)) BILLING_VARS.

Definition BILLING_CONDITION_VARS : list jsstr :=
  v_key <$> List.filter (λ v, v_isBase v || v_isConditionOnly v) BILLING_VARS.

(** The pairs of [BILLING_VAR_KEY_TO_FIELD], in property order. *)
Definition BILLING_VAR_KEY_TO_FIELD : list (jsstr * jsstr) :=
  (λ v, (v_key v, default [] (v_field v))) <$> BILLING_PRICING_VARS.

Definition BILLING_EXTRA_VARS : list BillingVar :=
  List.filter (λ v, negb (v_isBase v) && negb (v_isConditionOnly v)) BILLING_VARS.

(** The field and the expression variable of every extra variable. *)
Definition BILLING_CACHE_VAR_MAP : list (jsstr * jsstr) :=
  (λ v, (default [] (v_tierField v), v_key v)) <$> BILLING_EXTRA_VARS.

(** The class [[\d.eE+-]]. *)
Definition is_num_char (a : N) : bool :=
  is_digit a || bool_decide (a ∈ ".eE+-").
Definition num_chars : re := Chr is_num_char.

(** A word boundary, a variable, a star, a number. *)
Definition BILLING_VAR_REGEX : re :=
  seqs [WordB; Grp 1 (alts (v_key <$> BILLING_PRICING_VARS)); Star space; lit_re "*"; Star space;
        Grp 2 (Plus num_chars)].

(** ** Request rule constants and types *)

Definition MATCH_EQ : jsstr := "eq".
Definition MATCH_CONTAINS : jsstr := "contains".
Definition MATCH_GT : jsstr := "gt".
Definition MATCH_GTE : jsstr := "gte".
Definition MATCH_LT : jsstr := "lt".
Definition MATCH_LTE : jsstr := "lte".
Definition MATCH_EXISTS : jsstr := "exists".
Definition MATCH_RANGE : jsstr := "range".

Inductive TimeFunc := hour | minute | weekday | month | day.

#[global] Instance TimeFunc_eq_dec : EqDecision TimeFunc.
Proof. solve_decision. Defined.

Definition TIME_FUNCS : list TimeFunc := [hour; minute; weekday; month; day].

Definition tf_text (f : TimeFunc) : jsstr :=
  match f with
  | hour => "hour" | minute => "minute" | weekday => "weekday" | month => "month" | day => "day"
  end.

(** The time function a text names, the check of [isTimeFunc]. *)
Definition tf_of_text (s : jsstr) : option TimeFunc :=
  List.find (λ f, str_eqb (tf_text f) s) TIME_FUNCS.

Inductive PHSource := param | header.

Definition ph_text (s : PHSource) : jsstr := match s with param => "param" | header => "header" end.

(** [ParamHeaderCondition] and [TimeCondition], the two kinds of
    [RequestCondition]. *)
Inductive RequestCondition :=
  | ParamHeaderCondition (source : PHSource) (path mode value : jsstr)
  | TimeCondition (timeFunc : TimeFunc) (timezone mode value rangeStart rangeEnd : jsstr).

Record RequestRuleGroup := Group {
  conditions : list RequestCondition;
  multiplier : jsstr;
  conditionText : option jsstr;
  matched : option bool;
}.

Record RequestRuleTrace := Trace {
  t_cond : jsstr;
  t_multiplier : number;
  t_matched : bool;
}.

Definition COMMON_TIMEZONES : list (jsstr * jsstr) := [
  ("Asia/Shanghai", "UTC+8 Shanghai (Asia/Shanghai)");
  ("UTC", "UTC");
  ("America/New_York", "UTC-5 New York (America/New_York)");
  ("America/Los_Angeles", "UTC-8 Los Angeles (America/Los_Angeles)");
  ("America/Chicago", "UTC-6 Chicago (America/Chicago)");
  ("Europe/London", "UTC+0 London (Europe/London)");
  ("Europe/Berlin", "UTC+1 Berlin (Europe/Berlin)");
  ("Asia/Tokyo", "UTC+9 Tokyo (Asia/Tokyo)");
  ("Asia/Singapore", "UTC+8 Singapore (Asia/Singapore)");
  ("Asia/Seoul", "UTC+9 Seoul (Asia/Seoul)");
  ("Australia/Sydney", "UTC+10 Sydney (Australia/Sydney)")
].

(** Sign, digits with an optional point or a point and digits, exponent. *)
Definition NUMERIC_LITERAL_REGEX : re :=
  seqs [Bol; Opt (lit_re "-");
        Alt (seqs [Plus digit; Opt (lit_re "."); Star digit]) (seqs [lit_re "."; Plus digit]);
        Opt (seqs [one_of "eE"; Opt (one_of "+-"); Plus digit]); Eol].

Definition is_numeric (s : jsstr) : bool := re_test NUMERIC_LITERAL_REGEX s.

(** ** Tier parser *)

Record TierCondition := TierCond { tc_var : jsstr; tc_op : jsstr; tc_value : number }.

Record ParsedTier := Tier {
  tier_label : jsstr;
  tier_conditions : list TierCondition;
  tier_fields : list (jsstr * number);
}.

(** A version prefix such as v2: and the rest. *)
Definition version_regex : re :=
  seqs [Bol; lit_re "v"; Grp 1 (Plus digit); lit_re ":"; Grp 2 (Star any_s); Eol].

Definition stripExprVersion (exprStr : jsstr) : number * jsstr :=
  if negb (nonempty exprStr) then (of_Z 1, [])
  else match re_match version_regex exprStr with
       | Some m => (Number_of_string (grp m 1), grp m 2)
       | None => (of_Z 1, exprStr)
       end.

(** The first coefficient written for a variable. *)
Fixpoint first_coeff (ms : list match_result) (varName : jsstr) : option number :=
  match ms with
  | [] => None
  | m :: ms' => if str_eqb (grp (m_caps m) 1) varName
                then Some (Number_of_string (grp (m_caps m) 2)) else first_coeff ms' varName
  end.

Definition parseTierBody (bodyStr : jsstr) : list (jsstr * number) :=
  let ms := exec_all BILLING_VAR_REGEX bodyStr in
  (λ p, (p.2, num_or_0 (default (of_Z 0) (first_coeff ms p.1)))) <$> BILLING_VAR_KEY_TO_FIELD.

(** The class [[\d.eE+]]. *)
Definition cond_num_chars : re := Chr (λ a, is_digit a || bool_decide (a ∈ ".eE+")).

(** A comparison of p, c or len with a number. *)
Definition tier_cond_re : re :=
  seqs [alts ["p"; "c"; "len"]; Star space; alts ["<"; "<="; ">"; ">="]; Star space; Plus cond_num_chars].

Definition cond_group : re :=
  Grp 1 (Seq tier_cond_re (Star (seqs [Star space; lit_re "&&"; Star space; tier_cond_re]))).

(** An optional condition group with its question mark, then a tier call. *)
Definition tier_regex : re :=
  seqs [Opt (seqs [cond_group; Star space; lit_re "?"; Star space]);
        lit_re ("tier(" ++ DQ); Grp 2 (Star (none_of DQ)); lit_re (DQ ++ ","); Star space;
        Grp 3 (Plus (none_of ")")); lit_re ")"].

(** One comparison, anchored, with its three parts captured. *)
Definition tier_cond_regex : re :=
  seqs [Bol; Grp 1 (alts ["p"; "c"; "len"]); Star space; Grp 2 (alts ["<"; "<="; ">"; ">="]);
        Star space; Grp 3 (Plus cond_num_chars); Eol].

Definition and_split_re : re := seqs [Star space; lit_re "&&"; Star space].

(** The conditions of a matched condition group. *)
Definition parse_tier_conditions (condStr : jsstr) : list TierCondition :=
  if nonempty condStr then
    omap (λ cp, match re_match tier_cond_regex (trim cp) with
                | Some cm => Some (TierCond (grp cm 1) (grp cm 2) (Number_of_string (grp cm 3)))
                | None => None
                end) (re_split and_split_re condStr)
  else [].

Definition parseTiersFromExpr (exprStr : jsstr) : list ParsedTier :=
  if negb (nonempty exprStr) then []
  else
    let body := (stripExprVersion exprStr).2 in
    (λ m, Tier (grp (m_caps m) 2) (parse_tier_conditions (grp (m_caps m) 1))
            (parseTierBody (grp (m_caps m) 3)))
      <$> exec_all tier_regex body.

Definition normalizeTierLabel (label : option jsstr) : jsstr :=
  match label with
  | None | Some [] => []
  | Some l =>
    let lt := Alt (seqs [lit_re "<"; Opt (one_of "=＝")])
                (Alt (lit_re "≤") (seqs [lit_re "＜"; Opt (one_of "=＝")])) in
    let gt := Alt (seqs [lit_re ">"; Opt (one_of "=＝")])
                (Alt (lit_re "≥") (seqs [lit_re "＞"; Opt (one_of "=＝")])) in
    toLowerCase (re_replace (Plus space) "" (re_replace gt ">" (re_replace lt "<" l)))
  end.

(** ** Request rule parser *)

(** The loop of the two splitters.  [cur] is the current part in reverse;
    [skip] counts the characters of a separator still to be passed over. *)
Fixpoint split_top (sep : jsstr) (depth : Z) (skip : nat) (cur : jsstr) (s : jsstr) : list jsstr :=
  match s with
  | [] => [trim (reverse cur)]
  | c :: s' =>
    match skip with
    | S k => split_top sep depth k cur s'
    | O =>
      let depth1 := if c =? 40 then (depth + 1)%Z else depth in
      let depth2 := if c =? 41 then (depth1 - 1)%Z else depth1 in
      if (depth2 =? 0)%Z && startsWith (c :: s') sep
      then trim (reverse cur) :: split_top sep depth2 (length sep - 1) [] s'
      else split_top sep depth2 0 (c :: cur) s'
    end
  end.

Definition splitTopLevelMultiply (expr : jsstr) : list jsstr :=
  List.filter nonempty (split_top " * " 0 0 [] expr).

Definition splitTopLevelAnd (expr : jsstr) : list jsstr :=
  List.filter nonempty (split_top " && " 0 0 [] expr).

(** The value of a literal; [VNull] when it is not one. *)
Definition parseExprLiteral (raw : jsstr) : value :=
  let text := trim raw in
  if str_eqb text "true" || str_eqb text "false" then VStr text
  else if is_numeric text then VStr text
  else match JSON_parse text with Some v => v | None => VNull end.

Definition time_func_re : re := alts (tf_text <$> TIME_FUNCS).

(** A lower and an upper bound of the same time function and zone. *)
Definition time_range_parts : list re :=
  [Grp 1 time_func_re; lit_re ("(" ++ DQ); Grp 2 (Plus (none_of DQ)); lit_re (DQ ++ ") >= ");
   Grp 3 (Plus num_chars); lit_re " "; Grp 4 (alts ["&&"; "||"]); lit_re " ";
   Back 1; lit_re ("(" ++ DQ); Back 2; lit_re (DQ ++ ") < "); Grp 5 (Plus num_chars)].

Definition time_range_regex : re := seqs (Bol :: time_range_parts ++ [Eol]).
Definition time_range_paren_regex : re := seqs (Bol :: lit_re "(" :: time_range_parts ++ [lit_re ")"; Eol]).

(** One comparison of a time function. *)
Definition time_cmp_regex : re :=
  seqs [Bol; Grp 1 time_func_re; lit_re ("(" ++ DQ); Grp 2 (Plus (none_of DQ)); lit_re (DQ ++ ") ");
        Grp 3 (alts ["=="; ">="; "<"]); lit_re " "; Grp 4 (Plus num_chars); Eol].

(** The operator a range direction asks for. *)
Definition range_op (s e : jsstr) : jsstr :=
  if num_ltb (Number_of_string e) (Number_of_string s) then "||" else "&&".

Definition time_op_mode (op : jsstr) : jsstr :=
  if str_eqb op "==" then MATCH_EQ else if str_eqb op ">=" then MATCH_GTE
  else if str_eqb op "<" then MATCH_LT else MATCH_EQ.

Definition tryParseTimeCondition (expr : jsstr) : option RequestCondition :=
  let m := match re_match time_range_regex expr with
           | Some m => Some m
           | None => re_match time_range_paren_regex expr
           end in
  match m with
  | Some m =>
    if negb (is_numeric (grp m 3)) || negb (is_numeric (grp m 5))
       || negb (str_eqb (range_op (grp m 3) (grp m 5)) (grp m 4)) then None
    else match tf_of_text (grp m 1) with
         | Some f => Some (TimeCondition f (grp m 2) MATCH_RANGE "" (grp m 3) (grp m 5))
         | None => None
         end
  | None =>
    match re_match time_cmp_regex expr with
    | Some m =>
      match tf_of_text (grp m 1) with
      | Some f => Some (TimeCondition f (grp m 2) (time_op_mode (grp m 3)) (grp m 4) "" "")
      | None => None
      end
    | None => None
    end
  end.

(** A header compared with the empty text. *)
Definition header_exists_regex : re :=
  seqs [Bol; lit_re ("header(" ++ DQ); Grp 1 (Plus (none_of DQ)); lit_re (DQ ++ ") != " ++ DQ ++ DQ); Eol].
(** A parameter compared with nil. *)
Definition param_exists_regex : re :=
  seqs [Bol; lit_re ("param(" ++ DQ); Grp 1 (Plus (none_of DQ)); lit_re (DQ ++ ") != nil"); Eol].
(** A quoted text with backslash escapes. *)
Definition quoted_re : re :=
  seqs [lit_re DQ; Star (Alt (none_of (DQ ++ "\")) (seqs [lit_re "\"; any])); lit_re DQ].
(** A header that contains a quoted text. *)
Definition header_has_regex : re :=
  seqs [Bol; lit_re ("has(header(" ++ DQ); Grp 1 (Plus (none_of DQ)); lit_re (DQ ++ "), ");
        Grp 2 quoted_re; lit_re ")"; Eol].
(** A parameter that is not nil and contains a quoted text. *)
Definition param_has_regex : re :=
  seqs [Bol; lit_re ("param(" ++ DQ); Grp 1 (Plus (none_of DQ)); lit_re (DQ ++ ") != nil && has(param(" ++ DQ);
        Grp 2 (Plus (none_of DQ)); lit_re (DQ ++ "), "); Grp 3 quoted_re; lit_re ")"; Eol].
(** A parameter that is not nil and compares with a number. *)
Definition param_cmp_regex : re :=
  seqs [Bol; lit_re ("param(" ++ DQ); Grp 1 (Plus (none_of DQ)); lit_re (DQ ++ ") != nil && param(" ++ DQ);
        Grp 2 (Plus (none_of DQ)); lit_re (DQ ++ ") "); Grp 3 (alts [">"; ">="; "<"; "<="]);
        lit_re " "; Grp 4 (Plus num_chars); Eol].
(** A parameter or header equal to a literal. *)
Definition eq_regex : re :=
  seqs [Bol; Grp 1 (alts ["param"; "header"]); lit_re ("(" ++ DQ); Grp 2 (Plus (none_of DQ));
        lit_re (DQ ++ ") == "); Grp 3 (Plus any); Eol].

Definition param_op_mode (op : jsstr) : jsstr :=
  if str_eqb op ">" then MATCH_GT else if str_eqb op ">=" then MATCH_GTE
  else if str_eqb op "<" then MATCH_LT else MATCH_LTE.

(** [JSON.parse] of a text the pattern has quoted; it throws on an escape JSON
    does not know. *)
Definition json_text (s : jsstr) : exc jsstr :=
  match JSON_parse s with Some v => Ret (to_string v) | None => Throw end.

(** Whether a match has equal groups [i] and [j]. *)
Definition same_groups (m : option caps) (i j : nat) : option caps :=
  match m with Some c => if str_eqb (grp c i) (grp c j) then Some c else None | None => None end.

Definition tryParseRequestCondition (expr : jsstr) : exc (option RequestCondition) :=
  match tryParseTimeCondition expr with
  | Some tc => Ret (Some tc)
  | None =>
  match re_match header_exists_regex expr with
  | Some m => Ret (Some (ParamHeaderCondition header (grp m 1) MATCH_EXISTS ""))
  | None =>
  match re_match param_exists_regex expr with
  | Some m => Ret (Some (ParamHeaderCondition param (grp m 1) MATCH_EXISTS ""))
  | None =>
  match re_match header_has_regex expr with
  | Some m =>
    v ← json_text (grp m 2); Ret (Some (ParamHeaderCondition header (grp m 1) MATCH_CONTAINS v))
  | None =>
  match same_groups (re_match param_has_regex expr) 1 2 with
  | Some m =>
    v ← json_text (grp m 3); Ret (Some (ParamHeaderCondition param (grp m 1) MATCH_CONTAINS v))
  | None =>
  match same_groups (re_match param_cmp_regex expr) 1 2 with
  | Some m => Ret (Some (ParamHeaderCondition param (grp m 1) (param_op_mode (grp m 3)) (grp m 4)))
  | None =>
  match re_match eq_regex expr with
  | Some m =>
    match parseExprLiteral (grp m 3) with
    | VNull => Ret None
    | v => Ret (Some (ParamHeaderCondition (if str_eqb (grp m 1) "param" then param else header)
                        (grp m 2) MATCH_EQ (to_string v)))
    end
  | None => Ret None
  end end end end end end end.

Definition tryParseTimeRangePair (lower upper : jsstr) : option RequestCondition :=
  match tryParseTimeCondition lower, tryParseTimeCondition upper with
  | Some (TimeCondition f1 z1 m1 v1 _ _), Some (TimeCondition f2 z2 m2 v2 _ _) =>
    if negb (bool_decide (f1 = f2)) || negb (str_eqb z1 z2) then None
    else if negb (str_eqb m1 MATCH_GTE) || negb (str_eqb m2 MATCH_LT) then None
    else if num_ltb (Number_of_string v2) (Number_of_string v1) then None
    else Some (TimeCondition f1 z1 MATCH_RANGE "" v1 v2)
  | _, _ => None
  end.

(** The loop over the parts of a conjunction. *)
Fixpoint parse_and_parts (parts : list jsstr) : exc (option (list RequestCondition)) :=
  match parts with
  | [] => Ret (Some [])
  | part :: rest =>
    let single :=
      c ← tryParseRequestCondition (trim part);
      match c with
      | Some c => cs ← parse_and_parts rest; Ret (option_map (cons c) cs)
      | None => Ret None
      end in
    match rest with
    | next :: rest' =>
      match (if nonempty (trim next) then tryParseTimeRangePair (trim part) (trim next) else None) with
      | Some merged => cs ← parse_and_parts rest'; Ret (option_map (cons merged) cs)
      | None => single
      end
    | [] => single
    end
  end.

Definition tryParseRequestConditions (conditionStr : jsstr) : exc (option (list RequestCondition)) :=
  match tryParseTimeCondition (trim conditionStr) with
  | Some wholeTimeCond => Ret (Some [wholeTimeCond])
  | None =>
    cs ← parse_and_parts (splitTopLevelAnd conditionStr);
    Ret (match cs with Some (c :: cs) => Some (c :: cs) | _ => None end)
  end.

(** A whole rule factor; the s flag lets the condition span lines. *)
Definition rule_factor_regex : re :=
  seqs [Bol; lit_re "("; Grp 1 (Plus any_s); lit_re " ? "; Grp 2 (Plus num_chars); lit_re " : 1)"; Eol].

Definition tryParseRuleGroupFactor (part : jsstr) : exc (option RequestRuleGroup) :=
  match re_match rule_factor_regex part with
  | None => Ret None
  | Some m =>
    cs ← tryParseRequestConditions (grp m 1);
    Ret (match cs with Some cs => Some (Group cs (grp m 2) None None) | None => None end)
  end.

Definition group_of_trace (rule : RequestRuleTrace) : exc RequestRuleGroup :=
  let text := trim (t_cond rule) in
  cs ← tryParseRequestConditions text;
  Ret (Group (default [] cs) (num_to_string (t_multiplier rule)) (Some text) (Some (t_matched rule))).

Definition requestRuleGroupsFromTrace (requestRules : list RequestRuleTrace) : exc (list RequestRuleGroup) :=
  mapM group_of_trace requestRules.

(** The loop over the factors. *)
Fixpoint parse_factors (parts : list jsstr) : exc (option (list RequestRuleGroup)) :=
  match parts with
  | [] => Ret (Some [])
  | part :: rest =>
    g ← tryParseRuleGroupFactor part;
    match g with
    | None => Ret None
    | Some g => gs ← parse_factors rest; Ret (option_map (cons g) gs)
    end
  end.

Definition tryParseRequestRuleExpr (expr : jsstr) : exc (option (list RequestRuleGroup)) :=
  let trimmed := trim expr in
  if negb (nonempty trimmed) then Ret (Some [])
  else parse_factors (splitTopLevelMultiply trimmed).

(** ** Combining and splitting *)

(** The scan of [hasFullOuterParens]: the final depth, or [None] when it
    returns to zero before the last character. *)
Fixpoint outer_scan (depth : Z) (s : jsstr) : option Z :=
  match s with
  | [] => Some depth
  | c :: s' =>
    let depth1 := if c =? 40 then (depth + 1)%Z else depth in
    let depth2 := if c =? 41 then (depth1 - 1)%Z else depth1 in
    if (depth2 =? 0)%Z && nonempty s' then None else outer_scan depth2 s'
  end.

Definition hasFullOuterParens (expr : jsstr) : bool :=
  startsWith expr "(" && endsWith expr ")" &&
  match outer_scan 0 expr with Some d => (d =? 0)%Z | None => false end.

(** The loop of [unwrapOuterParens]; every turn removes two characters. *)
Fixpoint unwrap_fuel (n : nat) (current : jsstr) : jsstr :=
  match n with
  | O => current
  | S n' =>
    if hasFullOuterParens current
    then unwrap_fuel n' (trim (slice current 1 (length current - 1)))
    else current
  end.

Definition unwrapOuterParens (expr : jsstr) : jsstr :=
  let current := trim expr in unwrap_fuel (length current) current.

Record SplitExpr := Split { billingExpr : jsstr; requestRuleExpr : jsstr }.

(** Sorts the factors into request rules and base factors. *)
Fixpoint classify_parts (parts : list jsstr) : exc (list jsstr * list jsstr) :=
  match parts with
  | [] => Ret ([], [])
  | part :: rest =>
    parsed ← tryParseRequestRuleExpr part;
    '(ruleParts, baseParts) ← classify_parts rest;
    Ret (match parsed with
         | Some (_ :: _) => (part :: ruleParts, baseParts)
         | _ => (ruleParts, part :: baseParts)
         end)
  end.

Definition splitBillingExprAndRequestRules (expr : jsstr) : exc SplitExpr :=
  let trimmed := trim expr in
  if negb (nonempty trimmed) then Ret (Split [] [])
  else
    let parts := splitTopLevelMultiply trimmed in
    if Nat.leb (length parts) 1 then Ret (Split trimmed [])
    else
      '(ruleParts, baseParts) ← classify_parts parts;
      Ret (match ruleParts, baseParts with
           | _ :: _, [base] => Split (unwrapOuterParens base) (join " * " ruleParts)
           | _, _ => Split trimmed []
           end).

Definition combineBillingExpr (baseExpr ruleExpr : jsstr) : jsstr :=
  let base := trim baseExpr in
  let rules := trim ruleExpr in
  if negb (nonempty base) then []
  else if negb (nonempty rules) then base
  else "(" ++ base ++ ") * " ++ rules.

(** ** Editor: empty constructors *)

Definition createEmptyCondition : RequestCondition := ParamHeaderCondition param "" MATCH_EQ "".
Definition createEmptyTimeCondition : RequestCondition :=
  TimeCondition hour "Asia/Shanghai" MATCH_GTE "" "" "".
Definition createEmptyRuleGroup : RequestRuleGroup := Group [createEmptyCondition] "" None None.
Definition createEmptyTimeRuleGroup : RequestRuleGroup := Group [createEmptyTimeCondition] "" None None.

(** ** Editor: match options *)

Definition SOURCE_PARAM : jsstr := "param".
Definition SOURCE_HEADER : jsstr := "header".
Definition SOURCE_TIME : jsstr := "time".

(** The values and label keys of the match options. *)
Definition getRequestRuleMatchOptions (source : jsstr) : list (jsstr * jsstr) :=
  if str_eqb source SOURCE_TIME then
    [(MATCH_EQ, "Equals"); (MATCH_GTE, "Greater than or equal"); (MATCH_LT, "Less than");
     (MATCH_RANGE, "Overnight range")]
  else
    let base := [(MATCH_EQ, "Equals"); (MATCH_CONTAINS, "Contains"); (MATCH_EXISTS, "Exists")] in
    if str_eqb source SOURCE_HEADER then base
    else base ++ [(MATCH_GT, "Greater than"); (MATCH_GTE, "Greater than or equal");
                  (MATCH_LT, "Less than"); (MATCH_LTE, "Less than or equal")].

Definition mode_allowed (source mode : jsstr) : bool :=
  existsb (λ item, str_eqb item.1 mode) (getRequestRuleMatchOptions source).

(** ** Editor: normalising a condition *)

(** The text of a property, empty for null and undefined. *)
Definition text_of (v : value) : jsstr :=
  match v with VUndef | VNull => [] | _ => to_string v end.

(** A string property with a default for the falsy ones. *)
Definition str_or (v : value) (d : jsstr) : jsstr :=
  match v with VStr (c :: s) => c :: s | _ => d end.

(** A partial condition is an object value, [null] or [undefined]. *)
Definition normalizeCondition (cond : value) : RequestCondition :=
  let src := prop cond "source" in
  let mode_or s d := match prop cond "mode" with
                     | VStr m => if mode_allowed s m then m else d
                     | _ => d
                     end in
  match src with
  | VStr t =>
    if str_eqb t "time" then
      let f := match prop cond "timeFunc" with
               | VStr n => default hour (tf_of_text n)
               | _ => hour
               end in
      TimeCondition f (str_or (prop cond "timezone") "Asia/Shanghai")
        (mode_or SOURCE_TIME MATCH_GTE) (text_of (prop cond "value"))
        (text_of (prop cond "rangeStart")) (text_of (prop cond "rangeEnd"))
    else
      let s := if str_eqb t "header" then header else param in
      ParamHeaderCondition s (str_or (prop cond "path") "") (mode_or (ph_text s) MATCH_EQ)
        (text_of (prop cond "value"))
  | _ => ParamHeaderCondition param (str_or (prop cond "path") "") (mode_or "param" MATCH_EQ)
           (text_of (prop cond "value"))
  end.

(** The object a condition is. *)
Definition cond_value (c : RequestCondition) : value :=
  match c with
  | ParamHeaderCondition s p m v =>
    VObj [("source", VStr (ph_text s)); ("path", VStr p); ("mode", VStr m); ("value", VStr v)]
  | TimeCondition f z m v rs re =>
    VObj [("source", VStr "time"); ("timeFunc", VStr (tf_text f)); ("timezone", VStr z); ("mode", VStr m);
          ("value", VStr v); ("rangeStart", VStr rs); ("rangeEnd", VStr re)]
  end.

(** ** Editor: building expression text *)

Definition buildExprLiteral (mode value : jsstr) : jsstr :=
  let text := trim value in
  if str_eqb mode MATCH_CONTAINS then quote text
  else if str_eqb text "true" || str_eqb text "false" then text
  else if is_numeric text then text
  else quote text.

Definition time_mode_op (mode : jsstr) : jsstr :=
  if str_eqb mode MATCH_EQ then "==" else if str_eqb mode MATCH_GTE then ">="
  else if str_eqb mode MATCH_LT then "<" else "==".

Definition buildTimeConditionExpr (cond : RequestCondition) : jsstr :=
  match normalizeCondition (cond_value cond) with
  | TimeCondition timeFunc timezone mode value rangeStart rangeEnd =>
    let fn := tf_text timeFunc ++ "(" ++ quote timezone ++ ")" in
    if str_eqb mode MATCH_RANGE then
      let s := trim rangeStart in
      let e := trim rangeEnd in
      if negb (is_numeric s) || negb (is_numeric e) then ""
      else if num_ltb (Number_of_string e) (Number_of_string s)
      then fn ++ " >= " ++ s ++ " || " ++ fn ++ " < " ++ e
      else fn ++ " >= " ++ s ++ " && " ++ fn ++ " < " ++ e
    else
      let v := trim value in
      if negb (is_numeric v) then ""
      else fn ++ " " ++ time_mode_op mode ++ " " ++ v
  | ParamHeaderCondition _ _ _ _ => ""
  end.

Definition param_mode_op (mode : jsstr) : jsstr :=
  if str_eqb mode MATCH_GT then ">" else if str_eqb mode MATCH_GTE then ">="
  else if str_eqb mode MATCH_LT then "<" else "<=".

Definition is_cmp_mode (mode : jsstr) : bool :=
  bool_decide (mode ∈ [MATCH_GT; MATCH_GTE; MATCH_LT; MATCH_LTE]).

Definition buildRequestConditionExpr (cond : RequestCondition) : jsstr :=
  match cond with
  | TimeCondition _ _ _ _ _ _ => buildTimeConditionExpr cond
  | ParamHeaderCondition _ _ _ _ =>
    match normalizeCondition (cond_value cond) with
    | ParamHeaderCondition source p mode value =>
      let path := trim p in
      if negb (nonempty path) then ""
      else
        let sourceExpr := ph_text source ++ "(" ++ quote path ++ ")" in
        let is_header := match source with header => true | param => false end in
        if str_eqb mode MATCH_EXISTS then
          if is_header then sourceExpr ++ " != " ++ DQ ++ DQ else sourceExpr ++ " != nil"
        else if str_eqb mode MATCH_CONTAINS then
          if is_header then "has(" ++ sourceExpr ++ ", " ++ buildExprLiteral mode value ++ ")"
          else sourceExpr ++ " != nil && has(" ++ sourceExpr ++ ", " ++ buildExprLiteral mode value ++ ")"
        else if is_cmp_mode mode then
          let numText := trim value in
          if negb (is_numeric numText) then ""
          else sourceExpr ++ " != nil && " ++ sourceExpr ++ " " ++ param_mode_op mode ++ " " ++ numText
        else sourceExpr ++ " == " ++ buildExprLiteral mode value
    | TimeCondition _ _ _ _ _ _ => ""
    end
  end.

Definition buildRuleGroupFactor (group : RequestRuleGroup) : jsstr :=
  let mult := trim (multiplier group) in
  if negb (is_numeric mult) then ""
  else
    let condExprs := List.filter nonempty (buildRequestConditionExpr <$> conditions group) in
    match condExprs with
    | [] => ""
    | [e] => "(" ++ e ++ " ? " ++ mult ++ " : 1)"
    | _ =>
      let combined := join " && " ((λ e, if includes e " || " then "(" ++ e ++ ")" else e) <$> condExprs) in
      "(" ++ combined ++ " ? " ++ mult ++ " : 1)"
    end.

Definition buildRequestRuleExpr (groups : list RequestRuleGroup) : jsstr :=
  join " * " (List.filter nonempty (buildRuleGroupFactor <$> groups)).

End BillingExpr.
