(* ===== verification/BillingExprFacts.v ===== *)
(** * Theorems on billing expressions

    Round trips between the editor's request rules and their text, splitting
    and combining of the two halves of a billing expression, and the cases the
    parser cannot read back. *)

From S2P Require Import Prelude JsString JsRegExp JsNumber JsValue BillingExpr.
Local Open Scope N_scope.

Module BillingExprFacts.
Import BillingExpr.

(** ** Characters *)

(** Characters with no meaning of their own in an expression: printable, and
    none of the quote, the backslash, the parentheses, the ampersand, the bar,
    the line separators and the surrogates. *)
Definition plain_char (c : N) : bool :=
  (32 <=? c) && negb (bool_decide (c ∈ DQ ++ "\()&|")) && negb (is_line_terminator c)
  && negb (is_lead c) && negb (is_trail c).

Definition plain (s : jsstr) : bool := forallb plain_char s.

Lemma quote_chars_plain s : plain s = true → quote_chars s = s.
Proof.
  unfold plain. induction s as [|c s IH]; cbn [forallb quote_chars]; [done|]. intros H. bool_hyps.
  unfold plain_char in H. cbn in H. bool_hyps.
  rewrite IH by done.
  assert (∀ x, x ∈ [34; 92; 8; 12; 10; 13; 9] → (c =? x) = false) as Hne.
  { intros x Hx. apply N.eqb_neq. intros ->.
    repeat (apply elem_of_cons in Hx as [->|Hx]; [try lia; set_solver|]). set_solver. }
  rewrite !Hne by set_solver. rewrite (proj2 (N.ltb_ge _ _)) by lia.
  rewrite H2, H1. done.
Qed.

Lemma quote_plain s : plain s = true → quote s = DQ ++ s ++ DQ.
Proof. intros H. unfold quote. by rewrite quote_chars_plain. Qed.

Lemma json_chars_plain s r : plain s = true → json_chars (s ++ 34 :: r) = Some (s, r).
Proof.
  unfold plain. induction s as [|c s IH]; [done|]. cbn [forallb app]. intros H. bool_hyps.
  unfold plain_char in H. cbn in H. bool_hyps.
  assert (c ≠ 34) by set_solver. assert (c ≠ 92) by set_solver.
  specialize (IH H0). cbn.
  destruct (c <? 32) eqn:E1; [lia|]. destruct (c =? 92) eqn:E2; [lia|].
  rewrite IH. cbn.
  destruct c as [|c]; [done|].
  repeat (destruct c as [c|c|]; try done).
Qed.

Lemma JSON_parse_quoted s : plain s = true → JSON_parse (DQ ++ s ++ DQ) = Some (VStr s).
Proof.
  intros H. unfold JSON_parse, DQ. cbn [app length json_value Nat.mul Nat.add skip_ws].
  cbn. rewrite json_chars_plain by done. done.
Qed.

(** ** Numeric literals *)

Lemma is_num_char_spec x : is_num_char x = true ↔ is_digit x = true ∨ x ∈ ".eE+-".
Proof. unfold is_num_char. by rewrite orb_true_iff, bool_decide_eq_true. Qed.

Lemma is_numeric_chars s : is_numeric s = true → forallb is_num_char s = true ∧ s ≠ [].
Proof.
  unfold is_numeric, re_test, NUMERIC_LITERAL_REGEX. cbn [seqs fold_right].
  destruct (re_match _ s) as [c|] eqn:E; [|done]. intros _.
  apply re_match_sound in E as (w & s' & -> & Hm).
  assert (s' = []) as ->.
  { change (matches (seqs ([Opt (lit_re "-"); Alt (seqs [Plus digit; Opt (lit_re "."); Star digit])
      (seqs [lit_re "."; Plus digit]); Opt (seqs [one_of "eE"; Opt (one_of "+-"); Plus digit])] ++ [Eol]))
      [] w s' c) in Hm. by apply matches_seqs_eol in Hm. }
  rewrite app_nil_r. split.
  - apply forallb_True', (matches_only _ _ _ _ _ _ Hm).
    cbn [only seqs fold_right Plus Opt digit one_of lit_re].
    repeat split; intros x Hx; apply is_num_char_spec; bool_hyps;
      try (apply N.eqb_eq in Hx as <-); set_solver.
  - by apply (matches_nonnull _ _ _ _ _ Hm).
Qed.

Lemma num_chars_no_ws s : forallb is_num_char s = true → no_ws s = true.
Proof.
  apply forallb_impl. intros x [Hd|Hx]%is_num_char_spec.
  - unfold is_digit in Hd. unfold is_ws. lia.
  - repeat (apply elem_of_cons in Hx as [->|Hx]; [done|]). set_solver.
Qed.

Lemma is_numeric_trim s : is_numeric s = true → trim s = s.
Proof. intros [H _]%is_numeric_chars. by apply no_ws_trim, num_chars_no_ws. Qed.

Lemma plain_no_quote s : plain s = true → forallb (λ a, negb (bool_decide (a ∈ DQ))) s = true.
Proof.
  apply forallb_impl. intros x Hx. unfold plain_char in Hx. bool_hyps. bool_goal. set_solver.
Qed.

(** ** Reading a time condition *)

(** A call of a time function on a zone, followed by [t]. *)
Definition tfn (f : TimeFunc) (z t : jsstr) : jsstr :=
  tf_text f ++ [40; 34] ++ z ++ [34; 41] ++ t.

Section Forward.
Context {R : Type} (k : option N → jsstr → caps → option R).

Lemma mtch_time_func i r prev f s c :
  mtch (Seq (Grp i time_func_re) r) prev (tf_text f ++ 40 :: s) c k =
  mtch r (last_char prev (tf_text f)) (40 :: s) ((i, tf_text f) :: c) k.
Proof.
  unfold time_func_re. rewrite mtch_grp_alts. apply choose_one.
  - apply list_elem_of_fmap. exists f. split; [done|]. destruct f; set_solver.
  - intros w' (g & -> & _)%list_elem_of_fmap Hne. by destruct f, g.
  - by apply (bool_decide_unpack _).
Qed.

(** A quoted name in parentheses: the name is captured whole. *)
Lemma mtch_quoted i r prev z x t c :
  plain z = true → z ≠ [] →
  mtch (Seq (lit_re ("(" ++ DQ)) (Seq (Grp i (Plus (none_of DQ))) (Seq (lit_re (DQ ++ x)) r)))
    prev ([40; 34] ++ z ++ [34] ++ t) c k =
  if startsWith t x
  then mtch r (Some (List.last x 34)) (drop (length x) t) ((i, z) :: c) k else None.
Proof.
  intros Hz Hne. lit_step. change (z ++ 34 :: t) with (z ++ [34] ++ t). unfold none_of.
  rewrite mtch_grp_plus; [|by apply plain_no_quote|done|by cbn|by apply rejects_lit; vm_compute].
  change (34 :: x) with (DQ ++ x). lit_step. destruct (startsWith t x); [|done]. f_equal.
  unfold last_char. clear. induction x as [|a x IH] using rev_ind; [done|].
  by rewrite app_comm_cons, last_snoc, List.last_last.
Qed.

Lemma mtch_time_call r prev f z x t c :
  plain z = true → z ≠ [] →
  mtch (Seq (Grp 1 time_func_re) (Seq (lit_re ("(" ++ DQ)) (Seq (Grp 2 (Plus (none_of DQ)))
    (Seq (lit_re (DQ ++ x)) r)))) prev (tfn f z t) c k =
  if startsWith (41 :: t) x
  then mtch r (Some (List.last x 34)) (drop (length x) (41 :: t)) ((2, z) :: (1, tf_text f) :: c)%nat k
  else None.
Proof.
  intros Hz Hne. unfold tfn.
  change (tf_text f ++ [40; 34] ++ z ++ [34; 41] ++ t)
    with (tf_text f ++ 40 :: (34 :: z ++ 34 :: 41 :: t)).
  rewrite mtch_time_func. exact (mtch_quoted 2 r _ z x (41 :: t) _ Hz Hne).
Qed.

(** A captured number, up to a character that cannot continue it. *)
Lemma mtch_number i r prev v t c :
  is_numeric v = true → starts_out is_num_char t →
  rejects is_num_char (λ p s c, mtch r p s c k) →
  mtch (Seq (Grp i (Plus num_chars)) r) prev (v ++ t) c k =
  mtch r (last_char prev v) t ((i, v) :: c) k.
Proof. intros [Hv Hne]%is_numeric_chars. by apply mtch_grp_plus. Qed.

(** Other characters at the front are no time function. *)
Lemma mtch_time_func_none i r prev s c :
  (∀ f, startsWith s (tf_text f) = false) →
  mtch (Seq (Grp i time_func_re) r) prev s c k = None.
Proof.
  intros H. unfold time_func_re. rewrite mtch_grp_alts. apply choose_none.
  intros w' (g & -> & _)%list_elem_of_fmap. apply H.
Qed.
End Forward.

(** The text of a comparison. *)
Definition cmp_text (f : TimeFunc) (z op v : jsstr) : jsstr := tfn f z (" " ++ op ++ " " ++ v).

(** The two comparisons of a range. *)
Definition range_text (f : TimeFunc) (z s op e : jsstr) : jsstr :=
  cmp_text f z ">=" s ++ " " ++ op ++ " " ++ cmp_text f z "<" e.

Lemma tfn_app f z t u : tfn f z t ++ u = tfn f z (t ++ u).
Proof. unfold tfn. by rewrite <- !app_assoc. Qed.

Lemma re_match_none r s : mtch r None s [] (λ _ _ c, Some c) = None → re_match (Seq Bol r) s = None.
Proof. by rewrite re_match_anchored. Qed.

(** The comparison pattern on a comparison followed by [t]. *)
Lemma time_cmp_fwd f z op v t :
  plain z = true → z ≠ [] → op ∈ ["=="; ">="; "<"] → is_numeric v = true → starts_out is_num_char t →
  re_match time_cmp_regex (cmp_text f z op v ++ t) =
  match t with
  | [] => Some [(4, v); (3, op); (2, z); (1, tf_text f)]%nat
  | _ => None
  end.
Proof.
  intros Hz Hne Hop Hv Ht. unfold time_cmp_regex, cmp_text. cbn [seqs fold_right].
  rewrite re_match_anchored, tfn_app, mtch_time_call by done. lit_eval.
  rewrite mtch_grp_alts.
  assert (∀ p c, mtch (Seq (lit_re " ") (Seq (Grp 4 (Plus num_chars)) (Seq Eol Eps))) p
      (32 :: v ++ t) c (λ _ _ c, Some c) = match t with [] => Some ((4%nat, v) :: c) | _ => None end) as Hend.
  { intros p c. lit_step. rewrite mtch_number by (done || apply rejects_eol).
    by destruct t. }
  repeat (apply elem_of_cons in Hop as [->|Hop]); [..|set_solver];
    cbn [choose app]; lit_eval; rewrite Hend; by destruct t.
Qed.

(** The range pattern after its first bound. *)
Definition range_second (tl : list re) : re :=
  seqs ([Back 1; lit_re ("(" ++ DQ); Back 2; lit_re (DQ ++ ") < "); Grp 5 (Plus num_chars)] ++ tl).

Section Range.
Context {R : Type} (k : option N → jsstr → caps → option R) (tl : list re).

Lemma range_fwd f z v op u p c :
  plain z = true → z ≠ [] → is_numeric v = true → op ∈ ["&&"; "||"] →
  ∃ p', mtch (seqs (time_range_parts ++ tl)) p (cmp_text f z ">=" v ++ " " ++ op ++ " " ++ u) c k =
    mtch (range_second tl) p' u ((4, op) :: (3, v) :: (2, z) :: (1, tf_text f) :: c)%nat k.
Proof.
  intros Hz Hne Hv Hop. unfold time_range_parts, cmp_text. cbn [seqs fold_right app].
  rewrite tfn_app, mtch_time_call by done. lit_eval.
  rewrite mtch_number; [|done| |by apply rejects_lit; vm_compute].
  2:{ by vm_compute. }
  lit_step. rewrite mtch_grp_alts.
  repeat (apply elem_of_cons in Hop as [->|Hop]); [..|set_solver];
    cbn [choose app]; lit_eval; lit_step; rewrite ?option_or_none; by eexists.
Qed.

(** A bound that is not a lower one, or that nothing follows. *)
Lemma range_fwd_none f z op v t p c :
  plain z = true → z ≠ [] → op ∈ ["=="; "<"] ∨ op = ">=" ∧ t = [] → is_numeric v = true →
  mtch (seqs (time_range_parts ++ tl)) p (cmp_text f z op v ++ t) c k = None.
Proof.
  intros Hz Hne Hop Hv. unfold time_range_parts, cmp_text. cbn [seqs fold_right app].
  rewrite tfn_app, mtch_time_call by done.
  destruct Hop as [Hop|[-> ->]].
  - repeat (apply elem_of_cons in Hop as [->|Hop]); [..|set_solver]; by lit_eval.
  - lit_eval. rewrite mtch_number; [|done|done|by apply rejects_lit; vm_compute]. by lit_step.
Qed.

Lemma startsWith_quoted z z2 t :
  plain z = true → plain z2 = true →
  startsWith (z2 ++ 34 :: t) z = true → startsWith (drop (length z) (z2 ++ 34 :: t)) [34] = true →
  z2 = z.
Proof.
  revert z2. induction z as [|a z IH]; intros [|b z2];
    cbn [startsWith drop length app plain forallb]; intros Hz Hz2 Hs Hd; [done|..];
    apply andb_true_iff in Hz as [Ha Hz] || clear Hz;
    apply andb_true_iff in Hs as [->%N.eqb_eq Hs] || clear Hs.
  - apply andb_true_iff in Hd as [<-%N.eqb_eq _]. by vm_compute in Hz2.
  - by vm_compute in Ha.
  - apply andb_true_iff in Hz2 as [_ Hz2]. f_equal. by apply IH.
Qed.

Lemma range_second_fwd f z f2 z2 op v t p c :
  plain z = true → plain z2 = true → op ∈ ["=="; ">="; "<"] → is_numeric v = true →
  cap c 1 = Some (tf_text f) → cap c 2 = Some z →
  starts_out is_num_char t → rejects is_num_char (λ p s c, mtch (seqs tl) p s c k) →
  ∃ p', mtch (range_second tl) p (cmp_text f2 z2 op v ++ t) c k =
    if bool_decide (f2 = f ∧ z2 = z ∧ op = "<")
    then mtch (seqs tl) p' t ((5%nat, v) :: c) k else None.
Proof.
  intros Hz Hz2 Hop Hv H1 H2 Ht Htl. unfold range_second, cmp_text. cbn [seqs fold_right app].
  rewrite tfn_app. erewrite mtch_back by done.
  destruct (decide (f2 = f)) as [->|Hf].
  2:{ rewrite bool_decide_eq_false_2 by tauto. exists None. by destruct f, f2. }
  unfold tfn. rewrite startsWith_app, drop_app_length. lit_step.
  erewrite mtch_back by done.
  destruct (decide (z2 = z)) as [->|Hne].
  - rewrite startsWith_app, drop_app_length. lit_step.
    repeat (apply elem_of_cons in Hop as [->|Hop]); [..|set_solver]; lit_eval.
    + by exists None; rewrite bool_decide_eq_false_2 by (intros [_ [_ ?]]; done).
    + by exists None; rewrite bool_decide_eq_false_2 by (intros [_ [_ ?]]; done).
    + rewrite bool_decide_eq_true_2 by done. rewrite mtch_number by done. by eexists.
  - rewrite bool_decide_eq_false_2 by tauto. exists None.
    destruct (startsWith (z2 ++ _) z) eqn:E; [|done].
    rewrite mtch_seq_lit. destruct (startsWith (drop _ _) _) eqn:E2; [|done].
    destruct Hne. eapply startsWith_quoted; [done|done|exact E|].
    revert E2. cbn [app DQ]. destruct (drop (length z) _) as [|y r]; [done|].
    cbn [startsWith]. intros [-> _]%andb_true_iff. by rewrite startsWith_nil.
Qed.
End Range.

Lemma range_second_eol f z f2 z2 op v t p c :
  plain z = true → plain z2 = true → op ∈ ["=="; ">="; "<"] → is_numeric v = true →
  starts_out is_num_char t → cap c 1 = Some (tf_text f) → cap c 2 = Some z →
  mtch (range_second [Eol]) p (cmp_text f2 z2 op v ++ t) c (λ _ _ c, Some c) =
  if bool_decide (f2 = f ∧ z2 = z ∧ op = "<")
  then match t with [] => Some ((5%nat, v) :: c) | _ => None end else None.
Proof.
  intros. destruct (range_second_fwd (λ _ _ c, Some c) [Eol] f z f2 z2 op v t p c) as [p' ->];
    auto using rejects_eol. by destruct t.
Qed.

Lemma range_second_paren f z f2 z2 op v t p c :
  plain z = true → plain z2 = true → op ∈ ["=="; ">="; "<"] → is_numeric v = true →
  cap c 1 = Some (tf_text f) → cap c 2 = Some z →
  mtch (range_second [lit_re ")"; Eol]) p (cmp_text f2 z2 op v ++ ")" ++ t) c (λ _ _ c, Some c) =
  if bool_decide (f2 = f ∧ z2 = z ∧ op = "<")
  then match t with [] => Some ((5%nat, v) :: c) | _ => None end else None.
Proof.
  intros. destruct (range_second_fwd (λ _ _ c, Some c) [lit_re ")"; Eol] f z f2 z2 op v (")" ++ t) p c)
    as [p' ->]; auto.
  - done.
  - by apply rejects_lit.
Qed.

Lemma range_regex_eq s :
  re_match time_range_regex s = mtch (seqs (time_range_parts ++ [Eol])) None s [] (λ _ _ c, Some c).
Proof. apply (re_match_anchored (seqs (time_range_parts ++ [Eol]))). Qed.

Lemma range_paren_regex_eq s :
  re_match time_range_paren_regex s =
  if startsWith s "(" then
    mtch (seqs (time_range_parts ++ [lit_re ")"; Eol])) (Some 40) (drop 1 s) [] (λ _ _ c, Some c)
  else None.
Proof.
  unfold time_range_paren_regex. cbn [seqs fold_right]. rewrite re_match_anchored.
  rewrite mtch_seq_lit. done.
Qed.

Lemma tfn_no_paren f z t : startsWith (tfn f z t) "(" = false.
Proof. by destruct f. Qed.

Lemma tf_of_text_tf f : tf_of_text (tf_text f) = Some f.
Proof. by destruct f. Qed.

Lemma parse_time_cmp f z op v :
  plain z = true → z ≠ [] → op ∈ ["=="; ">="; "<"] → is_numeric v = true →
  tryParseTimeCondition (cmp_text f z op v) = Some (TimeCondition f z (time_op_mode op) v "" "").
Proof.
  intros Hz Hne Hop Hv. unfold tryParseTimeCondition.
  rewrite range_regex_eq, range_paren_regex_eq. unfold cmp_text at 2. rewrite tfn_no_paren.
  rewrite <- (app_nil_r (cmp_text _ _ _ _)), range_fwd_none by (try set_solver).
  rewrite time_cmp_fwd by done. cbn -[tf_of_text]. by rewrite tf_of_text_tf.
Qed.

Lemma range_op_in s e : range_op s e ∈ ["&&"; "||"].
Proof. unfold range_op. case_match; set_solver. Qed.

Lemma parse_time_range f z s e :
  plain z = true → z ≠ [] → is_numeric s = true → is_numeric e = true →
  tryParseTimeCondition (range_text f z s (range_op s e) e) = Some (TimeCondition f z MATCH_RANGE "" s e).
Proof.
  intros Hz Hne Hs He. unfold tryParseTimeCondition. rewrite range_regex_eq. unfold range_text.
  destruct (range_fwd (λ _ _ c, Some c) [Eol] f z s (range_op s e) (cmp_text f z "<" e) None []) as [p ->];
    auto using range_op_in.
  rewrite <- (app_nil_r (cmp_text _ _ _ _)).
  rewrite (range_second_eol f z) by (done || set_solver).
  rewrite bool_decide_eq_true_2 by done. cbn -[is_numeric range_op str_eqb tf_of_text].
  rewrite Hs, He, (proj2 (str_eqb_spec _ _)) by done. by rewrite tf_of_text_tf.
Qed.

Lemma parse_time_range_paren f z s e :
  plain z = true → z ≠ [] → is_numeric s = true → is_numeric e = true →
  tryParseTimeCondition ("(" ++ range_text f z s (range_op s e) e ++ ")") =
  Some (TimeCondition f z MATCH_RANGE "" s e).
Proof.
  intros Hz Hne Hs He. unfold tryParseTimeCondition. rewrite range_regex_eq.
  unfold time_range_parts at 1. cbn [seqs fold_right app].
  rewrite mtch_time_func_none by (by intros []). rewrite range_paren_regex_eq. lit_eval.
  unfold range_text. rewrite <- !app_assoc.
  destruct (range_fwd (λ _ _ c, Some c) [lit_re ")"; Eol] f z s (range_op s e)
    (cmp_text f z "<" e ++ ")") (Some 40) []) as [p ->]; auto using range_op_in.
  change ")" with (")" ++ []) at 2. rewrite (range_second_paren f z) by (done || set_solver).
  rewrite bool_decide_eq_true_2 by done. cbn -[is_numeric range_op str_eqb tf_of_text].
  rewrite Hs, He, (proj2 (str_eqb_spec _ _)) by done. by rewrite tf_of_text_tf.
Qed.

(** ** Reading a parameter or header condition *)

(** A call of [param] or [header] on a path, followed by [t]. *)
Definition phn (s : PHSource) (path t : jsstr) : jsstr :=
  ph_text s ++ [40; 34] ++ path ++ [34] ++ t.

Section Named.
Context {R : Type} (k : option N → jsstr → caps → option R).

(** A known prefix, a captured name between quotes, a known suffix. *)
Lemma mtch_named w r prev p x t c :
  plain p = true → p ≠ [] →
  mtch (Seq (lit_re (w ++ DQ)) (Seq (Grp 1 (Plus (none_of DQ))) (Seq (lit_re (DQ ++ x)) r)))
    prev (w ++ [34] ++ p ++ [34] ++ t) c k =
  if startsWith t x
  then mtch r (Some (List.last x 34)) (drop (length x) t) ((1%nat, p) :: c) k else None.
Proof.
  intros Hp Hne. rewrite mtch_seq_lit, (app_assoc w [34]), startsWith_app, drop_app_length.
  unfold none_of.
  rewrite mtch_grp_plus; [|by apply plain_no_quote|done|by cbn|by apply rejects_lit; vm_compute].
  lit_step. destruct (startsWith t x); [|done]. f_equal.
  unfold last_char. clear. induction x as [|a x IH] using rev_ind; [done|].
  by rewrite app_comm_cons, last_snoc, List.last_last.
Qed.
End Named.

Lemma parse_time_none s :
  (∀ f, startsWith s (tf_text f) = false) → startsWith s "(" = false → tryParseTimeCondition s = None.
Proof.
  intros Hs Hp. unfold tryParseTimeCondition. rewrite range_regex_eq, range_paren_regex_eq, Hp.
  unfold time_range_parts, time_cmp_regex. cbn [seqs fold_right app].
  rewrite re_match_anchored, !mtch_time_func_none by done. done.
Qed.

Lemma re_match_lit_fail w r s : startsWith s w = false → re_match (seqs (Bol :: lit_re w :: r)) s = None.
Proof. intros H. cbn [seqs fold_right]. by rewrite re_match_anchored, mtch_seq_lit, H. Qed.

Lemma re_match_named w p x t r :
  plain p = true → p ≠ [] →
  re_match (seqs (Bol :: lit_re (w ++ DQ) :: Grp 1 (Plus (none_of DQ)) :: lit_re (DQ ++ x) :: r))
    (w ++ [34] ++ p ++ [34] ++ t) =
  if startsWith t x
  then mtch (seqs r) (Some (List.last x 34)) (drop (length x) t) [(1%nat, p)] (λ _ _ c, Some c) else None.
Proof.
  intros Hp Hne. cbn [seqs fold_right]. rewrite re_match_anchored. by apply mtch_named.
Qed.

Lemma phn_header p t : phn header p t = "header(" ++ [34] ++ p ++ [34] ++ t.
Proof. done. Qed.
Lemma phn_param p t : phn param p t = "param(" ++ [34] ++ p ++ [34] ++ t.
Proof. done. Qed.

Lemma has_header p t : "has(" ++ phn header p t = "has(header(" ++ [34] ++ p ++ [34] ++ t.
Proof. done. Qed.

(** Evaluates the patterns of [tryParseRequestCondition] on a condition text
    up to the one that matches. *)
Ltac cond_fwd :=
  unfold tryParseRequestCondition; rewrite parse_time_none by (try intros []; done);
  unfold header_exists_regex, param_exists_regex, header_has_regex, param_has_regex, param_cmp_regex;
  repeat (rewrite re_match_lit_fail by done; cbv iota);
  rewrite ?phn_header, ?phn_param.

Lemma parse_header_exists p :
  plain p = true → p ≠ [] →
  tryParseRequestCondition (phn header p (") != " ++ DQ ++ DQ)) =
  Ret (Some (ParamHeaderCondition header p MATCH_EXISTS "")).
Proof. intros Hp Hne. cond_fwd. by rewrite (re_match_named "header(") by done. Qed.

Lemma parse_param_exists p :
  plain p = true → p ≠ [] →
  tryParseRequestCondition (phn param p ") != nil") =
  Ret (Some (ParamHeaderCondition param p MATCH_EXISTS "")).
Proof. intros Hp Hne. cond_fwd. by rewrite (re_match_named "param(") by done. Qed.

(** A quoted plain text followed by more. *)
Lemma mtch_quoted_re i r prev v t c x :
  plain v = true →
  mtch r (Some 34) t ((i, DQ ++ v ++ DQ) :: c) (λ _ _ c, Some c) = Some x →
  mtch (Seq (Grp i quoted_re) r) prev (34 :: v ++ 34 :: t) c (λ _ _ c, Some c) = Some x.
Proof.
  intros Hv Hx. rewrite mtch_seq, mtch_grp. unfold quoted_re. cbn [seqs fold_right].
  change (34 :: v ++ 34 :: t) with (DQ ++ v ++ DQ ++ t).
  assert (take (length (DQ ++ v ++ DQ ++ t) - length t) (DQ ++ v ++ DQ ++ t) = DQ ++ v ++ DQ) as Ht.
  { rewrite (app_assoc v), (app_assoc DQ). apply take_app_sub. }
  set (u := DQ ++ v ++ DQ ++ t) in *.
  match goal with |- mtch ?q ?p u ?c ?k = _ => change (mtch q p (DQ ++ v ++ DQ ++ t) c k = Some x) end.
  rewrite mtch_seq_lit. cbn [startsWith app DQ N.eqb Pos.eqb andb drop length].
  rewrite startsWith_nil, drop_0, mtch_seq. unfold none_of.
  apply (mtch_star_alt _ _ _ v (34 :: t)); [done| |done| |].
  - revert Hv. apply forallb_impl. intros y Hy. unfold plain_char in Hy. bool_hyps. bool_goal. set_solver.
  - intros. by lit_step.
  - lit_step. cbn [mtch]. by rewrite Ht.
Qed.

Lemma parse_header_contains p v :
  plain p = true → p ≠ [] → plain v = true →
  tryParseRequestCondition ("has(" ++ phn header p ("), " ++ quote v ++ ")")) =
  Ret (Some (ParamHeaderCondition header p MATCH_CONTAINS v)).
Proof.
  intros Hp Hne Hv. rewrite has_header, quote_plain by done. cond_fwd.
  rewrite (re_match_named "has(header(" p "), ") by done. lit_eval. cbn [seqs fold_right].
  rewrite <- !app_assoc. cbn [app DQ].
  rewrite (mtch_quoted_re _ _ _ _ _ _ [(2, DQ ++ v ++ DQ); (1, p)]%nat); [|done..].
  unfold json_text. cbn -[JSON_parse app]. by rewrite JSON_parse_quoted.
Qed.

(** The text of a literal, and the value it is read as. *)
Lemma parse_built_literal v :
  plain v = true → trimmed v = true → parseExprLiteral (buildExprLiteral MATCH_EQ v) = VStr v.
Proof.
  intros Hv Ht. unfold buildExprLiteral. rewrite (trim_id v) by done. cbn [str_eqb].
  rewrite (proj2 (str_eqb_neq MATCH_EQ MATCH_CONTAINS)) by done.
  destruct (str_eqb v "true" || str_eqb v "false") eqn:E1.
  { unfold parseExprLiteral. by rewrite (trim_id v), E1. }
  destruct (is_numeric v) eqn:E2.
  { unfold parseExprLiteral. by rewrite (trim_id v), E1, E2. }
  rewrite quote_plain by done. unfold parseExprLiteral.
  assert (trim (DQ ++ v ++ DQ) = DQ ++ v ++ DQ) as ->.
  { apply trim_id. unfold trimmed. unfold DQ. by rewrite app_assoc, last_snoc. }
  rewrite !(proj2 (str_eqb_neq (DQ ++ _) _)) by done. cbn [orb].
  destruct (is_numeric (DQ ++ v ++ DQ)) eqn:E3.
  { apply is_numeric_chars in E3 as [E3 _]. by vm_compute in E3. }
  by rewrite JSON_parse_quoted.
Qed.

Lemma built_literal_any v :
  plain v = true → trimmed v = true →
  forallb (λ a, negb (is_line_terminator a)) (buildExprLiteral MATCH_EQ v) = true ∧
  buildExprLiteral MATCH_EQ v ≠ [].
Proof.
  intros Hv Ht. unfold buildExprLiteral. rewrite (trim_id v) by done.
  rewrite (proj2 (str_eqb_neq MATCH_EQ MATCH_CONTAINS)) by done.
  assert (forallb (λ a, negb (is_line_terminator a)) v = true) as Hl.
  { revert Hv. apply forallb_impl. intros y Hy. unfold plain_char in Hy. bool_hyps. by bool_goal. }
  destruct (str_eqb v "true" || str_eqb v "false") eqn:E1.
  { split; [done|]. by intros ->. }
  destruct (is_numeric v) eqn:E2.
  { split; [done|]. by intros ->. }
  rewrite quote_plain by done. split; [|done]. rewrite !forallb_app, Hl. done.
Qed.

Lemma parse_eq s p v :
  plain p = true → p ≠ [] → plain v = true → trimmed v = true →
  tryParseRequestCondition (phn s p (") == " ++ buildExprLiteral MATCH_EQ v)) =
  Ret (Some (ParamHeaderCondition s p MATCH_EQ v)).
Proof.
  intros Hp Hne Hv Ht. destruct (built_literal_any v Hv Ht) as [Ha Hl].
  assert (re_match eq_regex (phn s p (") == " ++ buildExprLiteral MATCH_EQ v)) =
    Some [(3, buildExprLiteral MATCH_EQ v); (2, p); (1, ph_text s)]%nat) as Heq.
  { unfold eq_regex, phn. cbn [seqs fold_right]. rewrite re_match_anchored, mtch_grp_alts.
    assert (∀ pr, mtch (Seq (lit_re ("(" ++ DQ)) (Seq (Grp 2 (Plus (none_of DQ)))
        (Seq (lit_re (DQ ++ ") == ")) (Seq (Grp 3 (Plus any)) (Seq Eol Eps))))) pr
        ([40; 34] ++ p ++ [34] ++ ") == " ++ buildExprLiteral MATCH_EQ v) [(1%nat, ph_text s)]
        (λ _ _ c, Some c) = Some [(3, buildExprLiteral MATCH_EQ v); (2, p); (1, ph_text s)]%nat) as H.
    { intros pr. rewrite mtch_quoted by done. lit_eval. unfold any.
      rewrite <- (app_nil_r (buildExprLiteral _ _)) at 1.
      rewrite mtch_grp_plus by (done || apply rejects_eol). done. }
    destruct s; cbn [choose ph_text] in *; lit_eval; by rewrite H. }
  unfold tryParseRequestCondition. rewrite parse_time_none by (destruct s; try intros []; done).
  unfold header_exists_regex, param_exists_regex, header_has_regex, param_has_regex, param_cmp_regex.
  rewrite Heq. unfold grp. cbn [cap Nat.eqb from_option id]. rewrite parse_built_literal by done.
  destruct s; rewrite ?phn_header, ?phn_param;
  repeat (rewrite re_match_lit_fail by done; cbv iota);
  rewrite ?(re_match_named "header("), ?(re_match_named "param(") by done; lit_eval;
  repeat (rewrite re_match_lit_fail by done; cbv iota);
  rewrite ?(re_match_named "header("), ?(re_match_named "param(") by done; lit_eval; try done.
Qed.

(** ** Splitting at the top level *)

(** The depth after [s], starting at [d]; [None] when the character [x]
    occurs at depth zero. *)
Fixpoint level (x : N) (d : Z) (s : jsstr) : option Z :=
  match s with
  | [] => Some d
  | c :: s' =>
    let d1 := if c =? 40 then (d + 1)%Z else d in
    let d2 := if c =? 41 then (d1 - 1)%Z else d1 in
    if (d2 =? 0)%Z && (c =? x) then None else level x d2 s'
  end.

Lemma level_app x d s t : level x d (s ++ t) = d' ← level x d s; level x d' t.
Proof.
  revert d. induction s as [|c s IH]; intros d; [done|]. cbn [app level].
  destruct (_ && _); [done|]. apply IH.
Qed.

(** Characters that do not matter to [level] at depth [d]. *)
Definition inert (x : N) (d : Z) (c : N) : bool :=
  negb (c =? 40) && negb (c =? 41) && (negb (d =? 0)%Z || negb (c =? x)).

Lemma level_inert x d s : forallb (inert x d) s = true → level x d s = Some d.
Proof.
  unfold inert. induction s as [|c s IH]; cbn [forallb level]; [done|]. intros. bool_hyps.
  rewrite H, H2. apply orb_true_iff in H1 as [->%negb_true_iff| ->%negb_true_iff];
    rewrite ?andb_false_r; auto.
Qed.

Section SplitTop.
Context (x : N) (w : jsstr).
Hypothesis Hx : x ≠ 40 /\ x ≠ 41 /\ x ≠ 32.
Local Abbreviation sep := (32 :: x :: w).

(** Text without the separator at depth zero goes to the current part; what
    follows must not complete a separator begun in it. *)
Lemma split_top_level d d' cur s t :
  level x d s = Some d' → match t with c :: _ => c ≠ x | [] => True end →
  split_top sep d 0 cur (s ++ t) = split_top sep d' 0 (reverse s ++ cur) t.
Proof.
  intros Hs Ht. revert d cur Hs. induction s as [|c s IH]; intros d cur Hs; [by simplify_eq/=|].
  cbn [app level split_top] in *.
  set (d2 := if c =? 41 then _ else _) in *.
  destruct ((d2 =? 0)%Z && (c =? x)) eqn:E; [done|].
  rewrite reverse_cons, <- app_assoc.
  assert ((d2 =? 0)%Z && startsWith (c :: s ++ t) sep = false) as ->; [|by apply IH].
  destruct (d2 =? 0)%Z eqn:Ed; [|done]. cbn [andb startsWith] in *.
  destruct (32 =? c) eqn:Ec; [|done]. cbn [andb].
  destruct s as [|c' s]; cbn [app].
  - destruct t as [|b t]; [done|]. cbn [startsWith]. apply N.eqb_neq in Ht. by rewrite N.eqb_sym, Ht.
  - cbn [startsWith]. destruct (x =? c') eqn:Ex; [|done]. apply N.eqb_eq in Ex as <-.
    destruct Hx as (H1 & H2 & H3).
    cbn [level] in Hs. rewrite (proj2 (N.eqb_neq x 40)), (proj2 (N.eqb_neq x 41)), N.eqb_refl in Hs by done.
    by rewrite Ed in Hs.
Qed.

Lemma split_top_skip d cur u t : split_top sep d (length u) cur (u ++ t) = split_top sep d 0 cur t.
Proof. induction u as [|c u IH]; [done|]. exact IH. Qed.

Lemma split_top_sep cur t :
  split_top sep 0 0 cur (sep ++ t) = trim (reverse cur) :: split_top sep 0 0 [] t.
Proof.
  cbn [app split_top N.eqb Pos.eqb]. rewrite (startsWith_app sep t : startsWith (32 :: x :: w ++ t) sep = true).
  cbn. f_equal. apply (split_top_skip 0 [] (x :: w)).
Qed.

Lemma split_top_join ps :
  ps ≠ [] → Forall (λ p, level x 0 p = Some 0%Z ∧ trimmed p = true) ps →
  split_top sep 0 0 [] (join sep ps) = ps.
Proof.
  induction ps as [|p [|q ps] IH]; intros Hne Hps; [done|..]; apply Forall_cons in Hps as [[Hl Ht] Hps].
  - cbn [join]. rewrite <- (app_nil_r p) at 1. erewrite split_top_level by done.
    cbn. by rewrite app_nil_r, reverse_involutive, trim_id.
  - change (join sep (p :: q :: ps)) with (p ++ sep ++ join sep (q :: ps)).
    erewrite split_top_level; [|done|cbn; naive_solver].
    rewrite split_top_sep, app_nil_r, reverse_involutive, trim_id by done. f_equal. by apply IH.
Qed.
End SplitTop.

Lemma splitTopLevelAnd_join ps :
  ps ≠ [] → Forall (λ p, (level 38 0 p = Some 0%Z ∧ trimmed p = true) ∧ p ≠ []) ps →
  splitTopLevelAnd (join " && " ps) = ps.
Proof.
  intros Hne H. unfold splitTopLevelAnd. rewrite split_top_join; [|done..|eapply Forall_impl; [exact H|by intros ? [? _]]].
  apply list_filter_all. intros p Hp. rewrite Forall_forall in H. by apply nonempty_spec, H.
Qed.

Lemma splitTopLevelMultiply_join ps :
  ps ≠ [] → Forall (λ p, (level 42 0 p = Some 0%Z ∧ trimmed p = true) ∧ p ≠ []) ps →
  splitTopLevelMultiply (join " * " ps) = ps.
Proof.
  intros Hne H. unfold splitTopLevelMultiply. rewrite split_top_join; [|done..|eapply Forall_impl; [exact H|by intros ? [? _]]].
  apply list_filter_all. intros p Hp. rewrite Forall_forall in H. by apply nonempty_spec, H.
Qed.

(** ** Conditions the editor can write and read back *)

(** Paths, zones and values are made of plain characters; a comparison with a
    number has a number; the modes are those whose text has one part, or is a
    range. *)
Definition wf_cond (c : RequestCondition) : bool :=
  match c with
  | ParamHeaderCondition s p m v =>
    plain p && trimmed p && nonempty p &&
    (if str_eqb m MATCH_EXISTS then str_eqb v ""
     else if str_eqb m MATCH_CONTAINS
     then match s with header => true | param => false end && plain v && trimmed v
     else str_eqb m MATCH_EQ && plain v && trimmed v)
  | TimeCondition f z m v s e =>
    plain z && nonempty z &&
    (if str_eqb m MATCH_RANGE then str_eqb v "" && is_numeric s && is_numeric e
     else bool_decide (m ∈ [MATCH_EQ; MATCH_GTE; MATCH_LT]) && is_numeric v && str_eqb s "" && str_eqb e "")
  end.

(** The well-formed conditions, form by form. *)
Inductive wf_form : RequestCondition → Prop :=
  | wf_exists s p : plain p = true → trimmed p = true → p ≠ [] →
      wf_form (ParamHeaderCondition s p MATCH_EXISTS "")
  | wf_contains p v : plain p = true → trimmed p = true → p ≠ [] → plain v = true → trimmed v = true →
      wf_form (ParamHeaderCondition header p MATCH_CONTAINS v)
  | wf_eq s p v : plain p = true → trimmed p = true → p ≠ [] → plain v = true → trimmed v = true →
      wf_form (ParamHeaderCondition s p MATCH_EQ v)
  | wf_range f z s e : plain z = true → z ≠ [] → is_numeric s = true → is_numeric e = true →
      wf_form (TimeCondition f z MATCH_RANGE "" s e)
  | wf_cmp f z op v : plain z = true → z ≠ [] → op ∈ ["=="; ">="; "<"] → is_numeric v = true →
      wf_form (TimeCondition f z (time_op_mode op) v "" "").

Lemma wf_cond_form c : wf_cond c = true → wf_form c.
Proof.
  destruct c as [s p m v|f z m v s e]; cbn [wf_cond]; intros H; bool_hyps;
    repeat match goal with H : nonempty _ = true |- _ => apply nonempty_spec in H end.
  - destruct (str_eqb m MATCH_EXISTS) eqn:E1.
    { apply str_eqb_spec in E1 as ->. apply str_eqb_spec in H0 as ->. by constructor. }
    destruct (str_eqb m MATCH_CONTAINS) eqn:E2; bool_hyps.
    { apply str_eqb_spec in E2 as ->. destruct s; [done|]. by constructor. }
    apply str_eqb_spec in H0 as ->. by constructor.
  - destruct (str_eqb m MATCH_RANGE) eqn:E1; bool_hyps;
      repeat match goal with H : str_eqb _ _ = true |- _ => apply str_eqb_spec in H as -> end;
      [by constructor|].
    repeat match goal with H : m ∈ _ |- _ => apply elem_of_cons in H as [->|H] end; [..|set_solver].
    + by apply (wf_cmp f z "==" v); [..|set_solver|].
    + by apply (wf_cmp f z ">=" v); [..|set_solver|].
    + by apply (wf_cmp f z "<" v); [..|set_solver|].
Qed.

(** Normalising a well-formed condition changes nothing. *)
Lemma normalize_wf c : wf_form c → normalizeCondition (cond_value c) = c.
Proof.
  destruct 1 as [s p Hp Ht Hne|p v Hp Ht Hne Hv Htv|s p v Hp Ht Hne Hv Htv|f z s e Hz Hne Hs He
    |f z op v Hz Hne Hop Hv].
  1-3: destruct p as [|a p]; [done|]; try destruct s; done.
  - destruct z as [|a z]; [done|]. by destruct f.
  - destruct z as [|a z]; [done|].
    repeat (apply elem_of_cons in Hop as [->|Hop]); [..|set_solver]; by destruct f.
Qed.

(** The text the builder writes for each form. *)
Definition cond_text (c : RequestCondition) : jsstr :=
  match c with
  | ParamHeaderCondition s p m v =>
    if str_eqb m MATCH_EXISTS
    then phn s p (match s with header => ") != " ++ DQ ++ DQ | param => ") != nil" end)
    else if str_eqb m MATCH_CONTAINS then "has(" ++ phn header p ("), " ++ quote v ++ ")")
    else phn s p (") == " ++ buildExprLiteral MATCH_EQ v)
  | TimeCondition f z m v s e =>
    if str_eqb m MATCH_RANGE then range_text f z s (range_op s e) e
    else cmp_text f z (time_mode_op m) v
  end.

Lemma quote_app p t : plain p = true → quote p ++ t = [34] ++ p ++ [34] ++ t.
Proof. intros. rewrite quote_plain by done. unfold DQ. by rewrite <- !app_assoc. Qed.

Lemma build_text c : wf_form c → buildRequestConditionExpr c = cond_text c.
Proof.
  intros Hw. pose proof (normalize_wf c Hw) as Hn.
  destruct Hw as [s p Hp Ht Hne|p v Hp Ht Hne Hv Htv|s p v Hp Ht Hne Hv Htv|f z s e Hz Hne Hs He
    |f z op v Hz Hne Hop Hv]; unfold buildRequestConditionExpr, buildTimeConditionExpr; rewrite Hn.
  1-3: rewrite (trim_id p) by done; rewrite (proj2 (nonempty_spec p)) by done.
  - unfold cond_text. str_eval. destruct s; cbn [ph_text]; rewrite <- !app_assoc, quote_app by done; done.
  - unfold cond_text, buildExprLiteral. str_eval. rewrite (trim_id v) by done.
    cbn [ph_text]. rewrite <- !app_assoc, quote_app by done. done.
  - unfold cond_text. str_eval. change (is_cmp_mode MATCH_EQ) with false.
    destruct s; cbn [ph_text]; rewrite <- !app_assoc, quote_app by done; done.
  - rewrite !is_numeric_trim, Hs, He by done. unfold cond_text. str_eval. cbn [negb orb].
    rewrite <- !app_assoc, !quote_app by done. unfold range_text, cmp_text, tfn, range_op.
    destruct (num_ltb _ _); rewrite <- !app_assoc; done.
  - assert (str_eqb (time_op_mode op) MATCH_RANGE = false) as Hm.
    { repeat (apply elem_of_cons in Hop as [->|Hop]); [..|set_solver]; done. }
    unfold cond_text, cmp_text, tfn. rewrite Hm, (is_numeric_trim v), Hv by done. cbn [negb].
    rewrite <- !app_assoc, quote_app by done. done.
Qed.
End BillingExprFacts.
