(* ===== verification/BillingRoundTrip.v ===== *)
(** * Round trips of billing expressions

    The request rules the editor builds are read back as they were, and the
    two halves of a combined billing expression are split as they were
    combined.  The tests of parameters that the parser never reads back are part of
    the theorem on rules. *)

From S2P Require Import Prelude JsString JsRegExp JsNumber JsValue BillingExpr BillingExprFacts.
Local Open Scope N_scope.

Module BillingRoundTrip.
Import BillingExpr BillingExprFacts.

(** ** The conjuncts of a condition *)

(** The parts [splitTopLevelAnd] sees when the condition stands among others. *)
Definition parts (c : RequestCondition) : list jsstr :=
  match c with
  | TimeCondition f z m v s e =>
    if str_eqb m MATCH_RANGE then
      if num_ltb (Number_of_string e) (Number_of_string s)
      then ["(" ++ range_text f z s "||" e ++ ")"]
      else [cmp_text f z ">=" s; cmp_text f z "<" e]
    else [cond_text c]
  | ParamHeaderCondition _ _ _ _ => [cond_text c]
  end.

(** What the splitters need of a part. *)
Definition part_ok (p : jsstr) : Prop :=
  level 38 0 p = Some 0%Z ∧ level 42 1 p = Some 1%Z ∧ trimmed p = true ∧ p ≠ [].

Lemma plain_inert x d s :
  plain s = true → x = 38 ∨ d ≠ 0%Z → forallb (inert x d) s = true.
Proof.
  intros H Hx. revert H. apply forallb_impl. intros c Hc. unfold plain_char in Hc. bool_hyps.
  unfold inert. assert (c ≠ 40 ∧ c ≠ 41 ∧ c ≠ 38) as (? & ? & ?) by set_solver. lia.
Qed.

Lemma number_inert x d s :
  is_numeric s = true → x ∈ [38; 42] → forallb (inert x d) s = true.
Proof.
  intros [H _]%is_numeric_chars Hx. revert H. apply forallb_impl. intros c [Hd|Hc]%is_num_char_spec.
  - unfold is_digit in Hd. unfold inert. apply elem_of_cons in Hx as [->|Hx]; [lia|].
    apply elem_of_cons in Hx as [->|Hx]; [lia|set_solver].
  - unfold inert. repeat (apply elem_of_cons in Hx as [->|Hx]; [|try set_solver]);
      repeat (apply elem_of_cons in Hc as [->|Hc]; [try lia|]); set_solver.
Qed.

(** The two settings the levels are used in: splitting a conjunction at its
    top level, and splitting a product whose factors are in parentheses. *)
Definition setting (x : N) (d : Z) : Prop := x = 38 ∧ (0 <= d)%Z ∨ x = 42 ∧ (1 <= d)%Z.

(** Constant text that does not matter to [level]. *)
Ltac inert_const :=
  match goal with H : setting _ _ |- _ => destruct H as [[-> ?]|[-> ?]] end;
  cbn; unfold inert; cbn; by rewrite ?orb_true_r.


Lemma level_flat x d s t : forallb (inert x d) s = true → level x d (s ++ t) = level x d t.
Proof. intros H. by rewrite level_app, level_inert. Qed.

(** A quoted name in parentheses. *)
Lemma level_call x d z t :
  setting x d → plain z = true → level x d ([40; 34] ++ z ++ [34; 41] ++ t) = level x d t.
Proof.
  intros Hs Hz. assert ((d + 1 =? 0)%Z = false) as Hd by (destruct Hs as [[-> ?]|[-> ?]]; lia).
  destruct Hs as [[-> ?]|[-> ?]]; cbn [app level N.eqb Pos.eqb]; rewrite Hd; cbn [andb];
    rewrite level_flat by (apply plain_inert; [done|right; lia]);
    cbn [app level N.eqb Pos.eqb]; rewrite Hd, !andb_false_r;
    by replace (d + 1 - 1)%Z with d by lia.
Qed.

Lemma setting_S x d : setting x d → setting x (d + 1).
Proof. unfold setting. lia. Qed.

(** Text in parentheses. *)
Lemma level_paren x d s t :
  (0 <= d)%Z → x ≠ 41 → level x (d + 1) s = Some (d + 1)%Z → level x d ("(" ++ s ++ ")" ++ t) = level x d t.
Proof.
  intros Hd Hx Hs. cbn [app level N.eqb Pos.eqb]. rewrite (proj2 (Z.eqb_neq (d + 1) 0)) by lia. cbn [andb].
  rewrite level_app, Hs. cbn [app mbind option_bind].
  change (level x (d + 1) (41 :: t)) with
    (if (d + 1 - 1 =? 0)%Z && (41 =? x) then None else level x (d + 1 - 1) t).
  rewrite (proj2 (N.eqb_neq 41 x)), andb_false_r by done. by replace (d + 1 - 1)%Z with d by lia.
Qed.

Lemma tf_text_inert x d f : setting x d → forallb (inert x d) (tf_text f) = true.
Proof. intros. destruct f; inert_const. Qed.

Lemma level_tfn x d f z t :
  setting x d → plain z = true → level x d (tfn f z t) = level x d t.
Proof. intros. unfold tfn. by rewrite level_flat, level_call by auto using tf_text_inert. Qed.

Lemma phn_app s p t u : phn s p t ++ u = phn s p (t ++ u).
Proof. unfold phn. by rewrite <- !app_assoc. Qed.

Lemma level_phn x d s p t :
  setting x d → plain p = true → level x d (phn s p (41 :: t)) = level x d t.
Proof.
  intros Hs Hp. unfold phn. rewrite level_flat, <- (level_call x d p t); [done..|].
  destruct s; inert_const.
Qed.

Lemma level_cmp x d f z op v t :
  setting x d → plain z = true → op ∈ ["=="; ">="; "<"] → is_numeric v = true →
  level x d (cmp_text f z op v ++ t) = level x d t.
Proof.
  intros Hs Hz Hop Hv. unfold cmp_text. rewrite tfn_app, level_tfn by done.
  rewrite level_flat; [done|]. rewrite !forallb_app, (number_inert x d v); [|done|].
  - repeat (apply elem_of_cons in Hop as [->|Hop]; [inert_const|]). set_solver.
  - destruct Hs as [[-> ?]|[-> ?]]; set_solver.
Qed.

(** A containment test on a parameter or header. *)
Lemma level_has x d s p v :
  setting x d → plain p = true → plain v = true →
  level x d ("has(" ++ phn s p ("), " ++ (DQ ++ v ++ DQ) ++ ")")) = Some d.
Proof.
  intros Hd Hp Hv.
  change ("has(" ++ phn s p ("), " ++ (DQ ++ v ++ DQ) ++ ")")) with
    ("has" ++ "(" ++ phn s p (41 :: ", " ++ (DQ ++ v ++ DQ) ++ ")")).
  rewrite (level_flat _ _ "has") by inert_const.
  assert (phn s p (41 :: ", " ++ (DQ ++ v ++ DQ) ++ ")") =
    phn s p (41 :: ", " ++ DQ ++ v ++ DQ) ++ ")" ++ []) as ->.
  { rewrite phn_app. cbn [app DQ]. by rewrite <- !app_assoc. }
  rewrite level_paren; [done|destruct Hd as [[-> ?]|[-> ?]]; lia..|].
  apply setting_S in Hd. rewrite level_phn by done. apply level_inert.
  rewrite !forallb_app, (plain_inert x (d + 1) v); [inert_const|done|].
  destruct Hd as [[-> ?]|[-> ?]]; [by left|right; lia].
Qed.

(** A comparison of a parameter with a number. *)
Lemma level_param_cmp x d s p op v :
  setting x d → plain p = true → op ∈ [">"; ">="; "<"; "<="] → is_numeric v = true →
  level x d (phn s p (") " ++ op ++ " " ++ v)) = Some d.
Proof.
  intros Hd Hp Hop Hv. etransitivity; [by apply (level_phn x d s p (" " ++ op ++ " " ++ v))|].
  apply level_inert. rewrite !forallb_app, (number_inert x d v); [|done|destruct Hd as [[-> ?]|[-> ?]]; set_solver].
  repeat (apply elem_of_cons in Hop as [->|Hop]; [inert_const|]). set_solver.
Qed.

Lemma number_trimmed v : is_numeric v = true → trimmed v = true ∧ v ≠ [].
Proof. intros [H1 H2]%is_numeric_chars. auto using no_ws_trimmed, num_chars_no_ws. Qed.

(** Text from a time function to an end that [trim] keeps. *)
Lemma cmp_trimmed f z op v : is_numeric v = true → trimmed (cmp_text f z op v) = true ∧ cmp_text f z op v ≠ [].
Proof.
  intros [Ht Hne]%number_trimmed. unfold cmp_text, tfn. rewrite !app_assoc.
  destruct f; (split; [|done]); by apply trimmed_between.
Qed.

Lemma phn_trimmed s p t : t ≠ [] → trimmed t = true → trimmed (phn s p t) = true ∧ phn s p t ≠ [].
Proof.
  intros Hne Ht. unfold phn. rewrite !app_assoc. destruct s; (split; [|done]); by apply trimmed_between.
Qed.

Lemma literal_ok x d v :
  setting x d → plain v = true → trimmed v = true →
  forallb (inert x d) (buildExprLiteral MATCH_EQ v) = true ∧ trimmed (buildExprLiteral MATCH_EQ v) = true.
Proof.
  intros Hs Hv Ht. unfold buildExprLiteral. str_eval. rewrite (trim_id v) by done.
  assert (forallb (inert x d) v = true) as Hi.
  { apply plain_inert; [done|]. destruct Hs as [[-> ?]|[-> ?]]; [by left|right; lia]. }
  destruct (_ || _); [done|]. destruct (is_numeric v); [done|].
  rewrite quote_plain by done. split.
  - rewrite !forallb_app, Hi. inert_const.
  - by apply (trimmed_between 34 v DQ).
Qed.

Lemma parts_ok c : wf_form c → Forall part_ok (parts c).
Proof.
  intros Hw.
  assert (Forall (λ p, (∀ x d, setting x d → level x d p = Some d) ∧ trimmed p = true ∧ p ≠ []) (parts c)) as H.
  2:{ eapply Forall_impl; [exact H|]. intros p (H1 & H2 & H3). unfold part_ok.
      rewrite !H1; [done|right|left]; lia. }
  destruct Hw as [s p Hp Ht Hne|p v Hp Ht Hne Hv Htv|s p v Hp Ht Hne Hv Htv|f z s e Hz Hne Hs He
    |f z op v Hz Hne Hop Hv]; unfold parts, cond_text; str_eval.
  - apply Forall_singleton. split; [|destruct s; by apply phn_trimmed]. intros x d Hd.
    destruct s; cbn [app]; rewrite level_phn by done; apply level_inert; inert_const.
  - apply Forall_singleton. split; [|split; [|done]].
    + intros x d Hd. rewrite quote_plain by done. by apply level_has.
    + rewrite (app_assoc "), "), <- phn_app.
      by apply (trimmed_between 104 ("as(" ++ phn header p ("), " ++ quote v)) ")").
  - apply Forall_singleton. 
    assert (∀ x d, setting x d → _) as Hl by exact (λ x d Hd, literal_ok x d v Hd Hv Htv).
    split.
    + intros x d Hd.
      etransitivity; [by apply (level_phn x d s p (" == " ++ buildExprLiteral MATCH_EQ v))|].
      rewrite (level_flat _ _ " == ") by inert_const. apply level_inert, Hl, Hd.
    + apply phn_trimmed; [done|]. apply trimmed_between; [done| |eapply Hl; by left].
      by apply built_literal_any.
  - destruct (num_ltb _ _).
    + apply Forall_singleton. split; [|split; [|done]].
      * intros x d Hd. rewrite <- (app_nil_r ")"). rewrite level_paren; [done|destruct Hd as [[-> ?]|[-> ?]]; lia..|].
        apply setting_S in Hd. unfold range_text. rewrite level_cmp by (done || set_solver).
        etransitivity; [apply (level_flat x (d + 1) " || "); inert_const|].
        rewrite <- (app_nil_r (cmp_text _ _ _ _)), level_cmp by (done || set_solver). done.
      * by apply (trimmed_between 40 _ ")").
    + apply Forall_cons; split; [|apply Forall_singleton]; (split; [|by apply cmp_trimmed]); intros x d Hd;
        rewrite <- (app_nil_r (cmp_text _ _ _ _)), level_cmp by (done || set_solver); done.
  - assert (str_eqb (time_op_mode op) MATCH_RANGE = false ∧ time_mode_op (time_op_mode op) = op) as [-> ->].
    { repeat (apply elem_of_cons in Hop as [->|Hop]; [done|]). set_solver. }
    apply Forall_singleton; (split; [|by apply cmp_trimmed]); intros x d Hd.
    rewrite <- (app_nil_r (cmp_text _ _ _ _)), level_cmp by done. done.
Qed.

(** ** The text of a group *)

(** The parentheses the builder puts around a disjunction. *)
Definition wrap (e : jsstr) : jsstr := if includes e " || " then "(" ++ e ++ ")" else e.

Lemma plain_lacks_bar s : plain s = true → lacks 124 s = true.
Proof.
  apply forallb_impl. intros c Hc. unfold plain_char in Hc. bool_hyps. apply negb_true_iff, N.eqb_neq. set_solver.
Qed.

Lemma number_lacks_bar s : is_numeric s = true → lacks 124 s = true.
Proof.
  intros [H _]%is_numeric_chars. revert H. apply forallb_impl. intros c [Hd|Hc]%is_num_char_spec.
  - unfold is_digit in Hd. lia.
  - repeat (apply elem_of_cons in Hc as [->|Hc]; [done|]). set_solver.
Qed.

Lemma literal_lacks_bar v : plain v = true → trimmed v = true → lacks 124 (buildExprLiteral MATCH_EQ v) = true.
Proof.
  intros Hv Ht. pose proof (plain_lacks_bar v Hv) as Hb. unfold buildExprLiteral. str_eval.
  rewrite (trim_id v) by done. destruct (_ || _); [done|]. destruct (is_numeric v); [done|].
  rewrite quote_plain by done. unfold lacks in *. by rewrite !forallb_app, Hb.
Qed.

Lemma cmp_lacks_bar f z op v :
  plain z = true → op ∈ ["=="; ">="; "<"] → is_numeric v = true → lacks 124 (cmp_text f z op v) = true.
Proof.
  intros Hz%plain_lacks_bar Hop Hv%number_lacks_bar. unfold cmp_text, tfn, lacks in *.
  rewrite !forallb_app, Hz, Hv.
  repeat (apply elem_of_cons in Hop as [->|Hop]; [by destruct f|]). set_solver.
Qed.

Lemma phn_lacks_bar s p t : plain p = true → lacks 124 t = true → lacks 124 (phn s p t) = true.
Proof.
  intros Hp%plain_lacks_bar Ht. unfold phn, lacks in *. rewrite !forallb_app, Hp, Ht. by destruct s.
Qed.

Lemma wrap_id e : lacks 124 e = true → wrap e = e.
Proof. intros H. unfold wrap. by rewrite (includes_lacks 124) by (done || set_solver). Qed.

Lemma range_op_cases s e :
  range_op s e = if num_ltb (Number_of_string e) (Number_of_string s) then "||" else "&&".
Proof. done. Qed.

Lemma wrap_single e : lacks 124 e = true → wrap e = join " && " [e].
Proof. apply wrap_id. Qed.

Lemma wrap_parts c : wf_form c → wrap (cond_text c) = join " && " (parts c).
Proof.
  destruct 1 as [s p Hp Ht Hne|p v Hp Ht Hne Hv Htv|s p v Hp Ht Hne Hv Htv|f z s e Hz Hne Hs He
    |f z op v Hz Hne Hop Hv]; unfold parts, cond_text; str_eval.
  - apply wrap_single. destruct s; by apply phn_lacks_bar.
  - apply wrap_single. rewrite quote_plain by done. unfold lacks in *. rewrite forallb_app.
    apply andb_true_iff; split; [done|]. apply phn_lacks_bar; [done|]. unfold lacks.
    rewrite !forallb_app. pose proof (plain_lacks_bar v Hv) as Hb. unfold lacks in Hb. by rewrite Hb.
  - apply wrap_single, phn_lacks_bar; [done|]. unfold lacks. rewrite forallb_app. by apply literal_lacks_bar.
  - rewrite range_op_cases. destruct (num_ltb _ _).
    + unfold wrap, range_text. by rewrite (includes_app _ " || " (cmp_text f z "<" e) : includes _ " || " = true).
    + etransitivity; [apply wrap_id|done]. unfold range_text, lacks. rewrite !forallb_app.
      pose proof (cmp_lacks_bar f z ">=" s Hz) as H1. pose proof (cmp_lacks_bar f z "<" e Hz) as H2.
      unfold lacks in *. rewrite H1, H2 by (done || set_solver). done.
  - assert (str_eqb (time_op_mode op) MATCH_RANGE = false ∧ time_mode_op (time_op_mode op) = op) as [-> ->].
    { repeat (apply elem_of_cons in Hop as [->|Hop]; [done|]). set_solver. }
    by apply wrap_single, cmp_lacks_bar.
Qed.

Lemma parts_ne c : parts c ≠ [].
Proof. destruct c; cbn; by repeat case_match. Qed.

Lemma wrap_join cs :
  Forall wf_form cs → join " && " (wrap <$> (cond_text <$> cs)) = join " && " (concat (parts <$> cs)).
Proof.
  intros H. rewrite <- join_concat.
  - f_equal. rewrite <- !list_fmap_compose. apply list_fmap_ext. intros i c Hc.
    apply wrap_parts. eapply Forall_lookup_1; eauto.
  - apply Forall_fmap, Forall_true. intros c. apply parts_ne.
Qed.

(** ** Reading the conjuncts back *)

(** Two neighbours the parser would merge into one range. *)
Definition merges (c1 c2 : RequestCondition) : bool :=
  match c1, c2 with
  | TimeCondition f1 z1 m1 v1 _ _, TimeCondition f2 z2 m2 v2 _ _ =>
    bool_decide (f1 = f2) && str_eqb z1 z2 && str_eqb m1 MATCH_GTE && str_eqb m2 MATCH_LT
    && negb (num_ltb (Number_of_string v2) (Number_of_string v1))
  | _, _ => false
  end.

Fixpoint separate (cs : list RequestCondition) : bool :=
  match cs with
  | c1 :: rest => match rest with c2 :: _ => negb (merges c1 c2) | [] => true end && separate rest
  | [] => true
  end.

(** The first part of a condition: a comparison, which is an upper bound only
    when the condition is one, or text that no time function starts. *)
Definition head_cmp (c : RequestCondition) (p : jsstr) : Prop :=
  ∃ f z op v, p = cmp_text f z op v ∧ plain z = true ∧ z ≠ [] ∧ op ∈ ["=="; ">="; "<"] ∧
    is_numeric v = true ∧ (op = "<" → c = TimeCondition f z MATCH_LT v "" "").

Definition head_other (p : jsstr) : Prop :=
  (∀ f t, startsWith (p ++ t) (tf_text f) = false) ∧
  match tryParseTimeCondition p with
  | None => True
  | Some (TimeCondition _ _ m _ _ _) => m = MATCH_RANGE
  | Some _ => False
  end.

Lemma range_or f z s e :
  num_ltb (Number_of_string e) (Number_of_string s) = true →
  range_text f z s "||" e = range_text f z s (range_op s e) e.
Proof. intros H. unfold range_op. by rewrite H. Qed.

Lemma ph_head_other s p t : head_other (phn s p t).
Proof.
  split.
  - intros f u. by destruct s, f.
  - rewrite parse_time_none; [done|by destruct s; intros []|by destruct s].
Qed.

Lemma head_spec c : wf_form c → ∃ p ps, parts c = p :: ps ∧ (head_cmp c p ∨ head_other p).
Proof.
  destruct 1 as [s p Hp Ht Hne|p v Hp Ht Hne Hv Htv|s p v Hp Ht Hne Hv Htv|f z s e Hz Hne Hs He
    |f z op v Hz Hne Hop Hv]; unfold parts, cond_text; str_eval.
  - do 2 eexists. split; [done|]. right. apply ph_head_other.
  - do 2 eexists. split; [done|]. right. split; [by intros []|].
    by rewrite parse_time_none by (try intros []; done).
  - do 2 eexists. split; [done|]. right. apply ph_head_other.
  - destruct (num_ltb _ _) eqn:E; do 2 eexists; (split; [done|]).
    + right. split; [by intros []|]. by rewrite range_or, parse_time_range_paren.
    + left. exists f, z, ">=", s. repeat split; try done. set_solver.
  - assert (str_eqb (time_op_mode op) MATCH_RANGE = false ∧ time_mode_op (time_op_mode op) = op) as [-> ->].
    { repeat (apply elem_of_cons in Hop as [->|Hop]; [done|]). set_solver. }
    do 2 eexists. split; [done|]. left. exists f, z, op, v. repeat split; try done. by intros ->.
Qed.

(** A condition with one part reads back as itself. *)
Lemma parse_single c e :
  wf_form c → parts c = [e] →
  tryParseRequestCondition e = Ret (Some c) ∧
  tryParseTimeCondition e = match c with TimeCondition _ _ _ _ _ _ => Some c | _ => None end.
Proof.
  intros Hw. destruct Hw as [s p Hp Ht Hne|p v Hp Ht Hne Hv Htv|s p v Hp Ht Hne Hv Htv|f z s e' Hz Hne Hs He
    |f z op v Hz Hne Hop Hv]; unfold parts, cond_text; str_eval; intros E.
  - simplify_eq. split; [destruct s; auto using parse_header_exists, parse_param_exists|].
    apply parse_time_none; [destruct s; by intros []|by destruct s].
  - simplify_eq. split; [by apply parse_header_contains|]. by apply parse_time_none; [intros []|].
  - simplify_eq. split; [by apply parse_eq|]. apply parse_time_none; [destruct s; by intros []|by destruct s].
  - destruct (num_ltb _ _) eqn:E'; [|done].
    assert (e = "(" ++ range_text f z s "||" e' ++ ")") as -> by congruence.
    assert (tryParseTimeCondition ("(" ++ range_text f z s "||" e' ++ ")") =
      Some (TimeCondition f z MATCH_RANGE "" s e')) as H by (by rewrite range_or, parse_time_range_paren).
    split; [|done]. unfold tryParseRequestCondition. by rewrite H.
  - assert (str_eqb (time_op_mode op) MATCH_RANGE = false ∧ time_mode_op (time_op_mode op) = op) as [Hr Ho].
    { repeat (apply elem_of_cons in Hop as [->|Hop]; [done|]). set_solver. }
    rewrite Hr, Ho in E. simplify_eq.
    assert (tryParseTimeCondition (cmp_text f z op v) = Some (TimeCondition f z (time_op_mode op) v "" ""))
      as H by (by apply parse_time_cmp).
    split; [|done]. unfold tryParseRequestCondition. by rewrite H.
Qed.

Lemma pair_none c p c2 p2 ps :
  wf_form c → parts c = [p] → wf_form c2 → parts c2 = p2 :: ps → merges c c2 = false →
  tryParseTimeRangePair p p2 = None.
Proof.
  intros Hc Hp Hc2 Hp2 Hm. unfold tryParseTimeRangePair.
  rewrite (proj2 (parse_single c p Hc Hp)).
  destruct (head_spec c2 Hc2) as (q & qs & Hq & Hh). rewrite Hq in Hp2. simplify_eq.
  destruct c as [|f z m v s e]; [done|].
  destruct Hh as [(f2 & z2 & op & v2 & -> & Hz2 & Hn2 & Hop & Hv2 & Hlt)|[_ Ho]].
  - rewrite parse_time_cmp by done. destruct (_ || _) eqn:E1; [done|].
    destruct (negb (str_eqb m _) || _) eqn:E2; [done|]. bool_hyps.
    assert (op = "<") as ->.
    { repeat (apply elem_of_cons in Hop as [->|Hop]; [done|]). set_solver. }
    rewrite (Hlt eq_refl) in Hm. cbn [merges] in Hm.
    rewrite (bool_decide_eq_true_2 (f = f2)) in Hm by done.
    repeat match goal with H : str_eqb _ _ = true |- _ => rewrite H in Hm; clear H end.
    change (str_eqb MATCH_LT MATCH_LT) with true in Hm. cbn in Hm. apply negb_false_iff in Hm. by rewrite Hm.
  - destruct (tryParseTimeCondition p2) as [[|f2 z2 m2 v2 s2 e2]|]; [done| |done]. subst m2.
    destruct (_ || _); [done|]. change (str_eqb MATCH_RANGE MATCH_LT) with false. by rewrite orb_true_r.
Qed.

(** A condition is one part, or the two bounds of a range. *)
Lemma parts_cases c :
  wf_form c → (∃ p, parts c = [p]) ∨
  ∃ f z s e, c = TimeCondition f z MATCH_RANGE "" s e ∧ parts c = [cmp_text f z ">=" s; cmp_text f z "<" e]
    ∧ tryParseTimeRangePair (cmp_text f z ">=" s) (cmp_text f z "<" e) = Some c.
Proof.
  destruct 1 as [s p Hp Ht Hne|p v Hp Ht Hne Hv Htv|s p v Hp Ht Hne Hv Htv|f z s e Hz Hne Hs He
    |f z op v Hz Hne Hop Hv]; unfold parts; str_eval; eauto.
  - destruct (num_ltb _ _) eqn:E; [eauto|]. right. exists f, z, s, e. split; [done|]. split; [done|].
    unfold tryParseTimeRangePair. rewrite !parse_time_cmp by (done || set_solver).
    rewrite bool_decide_eq_true_2, (proj2 (str_eqb_spec z z)) by done. cbn [negb orb].
    change (time_op_mode ">=") with MATCH_GTE. change (time_op_mode "<") with MATCH_LT.
    str_eval. cbn [negb orb]. by rewrite E.
  - left. case_match; [|eauto]. 
    repeat (apply elem_of_cons in Hop as [->|Hop]; [done|]). set_solver.
Qed.

Lemma part_trim c p : wf_form c → p ∈ parts c → trim p = p ∧ nonempty p = true.
Proof.
  intros Hw%parts_ok Hp. rewrite Forall_forall in Hw. destruct (Hw p Hp) as (_ & _ & Ht & Hne).
  split; [by apply trim_id|by apply nonempty_spec].
Qed.

Lemma parse_and_parts_cons part next rest :
  parse_and_parts (part :: next :: rest) =
  match (if nonempty (trim next) then tryParseTimeRangePair (trim part) (trim next) else None) with
  | Some merged => cs ← parse_and_parts rest; Ret (option_map (cons merged) cs)
  | None =>
    c ← tryParseRequestCondition (trim part);
    match c with
    | Some c => cs ← parse_and_parts (next :: rest); Ret (option_map (cons c) cs)
    | None => Ret None
    end
  end.
Proof. done. Qed.

Lemma parse_parts cs :
  Forall wf_form cs → separate cs = true → parse_and_parts (concat (parts <$> cs)) = Ret (Some cs).
Proof.
  induction cs as [|c cs IH]; intros Hw Hs; [done|].
  apply Forall_cons in Hw as [Hc Hcs]. cbn [separate] in Hs. bool_hyps. specialize (IH Hcs H0).
  cbn [fmap list_fmap concat].
  destruct (parts_cases c Hc) as [[p Hp]|(f & z & s & e & Hce & Hp & Hpair)].
  - assert (trim p = p) as Ht by (apply (part_trim c); [done|rewrite Hp; set_solver]).
    rewrite Hp. destruct cs as [|c2 cs].
    + cbn -[tryParseRequestCondition]. by rewrite Ht, (proj1 (parse_single c p Hc Hp)).
    + apply Forall_cons in Hcs as [Hc2 _].
      destruct (head_spec c2 Hc2) as (p2 & ps & Hp2 & _).
      assert (trim p2 = p2 ∧ nonempty p2 = true) as [Ht2 Hn2].
      { apply (part_trim c2); [done|]. rewrite Hp2. set_solver. }
      cbn [fmap list_fmap concat] in *. rewrite Hp2 in *. cbn [app] in *. rewrite parse_and_parts_cons.
      rewrite Ht, Ht2, Hn2, (pair_none c p c2 p2 ps) by (done || by apply negb_true_iff).
      rewrite (proj1 (parse_single c p Hc Hp)). cbn [mbind exc_bind app] in *. by rewrite IH.
  - assert (∀ q, q ∈ parts c → trim q = q ∧ nonempty q = true) as Ht by (intros; by apply (part_trim c)).
    rewrite Hp in *. cbn [app]. rewrite parse_and_parts_cons.
    destruct (Ht (cmp_text f z ">=" s)) as [-> _]; [set_solver|].
    destruct (Ht (cmp_text f z "<" e)) as [-> ->]; [set_solver|].
    rewrite Hpair. cbn [mbind exc_bind] in *. by rewrite IH.
Qed.

(** ** The conjunction as a whole is no time condition *)

(** A comparison followed by more is no comparison. *)
Lemma cmp_whole_none f z op v w :
  plain z = true → z ≠ [] → op ∈ ["=="; ">="; "<"] → is_numeric v = true →
  re_match time_range_paren_regex (cmp_text f z op v ++ " && " ++ w) = None ∧
  re_match time_cmp_regex (cmp_text f z op v ++ " && " ++ w) = None.
Proof.
  intros Hz Hne Hop Hv. split.
  - rewrite range_paren_regex_eq. unfold cmp_text. by rewrite tfn_app, tfn_no_paren.
  - by rewrite time_cmp_fwd.
Qed.

(** A lower bound followed by an upper bound would be read as a range. *)
Lemma lower_whole_none f z v w :
  plain z = true → z ≠ [] → is_numeric v = true →
  (∀ p m, mtch (range_second [Eol]) p w [(4, "&&"); (3, v); (2, z); (1, tf_text f)]%nat (λ _ _ c, Some c)
    = Some m → ∃ v2, m = [(5, v2); (4, "&&"); (3, v); (2, z); (1, tf_text f)]%nat ∧ range_op v v2 = "||") →
  tryParseTimeCondition (cmp_text f z ">=" v ++ " && " ++ w) = None.
Proof.
  intros Hz Hne Hv Hw. destruct (cmp_whole_none f z ">=" v w) as [H1 H2]; [done..|set_solver|done|].
  unfold tryParseTimeCondition. rewrite H1, H2, range_regex_eq.
  destruct (range_fwd (λ _ _ c, Some c) [Eol] f z v "&&" w None []) as [p Hp]; [done..|set_solver|].
  change (cmp_text f z ">=" v ++ " && " ++ w) with (cmp_text f z ">=" v ++ " " ++ "&&" ++ " " ++ w).
  rewrite Hp. clear Hp. destruct (mtch _ _ _ _ _) as [m|] eqn:E; [|done].
  apply Hw in E as (v2 & -> & Hop). unfold grp. cbn [cap Nat.eqb from_option id].
  rewrite Hop. str_eval. cbn [negb]. by rewrite orb_true_r.
Qed.

(** The parts after the first one, as text. *)
Definition tail_text (ps : list jsstr) : jsstr :=
  match ps with [] => [] | _ => " && " ++ join " && " ps end.

Lemma join_tail p ps : join " && " (p :: ps) = p ++ tail_text ps.
Proof. destruct ps; cbn -[app]; by rewrite ?app_nil_r. Qed.

Lemma tail_text_out ps : starts_out is_num_char (tail_text ps).
Proof. by destruct ps. Qed.

Lemma whole_gte_none f z v c2 p2 ps :
  plain z = true → z ≠ [] → is_numeric v = true →
  wf_form c2 → parts c2 = p2 :: ps → merges (TimeCondition f z MATCH_GTE v "" "") c2 = false →
  ∀ qs, tryParseTimeCondition (cmp_text f z ">=" v ++ " && " ++ p2 ++ tail_text qs) = None.
Proof.
  intros Hz Hne Hv Hw Hp Hm qs. apply lower_whole_none; [done..|]. intros p m.
  destruct (head_spec c2 Hw) as (q & qs' & Hq & Hh). rewrite Hq in Hp. simplify_eq.
  destruct Hh as [(f2 & z2 & op & v2 & -> & Hz2 & Hn2 & Hop & Hv2 & Hlt)|[Ho _]].
  - rewrite (range_second_eol f z) by (done || apply tail_text_out).
    case_bool_decide as Heq; [|done]. destruct Heq as (-> & -> & ->).
    destruct qs as [|q qs]; [|done]. cbn [tail_text]. intros [= <-]. exists v2. split; [done|].
    rewrite (Hlt eq_refl) in Hm. cbn [merges] in Hm. rewrite bool_decide_eq_true_2, (proj2 (str_eqb_spec z z)) in Hm by done.
    change (str_eqb MATCH_LT MATCH_LT) with true in Hm. change (str_eqb MATCH_GTE MATCH_GTE) with true in Hm.
    cbn in Hm. apply negb_false_iff in Hm. unfold range_op. by rewrite Hm.
  - unfold range_second. cbn [seqs fold_right app]. by rewrite (mtch_back 1 (tf_text f)), Ho by done.
Qed.

Lemma parse_time_paren_none w :
  mtch (seqs (time_range_parts ++ [lit_re ")"; Eol])) (Some 40) w [] (λ _ _ c, Some c) = None →
  tryParseTimeCondition ("(" ++ w) = None.
Proof.
  intros H. unfold tryParseTimeCondition. rewrite range_regex_eq, range_paren_regex_eq.
  unfold time_range_parts at 1, time_cmp_regex. cbn [seqs fold_right app].
  rewrite re_match_anchored, !mtch_time_func_none by (by intros []).
  cbn [startsWith N.eqb Pos.eqb andb drop]. by rewrite startsWith_nil, drop_0, H.
Qed.

Lemma whole_none c1 c2 cs :
  Forall wf_form (c1 :: c2 :: cs) → separate (c1 :: c2 :: cs) = true →
  tryParseTimeCondition (join " && " (concat (parts <$> c1 :: c2 :: cs))) = None.
Proof.
  intros Hw Hs. apply Forall_cons in Hw as [Hc1 [Hc2 _]%Forall_cons]. cbn [separate] in Hs. bool_hyps.
  destruct (head_spec c2 Hc2) as (p2 & ps & Hp2 & _).
  change (concat (parts <$> c1 :: c2 :: cs)) with (parts c1 ++ concat (parts <$> c2 :: cs)).
  assert (∃ qs, join " && " (concat (parts <$> c2 :: cs)) = p2 ++ tail_text qs ∧
    concat (parts <$> c2 :: cs) ≠ []) as (qs & Hu & Hne).
  { cbn [fmap list_fmap concat]. rewrite Hp2. eexists. split; [apply join_tail|done]. }
  rewrite join_app, Hu by (done || apply parts_ne). clear Hu Hne.
  destruct Hc1 as [s p Hp Ht Hne|p v Hp Ht Hne Hv Htv|s p v Hp Ht Hne Hv Htv|f z s e Hz Hne Hs He
    |f z op v Hz Hne Hop Hv]; unfold parts, cond_text; str_eval; cbn [join].
  1,3: apply parse_time_none; [destruct s; by intros []|by destruct s].
  - apply parse_time_none; [by intros []|done].
  - destruct (num_ltb _ _) eqn:E; cbn [join].
    + rewrite range_or by done. rewrite <- (app_assoc "("). apply parse_time_paren_none.
      unfold range_text. rewrite <- !app_assoc.
      destruct (range_fwd (λ _ _ c, Some c) [lit_re ")"; Eol] f z s (range_op s e)
        (cmp_text f z "<" e ++ ")" ++ " && " ++ p2 ++ tail_text qs) (Some 40) []) as [p ->]; auto using range_op_in.
      rewrite (range_second_paren f z) by (done || set_solver). by case_bool_decide.
    + rewrite <- app_assoc. apply lower_whole_none; [done..|]. intros p m.
      rewrite <- ?app_assoc, (range_second_eol f z) by (done || set_solver). by case_bool_decide.
  - assert (str_eqb (time_op_mode op) MATCH_RANGE = false ∧ time_mode_op (time_op_mode op) = op) as [-> ->].
    { repeat (apply elem_of_cons in Hop as [->|Hop]; [done|]). set_solver. }
    cbn [join]. destruct (decide (op = ">=")) as [->|Hge].
    + by eapply whole_gte_none; eauto.
    + destruct (cmp_whole_none f z op v (p2 ++ tail_text qs)) as [E1 E2]; [done..|].
      unfold tryParseTimeCondition. rewrite E1, E2, range_regex_eq, range_fwd_none by (done || left; set_solver). done.
Qed.

(** ** Groups and rules *)

Definition wf_group (g : RequestRuleGroup) : bool :=
  match conditions g with [] => false | _ => true end && forallb wf_cond (conditions g)
  && separate (conditions g) && is_numeric (multiplier g)
  && match conditionText g with None => true | Some _ => false end
  && match matched g with None => true | Some _ => false end.

(** The condition text inside a factor. *)
Definition group_text (cs : list RequestCondition) : jsstr :=
  match cs with [c] => cond_text c | _ => join " && " (concat (parts <$> cs)) end.

Lemma part_ok_and ps :
  Forall part_ok ps → Forall (λ p, (level 38 0 p = Some 0%Z ∧ trimmed p = true) ∧ p ≠ []) ps.
Proof. intros H. eapply Forall_impl; [exact H|]. by intros p (? & _ & ? & ?). Qed.

Lemma concat_parts_ok cs : Forall wf_form cs → Forall part_ok (concat (parts <$> cs)).
Proof.
  induction 1 as [|c cs Hc Hcs IH]; [done|]. cbn. apply Forall_app. split; [by apply parts_ok|done].
Qed.

Lemma cond_text_ok c :
  wf_form c → level 42 1 (cond_text c) = Some 1%Z ∧ trimmed (cond_text c) = true ∧ cond_text c ≠ [].
Proof.
  intros Hw. assert (setting 42 1) as Hd by (right; lia).
  destruct (decide (parts c = [cond_text c])) as [E|Hne].
  - pose proof (parts_ok c Hw) as H. rewrite E in H. apply Forall_singleton in H as (? & ? & ? & ?). done.
  - destruct Hw as [| | |f z s e Hz Hn Hs He|f z op v Hz Hn Hop Hv]; [by destruct Hne..| |].
    + unfold cond_text. str_eval. unfold range_text. split; [|split].
      * rewrite level_cmp by (done || set_solver). rewrite range_op_cases.
        destruct (num_ltb _ _); rewrite <- (app_nil_r (cmp_text _ _ _ _)), 2!level_flat by done;
          rewrite level_flat, level_cmp by (done || set_solver); done.
      * rewrite (app_assoc " "), (app_assoc (" " ++ _)), <- (app_assoc " ").
        apply (trimmed_join _ (" " ++ range_op s e ++ " ") [cmp_text f z "<" e]).
        repeat (apply Forall_cons; split); [by apply cmp_trimmed..|done].
      * unfold cmp_text, tfn. by destruct f.
    + destruct Hne. unfold parts.
      repeat (apply elem_of_cons in Hop as [->|Hop]; [done|]). set_solver.
Qed.

Lemma level_join ps : Forall part_ok ps → level 42 1 (join " && " ps) = Some 1%Z.
Proof.
  induction ps as [|p [|q ps] IH]; intros H; [done|..]; apply Forall_cons in H as [(_ & Hl & _) Hps]; [done|].
  change (join " && " (p :: q :: ps)) with (p ++ " && " ++ join " && " (q :: ps)).
  rewrite level_app, Hl. cbn [mbind option_bind]. rewrite (level_flat 42 1 " && ") by done. by apply IH.
Qed.

Lemma group_text_ok cs :
  cs ≠ [] → Forall wf_form cs →
  level 42 1 (group_text cs) = Some 1%Z ∧ trimmed (group_text cs) = true ∧ group_text cs ≠ [].
Proof.
  intros Hne Hw. destruct cs as [|c [|c2 cs]]; [done|..].
  - rewrite Forall_singleton in Hw. exact (cond_text_ok c Hw).
  - pose proof (concat_parts_ok _ Hw) as Hok. unfold group_text. split; [by apply level_join|].
    destruct (concat (parts <$> c :: c2 :: cs)) as [|p ps] eqn:E.
    { cbn in E. apply app_nil in E as [E _]. by apply parts_ne in E. }
    split.
    + apply trimmed_join. eapply Forall_impl; [exact Hok|]. by intros q (_ & _ & ? & ?).
    + rewrite join_tail. apply Forall_cons in Hok as [(_ & _ & _ & Hp) _]. by destruct p.
Qed.

Lemma parse_group_text cs :
  cs ≠ [] → Forall wf_form cs → separate cs = true →
  tryParseRequestConditions (group_text cs) = Ret (Some cs).
Proof.
  intros Hne Hw Hs. destruct (group_text_ok cs Hne Hw) as (_ & Ht & _).
  assert (tryParseRequestConditions (group_text cs) = Ret (Some cs) ∨
    tryParseTimeCondition (group_text cs) = None ∧ group_text cs = join " && " (concat (parts <$> cs)))
    as [H|[H1 H2]]; [|done|].
  - destruct cs as [|c [|c2 cs]]; [done|..].
    + rewrite Forall_singleton in Hw. unfold tryParseRequestConditions. rewrite trim_id by done.
      cbn [group_text] in *. 
      destruct Hw as [s p Hp Htr Hn|p v Hp Htr Hn Hv Htv|s p v Hp Htr Hn Hv Htv|f z s e Hz Hn Hs' He|f z op v Hz Hn Hop Hv].
      1-3: right; split; [|cbn; by rewrite ?app_nil_r].
      * apply parse_time_none; [destruct s; by intros []|by destruct s].
      * apply parse_time_none; [by intros []|done].
      * apply parse_time_none; [destruct s; by intros []|by destruct s].
      * left. unfold cond_text. str_eval. by rewrite parse_time_range.
      * left. repeat (apply elem_of_cons in Hop as [->|Hop]; [unfold cond_text; str_eval;
          by rewrite (parse_time_cmp f z _ v) by (done || set_solver)|]). set_solver.
    + right. split; [|done]. by apply whole_none.
  - unfold tryParseRequestConditions. rewrite trim_id, H1, H2 by done.
    rewrite splitTopLevelAnd_join; [| |by apply part_ok_and, concat_parts_ok].
    + rewrite parse_parts by done. by destruct cs.
    + destruct cs as [|c cs]; [done|]. cbn. intros [E _]%app_nil. by apply parts_ne in E.
Qed.

Lemma wf_conds_form cs : forallb wf_cond cs = true → Forall wf_form cs.
Proof. intros H%forallb_True'. eapply Forall_impl; [exact H|]. apply wf_cond_form. Qed.

Lemma build_conditions cs :
  Forall wf_form cs → buildRequestConditionExpr <$> cs = cond_text <$> cs.
Proof.
  intros H. apply list_fmap_ext. intros i c Hc. apply build_text. by eapply Forall_lookup_1.
Qed.

(** The text of a well-formed group. *)
Definition factor_text (g : RequestRuleGroup) : jsstr :=
  "(" ++ group_text (conditions g) ++ " ? " ++ multiplier g ++ " : 1)".

Lemma build_factor g : wf_group g = true → buildRuleGroupFactor g = factor_text g.
Proof.
  unfold wf_group, buildRuleGroupFactor, factor_text. intros H. bool_hyps.
  rewrite is_numeric_trim, H2 by done. cbn [negb].
  pose proof (wf_conds_form _ H4) as Hw. rewrite build_conditions by done.
  rewrite list_filter_all.
  2:{ intros e (c & -> & Hc)%list_elem_of_fmap. apply nonempty_spec. rewrite Forall_forall in Hw.
      by apply cond_text_ok, Hw. }
  destruct (conditions g) as [|c [|c2 cs]]; [done..|].
  transitivity ("(" ++ join " && " (wrap <$> (cond_text <$> c :: c2 :: cs)) ++ " ? " ++ multiplier g ++ " : 1)");
    [done|]. by rewrite wrap_join.
Qed.

(** Only the last question mark of a factor is followed by its multiplier. *)
Lemma parse_factor_regex x m :
  x ≠ [] → is_numeric m = true →
  re_match rule_factor_regex ("(" ++ x ++ " ? " ++ m ++ " : 1)") = Some [(2, m); (1, x)]%nat.
Proof.
  intros Hx Hm. unfold rule_factor_regex. cbn [seqs fold_right]. rewrite re_match_anchored. lit_step.
  unfold any_s. apply (mtch_grp_plus_to _ _ _ _ x (" ? " ++ m ++ " : 1)")); [done| | |].
  - generalize (x ++ " ? " ++ m ++ " : 1)"). induction l; done.
  - intros d e prev c Hd Hne. rewrite mtch_seq_lit.
    destruct (startsWith e " ? ") eqn:E; [|done]. exfalso.
    apply startsWith_take in E. rewrite E in Hd. clear E.
    destruct d as [|d1 [|d2 d]]; [done|done|]. cbn [app] in Hd. injection Hd as <- <- Hd.
    assert (63 ∈ 32 :: m ++ " : 1)") as Hin by (rewrite Hd; set_solver).
    apply is_numeric_chars in Hm as [Hm _].
    assert (63 ∉ m) as Hnot. { intros Hin'. by pose proof (forallb_elem _ _ _ Hm Hin'). }
    set_solver.
  - lit_step. change (m ++ " : 1)") with (m ++ 32 :: ": 1)"). rewrite mtch_number; [|done|done|by apply rejects_lit].
    by lit_step.
Qed.

Lemma parse_factor g : wf_group g = true → tryParseRuleGroupFactor (factor_text g) = Ret (Some g).
Proof.
  destruct g as [cs m t b]. unfold wf_group, factor_text. cbn [conditions multiplier conditionText matched].
  intros H. bool_hyps. destruct t; [done|]. destruct b; [done|].
  assert (cs ≠ []) as Hne by (by destruct cs). pose proof (wf_conds_form _ H4) as Hw.
  unfold tryParseRuleGroupFactor. rewrite parse_factor_regex; [|by apply group_text_ok|done].
  unfold grp. cbn [cap Nat.eqb from_option id]. by rewrite parse_group_text.
Qed.

Lemma factor_shape_ok x m :
  level 42 1 x = Some 1%Z → is_numeric m = true →
  let f := "(" ++ x ++ " ? " ++ m ++ " : 1)" in
  (level 42 0 f = Some 0%Z ∧ trimmed f = true) ∧ f ≠ [].
Proof.
  intros Hl Hm f. split; [|done].
  assert (f = "(" ++ (x ++ " ? " ++ m ++ " : 1") ++ ")" ++ []) as ->.
  { unfold f. by rewrite <- !app_assoc. }
  split.
  - apply level_paren; [done..|]. change (0 + 1)%Z with 1%Z. rewrite level_app, Hl. cbn [mbind option_bind].
    rewrite level_flat by done. apply level_inert. rewrite forallb_app, number_inert by (done || set_solver). done.
  - by apply (trimmed_between 40 _ (")" ++ [])).
Qed.

Lemma factor_ok g :
  wf_group g = true → (level 42 0 (factor_text g) = Some 0%Z ∧ trimmed (factor_text g) = true) ∧ factor_text g ≠ [].
Proof.
  unfold wf_group, factor_text. intros H. bool_hyps.
  apply factor_shape_ok; [|done]. apply group_text_ok; [by destruct (conditions g)|by apply wf_conds_form].
Qed.

Lemma build_rules gs :
  forallb wf_group gs = true → buildRequestRuleExpr gs = join " * " (factor_text <$> gs).
Proof.
  intros H%forallb_True'. unfold buildRequestRuleExpr.
  assert (buildRuleGroupFactor <$> gs = factor_text <$> gs) as ->.
  { apply list_fmap_ext. intros i g Hg. apply build_factor. by eapply Forall_lookup_1 in H. }
  rewrite list_filter_all; [done|]. intros e (g & -> & Hg)%list_elem_of_fmap.
  by apply nonempty_spec.
Qed.

Lemma factors_ok gs :
  forallb wf_group gs = true →
  Forall (λ p, (level 42 0 p = Some 0%Z ∧ trimmed p = true) ∧ p ≠ []) (factor_text <$> gs).
Proof.
  intros H%forallb_True'. apply Forall_fmap. eapply Forall_impl; [exact H|]. apply factor_ok.
Qed.

Lemma parse_all_factors gs :
  forallb wf_group gs = true → parse_factors (factor_text <$> gs) = Ret (Some gs).
Proof.
  induction gs as [|g gs IH]; [done|]. cbn [forallb fmap list_fmap parse_factors]. intros H. bool_hyps.
  rewrite parse_factor by done. cbn [mbind exc_bind] in *. by rewrite IH.
Qed.

Lemma rules_trimmed gs : forallb wf_group gs = true → trimmed (join " * " (factor_text <$> gs)) = true.
Proof.
  intros H%factors_ok. destruct gs as [|g gs]; [done|]. apply trimmed_join.
  eapply Forall_impl; [exact H|]. by intros ? [[? ?] ?].
Qed.

(** One factor alone. *)
Lemma splitTopLevelMultiply_one p :
  (level 42 0 p = Some 0%Z ∧ trimmed p = true) ∧ p ≠ [] → splitTopLevelMultiply p = [p].
Proof. intros H. apply (splitTopLevelMultiply_join [p]); [done|]. by apply Forall_singleton. Qed.

Lemma parse_one_factor g :
  wf_group g = true → tryParseRequestRuleExpr (factor_text g) = Ret (Some [g]).
Proof.
  intros H. destruct (factor_ok g H) as [[Hl Ht] Hn]. unfold tryParseRequestRuleExpr.
  rewrite trim_id, (proj2 (nonempty_spec _)) by done. cbn [negb].
  rewrite splitTopLevelMultiply_one by done. apply (parse_all_factors [g]). cbn. by rewrite H.
Qed.

(** ** Outer parentheses *)

Lemma full_parens_length s : hasFullOuterParens s = true → (2 <= length s)%nat.
Proof.
  destruct s as [|a [|b s]]; [done| |cbn; lia]. unfold hasFullOuterParens. intros H. bool_hyps.
  change ((40 =? a) && true = true) in H. change ((41 =? a) && true = true) in H1. lia.
Qed.

Lemma inner_length s :
  hasFullOuterParens s = true → (length (trim (slice s 1 (length s - 1))) + 2 <= length s)%nat.
Proof.
  intros H%full_parens_length. pose proof (trim_length (slice s 1 (length s - 1))) as Ht.
  unfold slice in Ht |- *. rewrite length_take, length_drop in Ht. lia.
Qed.

(** The loop ends by its own test: any fuel from the length on gives the same
    result, which is not in parentheses any more. *)
Lemma unwrap_fuel_enough n m s :
  (length s <= n)%nat → (length s <= m)%nat →
  unwrap_fuel n s = unwrap_fuel m s ∧ hasFullOuterParens (unwrap_fuel n s) = false.
Proof.
  revert m s. induction n as [|n IH]; intros m s Hn Hm.
  - destruct s; [|cbn in Hn; lia]. by destruct m.
  - cbn [unwrap_fuel]. destruct (hasFullOuterParens s) eqn:E.
    + pose proof (inner_length s E). destruct m as [|m]; [lia|]. cbn [unwrap_fuel]. rewrite E.
      apply IH; lia.
    + destruct m as [|m]; cbn [unwrap_fuel]; by rewrite ?E.
Qed.

Lemma slice_inner (s : jsstr) : slice ("(" ++ s ++ ")") 1 (length ("(" ++ s ++ ")") - 1) = s.
Proof.
  unfold slice. cbn [app length drop]. rewrite length_app. cbn [length].
  replace (S (length s + 1) - 1 - 1)%nat with (length s) by lia. apply take_app_length.
Qed.

Lemma unwrap_wrapped s :
  trimmed s = true → hasFullOuterParens ("(" ++ s ++ ")") = true →
  unwrapOuterParens ("(" ++ s ++ ")") = unwrapOuterParens s.
Proof.
  intros Ht H. unfold unwrapOuterParens. rewrite (trim_id s) by done.
  rewrite trim_id by (by apply (trimmed_between 40 s ")")).
  destruct (length ("(" ++ s ++ ")")) as [|n] eqn:E; [done|]. cbn [unwrap_fuel]. rewrite H.
  rewrite slice_inner, (trim_id s) by done. apply unwrap_fuel_enough; [|done].
  cbn in E. rewrite length_app in E. cbn in E. lia.
Qed.

Lemma outer_scan_level x d s d' :
  x ≠ 41 → outer_scan d (s ++ ")") = Some d' → level x d (s ++ ")") = Some d'.
Proof.
  intros Hx. revert d. induction s as [|c s IH]; intros d.
  - cbn [app outer_scan level nonempty]. rewrite andb_false_r.
    by rewrite (proj2 (N.eqb_neq 41 x)), andb_false_r by done.
  - cbn [app outer_scan level]. set (d2 := if c =? 41 then _ else _).
    rewrite (proj2 (nonempty_spec (s ++ ")"))) by (by destruct s). rewrite andb_true_r.
    destruct (d2 =? 0)%Z; [done|]. apply IH.
Qed.

Lemma wrapped_level s : hasFullOuterParens ("(" ++ s ++ ")") = true → level 42 0 ("(" ++ s ++ ")") = Some 0%Z.
Proof.
  unfold hasFullOuterParens. intros H. bool_hyps.
  destruct (outer_scan 0 _) as [d|] eqn:E; [|done]. apply Z.eqb_eq in H0 as ->.
  by apply (outer_scan_level 42 0 ("(" ++ s)).
Qed.

Lemma classify_factors gs :
  forallb wf_group gs = true → classify_parts (factor_text <$> gs) = Ret (factor_text <$> gs, []).
Proof.
  induction gs as [|g gs IH]; [done|]. cbn [forallb fmap list_fmap classify_parts]. intros H. bool_hyps.
  rewrite parse_one_factor by done. cbn [mbind exc_bind] in *. by rewrite IH.
Qed.

(** ** Conditions the parser does not read back *)

Lemma re_match_eq_none s :
  startsWith s "param" = false → startsWith s "header" = false → re_match eq_regex s = None.
Proof.
  intros H1 H2. unfold eq_regex. cbn [seqs fold_right]. rewrite re_match_anchored, mtch_grp_alts.
  apply choose_none. intros w Hw. repeat (apply elem_of_cons in Hw as [->|Hw]; [done|]). set_solver.
Qed.

(** The second part of a [param] rule that tests for containment. *)
Lemma has_param_unread p t : tryParseRequestCondition ("has(" ++ phn param p t) = Ret None.
Proof. cond_fwd. by rewrite re_match_eq_none. Qed.

(** The second part of a [param] rule that compares with a number. *)
Lemma param_cmp_unread p op v :
  plain p = true → p ≠ [] → op ∈ [">"; ">="; "<"; "<="] →
  tryParseRequestCondition (phn param p (") " ++ op ++ " " ++ v)) = Ret None.
Proof.
  intros Hp Hne Hop.
  assert (re_match eq_regex (phn param p (") " ++ op ++ " " ++ v)) = None) as Heq.
  { unfold eq_regex, phn. cbn [seqs fold_right]. rewrite re_match_anchored, mtch_grp_alts.
    cbn [choose ph_text]. rewrite startsWith_app, drop_app_length, mtch_quoted by done.
    repeat (apply elem_of_cons in Hop as [->|Hop]; [done|]). set_solver. }
  cond_fwd. rewrite <- phn_param, Heq, phn_param.
  rewrite !(re_match_named "param(") by done.
  repeat (apply elem_of_cons in Hop as [->|Hop];
    [by cbn [startsWith app N.eqb Pos.eqb andb]; rewrite ?re_match_lit_fail by done|]). set_solver.
Qed.

Lemma param_pair_unread p q :
  plain p = true → p ≠ [] → part_ok q → tryParseRequestCondition q = Ret None →
  tryParseRequestConditions (phn param p ") != nil" ++ " && " ++ q) = Ret None.
Proof.
  intros Hp Hne Hq Hu. set (a := phn param p ") != nil").
  assert (part_ok a) as Ha.
  { pose proof (parts_ok (ParamHeaderCondition param (trim p) MATCH_EXISTS "")) as H.
    split; [|split; [|by apply phn_trimmed]];
      (etransitivity; [apply (level_phn _ _ param p " != nil"); [|done]|done]); [left|right]; lia. }
  destruct Ha as (A1 & A2 & A3 & A4) eqn:EA. clear EA. destruct Hq as (Q1 & Q2 & Q3 & Q4).
  assert (trimmed (join " && " [a; q]) = true) as Htr.
  { apply trimmed_join. by repeat (apply Forall_cons; split). }
  unfold tryParseRequestConditions. rewrite (trim_id (a ++ " && " ++ q)) by exact Htr.
  rewrite parse_time_none by (try intros []; done).
  assert (splitTopLevelAnd (a ++ " && " ++ q) = [a; q]) as ->.
  { apply (splitTopLevelAnd_join [a; q]); [done|]. by repeat (apply Forall_cons; split). }
  rewrite parse_and_parts_cons, !trim_id by done. rewrite (proj2 (nonempty_spec q)) by done.
  assert (tryParseTimeRangePair a q = None) as ->.
  { unfold tryParseTimeRangePair. by rewrite (parse_time_none a) by (try intros []; done). }
  subst a. rewrite parse_param_exists by done. cbn [mbind exc_bind parse_and_parts].
  rewrite trim_id, Hu by done. done.
Qed.

Lemma mode_allowed_or (s d : jsstr) (v : value) :
  mode_allowed s d = true →
  mode_allowed s (match v with VStr m => if mode_allowed s m then m else d | _ => d end) = true.
Proof. intros Hd. destruct v; try done. by destruct (mode_allowed s s0) eqn:E. Qed.

Lemma str_or_ne v d : d ≠ [] → str_or v d ≠ [].
Proof. intros Hd. by destruct v as [| | | |[|c s]| |]. Qed.

(** A condition with a non-empty zone and an allowed mode is normal. *)
Lemma normal_ph s p m v :
  mode_allowed (ph_text s) m = true →
  normalizeCondition (cond_value (ParamHeaderCondition s p m v)) = ParamHeaderCondition s p m v.
Proof.
  intros H. transitivity (ParamHeaderCondition s (str_or (VStr p) "")
    (if mode_allowed (ph_text s) m then m else MATCH_EQ) v); [by destruct s|]. rewrite H. by destruct p.
Qed.

Lemma normal_time f z m v rs re :
  mode_allowed SOURCE_TIME m = true → z ≠ [] →
  normalizeCondition (cond_value (TimeCondition f z m v rs re)) = TimeCondition f z m v rs re.
Proof.
  intros H Hz. transitivity (TimeCondition f (str_or (VStr z) "Asia/Shanghai")
    (if mode_allowed SOURCE_TIME m then m else MATCH_GTE) v rs re); [by destruct f|].
  rewrite H. by destruct z.
Qed.

Lemma normalize_stable v :
  normalizeCondition (cond_value (normalizeCondition v)) = normalizeCondition v ∧
  match normalizeCondition v with
  | ParamHeaderCondition s _ m _ => mode_allowed (ph_text s) m = true
  | TimeCondition _ z m _ _ _ => mode_allowed SOURCE_TIME m = true ∧ z ≠ []
  end.
Proof.
  assert (match normalizeCondition v with
    | ParamHeaderCondition s _ m _ => mode_allowed (ph_text s) m = true
    | TimeCondition _ z m _ _ _ => mode_allowed SOURCE_TIME m = true ∧ z ≠ []
    end) as H.
  { unfold normalizeCondition. destruct (prop v "source") as [| | | |t| |]; try (by apply (mode_allowed_or "param")).
    destruct (str_eqb t "time").
    - split; [by apply mode_allowed_or|]. by apply str_or_ne.
    - destruct (str_eqb t "header"); [by apply (mode_allowed_or "header")|by apply (mode_allowed_or "param")]. }
  split; [|done]. destruct (normalizeCondition v) as [s p m w|f z m w rs re].
  - by apply normal_ph.
  - destruct H. by apply normal_time.
Qed.

(** The text of such a rule: the parameter is tested for presence first. *)
Lemma build_param_pair p mode v :
  plain p = true → trimmed p = true → p ≠ [] →
  mode = MATCH_CONTAINS ∧ plain v = true ∧ trimmed v = true ∨
  is_cmp_mode mode = true ∧ is_numeric v = true →
  ∃ q, buildRequestConditionExpr (ParamHeaderCondition param p mode v) = phn param p ") != nil" ++ " && " ++ q
    ∧ part_ok q ∧ tryParseRequestCondition q = Ret None.
Proof.
  intros Hp Ht Hne [(-> & Hv & Htv)|[Hm Hv]].
  - exists ("has(" ++ phn param p ("), " ++ quote v ++ ")")). split; [|split; [|apply has_param_unread]].
    + unfold buildRequestConditionExpr. rewrite normal_ph by done. rewrite (trim_id p), (proj2 (nonempty_spec p)) by done.
      unfold buildExprLiteral. str_eval. rewrite (trim_id v) by done. cbn [negb ph_text].
      rewrite <- !app_assoc, !quote_app by done. by rewrite phn_app.
    + rewrite quote_plain by done. split; [|split; [|split; [|done]]].
      { apply level_has; [left; lia|done..]. }
      { apply level_has; [right; lia|done..]. }
      rewrite (app_assoc "), "), <- phn_app.
      by apply (trimmed_between 104 ("as(" ++ phn param p ("), " ++ DQ ++ v ++ DQ)) ")").
  - apply bool_decide_eq_true in Hm.
    assert (mode_allowed "param" mode = true ∧ param_mode_op mode ∈ [">"; ">="; "<"; "<="] ∧
      str_eqb mode MATCH_EXISTS = false ∧ str_eqb mode MATCH_CONTAINS = false ∧ is_cmp_mode mode = true) as (H1 & H2 & H3 & H4 & H5).
    { repeat (apply elem_of_cons in Hm as [->|Hm]; [repeat split; try done; vm_compute; set_solver|]). set_solver. }
    exists (phn param p (") " ++ param_mode_op mode ++ " " ++ v)). split; [|split; [|by apply param_cmp_unread]].
    + unfold buildRequestConditionExpr. rewrite normal_ph by done. rewrite (trim_id p), (proj2 (nonempty_spec p)) by done.
      rewrite H3, H4, H5, is_numeric_trim, Hv by done. cbn [negb ph_text].
      rewrite <- !app_assoc, !quote_app by done. by rewrite phn_app.
    + destruct (number_trimmed v Hv) as [Htv Hvn]. split; [|split; [|apply phn_trimmed]].
      { apply level_param_cmp; [left; lia|done..]. }
      { apply level_param_cmp; [right; lia|done..]. }
      * done.
      * rewrite (app_assoc (param_mode_op _)).
        by apply (trimmed_between 41 (" " ++ param_mode_op mode ++ " ") v).
Qed.

Lemma unread_group p q mode v m :
  plain p = true → p ≠ [] → is_numeric m = true →
  buildRequestConditionExpr (ParamHeaderCondition param p mode v) = phn param p ") != nil" ++ " && " ++ q →
  part_ok q → tryParseRequestCondition q = Ret None →
  let g := Group [ParamHeaderCondition param p mode v] m None None in
  buildRequestRuleExpr [g] ≠ [] ∧ tryParseRequestRuleExpr (buildRequestRuleExpr [g]) = Ret None.
Proof.
  intros Hp Hne Hm Hb Hq Hu g. set (x := phn param p ") != nil" ++ " && " ++ q) in *.
  assert (buildRequestRuleExpr [g] = "(" ++ x ++ " ? " ++ m ++ " : 1)") as ->.
  { unfold buildRequestRuleExpr, buildRuleGroupFactor. cbn [fmap list_fmap conditions multiplier g].
    rewrite Hb, is_numeric_trim, Hm by done. done. }
  split; [done|].
  assert (level 42 1 x = Some 1%Z) as Hl.
  { unfold x. rewrite level_app. destruct Hq as (_ & Hq & _).
    assert (level 42 1 (phn param p ") != nil") = Some 1%Z) as ->.
    { etransitivity; [apply (level_phn _ _ param p " != nil"); [right; lia|done]|done]. }
    cbn [mbind option_bind]. by rewrite (level_flat 42 1 " && "). }
  assert (x ≠ []) as Hx by done.
  unfold tryParseRequestRuleExpr.
  destruct (factor_shape_ok x m Hl Hm) as [[L T] N]. rewrite trim_id, (proj2 (nonempty_spec _)) by done. cbn [negb].
  rewrite splitTopLevelMultiply_one by done. cbn [parse_factors]. unfold tryParseRuleGroupFactor.
  rewrite parse_factor_regex by done. unfold grp. cbn [cap Nat.eqb from_option id].
  unfold x. by rewrite param_pair_unread.
Qed.

(** ** Claims *)

(** C31: request rules written by the editor are read back unchanged: parsing the
    text built from well-formed groups gives those groups.  Well formed are
    groups with at least one condition and a numeric multiplier whose paths,
    zones and texts are plain and trimmed and whose bounds are numeric; whose
    conditions test a header or parameter for presence or equality, a header
    for containment, or a time by equality, a lower or an upper bound or a
    range; and in which no lower bound stands directly before an upper bound of
    the same time that is not below it, which would read as one range.  The five
    other tests of a parameter cannot be read back: a rule that tests a parameter for containment
    or compares it with a number is written, but its text is never read back. *)
Theorem parse_build_rules :
  (∀ gs, forallb wf_group gs = true → tryParseRequestRuleExpr (buildRequestRuleExpr gs) = Ret (Some gs)) ∧
  (∀ p mode v m, plain p = true → trimmed p = true → p ≠ [] → is_numeric m = true →
    mode = MATCH_CONTAINS ∧ plain v = true ∧ trimmed v = true ∨ is_cmp_mode mode = true ∧ is_numeric v = true →
    let g := Group [ParamHeaderCondition param p mode v] m None None in
    buildRequestRuleExpr [g] ≠ [] ∧ tryParseRequestRuleExpr (buildRequestRuleExpr [g]) = Ret None).
Proof.
  split.
  - intros gs H. rewrite build_rules by done. unfold tryParseRequestRuleExpr.
    rewrite trim_id by (by apply rules_trimmed).
    destruct gs as [|g gs]; [done|].
    rewrite (proj2 (nonempty_spec (join _ _))).
    2:{ destruct gs; done. }
    cbn [negb]. rewrite splitTopLevelMultiply_join by (done || by apply factors_ok).
    by apply parse_all_factors.
  - intros p mode v m Hp Ht Hne Hm Hmode g. destruct (build_param_pair p mode v) as (q & Hq & Hok & Hu); [done..|].
    by apply (unread_group p q mode v m).
Qed.

Definition sample_groups : list RequestRuleGroup :=
  [Group [ParamHeaderCondition header "X-Plan" MATCH_CONTAINS "pro max";
          TimeCondition hour "Asia/Shanghai" MATCH_RANGE "" "22" "6";
          ParamHeaderCondition param "service_tier" MATCH_EQ "priority";
          TimeCondition weekday "UTC" MATCH_GTE "1" "" ""] "1.5" None None;
   Group [TimeCondition hour "UTC" MATCH_RANGE "" "8" "20"] "0.5" None None].

Lemma parse_build_rules_witness :
  tryParseRequestRuleExpr (buildRequestRuleExpr sample_groups) = Ret (Some sample_groups) ∧
  tryParseRequestRuleExpr (buildRequestRuleExpr
    [Group [ParamHeaderCondition param "max_tokens" MATCH_GT "4096"] "2" None None]) = Ret None.
Proof.
  split; [apply (proj1 parse_build_rules sample_groups); vm_compute; reflexivity|].
  apply (proj2 parse_build_rules "max_tokens"%js MATCH_GT "4096"%js "2"%js); vm_compute; try discriminate; auto.
Defined.

(** Splitting a combined expression gives back the base expression, without its
    own outer parentheses, and the request rules, when the parentheses the
    combination adds enclose the base and the base does not itself read as a
    request rule. *)
Theorem split_combine base gs :
  trimmed base = true → base ≠ [] →
  hasFullOuterParens ("(" ++ base ++ ")") = true →
  tryParseRuleGroupFactor ("(" ++ base ++ ")") = Ret None →
  gs ≠ [] → forallb wf_group gs = true →
  splitBillingExprAndRequestRules (combineBillingExpr base (buildRequestRuleExpr gs)) =
  Ret (Split (unwrapOuterParens base) (buildRequestRuleExpr gs)).
Proof.
  intros Ht Hne Hp Hr Hg Hw. rewrite build_rules by done. unfold combineBillingExpr.
  rewrite (trim_id base), (trim_id (join _ _)) by (done || by apply rules_trimmed).
  rewrite !(proj2 (nonempty_spec _)); [|by destruct gs as [|g [|g2 gs]]|done]. cbn [negb].
  pose proof (factors_ok gs Hw) as Hf. set (fs := factor_text <$> gs) in *.
  assert (fs ≠ []) as Hfn by (subst fs; by destruct gs).
  set (wb := "(" ++ base ++ ")") in *.
  assert ((level 42 0 wb = Some 0%Z ∧ trimmed wb = true) ∧ wb ≠ []) as Hwb.
  { split; [split|done]; [by apply wrapped_level|by apply (trimmed_between 40 base ")")]. }
  assert ("(" ++ base ++ ") * " ++ join " * " fs = join " * " (wb :: fs)) as ->.
  { subst wb. destruct fs; [done|]. cbn [join app]. by rewrite <- !app_assoc. }
  assert (Forall (λ p, (level 42 0 p = Some 0%Z ∧ trimmed p = true) ∧ p ≠ []) (wb :: fs)) as Hall by (by constructor).
  unfold splitBillingExprAndRequestRules. rewrite trim_id.
  2:{ apply trimmed_join. eapply Forall_impl; [exact Hall|]. by intros ? [[? ?] ?]. }
  rewrite (proj2 (nonempty_spec (join _ _))) by (by destruct fs). cbn [negb].
  rewrite splitTopLevelMultiply_join by done.
  destruct fs as [|f fs'] eqn:E; [done|]. rewrite <- E in *. cbn [length Nat.leb].
  rewrite (proj2 (Nat.leb_gt _ _)) by (rewrite E; cbn; lia).
  cbn [classify_parts].
  assert (tryParseRequestRuleExpr wb = Ret None) as ->.
  { unfold tryParseRequestRuleExpr. rewrite trim_id, (proj2 (nonempty_spec wb)) by tauto. cbn [negb].
    rewrite splitTopLevelMultiply_one by done.
    cbn [parse_factors]. by rewrite Hr. }
  cbn [mbind exc_bind]. subst fs. rewrite classify_factors by done. cbn [mbind exc_bind].
  rewrite E. rewrite <- E. by subst wb; rewrite unwrap_wrapped.
Qed.

Definition sample_base : jsstr := "p < 200000 ? tier(" ++ DQ ++ "base" ++ DQ ++ ", p * 3 + c * 15) : tier(" ++ DQ ++ "long" ++ DQ ++ ", p * 6)".

Lemma split_combine_witness :
  splitBillingExprAndRequestRules (combineBillingExpr sample_base (buildRequestRuleExpr sample_groups)) =
  Ret (Split (unwrapOuterParens sample_base) (buildRequestRuleExpr sample_groups)).
Proof. apply (split_combine sample_base sample_groups); (vm_compute; reflexivity) || (vm_compute; discriminate). Defined.

(** The loop of [unwrapOuterParens] ends for every input: its result is not
    enclosed in parentheses, so unwrapping again changes nothing, and more
    turns than the text has characters would not either. *)
Theorem unwrap_complete e n :
  (length (trim e) <= n)%nat →
  hasFullOuterParens (unwrapOuterParens e) = false ∧
  unwrap_fuel n (trim e) = unwrapOuterParens e.
Proof.
  intros Hn. unfold unwrapOuterParens.
  destruct (unwrap_fuel_enough (length (trim e)) n (trim e)) as [H1 H2]; [done..|]. split; [exact H2|by symmetry].
Qed.

Lemma unwrap_complete_witness :
  hasFullOuterParens (unwrapOuterParens " ((a) * (b)) ") = false ∧
  unwrap_fuel 50 (trim " ((a) * (b)) ") = unwrapOuterParens " ((a) * (b)) ".
Proof. apply unwrap_complete. vm_compute. lia. Defined.

(** A normalised condition has a mode its source offers, and normalising it
    again changes nothing, whatever value came in. *)
Theorem normalizeCondition_stable v :
  let c := normalizeCondition v in
  normalizeCondition (cond_value c) = c ∧
  match c with
  | ParamHeaderCondition s _ m _ => mode_allowed (ph_text s) m = true
  | TimeCondition _ z m _ _ _ => mode_allowed SOURCE_TIME m = true ∧ z ≠ []
  end.
Proof. cbv zeta. apply normalize_stable. Qed.

(** A quoted text with an escape JSON does not have makes the parser throw. *)
Example bad_escape_throws :
  tryParseRequestRuleExpr ("(has(header(" ++ DQ ++ "x" ++ DQ ++ "), " ++ DQ ++ "\q" ++ DQ ++ ") ? 2 : 1)") = Throw.
Proof. vm_compute. reflexivity. Qed.
End BillingRoundTrip.
