(* ===== verification/TierExpr.v ===== *)
(** * Visual tier editor ([web/src/features/pricing/lib/tier-expr.ts])

    The visual editor shows a tiered billing expression as a list of tiers and
    writes it back as text.  This file translates the tier record and its
    normalisation, the text builder, the parser with its regeneration check,
    and the set-up of the local cost estimator. *)

From S2P Require Import Prelude JsString JsRegExp JsNumber JsValue BillingExpr.
Local Open Scope N_scope.

Module TierExpr.
Import BillingExpr.

(** ** Data *)

Inductive CacheMode := timed | generic.

#[global] Instance CacheMode_eq_dec : EqDecision CacheMode.
Proof. solve_decision. Defined.

(** The bound of a condition is a number, or the text of an input field. *)
Inductive CondBound := BNum (n : number) | BStr (s : jsstr).

Record TierConditionInput := TCond { ci_var : jsstr; ci_op : jsstr; ci_value : option CondBound }.

Record VisualTier := VTier {
  label : jsstr;
  tconditions : list TierConditionInput;
  input_unit_cost : number;
  output_unit_cost : number;
  cache_mode : CacheMode;
  cache_read_unit_cost : number;
  cache_create_unit_cost : number;
  cache_create_1h_unit_cost : number;
  image_unit_cost : number;
  image_output_unit_cost : number;
  audio_input_unit_cost : number;
  audio_output_unit_cost : number;
}.

(** [Partial<VisualTier>]: a missing property is [None]. *)
Record PartialTier := PTier {
  p_label : option jsstr;
  p_conditions : option (list TierConditionInput);
  p_input : option number;
  p_output : option number;
  p_cache_mode : option CacheMode;
  p_cache_read : option number;
  p_cache_create : option number;
  p_cache_create_1h : option number;
  p_image : option number;
  p_image_output : option number;
  p_audio_input : option number;
  p_audio_output : option number;
}.

Definition VisualConfig : Type := list VisualTier.

(** [Number(x) || 0] of an optional number. *)
Definition cost (x : option number) : number := num_or_0 (default NaN x).

Definition getTierCacheMode (tier : PartialTier) : CacheMode :=
  match p_cache_mode tier with
  | Some m => m
  | None => if num_ltb (of_Z 0) (default NaN (p_cache_create_1h tier)) then timed else generic
  end.

(** The spread of the tier comes after the label, the two base costs, the
    cache mode and the conditions, and overrides them where it has them. *)
Definition normalizeVisualTier (tier : PartialTier) : VisualTier := {|
  label := default [] (p_label tier);
  tconditions := default [] (p_conditions tier);
  input_unit_cost := default (of_Z 0) (p_input tier);
  output_unit_cost := default (of_Z 0) (p_output tier);
  cache_mode := getTierCacheMode tier;
  cache_read_unit_cost := cost (p_cache_read tier);
  cache_create_unit_cost := cost (p_cache_create tier);
  cache_create_1h_unit_cost := cost (p_cache_create_1h tier);
  image_unit_cost := cost (p_image tier);
  image_output_unit_cost := cost (p_image_output tier);
  audio_input_unit_cost := cost (p_audio_input tier);
  audio_output_unit_cost := cost (p_audio_output tier);
|}.

(** A tier as a partial tier with every property. *)
Definition as_partial (t : VisualTier) : PartialTier :=
  PTier (Some (label t)) (Some (tconditions t)) (Some (input_unit_cost t)) (Some (output_unit_cost t))
    (Some (cache_mode t)) (Some (cache_read_unit_cost t)) (Some (cache_create_unit_cost t))
    (Some (cache_create_1h_unit_cost t)) (Some (image_unit_cost t)) (Some (image_output_unit_cost t))
    (Some (audio_input_unit_cost t)) (Some (audio_output_unit_cost t)).

Definition createDefaultVisualConfig : VisualConfig :=
  [normalizeVisualTier (PTier (Some "base") (Some []) (Some (of_Z 0)) (Some (of_Z 0)) (Some generic)
     None None None None None None None)].

Definition normalizeVisualConfig (config : option VisualConfig) : VisualConfig :=
  match config with
  | None | Some [] => createDefaultVisualConfig
  | Some tiers => (λ t, normalizeVisualTier (as_partial t)) <$> tiers
  end.

(** ** Writing *)

Definition bound_text (b : CondBound) : jsstr :=
  match b with BNum n => num_to_string n | BStr s => s end.

(** [c.var && c.op && c.value != null && c.value !== ''] *)
Definition cond_kept (c : TierConditionInput) : bool :=
  nonempty (ci_var c) && nonempty (ci_op c) &&
  match ci_value c with None | Some (BStr []) => false | _ => true end.

Definition cond_str (c : TierConditionInput) : jsstr :=
  ci_var c ++ " " ++ ci_op c ++ " " ++ match ci_value c with Some b => bound_text b | None => "undefined" end.

Definition buildConditionStr (conditions : list TierConditionInput) : jsstr :=
  join " && " (cond_str <$> List.filter cond_kept conditions).

(** The cost a field name of [BILLING_CACHE_VAR_MAP] reads. *)
Definition tier_field (t : VisualTier) (f : jsstr) : option number :=
  if str_eqb f "cache_read_unit_cost" then Some (cache_read_unit_cost t)
  else if str_eqb f "cache_create_unit_cost" then Some (cache_create_unit_cost t)
  else if str_eqb f "cache_create_1h_unit_cost" then Some (cache_create_1h_unit_cost t)
  else if str_eqb f "image_unit_cost" then Some (image_unit_cost t)
  else if str_eqb f "image_output_unit_cost" then Some (image_output_unit_cost t)
  else if str_eqb f "audio_input_unit_cost" then Some (audio_input_unit_cost t)
  else if str_eqb f "audio_output_unit_cost" then Some (audio_output_unit_cost t)
  else None.

Definition buildTierBodyExpr (tier : VisualTier) : jsstr :=
  let ic := num_or_0 (input_unit_cost tier) in
  let oc := num_or_0 (output_unit_cost tier) in
  join " + " (["p * " ++ num_to_string ic; "c * " ++ num_to_string oc] ++
    omap (λ cv, let v := cost (tier_field tier cv.1) in
                if num_eqb v (of_Z 0) then None else Some (cv.2 ++ " * " ++ num_to_string v))
      BILLING_CACHE_VAR_MAP).

Definition tier_call (lbl : jsstr) (tier : VisualTier) : jsstr :=
  "tier(" ++ DQ ++ lbl ++ DQ ++ ", " ++ buildTierBodyExpr tier ++ ")".

Definition or_label (l d : jsstr) : jsstr := if nonempty l then l else d.

(** The loop over the tiers from index [i] on. *)
Fixpoint tier_parts (i : Z) (tiers : list VisualTier) : list jsstr :=
  match tiers with
  | [] => []
  | tier :: rest =>
    let body := tier_call (or_label (label tier) ("tier_" ++ Z_to_string (i + 1))) tier in
    let cond := buildConditionStr (tconditions tier) in
    (if nonempty cond && match rest with [] => false | _ => true end then cond ++ " ? " ++ body else body)
    :: tier_parts (i + 1) rest
  end.

Definition generateExprFromVisualConfig (config : option VisualConfig) : jsstr :=
  match config with
  | None | Some [] => "p * 0 + c * 0"
  | Some [tier] =>
    let body := tier_call (or_label (label tier) "default") tier in
    let cond := buildConditionStr (tconditions tier) in
    if nonempty cond then cond ++ " ? " ++ body ++ " : p * 0 + c * 0" else body
  | Some tiers => join " : " (tier_parts 0 tiers)
  end.

(** ** Reading *)

(** The version prefix, dropped. *)
Definition visual_version_regex : re :=
  seqs [Bol; lit_re "v"; Plus digit; lit_re ":"; Grp 1 (Star any_s); Eol].

(** An optional further product, its number captured as group [i]. *)
Definition opt_cost (i : nat) (v : jsstr) : re :=
  Opt (seqs [Star space; lit_re "+"; Star space; lit_re v; Star space; lit_re "*"; Star space; Grp i (Plus num_chars)]).

(** The two base products and the optional ones, from group [i] on. *)
Definition body_pat (i : nat) : list re :=
  [lit_re "p"; Star space; lit_re "*"; Star space; Grp i (Plus num_chars); Star space; lit_re "+"; Star space;
   lit_re "c"; Star space; lit_re "*"; Star space; Grp (i + 1) (Plus num_chars)]
  ++ imap (λ j cv, opt_cost (i + 2 + j) cv.2) BILLING_CACHE_VAR_MAP.

Definition single_regex : re :=
  seqs ([Bol; lit_re ("tier(" ++ DQ); Grp 1 (Star (none_of DQ)); lit_re (DQ ++ ","); Star space]
        ++ body_pat 2 ++ [lit_re ")"; Eol]).

Definition visual_tier_regex : re :=
  seqs ([Opt (seqs [cond_group; Star space; lit_re "?"; Star space]);
         lit_re ("tier(" ++ DQ); Grp 2 (Star (none_of DQ)); lit_re (DQ ++ ","); Star space]
        ++ body_pat 3 ++ [lit_re ")"]).

(** The tier of a match whose label is group [l] and whose costs start at
    group [i]; absent groups stay absent. *)
Definition tier_of_match (m : caps) (conds : list TierConditionInput) (l i : nat) : VisualTier :=
  let opt j := option_map Number_of_string (cap m (i + 2 + j)) in
  normalizeVisualTier
    (PTier (Some (grp m l)) (Some conds) (Some (Number_of_string (grp m i)))
       (Some (Number_of_string (grp m (i + 1)))) None
       (opt 0%nat) (opt 1%nat) (opt 2%nat) (opt 3%nat) (opt 4%nat) (opt 5%nat) (opt 6%nat)).

Definition visual_conditions (condStr : jsstr) : list TierConditionInput :=
  (λ c, TCond (tc_var c) (tc_op c) (Some (BNum (tc_value c)))) <$> parse_tier_conditions condStr.

(** [s.replace(/\s+/g, '')] *)
Definition strip_ws (s : jsstr) : jsstr := re_replace (Plus space) "" s.

Definition tryParseVisualConfig (exprStr : jsstr) : option VisualConfig :=
  if negb (nonempty exprStr) then None
  else
    let body := match re_match visual_version_regex exprStr with
                | Some m => grp m 1 | None => exprStr end in
    match re_match single_regex body with
    | Some m => Some (normalizeVisualConfig (Some [tier_of_match m [] 1 2]))
    | None =>
      let tiers := (λ m, tier_of_match (m_caps m) (visual_conditions (grp (m_caps m) 1)) 2 3)
                     <$> exec_all visual_tier_regex body in
      match tiers with
      | [] => None
      | _ =>
        let cfg := normalizeVisualConfig (Some tiers) in
        if str_eqb (strip_ws (generateExprFromVisualConfig (Some cfg))) (strip_ws body)
        then Some cfg else None
      end
    end.

(** ** Estimator *)

Definition ESTIMATOR_VARS : list (jsstr * jsstr) := [
  ("cr", "cacheReadTokens");
  ("cc", "cacheCreateTokens");
  ("cc1h", "cacheCreate1hTokens");
  ("img", "imageTokens");
  ("img_o", "imageOutputTokens");
  ("ai", "audioInputTokens");
  ("ao", "audioOutputTokens")
].

Record EvalResult := Eval {
  e_cost : number;
  e_matchedTier : jsstr;
  e_error : option jsstr;
}.

(** The numeric variables the evaluated code sees; [values] reads a token
    count by its state key. *)
Definition estimator_env (promptTokens completionTokens : number) (values : jsstr → number) :
    list (jsstr * number) :=
  let v k := num_or_0 (values k) in
  let len := num_add (num_add (num_add promptTokens (v "cacheReadTokens")) (v "cacheCreateTokens"))
               (v "cacheCreate1hTokens") in
  [("p", promptTokens); ("c", completionTokens); ("len", len)] ++
  ((λ f, (f.1, v f.2)) <$> ESTIMATOR_VARS).

(** [run] stands for evaluating the text as code of the host language in an
    environment: the value and the last tier name passed to [tier], or the
    message of the exception. *)
Definition evalExprLocally (run : jsstr → list (jsstr * number) → (number * jsstr) + jsstr)
    (exprStr : jsstr) (promptTokens completionTokens : number) (values : jsstr → number) : EvalResult :=
  if negb (nonempty exprStr) || negb (nonempty (trim exprStr)) then Eval (of_Z 0) [] None
  else match run exprStr (estimator_env promptTokens completionTokens values) with
       | inl (x, t) => Eval (num_or_0 x) t None
       | inr message => Eval (of_Z 0) [] (Some message)
       end.

Definition extra_vars_regex : re :=
  seqs [WordB; Grp 1 (alts (fst <$> ESTIMATOR_VARS)); WordB].

Definition exprUsesExtraVars (exprStr : jsstr) : bool :=
  if negb (nonempty exprStr) then false else re_test extra_vars_regex exprStr.

Example visual_sample :
  let t l cs i o cr := normalizeVisualTier (PTier (Some l) (Some cs) (Some (Number_of_string i))
      (Some (Number_of_string o)) None (Some (Number_of_string cr)) None None None None None None) in
  let cfg := [t "base" [TCond "p" "<=" (Some (BNum (of_Z 200000)))] "1.25" "10" "0.3"; t "long" [] "2.5" "15" "0"] in
  tryParseVisualConfig (generateExprFromVisualConfig (Some cfg)) = Some cfg ∧
  exprUsesExtraVars (generateExprFromVisualConfig (Some cfg)) = true ∧
  generateExprFromVisualConfig (Some cfg) =
    "p <= 200000 ? tier(" ++ DQ ++ "base" ++ DQ ++ ", p * 1.25 + c * 10 + cr * 0.3) : tier(" ++ DQ ++ "long" ++ DQ ++ ", p * 2.5 + c * 15)".
Proof. vm_compute. repeat split. Qed.
End TierExpr.
