(* ===== verification/TierExprFacts.v ===== *)
(** * Theorems on the visual tier editor

    A single unconditional tier survives being written and read back, whatever
    of its seven extra costs are present. *)

From S2P Require Import Prelude JsString JsRegExp JsNumber JsValue BillingExpr BillingExprFacts TierExpr.
Local Open Scope N_scope.

Module TierExprFacts.
Import BillingExpr BillingExprFacts TierExpr.

(** ** Matching by the first attempt

    The patterns of the editor are ambiguous (a plus sign may belong to a
    number), so these lemmas follow the first attempt and need it to succeed. *)

Section First.
Context {R : Type} (k : option N → jsstr → caps → option R) (x : R).

Lemma greedy_first P (k' : option N → jsstr → caps → option R) prev a b c :
  forallb P a = true → starts_out P b → k' (last_char prev a) b c = Some x →
  greedy P k' prev (a ++ b) c = Some x.
Proof.
  revert prev. induction a as [|y a IH]; intros prev Ha Hb Hk; cbn [app greedy].
  - destruct b as [|z b]; cbn in Hb |- *; [done|]. by rewrite Hb.
  - cbn in Ha. apply andb_true_iff in Ha as [Hy Ha]. rewrite Hy.
    rewrite (IH (Some y)); [done|done|done|]. by rewrite (last_char_cons prev).
Qed.

Lemma first_star P r prev a b c :
  forallb P a = true → starts_out P b → mtch r (last_char prev a) b c k = Some x →
  mtch (Seq (Star (Chr P)) r) prev (a ++ b) c k = Some x.
Proof. intros Ha Hb Hk. rewrite mtch_seq, mtch_star_chr. by apply greedy_first. Qed.

Lemma first_grp_star P i r prev a b c :
  forallb P a = true → starts_out P b → mtch r (last_char prev a) b ((i, a) :: c) k = Some x →
  mtch (Seq (Grp i (Star (Chr P))) r) prev (a ++ b) c k = Some x.
Proof.
  intros Ha Hb Hk. rewrite mtch_seq, mtch_grp, mtch_star_chr. apply greedy_first; [done|done|].
  by rewrite take_app_sub.
Qed.

Lemma first_grp_plus P i r prev a b c :
  forallb P a = true → a ≠ [] → starts_out P b → mtch r (last_char prev a) b ((i, a) :: c) k = Some x →
  mtch (Seq (Grp i (Plus (Chr P))) r) prev (a ++ b) c k = Some x.
Proof.
  intros Ha Hne Hb Hk. destruct a as [|y a]; [done|]. rewrite mtch_seq, mtch_grp, mtch_plus_chr. cbn [app].
  cbn in Ha. apply andb_true_iff in Ha as [Hy Ha]. rewrite Hy. apply greedy_first; [done|done|].
  change (y :: a ++ b) with ((y :: a) ++ b). rewrite take_app_sub. by rewrite (last_char_cons prev).
Qed.

Lemma first_lit w r prev s c : mtch r (last_char prev w) s c k = Some x → mtch (Seq (lit_re w) r) prev (w ++ s) c k = Some x.
Proof. intros Hk. by rewrite mtch_seq, mtch_lit_app. Qed.

Lemma first_opt r q prev s c : mtch (Seq r q) prev s c k = Some x → mtch (Seq (Opt r) q) prev s c k = Some x.
Proof. rewrite !mtch_seq. cbn [mtch Opt]. by intros ->. Qed.

Lemma skip_opt r q prev s c : mtch r prev s c (λ p s c, mtch q p s c k) = None →
  mtch (Seq (Opt r) q) prev s c k = mtch q prev s c k.
Proof. rewrite mtch_seq. cbn [mtch Opt]. by intros ->. Qed.
End First.

(** Sequences flatten. *)
Lemma mtch_seqs_app {R} rs qs prev s c (k : option N → jsstr → caps → option R) :
  mtch (seqs (rs ++ qs)) prev s c k = mtch (Seq (seqs rs) (seqs qs)) prev s c k.
Proof.
  revert prev s c. induction rs as [|r rs IH]; intros prev s c; [done|]. cbn [app seqs foldr].
  rewrite !mtch_seq. cbn [mtch]. apply mtch_ext. intros p t d. fold (seqs (rs ++ qs)). rewrite IH. done.
Qed.

(** ** Numbers *)

(** A cost that is written in the characters the parser reads and reads back
    as itself.  Zero is the positive one. *)
Definition cost_ok (x : number) : bool :=
  bool_decide (num_or_0 x = x) && num_text_ok x && forallb is_num_char (num_to_string x) && nonempty (num_to_string x).

Lemma cost_ok_spec x : cost_ok x = true →
  num_or_0 x = x ∧ Number_of_string (num_to_string x) = x ∧ forallb is_num_char (num_to_string x) = true ∧ num_to_string x ≠ [].
Proof.
  unfold cost_ok, num_text_ok. rewrite !andb_true_iff, !bool_decide_eq_true. intros [[[? ?] ?] Hn].
  split; [done|]. split; [done|]. split; [done|]. by destruct (num_to_string x).
Qed.

Lemma cost_zero x : cost_ok x = true → num_eqb x (of_Z 0) = true → x = of_Z 0.
Proof. intros [Hx _]%cost_ok_spec He. destruct x as [[]|[]| |[] m e]; done. Qed.

(** ** One optional product *)

Definition opt_text (v : jsstr) (x : number) : jsstr :=
  if num_eqb x (of_Z 0) then [] else " + " ++ v ++ " * " ++ num_to_string x.

Definition opt_pat (i : nat) (v : jsstr) : re :=
  seqs [Star space; lit_re "+"; Star space; lit_re v; Star space; lit_re "*"; Star space; Grp i (Plus num_chars)].

(** [v] is not read where another variable [w] stands, nor at the end. *)
Definition not_read (v w : jsstr) : Prop := ∀ R i prev t c (k : option N → jsstr → caps → option R),
  mtch (opt_pat i v) prev (" + " ++ w ++ " * " ++ t) c k = None.

Lemma not_read_end {R} i v prev c (k : option N → jsstr → caps → option R) t :
  mtch (opt_pat i v) prev (")" ++ t) c k = None.
Proof.
  unfold opt_pat. cbn [seqs foldr]. rewrite mtch_seq. unfold space at 1. rewrite mtch_star_chr. cbn [greedy app].
  change (is_ws 41) with false. cbv iota. by lit_step.
Qed.

Ltac scan :=
  repeat first
    [ progress (rewrite mtch_seq_lit; lit_eval)
    | rewrite mtch_seq; unfold space at 1; rewrite mtch_star_chr; cbn [greedy app];
      repeat match goal with |- context [is_ws ?a] => let v := eval vm_compute in (is_ws a) in change (is_ws a) with v end;
      cbv iota ].

(** The variables in the order of the pattern: each is skipped where a later one
    stands. *)
Definition opt_vars : list jsstr := ["cr"; "cc"; "cc1h"; "img"; "img_o"; "ai"; "ao"].

Lemma opt_vars_sorted : StronglySorted not_read opt_vars.
Proof.
  unfold opt_vars. repeat constructor; intros R i prev t c k; unfold opt_pat; cbn [seqs foldr]; by scan.
Qed.

(** ** The optional products *)

Fixpoint opts_text (vs : list jsstr) (xs : list number) : jsstr :=
  match vs, xs with v :: vs, x :: xs => opt_text v x ++ opts_text vs xs | _, _ => [] end.

Fixpoint opts_pats (i : nat) (vs : list jsstr) : list re :=
  match vs with [] => [] | v :: vs => Opt (opt_pat i v) :: opts_pats (S i) vs end.

Fixpoint opts_caps (i : nat) (xs : list number) (c : caps) : caps :=
  match xs with
  | [] => c
  | x :: xs => opts_caps (S i) xs (if num_eqb x (of_Z 0) then c else (i, num_to_string x) :: c)
  end.

(** A variable name starts with a letter. *)
Definition var_ok (v : jsstr) : Prop := starts_out is_ws v ∧ v ≠ [].

Lemma starts_out_app P a b : a ≠ [] → starts_out P a → starts_out P (a ++ b).
Proof. by destruct a. Qed.

Lemma number_starts x b : cost_ok x = true → starts_out is_ws (num_to_string x ++ b).
Proof.
  intros (_ & _ & Hc & Hne)%cost_ok_spec. apply num_chars_no_ws in Hc.
  destruct (num_to_string x) as [|a s]; [done|]. unfold no_ws in Hc. cbn [forallb app starts_out] in *.
  apply andb_true_iff in Hc as [Ha _]. by apply negb_true_iff in Ha.
Qed.

Lemma opts_text_head vs xs : 
  opts_text vs xs ++ ")" = ")" ∨ ∃ w t, w ∈ vs ∧ opts_text vs xs ++ ")" = " + " ++ w ++ " * " ++ t.
Proof.
  revert xs. induction vs as [|v vs IH]; intros [|x xs]; [by left|by left|by left|]. cbn [opts_text]. unfold opt_text.
  destruct (num_eqb x (of_Z 0)).
  - destruct (IH xs) as [H|(w & t & Hw & H)]; [left; exact H|right]. exists w, t. split; [by right|exact H].
  - right. eexists v, _. split; [left|]. rewrite <- !app_assoc. reflexivity.
Qed.

Lemma opts_text_starts vs xs : starts_out is_num_char (opts_text vs xs ++ ")").
Proof. destruct (opts_text_head vs xs) as [->|(w & t & _ & ->)]; done. Qed.

Lemma product_match {R} i v q x prev s c (k : option N → jsstr → caps → option R) y :
  var_ok v → cost_ok x = true → starts_out is_num_char s →
  (∀ prev, mtch (seqs q) prev s ((i, num_to_string x) :: c) k = Some y) →
  mtch (Seq (opt_pat i v) (seqs q)) prev (" + " ++ v ++ " * " ++ num_to_string x ++ s) c k = Some y.
Proof.
  intros [Hv Hvne] Hx Hs Hk. unfold opt_pat. rewrite <- mtch_seqs_app. cbn [app seqs foldr]. fold (seqs q).
  pose proof (cost_ok_spec x Hx) as (_ & _ & Hc & Hne).
  change (32 :: 43 :: 32 :: ?z) with (" " ++ "+" ++ " " ++ z).
  change (32 :: 42 :: 32 :: ?z) with (" " ++ "*" ++ " " ++ z). apply first_star; [done|done|]. apply first_lit.
  apply first_star; [done|by apply starts_out_app|]. apply first_lit.
  apply first_star; [done|done|]. apply first_lit.
  apply first_star; [done|by apply number_starts|]. by apply first_grp_plus.
Qed.

Lemma opts_match vs : StronglySorted not_read vs → Forall var_ok vs → ∀ xs, length xs = length vs →
  Forall (λ x, cost_ok x = true) xs → ∀ i prev c,
  mtch (seqs (opts_pats i vs ++ [lit_re ")"; Eol])) prev (opts_text vs xs ++ ")") c (λ _ _ c, Some c)
  = Some (opts_caps i xs c).
Proof.
  induction 1 as [|v vs Hvs IH Hnr]; intros Hok [|x xs] Hl Hxs i prev c; try done.
  apply Forall_cons in Hok as [Hv Hok]. apply Forall_cons in Hxs as [Hx Hxs]. injection Hl as Hl.
  cbn [opts_text opts_caps opts_pats app seqs foldr]. fold (seqs (opts_pats (S i) vs ++ [lit_re ")"; Eol])).
  unfold opt_text. destruct (num_eqb x (of_Z 0)) eqn:E.
  - rewrite skip_opt; [by apply IH|]. cbn [app].
    destruct (opts_text_head vs xs) as [->|(w & t & Hw & ->)]; [apply (not_read_end _ _ _ _ _ [])|].
    rewrite Forall_forall in Hnr. by apply Hnr.
  - apply first_opt. rewrite <- !app_assoc. apply product_match; [done|done|apply opts_text_starts|].
    intros prev'. by apply IH.
Qed.

(** ** A single tier *)

Definition extras (t : VisualTier) : list number :=
  [cache_read_unit_cost t; cache_create_unit_cost t; cache_create_1h_unit_cost t; image_unit_cost t;
   image_output_unit_cost t; audio_input_unit_cost t; audio_output_unit_cost t].

(** A tier the editor holds after normalisation, without conditions: a label
    the text can carry, costs as above, and the cache mode its costs imply. *)
Record tier_ok (t : VisualTier) : Prop := {
  ok_label : label t ≠ [] ∧ forallb (λ a, negb (bool_decide (a ∈ DQ))) (label t) = true;
  ok_conditions : tconditions t = [];
  ok_costs : Forall (λ x, cost_ok x = true) (input_unit_cost t :: output_unit_cost t :: extras t);
  ok_mode : cache_mode t = if num_ltb (of_Z 0) (cache_create_1h_unit_cost t) then timed else generic;
}.

Lemma join_cons sep a l : join sep (a :: l) = a ++ concat (map (λ b, sep ++ b) l).
Proof.
  revert a. induction l as [|b l IH]; intros a; [cbn; by rewrite app_nil_r|].
  change (join sep (a :: b :: l)) with (a ++ sep ++ join sep (b :: l)). rewrite IH. cbn. by rewrite <- !app_assoc.
Qed.

Definition extra_product (t : VisualTier) (cv : jsstr * jsstr) : option jsstr :=
  let v := cost (tier_field t cv.1) in
  if num_eqb v (of_Z 0) then None else Some (cv.2 ++ " * " ++ num_to_string v).

Lemma extras_text t fvs xs : Forall2 (λ cv x, cost (tier_field t cv.1) = x) fvs xs →
  concat (map (λ b, " + " ++ b) (omap (extra_product t) fvs)) = opts_text (fvs.*2) xs.
Proof.
  induction 1 as [|cv x fvs xs Hx _ IH]; [done|].
  change (omap (extra_product t) (cv :: fvs)) with
    (match extra_product t cv with Some y => y :: omap (extra_product t) fvs | None => omap (extra_product t) fvs end).
  change (opts_text (cv :: fvs).*2 (x :: xs)) with (opt_text cv.2 x ++ opts_text fvs.*2 xs).
  unfold extra_product at 1, opt_text. rewrite Hx. destruct (num_eqb x (of_Z 0)); [exact IH|].
  cbn [map concat]. rewrite IH. by rewrite <- !app_assoc.
Qed.

Lemma cost_some x : cost_ok x = true → cost (Some x) = x.
Proof. by intros [? _]%cost_ok_spec. Qed.

Lemma body_text t : Forall (λ x, cost_ok x = true) (input_unit_cost t :: output_unit_cost t :: extras t) →
  buildTierBodyExpr t =
  "p * " ++ num_to_string (input_unit_cost t) ++ " + c * " ++ num_to_string (output_unit_cost t) ++
  opts_text opt_vars (extras t).
Proof.
  intros H. apply Forall_cons in H as [Hi [Ho He]%Forall_cons]. unfold buildTierBodyExpr. cbv zeta.
  change (omap _ BILLING_CACHE_VAR_MAP) with (omap (extra_product t) BILLING_CACHE_VAR_MAP).
  rewrite (proj1 (cost_ok_spec _ Hi)), (proj1 (cost_ok_spec _ Ho)). cbn [app]. rewrite join_cons.
  cbn [map concat]. rewrite (extras_text t BILLING_CACHE_VAR_MAP (extras t)).
  - by rewrite <- !app_assoc.
  - unfold extras in He |- *. repeat (apply Forall_cons in He as [? He]). repeat constructor; by apply cost_some.
Qed.

Lemma opt_vars_ok : Forall var_ok opt_vars.
Proof. repeat constructor; done. Qed.

(** The captures of a single tier's text. *)
Lemma single_match t : tier_ok t →
  re_match single_regex (tier_call (label t) t) =
  Some (opts_caps 4 (extras t) [(3%nat, num_to_string (output_unit_cost t)); (2%nat, num_to_string (input_unit_cost t)); (1%nat, label t)]).
Proof.
  intros [[_ Hl] _ Hc _]. pose proof (body_text t Hc) as Hb.
  apply Forall_cons in Hc as [Hi [Ho He]%Forall_cons].
  unfold tier_call. rewrite Hb. unfold single_regex.
  change (body_pat 2) with ([lit_re "p"; Star space; lit_re "*"; Star space; Grp 2 (Plus num_chars); Star space; lit_re "+"; Star space;
     lit_re "c"; Star space; lit_re "*"; Star space; Grp 3 (Plus num_chars)] ++ opts_pats 4 opt_vars).
  rewrite <- !app_assoc.
  set (tail := opts_pats 4 opt_vars ++ [lit_re ")"; Eol]).
  cbn [app seqs foldr]. fold (seqs tail). rewrite re_match_anchored.
  pose proof (cost_ok_spec _ Hi) as (_ & _ & Hi1 & Hi2). pose proof (cost_ok_spec _ Ho) as (_ & _ & Ho1 & Ho2).
  set (n1 := num_to_string (input_unit_cost t)) in *. set (n2 := num_to_string (output_unit_cost t)) in *.
  match goal with |- mtch ?r ?p ?s ?c ?k = ?y =>
    change (mtch r p (("tier(" ++ DQ) ++ label t ++ (DQ ++ ",") ++ " " ++ "p" ++ " " ++ "*" ++ " " ++ n1 ++ " " ++ "+" ++
      " " ++ "c" ++ " " ++ "*" ++ " " ++ n2 ++ (opts_text opt_vars (extras t) ++ ")")) c k = y) end.
  apply first_lit, first_grp_star; [done|done|]. apply first_lit, first_star; [done|done|].
  apply first_lit, first_star; [done|done|]. apply first_lit, first_star; [done|by apply number_starts|].
  apply first_grp_plus; [done|done|done|]. apply first_star; [done|done|]. apply first_lit, first_star; [done|done|].
  apply first_lit, first_star; [done|done|]. apply first_lit, first_star; [done|by apply number_starts|].
  apply first_grp_plus; [done|done|apply opts_text_starts|].
  apply opts_match; [apply opt_vars_sorted|apply opt_vars_ok|done|done].
Qed.

(** A captured cost reads back; a missing one is zero. *)
Lemma opts_caps_cap i xs c j : (j < i)%nat → cap (opts_caps i xs c) j = cap c j.
Proof.
  revert i c. induction xs as [|x xs IH]; intros i c Hj; [done|]. cbn [opts_caps]. rewrite IH by lia.
  destruct (num_eqb x (of_Z 0)); [done|]. cbn. by rewrite (proj2 (Nat.eqb_neq j i)) by lia.
Qed.

Lemma opts_caps_nth i xs c j x : Forall (λ x, cost_ok x = true) xs → xs !! j = Some x →
  (∀ n, (i <= n)%nat → cap c n = None) →
  cost (option_map Number_of_string (cap (opts_caps i xs c) (i + j))) = x ∧
  num_ltb (of_Z 0) (default NaN (option_map Number_of_string (cap (opts_caps i xs c) (i + j)))) = num_ltb (of_Z 0) x.
Proof.
  revert i c j. induction xs as [|y xs IH]; intros i c j Hok Hj Hc; [done|]. apply Forall_cons in Hok as [Hy Hok].
  destruct j as [|j].
  - injection Hj as ->. cbn [opts_caps]. rewrite opts_caps_cap by lia. rewrite Nat.add_0_r.
    destruct (num_eqb x (of_Z 0)) eqn:E.
    + rewrite Hc by lia. by rewrite (cost_zero x Hy E).
    + cbn [cap]. rewrite Nat.eqb_refl. cbn [option_map].
      rewrite (proj1 (proj2 (cost_ok_spec x Hy))). split; [by apply cost_some|done].
  - cbn [opts_caps]. replace (i + S j)%nat with (S i + j)%nat by lia. apply IH; [done|done|].
    intros n Hn. destruct (num_eqb y (of_Z 0)); [apply Hc; lia|]. cbn. rewrite (proj2 (Nat.eqb_neq n i)) by lia.
    apply Hc. lia.
Qed.

(** The tier made from the captures. *)
Lemma single_tier_read t : tier_ok t →
  tier_of_match (opts_caps 4 (extras t) [(3%nat, num_to_string (output_unit_cost t));
    (2%nat, num_to_string (input_unit_cost t)); (1%nat, label t)]) [] 1 2 = t.
Proof.
  intros [_ Hcond Hcost Hmode]. apply Forall_cons in Hcost as [Hi [Ho He]%Forall_cons].
  set (c0 := [(3%nat, _); _; _]). unfold tier_of_match, grp. rewrite !opts_caps_cap by lia.
  assert (H0 : ∀ n, (4 <= n)%nat → cap c0 n = None).
  { intros n Hn. do 4 (destruct n as [|n]; [lia|]). done. }
  pose proof (λ j x Hj, opts_caps_nth 4 (extras t) c0 j x He Hj H0) as Hx.
  destruct (Hx 0%nat _ eq_refl) as [X0 _]. destruct (Hx 1%nat _ eq_refl) as [X1 _]. destruct (Hx 2%nat _ eq_refl) as [X2 M2].
  destruct (Hx 3%nat _ eq_refl) as [X3 _]. destruct (Hx 4%nat _ eq_refl) as [X4 _]. destruct (Hx 5%nat _ eq_refl) as [X5 _].
  destruct (Hx 6%nat _ eq_refl) as [X6 _]. clear Hx.
  unfold normalizeVisualTier, getTierCacheMode. cbn [p_label p_conditions p_input p_output p_cache_mode p_cache_read
    p_cache_create p_cache_create_1h p_image p_image_output p_audio_input p_audio_output].
  cbn [Nat.add] in *. rewrite X0, X1, X2, X3, X4, X5, X6, M2, <- Hmode.
  change (default [] (cap c0 1)) with (label t). change (default [] (cap c0 2)) with (num_to_string (input_unit_cost t)).
  change (default [] (cap c0 3)) with (num_to_string (output_unit_cost t)).
  cbn [default]. unfold id. rewrite (proj1 (proj2 (cost_ok_spec _ Hi))), (proj1 (proj2 (cost_ok_spec _ Ho))), <- Hcond.
  by destruct t.
Qed.

Lemma normalize_ok t : tier_ok t → normalizeVisualTier (as_partial t) = t.
Proof.
  intros [_ _ Hcost _]. apply Forall_cons in Hcost as [_ [_ He]%Forall_cons]. unfold extras in He.
  repeat (apply Forall_cons in He as [?%cost_some He]). destruct t. unfold normalizeVisualTier, as_partial.
  cbn in *. congruence.
Qed.

(** A single tier without conditions is read back from the text written
    for it: its label, both base costs, each of the seven extra costs, present
    or not, and the cache mode. *)
Theorem single_tier_round_trip t :
  tier_ok t → tryParseVisualConfig (generateExprFromVisualConfig (Some [t])) = Some [t].
Proof.
  intros Ht. pose proof (single_match t Ht) as Hm. pose proof Ht as [[Hl1 Hl2] Hcond Hcost Hmode].
  unfold generateExprFromVisualConfig. rewrite Hcond. cbn [buildConditionStr]. unfold or_label.
  change (buildConditionStr []) with ([] : jsstr). cbn [nonempty].
  assert (nonempty (label t) = true) as -> by by destruct (label t).
  unfold tryParseVisualConfig. change (nonempty (tier_call (label t) t)) with true. cbn [negb].
  assert (re_match visual_version_regex (tier_call (label t) t) = None) as ->.
  { unfold visual_version_regex, tier_call. cbn [seqs foldr]. rewrite re_match_anchored. by lit_step. }
  rewrite Hm. f_equal. cbn [normalizeVisualConfig fmap list_fmap].
  rewrite single_tier_read by done. by rewrite normalize_ok.
Qed.

Definition sample_tier : VisualTier :=
  VTier "base" [] (Number_of_string "1.25") (Number_of_string "10") timed (Number_of_string "0.3") (of_Z 0)
    (Number_of_string "2.5e-7") (of_Z 0) (of_Z 4) (of_Z 0) (Number_of_string "1e21").

Lemma single_tier_round_trip_witness :
  tryParseVisualConfig (generateExprFromVisualConfig (Some [sample_tier])) = Some [sample_tier].
Proof.
  apply single_tier_round_trip. constructor; [split; [discriminate|vm_compute; reflexivity]|reflexivity| |vm_compute; reflexivity].
  repeat (apply Forall_cons_2; [vm_compute; reflexivity|]). apply Forall_nil_2.
Defined.

(** The single-tier branch of the parser does not compare the regenerated text:
    a text that is no number is taken, and its cost is lost. *)
Example single_tier_unchecked :
  let expr := "tier(" ++ DQ ++ "base" ++ DQ ++ ", p * 1.2.3 + c * 2)" in
  match tryParseVisualConfig expr with
  | Some cfg => generateExprFromVisualConfig (Some cfg) = "tier(" ++ DQ ++ "base" ++ DQ ++ ", p * 0 + c * 2)"
  | None => False
  end.
Proof. vm_compute. reflexivity. Qed.
End TierExprFacts.
