(* ===== verification/KeywordHighlight.v ===== *)
(** * Highlighting matched keywords ([web/src/features/security-audit/matched-keyword-highlight.ts])

    The audit view marks the keywords a request matched.  Text is taken apart
    into code points, every bounded, case-insensitive occurrence of a keyword
    becomes a range, ranges are sorted and merged, and the text is cut into
    highlighted and plain segments; a Markdown plugin does the same in every
    text node of a tree.

    The case folding of one code point, [character.toLowerCase()], is a
    parameter: nothing below depends on the table it uses. *)

From S2P Require Import Prelude JsString JsValue.

Module KeywordHighlight.

Record HighlightedTextSegment := Seg { text : jsstr; highlighted : bool }.

Record TextRange := TRange { start : nat; end_ : nat }.

#[global] Instance TextRange_eq_dec : EqDecision TextRange.
Proof. solve_decision. Defined.

(** [Array.from(s)]: the code points of a string, a lone surrogate alone. *)
Fixpoint code_points (s : jsstr) : list jsstr :=
  match s with
  | [] => []
  | c :: r =>
    match r with
    | d :: r' => if is_lead c && is_trail d then [c; d] :: code_points r' else [c] :: code_points r
    | [] => [[c]]
    end
  end.

(** [chars.join('')] *)
Definition join_chars (cs : list jsstr) : jsstr := concat cs.

Definition isASCIISensitiveWordCharacter (value : option jsstr) : bool :=
  match value with
  | Some [code] =>
    (((48 <=? code) && (code <=? 57)) || ((65 <=? code) && (code <=? 90))
     || ((97 <=? code) && (code <=? 122)) || (code =? 95))%N
  | _ => false
  end.

Definition hasSensitiveKeywordBoundary (source keyword : list jsstr) (st : nat) : bool :=
  let en := st + length keyword in
  let startBoundary :=
    negb (isASCIISensitiveWordCharacter (keyword !! 0)) || (st =? 0)
    || negb (isASCIISensitiveWordCharacter (source !! (st - 1))) in
  let endBoundary :=
    negb (isASCIISensitiveWordCharacter (last keyword)) || (en =? length source)
    || negb (isASCIISensitiveWordCharacter (source !! en)) in
  startBoundary && endBoundary.

(** The comparator of the sort, [compare(left, right) <= 0]. *)
Definition text_range_le (l r : TextRange) : Prop :=
  if bool_decide (start l = start r) then end_ r <= end_ l else start l <= start r.

#[global] Instance text_range_le_dec : RelDecision text_range_le.
Proof. intros a b. unfold text_range_le. destruct (bool_decide _); apply _. Defined.

(** One turn of the merge loop; the merged ranges newest first. *)
Definition text_merge_step (merged : list TextRange) (range : TextRange) : list TextRange :=
  match merged with
  | previous :: older =>
    if start range <=? end_ previous
    then TRange (start previous) (Nat.max (end_ previous) (end_ range)) :: older
    else range :: merged
  | [] => [range]
  end.

Definition mergeTextRanges (ranges : list TextRange) : list TextRange :=
  reverse (fold_left text_merge_step (merge_sort text_range_le ranges) []).

(** [source.slice(i, j)] *)
Definition chars_slice (source : list jsstr) (i j : nat) : list jsstr := take (j - i) (drop i source).

(** The loop that cuts the code points at the merged ranges. *)
Fixpoint cut (source : list jsstr) (cursor : nat) (ranges : list TextRange) : list (list jsstr * bool) :=
  match ranges with
  | [] => if cursor <? length source then [(drop cursor source, false)] else []
  | r :: rest =>
    (if cursor <? start r then [(chars_slice source cursor (start r), false)] else [])
    ++ (chars_slice source (start r) (end_ r), true) :: cut source (end_ r) rest
  end.

Definition segment_of (p : list jsstr * bool) : HighlightedTextSegment := Seg (join_chars p.1) p.2.

Section Folding.
Context (lower : jsstr → jsstr).

Definition foldCodePoints (value : jsstr) : list jsstr := lower <$> code_points value.

(** The loop with its set of folded keywords. *)
Fixpoint normalize_loop (seen : list jsstr) (keywords : list jsstr) : list jsstr :=
  match keywords with
  | [] => []
  | raw :: rest =>
    let keyword := trim raw in
    if negb (nonempty keyword) then normalize_loop seen rest
    else
      let folded := join_chars (foldCodePoints keyword) in
      if set_has seen folded then normalize_loop seen rest
      else keyword :: normalize_loop (set_add seen folded) rest
  end.

Definition normalizeMatchedKeywords (keywords : list jsstr) : list jsstr := normalize_loop [] keywords.

(** The inner loop: the keyword is at [st]. *)
Definition matches_at (foldedSource foldedKeyword : list jsstr) (st : nat) : bool :=
  bool_decide (take (length foldedKeyword) (drop st foldedSource) = foldedKeyword).

(** The ranges of one keyword, in order of their start. *)
Definition keyword_ranges (foldedSource foldedKeyword : list jsstr) : list TextRange :=
  if (length foldedKeyword =? 0) || (length foldedSource <? length foldedKeyword) then []
  else (λ st, TRange st (st + length foldedKeyword)) <$>
       List.filter (λ st, matches_at foldedSource foldedKeyword st
                          && hasSensitiveKeywordBoundary foldedSource foldedKeyword st)
         (seq 0 (S (length foldedSource - length foldedKeyword))).

Definition all_ranges (txt : jsstr) (keywords : list jsstr) : list TextRange :=
  normalizeMatchedKeywords keywords ≫= (λ kw, keyword_ranges (foldCodePoints txt) (foldCodePoints kw)).

(** The segments as code points. *)
Definition segment_chars (txt : jsstr) (keywords : list jsstr) : list (list jsstr * bool) :=
  match txt with
  | [] => []
  | _ =>
    match all_ranges txt keywords with
    | [] => [(code_points txt, false)]
    | ranges => cut (code_points txt) 0 (mergeTextRanges ranges)
    end
  end.

Definition buildHighlightedTextSegments (txt : jsstr) (keywords : list jsstr) : list HighlightedTextSegment :=
  segment_of <$> segment_chars txt keywords.

(** ** The Markdown plugin *)

Inductive HighlightTreeNode := TreeNode {
  type_ : option jsstr;
  value_ : option jsstr;
  tagName : option jsstr;
  properties : option obj;
  children : option (list HighlightTreeNode);
}.

Definition segment_node (s : HighlightedTextSegment) : HighlightTreeNode :=
  if highlighted s
  then TreeNode (Some "element") None (Some "mark") (Some [("data-audit-keyword-highlight", VBool true)])
         (Some [TreeNode (Some "text") (Some (text s)) None None None])
  else TreeNode (Some "text") (Some (text s)) None None None.

Definition is_text_node (n : HighlightTreeNode) : bool :=
  match type_ n with Some t => str_eqb t "text" | None => false end.

(** [walk] with the keywords normalised; it returns the updated node. *)
Fixpoint walk (normalized : list jsstr) (node : HighlightTreeNode) : HighlightTreeNode :=
  match children node with
  | None => node
  | Some cs =>
    let next := (fix go (cs : list HighlightTreeNode) : list HighlightTreeNode :=
      match cs with
      | [] => []
      | child :: rest =>
        (if is_text_node child && negb (length normalized =? 0)
         then segment_node <$> buildHighlightedTextSegments (default [] (value_ child)) normalized
         else [walk normalized child]) ++ go rest
      end) cs in
    TreeNode (type_ node) (value_ node) (tagName node) (properties node) (Some next)
  end.

Definition createKeywordHighlightPlugin (keywords : list jsstr) (tree : HighlightTreeNode) : HighlightTreeNode :=
  walk (normalizeMatchedKeywords keywords) tree.
End Folding.

Example highlight_sample :
  buildHighlightedTextSegments toLowerCase "Say Bomb, bombs: bOmB 炸弹炸弹!" ["bomb"; " BOMB "; "炸弹"]
  = [Seg "Say " false; Seg "Bomb" true; Seg ", bombs: " false; Seg "bOmB" true; Seg " " false;
     Seg "炸弹炸弹" true; Seg "!" false].
Proof. vm_compute. reflexivity. Qed.

#[local] Arguments Nat.ltb : simpl never.
#[local] Arguments Nat.leb : simpl never.

(** ** Code points *)

Lemma code_points_cons c d r :
  code_points (c :: d :: r) =
  if is_lead c && is_trail d then [c; d] :: code_points r else [c] :: code_points (d :: r).
Proof. done. Qed.

Lemma code_points_concat s : concat (code_points s) = s.
Proof.
  assert (∀ n s, length s <= n → concat (code_points s) = s) as H; [|by apply (H (length s))].
  clear s. induction n as [|n IH]; intros s Hn; [by destruct s; [|cbn in Hn; lia]|].
  destruct s as [|c [|d r]]; [done..|]. rewrite code_points_cons. cbn [length] in Hn.
  destruct (is_lead c && is_trail d); cbn [concat app].
  - rewrite IH by lia. done.
  - rewrite IH by (cbn; lia). done.
Qed.

Lemma code_points_nil s : code_points s = [] ↔ s = [].
Proof.
  split; [|by intros ->]. intros H. rewrite <- (code_points_concat s). by rewrite H.
Qed.

(** ** Ranges *)

(** Position [i] lies in one of the ranges. *)
Definition covered (rs : list TextRange) (i : nat) : bool :=
  existsb (λ r, (start r <=? i) && (i <? end_ r)) rs.

Definition in_bounds (n : nat) (r : TextRange) : Prop := start r < end_ r <= n.

(** Ascending, with a gap between neighbours. *)
Definition apart (a b : TextRange) : Prop := end_ a < start b.

Lemma covered_cons r rs i : covered (r :: rs) i = (start r <=? i) && (i <? end_ r) || covered rs i.
Proof. done. Qed.

Lemma covered_app a b i : covered (a ++ b) i = covered a i || covered b i.
Proof. apply existsb_app. Qed.

Lemma covered_perm a b i : a ≡ₚ b → covered a i = covered b i.
Proof.
  unfold covered. induction 1; cbn [existsb]; [done| | |by etransitivity].
  - by rewrite IHPermutation.
  - rewrite !orb_assoc. f_equal. apply orb_comm.
Qed.

Lemma covered_reverse a i : covered (reverse a) i = covered a i.
Proof. apply covered_perm, reverse_Permutation. Qed.

#[local] Instance text_range_le_total : Total text_range_le.
Proof. intros a b. unfold text_range_le. repeat case_bool_decide; lia. Qed.

#[local] Instance text_range_le_trans : Transitive text_range_le.
Proof. intros a b c. unfold text_range_le. repeat case_bool_decide; lia. Qed.

Lemma text_range_le_start a b : text_range_le a b → start a <= start b.
Proof. unfold text_range_le. case_bool_decide; lia. Qed.

Lemma text_merge_step_inv n acc r :
  Forall (in_bounds n) acc → StronglySorted (λ x y, apart y x) acc →
  in_bounds n r → Forall (λ x, start x <= start r) acc →
  let acc' := text_merge_step acc r in
  Forall (in_bounds n) acc' ∧ StronglySorted (λ x y, apart y x) acc' ∧
  (∀ b, start r <= b → Forall (λ x, start x <= b) acc') ∧
  (∀ i, covered acc' i = covered acc i || covered [r] i).
Proof.
  intros Hb Hs Hr Hle. unfold in_bounds, apart in *. destruct acc as [|p older]; cbn -[covered].
  - split; [by apply Forall_singleton|]. split; [by apply SSorted_cons; [apply SSorted_nil|]|].
    split; [intros; by apply Forall_singleton|]. done.
  - apply Forall_cons in Hb as [Hp Hb]. apply Forall_cons in Hle as [Hpr Hle].
    inversion_clear Hs as [|?? Hs' Hall].
    destruct (Nat.leb_spec (start r) (end_ p)).
    + split; [|split; [|split]].
      * apply Forall_cons. split; [cbn; lia|done].
      * by apply SSorted_cons.
      * intros b Hbd. apply Forall_cons. split; [cbn; lia|]. eapply Forall_impl; [exact Hle|]. intros; cbn in *; lia.
      * intros i. unfold covered. cbn [existsb start end_]. rewrite orb_false_r. destruct (existsb _ older); [by rewrite !orb_true_r|].
        rewrite !orb_false_r. destruct (Nat.leb_spec (start p) i), (Nat.ltb_spec i (end_ p)),
          (Nat.leb_spec (start r) i), (Nat.ltb_spec i (end_ r)), (Nat.ltb_spec i (Nat.max (end_ p) (end_ r))); done || lia.
    + split; [|split; [|split]].
      * by rewrite !Forall_cons.
      * apply SSorted_cons; [by apply SSorted_cons|]. apply Forall_cons. split; [done|].
        eapply Forall_impl; [exact Hall|]. intros; cbn in *; lia.
      * intros b Hbd. rewrite !Forall_cons. split; [lia|]. split; [lia|]. eapply Forall_impl; [exact Hle|]. intros; cbn in *; lia.
      * intros i. unfold covered. cbn [existsb]. by rewrite orb_false_r, orb_comm.
Qed.

Lemma merge_fold_inv n rs acc :
  Forall (in_bounds n) acc → StronglySorted (λ x y, apart y x) acc →
  Forall (in_bounds n) rs → StronglySorted text_range_le rs →
  Forall (λ x, Forall (λ r, start x <= start r) rs) acc →
  let acc' := fold_left text_merge_step rs acc in
  Forall (in_bounds n) acc' ∧ StronglySorted (λ x y, apart y x) acc' ∧
  (∀ i, covered acc' i = covered acc i || covered rs i).
Proof.
  revert acc. induction rs as [|r rs IH]; intros acc Ha Has Hr Hrs Hle; cbn -[covered].
  - split; [done|]. split; [done|]. intros i. by rewrite orb_false_r.
  - apply Forall_cons in Hr as [Hr Hrr]. inversion_clear Hrs as [|?? Hrs' Hall].
    destruct (text_merge_step_inv n acc r) as (H1 & H2 & H3 & H4); [done..| |].
    { eapply Forall_impl; [exact Hle|]. intros x Hx. by apply Forall_cons in Hx as [? _]. }
    destruct (IH (text_merge_step acc r)) as (K1 & K2 & K3); [done..| |].
    { rewrite Forall_forall. intros x Hx. eapply Forall_impl; [exact Hall|].
      intros y Hy%text_range_le_start. specialize (H3 (start y) Hy). rewrite Forall_forall in H3. by apply H3. }
    split; [done|]. split; [done|]. intros i. rewrite K3, H4. unfold covered. cbn [existsb].
    by rewrite orb_false_r, orb_assoc.
Qed.

Lemma StronglySorted_snoc {A} (R : relation A) l x :
  StronglySorted R l → Forall (λ y, R y x) l → StronglySorted R (l ++ [x]).
Proof.
  induction 1 as [|y l Hl IH Hall]; intros Hx; cbn; [by repeat constructor|].
  apply Forall_cons in Hx as [Hy Hx]. constructor; [by apply IH|]. apply Forall_app. by repeat constructor.
Qed.

Lemma StronglySorted_rev {A} (R : relation A) l :
  StronglySorted (λ x y, R y x) l → StronglySorted R (reverse l).
Proof.
  induction 1 as [|x l Hl IH Hall]; [constructor|]. rewrite reverse_cons.
  apply StronglySorted_snoc; [done|]. by apply Forall_reverse.
Qed.

Lemma mergeTextRanges_spec n rs :
  Forall (in_bounds n) rs →
  let m := mergeTextRanges rs in
  Forall (in_bounds n) m ∧ StronglySorted apart m ∧ (∀ i, covered m i = covered rs i).
Proof.
  intros Hr. unfold mergeTextRanges.
  destruct (merge_fold_inv n (merge_sort text_range_le rs) []) as (H1 & H2 & H3).
  - constructor.
  - constructor.
  - by rewrite merge_sort_Permutation.
  - apply (StronglySorted_merge_sort _).
  - constructor.
  - split; [by apply Forall_reverse|]. split; [by apply StronglySorted_rev|].
    intros i. rewrite covered_reverse, H3. apply covered_perm, merge_sort_Permutation.
Qed.

(** ** Cutting *)

(** One flag per code point. *)
Definition flags (ps : list (list jsstr * bool)) : list bool := ps ≫= (λ p, replicate (length p.1) p.2).

Lemma covered_before rs i : Forall (λ r, i < start r) rs → covered rs i = false.
Proof.
  unfold covered. induction 1 as [|r rs Hr Hrs IH]; cbn [existsb]; [done|]. rewrite IH, (proj2 (Nat.leb_gt _ _)) by lia. done.
Qed.

Lemma map_const_seq {A} (f : nat → A) a n k :
  (∀ i, k <= i < k + n → f i = a) → f <$> seq k n = replicate n a.
Proof.
  revert k. induction n as [|n IH]; intros k H; cbn; [done|]. rewrite H by lia. f_equal.
  apply IH. intros i Hi. apply H. lia.
Qed.

Lemma chars_slice_drop (src : list jsstr) i j :
  i <= j → chars_slice src i j ++ drop j src = drop i src.
Proof.
  intros Hij. unfold chars_slice. replace j with (i + (j - i)) at 2 by lia. rewrite <- drop_drop.
  apply take_drop.
Qed.

Lemma chars_slice_length (src : list jsstr) i j :
  j <= length src → length (chars_slice src i j) = j - i.
Proof. intros Hj. unfold chars_slice. rewrite length_take, length_drop. lia. Qed.

Lemma cut_text src cursor rs :
  Forall (in_bounds (length src)) rs → StronglySorted apart rs →
  Forall (λ r, cursor <= start r) rs → cursor <= length src →
  concat ((cut src cursor rs).*1) = drop cursor src.
Proof.
  revert cursor. induction rs as [|r rs IH]; intros cursor Hb Hs Hc Hn; cbn.
  - destruct (Nat.ltb_spec cursor (length src)); cbn; [by rewrite app_nil_r|].
    by rewrite drop_ge by lia.
  - apply Forall_cons in Hb as [[Hr1 Hr2] Hb]. apply Forall_cons in Hc as [Hc _].
    inversion_clear Hs as [|?? Hs' Hall].
    rewrite fmap_app, concat_app. cbn. rewrite IH; [|done..| |lia].
    2:{ eapply Forall_impl; [exact Hall|]. unfold apart. intros; cbn in *; lia. }
    rewrite chars_slice_drop by lia. destruct (Nat.ltb_spec cursor (start r)); cbn.
    + rewrite app_nil_r. apply chars_slice_drop. lia.
    + by replace (start r) with cursor by lia.
Qed.

Lemma cut_flags src cursor rs :
  Forall (in_bounds (length src)) rs → StronglySorted apart rs →
  Forall (λ r, cursor <= start r) rs → cursor <= length src →
  flags (cut src cursor rs) = covered rs <$> seq cursor (length src - cursor).
Proof.
  unfold flags. revert cursor. induction rs as [|r rs IH]; intros cursor Hb Hs Hc Hn; cbn.
  - rewrite (map_const_seq _ false) by done.
    destruct (Nat.ltb_spec cursor (length src)); cbn.
    + by rewrite app_nil_r, length_drop.
    + by replace (length src - cursor) with 0 by lia.
  - apply Forall_cons in Hb as [[Hr1 Hr2] Hb]. apply Forall_cons in Hc as [Hc Hcs].
    inversion_clear Hs as [|?? Hs' Hall]. unfold apart in Hall.
    rewrite bind_app. cbn. rewrite chars_slice_length by lia. rewrite IH; [|done..| |lia].
    2:{ eapply Forall_impl; [exact Hall|]. intros; cbn in *; lia. }
    replace (length src - cursor) with ((start r - cursor) + ((end_ r - start r) + (length src - end_ r))) by lia.
    rewrite !seq_app, !fmap_app. replace (cursor + (start r - cursor)) with (start r) by lia.
    replace (start r + (end_ r - start r)) with (end_ r) by lia.
    assert (∀ i, i <= end_ r → covered rs i = false) as Hout.
    { intros i Hi. apply covered_before. eapply Forall_impl; [exact Hall|]. intros; cbn in *; lia. }
    f_equal; [|f_equal].
    + rewrite (map_const_seq _ false).
      * destruct (Nat.ltb_spec cursor (start r)); cbn.
        -- rewrite app_nil_r. by rewrite chars_slice_length by lia.
        -- by replace (start r - cursor) with 0 by lia.
      * intros i Hi. rewrite covered_cons, Hout, (proj2 (Nat.leb_gt _ _)) by lia. done.
    + rewrite (map_const_seq _ true); [done|]. intros i Hi.
      by rewrite covered_cons, (proj2 (Nat.leb_le _ _)), (proj2 (Nat.ltb_lt _ _)) by lia.
    + apply list_fmap_ext. intros j i Hi. apply lookup_seq in Hi as [-> _].
      by rewrite covered_cons, (proj2 (Nat.ltb_ge _ _)), andb_false_r by lia.
Qed.

(** Neighbouring segments differ, and none is empty. *)
Fixpoint alternating (ps : list (list jsstr * bool)) : Prop :=
  match ps with
  | [] => True
  | p :: rest => p.1 ≠ [] ∧ match rest with q :: _ => q.2 = negb p.2 | [] => True end ∧ alternating rest
  end.

Lemma slice_ne (src : list jsstr) i j : i < j <= length src → chars_slice src i j ≠ [].
Proof. intros H E. pose proof (chars_slice_length src i j ltac:(lia)) as L. rewrite E in L. cbn in L. lia. Qed.

Lemma cut_alternating src cursor rs :
  Forall (in_bounds (length src)) rs → StronglySorted apart rs →
  Forall (λ r, cursor <= start r) rs →
  alternating (cut src cursor rs) ∧
  match cut src cursor rs with
  | p :: _ => p.2 = true → ∃ r rest, rs = r :: rest ∧ start r = cursor
  | [] => True
  end.
Proof.
  revert cursor. induction rs as [|r rs IH]; intros cursor Hb Hs Hc; cbn.
  - destruct (Nat.ltb_spec cursor (length src)) as [Hl|]; cbn; [|done]. repeat split; [|done].
    intros E. pose proof (length_drop src cursor) as L. rewrite E in L. cbn in L. lia.
  - apply Forall_cons in Hb as [Hr Hb]. apply Forall_cons in Hc as [Hc Hcs].
    inversion_clear Hs as [|?? Hs' Hall]. unfold apart, in_bounds in *.
    assert (alternating ((chars_slice src (start r) (end_ r), true) :: cut src (end_ r) rs)) as Halt.
    { destruct (IH (end_ r)) as [H1 H2]; [done..| |].
      { eapply Forall_impl; [exact Hall|]. intros; cbn in *; lia. }
      cbn. split; [by apply slice_ne|]. split; [|done].
      destruct (cut src (end_ r) rs) as [|[cs []] qs]; [done| |done].
      destruct (H2 eq_refl) as (r' & rest & -> & He). apply Forall_cons in Hall as [Hall _]. lia. }
    destruct (Nat.ltb_spec cursor (start r)); cbn [app].
    + split; [|done]. split; [apply slice_ne; lia|]. split; [done|exact Halt].
    + split; [exact Halt|]. intros _. exists r, rs. split; [done|lia].
Qed.

(** ** Properties *)

Section Claims.
Context (lower : jsstr → jsstr).

(** The keyword occurs at [st] in the text, with a boundary on both sides. *)
Definition occurs (txt kw : jsstr) (st : nat) : Prop :=
  let s := foldCodePoints lower txt in
  let k := foldCodePoints lower kw in
  k ≠ [] ∧ take (length k) (drop st s) = k ∧ hasSensitiveKeywordBoundary s k st = true.

Lemma fold_length s : length (foldCodePoints lower s) = length (code_points s).
Proof. apply length_fmap. Qed.

Lemma elem_of_keyword_ranges s k r :
  r ∈ keyword_ranges s k ↔
  ∃ st, r = TRange st (st + length k) ∧ k ≠ [] ∧ take (length k) (drop st s) = k
        ∧ hasSensitiveKeywordBoundary s k st = true.
Proof.
  unfold keyword_ranges. destruct (Nat.eqb_spec (length k) 0) as [E|E].
  { apply length_zero_iff_nil in E as ->. cbn. split; [set_solver|]. by intros (? & _ & ? & _). }
  assert (k ≠ []) as Hk by (intros ->; done).
  assert (∀ st, take (length k) (drop st s) = k → st + length k <= length s) as Hlen.
  { intros st Ht. apply (f_equal length) in Ht. rewrite length_take, length_drop in Ht. lia. }
  destruct (Nat.ltb_spec (length s) (length k)) as [Hlt|Hge]; cbn [orb].
  - split; [set_solver|]. intros (st & _ & _ & Ht & _). specialize (Hlen st Ht). lia.
  - rewrite list_elem_of_fmap. setoid_rewrite elem_of_lfilter. unfold matches_at.
    setoid_rewrite elem_of_seq. split.
    + intros (st & -> & Hs & H). bool_hyps. eauto.
    + intros (st & -> & _ & Ht & Hb). exists st. split; [done|]. specialize (Hlen st Ht).
      split; [lia|]. rewrite Hb, bool_decide_eq_true_2; done.
Qed.

Lemma all_ranges_bounds txt kws : Forall (in_bounds (length (code_points txt))) (all_ranges lower txt kws).
Proof.
  rewrite Forall_forall. intros r Hr. unfold all_ranges in Hr.
  apply list_elem_of_bind in Hr as (kw & Hr & _).
  apply elem_of_keyword_ranges in Hr as (st & -> & Hk & Ht & _). unfold in_bounds. cbn.
  apply (f_equal length) in Ht. rewrite length_take, length_drop, (fold_length txt) in Ht.
  destruct (foldCodePoints lower kw); [done|]. cbn [length] in *. lia.
Qed.

Lemma covered_all_ranges txt kws i :
  covered (all_ranges lower txt kws) i = true ↔
  ∃ kw st, kw ∈ normalizeMatchedKeywords lower kws ∧ occurs txt kw st
           ∧ st <= i < st + length (foldCodePoints lower kw).
Proof.
  unfold covered. rewrite existsb_exists. unfold all_ranges. setoid_rewrite <- list_elem_of_In.
  setoid_rewrite list_elem_of_bind. setoid_rewrite elem_of_keyword_ranges. split.
  - intros (r & (kw & (st & -> & Hk & Ht & Hb) & Hkw) & H). cbn in H. bool_hyps.
    exists kw, st. repeat split; try done; lia.
  - intros (kw & st & Hkw & (Hk & Ht & Hb) & Hi).
    exists (TRange st (st + length (foldCodePoints lower kw))). split; [eauto 10|]. cbn. lia.
Qed.

(** The segments of a text with ranges, and their shape. *)
Lemma segment_chars_spec txt kws :
  concat ((segment_chars lower txt kws).*1) = code_points txt ∧
  flags (segment_chars lower txt kws) =
    covered (all_ranges lower txt kws) <$> seq 0 (length (code_points txt)) ∧
  alternating (segment_chars lower txt kws).
Proof.
  unfold segment_chars. destruct txt as [|c r]; [done|]. set (txt := c :: r).
  assert (code_points txt ≠ []) as Hne by (by rewrite code_points_nil).
  pose proof (all_ranges_bounds txt kws) as Hb.
  destruct (all_ranges lower txt kws) as [|r0 rs0] eqn:E; [|rewrite <- E in *].
  - split; [cbn; by rewrite app_nil_r|]. split; [|done]. unfold flags. cbn. rewrite app_nil_r.
    by rewrite (map_const_seq _ false).
  - destruct (mergeTextRanges_spec _ _ Hb) as (H1 & H2 & H3).
    assert (Forall (λ r, 0 <= start r) (mergeTextRanges (all_ranges lower txt kws))) as H0.
    { apply Forall_true. intros. lia. }
    split; [by rewrite cut_text by (done || lia)|]. split; [|by apply cut_alternating].
    rewrite cut_flags, Nat.sub_0_r by (done || lia). apply list_fmap_ext. intros. apply H3.
Qed.

Lemma concat_segments ps : concat (text <$> (segment_of <$> ps)) = concat (concat (ps.*1)).
Proof.
  induction ps as [|p ps IH]; [done|]. cbn. rewrite concat_app. unfold join_chars. f_equal. exact IH.
Qed.

Lemma highlight_text txt kws :
  concat (text <$> buildHighlightedTextSegments lower txt kws) = txt ∧
  alternating (segment_chars lower txt kws).
Proof.
  destruct (segment_chars_spec txt kws) as (H1 & _ & H3). split; [|done].
  unfold buildHighlightedTextSegments. rewrite concat_segments, H1. apply code_points_concat.
Qed.

(** The segments join to the text, none is empty, and highlighted and plain
    segments alternate. *)
Theorem highlight_partition txt kws :
  concat (text <$> buildHighlightedTextSegments lower txt kws) = txt ∧
  alternating (segment_chars lower txt kws) ∧
  buildHighlightedTextSegments lower txt kws = segment_of <$> segment_chars lower txt kws.
Proof. by destruct (highlight_text txt kws) as [-> ?]. Qed.

(** One flag per code point, and a code point is highlighted exactly when it
    lies in a bounded, case-insensitive occurrence of a normalised keyword. *)
Theorem highlight_exact txt kws i :
  length (flags (segment_chars lower txt kws)) = length (code_points txt) ∧
  (flags (segment_chars lower txt kws) !! i = Some true ↔
   ∃ kw st, kw ∈ normalizeMatchedKeywords lower kws ∧ occurs txt kw st
            ∧ st <= i < st + length (foldCodePoints lower kw)).
Proof.
  destruct (segment_chars_spec txt kws) as (_ & -> & _). split; [by rewrite length_fmap, length_seq|].
  rewrite <- covered_all_ranges, list_lookup_fmap. split.
  - destruct (seq 0 _ !! i) as [j|] eqn:E; [|done]. apply lookup_seq in E as [-> _]. cbn. by intros [= ->].
  - intros H. pose proof H as (kw & st & _ & (_ & Ht & _) & Hi)%covered_all_ranges.
    apply (f_equal length) in Ht. rewrite length_take, length_drop, (fold_length txt) in Ht.
    rewrite (proj2 (lookup_seq 0 (length (code_points txt)) i i)) by lia. cbn. by rewrite H.
Qed.

(** ** Normalised keywords *)

(** What two keywords are compared by. *)
Definition folded (k : jsstr) : jsstr := join_chars (foldCodePoints lower k).

Lemma normalize_loop_spec seen kws :
  let r := normalize_loop lower seen kws in
  Forall (λ k, trim k = k ∧ nonempty k = true) r ∧ NoDup (folded <$> r) ∧
  Forall (λ k, folded k ∉ seen) r.
Proof.
  revert seen. induction kws as [|raw kws IH]; intros seen; [repeat split; constructor|].
  cbn [normalize_loop]. destruct (nonempty (trim raw)) eqn:Hne; cbn [negb]; [|apply IH].
  change (join_chars (foldCodePoints lower (trim raw))) with (folded (trim raw)).
  destruct (set_has seen (folded (trim raw))) eqn:Hs; [apply IH|].
  destruct (IH (set_add seen (folded (trim raw)))) as (H1 & H2 & H3).
  unfold set_has in Hs. apply bool_decide_eq_false in Hs.
  split; [|split].
  - apply Forall_cons. split; [|done]. split; [apply trim_idemp|done].
  - cbn. apply NoDup_cons. split; [|done]. intros (k & Hk & Hin)%list_elem_of_fmap.
    rewrite Forall_forall in H3. apply (H3 k Hin). rewrite elem_of_set_add. by left.
  - apply Forall_cons. split; [done|]. eapply Forall_impl; [exact H3|].
    intros k Hk Hin. apply Hk. rewrite elem_of_set_add. by right.
Qed.

Lemma normalize_loop_id seen ks :
  Forall (λ k, trim k = k ∧ nonempty k = true) ks → NoDup (folded <$> ks) →
  Forall (λ k, folded k ∉ seen) ks → normalize_loop lower seen ks = ks.
Proof.
  revert seen. induction ks as [|k ks IH]; intros seen Hok Hnd Hseen; [done|].
  apply Forall_cons in Hok as [[Ht Hn] Hok]. cbn in Hnd. apply NoDup_cons in Hnd as [Hk Hnd].
  apply Forall_cons in Hseen as [Hs Hseen]. cbn [normalize_loop]. rewrite Ht, Hn. cbn [negb].
  change (join_chars (foldCodePoints lower k)) with (folded k).
  unfold set_has. rewrite bool_decide_eq_false_2 by done. f_equal. apply IH; [done..|].
  rewrite Forall_forall in *. intros x Hx. rewrite elem_of_set_add. intros [E|E]; [|by apply (Hseen x)].
  apply Hk. rewrite <- E. apply list_elem_of_fmap. eauto.
Qed.

(** Normalised keywords are trimmed, not empty and pairwise different after
    case folding, and normalising them again changes nothing. *)
Theorem normalizeMatchedKeywords_normal kws :
  let r := normalizeMatchedKeywords lower kws in
  Forall (λ k, trim k = k ∧ nonempty k = true) r ∧ NoDup (folded <$> r) ∧
  normalizeMatchedKeywords lower r = r.
Proof.
  unfold normalizeMatchedKeywords. destruct (normalize_loop_spec [] kws) as (H1 & H2 & H3).
  split; [done|]. split; [done|]. by apply normalize_loop_id.
Qed.

(** ** The tree *)

(** The text of a tree, in document order. *)
Fixpoint text_content (n : HighlightTreeNode) : jsstr :=
  (if is_text_node n then default [] (value_ n) else []) ++
  match children n with
  | Some cs => (fix go cs := match cs with [] => [] | c :: r => text_content c ++ go r end) cs
  | None => []
  end.

(** Text nodes are leaves. *)
Fixpoint text_leaves (n : HighlightTreeNode) : bool :=
  match children n with
  | Some cs => negb (is_text_node n) &&
      (fix go cs := match cs with [] => true | c :: r => text_leaves c && go r end) cs
  | None => true
  end.

Definition contents (cs : list HighlightTreeNode) : jsstr := concat (text_content <$> cs).

Lemma text_content_unfold n :
  text_content n = (if is_text_node n then default [] (value_ n) else []) ++
    match children n with Some cs => contents cs | None => [] end.
Proof.
  destruct n as [ty va tg pr [cs|]]; [|done]. cbn. f_equal. unfold contents.
  induction cs as [|c cs IH]; [done|]. cbn. f_equal. exact IH.
Qed.

Lemma text_leaves_unfold n :
  text_leaves n = match children n with
                  | Some cs => negb (is_text_node n) && forallb text_leaves cs
                  | None => true
                  end.
Proof. by destruct n as [ty va tg pr [cs|]]. Qed.

Definition walk_child (ks : list jsstr) (child : HighlightTreeNode) : list HighlightTreeNode :=
  if is_text_node child && negb (length ks =? 0)
  then segment_node <$> buildHighlightedTextSegments lower (default [] (value_ child)) ks
  else [walk lower ks child].

Lemma walk_unfold ks n :
  walk lower ks n = match children n with
                    | None => n
                    | Some cs => TreeNode (type_ n) (value_ n) (tagName n) (properties n) (Some (cs ≫= walk_child ks))
                    end.
Proof.
  destruct n as [ty va tg pr [cs|]]; [|done]. cbn. by do 2 f_equal.
Qed.

Lemma segment_contents ss : contents (segment_node <$> ss) = concat (text <$> ss).
Proof.
  unfold contents. induction ss as [|s ss IH]; [done|]. cbn. rewrite IH. f_equal.
  destruct s as [tx []]; cbn; by rewrite ?app_nil_r.
Qed.

Lemma contents_bind f (cs : list HighlightTreeNode) :
  (∀ c, c ∈ cs → contents (f c) = text_content c) → contents (cs ≫= f) = contents cs.
Proof.
  unfold contents. induction cs as [|c cs IH]; intros H; [done|]. cbn.
  rewrite fmap_app, concat_app, H by set_solver. f_equal. apply IH. set_solver.
Qed.

(** Below a node, walking keeps the text of every child. *)
Lemma walk_text ks n :
  text_leaves n = true → is_text_node n = false → contents [walk lower ks n] = text_content n.
Proof.
  revert n. fix IH 1. intros n Hl Ht. unfold contents. cbn [fmap list_fmap concat]. rewrite app_nil_r.
  rewrite walk_unfold. destruct n as [ty va tg pr [cs|]]; [|done]. cbn [children type_ value_ tagName properties].
  rewrite !text_content_unfold. cbn [children].
  assert (∀ o, is_text_node (TreeNode ty va tg pr o) = false) as Hn by done.
  rewrite !Hn. cbn [app]. rewrite text_leaves_unfold in Hl. cbn [children] in Hl. bool_hyps.
  clear Ht Hn H. apply contents_bind. revert cs H0. fix IHcs 1. intros [|c cs] Hl x Hx; [by apply elem_of_nil in Hx|].
  cbn [forallb] in Hl. apply andb_true_iff in Hl as [Hc Hcs].
  apply elem_of_cons in Hx as [->|Hx]; [|by apply (IHcs cs Hcs)].
  unfold walk_child. destruct (is_text_node c) eqn:Et; cbn [andb].
  - destruct (negb _); [rewrite segment_contents, (proj1 (highlight_text _ _))|].
    + rewrite text_content_unfold, Et. rewrite text_leaves_unfold in Hc.
      destruct (children c); [by rewrite Et in Hc|]. by rewrite app_nil_r.
    + rewrite walk_unfold. rewrite text_leaves_unfold in Hc.
      destruct (children c) eqn:Ec; [by rewrite Et in Hc|]. unfold contents. cbn. by rewrite app_nil_r.
  - by apply IH.
Qed.

(** The plugin keeps the text of a tree whose text nodes are leaves. *)
Theorem plugin_keeps_text kws tree :
  text_leaves tree = true → is_text_node tree = false →
  text_content (createKeywordHighlightPlugin lower kws tree) = text_content tree.
Proof.
  intros Hl Ht. unfold createKeywordHighlightPlugin.
  rewrite <- (walk_text (normalizeMatchedKeywords lower kws) tree Hl Ht). unfold contents. cbn. by rewrite app_nil_r.
Qed.
End Claims.

Definition sample_tree : HighlightTreeNode :=
  TreeNode (Some "element") None (Some "p") None
    (Some [TreeNode (Some "text") (Some "a Bomb here") None None None;
           TreeNode (Some "element") None (Some "b") None
             (Some [TreeNode (Some "text") (Some "bomb!") None None None])]).

Lemma plugin_keeps_text_witness :
  text_content (createKeywordHighlightPlugin toLowerCase ["bomb"] sample_tree) = "a Bomb herebomb!".
Proof. apply (plugin_keeps_text toLowerCase ["bomb"] sample_tree); vm_compute; reflexivity. Defined.
End KeywordHighlight.
