(* ===== verification/PriceVariants.v ===== *)
(** * Price variants of a model ([web/src/lib/model-price-variants.ts])

    A model priced per call may have a price per resolution and quality, extra
    parameters and a formula.  The administrator's JSON is checked by the type
    guards of this file before it is saved, and the pricing page shows the
    range of the prices.  Values are those of [JSON.parse]; the guards are
    boolean functions of them.

    Case folding is [lower], any function with the laws of [LowerCase]. *)

From S2P Require Import Prelude JsString JsRegExp JsNumber JsValue.
Local Open Scope N_scope.

Module PriceVariants.

(** A range of prices. *)
Record ModelPriceVariantRange := PriceRange {
  minimum : number;
  maximum : number;
  hasVariants : bool;
}.

Definition isRecord (v : value) : bool := match v with VObj _ => true | _ => false end.

(** [typeof v === 'number' && Number.isFinite(v) && v >= 0] *)
Definition is_price (v : value) : bool :=
  match v with VNum x => is_finite x && num_leb (of_Z 0) x | _ => false end.

(** [typeof v === 'number' && Number.isFinite(v)] *)
Definition is_finite_number (v : value) : bool :=
  match v with VNum x => is_finite x | _ => false end.

(** [v !== undefined && typeof v !== 'string'] is refused. *)
Definition optional (test : value → bool) (v : value) : bool := is_undefined v || test v.

(** [v ?? ''] of an optional string. *)
Definition text_or_empty (v : value) : jsstr := match v with VStr s => s | _ => [] end.

(** [v ?? []] of an optional array. *)
Definition array_or_empty (v : value) : list value := match v with VArr vs => vs | _ => [] end.

(** The aliases of the resolutions. *)
Definition resolution_alias (normalized : jsstr) : jsstr :=
  if bool_decide (normalized ∈ ["480"; "480p"; "sd"]) then "480p"
  else if bool_decide (normalized ∈ ["720"; "720p"; "hd"]) then "720p"
  else if bool_decide (normalized ∈ ["1080"; "1080p"; "fhd"; "full-hd"; "full_hd"]) then "1080p"
  else if str_eqb normalized "2k" then "2k"
  else if str_eqb normalized "4k" then "4k"
  else normalized.

(** The loop that refuses a repeated key. *)
Fixpoint distinct_keys (seen : list jsstr) (keys : list jsstr) : bool :=
  match keys with
  | [] => true
  | key :: rest => if set_has seen key then false else distinct_keys (set_add seen key) rest
  end.

Section Folding.
Context (lower : jsstr → jsstr).

Definition normalizeModelPriceVariantResolution (v : jsstr) : jsstr := resolution_alias (lower (trim v)).
Definition normalizeModelPriceVariantQuality (v : jsstr) : jsstr := lower (trim v).
Definition normalizeModelPriceExtraParamKey (v : jsstr) : jsstr := lower (trim v).
Definition normalizeModelPriceFormulaName (v : jsstr) : jsstr :=
  replace_char 46 "_" (replace_char 45 "_" (lower (trim v))).

Definition getModelPriceVariantCombinationKey (resolution quality : jsstr) : jsstr :=
  normalizeModelPriceVariantResolution resolution ++ [0] ++ normalizeModelPriceVariantQuality quality.

Definition isModelPriceVariantRule (v : value) : bool :=
  isRecord v && optional is_string (prop v "resolution") && optional is_string (prop v "quality")
  && is_price (prop v "price").

Definition isModelPriceExtraParamRule (v : value) : bool :=
  isRecord v
  && match prop v "key" with VStr k => nonempty (normalizeModelPriceExtraParamKey k) | _ => false end
  && optional is_price (prop v "base") && is_price (prop v "unit_price").

(** A property that must be an object whose keys have a name and whose values
    pass a test, when it is there. *)
Definition named_entries (test : value → bool) (v : value) : bool :=
  match v with
  | VUndef => true
  | VObj fs => forallb (λ p, nonempty (normalizeModelPriceFormulaName p.1) && test p.2) fs
  | _ => false
  end.

Definition isModelPriceFormulaConfig (v : value) : bool :=
  isRecord v && is_boolean (prop v "enabled") && optional is_string (prop v "expression")
  && named_entries is_finite_number (prop v "variables")
  && named_entries is_string (prop v "defaults")
  && negb (truthy (prop v "enabled") && negb (nonempty (trim (text_or_empty (prop v "expression"))))).

(** The resolution and the quality a rule counts with, empty when the
    dimension is off. *)
Definition rule_resolution (enabled : bool) (rule : value) : jsstr :=
  if enabled then normalizeModelPriceVariantResolution (text_or_empty (prop rule "resolution")) else [].
Definition rule_quality (enabled : bool) (rule : value) : jsstr :=
  if enabled then normalizeModelPriceVariantQuality (text_or_empty (prop rule "quality")) else [].

(** The loop over the rules, with its set of combinations. *)
Fixpoint check_rules (re qe : bool) (seen : list jsstr) (rules : list value) : bool :=
  match rules with
  | [] => true
  | rule :: rest =>
    let resolution := rule_resolution re rule in
    let quality := rule_quality qe rule in
    if re && negb (nonempty resolution) then false
    else if qe && negb (nonempty quality) then false
    else
      let combination := resolution ++ [0] ++ quality in
      if set_has seen combination then false
      else check_rules re qe (set_add seen combination) rest
  end.

Definition extra_param_key (rule : value) : jsstr :=
  normalizeModelPriceExtraParamKey (text_or_empty (prop rule "key")).

Definition isModelPriceVariantConfig (v : value) : bool :=
  if negb (isRecord v) then false
  else if negb (is_boolean (prop v "resolution_enabled")) then false
  else if negb (is_boolean (prop v "quality_enabled")) then false
  else if negb (optional is_boolean (prop v "inherited")) then false
  else if negb (optional is_array (prop v "rules")) then false
  else if negb (optional is_array (prop v "extra_params")) then false
  else if negb (optional isModelPriceFormulaConfig (prop v "formula")) then false
  else
    let rules := array_or_empty (prop v "rules") in
    let extraParams := array_or_empty (prop v "extra_params") in
    if negb (forallb isModelPriceVariantRule rules) then false
    else if negb (forallb isModelPriceExtraParamRule extraParams) then false
    else if negb (distinct_keys [] (extra_param_key <$> extraParams)) then false
    else
      let re := truthy (prop v "resolution_enabled") in
      let qe := truthy (prop v "quality_enabled") in
      if negb re && negb qe then true
      else match rules with
           | [] => false
           | _ => check_rules re qe [] rules
           end.

Definition isModelPriceVariantsMap (v : value) : bool :=
  match v with
  | VObj fs => forallb (λ p, negb (str_eqb (trim p.1) "") && isModelPriceVariantConfig p.2) fs
  | _ => false
  end.

(** The slashes at both ends. *)
Definition edge_slashes : re := Alt (Seq Bol (Plus (lit_re "/"))) (Seq (Plus (lit_re "/")) Eol).

Definition normalizeModelPriceRoute (route : jsstr) : jsstr :=
  let normalized :=
    replace_char 47 "." (replace_char 95 "." (re_replace edge_slashes "" (lower (trim route)))) in
  if bool_decide (normalized ∈ ["edit"; "edits"; "image.edits"; "images.edits"; "v1.images.edits";
                                "canvas.v1.images.edits"])
  then "image.edit" else normalized.

Definition isModelRoutePriceVariantsMap (v : value) : bool :=
  match v with
  | VObj fs =>
    forallb (λ p,
      if str_eqb (trim p.1) "" || negb (isRecord p.2) then false
      else match p.2 with
           | VObj routes =>
             forallb (λ q, negb (str_eqb (normalizeModelPriceRoute q.1) "") && isModelPriceVariantConfig q.2) routes
           | _ => false
           end) fs
  | _ => false
  end.

Definition isGrokImagineVideoModel (modelName : jsstr) : bool :=
  startsWith (lower (trim modelName)) "grok-imagine-video".
End Folding.

(** A missing config is [VNull] or [VUndef]. *)
Definition getModelPriceVariantRules (config : value) : list value := array_or_empty (prop config "rules").

Definition hasActiveModelPriceVariants (config : value) : bool :=
  truthy config &&
  (((truthy (prop config "resolution_enabled") || truthy (prop config "quality_enabled"))
    && Nat.ltb 0 (length (getModelPriceVariantRules config)))
   || (match prop (prop config "formula") "enabled" with VBool b => b | _ => false end
       && nonempty (trim (text_or_empty (prop (prop config "formula") "expression"))))).

(** [{ ...v }] when [v] is an object, [undefined] when it is falsy. *)
Definition copy_optional (v : value) : value := if truthy v then v else VUndef.

Definition cloneModelPriceVariantConfig (config inherited : value) : value :=
  let inh := match inherited with VUndef => prop config "inherited" | _ => inherited end in
  let formula := prop config "formula" in
  VObj ([("resolution_enabled", prop config "resolution_enabled");
         ("quality_enabled", prop config "quality_enabled");
         ("rules", match prop config "rules" with VArr vs => VArr vs | _ => VUndef end);
         ("extra_params", match prop config "extra_params" with VArr vs => VArr vs | _ => VUndef end);
         ("formula",
          if truthy formula then
            VObj [("enabled", prop formula "enabled"); ("expression", prop formula "expression");
                  ("variables", copy_optional (prop formula "variables"));
                  ("defaults", copy_optional (prop formula "defaults"))]
          else VUndef)]
        ++ match inh with VUndef => [] | _ => [("inherited", inh)] end).

(** The price of a rule that counts. *)
Definition rule_price (rule : value) : option number :=
  match prop rule "price" with
  | VNum x => if is_finite x && num_leb (of_Z 0) x then Some x else None
  | _ => None
  end.

Definition getModelPriceVariantRange (basePrice : option number) (config : value) : ModelPriceVariantRange :=
  let normalizedBasePrice :=
    match basePrice with
    | Some b => if is_finite b then num_max b (of_Z 0) else of_Z 0
    | None => of_Z 0
    end in
  let prices := if hasActiveModelPriceVariants config
                then omap rule_price (getModelPriceVariantRules config) else [] in
  PriceRange (fold_left num_min (normalizedBasePrice :: prices) pos_inf)
    (fold_left num_max (normalizedBasePrice :: prices) neg_inf)
    (Nat.ltb 0 (length prices)).

Example variants_sample :
  let rule r p := VObj [("resolution", VStr r); ("price", VNum (Number_of_string p))] in
  let cfg rs := VObj [("resolution_enabled", VBool true); ("quality_enabled", VBool false); ("rules", VArr rs)] in
  isModelPriceVariantConfig toLowerCase (cfg [rule "480P" "0.1"; rule "hd" "0.25"]) = true ∧
  isModelPriceVariantConfig toLowerCase (cfg [rule "720" "0.1"; rule "hd" "0.25"]) = false ∧
  getModelPriceVariantRange (Some (Number_of_string "0.2")) (cfg [rule "480P" "0.1"; rule "hd" "0.25"])
    = PriceRange (Number_of_string "0.1") (Number_of_string "0.25") true ∧
  normalizeModelPriceRoute toLowerCase "//V1/images_edits/" = "image.edit".
Proof. vm_compute. repeat split. Qed.

(** ** Keys without repetition *)

Lemma distinct_keys_spec seen keys :
  distinct_keys seen keys = true ↔ NoDup keys ∧ ∀ k, k ∈ keys → k ∉ seen.
Proof.
  revert seen. induction keys as [|k keys IH]; intros seen; cbn [distinct_keys].
  - split; [split; [constructor|set_solver]|done].
  - unfold set_has. case_bool_decide as Hk.
    + split; [done|]. intros [_ H]. exfalso. apply (H k); [set_solver|done].
    + rewrite IH, NoDup_cons. setoid_rewrite elem_of_set_add. set_solver.
Qed.

Lemma implb_false (b n : bool) : (b = true → n = true) ↔ b && negb n = false.
Proof. destruct b, n; cbn; split; intros H; try done; auto; by discriminate (H eq_refl). Qed.

Section Spec.
Context (lower : jsstr → jsstr).

(** The combination a rule stands for. *)
Definition rule_combination (re qe : bool) (rule : value) : jsstr :=
  rule_resolution lower re rule ++ [0] ++ rule_quality lower qe rule.

(** The enabled dimensions of a rule are filled in. *)
Definition rule_filled (re qe : bool) (rule : value) : Prop :=
  (re = true → rule_resolution lower re rule ≠ []) ∧ (qe = true → rule_quality lower qe rule ≠ []).

Lemma check_rules_spec re qe seen rules :
  check_rules lower re qe seen rules = true ↔
  Forall (rule_filled re qe) rules ∧ NoDup (rule_combination re qe <$> rules) ∧
  ∀ k, k ∈ rule_combination re qe <$> rules → k ∉ seen.
Proof.
  revert seen. induction rules as [|r rules IH]; intros seen; cbn [check_rules].
  - split; [|done]. intros _. split; [constructor|]. split; [constructor|set_solver].
  - change (rule_resolution lower re r ++ [0] ++ rule_quality lower qe r) with (rule_combination re qe r).
    rewrite Forall_cons. cbn [fmap list_fmap].
    assert (rule_filled re qe r ↔ (re && negb (nonempty (rule_resolution lower re r))) = false ∧
      (qe && negb (nonempty (rule_quality lower qe r))) = false) as Hf.
    { unfold rule_filled. rewrite <- !nonempty_spec, !implb_false. done. }
    rewrite Hf. clear Hf.
    destruct (re && negb _); [by split; [done|intros [[[? _] _] _]]|].
    destruct (qe && negb _); [by split; [done|intros [[[_ ?] _] _]]|].
    unfold set_has. case_bool_decide as Hk.
    + split; [done|]. intros (_ & _ & H). exfalso. apply (H (rule_combination re qe r)); [set_solver|done].
    + rewrite IH, NoDup_cons. setoid_rewrite elem_of_set_add. set_solver.
Qed.

(** What the guard promises of a configuration. *)
Record valid_config (v : value) : Prop := {
  vc_record : isRecord v = true;
  vc_resolution : ∃ b, prop v "resolution_enabled" = VBool b;
  vc_quality : ∃ b, prop v "quality_enabled" = VBool b;
  vc_inherited : prop v "inherited" = VUndef ∨ ∃ b, prop v "inherited" = VBool b;
  vc_rules_array : prop v "rules" = VUndef ∨ ∃ vs, prop v "rules" = VArr vs;
  vc_extra_array : prop v "extra_params" = VUndef ∨ ∃ vs, prop v "extra_params" = VArr vs;
  vc_formula : prop v "formula" = VUndef ∨ isModelPriceFormulaConfig lower (prop v "formula") = true;
  vc_rules : Forall (λ r, isModelPriceVariantRule r = true) (array_or_empty (prop v "rules"));
  vc_extra : Forall (λ r, isModelPriceExtraParamRule lower r = true) (array_or_empty (prop v "extra_params"));
  vc_keys : NoDup (extra_param_key lower <$> array_or_empty (prop v "extra_params"));
  vc_combinations :
    let re := truthy (prop v "resolution_enabled") in
    let qe := truthy (prop v "quality_enabled") in
    let rules := array_or_empty (prop v "rules") in
    re || qe = true →
    rules ≠ [] ∧ Forall (rule_filled re qe) rules ∧ NoDup (rule_combination re qe <$> rules);
}.

Lemma optional_spec test v : optional test v = true ↔ v = VUndef ∨ test v = true.
Proof. unfold optional. rewrite orb_true_iff. by destruct v; naive_solver. Qed.

Lemma is_boolean_spec v : is_boolean v = true ↔ ∃ b, v = VBool b.
Proof. destruct v; cbn; naive_solver. Qed.

Lemma is_array_spec v : is_array v = true ↔ ∃ vs, v = VArr vs.
Proof. destruct v; cbn; naive_solver. Qed.

(** The early returns as one conjunction. *)
Lemma config_unfold v :
  isModelPriceVariantConfig lower v =
  let re := truthy (prop v "resolution_enabled") in
  let qe := truthy (prop v "quality_enabled") in
  let rules := array_or_empty (prop v "rules") in
  let extraParams := array_or_empty (prop v "extra_params") in
  isRecord v && is_boolean (prop v "resolution_enabled") && is_boolean (prop v "quality_enabled")
  && optional is_boolean (prop v "inherited") && optional is_array (prop v "rules")
  && optional is_array (prop v "extra_params") && optional (isModelPriceFormulaConfig lower) (prop v "formula")
  && forallb isModelPriceVariantRule rules && forallb (isModelPriceExtraParamRule lower) extraParams
  && distinct_keys [] (extra_param_key lower <$> extraParams)
  && (negb (re || qe) || negb (length rules =? 0)%nat && check_rules lower re qe [] rules).
Proof.
  unfold isModelPriceVariantConfig. cbv zeta.
  repeat match goal with |- (if negb ?b then false else _) = _ =>
    destruct b; cbn [negb]; [|by rewrite ?andb_false_r; cbn [andb]] end.
  cbn [negb andb]. rewrite negb_orb. destruct (negb _ && negb _); [done|]. cbn [orb].
  by destruct (array_or_empty (prop v "rules")).
Qed.

Lemma config_spec v : isModelPriceVariantConfig lower v = true ↔ valid_config v.
Proof.
  rewrite config_unfold. cbv zeta. rewrite !andb_true_iff, !optional_spec, !forallb_True', distinct_keys_spec.
  rewrite orb_true_iff, negb_true_iff, andb_true_iff, negb_true_iff, Nat.eqb_neq, check_rules_spec.
  rewrite !is_boolean_spec, !is_array_spec. split.
  - intros (((((((((( ? & ?) & ?) & ?) & ?) & ?) & ?) & ?) & ?) & [? _]) & Hc).
    constructor; try done. cbv zeta. intros Hen. destruct Hc as [Hc|(Hne & ? & ? & _)]; [congruence|].
    split; [by intros E; rewrite E in Hne|done].
  - intros []. repeat split; try done; try (intros ? _; apply not_elem_of_nil). cbv zeta in vc_combinations0.
    destruct (truthy _ || truthy _) eqn:E; [right|by left]. destruct vc_combinations0 as (Hne & ? & ?); [done|].
    repeat split; try done; [|intros ? _; apply not_elem_of_nil]. by destruct (array_or_empty _).
Qed.

(** The guard accepts exactly the valid configurations, and in an accepted
    one with an enabled dimension no two rules stand for the same resolution
    and quality, aliases included. *)
Theorem variant_config_exact v :
  (isModelPriceVariantConfig lower v = true ↔ valid_config v) ∧
  (let re := truthy (prop v "resolution_enabled") in
   let qe := truthy (prop v "quality_enabled") in
   isModelPriceVariantConfig lower v = true ∧ re || qe = true →
   ∀ i j a b, array_or_empty (prop v "rules") !! i = Some a → array_or_empty (prop v "rules") !! j = Some b →
   rule_resolution lower re a = rule_resolution lower re b → rule_quality lower qe a = rule_quality lower qe b →
   i = j).
Proof.
  split; [apply config_spec|]. cbv zeta. intros [Hv%config_spec Hen] i j a b Ha Hb Hr Hq.
  destruct (vc_combinations v Hv Hen) as (_ & _ & Hnd).
  eapply NoDup_lookup; [exact Hnd|..]; rewrite list_lookup_fmap; [by rewrite Ha|].
  rewrite Hb. cbn. unfold rule_combination. by rewrite Hr, Hq.
Qed.

(** ** Cloning *)

Lemma formula_clone f :
  isModelPriceFormulaConfig lower f = true →
  truthy f = true ∧
  isModelPriceFormulaConfig lower
    (VObj [("enabled", prop f "enabled"); ("expression", prop f "expression");
           ("variables", copy_optional (prop f "variables")); ("defaults", copy_optional (prop f "defaults"))]) = true.
Proof.
  unfold isModelPriceFormulaConfig. intros H. bool_hyps. split; [by destruct f|].
  assert (∀ test v, named_entries lower test v = true → copy_optional v = v) as Hc.
  { intros test v Hv. by destruct v. }
  cbn [isRecord prop obj_get]. str_eval. cbn [from_option id].
  rewrite !(Hc _ _ H2), !(Hc _ _ H1).
  repeat match goal with H : ?x = _ |- context [?x] => rewrite H end. done.
Qed.

Definition clone_formula (f : value) : value :=
  if truthy f then
    VObj [("enabled", prop f "enabled"); ("expression", prop f "expression");
          ("variables", copy_optional (prop f "variables")); ("defaults", copy_optional (prop f "defaults"))]
  else VUndef.

(** The properties of a clone. *)
Lemma clone_props config :
  valid_config config →
  let c := cloneModelPriceVariantConfig config VUndef in
  Forall (λ k, prop c k = prop config k)
    ["resolution_enabled"; "quality_enabled"; "rules"; "extra_params"; "inherited"] ∧
  prop c "formula" = clone_formula (prop config "formula").
Proof.
  intros [_ _ _ Hi Hr He _ _ _ _ _]. unfold cloneModelPriceVariantConfig. cbv zeta.
  set (inh := match _ with VUndef => [] | _ => _ end).
  assert (obj_get inh "inherited" = match prop config "inherited" with VUndef => None | x => Some x end) as Hinh.
  { unfold inh. by destruct (prop config "inherited"). }
  rewrite !Forall_cons. cbn [app prop obj_get]. str_eval. rewrite Hinh. cbn [from_option id].
  repeat split.
  - by destruct Hr as [-> |[vs ->]].
  - by destruct He as [-> |[vs ->]].
  - by destruct (prop config "inherited").
  - constructor.
Qed.

(** Cloning a valid configuration gives a valid one with the same rules,
    the same activity and the same price range. *)
Theorem clone_valid config base :
  isModelPriceVariantConfig lower config = true →
  let c := cloneModelPriceVariantConfig config VUndef in
  isModelPriceVariantConfig lower c = true ∧
  hasActiveModelPriceVariants c = hasActiveModelPriceVariants config ∧
  getModelPriceVariantRange base c = getModelPriceVariantRange base config.
Proof.
  intros Hv. pose proof (proj1 (config_spec config) Hv) as Hvc.
  destruct (clone_props config Hvc) as [Hp Hf]. cbv zeta.
  assert (truthy config = true ∧ isRecord config = true) as [Ht Hrec] by (destruct Hvc; by destruct config).
  set (c := cloneModelPriceVariantConfig config VUndef) in *.
  assert (truthy c = true ∧ isRecord c = true) as [Htc Hrc] by done. clearbody c.
  rewrite !Forall_cons in Hp. destruct Hp as (H1 & H2 & H3 & H4 & H5 & _).
  assert (isModelPriceVariantConfig lower c = true) as Hc.
  { rewrite config_unfold in *. cbv zeta in *. rewrite H1, H2, H3, H4, H5, Hrc. rewrite Hrec in Hv.
    bool_hyps. repeat match goal with H : ?x = true |- context [?x] => rewrite H end.
    cbn [andb]. rewrite !andb_true_r, Hf. unfold clone_formula. apply optional_spec.
    match goal with H : optional (isModelPriceFormulaConfig lower) _ = true |- _ =>
      apply optional_spec in H as [-> |[Hft Hfv]%formula_clone] end; [by left|right]. by rewrite Hft. }
  assert (hasActiveModelPriceVariants c = hasActiveModelPriceVariants config) as Ha.
  { unfold hasActiveModelPriceVariants, getModelPriceVariantRules. rewrite H1, H2, H3, Hf, Ht, Htc.
    do 2 f_equal. unfold clone_formula. destruct Hvc.
    destruct vc_formula0 as [-> |[Hft _]%formula_clone]; [done|]. by rewrite Hft. }
  split; [done|]. split; [done|].
  unfold getModelPriceVariantRange. rewrite Ha. unfold getModelPriceVariantRules. by rewrite H3.
Qed.
End Spec.

(** ** Price range *)

Lemma rule_price_ok r x : rule_price r = Some x → is_finite x = true ∧ num_leb (of_Z 0) x = true.
Proof. unfold rule_price. intros H. repeat (break_in H; try done). by bool_hyps. Qed.

Lemma finite_not_nan x : is_finite x = true → is_nan x = false.
Proof. by destruct x. Qed.

Lemma base_price_ok b : is_finite b = true → is_finite (num_max b (of_Z 0)) = true ∧ num_leb (of_Z 0) (num_max b (of_Z 0)) = true.
Proof.
  intros Hb. destruct (num_max_spec b (of_Z 0)) as (H1 & _ & H2); [by apply finite_not_nan|done|].
  split; [|done]. by destruct H1 as [-> | ->].
Qed.

(** The base price as the page counts it. *)
Definition counted_base (basePrice : option number) : number :=
  match basePrice with
  | Some b => if is_finite b then num_max b (of_Z 0) else of_Z 0
  | None => of_Z 0
  end.

(** The prices of the rules that count. *)
Definition counted_prices (config : value) : list number :=
  if hasActiveModelPriceVariants config then omap rule_price (getModelPriceVariantRules config) else [].

(** The price range is made of the counted base price and the counted rule
    prices: both ends are among them, finite and not negative, every one of
    them lies between the ends, and variants are reported exactly when a rule
    counts. *)
Theorem price_range_exact basePrice config :
  let r := getModelPriceVariantRange basePrice config in
  let ps := counted_base basePrice :: counted_prices config in
  minimum r ∈ ps ∧ maximum r ∈ ps ∧
  Forall (λ p, is_finite p = true ∧ num_leb (of_Z 0) p = true ∧
               num_leb (minimum r) p = true ∧ num_leb p (maximum r) = true) ps ∧
  (hasVariants r = true ↔ counted_prices config ≠ []).
Proof.
  cbv zeta. unfold getModelPriceVariantRange. cbn [minimum maximum hasVariants].
  fold (counted_base basePrice) (counted_prices config).
  assert (Forall (λ p, is_finite p = true ∧ num_leb (of_Z 0) p = true)
    (counted_base basePrice :: counted_prices config)) as Hok.
  { apply Forall_cons. split.
    - unfold counted_base. destruct basePrice as [b|]; [|done]. destruct (is_finite b) eqn:E; [|done].
      by apply base_price_ok.
    - unfold counted_prices. destruct (hasActiveModelPriceVariants config); [|constructor].
      rewrite Forall_forall. intros x (r & _ & Hr)%list_elem_of_omap. by eapply rule_price_ok. }
  set (b := counted_base basePrice) in *. set (ps := counted_prices config) in *.
  assert (Forall (λ y, is_nan y = false) (b :: ps)) as Hn.
  { eapply Forall_impl; [exact Hok|]. intros p [Hp _]. by apply finite_not_nan. }
  cbn [fold_left].
  assert (num_min pos_inf b = b ∧ num_max neg_inf b = b) as [-> ->].
  { apply Forall_cons in Hok as [[Hb _] _]. by destruct b. }
  destruct (num_min_fold b ps Hn) as [M1 M2]. destruct (num_max_fold b ps Hn) as [X1 X2].
  split; [done|]. split; [done|]. split.
  - rewrite Forall_forall in *. naive_solver.
  - by destruct ps.
Qed.

(** ** Names *)

Lemma replace_char_gone c w s : lacks c w = true → lacks c (replace_char c w s) = true.
Proof.
  intros Hw. unfold replace_char, lacks in *. induction s as [|d s IH]; cbn; [done|].
  rewrite forallb_app, IH, andb_true_r. destruct (d =? c) eqn:E; [done|]. cbn. by rewrite E.
Qed.

Lemma replace_char_keeps x c w s : lacks x w = true → lacks x s = true → lacks x (replace_char c w s) = true.
Proof.
  intros Hw Hs. unfold replace_char, lacks in *. induction s as [|d s IH]; cbn in *; [done|]. bool_hyps.
  rewrite forallb_app, IH, andb_true_r by done. destruct (d =? c); [done|]. cbn. by rewrite H.
Qed.

Lemma lower_trim_normal `{LowerCase lower} v : trim (lower (trim v)) = lower (trim v).
Proof. apply trim_id, lower_trimmed, trim_trimmed. Qed.

(** Normalising a resolution, a quality or a parameter key twice is
    normalising it once, and a formula name has no dash and no dot left. *)
Theorem normalize_names_stable lower `{LowerCase lower} v :
  normalizeModelPriceVariantResolution lower (normalizeModelPriceVariantResolution lower v)
    = normalizeModelPriceVariantResolution lower v ∧
  normalizeModelPriceVariantQuality lower (normalizeModelPriceVariantQuality lower v)
    = normalizeModelPriceVariantQuality lower v ∧
  normalizeModelPriceExtraParamKey lower (normalizeModelPriceExtraParamKey lower v)
    = normalizeModelPriceExtraParamKey lower v ∧
  lacks 45 (normalizeModelPriceFormulaName lower v) = true ∧
  lacks 46 (normalizeModelPriceFormulaName lower v) = true.
Proof.
  assert (lower (trim (lower (trim v))) = lower (trim v)) as Hid.
  { by rewrite lower_trim_normal, lower_idemp. }
  split; [|split; [exact Hid|split; [exact Hid|]]].
  - unfold normalizeModelPriceVariantResolution. set (n := lower (trim v)) in *.
    unfold resolution_alias at 2 3.
    repeat case_bool_decide; [by rewrite trim_id, (lower_ascii (lower := lower))..|].
    destruct (str_eqb n "2k") eqn:E2; [by rewrite trim_id, (lower_ascii (lower := lower))|].
    destruct (str_eqb n "4k") eqn:E; [by rewrite trim_id, (lower_ascii (lower := lower))|].
    rewrite Hid. unfold resolution_alias. rewrite !bool_decide_eq_false_2 by done.
    by rewrite E2, E.
  - unfold normalizeModelPriceFormulaName. split; [apply replace_char_keeps; [done|]|];
      by apply replace_char_gone.
Qed.

Lemma normalize_names_stable_witness :
  normalizeModelPriceVariantResolution toLowerCase (normalizeModelPriceVariantResolution toLowerCase " Full-HD ")
    = "1080p".
Proof. exact (proj1 (normalize_names_stable toLowerCase " Full-HD ")). Defined.

Definition sample_config : value :=
  VObj [("resolution_enabled", VBool true); ("quality_enabled", VBool false);
        ("rules", VArr [VObj [("resolution", VStr "480P"); ("price", VNum (of_Z 1))];
                        VObj [("resolution", VStr "hd"); ("price", VNum (of_Z 3))]]);
        ("formula", VObj [("enabled", VBool true); ("expression", VStr "n * unit")])].

Lemma clone_valid_witness :
  let c := cloneModelPriceVariantConfig sample_config VUndef in
  isModelPriceVariantConfig toLowerCase c = true ∧
  hasActiveModelPriceVariants c = hasActiveModelPriceVariants sample_config ∧
  getModelPriceVariantRange (Some (of_Z 2)) c = getModelPriceVariantRange (Some (of_Z 2)) sample_config.
Proof. apply (clone_valid toLowerCase sample_config (Some (of_Z 2))). vm_compute. reflexivity. Defined.
End PriceVariants.
