(* ===== verification/PriceTable.v ===== *)
(** * The table of model prices
    ([web/src/features/system-settings/models/model-ratio-visual-editor.tsx],
    [web/src/features/system-settings/utils/json-parser.ts],
    [web/src/lib/model-price-unit.ts])

    The prices of all models are kept in thirteen settings, each the text of an
    object from model names to values ([Field]).  The table shows one row per
    model; editing, deleting and copying write all thirteen texts again.

    [Throw] is a call that throws; a setting whose text is JSON but no object
    is left out of the model in the same way (for [null] the code does throw).
    Model names that plain objects inherit ([object_prototype]) are left out.
    Case folding ([lower]) and [localeCompare] are parameters. *)

From S2P Require Import Prelude JsString JsRegExp JsNumber JsValue JsMap BillingExpr PriceVariants.

Module PriceTable.
Import BillingExpr PriceVariants.

(** ** Reading texts *)

(** [Number.parseFloat(s)]: the longest prefix that is a number. *)
Definition parse_float_unsigned (neg : bool) (s : jsstr) : number :=
  if startsWith s "Infinity" then (if neg then neg_inf else pos_inf) else
  let '(ip, r) := span is_digit s in
  let '(fp, r') := match r with c :: r1 => if (c =? 46)%N then span is_digit r1 else ([], r) | [] => ([], r) end in
  if nonempty ip || nonempty fp then
    let e :=
      match r' with
      | c :: r1 =>
        if ((c =? 101) || (c =? 69))%N then
          let '(eneg, r2) :=
            match r1 with
            | d :: t => if (d =? 43)%N then (false, t) else if (d =? 45)%N then (true, t) else (false, r1)
            | [] => (false, r1)
            end in
          let ed := (span is_digit r2).1 in
          if nonempty ed then (if (eneg : bool) then - digits_val ed else digits_val ed)%Z else 0%Z
        else 0%Z
      | [] => 0%Z
      end in
    dec_to_num neg (digits_val (ip ++ fp)) (e - Z.of_nat (length fp))
  else NaN.

Definition parseFloat (s : jsstr) : number :=
  match trim_start s with
  | c :: r =>
    if (c =? 45)%N then parse_float_unsigned true r
    else if (c =? 43)%N then parse_float_unsigned false r
    else parse_float_unsigned false (c :: r)
  | [] => NaN
  end.

Definition safeJsonParse (text : jsstr) (fallback : value) : value :=
  if negb (nonempty text) || str_eqb (trim text) [] then fallback
  else default fallback (JSON_parse (trim text)).

Definition safeJsonParseWithValidation (text : jsstr) (fallback : value) (validator : value → bool) : value :=
  let parsed := safeJsonParse text fallback in if validator parsed then parsed else fallback.

Inductive ModelPriceUnit := REQUEST | SECOND.

Definition unit_text (u : ModelPriceUnit) : jsstr := match u with REQUEST => "request" | SECOND => "second" end.

Definition normalizeModelPriceUnit (v : value) : ModelPriceUnit :=
  match v with VStr s => if str_eqb s "second" then SECOND else REQUEST | _ => REQUEST end.

(** ** Settings *)

Inductive Field :=
  | ModelPrice | ModelPriceUnits | ModelPriceVariants | ModelRoutePriceVariants | ModelRatio | CacheRatio | CreateCacheRatio
  | CompletionRatio | ImageRatio | AudioRatio | AudioCompletionRatio | BillingMode | BillingExpression.

#[global] Instance Field_eq_dec : EqDecision Field.
Proof. solve_decision. Defined.

Definition ALL_FIELDS : list Field :=
  [ModelPrice; ModelPriceUnits; ModelPriceVariants; ModelRoutePriceVariants; ModelRatio; CacheRatio; CreateCacheRatio;
   CompletionRatio; ImageRatio; AudioRatio; AudioCompletionRatio; BillingMode; BillingExpression].

(** The fields whose values are ratios. *)
Definition RATIO_FIELDS : list Field :=
  [ModelRatio; CacheRatio; CreateCacheRatio; CompletionRatio; ImageRatio; AudioRatio; AudioCompletionRatio].

(** The texts of the price and the ratios of a model. *)
Record Texts := MkTexts {
  price : jsstr;
  ratio : jsstr;
  cacheRatio : jsstr;
  createCacheRatio : jsstr;
  completionRatio : jsstr;
  imageRatio : jsstr;
  audioRatio : jsstr;
  audioCompletionRatio : jsstr;
}.

(** The text of a field; the fields that are no numbers have none. *)
Definition text_at (t : Texts) (f : Field) : jsstr :=
  match f with
  | ModelPrice => price t
  | ModelRatio => ratio t
  | CacheRatio => cacheRatio t
  | CreateCacheRatio => createCacheRatio t
  | CompletionRatio => completionRatio t
  | ImageRatio => imageRatio t
  | AudioRatio => audioRatio t
  | AudioCompletionRatio => audioCompletionRatio t
  | _ => []
  end.

Definition texts_of (g : Field → jsstr) : Texts :=
  MkTexts (g ModelPrice) (g ModelRatio) (g CacheRatio) (g CreateCacheRatio) (g CompletionRatio) (g ImageRatio) (g AudioRatio)
    (g AudioCompletionRatio).

Definition Settings := Field → jsstr.
Definition Maps := Field → obj.

Definition obj_delete (fs : obj) (k : jsstr) : obj := List.filter (λ p, negb (str_eqb p.1 k)) fs.

(** The thirteen maps after changing one. *)
Definition with_map (ms : Maps) (f : Field) (fs : obj) : Maps := λ g, if decide (g = f) then fs else ms g.

Inductive PricingMode := per_token | per_request | tiered_expr.

#[global] Instance PricingMode_eq_dec : EqDecision PricingMode.
Proof. solve_decision. Defined.

(** What is edited; a missing text is the empty one, a configuration is [VUndef]
    or [VNull] when there is none. *)
Record ModelRatioData := MkData {
  d_name : jsstr;
  d_texts : Texts;
  d_priceUnit : value;
  d_priceVariant : value;
  d_imageEditPriceVariant : value;
  d_billingMode : PricingMode;
  d_billingExpr : jsstr;
  d_requestRuleExpr : jsstr;
}.

Record ModelRow := MkRow {
  row_name : jsstr;
  row_texts : Texts;
  row_priceUnit : ModelPriceUnit;
  row_priceVariant : value;
  row_imageEditPriceVariant : value;
  row_billingMode : PricingMode;
  row_billingExpr : jsstr;
  row_requestRuleExpr : jsstr;
  row_hasConflict : bool;
}.

Section Table.
Context (lower : jsstr → jsstr) (localeCompare : jsstr → jsstr → number).

Definition read_field (f : Field) (text : jsstr) : value :=
  match f with
  | ModelPriceVariants => safeJsonParseWithValidation text (VObj []) (isModelPriceVariantsMap lower)
  | ModelRoutePriceVariants => safeJsonParseWithValidation text (VObj []) (isModelRoutePriceVariantsMap lower)
  | _ => safeJsonParse text (VObj [])
  end.

Definition is_map (v : value) : bool := match v with VObj _ => true | _ => false end.
Definition map_of (v : value) : obj := match v with VObj fs => fs | _ => [] end.

Definition read_settings (s : Settings) : exc Maps :=
  if forallb (λ f, is_map (read_field f (s f))) ALL_FIELDS then Ret (λ f, map_of (read_field f (s f))) else Throw.

(** [JSON.stringify(map, null, 2)] for every field. *)
Definition write_settings (ms : Maps) : Settings := λ f, default [] (JSON_stringify2 (VObj (ms f))).

(** ** Rows *)

(** [map[name]] *)
Definition entry (ms : Maps) (f : Field) (name : jsstr) : value := default VUndef (obj_get (ms f) name).

(** [v?.toString() || ''] *)
Definition cell (v : value) : jsstr := match v with VUndef | VNull => [] | _ => to_string v end.

Definition getImageEditRoutePriceVariant (routeMap : value) : value :=
  match routeMap with
  | VObj routes =>
    match List.filter (λ p, str_eqb (normalizeModelPriceRoute lower p.1) "image.edit") routes with
    | (_, config) :: _ => config
    | [] => VUndef
    end
  | _ => VUndef
  end.

(** The row of a model with the entries [e]. *)
Definition row_from (e : Field → value) (name : jsstr) : exc ModelRow :=
  let texts := texts_of (λ f, cell (e f)) in
  let priceUnit := normalizeModelPriceUnit (e ModelPriceUnits) in
  let priceVariant := e ModelPriceVariants in
  let imageEditPriceVariant := getImageEditRoutePriceVariant (e ModelRoutePriceVariants) in
  let row mode expr rules conflict := MkRow name texts priceUnit priceVariant imageEditPriceVariant mode expr rules conflict in
  let by_price := Ret (row (if nonempty (price texts) then per_request else per_token) [] []
                         (nonempty (price texts) && existsb (λ f, nonempty (text_at texts f)) RATIO_FIELDS)) in
  match e BillingMode with
  | VStr mode =>
    if str_eqb mode "tiered_expr" then
      let fullExpr := e BillingExpression in
      match if truthy fullExpr then fullExpr else VStr [] with
      | VStr expr =>
        split ← splitBillingExprAndRequestRules expr;
        Ret (row tiered_expr (billingExpr split) (requestRuleExpr split) false)
      | _ => Throw
      end
    else by_price
  | _ => by_price
  end.

Definition row_of (ms : Maps) (name : jsstr) : exc ModelRow := row_from (λ f, entry ms f name) name.

Fixpoint rows_of (ms : Maps) (names : list jsstr) : exc (list ModelRow) :=
  match names with
  | [] => Ret []
  | n :: ns => r ← row_of ms n; rs ← rows_of ms ns; Ret (r :: rs)
  end.

Definition model_names (ms : Maps) : list jsstr := set_of (concat ((λ f, (ms f).*1) <$> ALL_FIELDS)).

Definition models (s : Settings) : exc (list ModelRow) :=
  ms ← read_settings s;
  rs ← rows_of ms (model_names ms);
  Ret (sort_by (λ a b, localeCompare (row_name a) (row_name b)) rs).

Definition handleEdit (model : ModelRow) : ModelRatioData :=
  let clone c := if truthy c then cloneModelPriceVariantConfig c VUndef else VUndef in
  MkData (row_name model) (row_texts model) (VStr (unit_text (row_priceUnit model)))
    (clone (row_priceVariant model)) (clone (row_imageEditPriceVariant model))
    (if decide (row_billingMode model = tiered_expr) then tiered_expr
     else if nonempty (price (row_texts model)) then per_request else per_token)
    (row_billingExpr model) (row_requestRuleExpr model).

(** ** Deleting a model *)

Definition delete_maps (name : jsstr) (ms : Maps) : Maps := λ f,
  match f with
  | ModelRoutePriceVariants =>
    match obj_get (ms f) name with
    | Some (VObj routes) =>
      let routes' := obj_delete routes "image.edit" in
      match routes' with [] => obj_delete (ms f) name | _ => obj_set (ms f) name (VObj routes') end
    | _ => ms f
    end
  | _ => obj_delete (ms f) name
  end.

Definition handleDelete (s : Settings) (name : jsstr) : exc Settings :=
  ms ← read_settings s; Ret (write_settings (delete_maps name ms)).

(** ** Saving a model, and copying it to others *)

Definition setIfPresent (target : obj) (name value : jsstr) : obj :=
  if negb (nonempty value) then target
  else let parsed := parseFloat value in if is_finite parsed then obj_set target name (VNum parsed) else target.

(** The values of some fields. *)
Definition set_fields (data : ModelRatioData) (name : jsstr) (fields : list Field) (ms : Maps) : Maps := λ f,
  if bool_decide (f ∈ fields) then setIfPresent (ms f) name (text_at (d_texts data) f) else ms f.

Definition set_unit (data : ModelRatioData) (name : jsstr) (ms : Maps) : Maps :=
  if nonempty (price (d_texts data))
  then with_map ms ModelPriceUnits
         (obj_set (ms ModelPriceUnits) name (VStr (unit_text (normalizeModelPriceUnit (d_priceUnit data)))))
  else ms.

Definition set_expr (data : ModelRatioData) (name : jsstr) (ms : Maps) : Maps :=
  let combined := combineBillingExpr (d_billingExpr data) (d_requestRuleExpr data) in
  if nonempty combined
  then with_map (with_map ms BillingMode (obj_set (ms BillingMode) name (VStr "tiered_expr")))
         BillingExpression (obj_set (ms BillingExpression) name (VStr combined))
  else ms.

(** The value of [inherited] a copy gets. *)
Definition inherited_of (makeVariantExplicit : bool) (config : value) : value :=
  if makeVariantExplicit then VBool false else prop config "inherited".

Definition set_variant (data : ModelRatioData) (explicit : bool) (name : jsstr) (ms : Maps) : Maps :=
  let config := d_priceVariant data in
  let set v := with_map ms ModelPriceVariants (obj_set (ms ModelPriceVariants) name v) in
  if truthy config then set (cloneModelPriceVariantConfig config (inherited_of explicit config))
  else if explicit && is_undefined config
  then set (VObj [("resolution_enabled"%js, VBool false); ("quality_enabled"%js, VBool false); ("inherited"%js, VBool false)])
  else ms.

Definition set_image_edit (data : ModelRatioData) (explicit : bool) (name : jsstr) (ms : Maps) : Maps :=
  let config := d_imageEditPriceVariant data in
  if is_undefined config then ms
  else
    let routes := obj_delete (map_of (entry ms ModelRoutePriceVariants name)) "image.edit" in
    let routes := if truthy config
                  then obj_set routes "image.edit" (cloneModelPriceVariantConfig config (inherited_of explicit config))
                  else routes in
    with_map ms ModelRoutePriceVariants
      (match routes with
       | [] => obj_delete (ms ModelRoutePriceVariants) name
       | _ => obj_set (ms ModelRoutePriceVariants) name (VObj routes)
       end).

(** The body of the loop over the names. *)
Definition persist_one (data : ModelRatioData) (explicit : bool) (ms : Maps) (name : jsstr) : Maps :=
  let ms := λ f, if decide (f = ModelRoutePriceVariants) then ms f else obj_delete (ms f) name in
  match d_billingMode data with
  | tiered_expr => set_fields data name RATIO_FIELDS (set_unit data name (set_fields data name [ModelPrice] (set_expr data name ms)))
  | per_request =>
    set_image_edit data explicit name (set_variant data explicit name (set_unit data name (set_fields data name [ModelPrice] ms)))
  | per_token => set_fields data name RATIO_FIELDS ms
  end.

Definition persistPricingData (s : Settings) (data : ModelRatioData) (targetNames : list jsstr) (makeVariantExplicit : bool) :
    exc Settings :=
  ms ← read_settings s; Ret (write_settings (fold_left (persist_one data makeVariantExplicit) targetNames ms)).

(** ** The table's state *)

Record Table := MkTable {
  settings : Settings;
  editData : option ModelRatioData;
}.

Definition handleSave (data : ModelRatioData) (t : Table) : exc Table :=
  s ← persistPricingData (settings t) data [d_name data] false; Ret (MkTable s (Some data)).

(** [None]: the table is left as it is, with a message. *)
Definition handleBatchCopy (targetNames : list jsstr) (t : Table) : option (exc Table) :=
  match editData t, targetNames with
  | Some data, _ :: _ =>
    Some (s ← persistPricingData (settings t) data targetNames true; Ret (MkTable s (editData t)))
  | _, _ => None
  end.

Definition handleAdd (t : Table) : Table := MkTable (settings t) None.
End Table.

Example parse_float_1 : num_to_string <$> (parseFloat <$> [" 2.50x"; "-.5"; "1e"; "1e-3z"; "Infinity"; "abc"; "7."]%js)
  = ["2.5"; "-0.5"; "1"; "0.001"; "Infinity"; "NaN"; "7"]%js.
Proof. vm_compute. reflexivity. Qed.

End PriceTable.
