(* ===== verification/PriceTableFacts.v ===== *)
(** * Theorems on the table of model prices

    What saving, copying and deleting do to the rows: the saved models show the
    saved prices, every other row stays, nothing of another billing mode is
    left; and what the settings' texts keep of it. *)

From S2P Require Import Prelude JsString JsRegExp JsNumber JsIntegerText JsValue JsObject JsonRoundTrip JsMap BillingExpr PriceVariants PriceTable.

Module PriceTableFacts.
Import BillingExpr PriceVariants PriceTable.

#[local] Arguments to_string : simpl never.
#[local] Arguments num_to_string : simpl never.
#[local] Arguments parseFloat : simpl never.
#[local] Arguments cloneModelPriceVariantConfig : simpl never.
#[local] Arguments combineBillingExpr : simpl never.
#[local] Arguments obj_set : simpl never.
#[local] Arguments normalizeModelPriceUnit : simpl never.
#[local] Arguments unit_text : simpl never.

(** ** Reading numbers *)

Lemma parse_float_parts neg s : startsWith s "Infinity" = false → ∀ ip fp s2 s3 e r,
  span is_digit s = (ip, s2) → ip ≠ [] → fraction_of s2 = (fp, s3, true) → exponent_of s3 = (e, r, true) →
  parse_float_unsigned neg s = dec_to_num neg (digits_val (ip ++ fp)) (e - Z.of_nat (length fp)).
Proof.
  intros Hi ip fp s2 s3 e r Hs Hne Hf He. unfold parse_float_unsigned. rewrite Hi, Hs.
  assert (match s2 with c :: r1 => if (c =? 46)%N then span is_digit r1 else ([], s2) | [] => ([], s2) end = (fp, s3)) as ->.
  { unfold fraction_of in Hf. destruct s2 as [|c r1]; [congruence|]. destruct (c =? 46)%N; [|congruence].
    destruct (span is_digit r1). congruence. }
  assert (nonempty ip = true) as -> by by apply nonempty_spec. cbn [orb]. do 2 f_equal.
  unfold exponent_of in He. destruct s3 as [|c r1]; [congruence|]. destruct ((c =? 101) || (c =? 69))%N; [|congruence].
  change (match r1 with d :: t => if (d =? 43)%N then (false, t) else if (d =? 45)%N then (true, t) else (false, r1) | [] => (false, r1) end)
    with (exp_sign_of r1).
  destruct (exp_sign_of r1) as [eneg r2]. destruct (span is_digit r2) as [ed r3]. cbn [fst]. injection He as <- <- Hn. by rewrite Hn.
Qed.

Lemma digit_not_Infinity s ip s2 : span is_digit s = (ip, s2) → ip ≠ [] → startsWith s "Infinity" = false ∧ ∃ c r, s = c :: r ∧ is_digit c = true.
Proof.
  destruct s as [|c s]; cbn [span]; [by intros [= <- <-]|]. destruct (is_digit c) eqn:E; [|by intros [= <- <-]]. intros _ _.
  split; [|by exists c, s]. destruct (73 =? c)%N eqn:E2; [apply N.eqb_eq in E2 as <-; done|]. change (startsWith (c :: s) "Infinity") with ((73 =? c)%N && startsWith s "nfinity"). by rewrite E2.
Qed.

(** A text that is a number of JSON is the same number to [parseFloat]. *)
Lemma parseFloat_json s x : json_number s = Some (x, []) → parseFloat s = x.
Proof.
  rewrite json_number_parts. destruct s as [|c s]; [done|]. cbn [sign_of]. unfold parseFloat.
  destruct (N.eqb_spec c 45) as [->|Hc].
  - destruct (span is_digit s) as [ip s2] eqn:Es. destruct ip as [|d ip]; [done|]. destruct (match ip with [] => true | _ => _ end); [|done].
    destruct (fraction_of s2) as [[fp s3] [|]] eqn:Ef; [|done]. destruct (exponent_of s3) as [[e s4] [|]] eqn:Ee; [|done]. intros [= <- ->].
    destruct (digit_not_Infinity _ _ _ Es) as [Hi _]; [done|].
    change (trim_start (45%N :: s)) with (45%N :: s). cbv iota. change (45 =? 45)%N with true. cbv iota. by eapply (parse_float_parts _ _ Hi (d :: ip)).
  - destruct (span is_digit (c :: s)) as [ip s2] eqn:Es. destruct ip as [|d ip]; [done|]. destruct (match ip with [] => true | _ => _ end); [|done].
    destruct (fraction_of s2) as [[fp s3] [|]] eqn:Ef; [|done]. destruct (exponent_of s3) as [[e s4] [|]] eqn:Ee; [|done]. intros [= <- ->].
    destruct (digit_not_Infinity _ _ _ Es) as [Hi (c' & r' & [= <- <-] & Hd)]; [done|].
    assert (is_ws c = false ∧ c ≠ 43%N) as [Hw Hp].
    { unfold is_digit in Hd. unfold is_ws. rewrite ?orb_false_iff, ?andb_false_iff, ?N.eqb_neq, ?N.leb_gt. lia. }
    cbn [trim_start]. rewrite Hw. apply N.eqb_neq in Hc as ->, Hp as ->. by eapply (parse_float_parts _ _ Hi (d :: ip)).
Qed.

Lemma parseFloat_text x : readable x → parseFloat (num_to_string x) = x.
Proof. intros [_ H]%readable_spec. apply parseFloat_json. rewrite <- (H [] I). by rewrite app_nil_r. Qed.

(** ** Objects *)

Lemma obj_get_delete fs k j : obj_get (obj_delete fs k) j = if decide (j = k) then None else obj_get fs j.
Proof.
  unfold obj_delete. induction fs as [|[i v] fs IH]; cbn; [by destruct (decide _)|]. unfold str_eqb at 1. case_bool_decide as E; cbn.
  - subst i. rewrite IH. destruct (decide (j = k)) as [|Hn]; [done|]. by rewrite (proj2 (str_eqb_neq j k) Hn).
  - unfold str_eqb. case_bool_decide as E2; [|done]. subst i. by destruct (decide (j = k)).
Qed.

Lemma obj_delete_NoDup fs k : NoDup fs.*1 → NoDup (obj_delete fs k).*1.
Proof.
  unfold obj_delete. induction fs as [|[i v] fs IH]; [done|]. cbn. intros [Hi Hn]%NoDup_cons. destruct (negb _); [|by apply IH]. cbn.
  constructor; [|by apply IH]. intros ([j w] & -> & [Hj _]%elem_of_lfilter)%list_elem_of_fmap. apply Hi, list_elem_of_fmap. by exists (j, w).
Qed.

(** ** The entries after saving *)

Lemma entry_with_map ms f0 fs f n : entry (with_map ms f0 fs) f n = if decide (f = f0) then default VUndef (obj_get fs n) else entry ms f n.
Proof. unfold entry, with_map. by destruct (decide (f = f0)). Qed.

Lemma get_set_default fs k v j : default VUndef (obj_get (obj_set fs k v) j) = if decide (j = k) then v else default VUndef (obj_get fs j).
Proof. rewrite obj_get_set. by destruct (decide (j = k)). Qed.

Lemma get_delete_default fs k j : default VUndef (obj_get (obj_delete fs k) j) = if decide (j = k) then VUndef else default VUndef (obj_get fs j).
Proof. rewrite obj_get_delete. by destruct (decide (j = k)). Qed.

(** The number a text is saved as. *)
Definition number_of (t : jsstr) : value := if nonempty t && is_finite (parseFloat t) then VNum (parseFloat t) else VUndef.

Lemma set_present_entry fs k t j : default VUndef (obj_get (setIfPresent fs k t) j) =
  if decide (j = k) then match number_of t with VUndef => default VUndef (obj_get fs j) | v => v end else default VUndef (obj_get fs j).
Proof.
  unfold setIfPresent, number_of. destruct (nonempty t); cbn; [|by destruct (decide _)].
  destruct (is_finite _); [|by destruct (decide _)]. apply get_set_default.
Qed.

(** Evaluates the tests between constants. *)
Ltac closed_bools :=
  repeat match goal with
  | |- context [bool_decide ?P] =>
    let v := eval vm_compute in (bool_decide P) in
    match v with true => idtac | false => idtac end; change (bool_decide P) with v
  end; cbn [andb orb negb]; cbv iota.

Section Saving.
Context (data : ModelRatioData) (explicit : bool).

(** The fields with a number in a mode. *)
Definition written : list Field :=
  match d_billingMode data with tiered_expr => ModelPrice :: RATIO_FIELDS | per_request => [ModelPrice] | per_token => RATIO_FIELDS end.

Definition saved_variant : value :=
  let config := d_priceVariant data in
  if truthy config then cloneModelPriceVariantConfig config (inherited_of explicit config)
  else if explicit && is_undefined config
  then VObj [("resolution_enabled"%js, VBool false); ("quality_enabled"%js, VBool false); ("inherited"%js, VBool false)]
  else VUndef.

Definition new_routes (old : value) : obj :=
  let config := d_imageEditPriceVariant data in
  let routes := obj_delete (map_of old) "image.edit" in
  if truthy config then obj_set routes "image.edit" (cloneModelPriceVariantConfig config (inherited_of explicit config)) else routes.

Definition saved_routes (old : value) : value :=
  if is_undefined (d_imageEditPriceVariant data) then old
  else match new_routes old with [] => VUndef | routes => VObj routes end.

Definition combined : jsstr := combineBillingExpr (d_billingExpr data) (d_requestRuleExpr data).

(** The entry of a saved model; [old] is the entry of its routes before. *)
Definition saved_entry (old : value) (f : Field) : value :=
  let mode := d_billingMode data in
  match f with
  | ModelPriceUnits =>
    if negb (bool_decide (mode = per_token)) && nonempty (price (d_texts data))
    then VStr (unit_text (normalizeModelPriceUnit (d_priceUnit data))) else VUndef
  | ModelPriceVariants => if bool_decide (mode = per_request) then saved_variant else VUndef
  | ModelRoutePriceVariants => if bool_decide (mode = per_request) then saved_routes old else old
  | BillingMode => if bool_decide (mode = tiered_expr) && nonempty combined then VStr "tiered_expr" else VUndef
  | BillingExpression => if bool_decide (mode = tiered_expr) && nonempty combined then VStr combined else VUndef
  | _ => if bool_decide (f ∈ written) then number_of (text_at (d_texts data) f) else VUndef
  end.

Lemma entry_set_fields name fields ms f n : entry (set_fields data name fields ms) f n =
  if decide (n = name) then
    if bool_decide (f ∈ fields) then match number_of (text_at (d_texts data) f) with VUndef => entry ms f n | v => v end else entry ms f n
  else entry ms f n.
Proof. unfold entry, set_fields. case_bool_decide; [rewrite set_present_entry|]; by destruct (decide _). Qed.

Lemma entry_set_unit name ms f n : entry (set_unit data name ms) f n =
  if decide (n = name) then
    if bool_decide (f = ModelPriceUnits) && nonempty (price (d_texts data))
    then VStr (unit_text (normalizeModelPriceUnit (d_priceUnit data))) else entry ms f n
  else entry ms f n.
Proof.
  unfold set_unit. destruct (nonempty _); rewrite ?andb_true_r, ?andb_false_r; [|by destruct (decide _)].
  rewrite entry_with_map, get_set_default. case_bool_decide; subst; repeat destruct (decide _); done.
Qed.

Lemma entry_set_expr name ms f n : entry (set_expr data name ms) f n =
  if decide (n = name) then
    if bool_decide (f = BillingMode) && nonempty combined then VStr "tiered_expr"
    else if bool_decide (f = BillingExpression) && nonempty combined then VStr combined
    else entry ms f n
  else entry ms f n.
Proof.
  unfold set_expr. fold combined. destruct (nonempty combined); rewrite ?andb_true_r, ?andb_false_r; [|by destruct (decide _)].
  rewrite !entry_with_map. unfold with_map. cbn. rewrite !get_set_default.
  repeat case_bool_decide; subst; repeat destruct (decide _); done.
Qed.

Lemma entry_set_variant name ms f n : entry (set_variant data explicit name ms) f n =
  if decide (n = name) then
    if bool_decide (f = ModelPriceVariants) then match saved_variant with VUndef => entry ms f n | v => v end else entry ms f n
  else entry ms f n.
Proof.
  assert (∀ v, v ≠ VUndef → entry (with_map ms ModelPriceVariants (obj_set (ms ModelPriceVariants) name v)) f n =
    if decide (n = name) then if bool_decide (f = ModelPriceVariants) then v else entry ms f n else entry ms f n) as Hs.
  { intros v _. rewrite entry_with_map, get_set_default. case_bool_decide; subst; repeat destruct (decide _); done. }
  unfold set_variant, saved_variant. destruct (truthy _); [by rewrite Hs|]. destruct (_ && _); [by rewrite Hs|].
  case_bool_decide; by destruct (decide _).
Qed.

Lemma entry_set_image name ms f n : entry (set_image_edit data explicit name ms) f n =
  if decide (n = name) then if bool_decide (f = ModelRoutePriceVariants) then saved_routes (entry ms f n) else entry ms f n else entry ms f n.
Proof.
  unfold set_image_edit, saved_routes, new_routes. destruct (is_undefined _); [case_bool_decide; by destruct (decide _)|].
  rewrite entry_with_map. case_bool_decide; subst; [|repeat destruct (decide _); done].
  destruct (decide (ModelRoutePriceVariants = _)); [|done]. destruct (decide (n = name)) as [->|Hn].
  - destruct (if truthy _ then _ else _); [rewrite get_delete_default|rewrite get_set_default]; by destruct (decide _).
  - destruct (if truthy _ then _ else _); [rewrite get_delete_default|rewrite get_set_default]; by destruct (decide _).
Qed.

Lemma entry_cleared (ms : Maps) name f n : entry (λ f, if decide (f = ModelRoutePriceVariants) then ms f else obj_delete (ms f) name) f n =
  if decide (n = name) then if bool_decide (f = ModelRoutePriceVariants) then entry ms f n else VUndef else entry ms f n.
Proof.
  unfold entry. case_bool_decide; subst; repeat destruct (decide _); try done; rewrite get_delete_default; by destruct (decide _).
Qed.

Lemma persist_entry ms name f n : entry (persist_one data explicit ms name) f n =
  if decide (n = name) then saved_entry (entry ms ModelRoutePriceVariants n) f else entry ms f n.
Proof.
  unfold persist_one, saved_entry, written. destruct (d_billingMode data) eqn:Em; destruct (decide (n = name)) as [->|Hn];
    rewrite ?entry_set_image, ?entry_set_variant, ?entry_set_fields, ?entry_set_unit, ?entry_set_fields, ?entry_set_expr, entry_cleared.
  all: repeat destruct (decide _); try done.
  all: destruct f; closed_bools; try done; by repeat case_match.
Qed.

Lemma fold_entry names ms f n : NoDup names →
  entry (fold_left (persist_one data explicit) names ms) f n =
  if decide (n ∈ names) then saved_entry (entry ms ModelRoutePriceVariants n) f else entry ms f n.
Proof.
  intros Hn. revert ms. induction Hn as [|m names Hm Hn IH]; intros ms; [done|]. cbn [fold_left]. rewrite IH, !persist_entry.
  destruct (decide (n = m)) as [->|Hne].
  - destruct (decide (m ∈ names)); [done|]. destruct (decide (m ∈ m :: names)) as [|[]]; [done|by left].
  - destruct (decide (n ∈ names)), (decide (n ∈ m :: names)) as [H|H]; try done; rewrite elem_of_cons in H; tauto.
Qed.
End Saving.

(** ** What the texts keep *)

(** A property of every member that is left, as a property of reading. *)
Lemma defined_forall (Q : jsstr * value → Prop) fs : NoDup fs.*1 →
  Forall Q (map_of (defined (VObj fs))) ↔ ∀ k v, obj_get fs k = Some v → v = VUndef ∨ Q (k, defined v).
Proof.
  intros Hn. rewrite Forall_forall. cbn [defined map_of]. split.
  - intros H k v Hg. destruct (is_undefined v) eqn:Ev; [left; by destruct v|right]. apply H, list_elem_of_omap.
    exists (k, v). split; [by apply elem_of_obj_get|]. cbn. by rewrite Ev.
  - intros H [k w] ([k' v] & Hin & E)%list_elem_of_omap. cbn in E. destruct (is_undefined v) eqn:Ev; [done|]. injection E as -> <-.
    apply elem_of_obj_get in Hin; [|done]. destruct (H _ _ Hin) as [->|]; done.
Qed.

Lemma defined_keys fs : NoDup fs.*1 → NoDup (map_of (defined (VObj fs))).*1.
Proof.
  cbn. induction fs as [|[k v] fs IH]; [done|]. cbn. intros [Hk Hn]%NoDup_cons. destruct (is_undefined v); [by apply IH|]. cbn.
  constructor; [|by apply IH]. intros ([j w] & -> & ([j' u] & Hin & E)%list_elem_of_omap)%list_elem_of_fmap. cbn in E.
  destruct (is_undefined u); [done|]. injection E as -> _. apply Hk, list_elem_of_fmap. by exists (j, u).
Qed.

Lemma defined_jsonable_get fs : NoDup fs.*1 →
  jsonable (defined (VObj fs)) ↔ ∀ k v, obj_get fs k = Some v → v = VUndef ∨ key_index k = None ∧ jsonable (defined v).
Proof.
  intros Hn. rewrite <- (defined_forall (λ p, key_index p.1 = None ∧ jsonable p.2)) by done. rewrite Forall_forall. split.
  - intros [_ H]%jsonable_obj p Hp. by apply H.
  - intros H. apply obj_jsonable; [by apply defined_keys|done].
Qed.

(** Nothing is left out of a value that can be printed. *)
Lemma defined_id v : jsonable v → defined v = v.
Proof.
  induction v as [| | | | |vs IH|fs IH] using value_ind'; try done.
  - intros H. apply forallb_True in H. cbn. f_equal. rewrite <- (map_id vs) at 2. apply map_ext_in. intros w Hw%list_elem_of_In.
    rewrite Forall_forall in H, IH. specialize (H w Hw). destruct (is_undefined w) eqn:E; [by destruct w|]. by apply IH.
  - intros [_ H]%jsonable_obj. cbn. f_equal. induction fs as [|[k w] fs IHf]; [done|]. cbn.
    apply Forall_cons in IH as [Hw IH]. assert (jsonable w) as Hj by (apply (H (k, w)); by left).
    destruct (is_undefined w) eqn:E; [by destruct w|]. cbn in Hw. rewrite Hw by done. f_equal. apply IHf; [done|].
    intros p Hp. apply H. by right.
Qed.

Section Storage.
Context (lower : jsstr → jsstr) `{!LowerCase lower}.

Definition config_valid (w : value) : bool := isModelPriceVariantConfig lower w.
Definition route_valid (q : jsstr * value) : bool := negb (str_eqb (normalizeModelPriceRoute lower q.1) "") && config_valid q.2.

(** What the validation asks of an entry. *)
Definition entry_valid (f : Field) (k : jsstr) (w : value) : bool :=
  match f with
  | ModelPriceVariants => negb (str_eqb (trim k) "") && config_valid w
  | ModelRoutePriceVariants => negb (str_eqb (trim k) "") && match w with VObj routes => forallb route_valid routes | _ => false end
  | _ => true
  end.

(** A map whose text reads back. *)
Definition good (f : Field) (fs : obj) : Prop :=
  NoDup fs.*1 ∧ ∀ k v, obj_get fs k = Some v →
    key_index k = None ∧ v ≠ VUndef ∧ jsonable (defined v) ∧ NoDup (map_of v).*1 ∧ entry_valid f k (defined v) = true.

Lemma good_set f fs k v : good f fs → key_index k = None → v ≠ VUndef → jsonable (defined v) → NoDup (map_of v).*1 →
  entry_valid f k (defined v) = true → good f (obj_set fs k v).
Proof.
  intros [Hn H] H1 H2 H3 H4 H5. split; [by apply obj_set_NoDup|]. intros j w. rewrite obj_get_set.
  destruct (decide (j = k)) as [->|]; [by intros [= <-]|apply H].
Qed.

Lemma good_delete f fs k : good f fs → good f (obj_delete fs k).
Proof.
  intros [Hn H]. split; [by apply obj_delete_NoDup|]. intros j w. rewrite obj_get_delete. destruct (decide (j = k)); [done|apply H].
Qed.

Lemma variants_map_valid fs : isModelPriceVariantsMap lower (VObj fs) = forallb (λ p, entry_valid ModelPriceVariants p.1 p.2) fs.
Proof. done. Qed.

Lemma routes_map_valid fs : isModelRoutePriceVariantsMap lower (VObj fs) = forallb (λ p, entry_valid ModelRoutePriceVariants p.1 p.2) fs.
Proof.
  cbn [isModelRoutePriceVariantsMap]. induction fs as [|[k v] fs IH]; [done|]. cbn [forallb fst snd]. rewrite IH. f_equal.
  unfold entry_valid. destruct (str_eqb (trim k) ""); [done|]. by destruct v.
Qed.

Lemma forallb_defined (P : jsstr * value → bool) fs : NoDup fs.*1 → (∀ k v, obj_get fs k = Some v → P (k, defined v) = true) →
  forallb P (map_of (defined (VObj fs))) = true.
Proof.
  intros Hn H. apply forallb_forall. intros p Hp%list_elem_of_In. revert p Hp. apply Forall_forall.
  apply (defined_forall (λ p, P p = true)); [done|]. intros k v Hg. right. by apply H.
Qed.

(** The text of a good map is read as what is left of the map. *)
Lemma good_stored f fs : good f fs → read_field lower f (default [] (JSON_stringify2 (VObj fs))) = defined (VObj fs).
Proof.
  intros [Hn H]. assert (jsonable (defined (VObj fs))) as Hj.
  { apply defined_jsonable_get; [done|]. intros k v Hg%H. right. tauto. }
  destruct (JSON_parse_stringify2_defined _ Hj) as (t & Ht & (c & t' & -> & _) & Hp). rewrite Ht. cbn [default].
  assert (∀ fb, safeJsonParse (c :: t') fb = defined (VObj fs)) as Hs.
  { intros fb. unfold safeJsonParse. rewrite (trim_id (c :: t')) by by eapply stringify2_obj_trimmed. by rewrite Hp. }
  assert (∀ P, (∀ ks, P (VObj ks) = forallb (λ p, entry_valid f p.1 p.2) ks) →
    safeJsonParseWithValidation (c :: t') (VObj []) P = defined (VObj fs)) as Hv.
  { intros P HP. unfold safeJsonParseWithValidation. rewrite Hs. cbn [defined]. rewrite HP.
    fold (map_of (VObj (omap (λ p, if is_undefined p.2 then None else Some (p.1, defined p.2)) fs))).
    change (VObj (omap _ fs)) with (defined (VObj fs)). rewrite forallb_defined; [done|done|]. intros k v Hg%H. cbn. tauto. }
  destruct f; cbn [read_field]; auto using variants_map_valid, routes_map_valid.
Qed.

Lemma entry_defined fs k : NoDup fs.*1 → default VUndef (obj_get (map_of (defined (VObj fs))) k) = defined (default VUndef (obj_get fs k)).
Proof. apply prop_defined. Qed.

(** Reading the settings that were written. *)
Lemma stored_settings ms : (∀ f, good f (ms f)) →
  ∃ ms', read_settings lower (write_settings ms) = Ret ms' ∧ (∀ f n, entry ms' f n = defined (entry ms f n)) ∧
    ∀ f n, obj_get (ms' f) n ≠ Some VUndef.
Proof.
  intros Hg. unfold read_settings, write_settings.
  assert (∀ f, read_field lower f (default [] (JSON_stringify2 (VObj (ms f)))) = defined (VObj (ms f))) as Hr.
  { intros f. by apply good_stored. }
  assert (forallb (λ f, is_map (read_field lower f (default [] (JSON_stringify2 (VObj (ms f)))))) ALL_FIELDS = true) as ->.
  { apply forallb_forall. intros f _. by rewrite Hr. }
  eexists. split; [done|]. split; intros f n.
  - unfold entry. rewrite Hr. apply entry_defined, Hg.
  - cbv beta. rewrite Hr. intros E%obj_get_elem. apply list_elem_of_omap in E as ([k v] & _ & E). cbn in E. by destruct v.
Qed.

(** ** Reading settings, and saving in them *)

Lemma validated_valid text P : P (VObj []) = true → P (safeJsonParseWithValidation text (VObj []) P) = true.
Proof. intros H. unfold safeJsonParseWithValidation. by destruct (P (safeJsonParse _ _)) eqn:E. Qed.

Lemma read_good s ms : read_settings lower s = Ret ms → (∀ f, jsonable (VObj (ms f))) → ∀ f, good f (ms f).
Proof.
  unfold read_settings. destruct (forallb _ _) eqn:Ef; [|done]. intros [= <-] Hj f. specialize (Hj f).
  assert (read_field lower f (s f) = VObj (map_of (read_field lower f (s f)))) as Hm.
  { rewrite forallb_forall in Ef. specialize (Ef f). destruct (read_field lower f (s f)); try done; (discriminate Ef; by destruct f; cbn; tauto). }
  assert (forallb (λ p, entry_valid f p.1 p.2) (map_of (read_field lower f (s f))) = true) as Hv.
  { destruct f; try by apply forallb_forall.
    - rewrite <- variants_map_valid, <- Hm. by apply validated_valid.
    - rewrite <- routes_map_valid, <- Hm. by apply validated_valid. }
  clear Hm. revert Hj Hv. generalize (map_of (read_field lower f (s f))). intros fs [Hn Hj]%jsonable_obj Hv. split; [done|].
  intros k v Hg. apply elem_of_obj_get in Hg; [|done]. destruct (Hj _ Hg) as [Hk Hw]. cbn in Hk, Hw. rewrite defined_id by done.
  split_and!; [done|by intros ->|done| |].
  - destruct v; try constructor. by apply jsonable_obj in Hw as [? _].
  - rewrite forallb_forall in Hv. apply (Hv (k, v)), list_elem_of_In, Hg.
Qed.

Definition number_ok (t : jsstr) : bool := implb (is_finite (parseFloat t)) (readable (parseFloat t)).
Definition config_ok (w : value) : bool := is_undefined w || jsonable (defined w) && config_valid (defined w).

Definition image_clone (data : ModelRatioData) (explicit : bool) : value :=
  let config := d_imageEditPriceVariant data in
  if truthy config then cloneModelPriceVariantConfig config (inherited_of explicit config) else VUndef.

(** Data whose numbers read back and whose configurations are valid. *)
Definition data_ok (data : ModelRatioData) (explicit : bool) : bool :=
  forallb (λ f, number_ok (text_at (d_texts data) f)) (ModelPrice :: RATIO_FIELDS) &&
  config_ok (saved_variant data explicit) && config_ok (image_clone data explicit).

(** A name that is neither blank nor an array index. *)
Definition name_ok (n : jsstr) : bool := bool_decide (key_index n = None) && negb (str_eqb (trim n) "").

Lemma clone_keys c i : NoDup (map_of (cloneModelPriceVariantConfig c i)).*1.
Proof.
  unfold cloneModelPriceVariantConfig. cbn [map_of]. rewrite fmap_app.
  destruct (match i with VUndef => _ | _ => _ end); apply (bool_decide_eq_true_1 (NoDup _)); by vm_compute.
Qed.

(** The routes of a model. *)
Definition good_routes (rs : obj) : Prop :=
  NoDup rs.*1 ∧ ∀ r c, obj_get rs r = Some c → c = VUndef ∨ key_index r = None ∧ jsonable (defined c) ∧ route_valid (r, defined c) = true.

Lemma good_routes_of fs k v : good ModelRoutePriceVariants fs → obj_get fs k = Some v → good_routes (map_of v).
Proof.
  intros [_ H] (_ & _ & Hj & Hn & Hv)%H. split; [done|]. destruct v as [| | | | | |rs]; try done. cbn [map_of] in *.
  cbn [entry_valid] in Hv. rewrite andb_true_iff in Hv. destruct Hv as [_ Hv]. change (forallb route_valid (map_of (defined (VObj rs))) = true) in Hv.
  intros r c Hg. destruct (proj1 (defined_jsonable_get rs Hn) Hj r c Hg) as [?|[Hk Hc]]; [by left|right]. split_and!; [done|done|].
  assert (Forall (λ q, route_valid q = true) (map_of (defined (VObj rs)))) as Hf.
  { apply Forall_forall. intros q Hq%list_elem_of_In. rewrite forallb_forall in Hv. by apply Hv. }
  destruct (proj1 (defined_forall _ rs Hn) Hf r c Hg) as [->|]; done.
Qed.

Lemma good_routes_set fs k rs : good ModelRoutePriceVariants fs → good_routes rs → key_index k = None → negb (str_eqb (trim k) "") = true →
  good ModelRoutePriceVariants (obj_set fs k (VObj rs)).
Proof.
  intros Hg [Hn H] Hk Hb. apply good_set; try done.
  - apply defined_jsonable_get; [done|]. intros r c [?|?]%H; [by left|right; tauto].
  - cbn [entry_valid]. rewrite Hb. cbn [andb]. change (forallb route_valid (map_of (defined (VObj rs))) = true).
    apply forallb_forall. intros q Hq%list_elem_of_In. revert q Hq. apply Forall_forall. apply defined_forall; [done|].
    intros r c [?|?]%H; [by left|right; tauto].
Qed.

Lemma good_routes_delete rs r : good_routes rs → good_routes (obj_delete rs r).
Proof.
  intros [Hn H]. split; [by apply obj_delete_NoDup|]. intros r' c. rewrite obj_get_delete. destruct (decide _); [done|apply H].
Qed.

Lemma image_edit_route c : jsonable (defined c) → config_valid (defined c) = true →
  key_index "image.edit" = None ∧ jsonable (defined c) ∧ route_valid ("image.edit"%js, defined c) = true.
Proof.
  intros Hj Hc. split_and!; [done|done|]. unfold route_valid. cbn [fst snd]. rewrite Hc, andb_true_r.
  unfold normalizeModelPriceRoute. change (trim "image.edit") with ("image.edit"%js). rewrite (lower_ascii (lower := lower) "image.edit") by done. by vm_compute.
Qed.

Section Preservation.
Context (data : ModelRatioData) (explicit : bool) (name : jsstr).
Context (Hd : data_ok data explicit = true) (Hname : name_ok name = true).

Lemma name_facts : key_index name = None ∧ negb (str_eqb (trim name) "") = true.
Proof. unfold name_ok in Hname. by rewrite andb_true_iff, bool_decide_eq_true in Hname. Qed.

Lemma set_plain_good f fs v : good f fs → v ≠ VUndef → jsonable (defined v) → map_of v = [] →
  entry_valid f name (defined v) = true → good f (obj_set fs name v).
Proof. intros Hg Hv Hj Hm He. apply good_set; try done; [apply name_facts|]. rewrite Hm. constructor. Qed.

Lemma set_fields_good fields ms : (∀ f, f ∈ fields → f ∈ ModelPrice :: RATIO_FIELDS) → (∀ f, good f (ms f)) →
  ∀ f, good f (set_fields data name fields ms f).
Proof.
  intros Hsub Hg f. unfold set_fields. case_bool_decide as Hf; [|done]. apply Hsub in Hf. unfold setIfPresent.
  destruct (negb _); [done|]. destruct (is_finite _) eqn:Efin; [|done]. apply set_plain_good; try done.
  - unfold data_ok in Hd. rewrite !andb_true_iff in Hd. destruct Hd as [[Hn _] _]. rewrite forallb_forall in Hn.
    specialize (Hn f ltac:(by apply list_elem_of_In)). unfold number_ok in Hn. rewrite Efin in Hn. by apply Is_true_true.
  - unfold RATIO_FIELDS in Hf. rewrite !elem_of_cons, elem_of_nil in Hf. by intuition subst.
Qed.

Lemma with_map_good ms g fs : (∀ f, good f (ms f)) → good g fs → ∀ f, good f (with_map ms g fs f).
Proof. intros Hg H f. unfold with_map. by destruct (decide (f = g)) as [->|]. Qed.

Lemma set_unit_good ms : (∀ f, good f (ms f)) → ∀ f, good f (set_unit data name ms f).
Proof. intros Hg. unfold set_unit. destruct (nonempty _); [|done]. by apply with_map_good, set_plain_good. Qed.

Lemma set_expr_good ms : (∀ f, good f (ms f)) → ∀ f, good f (set_expr data name ms f).
Proof.
  intros Hg. unfold set_expr. destruct (nonempty _); [|done]. apply with_map_good; [by apply with_map_good, set_plain_good|].
  by apply set_plain_good.
Qed.

Lemma config_facts w : config_ok w = true → w ≠ VUndef → jsonable (defined w) ∧ config_valid (defined w) = true.
Proof.
  unfold config_ok. destruct (is_undefined w) eqn:E; [by destruct w|]. cbn [orb]. rewrite andb_true_iff. intros [? ?]. split; [by apply Is_true_true|done].
Qed.

Lemma set_variant_good ms : (∀ f, good f (ms f)) → ∀ f, good f (set_variant data explicit name ms f).
Proof.
  intros Hg. assert (config_ok (saved_variant data explicit) = true) as Hc by (unfold data_ok in Hd; rewrite !andb_true_iff in Hd; tauto).
  assert (∀ v, v = saved_variant data explicit → v ≠ VUndef → NoDup (map_of v).*1 →
    ∀ f, good f (with_map ms ModelPriceVariants (obj_set (ms ModelPriceVariants) name v) f)) as Hs.
  { intros v -> Hv Hk. destruct (config_facts _ Hc Hv). apply with_map_good; [done|]. apply good_set; try done; [apply name_facts|].
    cbn. by rewrite (proj2 name_facts). }
  unfold set_variant. unfold saved_variant in Hs. destruct (truthy _); [by apply Hs, clone_keys|]. destruct (_ && _); [|done].
  apply Hs; [done|done|]. apply (bool_decide_eq_true_1 (NoDup _)). by vm_compute.
Qed.

Lemma set_image_good ms : (∀ f, good f (ms f)) → ∀ f, good f (set_image_edit data explicit name ms f).
Proof.
  intros Hg. assert (config_ok (image_clone data explicit) = true) as Hc by (unfold data_ok in Hd; rewrite !andb_true_iff in Hd; tauto).
  unfold set_image_edit. destruct (is_undefined _); [done|].
  assert (good_routes (new_routes data explicit (entry ms ModelRoutePriceVariants name))) as Hr.
  { unfold new_routes. assert (good_routes (obj_delete (map_of (entry ms ModelRoutePriceVariants name)) "image.edit")) as [Hn H].
    { apply good_routes_delete. unfold entry. destruct (obj_get _ _) as [v|] eqn:E; [|split; [constructor|done]].
      by eapply good_routes_of. }
    unfold image_clone in Hc. destruct (truthy _); [|done]. destruct (config_facts _ Hc) as [Hj Hv]; [done|].
    split; [by apply obj_set_NoDup|]. intros r c. rewrite obj_get_set. destruct (decide _) as [->|]; [|apply H].
    intros [= <-]. right. by apply image_edit_route. }
  fold (new_routes data explicit (entry ms ModelRoutePriceVariants name)).
  destruct (new_routes data explicit _) as [|q rs] eqn:E; apply with_map_good; try done; [by apply good_delete|].
  apply good_routes_set; [done|done|apply name_facts|apply name_facts].
Qed.

Lemma persist_one_good ms : (∀ f, good f (ms f)) → ∀ f, good f (persist_one data explicit ms name f).
Proof.
  intros Hg. unfold persist_one. set (cleared := λ f, if decide (f = ModelRoutePriceVariants) then ms f else obj_delete (ms f) name).
  assert (∀ f, good f (cleared f)) as Hc by (intros f; unfold cleared; destruct (decide _); [done|by apply good_delete]).
  assert (∀ f, f ∈ [ModelPrice] → f ∈ ModelPrice :: RATIO_FIELDS) as H1 by (intros f ->%list_elem_of_singleton; by left).
  assert (∀ f, f ∈ RATIO_FIELDS → f ∈ ModelPrice :: RATIO_FIELDS) as H2 by (intros f Hf; by right).
  destruct (d_billingMode data); auto using set_fields_good, set_unit_good, set_expr_good, set_variant_good, set_image_good.
Qed.
End Preservation.

Lemma persist_good data explicit names ms : data_ok data explicit = true → forallb name_ok names = true →
  (∀ f, good f (ms f)) → ∀ f, good f (fold_left (persist_one data explicit) names ms f).
Proof.
  intros Hd Hn. revert ms. induction names as [|n names IH]; intros ms Hg; [done|]. cbn in Hn |- *. apply andb_true_iff in Hn as [? ?].
  apply IH; [done|]. by apply persist_one_good.
Qed.

(** ** Rows after saving *)

Lemma row_from_ext (e e' : Field → value) n : (∀ f, e f = e' f) → row_from lower e n = row_from lower e' n.
Proof. intros H. unfold row_from, texts_of. by rewrite !H. Qed.

(** The text a saved text is shown as. *)
Definition kept_text (t : jsstr) : jsstr := cell (number_of t).

(** Data that says how the model is billed: a price per request is a number,
    an expression is not empty. *)
Definition regular (data : ModelRatioData) : bool :=
  match d_billingMode data with
  | per_request => negb (is_undefined (number_of (price (d_texts data))))
  | tiered_expr => nonempty (combined data)
  | per_token => true
  end.

(** A price for image edits that is stored under another spelling of the route,
    such as [images/edits]. *)
Definition alias_price (old : value) : option value :=
  snd <$> head (List.filter (λ p, negb (str_eqb p.1 "image.edit") && str_eqb (normalizeModelPriceRoute lower p.1) "image.edit") (map_of old)).

(** The price for image edits that is shown after saving: the old one if none
    was given; the one given, or none if it was removed; but where one is stored
    under another spelling, that one. *)
Definition image_shown (data : ModelRatioData) (explicit : bool) (old : value) : value :=
  if is_undefined (d_imageEditPriceVariant data) then getImageEditRoutePriceVariant lower old
  else match alias_price old with
       | Some stale => stale
       | None => defined (image_clone data explicit)
       end.

(** The row of a model after saving; [old] is the entry of its routes. *)
Definition shown_row (n : jsstr) (data : ModelRatioData) (explicit : bool) (old : value) : exc ModelRow :=
  let texts := texts_of (λ f, if bool_decide (f ∈ written data) then kept_text (text_at (d_texts data) f) else []) in
  let old_image := getImageEditRoutePriceVariant lower old in
  let unit := normalizeModelPriceUnit (d_priceUnit data) in
  match d_billingMode data with
  | per_token => Ret (MkRow n texts REQUEST VUndef old_image per_token [] [] false)
  | per_request =>
    Ret (MkRow n texts unit (defined (saved_variant data explicit)) (image_shown data explicit old) per_request [] [] false)
  | tiered_expr =>
    split ← splitBillingExprAndRequestRules (combined data);
    Ret (MkRow n texts (if nonempty (price (d_texts data)) then unit else REQUEST) VUndef old_image tiered_expr
           (billingExpr split) (requestRuleExpr split) false)
  end.

Lemma number_cases t : number_of t = VUndef ∨ nonempty t = true ∧ ∃ x, number_of t = VNum x.
Proof. unfold number_of. destruct (nonempty t); [|by left]. destruct (is_finite _); [right; eauto|by left]. Qed.

Lemma kept_nonempty data explicit : data_ok data explicit = true → number_of (price (d_texts data)) ≠ VUndef →
  nonempty (kept_text (price (d_texts data))) = true.
Proof.
  intros Hd Hn. unfold data_ok in Hd. rewrite !andb_true_iff in Hd. destruct Hd as [[Hd _] _]. cbn [forallb] in Hd.
  apply andb_true_iff in Hd as [Hd _]. unfold kept_text, number_of, number_ok in *. cbn [text_at] in *.
  destruct (_ && is_finite (parseFloat (price (d_texts data)))) eqn:E; [|done]. apply andb_true_iff in E as [_ E]. rewrite E in Hd.
  apply Is_true_true in Hd. destruct (readable_head _ Hd) as (c & t & Ht & _). cbn. unfold to_string. by rewrite Ht.
Qed.

Lemma defined_number t : defined (number_of t) = number_of t.
Proof. unfold number_of. by destruct (_ && _). Qed.

Lemma normalize_unit_text u : normalizeModelPriceUnit (VStr (unit_text u)) = u.
Proof. by destruct u. Qed.

Lemma filter_fuse {A} (f g : A → bool) l : List.filter f (List.filter g l) = List.filter (λ x, g x && f x) l.
Proof. induction l as [|x l IH]; [done|]. cbn. destruct (g x); cbn; [destruct (f x)|]; by rewrite IH. Qed.

Lemma obj_set_last fs k v : key_index k = None → obj_set (obj_delete fs k) k v = obj_delete fs k ++ [(k, v)].
Proof.
  intros Hk. unfold obj_set. replace (obj_get (obj_delete fs k) k) with (@None value).
  - induction (obj_delete fs k) as [|[j w] l IH]; [done|]. cbn. unfold key_before. rewrite Hk. by rewrite IH.
  - symmetry. rewrite obj_get_delete. by rewrite decide_True.
Qed.

Definition defined_members (fs : obj) : obj := omap (λ p, if is_undefined p.2 then None else Some (p.1, defined p.2)) fs.

Lemma members_defined fs k : jsonable (VObj fs) → defined_members (obj_delete fs k) = obj_delete fs k.
Proof.
  intros [_ Hj]%jsonable_obj. assert (∀ p, p ∈ obj_delete fs k → jsonable p.2) as H.
  { intros p [Hp _]%elem_of_lfilter. destruct p as [j v]. eapply Hj. exact Hp. }
  induction (obj_delete fs k) as [|p l IH]; [done|]. unfold defined_members in *. cbn. pose proof (H p (list_elem_of_here _ _)) as Hp.
  destruct p as [j v]. cbn in Hp |- *. replace (is_undefined v) with false by by destruct v. rewrite defined_id by done.
  f_equal. apply IH. intros q Hq. apply H. by right.
Qed.

Lemma image_edit_normal : normalizeModelPriceRoute lower "image.edit" = "image.edit"%js.
Proof.
  unfold normalizeModelPriceRoute. change (trim "image.edit") with ("image.edit"%js).
  rewrite (lower_ascii (lower := lower) "image.edit") by done. by vm_compute.
Qed.

(** What the table finds of the saved routes. *)
Lemma image_after data explicit old : old = VUndef ∨ jsonable old →
  getImageEditRoutePriceVariant lower (defined (saved_routes data explicit old)) = image_shown data explicit old.
Proof.
  intros Hold. assert (defined old = old) as Hd by (destruct Hold as [->|]; [done|by apply defined_id]).
  unfold saved_routes, image_shown. destruct (is_undefined (d_imageEditPriceVariant data)); [by rewrite Hd|].
  set (F := λ p : jsstr * value, str_eqb (normalizeModelPriceRoute lower p.1) "image.edit").
  set (rs := obj_delete (map_of old) "image.edit").
  assert (defined_members rs = rs) as Hrs.
  { destruct Hold as [->|Hj]; [done|]. destruct old; try done. by apply members_defined. }
  assert (alias_price old = snd <$> head (List.filter F rs)) as -> by (unfold alias_price, rs, obj_delete; by rewrite filter_fuse).
  assert (∀ l, getImageEditRoutePriceVariant lower (defined match l with [] => VUndef | p :: l => VObj (p :: l) end) =
    default VUndef (snd <$> head (List.filter F (defined_members l)))) as Hget.
  { intros [|p l]; [done|]. unfold defined_members. cbn [defined getImageEditRoutePriceVariant]. fold F.
    by destruct (List.filter F _) as [|[]]. }
  etransitivity; [exact (Hget (new_routes data explicit old))|]. unfold new_routes, image_clone. fold rs. destruct (truthy (d_imageEditPriceVariant data)).
  - unfold rs at 1. rewrite obj_set_last by done. fold rs. set (c := cloneModelPriceVariantConfig _ _).
    assert (defined_members (rs ++ [("image.edit"%js, c)]) = rs ++ [("image.edit"%js, defined c)]) as ->.
    { unfold defined_members in *. by rewrite omap_app, Hrs. }
    rewrite List.filter_app. cbn [List.filter]. unfold F at 2. cbn [fst]. rewrite image_edit_normal.
    replace (str_eqb "image.edit" "image.edit") with true by (unfold str_eqb; by rewrite bool_decide_true).
    by destruct (List.filter F rs).
  - rewrite Hrs. by destruct (List.filter F rs).
Qed.

Lemma saved_row n data explicit old : data_ok data explicit = true → regular data = true → old = VUndef ∨ jsonable old →
  row_from lower (λ f, defined (saved_entry data explicit old f)) n = shown_row n data explicit old.
Proof.
  intros Hd Hr Ho. pose proof (kept_nonempty data explicit Hd) as Hp. pose proof (image_after data explicit old Ho) as Hi.
  assert (defined old = old) as Ho' by (destruct Ho as [->|]; [done|by apply defined_id]).
  unfold regular, shown_row, row_from, saved_entry, written, texts_of in *. destruct (d_billingMode data) eqn:Em; closed_bools.
  - cbn. by rewrite !defined_number, Ho'.
  - assert (number_of (price (d_texts data)) ≠ VUndef) as Hn by (intros E; by rewrite E in Hr). specialize (Hp Hn).
    destruct (number_cases (price (d_texts data))) as [|[Hne _]]; [done|]. cbn [text_at price]. rewrite defined_number. fold (kept_text (price (d_texts data))).
    cbn. rewrite Hp, Hne. cbn. by rewrite normalize_unit_text, Hi.
  - rewrite Hr. cbn. rewrite Hr. cbn. rewrite !defined_number, Ho'. destruct (splitBillingExprAndRequestRules _); [done|]. cbn.
    destruct (nonempty (price (d_texts data))); cbn; [by rewrite normalize_unit_text|done].
Qed.

(** ** Copies of a configuration *)

Lemma clone_inherited c : cloneModelPriceVariantConfig c (prop c "inherited") = cloneModelPriceVariantConfig c VUndef.
Proof. unfold cloneModelPriceVariantConfig. by destruct (prop c "inherited"). Qed.

Lemma clone_idemp c : cloneModelPriceVariantConfig (cloneModelPriceVariantConfig c VUndef) VUndef = cloneModelPriceVariantConfig c VUndef.
Proof.
  unfold cloneModelPriceVariantConfig. cbv zeta.
  generalize (prop c "resolution_enabled") (prop c "quality_enabled") (prop c "rules") (prop c "extra_params") (prop c "formula") (prop c "inherited").
  intros re qe rules extra f inh.
  assert (∀ v, copy_optional (copy_optional v) = copy_optional v) as Hc by (intros v; unfold copy_optional; by destruct (truthy v) eqn:E; rewrite ?E).
  assert (∀ v, match match v with VArr vs => VArr vs | _ => VUndef end with VArr vs => VArr vs | _ => VUndef end =
    match v with VArr vs => VArr vs | _ => VUndef end) as Hr by by intros [].
  destruct inh; cbn [app prop obj_get]; str_eval; cbn [from_option id]; rewrite !Hr; destruct (truthy f);
    cbn [truthy prop obj_get]; str_eval; cbn [from_option id]; by rewrite ?Hc.
Qed.

Lemma prop_same c k : jsonable c → defined (prop c k) = prop c k.
Proof.
  intros Hj. destruct c as [| | | | | |fs]; try done. apply jsonable_obj in Hj as [_ H]. cbn. destruct (obj_get fs k) as [v|] eqn:E; [|done].
  apply obj_get_elem in E. by apply defined_id, (H (k, v)).
Qed.

Lemma prop_plain c k : jsonable c → prop c k = VUndef ∨ jsonable (prop c k).
Proof.
  intros Hj. destruct c as [| | | | | |fs]; try by left. apply jsonable_obj in Hj as [_ H]. cbn. destruct (obj_get fs k) as [v|] eqn:E; [|by left].
  right. apply obj_get_elem in E. by apply (H (k, v)).
Qed.

(** The validation reads members only. *)
Lemma config_copy c d : config_valid c = true → isRecord d = true →
  Forall (λ k, prop d k = prop c k) ["resolution_enabled"; "quality_enabled"; "rules"; "extra_params"; "inherited"]%js →
  optional (isModelPriceFormulaConfig lower) (prop d "formula") = true → config_valid d = true.
Proof.
  unfold config_valid. rewrite !config_unfold. cbv zeta. rewrite !Forall_cons. intros H Hr (-> & -> & -> & -> & -> & _) Hf.
  rewrite Hr, Hf. rewrite !andb_true_iff in *. tauto.
Qed.

Lemma formula_copy f d : isModelPriceFormulaConfig lower f = true → isRecord d = true →
  Forall (λ k, prop d k = prop f k) ["enabled"; "expression"; "variables"; "defaults"]%js → isModelPriceFormulaConfig lower d = true.
Proof.
  unfold isModelPriceFormulaConfig. rewrite !Forall_cons. intros H Hr (-> & -> & -> & -> & _). rewrite Hr. rewrite !andb_true_iff in *. tauto.
Qed.

Lemma formula_clone_stored f : jsonable f → isModelPriceFormulaConfig lower f = true →
  jsonable (defined (clone_formula f)) ∧ isModelPriceFormulaConfig lower (defined (clone_formula f)) = true.
Proof.
  intros Hj Hv. destruct (formula_clone lower f Hv) as [Ht _]. unfold clone_formula. rewrite Ht.
  assert (∀ k, k = "variables"%js ∨ k = "defaults"%js → copy_optional (prop f k) = prop f k) as Hc.
  { unfold isModelPriceFormulaConfig in Hv. rewrite !andb_true_iff in Hv. destruct Hv as [[[_ H1] H2] _].
    intros k [->| ->]; [destruct (prop f "variables")|destruct (prop f "defaults")]; done. }
  rewrite !Hc by auto.
  set (ms := [("enabled"%js, prop f "enabled"); ("expression"%js, prop f "expression"); ("variables"%js, prop f "variables"); ("defaults"%js, prop f "defaults")]).
  assert (NoDup ms.*1) as Hn by (apply (bool_decide_eq_true_1 (NoDup _)); by vm_compute). split.
  - apply defined_obj_jsonable; [done|]. apply Forall_forall. intros p Hp. unfold ms in Hp. rewrite !elem_of_cons, elem_of_nil in Hp.
    destruct Hp as [->|[->|[->|[->|[]]]]]; (split; [done|]); cbn [snd]; rewrite prop_same by done; by apply prop_plain.
  - apply (formula_copy f); [done|done|]. rewrite !Forall_cons. split_and!; try done; rewrite prop_defined by done; exact (prop_same f _ Hj).
Qed.

Lemma clone_stored c : jsonable c → config_valid c = true → config_ok (cloneModelPriceVariantConfig c VUndef) = true.
Proof.
  intros Hj Hv. pose proof (proj1 (config_spec lower c) Hv) as Hvc. destruct (clone_props lower c Hvc) as [Hp Hf].
  set (d := cloneModelPriceVariantConfig c VUndef) in *. assert (∃ fs, d = VObj fs) as [fs Hd] by by eexists.
  assert (NoDup fs.*1) as Hn by (pose proof (clone_keys c VUndef) as Hk; fold d in Hk; by rewrite Hd in Hk).
  assert (prop c "formula" = VUndef ∨ jsonable (prop c "formula") ∧ isModelPriceFormulaConfig lower (prop c "formula") = true) as Hform.
  { destruct (vc_formula lower c Hvc) as [|Hfv]; [by left|]. destruct (prop_plain c "formula" Hj); [by left|by right]. }
  assert (∀ k, k ∈ ["resolution_enabled"; "quality_enabled"; "rules"; "extra_params"; "inherited"]%js → prop d k = prop c k) as Hpk by by apply Forall_forall.
  unfold config_ok. replace (is_undefined d) with false by by rewrite Hd. cbn [orb]. apply andb_true_iff. split.
  - apply Is_true_true. rewrite Hd. apply defined_jsonable_get; [done|]. intros k v Hg.
    assert (k ∈ fs.*1) as Hk by (apply list_elem_of_fmap; exists (k, v); split; [done|by apply obj_get_elem]).
    assert (k = "formula"%js ∨ k ∈ ["resolution_enabled"; "quality_enabled"; "rules"; "extra_params"; "inherited"]%js) as Hkk.
    { unfold d, cloneModelPriceVariantConfig in Hd. injection Hd as Hfs. rewrite <- Hfs in Hk. cbn in Hk. rewrite !elem_of_cons in Hk |- *.
      rewrite elem_of_nil. destruct (prop c "inherited"); cbn in Hk; rewrite ?elem_of_cons, elem_of_nil in Hk; tauto. }
    assert (prop d k = v) as Hpv by (rewrite Hd; cbn; by rewrite Hg).
    assert (key_index k = None) as Hki by (rewrite !elem_of_cons, elem_of_nil in Hkk; by intuition subst).
    destruct Hkk as [->|Hkk].
    + rewrite Hf in Hpv. destruct Hform as [E|[H1 H2]]; [left; by rewrite E in Hpv|]. right. rewrite <- Hpv. by split; [|apply formula_clone_stored].
    + rewrite Hpk in Hpv by done. destruct (prop_plain c k Hj) as [E|E]; rewrite Hpv in E; [by left|]. right. by rewrite defined_id.
  - apply (config_copy c); [done|by rewrite Hd| |].
    + apply Forall_forall. intros k Hk. rewrite Hd, prop_defined by done. rewrite <- Hd, Hpk by done. by apply prop_same.
    + rewrite Hd, prop_defined by done. rewrite <- Hd, Hf. rewrite (optional_spec lower). destruct Hform as [->|[H1 H2]]; [by left|].
      right. by apply formula_clone_stored.
Qed.

(** ** Saving *)

Lemma save_rows s ms data explicit names :
  read_settings lower s = Ret ms → (∀ f, jsonable (VObj (ms f))) → NoDup names → forallb name_ok names = true →
  data_ok data explicit = true → regular data = true →
  ∃ s' ms', persistPricingData lower s data names explicit = Ret s' ∧ read_settings lower s' = Ret ms' ∧
    ∀ n, row_of lower ms' n =
      if decide (n ∈ names) then shown_row n data explicit (entry ms ModelRoutePriceVariants n) else row_of lower ms n.
Proof.
  intros Hr Hj Hn Hnames Hd Hreg. unfold persistPricingData. rewrite Hr. cbn [mbind exc_bind].
  destruct (stored_settings (fold_left (persist_one data explicit) names ms)) as (ms' & Hr' & He & _).
  { apply persist_good; [done|done|]. by eapply read_good. }
  assert (∀ f n, defined (entry ms f n) = entry ms f n) as Hdef by (intros f n; apply (prop_same (VObj (ms f)) n (Hj f))).
  assert (∀ f n, entry ms f n = VUndef ∨ jsonable (entry ms f n)) as Hpl by (intros f n; apply (prop_plain (VObj (ms f)) n (Hj f))).
  eexists _, ms'. split_and!; [done|done|]. intros n. unfold row_of. destruct (decide (n ∈ names)) as [Hin|Hin].
  - rewrite <- saved_row by done. apply row_from_ext. intros f. rewrite He, fold_entry by done. by destruct (decide _).
  - apply row_from_ext. intros f. rewrite He, fold_entry by done. by destruct (decide _).
Qed.

(** C35: what the table shows after saving a model's prices, or copying them to
    other models, once everything went through the text of the settings.
    Provided the settings can be read and hold values of JSON, the names are
    neither blank nor array indices, the numbers entered read back, the
    variants are valid configurations, a price per request is a number and a
    combined expression is not empty ([name_ok], [data_ok], [regular]), saving
    does not throw, every target has the row [shown_row], and every other row is
    as before.  That row has the numbers of its billing mode, each as its parsed
    number prints, and none of another mode, no conflict, the unit and, for a
    price per request, the variants as entered.  For an expression it has the
    parts the combined text splits into.  The price for image edits is the one
    entered for a price per request, or none if it was removed, and the old one
    otherwise; but if the old settings name that route by another spelling, such
    as [images/edits], that old price is still shown after the save. *)
Theorem save_exact s ms data explicit names :
  read_settings lower s = Ret ms → (∀ f, jsonable (VObj (ms f))) → NoDup names → forallb name_ok names = true →
  data_ok data explicit = true → regular data = true →
  ∃ s' ms', persistPricingData lower s data names explicit = Ret s' ∧ read_settings lower s' = Ret ms' ∧
    ∀ n, row_of lower ms' n =
      if decide (n ∈ names) then shown_row n data explicit (entry ms ModelRoutePriceVariants n) else row_of lower ms n.
Proof. apply save_rows. Qed.

(** ** Deleting *)

Definition remaining_routes (old : value) : value :=
  match old with
  | VObj routes => match obj_delete routes "image.edit" with [] => VUndef | rest => VObj rest end
  | _ => old
  end.

Lemma delete_entry name ms f n : entry (delete_maps name ms) f n =
  if decide (n = name) then if decide (f = ModelRoutePriceVariants) then remaining_routes (entry ms f n) else VUndef else entry ms f n.
Proof.
  unfold entry. destruct f; cbn [delete_maps]; try (rewrite get_delete_default; by repeat destruct (decide _)).
  destruct (decide (_ = ModelRoutePriceVariants)); [|done]. destruct (decide (n = name)) as [->|Hn].
  - destruct (obj_get (ms ModelRoutePriceVariants) name) as [v|] eqn:E; [|by rewrite E].
    destruct v as [| | | | | |rs]; try by rewrite E. cbn [remaining_routes from_option id].
    destruct (obj_delete rs "image.edit"); [rewrite get_delete_default|rewrite get_set_default]; by destruct (decide _).
  - destruct (obj_get (ms ModelRoutePriceVariants) name) as [v|]; [|done]. destruct v as [| | | | | |rs]; try done.
    destruct (obj_delete rs "image.edit"); [rewrite get_delete_default|rewrite get_set_default]; by destruct (decide _).
Qed.

Lemma delete_good name ms : (∀ f, good f (ms f)) → ∀ f, good f (delete_maps name ms f).
Proof.
  intros Hg f. destruct f; cbn [delete_maps]; try by apply good_delete.
  destruct (obj_get (ms ModelRoutePriceVariants) name) as [v|] eqn:E; [|done]. destruct v as [| | | | | |rs]; try done.
  pose proof (good_routes_of _ _ _ (Hg _) E) as Hrs. cbn [map_of] in Hrs. apply (good_routes_delete _ "image.edit") in Hrs.
  destruct (Hg ModelRoutePriceVariants) as [_ H]. destruct (H _ _ E) as (Hk & _ & _ & _ & Hv). cbn [entry_valid] in Hv. apply andb_true_iff in Hv as [Hb _].
  destruct (obj_delete rs "image.edit") as [|q rest] eqn:Ed; [by apply good_delete|]. by apply good_routes_set.
Qed.

Lemma elem_of_names ms n : n ∈ model_names ms ↔ ∃ f, is_Some (obj_get (ms f) n).
Proof.
  unfold model_names. rewrite elem_of_set_of. rewrite list_elem_of_In, in_concat. split.
  - intros (l & Hl%list_elem_of_In & Hn%list_elem_of_In). apply list_elem_of_fmap in Hl as (f & -> & _). exists f.
    destruct (obj_get (ms f) n) eqn:E; [by eexists|]. by apply obj_get_absent in E.
  - intros (f & Hs). exists (ms f).*1. split; apply list_elem_of_In.
    + apply list_elem_of_fmap. exists f. split; [done|]. destruct f; apply (bool_decide_eq_true_1 (_ ∈ _)); by vm_compute.
    + destruct (decide (n ∈ (ms f).*1)) as [|Hn]; [done|]. apply obj_get_absent in Hn. rewrite Hn in Hs. by destruct Hs.
Qed.

(** Deleting a model leaves every other row as it was and removes every
    price of the model; the model stays in the table exactly when it has prices
    of its own for a route that is not spelled image.edit, even if the table
    shows it as the image edit price. *)
Theorem delete_exact s ms name :
  read_settings lower s = Ret ms → (∀ f, jsonable (VObj (ms f))) →
  ∃ s' ms', handleDelete lower s name = Ret s' ∧ read_settings lower s' = Ret ms' ∧
    (∀ n, n ≠ name → row_of lower ms' n = row_of lower ms n) ∧
    (∀ f, f ≠ ModelRoutePriceVariants → entry ms' f name = VUndef) ∧
    (name ∈ model_names ms' ↔ remaining_routes (entry ms ModelRoutePriceVariants name) ≠ VUndef).
Proof.
  intros Hr Hj. unfold handleDelete. rewrite Hr. cbn [mbind exc_bind].
  destruct (stored_settings (delete_maps name ms)) as (ms' & Hr' & He & Hu).
  { apply delete_good. by eapply read_good. }
  eexists _, ms'. split_and!; [done|done| | |].
  - intros n Hn. apply row_from_ext. intros f. rewrite He, delete_entry. destruct (decide _); [done|]. apply (prop_same (VObj (ms f)) n (Hj f)).
  - intros f Hf. rewrite He, delete_entry. by repeat destruct (decide _).
  - rewrite elem_of_names. specialize (λ f, He f name).
    assert (∀ f, is_Some (obj_get (ms' f) name) ↔ entry ms' f name ≠ VUndef) as Hs.
    { intros f. unfold entry. specialize (Hu f name). destruct (obj_get (ms' f) name) as [v|]; cbn; [|split; [by intros []|done]].
      split; [congruence|by eexists]. }
    split.
    + intros [f Hf]. apply Hs in Hf. rewrite He, delete_entry in Hf. repeat destruct (decide _); subst; try done.
      intros E. by rewrite E in Hf.
    + intros Hne. exists ModelRoutePriceVariants. apply Hs. rewrite He, delete_entry. repeat destruct (decide _); try done. by rewrite defined_undef.
Qed.

(** ** Opening a model and saving it as it is *)

Definition by_price (t : Texts) : PricingMode := if nonempty (price t) then per_request else per_token.

Lemma row_inv e n r : row_from lower e n = Ret r →
  row_name r = n ∧ row_texts r = texts_of (λ f, cell (e f)) ∧ row_priceUnit r = normalizeModelPriceUnit (e ModelPriceUnits) ∧
  row_priceVariant r = e ModelPriceVariants ∧ row_imageEditPriceVariant r = getImageEditRoutePriceVariant lower (e ModelRoutePriceVariants) ∧
  (row_billingMode r = tiered_expr ∧ row_hasConflict r = false ∨
   row_billingMode r = by_price (row_texts r) ∧ row_billingExpr r = [] ∧ row_requestRuleExpr r = [] ∧
   row_hasConflict r = nonempty (price (row_texts r)) && existsb (λ f, nonempty (text_at (row_texts r) f)) RATIO_FIELDS).
Proof.
  unfold row_from. destruct (e BillingMode); try (intros [= <-]; cbn; by eauto 10).
  destruct (str_eqb s "tiered_expr"); [|intros [= <-]; cbn; by eauto 10].
  destruct (if truthy _ then _ else _); try done. destruct (splitBillingExprAndRequestRules s0); [done|]. cbn [mbind exc_bind].
  intros [= <-]; cbn; by eauto 10.
Qed.

Lemma kept_cell v : v = VUndef ∨ (∃ x, v = VNum x ∧ readable x) → kept_text (cell v) = cell v ∧ number_ok (cell v) = true.
Proof.
  intros [->|(x & -> & Hx)]; [done|]. unfold kept_text, number_of, number_ok. change (cell (VNum x)) with (num_to_string x).
  rewrite parseFloat_text by done. destruct (readable_spec x Hx) as [-> _]. destruct (readable_head x Hx) as (c & t & Ht & _).
  assert (nonempty (num_to_string x) = true) as -> by by rewrite Ht. split; [done|]. by apply Is_true_true in Hx.
Qed.

Lemma kept_number v : v = VUndef ∨ (∃ x, v = VNum x ∧ readable x) → nonempty (cell v) = true → number_of (cell v) ≠ VUndef.
Proof.
  intros [->|(x & -> & Hx)]; [done|]. intros Hn. unfold number_of. rewrite Hn. change (cell (VNum x)) with (num_to_string x).
  rewrite parseFloat_text by done. by destruct (readable_spec x Hx) as [-> _].
Qed.

(** What the settings keep of a configuration that is opened and saved. *)
Definition stored_config (c : value) : value := if truthy c then defined (cloneModelPriceVariantConfig c VUndef) else VUndef.

Definition resaved (c : value) : value := if truthy c then cloneModelPriceVariantConfig c VUndef else VUndef.

Lemma resave c : truthy (resaved c) = truthy c ∧
  (truthy c = true → cloneModelPriceVariantConfig (resaved c) (inherited_of false (resaved c)) = cloneModelPriceVariantConfig c VUndef).
Proof. unfold resaved, inherited_of. destruct (truthy c); [|done]. split; [done|]. intros _. by rewrite clone_inherited, clone_idemp. Qed.

Lemma normalize_image_edit : normalizeModelPriceRoute lower "image.edit" = "image.edit"%js.
Proof.
  unfold normalizeModelPriceRoute. change (trim "image.edit") with ("image.edit"%js). rewrite (lower_ascii (lower := lower) "image.edit") by done.
  by vm_compute.
Qed.

(** The image edit route of a model has no other spelling. *)
Definition spelled (rs : obj) : Prop := Forall (λ p, normalizeModelPriceRoute lower p.1 = "image.edit"%js → p.1 = "image.edit"%js) rs.

Lemma image_spelled rs : NoDup rs.*1 → spelled rs → getImageEditRoutePriceVariant lower (VObj rs) = default VUndef (obj_get rs "image.edit").
Proof.
  intros Hn Hs. cbn [getImageEditRoutePriceVariant]. induction Hs as [|[k v] rs Hk Hs IH]; [done|]. cbn in Hn. apply NoDup_cons in Hn as [_ Hn].
  cbn [List.filter fst obj_get]. unfold str_eqb at 1. case_bool_decide as E.
  - apply Hk in E. cbn in E. subst k. by rewrite (proj2 (str_eqb_spec _ _)).
  - rewrite (proj2 (str_eqb_neq _ _)); [by apply IH|]. intros <-. by rewrite normalize_image_edit in E.
Qed.

Lemma image_cases fs k v : good ModelRoutePriceVariants fs → obj_get fs k = Some v → jsonable v →
  getImageEditRoutePriceVariant lower v = VUndef ∨
  jsonable (getImageEditRoutePriceVariant lower v) ∧ config_valid (getImageEditRoutePriceVariant lower v) = true.
Proof.
  intros Hg Hk Hj. pose proof (good_routes_of _ _ _ Hg Hk) as [Hn H]. destruct v as [| | | | | |rs]; try by left. cbn [map_of] in *.
  unfold getImageEditRoutePriceVariant. destruct (List.filter _ rs) as [|[r c] l] eqn:E; [by left|].
  assert ((r, c) ∈ rs) as Hin.
  { eapply (elem_of_lfilter _ rs). rewrite E. by left. }
  apply jsonable_obj in Hj as [_ Hj]. destruct (Hj _ Hin) as [_ Hc]. cbn in Hc. apply elem_of_obj_get in Hin; [|done].
  destruct (H _ _ Hin) as [->|(_ & _ & Hv)]; [by left|right]. split; [done|]. rewrite defined_id in Hv by done.
  unfold route_valid in Hv. cbn [fst snd] in Hv. apply andb_true_iff in Hv as [_ Hv]. done.
Qed.

(** A row that saving can keep: no conflict, numbers as numbers, variants and a
    unit only where they are saved, an expression that splits as it is shown. *)
Definition settled (ms : Maps) (n : jsstr) (r : ModelRow) : Prop :=
  row_hasConflict r = false ∧
  Forall (λ f, is_undefined (entry ms f n) || is_number (entry ms f n) = true) (ModelPrice :: RATIO_FIELDS) ∧
  match row_billingMode r with
  | per_request => spelled (map_of (entry ms ModelRoutePriceVariants n))
  | per_token => row_priceVariant r = VUndef ∧ row_priceUnit r = REQUEST
  | tiered_expr =>
    row_priceVariant r = VUndef ∧ (row_priceUnit r = REQUEST ∨ nonempty (price (row_texts r)) = true) ∧
    nonempty (combineBillingExpr (row_billingExpr r) (row_requestRuleExpr r)) = true ∧
    splitBillingExprAndRequestRules (combineBillingExpr (row_billingExpr r) (row_requestRuleExpr r)) =
      Ret (Split (row_billingExpr r) (row_requestRuleExpr r))
  end.

Section Editing.
Context (ms : Maps) (n : jsstr) (r : ModelRow).
Context (Hgood : ∀ f, good f (ms f)) (Hj : ∀ f, jsonable (VObj (ms f))) (Hrow : row_of lower ms n = Ret r) (Hset : settled ms n r).

Lemma edit_mode : d_billingMode (handleEdit r) = row_billingMode r.
Proof.
  cbn. destruct (row_inv _ _ _ Hrow) as (_ & _ & _ & _ & _ & [[-> _]|[-> _]]); [by destruct (decide _)|].
  unfold by_price. by destruct (nonempty _).
Qed.

Lemma numeric_cells f : f ∈ ModelPrice :: RATIO_FIELDS → entry ms f n = VUndef ∨ ∃ x, entry ms f n = VNum x ∧ readable x.
Proof.
  intros Hf. destruct Hset as (_ & H & _). rewrite Forall_forall in H. apply H in Hf.
  destruct (prop_plain (VObj (ms f)) n (Hj f)) as [E|E]; [by left|]. unfold entry in *. cbn in E.
  destruct (default VUndef (obj_get (ms f) n)) eqn:Ev; try done. right. cbn in E. eauto.
Qed.

Lemma edit_text f : f ∈ ModelPrice :: RATIO_FIELDS → text_at (d_texts (handleEdit r)) f = cell (entry ms f n).
Proof.
  destruct (row_inv _ _ _ Hrow) as (_ & Ht & _). intros Hf. cbn [handleEdit d_texts]. rewrite Ht.
  unfold RATIO_FIELDS in Hf. rewrite !elem_of_cons, elem_of_nil in Hf. by intuition subst.
Qed.

Lemma variant_facts : row_priceVariant r = VUndef ∨ jsonable (row_priceVariant r) ∧ config_valid (row_priceVariant r) = true.
Proof.
  destruct (row_inv _ _ _ Hrow) as (_ & _ & _ & -> & _). unfold entry. destruct (obj_get (ms ModelPriceVariants) n) as [v|] eqn:E; [|by left].
  right. assert (jsonable v) as Hv.
  { destruct (jsonable_obj _ (Hj ModelPriceVariants)) as [_ H]. apply (H (n, v)). by apply obj_get_elem. }
  split; [done|]. destruct (Hgood ModelPriceVariants) as [_ H]. destruct (H _ _ E) as (_ & _ & _ & _ & Ho). cbn in Ho.
  apply andb_true_iff in Ho as [_ Ho]. by rewrite defined_id in Ho.
Qed.

Lemma image_facts : row_imageEditPriceVariant r = VUndef ∨ jsonable (row_imageEditPriceVariant r) ∧ config_valid (row_imageEditPriceVariant r) = true.
Proof.
  destruct (row_inv _ _ _ Hrow) as (_ & _ & _ & _ & -> & _). unfold entry.
  destruct (obj_get (ms ModelRoutePriceVariants) n) as [v|] eqn:E; [|by left]. eapply image_cases; [done|done|].
  destruct (jsonable_obj _ (Hj ModelRoutePriceVariants)) as [_ H]. apply (H (n, v)). by apply obj_get_elem.
Qed.

Lemma valid_truthy c : config_valid c = true → truthy c = true.
Proof. unfold config_valid. rewrite config_unfold. by destruct c. Qed.

Lemma resaved_ok c : c = VUndef ∨ jsonable c ∧ config_valid c = true →
  config_ok (if truthy (resaved c) then cloneModelPriceVariantConfig (resaved c) (inherited_of false (resaved c)) else VUndef) = true.
Proof.
  intros [->|[H1 H2]]; [done|]. destruct (resave c) as [-> Hr]. pose proof (valid_truthy c H2) as Ht. rewrite Ht, Hr by done. by apply clone_stored.
Qed.

Lemma edit_data_ok : data_ok (handleEdit r) false = true.
Proof.
  unfold data_ok. rewrite !andb_true_iff. split_and!.
  - apply forallb_forall. intros f Hf%list_elem_of_In. rewrite edit_text by done. by apply kept_cell, numeric_cells.
  - exact (resaved_ok _ variant_facts).
  - exact (resaved_ok _ image_facts).
Qed.

Lemma price_cell : price (row_texts r) = cell (entry ms ModelPrice n).
Proof. by destruct (row_inv _ _ _ Hrow) as (_ & -> & _). Qed.

Lemma edit_regular : regular (handleEdit r) = true.
Proof.
  unfold regular. rewrite edit_mode. destruct Hset as (_ & _ & Hm). destruct (row_billingMode r) eqn:Em; [done| |by destruct Hm as (_ & _ & ? & _)].
  apply negb_true_iff. change (price (d_texts (handleEdit r))) with (price (row_texts r)). rewrite price_cell.
  destruct (number_of (cell (entry ms ModelPrice n))) eqn:E; try done.
  destruct (kept_number (entry ms ModelPrice n)); [by apply numeric_cells; left| |done].
  destruct (row_inv _ _ _ Hrow) as (_ & _ & _ & _ & _ & [[E' _]|[E' _]]); [congruence|]. rewrite E' in Em. unfold by_price in Em.
  rewrite price_cell in Em. by destruct (nonempty _).
Qed.

(** The numbers of the other modes are empty already. *)
Lemma unwritten_empty f : f ∈ ModelPrice :: RATIO_FIELDS → f ∉ written (handleEdit r) → cell (entry ms f n) = [].
Proof.
  intros Hf Hw. destruct (row_inv _ _ _ Hrow) as (_ & Ht & _ & _ & _ & Hm). destruct Hset as (Hc & _ & _).
  unfold written in Hw. rewrite edit_mode in Hw. destruct Hm as [[Em _]|(Em & _ & _ & Econf)].
  { by rewrite Em in Hw. }
  unfold by_price in Em. destruct (nonempty (price (row_texts r))) eqn:Ep; rewrite Em in Hw.
  - rewrite Econf, ?Ep in Hc. cbn [andb] in Hc. rewrite elem_of_cons in Hf. destruct Hf as [->|Hf]; [by destruct Hw; left|].
    destruct (cell (entry ms f n)) as [|ch t] eqn:E; [done|]. exfalso. apply not_true_iff_false in Hc. apply Hc, existsb_exists.
    exists f. split; [by apply list_elem_of_In|]. change (row_texts r) with (d_texts (handleEdit r)). rewrite edit_text by by right. by rewrite E.
  - rewrite elem_of_cons in Hf. destruct Hf as [->|Hf]; [|done]. rewrite <- price_cell. by destruct (price (row_texts r)).
Qed.

Lemma shown_texts : texts_of (λ f, if bool_decide (f ∈ written (handleEdit r)) then kept_text (text_at (d_texts (handleEdit r)) f) else []) = row_texts r.
Proof.
  destruct (row_inv _ _ _ Hrow) as (_ & -> & _).
  assert (∀ f, f ∈ ModelPrice :: RATIO_FIELDS →
    (if bool_decide (f ∈ written (handleEdit r)) then kept_text (text_at (d_texts (handleEdit r)) f) else []) = cell (entry ms f n)) as H.
  { intros f Hf. case_bool_decide as Hw; [|by rewrite unwritten_empty]. rewrite edit_text by done. by apply kept_cell, numeric_cells. }
  unfold texts_of. rewrite !H; [done|..]; unfold RATIO_FIELDS; rewrite !elem_of_cons; tauto.
Qed.

(** The image edit price after saving it again. *)
Lemma shown_image : row_billingMode r = per_request →
  getImageEditRoutePriceVariant lower (defined (saved_routes (handleEdit r) false (entry ms ModelRoutePriceVariants n))) =
  stored_config (row_imageEditPriceVariant r).
Proof.
  intros Em. destruct Hset as (_ & _ & Hs). rewrite Em in Hs. destruct image_facts as [Hu|[_ Hv]].
  - destruct (row_inv _ _ _ Hrow) as (_ & _ & _ & _ & Hi & _). unfold saved_routes.
    change (d_imageEditPriceVariant (handleEdit r)) with (resaved (row_imageEditPriceVariant r)). unfold resaved, stored_config. rewrite Hu. cbn [truthy is_undefined].
    rewrite (prop_same (VObj (ms ModelRoutePriceVariants)) n (Hj _) : defined (entry _ _ _) = _). rewrite <- Hu. by symmetry.
  - apply valid_truthy in Hv. destruct (resave (row_imageEditPriceVariant r)) as [Ht Hc]. specialize (Hc Hv). rewrite Hv in Ht.
    set (rs := obj_delete (map_of (entry ms ModelRoutePriceVariants n)) "image.edit").
    set (c := cloneModelPriceVariantConfig (row_imageEditPriceVariant r) VUndef) in *.
    assert (new_routes (handleEdit r) false (entry ms ModelRoutePriceVariants n) = obj_set rs "image.edit" c) as Hnew.
    { unfold new_routes. change (d_imageEditPriceVariant (handleEdit r)) with (resaved (row_imageEditPriceVariant r)). by rewrite Ht, Hc. }
    assert (saved_routes (handleEdit r) false (entry ms ModelRoutePriceVariants n) = VObj (obj_set rs "image.edit" c)) as ->.
    { unfold saved_routes. rewrite Hnew. change (d_imageEditPriceVariant (handleEdit r)) with (resaved (row_imageEditPriceVariant r)).
      replace (is_undefined (resaved (row_imageEditPriceVariant r))) with false by (unfold resaved; by rewrite Hv).
      destruct (obj_set rs "image.edit" c) eqn:E; [|done]. pose proof (obj_get_set_eq rs "image.edit" c) as Hg. by rewrite E in Hg. }
    assert (NoDup rs.*1) as Hrs.
    { apply obj_delete_NoDup. destruct (prop_plain (VObj (ms ModelRoutePriceVariants)) n (Hj _)) as [E|E]; unfold entry; cbn [prop] in E.
      - rewrite E. constructor.
      - destruct (default VUndef _); try constructor. by apply jsonable_obj in E as [? _]. }
    pose proof (obj_set_NoDup rs "image.edit" c Hrs) as Hnd. unfold stored_config. rewrite Hv. fold c.
    change (defined (VObj (obj_set rs "image.edit" c))) with (VObj (map_of (defined (VObj (obj_set rs "image.edit" c))))).
    rewrite image_spelled; [|by apply defined_keys|].
    + rewrite entry_defined by done. by rewrite obj_get_set_eq.
    + apply defined_forall; [done|]. intros k v. cbn. rewrite obj_get_set. destruct (decide (k = _)) as [->|Hk]; [by right|].
      unfold rs. rewrite obj_get_delete. destruct (decide _); [done|]. intros Hg%obj_get_elem. right.
      unfold spelled in Hs. rewrite Forall_forall in Hs. by apply (Hs (k, v)).
Qed.

(** The variants after saving them again. *)
Lemma shown_variant : defined (saved_variant (handleEdit r) false) = stored_config (row_priceVariant r).
Proof.
  unfold saved_variant, stored_config. change (d_priceVariant (handleEdit r)) with (resaved (row_priceVariant r)).
  destruct (resave (row_priceVariant r)) as [-> Hc]. destruct (truthy _); [by rewrite Hc|done].
Qed.

Lemma shown_again : ∃ r', shown_row n (handleEdit r) false (entry ms ModelRoutePriceVariants n) = Ret r' ∧
  row_name r' = n ∧ row_texts r' = row_texts r ∧ row_priceUnit r' = row_priceUnit r ∧ row_billingMode r' = row_billingMode r ∧
  row_billingExpr r' = row_billingExpr r ∧ row_requestRuleExpr r' = row_requestRuleExpr r ∧ row_hasConflict r' = false ∧
  row_priceVariant r' = stored_config (row_priceVariant r) ∧
  row_imageEditPriceVariant r' =
    if decide (row_billingMode r = per_request) then stored_config (row_imageEditPriceVariant r) else row_imageEditPriceVariant r.
Proof.
  unfold shown_row. rewrite edit_mode, shown_texts. destruct (row_inv _ _ _ Hrow) as (Hn & _ & _ & _ & Hi & Hm).
  destruct Hset as (_ & _ & Hs). destruct (row_billingMode r) eqn:Em.
  - destruct Hs as [Hv Hu]. eexists. split; [done|]. cbn. destruct Hm as [[? _]|(_ & -> & -> & _)]; [done|].
    rewrite Hv, Hu. by split_and!.
  - eexists. split; [done|]. cbn. destruct Hm as [[? _]|(_ & -> & -> & _)]; [done|].
    rewrite shown_variant, <- image_after, shown_image, normalize_unit_text by (done || apply (prop_plain (VObj (ms _)) n (Hj _))).
    by split_and!.
  - destruct Hs as (Hv & Hu & _ & Hsp). unfold combined. cbn [d_billingExpr d_requestRuleExpr handleEdit]. rewrite Hsp. cbn [mbind exc_bind].
    eexists. split; [done|]. cbn. rewrite Hv, normalize_unit_text. split_and!; try done. destruct Hu as [->| ->]; by repeat case_match.
Qed.
End Editing.

(** Opening a model and saving it without a change shows the same row again:
    the same numbers, unit, mode and expressions, and its variants in the form
    the settings keep; no other row changes. *)
Theorem edit_save_stable s ms n r :
  read_settings lower s = Ret ms → (∀ f, jsonable (VObj (ms f))) → name_ok n = true → row_of lower ms n = Ret r → settled ms n r →
  ∃ s' ms' r', persistPricingData lower s (handleEdit r) [n] false = Ret s' ∧ read_settings lower s' = Ret ms' ∧
    (∀ m, m ≠ n → row_of lower ms' m = row_of lower ms m) ∧ row_of lower ms' n = Ret r' ∧
    row_name r' = n ∧ row_texts r' = row_texts r ∧ row_priceUnit r' = row_priceUnit r ∧ row_billingMode r' = row_billingMode r ∧
    row_billingExpr r' = row_billingExpr r ∧ row_requestRuleExpr r' = row_requestRuleExpr r ∧ row_hasConflict r' = false ∧
    row_priceVariant r' = stored_config (row_priceVariant r) ∧
    row_imageEditPriceVariant r' =
      if decide (row_billingMode r = per_request) then stored_config (row_imageEditPriceVariant r) else row_imageEditPriceVariant r.
Proof.
  intros Hr Hj Hn Hrow Hs. pose proof (read_good _ _ Hr Hj) as Hg.
  destruct (save_rows s ms (handleEdit r) false [n]) as (s' & ms' & H1 & H2 & H3); [done|done|apply NoDup_singleton|cbn; by rewrite Hn| | |].
  - by apply (edit_data_ok ms n).
  - by apply (edit_regular ms n).
  - destruct (shown_again ms n r Hg Hj Hrow Hs) as (r' & Hr' & H). exists s', ms', r'. split_and!; try apply H; try done.
    + intros m Hm. rewrite H3. destruct (decide (m ∈ [n])) as [?%list_elem_of_singleton|]; done.
    + rewrite H3. destruct (decide (n ∈ [n])) as [|[]]; [done|by left].
Qed.
End Storage.

(** ** Witnesses *)

Definition sample_image : value :=
  VObj [("resolution_enabled"%js, VBool false); ("quality_enabled"%js, VBool true);
        ("rules"%js, VArr [VObj [("quality"%js, VStr "high"); ("price"%js, VNum (of_Z 4))]])].

(** Two models by the request, one by tokens, one by an expression. *)
Definition sample_maps : Maps := λ f,
  match f with
  | ModelPrice => [("painter"%js, VNum (dec_to_num false 25 (-2))); ("film"%js, VNum (of_Z 2))]
  | ModelPriceUnits => [("film"%js, VStr "second")]
  | ModelPriceVariants => [("painter"%js, sample_config)]
  | ModelRoutePriceVariants => [("painter"%js, VObj [("image.edit"%js, sample_image)]); ("film"%js, VObj [("images/edits"%js, sample_image)])]
  | ModelRatio => [("writer"%js, VNum (dec_to_num false 15 (-1)))]
  | CompletionRatio => [("writer"%js, VNum (of_Z 4))]
  | BillingMode => [("tiers"%js, VStr "tiered_expr")]
  | BillingExpression => [("tiers"%js, VStr "p * 3")]
  | _ => []
  end.

Definition sample_settings : Settings := write_settings sample_maps.
Definition sample_read : Maps := λ f, map_of (read_field toLowerCase f (sample_settings f)).

Definition sample_data : ModelRatioData :=
  MkData "writer" (MkTexts "0.08" "" "" "" "" "" "" "") (VStr "second") sample_config VNull per_request [] [].

Lemma sample_reads : read_settings toLowerCase sample_settings = Ret sample_read.
Proof.
  unfold read_settings. assert (forallb (λ f, is_map (read_field toLowerCase f (sample_settings f))) ALL_FIELDS = true) as -> by (vm_compute; reflexivity).
  reflexivity.
Qed.

Lemma sample_jsonable f : jsonable (VObj (sample_read f)).
Proof. destruct f; vm_compute; exact I. Qed.

Lemma save_exact_witness : ∃ s' ms', persistPricingData toLowerCase sample_settings sample_data ["writer"; "film"]%js true = Ret s' ∧
  read_settings toLowerCase s' = Ret ms' ∧
  ∀ n, row_of toLowerCase ms' n =
    if decide (n ∈ ["writer"; "film"]%js) then shown_row toLowerCase n sample_data true (entry sample_read ModelRoutePriceVariants n)
    else row_of toLowerCase sample_read n.
Proof.
  apply (save_exact toLowerCase sample_settings sample_read sample_data true); [exact sample_reads|exact sample_jsonable| | | |].
  - apply (bool_decide_eq_true_1 (NoDup _)). vm_compute. reflexivity.
  - vm_compute. reflexivity.
  - vm_compute. reflexivity.
  - vm_compute. reflexivity.
Defined.

(** The model that has an image edit price under another spelling is not gone. *)
Lemma delete_exact_witness : ∃ s' ms', handleDelete toLowerCase sample_settings "film" = Ret s' ∧ read_settings toLowerCase s' = Ret ms' ∧
  "film"%js ∈ model_names ms'.
Proof.
  destruct (delete_exact toLowerCase sample_settings sample_read "film" sample_reads sample_jsonable) as (s' & ms' & H1 & H2 & _ & _ & H3).
  exists s', ms'. split; [exact H1|]. split; [exact H2|]. apply H3. vm_compute. discriminate.
Defined.

Definition sample_row : ModelRow :=
  match row_of toLowerCase sample_read "painter" with Ret r => r | Throw => MkRow [] (texts_of (λ _, [])) REQUEST VUndef VUndef per_token [] [] true end.

Lemma edit_save_stable_witness : ∃ s' ms' r', persistPricingData toLowerCase sample_settings (handleEdit sample_row) ["painter"%js] false = Ret s' ∧
  read_settings toLowerCase s' = Ret ms' ∧ row_of toLowerCase ms' "painter" = Ret r' ∧ price (row_texts r') = "0.25"%js.
Proof.
  destruct (edit_save_stable toLowerCase sample_settings sample_read "painter" sample_row sample_reads sample_jsonable)
    as (s' & ms' & r' & H1 & H2 & _ & H3 & _ & H4 & _).
  - vm_compute. reflexivity.
  - vm_compute. reflexivity.
  - split; [vm_compute; reflexivity|]. split.
    + apply Forall_forall. intros f Hf. unfold RATIO_FIELDS in Hf. rewrite !elem_of_cons, elem_of_nil in Hf.
      repeat (destruct Hf as [->|Hf]; [vm_compute; reflexivity|]). destruct Hf.
    + assert (row_billingMode sample_row = per_request) as -> by (vm_compute; reflexivity).
      constructor; [reflexivity|]. constructor.
  - exists s', ms', r'. rewrite H4. split; [exact H1|]. split; [exact H2|]. split; [exact H3|]. vm_compute. reflexivity.
Defined.

End PriceTableFacts.
