(* ===== verification/PriceFormat.v ===== *)
(** * Prices as texts
    ([web/src/features/system-settings/models/pricing-format.ts])

    A computed price is snapped to a short decimal when it is only a rounding
    error away from it, and shown with at most twelve decimals. *)

From Stdlib Require Import SpecFloat.
From S2P Require Import Prelude JsString JsRegExp JsNumber JsInteger JsValue PriceTable.
Local Open Scope Z_scope.

Module PriceFormat.
Import PriceTable.

Definition DISPLAY_DECIMALS : Z := 12.
Definition SNAP_DECIMALS : nat := 8.
Definition SNAP_EPSILON : number := dec_to_num false 1 (-12).

(** [Number.EPSILON] *)
Definition EPSILON : number := binary_normalize 53 1024 1 (-52) false.

(** [Math.round(x)]: the nearest integer, the larger one of two. *)
Definition num_round (x : number) : number :=
  match x with
  | S754_finite s m e =>
    let '(p, q) := num_ratio m e in
    let z := (2 * (if s then - p else p) + q) / (2 * q) in
    if z =? 0 then S754_zero s else of_Z z
  | _ => x
  end.

(** [x.toFixed(f)], [f > 0] *)
Definition num_to_fixed (f : Z) (x : number) : jsstr :=
  match x with
  | S754_zero _ => "0." ++ zeros f
  | S754_finite s m e =>
    let '(p, q) := num_ratio m e in
    if 10 ^ 21 * q <=? p then num_to_string x
    else
      let n := (2 * 10 ^ f * p + q) / (2 * q) in
      let ds := Z_digits (n mod 10 ^ f) in
      (if s then [45%N] else []) ++ Z_digits (n / 10 ^ f) ++ "." ++ zeros (f - Z.of_nat (length ds)) ++ ds
  | _ => num_to_string x
  end.

Definition roundToDecimals (v : number) (decimals : nat) : number :=
  let factor := of_Z (10 ^ Z.of_nat decimals) in num_div (num_round (num_mul v factor)) factor.

Fixpoint snap_from (v tolerance : number) (decimals : list nat) : number :=
  match decimals with
  | [] => v
  | d :: ds =>
    let rounded := roundToDecimals v d in
    if num_leb (num_abs (num_sub v rounded)) tolerance then rounded else snap_from v tolerance ds
  end.

Definition snapFloatDrift (v : number) : number :=
  let tolerance := num_max SNAP_EPSILON (num_mul (num_mul (num_abs v) EPSILON) (of_Z 8)) in
  snap_from v tolerance (seq 0 (S SNAP_DECIMALS)).

(** Of a number; anything that is not finite is shown as nothing. *)
Definition formatPricingNumber (x : number) : jsstr :=
  if is_finite x then num_to_string (parseFloat (num_to_fixed DISPLAY_DECIMALS (snapFloatDrift x))) else [].

Example format_1 : (λ s, formatPricingNumber (Number_of_string s)) <$>
  ["0.30000000000000004"; "2.9999999999999996"; "15"; "0.000001234567891"; "-1.005"; "1e21"; "0.1234567890126"; "x"; "-0"; "0.0000000000004"]%js
  = ["0.3"; "3"; "15"; "0.000001234568"; "-1.005"; "1e+21"; "0.123456789013"; ""; "0"; "0"]%js.
Proof. vm_compute. reflexivity. Qed.
End PriceFormat.
