(* ===== verification/PriceSheet.v ===== *)
(** * The price sheet of a model
    ([web/src/features/system-settings/models/model-pricing-sheet.tsx])

    The form that edits the prices of one model: token prices in lanes that are
    stored as ratios of each other, a price per request with drafts of the
    specification prices, or a billing expression.  Submitting checks the form
    and hands a [ModelRatioData] to the table.

    Numbers are edited as texts.  Every draft row has an identifier from one of
    four counters of the module ([Sequences]).  Configurations that are opened
    have passed [isModelPriceVariantConfig].  Case folding ([lower]) is a
    parameter; [t] is the translation, and [hasValue], which the code applies
    to texts only here, is [nonempty]. *)

From Stdlib Require Import SpecFloat.
From S2P Require Import Prelude JsString JsRegExp JsNumber JsInteger JsValue JsMap BillingExpr PriceVariants PriceTable PriceFormat.

Module PriceSheet.
Import BillingExpr PriceVariants PriceTable PriceFormat.

(** ** Drafts *)

Inductive LaneKey := completion | cache | createCache | image | audioInput | audioOutput.

#[global] Instance LaneKey_eq_dec : EqDecision LaneKey.
Proof. solve_decision. Defined.

(** The order of [laneConfigs]. *)
Definition LANES : list LaneKey := [completion; cache; createCache; image; audioInput; audioOutput].

Record PriceVariantRuleDraft := RuleDraft {
  rule_id : jsstr;
  rule_resolution_text : jsstr;
  rule_quality_text : jsstr;
  rule_price_text : jsstr;
}.

Record ExtraParamRuleDraft := ExtraDraft {
  extra_id : jsstr;
  extra_key : jsstr;
  extra_base : jsstr;
  extra_unitPrice : jsstr;
}.

(** [FormulaVariableDraft] and [FormulaDefaultDraft] *)
Record FormulaItemDraft := ItemDraft {
  item_id : jsstr;
  item_key : jsstr;
  item_value : jsstr;
}.

Record FormulaDraft := MkFormula {
  formula_enabled : bool;
  expression : jsstr;
  variables : list FormulaItemDraft;
  defaults : list FormulaItemDraft;
}.

Record PriceVariantDraft := MkDraft {
  configured : bool;
  resolutionEnabled : bool;
  qualityEnabled : bool;
  draft_rules : list PriceVariantRuleDraft;
  extraParams : list ExtraParamRuleDraft;
  formula : FormulaDraft;
  inherited : bool;
  restoreInherited : bool;
}.

(** ** Identifiers *)

Record Sequences := MkSequences {
  priceVariantRuleSequence : Z;
  extraParamRuleSequence : Z;
  formulaVariableSequence : Z;
  formulaDefaultSequence : Z;
}.

Definition createPriceVariantRuleId (q : Sequences) : jsstr * Sequences :=
  let n := (priceVariantRuleSequence q + 1)%Z in
  ("model-price-variant-rule-" ++ Z_to_string n,
   MkSequences n (extraParamRuleSequence q) (formulaVariableSequence q) (formulaDefaultSequence q)).

Definition createExtraParamRuleId (q : Sequences) : jsstr * Sequences :=
  let n := (extraParamRuleSequence q + 1)%Z in
  ("model-price-extra-param-rule-" ++ Z_to_string n,
   MkSequences (priceVariantRuleSequence q) n (formulaVariableSequence q) (formulaDefaultSequence q)).

Definition createFormulaVariableId (q : Sequences) : jsstr * Sequences :=
  let n := (formulaVariableSequence q + 1)%Z in
  ("model-price-formula-variable-" ++ Z_to_string n,
   MkSequences (priceVariantRuleSequence q) (extraParamRuleSequence q) n (formulaDefaultSequence q)).

Definition createFormulaDefaultId (q : Sequences) : jsstr * Sequences :=
  let n := (formulaDefaultSequence q + 1)%Z in
  ("model-price-formula-default-" ++ Z_to_string n,
   MkSequences (priceVariantRuleSequence q) (extraParamRuleSequence q) (formulaVariableSequence q) n).

(** [l.map(x => f(createId(), x))] *)
Fixpoint with_ids {A B} (create : Sequences → jsstr * Sequences) (f : jsstr → A → B) (l : list A) (q : Sequences) : list B * Sequences :=
  match l with
  | [] => ([], q)
  | x :: l' =>
    let '(i, q1) := create q in
    let '(ys, q2) := with_ids create f l' q1 in
    (f i x :: ys, q2)
  end.

(** Rows of names and values. *)
Definition items (create : Sequences → jsstr * Sequences) : list (jsstr * jsstr) → Sequences → list FormulaItemDraft * Sequences :=
  with_ids create (λ i p, ItemDraft i p.1 p.2).

Inductive ImageEditFormulaPresetKey := official | addon | fixed.

Definition preset_expression (preset : ImageEditFormulaPresetKey) : jsstr :=
  match preset with
  | fixed => "base_price"
  | addon => "base_price + max(input_images - input_base, 0) * input_image_unit_price"
  | official =>
    "(input_image_tokens(input_base) * input_image_token_price + output_tokens(quality == " ++ DQ ++ "high" ++ DQ
    ++ " ? high_output_base : quality == " ++ DQ ++ "low" ++ DQ
    ++ " ? low_output_base : medium_output_base) * output_token_price + text_input_price) * currency_rate"
  end.

Definition preset_variables (preset : ImageEditFormulaPresetKey) : list (jsstr * jsstr) :=
  match preset with
  | fixed => []
  | addon => [("input_base", "1"); ("input_image_unit_price", "0.002")]
  | official =>
    [("input_base", "48"); ("low_output_base", "16"); ("medium_output_base", "48"); ("high_output_base", "96");
     ("input_image_token_price", "0.000008"); ("output_token_price", "0.00003"); ("text_input_price", "0.005");
     ("currency_rate", "6.74")]
  end%js.

Definition preset_defaults (preset : ImageEditFormulaPresetKey) : list (jsstr * jsstr) :=
  match preset with
  | fixed => []
  | addon => [("size", "1024x1024"); ("quality", "medium")]
  | official => [("size", "1024x1024"); ("quality", "medium"); ("input_image_fallback_resolution", "1024x1024")]
  end%js.

Definition createImageEditFormulaPresetDraft (preset : ImageEditFormulaPresetKey) (q : Sequences) : FormulaDraft * Sequences :=
  let '(vs, q1) := items createFormulaVariableId (preset_variables preset) q in
  let '(ds, q2) := items createFormulaDefaultId (preset_defaults preset) q1 in
  (MkFormula true (preset_expression preset) vs ds, q2).

Definition createEmptyFormulaDraft : FormulaDraft := MkFormula false [] [] [].

(** [v ?? false] of an optional boolean. *)
Definition bool_or_false (v : value) : bool := match v with VBool b => b | _ => false end.

Definition createFormulaDraft (f : value) (q : Sequences) : FormulaDraft * Sequences :=
  if negb (truthy f) then (createEmptyFormulaDraft, q)
  else
    let entries v := (λ p, (p.1, to_string p.2)) <$> map_of v in
    let '(vs, q1) := items createFormulaVariableId (entries (prop f "variables")) q in
    let '(ds, q2) := items createFormulaDefaultId (entries (prop f "defaults")) q1 in
    (MkFormula (bool_or_false (prop f "enabled")) (text_or_empty (prop f "expression")) vs ds, q2).

Definition restored_draft : PriceVariantDraft := MkDraft false false false [] [] createEmptyFormulaDraft false true.

Definition createInitialPriceVariantDraft (config : value) (q : Sequences) : PriceVariantDraft * Sequences :=
  if match config with VNull => true | _ => false end then (restored_draft, q)
  else
    let '(rs, q1) := with_ids createPriceVariantRuleId (λ i r,
      RuleDraft i (text_or_empty (prop r "resolution")) (text_or_empty (prop r "quality")) (to_string (prop r "price")))
      (array_or_empty (prop config "rules")) q in
    let '(xs, q2) := with_ids createExtraParamRuleId (λ i r,
      ExtraDraft i (text_or_empty (prop r "key")) (cell (prop r "base")) (to_string (prop r "unit_price")))
      (array_or_empty (prop config "extra_params")) q1 in
    let '(f, q3) := createFormulaDraft (prop config "formula") q2 in
    (MkDraft (negb (is_undefined config)) (bool_or_false (prop config "resolution_enabled")) (bool_or_false (prop config "quality_enabled"))
       rs xs f (bool_or_false (prop config "inherited")) false, q3).

(** ** Checking a draft *)

Inductive ErrorField := at_resolution | at_quality | at_price | at_key | at_base | at_unitPrice | at_value | at_duplicate.

#[global] Instance ErrorField_eq_dec : EqDecision ErrorField.
Proof. solve_decision. Defined.

(** Messages by row and field. *)
Definition RowErrors := list (ErrorField * jsstr).
Definition Errors := list (jsstr * RowErrors).

Definition setError (id : jsstr) (field : ErrorField) (message : jsstr) (errors : Errors) : Errors :=
  map_update errors id [] (λ e, map_set e field message).

(** The loop over the rows of a table: the errors [own] a row has by itself,
    and [duplicated] on two rows with the same key. *)
Section Rows.
Context {A : Type} (ident : A → jsstr) (own : A → RowErrors) (key : A → option jsstr) (duplicated : jsstr).

Definition check_row (st : Errors * list (jsstr * jsstr)) (row : A) : Errors * list (jsstr * jsstr) :=
  let '(errors, known) := st in
  let errors := fold_left (λ e p, setError (ident row) p.1 p.2 e) (own row) errors in
  match key row with
  | Some k =>
    match map_get known k with
    | Some existing =>
      if nonempty existing
      then (setError (ident row) at_duplicate duplicated (setError existing at_duplicate duplicated errors), known)
      else (errors, map_set known k (ident row))
    | None => (errors, map_set known k (ident row))
    end
  | None => (errors, known)
  end.

Definition check_rows (rows : list A) : Errors := (fold_left check_row rows ([], [])).1.
End Rows.

Record FormulaErrors := MkFormulaErrors {
  expression_error : option jsstr;
  variable_errors : Errors;
  default_errors : Errors;
}.

Record PriceVariantValidation := MkValidation {
  sectionError : option jsstr;
  ruleErrors : Errors;
  extraParamErrors : Errors;
  formulaErrors : FormulaErrors;
  valid : bool;
}.

Section Editor.
Context (lower : jsstr → jsstr) (t : jsstr → jsstr).

(** A text that must be a finite number, not negative if [signed] is false. *)
Definition number_errors (field : ErrorField) (text missing wrong : jsstr) (signed : bool) : RowErrors :=
  if negb (nonempty (trim text)) then [(field, t missing)]
  else
    let x := Number_of_string text in
    if negb (is_finite x) || negb signed && num_ltb x (of_Z 0) then [(field, t wrong)] else [].

Definition own_rule_errors (re qe : bool) (rule : PriceVariantRuleDraft) : RowErrors :=
  (if re && negb (nonempty (trim (rule_resolution_text rule))) then [(at_resolution, t "Resolution is required.")] else []) ++
  (if qe && negb (nonempty (trim (rule_quality_text rule))) then [(at_quality, t "Quality tier is required.")] else []) ++
  number_errors at_price (rule_price_text rule) "Price is required." "Enter a valid non-negative price." false.

Definition rule_key (re qe : bool) (rule : PriceVariantRuleDraft) : option jsstr :=
  let resolution := trim (rule_resolution_text rule) in
  let quality := trim (rule_quality_text rule) in
  if (negb re || nonempty resolution) && (negb qe || nonempty quality)
  then Some (getModelPriceVariantCombinationKey lower (if re then resolution else []) (if qe then quality else []))
  else None.

(** [key] when it is not empty. *)
Definition some_key (key : jsstr) : option jsstr := if nonempty key then Some key else None.

Definition own_extra_errors (rule : ExtraParamRuleDraft) : RowErrors :=
  (if nonempty (normalizeModelPriceExtraParamKey lower (extra_key rule)) then [] else [(at_key, t "Parameter key is required.")]) ++
  number_errors at_unitPrice (extra_unitPrice rule) "Unit price is required." "Enter a valid non-negative price." false ++
  (if nonempty (trim (extra_base rule))
   then number_errors at_base (extra_base rule) [] "Enter a valid non-negative number." false else []).

Definition own_variable_errors (item : FormulaItemDraft) : RowErrors :=
  (if nonempty (normalizeModelPriceFormulaName lower (item_key item)) then [] else [(at_key, t "Variable name is required.")]) ++
  number_errors at_value (item_value item) "Variable value is required." "Enter a valid number." true.

Definition own_default_errors (item : FormulaItemDraft) : RowErrors :=
  if nonempty (normalizeModelPriceFormulaName lower (item_key item)) then [] else [(at_key, t "Default name is required.")].

Definition no_formula_errors : FormulaErrors := MkFormulaErrors None [] [].

Definition quality_on (draft : PriceVariantDraft) (modelName : jsstr) : bool :=
  negb (isGrokImagineVideoModel lower modelName) && qualityEnabled draft.

Definition validatePriceVariantDraft (draft : PriceVariantDraft) (modelName : jsstr) : PriceVariantValidation :=
  let re := resolutionEnabled draft in
  let qe := quality_on draft modelName in
  if restoreInherited draft then MkValidation None [] [] no_formula_errors true
  else if (re || qe) && (length (draft_rules draft) =? 0)%nat
  then MkValidation (Some (t "Add at least one specification price rule.")) [] [] no_formula_errors false
  else
    let rules :=
      if re || qe
      then check_rows rule_id (own_rule_errors re qe) (rule_key re qe) (t "This specification combination is duplicated.") (draft_rules draft)
      else [] in
    let extra :=
      check_rows extra_id own_extra_errors (λ r, some_key (normalizeModelPriceExtraParamKey lower (extra_key r)))
        (t "This extra parameter is duplicated.") (extraParams draft) in
    let f := formula draft in
    let expr := if formula_enabled f && negb (nonempty (trim (expression f))) then Some (t "Formula expression is required.") else None in
    let name item := some_key (normalizeModelPriceFormulaName lower (item_key item)) in
    let vars := check_rows item_id own_variable_errors name (t "This formula variable is duplicated.") (variables f) in
    let defs := check_rows item_id own_default_errors name (t "This formula default is duplicated.") (defaults f) in
    MkValidation None rules extra (MkFormulaErrors expr vars defs)
      ((length rules =? 0)%nat && (length extra =? 0)%nat && negb (from_option nonempty false expr) &&
       (length vars =? 0)%nat && (length defs =? 0)%nat).

(** ** Building the configuration *)

(** [Object.fromEntries] *)
Definition fromEntries (es : list (jsstr * value)) : obj := fold_left (λ fs p, obj_set fs p.1 p.2) es [].

Definition formula_filled (f : FormulaDraft) : bool :=
  formula_enabled f || nonempty (trim (expression f)) || negb (length (variables f) =? 0)%nat || negb (length (defaults f) =? 0)%nat.

Definition rule_config (draft : PriceVariantDraft) (qe : bool) (rule : PriceVariantRuleDraft) : value :=
  VObj ((if resolutionEnabled draft
         then [("resolution"%js, VStr (if inherited draft then rule_resolution_text rule
                                       else normalizeModelPriceVariantResolution lower (rule_resolution_text rule)))] else []) ++
        (if qe
         then [("quality"%js, VStr (if inherited draft then rule_quality_text rule
                                    else normalizeModelPriceVariantQuality lower (rule_quality_text rule)))] else []) ++
        [("price"%js, VNum (Number_of_string (rule_price_text rule)))]).

Definition extra_config (rule : ExtraParamRuleDraft) : value :=
  VObj ([("key"%js, VStr (normalizeModelPriceExtraParamKey lower (extra_key rule)))] ++
        (if nonempty (trim (extra_base rule)) then [("base"%js, VNum (Number_of_string (extra_base rule)))] else []) ++
        [("unit_price"%js, VNum (Number_of_string (extra_unitPrice rule)))]).

Definition formula_config (f : FormulaDraft) : value :=
  let vars := fromEntries ((λ v, (normalizeModelPriceFormulaName lower (item_key v), VNum (Number_of_string (item_value v)))) <$> variables f) in
  let defs := fromEntries ((λ d, (normalizeModelPriceFormulaName lower (item_key d), VStr (trim (item_value d)))) <$> defaults f) in
  VObj ([("enabled"%js, VBool (formula_enabled f))] ++
        (if nonempty (trim (expression f)) then [("expression"%js, VStr (trim (expression f)))] else []) ++
        (match vars with [] => [] | _ => [("variables"%js, VObj vars)] end) ++
        (match defs with [] => [] | _ => [("defaults"%js, VObj defs)] end)).

Definition unconfigured (draft : PriceVariantDraft) (modelName : jsstr) : bool :=
  negb (configured draft) && negb (resolutionEnabled draft) && negb (quality_on draft modelName) &&
  (length (draft_rules draft) =? 0)%nat && (length (extraParams draft) =? 0)%nat && negb (formula_filled (formula draft)).

(** [VNull] restores the inherited prices, [VUndef] leaves nothing to save. *)
Definition buildPriceVariantConfig (draft : PriceVariantDraft) (modelName : jsstr) : value :=
  if restoreInherited draft then VNull
  else if unconfigured draft modelName then VUndef
  else
    let qe := quality_on draft modelName in
    VObj ([("resolution_enabled"%js, VBool (resolutionEnabled draft)); ("quality_enabled"%js, VBool qe);
           ("inherited"%js, VBool (inherited draft))] ++
          (if resolutionEnabled draft || qe then [("rules"%js, VArr (rule_config draft qe <$> draft_rules draft))] else []) ++
          (match extraParams draft with [] => [] | xs => [("extra_params"%js, VArr (extra_config <$> xs))] end) ++
          (if formula_filled (formula draft) then [("formula"%js, formula_config (formula draft))] else [])).

(** ** The rules as lines of text *)

Definition formatPriceVariantExpression (draft : PriceVariantDraft) (modelName : jsstr) : jsstr :=
  let re := resolutionEnabled draft in
  let qe := quality_on draft modelName in
  if restoreInherited draft then []
  else if negb re && negb qe then []
  else
    join [10%N] (List.filter nonempty ((λ rule,
      join [32%N] (List.filter nonempty (trim <$>
        [if re then rule_resolution_text rule else []; if qe then rule_quality_text rule else []; rule_price_text rule])))
      <$> draft_rules draft)).

(** [s.replace(r, '')] without the flag g. *)
Definition remove_first (r : re) (s : jsstr) : jsstr :=
  match exec_from r 0 None s with Some m => take (m_index m) s ++ m_rest m | None => s end.

Definition comment_re : re := Seq (lit_re "#") (Star any).
Definition bullet_re : re := Seq Bol (Seq (one_of "-*") (Star space)).
(** [/(?:^|[\s,=:])[$¥]?(\d+(?:\.\d+)?|\.\d+)\s*(?:\/[^\s]+)?\s*$/] *)
Definition price_re : re :=
  seqs [Alt Bol (Chr (λ c, is_ws c || bool_decide (c ∈ [44; 61; 58]%N)));
        Opt (one_of [36; 165]%N);
        Grp 1 (Alt (Seq (Plus digit) (Opt (Seq (lit_re ".") (Plus digit)))) (Seq (lit_re ".") (Plus digit)));
        Star space; Opt (Seq (lit_re "/") (Plus (Chr (λ c, negb (is_ws c))))); Star space; Eol].
Definition trailing_re : re := Seq (Plus (one_of [44; 58; 61]%N)) Eol.
Definition gap_re : re := Plus (Chr (λ c, is_ws c || (c =? 44)%N)).
Definition newline_re : re := Seq (Opt (lit_re [13%N])) (lit_re [10%N]).

(** [UndefinedPart]: a line whose specification is made of commas; the code goes
    on with a rule whose resolution or quality is [undefined]. *)
Inductive ExpressionError := MissingPrice (line : nat) | MissingSpecification (line : nat) | UndefinedPart (line : nat) | NoRules.

(** The parts of a specification. *)
Definition spec_parts (specText : jsstr) : list jsstr :=
  let parts := List.filter nonempty (re_split gap_re specText) in
  match parts with
  | [sku] =>
    if startsWith sku "sku_out_" then
      let skuParts := split_char 95 (drop 8 sku) in
      match last skuParts with
      | Some qualityPart =>
        if Nat.leb 2 (length skuParts) then [join [95%N] (removelast skuParts); qualityPart] else parts
      | None => parts
      end
    else parts
  | _ => parts
  end.

(** A line: nothing, an error, or a rule without its identifier. *)
Definition parseLine (fallback : PriceVariantDraft) (rawLine : jsstr) (lineNumber : nat) :
    ExpressionError + option (jsstr * jsstr * jsstr) :=
  let line := trim (remove_first bullet_re (remove_first comment_re rawLine)) in
  if negb (nonempty line) then inr None
  else
    match exec_from price_re 0 None line with
    | None => inl (MissingPrice lineNumber)
    | Some m =>
      let price := grp (m_caps m) 1 in
      let specText := trim (re_replace trailing_re "" (take (m_index m) line)) in
      if negb (nonempty specText) then inl (MissingSpecification lineNumber)
      else
        match spec_parts specText with
        | resolution :: quality :: _ => inr (Some (resolution, quality, price))
        | [part] =>
          inr (Some (if qualityEnabled fallback && negb (resolutionEnabled fallback) then ([], part, price) else (part, [], price)))
        | [] => inl (UndefinedPart lineNumber)
        end
    end.

(** The lines in order; a rule takes its identifier when its line is read. *)
Fixpoint parse_lines (fallback : PriceVariantDraft) (hideQuality : bool) (lines : list jsstr) (lineNumber : nat) (q : Sequences) :
    (ExpressionError + list PriceVariantRuleDraft) * Sequences :=
  match lines with
  | [] => (inr [], q)
  | l :: ls =>
    match parseLine fallback l lineNumber with
    | inl e => (inl e, q)
    | inr None => parse_lines fallback hideQuality ls (S lineNumber) q
    | inr (Some (resolution, quality, price)) =>
      let '(id, q1) := createPriceVariantRuleId q in
      match parse_lines fallback hideQuality ls (S lineNumber) q1 with
      | (inl e, q2) => (inl e, q2)
      | (inr rs, q2) => (inr (RuleDraft id resolution (if hideQuality then [] else quality) price :: rs), q2)
      end
    end
  end.

Definition parsePriceVariantExpression (text modelName : jsstr) (fallback : PriceVariantDraft) (q : Sequences) :
    (ExpressionError + PriceVariantDraft) * Sequences :=
  let hideQuality := isGrokImagineVideoModel lower modelName in
  match parse_lines fallback hideQuality (re_split newline_re text) 1 q with
  | (inl e, q') => (inl e, q')
  | (inr [], q') => (inl NoRules, q')
  | (inr rules, q') =>
    let hasResolution := existsb (λ r, nonempty (rule_resolution_text r)) rules in
    let hasQuality := existsb (λ r, nonempty (rule_quality_text r)) rules in
    (inr (MkDraft true (hasResolution || resolutionEnabled fallback)
            (if hideQuality then false else hasQuality || negb hasResolution && qualityEnabled fallback)
            rules (extraParams fallback) (formula fallback) false false), q')
  end.

(** ** Lanes *)

(** [toNumberOrNull] of a text. *)
Definition toNumberOrNull (text : jsstr) : option number :=
  if nonempty text then let x := Number_of_string text in if is_finite x then Some x else None else None.

Definition ratioToBasePrice (r : jsstr) : jsstr :=
  match toNumberOrNull r with Some x => formatPricingNumber (num_mul x (of_Z 2)) | None => [] end.

Definition deriveLanePrice (r denominator : jsstr) : jsstr :=
  match toNumberOrNull r, toNumberOrNull denominator with
  | Some x, Some y => formatPricingNumber (num_mul x y)
  | _, _ => []
  end.

(** [ratioFieldByLane], as the field of the settings. *)
Definition ratioFieldByLane (lane : LaneKey) : Field :=
  match lane with
  | completion => CompletionRatio
  | cache => CacheRatio
  | createCache => CreateCacheRatio
  | image => ImageRatio
  | audioInput => AudioRatio
  | audioOutput => AudioCompletionRatio
  end.

Definition EMPTY_LANE_PRICES : LaneKey → jsstr := λ _, [].
Definition EMPTY_LANE_ENABLED : LaneKey → bool := λ _, false.

(** [{ ...f, [lane]: x }] *)
Definition with_lane {A} (f : LaneKey → A) (lane : LaneKey) (x : A) : LaneKey → A := λ l, if decide (l = lane) then x else f l.

Definition createInitialLaneState (data : option ModelRatioData) : jsstr * (LaneKey → jsstr) * (LaneKey → bool) :=
  match data with
  | None => ([], EMPTY_LANE_PRICES, EMPTY_LANE_ENABLED)
  | Some d =>
    let promptPrice := ratioToBasePrice (ratio (d_texts d)) in
    let text lane := text_at (d_texts d) (ratioFieldByLane lane) in
    let audioInputPrice := deriveLanePrice (text audioInput) promptPrice in
    (promptPrice,
     λ lane, if decide (lane = audioOutput) then deriveLanePrice (text audioOutput) audioInputPrice
             else deriveLanePrice (text lane) promptPrice,
     λ lane, nonempty (text lane))
  end.

(** ** The sheet *)

(** The fields of the form with the texts of [sh_texts]; [editData] is the model
    that is edited. *)
Record Sheet := MkSheet {
  editModel : option ModelRatioData;
  sh_name : jsstr;
  sh_texts : Texts;
  pricingMode : PricingMode;
  promptPrice : jsstr;
  lanePrices : LaneKey → jsstr;
  laneEnabled : LaneKey → bool;
  sh_billingExpr : jsstr;
  sh_requestRuleExpr : jsstr;
  sh_priceUnit : ModelPriceUnit;
  priceVariantDraft : PriceVariantDraft;
  imageEditPriceVariantDraft : PriceVariantDraft;
  showPriceVariantErrors : bool;
  showImageEditPriceVariantErrors : bool;
}.

Definition empty_texts : Texts := texts_of (λ _, []).

(** The effect that runs when [editData] changes. *)
Definition open_sheet (data : option ModelRatioData) (q : Sequences) : Sheet * Sequences :=
  let '(prompt, prices, enabled) := createInitialLaneState data in
  let '(d1, q1) := createInitialPriceVariantDraft (from_option d_priceVariant VUndef data) q in
  let '(d2, q2) := createInitialPriceVariantDraft (from_option d_imageEditPriceVariant VUndef data) q1 in
  (match data with
   | Some d =>
     MkSheet data (d_name d) (d_texts d) (d_billingMode d) prompt prices enabled (d_billingExpr d) (d_requestRuleExpr d)
       (normalizeModelPriceUnit (d_priceUnit d)) d1 d2 false false
   | None => MkSheet None [] empty_texts per_token prompt prices enabled [] [] REQUEST d1 d2 false false
   end, q2).

(** [form.setValue(field, value)] *)
Definition set_text (tx : Texts) (f : Field) (v : jsstr) : Texts := texts_of (λ g, if decide (g = f) then v else text_at tx g).

Definition with_texts (s : Sheet) (name : jsstr) (tx : Texts) : Sheet :=
  MkSheet (editModel s) name tx (pricingMode s) (promptPrice s) (lanePrices s) (laneEnabled s) (sh_billingExpr s)
    (sh_requestRuleExpr s) (sh_priceUnit s) (priceVariantDraft s) (imageEditPriceVariantDraft s) (showPriceVariantErrors s)
    (showImageEditPriceVariantErrors s).

Definition setFormValue (f : Field) (v : jsstr) (s : Sheet) : Sheet := with_texts s (sh_name s) (set_text (sh_texts s) f v).

Definition with_lanes (s : Sheet) (prompt : jsstr) (prices : LaneKey → jsstr) (enabled : LaneKey → bool) : Sheet :=
  MkSheet (editModel s) (sh_name s) (sh_texts s) (pricingMode s) prompt prices enabled (sh_billingExpr s)
    (sh_requestRuleExpr s) (sh_priceUnit s) (priceVariantDraft s) (imageEditPriceVariantDraft s) (showPriceVariantErrors s)
    (showImageEditPriceVariantErrors s).

Definition deriveLaneRatio (lane : LaneKey) (price prompt : jsstr) (prices : LaneKey → jsstr) : jsstr :=
  match toNumberOrNull price with
  | None => []
  | Some priceNumber =>
    match toNumberOrNull (if decide (lane = audioOutput) then prices audioInput else prompt) with
    | None => []
    | Some base => if num_eqb base (of_Z 0) then [] else formatPricingNumber (num_div priceNumber base)
    end
  end.

Definition syncLaneRatios (prompt : jsstr) (prices : LaneKey → jsstr) (enabled : LaneKey → bool) (s : Sheet) : Sheet :=
  let s := setFormValue ModelRatio
             (match toNumberOrNull prompt with Some x => formatPricingNumber (num_div x (of_Z 2)) | None => [] end) s in
  fold_left (λ s lane,
    setFormValue (ratioFieldByLane lane) (if enabled lane then deriveLaneRatio lane (prices lane) prompt prices else []) s) LANES s.

(** Digits with an optional decimal point anywhere, or nothing. *)
Definition numericDraftRegex : re :=
  seqs [Bol; Opt (Grp 1 (Alt (Seq (Plus digit) (Opt (Grp 2 (Seq (lit_re ".") (Star digit))))) (Seq (lit_re ".") (Star digit)))); Eol].
(** The same with an optional minus. *)
Definition formulaNumberDraftRegex : re :=
  seqs [Bol; Opt (lit_re "-");
        Opt (Grp 1 (Alt (Seq (Plus digit) (Opt (Grp 2 (Seq (lit_re ".") (Star digit))))) (Seq (lit_re ".") (Star digit)))); Eol].

Definition handlePromptPriceChange (v : jsstr) (s : Sheet) : Sheet :=
  if negb (re_test numericDraftRegex v) then s
  else syncLaneRatios v (lanePrices s) (laneEnabled s) (with_lanes s v (lanePrices s) (laneEnabled s)).

Definition handleLanePriceChange (lane : LaneKey) (v : jsstr) (s : Sheet) : Sheet :=
  if negb (re_test numericDraftRegex v) then s
  else
    let prices := with_lane (lanePrices s) lane v in
    let s1 := with_lanes s (promptPrice s) prices (laneEnabled s) in
    let s2 := if laneEnabled s lane then setFormValue (ratioFieldByLane lane) (deriveLaneRatio lane v (promptPrice s) prices) s1 else s1 in
    if bool_decide (lane = audioInput) && laneEnabled s audioOutput
    then setFormValue AudioCompletionRatio (deriveLaneRatio audioOutput (prices audioOutput) (promptPrice s) prices) s2
    else s2.

Definition handleLaneToggle (lane : LaneKey) (checked : bool) (s : Sheet) : Sheet :=
  let enabled := with_lane (laneEnabled s) lane checked in
  if checked then
    setFormValue (ratioFieldByLane lane) (deriveLaneRatio lane (lanePrices s lane) (promptPrice s) (lanePrices s))
      (with_lanes s (promptPrice s) (lanePrices s) enabled)
  else
    let prices := with_lane (lanePrices s) lane [] in
    let s1 := setFormValue (ratioFieldByLane lane) [] s in
    if decide (lane = audioInput) then
      with_lanes (setFormValue AudioCompletionRatio [] s1) (promptPrice s) (with_lane prices audioOutput []) (with_lane enabled audioOutput false)
    else with_lanes s1 (promptPrice s) prices enabled.

(** ** Editing the drafts *)

(** The two drafts of the sheet. *)
Inductive Which := generation | image_edit.

Definition draft_of (w : Which) (s : Sheet) : PriceVariantDraft :=
  match w with generation => priceVariantDraft s | image_edit => imageEditPriceVariantDraft s end.

Definition with_draft (w : Which) (d : PriceVariantDraft) (s : Sheet) : Sheet :=
  MkSheet (editModel s) (sh_name s) (sh_texts s) (pricingMode s) (promptPrice s) (lanePrices s) (laneEnabled s) (sh_billingExpr s)
    (sh_requestRuleExpr s) (sh_priceUnit s)
    (match w with generation => d | image_edit => priceVariantDraft s end)
    (match w with generation => imageEditPriceVariantDraft s | image_edit => d end)
    (showPriceVariantErrors s) (showImageEditPriceVariantErrors s).

Definition show_errors (w : Which) (b : bool) (s : Sheet) : Sheet :=
  MkSheet (editModel s) (sh_name s) (sh_texts s) (pricingMode s) (promptPrice s) (lanePrices s) (laneEnabled s) (sh_billingExpr s)
    (sh_requestRuleExpr s) (sh_priceUnit s) (priceVariantDraft s) (imageEditPriceVariantDraft s)
    (match w with generation => b | image_edit => showPriceVariantErrors s end)
    (match w with generation => showImageEditPriceVariantErrors s | image_edit => b end).

(** [{ ...d, configured: true, inherited: false, restoreInherited: false }] *)
Definition touched (d : PriceVariantDraft) : PriceVariantDraft :=
  MkDraft true (resolutionEnabled d) (qualityEnabled d) (draft_rules d) (extraParams d) (formula d) false false.

(** [updatePriceVariantDraft] and [updateImageEditPriceVariantDraft] *)
Definition updateDraft (w : Which) (updater : PriceVariantDraft → Sequences → PriceVariantDraft * Sequences) (s : Sheet) (q : Sequences) :
    Sheet * Sequences :=
  let '(d, q') := updater (draft_of w s) q in (with_draft w (touched d) s, q').

Definition with_rules (d : PriceVariantDraft) (rs : list PriceVariantRuleDraft) : PriceVariantDraft :=
  MkDraft (configured d) (resolutionEnabled d) (qualityEnabled d) rs (extraParams d) (formula d) (inherited d) (restoreInherited d).

Definition with_extra (d : PriceVariantDraft) (xs : list ExtraParamRuleDraft) : PriceVariantDraft :=
  MkDraft (configured d) (resolutionEnabled d) (qualityEnabled d) (draft_rules d) xs (formula d) (inherited d) (restoreInherited d).

Definition with_formula (d : PriceVariantDraft) (f : FormulaDraft) : PriceVariantDraft :=
  MkDraft (configured d) (resolutionEnabled d) (qualityEnabled d) (draft_rules d) (extraParams d) f (inherited d) (restoreInherited d).

(** [rows.map(row => row.id === id ? edit(row) : row)] *)
Definition edit_row {A} (ident : A → jsstr) (id : jsstr) (edit : A → A) (rows : list A) : list A :=
  (λ row, if str_eqb (ident row) id then edit row else row) <$> rows.

(** [rows.filter(row => row.id !== id)] *)
Definition remove_row {A} (ident : A → jsstr) (id : jsstr) (rows : list A) : list A :=
  List.filter (λ row, negb (str_eqb (ident row) id)) rows.

Inductive RuleField := resolution_field | quality_field | price_field.
Inductive ExtraField := key_field | base_field | unit_price_field.
Inductive ItemField := name_field | value_field.

Definition set_rule_field (field : RuleField) (v : jsstr) (r : PriceVariantRuleDraft) : PriceVariantRuleDraft :=
  match field with
  | resolution_field => RuleDraft (rule_id r) v (rule_quality_text r) (rule_price_text r)
  | quality_field => RuleDraft (rule_id r) (rule_resolution_text r) v (rule_price_text r)
  | price_field => RuleDraft (rule_id r) (rule_resolution_text r) (rule_quality_text r) v
  end.

Definition set_extra_field (field : ExtraField) (v : jsstr) (r : ExtraParamRuleDraft) : ExtraParamRuleDraft :=
  match field with
  | key_field => ExtraDraft (extra_id r) v (extra_base r) (extra_unitPrice r)
  | base_field => ExtraDraft (extra_id r) (extra_key r) v (extra_unitPrice r)
  | unit_price_field => ExtraDraft (extra_id r) (extra_key r) (extra_base r) v
  end.

Definition set_item_field (field : ItemField) (v : jsstr) (r : FormulaItemDraft) : FormulaItemDraft :=
  match field with
  | name_field => ItemDraft (item_id r) v (item_value r)
  | value_field => ItemDraft (item_id r) (item_key r) v
  end.

(** An updater that creates no rows. *)
Definition pure (f : PriceVariantDraft → PriceVariantDraft) : PriceVariantDraft → Sequences → PriceVariantDraft * Sequences :=
  λ d q, (f d, q).

(** The handlers of both drafts; [resolution] says which switch. *)
Definition handleSwitchChange (w : Which) (resolution checked : bool) : Sheet → Sequences → Sheet * Sequences :=
  updateDraft w (pure (λ d,
    MkDraft (configured d) (if resolution then checked else resolutionEnabled d) (if resolution then qualityEnabled d else checked)
      (draft_rules d) (extraParams d) (formula d) (inherited d) (restoreInherited d))).

Definition handleAddRule (w : Which) : Sheet → Sequences → Sheet * Sequences :=
  updateDraft w (λ d q,
    let '(id, q') := createPriceVariantRuleId q in (with_rules d (draft_rules d ++ [RuleDraft id [] [] []]), q')).

Definition handleRemoveRule (w : Which) (ruleId : jsstr) : Sheet → Sequences → Sheet * Sequences :=
  updateDraft w (pure (λ d, with_rules d (remove_row rule_id ruleId (draft_rules d)))).

Definition handleRuleChange (w : Which) (ruleId : jsstr) (field : RuleField) (v : jsstr) (s : Sheet) (q : Sequences) : Sheet * Sequences :=
  if match field with price_field => negb (re_test numericDraftRegex v) | _ => false end then (s, q)
  else updateDraft w (pure (λ d, with_rules d (edit_row rule_id ruleId (set_rule_field field v) (draft_rules d)))) s q.

Definition handlePriceVariantSwitchChange := handleSwitchChange generation.
Definition handleAddPriceVariantRule := handleAddRule generation.
Definition handleRemovePriceVariantRule := handleRemoveRule generation.
Definition handlePriceVariantRuleChange := handleRuleChange generation.
Definition handleImageEditPriceVariantSwitchChange := handleSwitchChange image_edit.
Definition handleAddImageEditPriceVariantRule := handleAddRule image_edit.
Definition handleRemoveImageEditPriceVariantRule := handleRemoveRule image_edit.
Definition handleImageEditPriceVariantRuleChange := handleRuleChange image_edit.

Definition handleRestoreInheritedPriceVariants (s : Sheet) : Sheet := show_errors generation false (with_draft generation restored_draft s).

Definition handleAddImageEditExtraParamRule : Sheet → Sequences → Sheet * Sequences :=
  updateDraft image_edit (λ d q,
    let '(id, q') := createExtraParamRuleId q in (with_extra d (extraParams d ++ [ExtraDraft id "input_images" "1" []]), q')).

Definition handleRemoveImageEditExtraParamRule (ruleId : jsstr) : Sheet → Sequences → Sheet * Sequences :=
  updateDraft image_edit (pure (λ d, with_extra d (remove_row extra_id ruleId (extraParams d)))).

Definition handleImageEditExtraParamRuleChange (ruleId : jsstr) (field : ExtraField) (v : jsstr) (s : Sheet) (q : Sequences) :
    Sheet * Sequences :=
  if match field with key_field => false | _ => negb (re_test numericDraftRegex v) end then (s, q)
  else updateDraft image_edit (pure (λ d, with_extra d (edit_row extra_id ruleId (set_extra_field field v) (extraParams d)))) s q.

Definition handleImageEditFormulaEnabledChange (checked : bool) : Sheet → Sequences → Sheet * Sequences :=
  updateDraft image_edit (pure (λ d, with_formula d (let f := formula d in MkFormula checked (expression f) (variables f) (defaults f)))).

Definition handleImageEditFormulaExpressionChange (v : jsstr) : Sheet → Sequences → Sheet * Sequences :=
  updateDraft image_edit (pure (λ d, with_formula d (let f := formula d in MkFormula (formula_enabled f) v (variables f) (defaults f)))).

Definition with_variables (f : FormulaDraft) (vs : list FormulaItemDraft) : FormulaDraft := MkFormula (formula_enabled f) (expression f) vs (defaults f).
Definition with_defaults (f : FormulaDraft) (ds : list FormulaItemDraft) : FormulaDraft := MkFormula (formula_enabled f) (expression f) (variables f) ds.

Definition handleAddImageEditFormulaVariable : Sheet → Sequences → Sheet * Sequences :=
  updateDraft image_edit (λ d q,
    let '(id, q') := createFormulaVariableId q in
    (with_formula d (with_variables (formula d) (variables (formula d) ++ [ItemDraft id [] []])), q')).

Definition handleRemoveImageEditFormulaVariable (id : jsstr) : Sheet → Sequences → Sheet * Sequences :=
  updateDraft image_edit (pure (λ d, with_formula d (with_variables (formula d) (remove_row item_id id (variables (formula d)))))).

Definition handleImageEditFormulaVariableChange (id : jsstr) (field : ItemField) (v : jsstr) (s : Sheet) (q : Sequences) : Sheet * Sequences :=
  if match field with name_field => false | value_field => negb (str_eqb v "-") && negb (re_test formulaNumberDraftRegex v) end then (s, q)
  else updateDraft image_edit (pure (λ d,
         with_formula d (with_variables (formula d) (edit_row item_id id (set_item_field field v) (variables (formula d)))))) s q.

Definition handleAddImageEditFormulaDefault : Sheet → Sequences → Sheet * Sequences :=
  updateDraft image_edit (λ d q,
    let '(id, q') := createFormulaDefaultId q in
    (with_formula d (with_defaults (formula d) (defaults (formula d) ++ [ItemDraft id [] []])), q')).

Definition handleRemoveImageEditFormulaDefault (id : jsstr) : Sheet → Sequences → Sheet * Sequences :=
  updateDraft image_edit (pure (λ d, with_formula d (with_defaults (formula d) (remove_row item_id id (defaults (formula d)))))).

Definition handleImageEditFormulaDefaultChange (id : jsstr) (field : ItemField) (v : jsstr) : Sheet → Sequences → Sheet * Sequences :=
  updateDraft image_edit (pure (λ d,
    with_formula d (with_defaults (formula d) (edit_row item_id id (set_item_field field v) (defaults (formula d)))))).

Definition handleApplyImageEditFormulaPreset (preset : ImageEditFormulaPresetKey) : Sheet → Sequences → Sheet * Sequences :=
  updateDraft image_edit (λ d q, let '(f, q') := createImageEditFormulaPresetDraft preset q in (with_formula d f, q')).

(** [watchedValues.name || editData?.name || ''] *)
Definition activeModelName (s : Sheet) : jsstr := if nonempty (sh_name s) then sh_name s else from_option d_name [] (editModel s).

(** An error leaves the sheet as it is. *)
Definition handleExpressionApply (w : Which) (text : jsstr) (s : Sheet) (q : Sequences) : (ExpressionError + Sheet) * Sequences :=
  match parsePriceVariantExpression text (activeModelName s) (draft_of w s) q with
  | (inl e, q') => (inl e, q')
  | (inr next, q') => let '(s', q'') := updateDraft w (λ _ q, (next, q)) s q' in (inr (show_errors w false s'), q'')
  end.

Definition handlePriceVariantExpressionApply := handleExpressionApply generation.
Definition handleImageEditPriceVariantExpressionApply := handleExpressionApply image_edit.

(** ** Mode and unit *)

Definition with_mode (s : Sheet) (mode : PricingMode) (expr rules : jsstr) (unit : ModelPriceUnit) : Sheet :=
  MkSheet (editModel s) (sh_name s) (sh_texts s) mode (promptPrice s) (lanePrices s) (laneEnabled s) expr rules unit
    (priceVariantDraft s) (imageEditPriceVariantDraft s) (showPriceVariantErrors s) (showImageEditPriceVariantErrors s).

Definition handleModeChange (mode : PricingMode) (s : Sheet) : Sheet :=
  with_mode s mode
    (if bool_decide (mode = tiered_expr) && negb (nonempty (sh_billingExpr s)) then "tier(" ++ DQ ++ "base" ++ DQ ++ ", p * 0 + c * 0)"
     else sh_billingExpr s)
    (sh_requestRuleExpr s)
    (if decide (mode = per_token) then REQUEST else sh_priceUnit s).

Definition handleUnitChange (v : value) (s : Sheet) : Sheet :=
  with_mode s (pricingMode s) (sh_billingExpr s) (sh_requestRuleExpr s) (normalizeModelPriceUnit v).

(** The inputs of the price and of the name; the name of a model that is edited
    cannot be changed. *)
Definition handlePriceInput (v : jsstr) (s : Sheet) : Sheet := if re_test numericDraftRegex v then setFormValue ModelPrice v s else s.

Definition handleNameInput (v : jsstr) (s : Sheet) : Sheet :=
  match editModel s with Some _ => s | None => with_texts s v (sh_texts s) end.

(** The expression editor of the sheet. *)
Definition setBillingExpr (v : jsstr) (s : Sheet) : Sheet := with_mode s (pricingMode s) v (sh_requestRuleExpr s) (sh_priceUnit s).
Definition setRequestRuleExpr (v : jsstr) (s : Sheet) : Sheet := with_mode s (pricingMode s) (sh_billingExpr s) v (sh_priceUnit s).

(** ** Submitting *)

Inductive SubmitError :=
  | NameRequired | PriceRequired | PriceInvalid | VariantsInvalid | ImageEditInvalid | InputPriceRequired | AudioInputRequired.

(** A lane that is on and has a price. *)
Definition lane_priced (s : Sheet) (lane : LaneKey) : bool := laneEnabled s lane && nonempty (lanePrices s lane).

Definition submit_error (s : Sheet) : option SubmitError :=
  let price := trim (price (sh_texts s)) in
  let parsedPrice := Number_of_string price in
  if negb (nonempty (sh_name s)) then Some NameRequired
  else if bool_decide (pricingMode s = per_request) && negb (nonempty price) then Some PriceRequired
  else if bool_decide (pricingMode s = per_request) && (negb (is_finite parsedPrice) || num_ltb parsedPrice (of_Z 0)) then Some PriceInvalid
  else if bool_decide (pricingMode s = per_request) && negb (valid (validatePriceVariantDraft (priceVariantDraft s) (activeModelName s)))
  then Some VariantsInvalid
  else if bool_decide (pricingMode s = per_request) && negb (valid (validatePriceVariantDraft (imageEditPriceVariantDraft s) (activeModelName s)))
  then Some ImageEditInvalid
  else if bool_decide (pricingMode s = per_token) && bool_decide (toNumberOrNull (promptPrice s) = None) && existsb (lane_priced s) LANES
  then Some InputPriceRequired
  else if bool_decide (pricingMode s = per_token) && laneEnabled s audioOutput && negb (nonempty (lanePrices s audioInput))
  then Some AudioInputRequired
  else None.

Definition submit_data (s : Sheet) : ModelRatioData :=
  let mode := pricingMode s in
  let config d := if decide (mode = per_request) then buildPriceVariantConfig d (sh_name s) else VUndef in
  MkData (trim (sh_name s))
    (set_text (sh_texts s) ModelPrice (trim (price (sh_texts s))))
    (if bool_decide (mode = per_request) || bool_decide (mode = tiered_expr) && nonempty (price (sh_texts s))
     then VStr (unit_text (sh_priceUnit s)) else VUndef)
    (config (priceVariantDraft s)) (config (imageEditPriceVariantDraft s)) mode
    (if decide (mode = tiered_expr) then sh_billingExpr s else [])
    (if decide (mode = tiered_expr) then sh_requestRuleExpr s else []).

(** The data to save, or the sheet with its errors. *)
Definition handleSubmit (s : Sheet) : (SubmitError * Sheet) + ModelRatioData :=
  match submit_error s with
  | None => inr (submit_data s)
  | Some e =>
    inl (e, match e with
            | VariantsInvalid => show_errors generation true s
            | ImageEditInvalid => show_errors image_edit true s
            | _ => s
            end)
  end.

(** ** Events *)

Inductive Event :=
  | PromptPrice (v : jsstr)
  | LanePrice (lane : LaneKey) (v : jsstr)
  | LaneToggle (lane : LaneKey) (checked : bool)
  | SwitchChange (w : Which) (resolution checked : bool)
  | AddRule (w : Which)
  | RemoveRule (w : Which) (id : jsstr)
  | RuleChange (w : Which) (id : jsstr) (field : RuleField) (v : jsstr)
  | RestoreInherited
  | AddExtra
  | RemoveExtra (id : jsstr)
  | ExtraChange (id : jsstr) (field : ExtraField) (v : jsstr)
  | FormulaEnabled (checked : bool)
  | FormulaExpression (v : jsstr)
  | AddVariable
  | RemoveVariable (id : jsstr)
  | VariableChange (id : jsstr) (field : ItemField) (v : jsstr)
  | AddDefault
  | RemoveDefault (id : jsstr)
  | DefaultChange (id : jsstr) (field : ItemField) (v : jsstr)
  | ApplyPreset (preset : ImageEditFormulaPresetKey)
  | ApplyExpression (w : Which) (text : jsstr)
  | ModeChange (mode : PricingMode)
  | UnitChange (v : value)
  | PriceInput (v : jsstr)
  | NameInput (v : jsstr)
  | BillingExprChange (v : jsstr)
  | RequestRuleChange (v : jsstr)
  | Submit.

(** What an event does to the sheet; a submitted sheet is handed over and stays
    as it is. *)
Definition on_event (e : Event) (s : Sheet) (q : Sequences) : Sheet * Sequences :=
  match e with
  | PromptPrice v => (handlePromptPriceChange v s, q)
  | LanePrice lane v => (handleLanePriceChange lane v s, q)
  | LaneToggle lane checked => (handleLaneToggle lane checked s, q)
  | SwitchChange w resolution checked =>
    match w with generation => handlePriceVariantSwitchChange resolution checked s q | image_edit => handleImageEditPriceVariantSwitchChange resolution checked s q end
  | AddRule w =>
    match w with generation => handleAddPriceVariantRule s q | image_edit => handleAddImageEditPriceVariantRule s q end
  | RemoveRule w id =>
    match w with generation => handleRemovePriceVariantRule id s q | image_edit => handleRemoveImageEditPriceVariantRule id s q end
  | RuleChange w id field v =>
    match w with generation => handlePriceVariantRuleChange id field v s q | image_edit => handleImageEditPriceVariantRuleChange id field v s q end
  | RestoreInherited => (handleRestoreInheritedPriceVariants s, q)
  | AddExtra => handleAddImageEditExtraParamRule s q
  | RemoveExtra id => handleRemoveImageEditExtraParamRule id s q
  | ExtraChange id field v => handleImageEditExtraParamRuleChange id field v s q
  | FormulaEnabled checked => handleImageEditFormulaEnabledChange checked s q
  | FormulaExpression v => handleImageEditFormulaExpressionChange v s q
  | AddVariable => handleAddImageEditFormulaVariable s q
  | RemoveVariable id => handleRemoveImageEditFormulaVariable id s q
  | VariableChange id field v => handleImageEditFormulaVariableChange id field v s q
  | AddDefault => handleAddImageEditFormulaDefault s q
  | RemoveDefault id => handleRemoveImageEditFormulaDefault id s q
  | DefaultChange id field v => handleImageEditFormulaDefaultChange id field v s q
  | ApplyPreset preset => handleApplyImageEditFormulaPreset preset s q
  | ApplyExpression w text =>
    match match w with generation => handlePriceVariantExpressionApply text s q | image_edit => handleImageEditPriceVariantExpressionApply text s q end with
    | (inr s', q') => (s', q')
    | (inl _, q') => (s, q')
    end
  | ModeChange mode => (handleModeChange mode s, q)
  | UnitChange v => (handleUnitChange v s, q)
  | PriceInput v => (handlePriceInput v s, q)
  | NameInput v => (handleNameInput v s, q)
  | BillingExprChange v => (setBillingExpr v s, q)
  | RequestRuleChange v => (setRequestRuleExpr v s, q)
  | Submit => (match handleSubmit s with inl (_, s') => s' | inr _ => s end, q)
  end.

Definition run_events (es : list Event) (st : Sheet * Sequences) : Sheet * Sequences := fold_left (λ st e, on_event e st.1 st.2) es st.

(** The sheets that can be reached from the opened one. *)
Inductive reached (data : option ModelRatioData) : Sheet → Sequences → Prop :=
  | reached_open q : (0 <= priceVariantRuleSequence q)%Z → (0 <= extraParamRuleSequence q)%Z →
      (0 <= formulaVariableSequence q)%Z → (0 <= formulaDefaultSequence q)%Z →
      reached data (open_sheet data q).1 (open_sheet data q).2
  | reached_event s q e : reached data s q → reached data (on_event e s q).1 (on_event e s q).2.
End Editor.

Example expression_1 :
  let fallback := createInitialPriceVariantDraft VUndef (MkSequences 0 0 0 0) in
  let parse s := match (parsePriceVariantExpression toLowerCase s [] fallback.1 fallback.2).1 with
                 | inr d => inr ((λ r, (rule_resolution_text r, rule_quality_text r, rule_price_text r)) <$> draft_rules d)
                 | inl e => inl e
                 end in
  parse ("- 1024x1024 high $0.23/image # note" ++ [10%N] ++ "sku_out_512x512_low: 0.05")
    = inr [("1024x1024", "high", "0.23"); ("512x512", "low", "0.05")]%js ∧
  parse "hd" = inl (MissingPrice 1) ∧ parse " 0.5" = inl (MissingSpecification 1) ∧ parse ", , 5" = inl (UndefinedPart 1) ∧
  parse [10%N] = inl NoRules.
Proof. vm_compute. repeat split. Qed.
End PriceSheet.
