(* ===== verification/PriceSheetFacts.v ===== *)
(** * Theorems on the price sheet

    What the checks of a draft report, that a draft without errors builds a
    configuration the type guard accepts, that the ratios follow the prices of
    the lanes, and what a submitted sheet leaves in the table. *)

From Stdlib Require Import SpecFloat.
From S2P Require Import Prelude JsString JsRegExp JsNumber JsInteger JsIntegerText JsValue JsObject JsonRoundTrip JsMap BillingExpr PriceVariants PriceTable PriceTableFacts PriceFormat PriceSheet.

Module PriceSheetFacts.
Import BillingExpr PriceVariants PriceTable PriceTableFacts PriceFormat PriceSheet.

(** ** The errors of a table of rows *)

(** The message at a field of a row. *)
Definition error_at (errors : Errors) (id : jsstr) (field : ErrorField) : option jsstr :=
  map_get (default [] (map_get errors id)) field.

Lemma error_at_set i f m errors j g :
  error_at (setError i f m errors) j g = if decide (j = i ∧ g = f) then Some m else error_at errors j g.
Proof.
  unfold error_at, setError. rewrite map_get_update. destruct (decide (j = i)) as [->|Hj].
  - cbn [from_option id]. rewrite map_get_set. destruct (decide (g = f)) as [->|Hg], (decide _) as [H|H]; try done; tauto.
  - destruct (decide _) as [H|H]; [tauto|done].
Qed.

Lemma setError_ne i f m errors : setError i f m errors ≠ [].
Proof. intros E. pose proof (error_at_set i f m errors i f) as H. rewrite E in H. by destruct (decide _) as [|[]]. Qed.

Section RowFacts.
Context {A : Type} (ident : A → jsstr) (own : A → RowErrors) (key : A → option jsstr) (duplicated : jsstr).

#[local] Abbreviation step := (check_row ident own key duplicated).

Definition own_fold (row : A) (errors : Errors) : Errors := fold_left (λ e p, setError (ident row) p.1 p.2 e) (own row) errors.

Lemma own_fold_nil row errors : own_fold row errors = [] ↔ errors = [] ∧ own row = [].
Proof.
  unfold own_fold. generalize (own row). intros ps. revert errors. induction ps as [|p ps IH]; intros errors; cbn; [tauto|].
  rewrite IH. split; [|by intros [_ ?]]. intros [H _]. by apply setError_ne in H.
Qed.

(** No errors: no row has one of its own and no two rows share a key. *)
Lemma rows_fine_from rows errors known : Forall (λ r, nonempty (ident r) = true) rows → Forall (λ p, nonempty p.2 = true) known →
  (fold_left step rows (errors, known)).1 = [] ↔
  errors = [] ∧ Forall (λ r, own r = []) rows ∧ NoDup (omap key rows) ∧ ∀ k, k ∈ omap key rows → map_get known k = None.
Proof.
  revert errors known. induction rows as [|r rows IH]; intros errors known Hi Hk.
  { cbn. split; [|tauto]. intros ->. split_and!; [done|constructor|constructor|]. intros k Hin. by apply elem_of_nil in Hin. }
  apply Forall_cons in Hi as [Hr Hi]. cbn [fold_left]. rewrite Forall_cons. unfold check_row at 2. fold (own_fold r errors).
  assert (∀ k, Forall (λ p, nonempty p.2 = true) (map_set known k (ident r))) as Hset.
  { intros k. clear -Hr Hk. induction known as [|[j v] known IH]; cbn; [by constructor|]. apply Forall_cons in Hk as [? ?].
    destruct (decide _); constructor; auto. }
  destruct (key r) as [k|] eqn:Ek.
  - assert (omap key (r :: rows) = k :: omap key rows) as -> by (cbn; by rewrite Ek).
    rewrite NoDup_cons. setoid_rewrite elem_of_cons. destruct (map_get known k) as [i|] eqn:Ei.
    + assert (nonempty i = true) as ->.
      { clear -Ei Hk. induction known as [|[j v] known IH]; [done|]. apply Forall_cons in Hk as [? ?]. cbn in Ei.
        destruct (decide _); [by injection Ei as <-|auto]. }
      rewrite IH by done. split; [by intros [?%setError_ne _]|]. intros (_ & _ & _ & H). specialize (H k (or_introl eq_refl)). congruence.
    + rewrite IH by auto. rewrite own_fold_nil. setoid_rewrite map_get_set. split.
      * intros ((-> & Ho) & H1 & H2 & H3). split_and!; try done.
        -- intros Hin. specialize (H3 k Hin). by destruct (decide _).
        -- intros j [->|Hj]; [done|]. specialize (H3 j Hj). by destruct (decide _).
      * intros (-> & (Ho & H1) & (Hk' & H2) & H3). split_and!; try done. intros j Hj. destruct (decide _) as [->|]; [done|]. apply H3. by right.
  - assert (omap key (r :: rows) = omap key rows) as -> by (cbn; by rewrite Ek).
    rewrite IH by done. rewrite own_fold_nil. tauto.
Qed.

Lemma rows_fine rows : Forall (λ r, nonempty (ident r) = true) rows →
  check_rows ident own key duplicated rows = [] ↔ Forall (λ r, own r = []) rows ∧ NoDup (omap key rows).
Proof. intros H. unfold check_rows. rewrite rows_fine_from by (done || constructor). naive_solver. Qed.

(** The message of its own a row has at a field, the last one. *)
Definition own_at (row : A) (field : ErrorField) : option jsstr := map_get (fold_left (λ e p, map_set e p.1 p.2) (own row) []) field.

Lemma own_fold_at row errors j f : error_at (own_fold row errors) j f =
  if decide (j = ident row) then match own_at row f with Some m => Some m | None => error_at errors j f end else error_at errors j f.
Proof.
  unfold own_fold, own_at.
  assert (∀ ps e es, (∀ g, map_get e g = None ∨ error_at es (ident row) g = map_get e g) → 
    error_at (fold_left (λ e p, setError (ident row) p.1 p.2 e) ps es) j f =
    if decide (j = ident row) then match map_get (fold_left (λ e p, map_set e p.1 p.2) ps e) f with Some m => Some m | None => error_at es j f end
    else error_at es j f) as H.
  { induction ps as [|p ps IH]; intros e es He; cbn [fold_left].
    - destruct (decide (j = ident row)) as [->|]; [|done]. destruct (He f) as [->| <-]; [done|]. by destruct (error_at _ _ _).
    - rewrite (IH (map_set e p.1 p.2)).
      + rewrite error_at_set. destruct (decide (j = ident row)) as [->|Hj].
        * destruct (map_get (fold_left _ ps _) f) eqn:E; [done|]. destruct (decide _) as [[_ ->]|]; [|done]. exfalso. clear -E.
          assert (∀ qs (e : RowErrors), is_Some (map_get e p.1) → is_Some (map_get (fold_left (λ e p, map_set e p.1 p.2) qs e) p.1)) as H.
          { induction qs as [|q qs IH]; intros e0 He0; [done|]. cbn. apply IH. rewrite map_get_set. by destruct (decide _). }
          destruct (H ps (map_set e p.1 p.2)) as [x Hx]; [rewrite map_get_set; by destruct (decide _)|]. congruence.
        * destruct (decide _) as [[? _]|]; done.
      + intros g. rewrite map_get_set, error_at_set. destruct (decide (g = p.1)) as [->|].
        * right. by rewrite decide_True.
        * rewrite decide_False by tauto. apply He. }
  apply H. by left.
Qed.

(** Another row with the same key. *)
Definition twin (rows : list A) (row : A) : Prop :=
  ∃ other k, other ∈ rows ∧ ident other ≠ ident row ∧ key other = Some k ∧ key row = Some k.

(** What the loop knows after some rows. *)
Record loop_inv (rows : list A) (st : Errors * list (jsstr * jsstr)) : Prop := {
  li_known k i : map_get st.2 k = Some i → ∃ r, r ∈ rows ∧ ident r = i ∧ key r = Some k;
  li_keys r k : r ∈ rows → key r = Some k → is_Some (map_get st.2 k);
  li_own r f : r ∈ rows → f ≠ at_duplicate → error_at st.1 (ident r) f = own_at r f;
  li_twin r : r ∈ rows → (error_at st.1 (ident r) at_duplicate = Some duplicated ↔ twin rows r) ∧
    (error_at st.1 (ident r) at_duplicate = None ∨ error_at st.1 (ident r) at_duplicate = Some duplicated);
  li_other id f : id ∉ ident <$> rows → error_at st.1 id f = None;
}.

Lemma loop_start : loop_inv [] ([], []).
Proof. split; try done; intros r; intros; by exfalso; eapply elem_of_nil. Qed.

Lemma twin_old rows x r : r ∈ rows → ident r ≠ ident x → twin (rows ++ [x]) r ↔ twin rows r ∨ ∃ k, key r = Some k ∧ key x = Some k.
Proof.
  intros Hr Hx. unfold twin. split.
  - intros (o & k & [Ho|Ho%list_elem_of_singleton]%elem_of_app & H1 & H2 & H3); [left; eauto 10|subst; right; eauto].
  - intros [(o & k & Ho & H)|(k & H1 & H2)]; [exists o, k; rewrite elem_of_app; tauto|].
    exists x, k. rewrite elem_of_app, list_elem_of_singleton. auto.
Qed.

Lemma twin_new rows x : (∀ r, r ∈ rows → ident r ≠ ident x) → twin (rows ++ [x]) x ↔ ∃ r k, r ∈ rows ∧ key r = Some k ∧ key x = Some k.
Proof.
  intros Hx. unfold twin. split.
  - intros (o & k & [Ho|Ho%list_elem_of_singleton]%elem_of_app & H1 & H2 & H3); [eauto|by subst].
  - intros (r & k & Hr & H). exists r, k. rewrite elem_of_app. auto.
Qed.

Lemma ident_inj rows r o : NoDup (ident <$> rows) → r ∈ rows → o ∈ rows → ident r = ident o → r = o.
Proof.
  intros Hn (a & Ha)%list_elem_of_lookup_1 (b & Hb)%list_elem_of_lookup_1 E. enough (a = b) as -> by congruence.
  eapply NoDup_lookup; [exact Hn|..]; rewrite list_lookup_fmap; [by rewrite Ha|by rewrite Hb, E].
Qed.

Section Step.
Context (rows : list A) (errors : Errors) (known : list (jsstr * jsstr)) (x : A).
Context (Hinv : loop_inv rows (errors, known)) (Hn : NoDup (ident <$> rows ++ [x])) (Hx : nonempty (ident x) = true).
Context (Hne : Forall (λ r, nonempty (ident r) = true) rows) (Hod : Forall (λ r, own_at r at_duplicate = None) (rows ++ [x])).

Lemma step_new_id r : r ∈ rows → ident r ≠ ident x.
Proof.
  clear -Hn. rewrite fmap_app in Hn. apply NoDup_app in Hn as (_ & H & _). intros Hr E.
  apply (H (ident r)); [by apply list_elem_of_fmap_2|]. rewrite E. by apply list_elem_of_singleton.
Qed.

Lemma step_old r f : r ∈ rows → error_at (own_fold x errors) (ident r) f = error_at errors (ident r) f.
Proof. intros Hr. rewrite own_fold_at. by rewrite decide_False by by apply step_new_id. Qed.

Lemma step_own f : error_at (own_fold x errors) (ident x) f = own_at x f.
Proof.
  rewrite own_fold_at, decide_True by done. rewrite (li_other _ _ Hinv : ∀ i f, _ → error_at errors i f = None); [by destruct (own_at x f)|].
  intros (r & E & Hr)%list_elem_of_fmap. by apply (step_new_id r Hr).
Qed.

Lemma step_out i f : i ∉ ident <$> rows ++ [x] → error_at (own_fold x errors) i f = None ∧ i ≠ ident x ∧ i ∉ ident <$> rows.
Proof.
  rewrite fmap_app, elem_of_app. cbn [fmap list_fmap]. rewrite list_elem_of_singleton. intros Hi. rewrite own_fold_at.
  rewrite decide_False by tauto. split_and!; [apply (li_other _ _ Hinv)|..]; tauto.
Qed.

(** The row has no key, or a new one. *)
Lemma step_fresh known' : (∀ r k, r ∈ rows → key r = Some k → key x ≠ Some k) →
  (∀ k i, map_get known' k = Some i → ∃ r, r ∈ rows ++ [x] ∧ ident r = i ∧ key r = Some k) →
  (∀ r k, r ∈ rows ++ [x] → key r = Some k → is_Some (map_get known' k)) → loop_inv (rows ++ [x]) (own_fold x errors, known').
Proof.
  intros Hf H1 H2. rewrite Forall_app, Forall_singleton in Hod. split; [done|done|..]; cbn [fst snd].
  - intros r f [Hr|Hr%list_elem_of_singleton]%elem_of_app Hd; [rewrite step_old by done; by apply (li_own _ _ Hinv)|subst; apply step_own].
  - intros r [Hr|Hr%list_elem_of_singleton]%elem_of_app.
    + rewrite twin_old by auto using step_new_id. rewrite step_old by done. destruct (li_twin _ _ Hinv r Hr) as [Ht Hc]. split; [|done].
      cbn [fst] in Ht. rewrite Ht. split; [by left|]. intros [?|(k & E1 & E2)]; [done|]. by destruct (Hf r k).
    + subst. rewrite twin_new by apply step_new_id. rewrite step_own. destruct Hod as [_ ->]. split; [|by left].
      split; [done|]. intros (r & k & Hr & E1 & E2). by destruct (Hf r k).
  - intros i f Hi. by apply step_out.
Qed.

(** The key of the row is known from [r0]. *)
Lemma step_known r0 k : map_get known k = Some (ident r0) → r0 ∈ rows → key r0 = Some k → key x = Some k →
  loop_inv (rows ++ [x])
    (setError (ident x) at_duplicate duplicated (setError (ident r0) at_duplicate duplicated (own_fold x errors)), known).
Proof.
  intros Hk Hr0 E0 Ex. split; cbn [fst snd].
  - intros k' i' (r & Hr & E)%(li_known _ _ Hinv). exists r. rewrite elem_of_app. tauto.
  - intros r k' [Hr|Hr%list_elem_of_singleton]%elem_of_app E; [by eapply (li_keys _ _ Hinv)|]. subst. assert (k' = k) as -> by congruence. eauto.
  - intros r f Hr Hf. rewrite !error_at_set. do 2 rewrite decide_False by tauto. apply elem_of_app in Hr as [Hr|Hr%list_elem_of_singleton].
    + rewrite step_old by done. by apply (li_own _ _ Hinv).
    + subst. apply step_own.
  - intros r [Hr|Hr%list_elem_of_singleton]%elem_of_app.
    + rewrite twin_old by auto using step_new_id. rewrite !error_at_set. rewrite decide_False by (intros [? _]; by apply (step_new_id r Hr)).
      destruct (decide (ident r = ident r0 ∧ _)) as [[E _]|Hne0].
      * split; [|by right]. split; [intros _|done]. right. exists k. split; [|done]. rewrite fmap_app in Hn. apply NoDup_app in Hn as (Hn' & _).
        by rewrite (ident_inj rows r r0).
      * rewrite step_old by done. destruct (li_twin _ _ Hinv r Hr) as [Ht Hc]. split; [|done]. cbn [fst] in Ht. rewrite Ht. split; [by left|].
        intros [?|(k' & E1 & E2)]; [done|]. assert (k' = k) as -> by congruence. exists r0, k. split_and!; try done. intros E. apply Hne0. by rewrite E.
    + subst. rewrite twin_new by apply step_new_id. rewrite error_at_set, decide_True by done. split; [|by right]. split; [intros _; eauto|done].
  - intros i f Hi. destruct (step_out i f Hi) as (Hh & Hi1 & Hi2). rewrite !error_at_set. rewrite decide_False by tauto.
    rewrite decide_False; [done|]. intros [-> _]. apply Hi2. by apply list_elem_of_fmap_2.
Qed.

Lemma loop_step : loop_inv (rows ++ [x]) (step (errors, known) x).
Proof.
  unfold check_row. fold (own_fold x errors). destruct (key x) as [k|] eqn:Ek.
  - destruct (map_get known k) as [i|] eqn:Ei.
    + destruct (li_known _ _ Hinv k i Ei) as (r0 & Hr0 & <- & Ek0). rewrite (proj1 (Forall_forall _ _) Hne r0 Hr0). by eapply step_known.
    + assert (∀ r k', r ∈ rows → key r = Some k' → k' ≠ k) as Hf.
      { intros r k' Hr E ->. destruct (li_keys _ _ Hinv r k Hr E) as [v Ev]. cbn in Ev. congruence. }
      apply step_fresh.
      * intros r k' Hr E. rewrite Ek. intros [= <-]. by apply (Hf r k).
      * intros k' i. rewrite map_get_set. destruct (decide _) as [->|]; [intros [= <-]; exists x; rewrite elem_of_app, list_elem_of_singleton; auto|].
        intros (r & Hr & E)%(li_known _ _ Hinv). exists r. rewrite elem_of_app. tauto.
      * intros r k' Hr E. rewrite map_get_set. destruct (decide _); [done|].
        apply elem_of_app in Hr as [Hr|Hr%list_elem_of_singleton]; [by apply (li_keys _ _ Hinv r)|]. subst. congruence.
  - apply step_fresh; [intros; congruence|..].
    + intros k' i (r & Hr & E)%(li_known _ _ Hinv). exists r. rewrite elem_of_app. tauto.
    + intros r k' [Hr|Hr%list_elem_of_singleton]%elem_of_app E; [by apply (li_keys _ _ Hinv r)|]. subst. congruence.
Qed.
End Step.

(** The errors of a table: each row has its own, and is marked as duplicated
    exactly when another row has its key. *)
Lemma rows_exact rows : NoDup (ident <$> rows) → Forall (λ r, nonempty (ident r) = true) rows → Forall (λ r, own_at r at_duplicate = None) rows →
  let errors := check_rows ident own key duplicated rows in
  (∀ r f, r ∈ rows → f ≠ at_duplicate → error_at errors (ident r) f = own_at r f) ∧
  (∀ r, r ∈ rows → error_at errors (ident r) at_duplicate = None ↔ ¬ twin rows r).
Proof.
  intros Hn Hi Ho. enough (loop_inv rows (fold_left step rows ([], []))) as H.
  { split; [intros; by apply (li_own _ _ H)|]. intros r Hr. destruct (li_twin _ _ H r Hr) as [<- [E|E]]; unfold check_rows; by rewrite E. }
  induction rows as [|x rows IH] using rev_ind; [apply loop_start|]. rewrite fold_left_app. cbn [fold_left].
  pose proof Hi as Hi'. pose proof Ho as Ho'. apply Forall_app in Hi' as [Hi1 Hi2%Forall_singleton]. apply Forall_app in Ho' as [Ho1 _].
  pose proof Hn as Hn'. rewrite fmap_app in Hn'. apply NoDup_app in Hn' as (Hn1 & _).
  specialize (IH Hn1 Hi1 Ho1). destruct (fold_left step rows ([], [])) as [errors known]. by apply loop_step.
Qed.
End RowFacts.

(** ** Names *)

Lemma replace_char_map c d s : replace_char c [d] s = (λ x, if (x =? c)%N then d else x) <$> s.
Proof. unfold replace_char. induction s as [|x s IH]; [done|]. cbn. rewrite IH. by destruct (x =? c)%N. Qed.

Lemma replace_char_trimmed c d s : is_ws d = false → trimmed s = true → trimmed (replace_char c [d] s) = true.
Proof.
  intros Hd. rewrite replace_char_map. unfold trimmed. rewrite fmap_last. destruct s as [|x s]; [done|]. cbn [fmap list_fmap head].
  destruct (last (x :: s)) as [y|]; cbn [option_fmap option_map fmap]; [|done].
  destruct (x =? c)%N, (y =? c)%N; rewrite ?Hd; cbn; rewrite ?andb_true_r, ?andb_false_r; try done; by destruct (is_ws x), (is_ws y).
Qed.

Section Names.
Context (lower : jsstr → jsstr) `{!LowerCase lower}.

Lemma lower_nil : lower [] = [].
Proof. by apply (lower_ascii (lower := lower)). Qed.

Lemma lower_trim_nonempty v : nonempty (lower (trim v)) = nonempty (trim v).
Proof. destruct (trim v) as [|c s]; [by rewrite lower_nil|]. destruct (lower (c :: s)) eqn:E; [by apply lower_empty in E|done]. Qed.

Lemma quality_idem v : normalizeModelPriceVariantQuality lower (normalizeModelPriceVariantQuality lower v) = normalizeModelPriceVariantQuality lower v.
Proof. unfold normalizeModelPriceVariantQuality. by rewrite lower_trim_normal, lower_idemp. Qed.

Lemma resolution_nonempty v : nonempty (normalizeModelPriceVariantResolution lower v) = nonempty (trim v).
Proof.
  unfold normalizeModelPriceVariantResolution. rewrite <- lower_trim_nonempty. generalize (lower (trim v)). intros s. unfold resolution_alias.
  repeat case_bool_decide; subst; try (by destruct s; [set_solver|]).
  destruct (str_eqb s "2k") eqn:E; [by apply str_eqb_spec in E as ->|]. destruct (str_eqb s "4k") eqn:E'; [by apply str_eqb_spec in E' as ->|done].
Qed.

Lemma formula_name_nonempty v : nonempty (normalizeModelPriceFormulaName lower v) = nonempty (trim v).
Proof.
  unfold normalizeModelPriceFormulaName. rewrite !replace_char_map. rewrite <- lower_trim_nonempty. by destruct (lower (trim v)).
Qed.

Lemma formula_name_again v : nonempty (normalizeModelPriceFormulaName lower (normalizeModelPriceFormulaName lower v)) = nonempty (normalizeModelPriceFormulaName lower v).
Proof.
  rewrite formula_name_nonempty. rewrite trim_id; [done|]. apply replace_char_trimmed; [done|]. apply replace_char_trimmed; [done|].
  apply lower_trimmed, trim_trimmed.
Qed.
End Names.

(** ** Drafts without errors *)

(** A text that is a finite number. *)
Definition fine_number (signed : bool) (text : jsstr) : Prop :=
  trim text ≠ [] ∧ is_finite (Number_of_string text) = true ∧ (signed = false → num_ltb (Number_of_string text) (of_Z 0) = false).

Lemma if_nil {A} (b : bool) (x : A) : (if b then [x] else []) = [] ↔ b = false.
Proof. by destruct b. Qed.

Lemma if_nil' {A} (b : bool) (x : A) : (if b then [] else [x]) = [] ↔ b = true.
Proof. by destruct b. Qed.

Lemma app_nil_iff {A} (l k : list A) : l ++ k = [] ↔ l = [] ∧ k = [].
Proof. destruct l; cbn; naive_solver. Qed.

Lemma number_errors_nil t field text missing wrong signed : number_errors t field text missing wrong signed = [] ↔ fine_number signed text.
Proof.
  unfold number_errors, fine_number. destruct (trim text); cbn; [by split; [|intros []]|]. destruct (is_finite _); cbn; [|by split; [|intros (_ & ? & _)]].
  destruct signed; cbn; [by split|]. destruct (num_ltb _ _); [|by split]. split; [done|]. intros (_ & _ & H). by discriminate H.
Qed.

(** All rows of a draft have identifiers. *)
Definition ids_ok (d : PriceVariantDraft) : Prop :=
  Forall (λ r, nonempty (rule_id r) = true) (draft_rules d) ∧ Forall (λ r, nonempty (extra_id r) = true) (extraParams d) ∧
  Forall (λ r, nonempty (item_id r) = true) (variables (formula d)) ∧ Forall (λ r, nonempty (item_id r) = true) (defaults (formula d)).

Section Drafts.
Context (lower : jsstr → jsstr) `{!LowerCase lower}.

(** The specification a rule stands for. *)
Definition combination (re qe : bool) (r : PriceVariantRuleDraft) : jsstr :=
  getModelPriceVariantCombinationKey lower (if re then rule_resolution_text r else []) (if qe then rule_quality_text r else []).

Record fine_draft (d : PriceVariantDraft) (modelName : jsstr) : Prop := {
  fd_rules :
    let re := resolutionEnabled d in
    let qe := quality_on lower d modelName in
    re || qe = true →
    draft_rules d ≠ [] ∧ NoDup (combination re qe <$> draft_rules d) ∧
    Forall (λ r, (re = true → trim (rule_resolution_text r) ≠ []) ∧ (qe = true → trim (rule_quality_text r) ≠ []) ∧
                 fine_number false (rule_price_text r)) (draft_rules d);
  fd_extra :
    NoDup ((λ r, normalizeModelPriceExtraParamKey lower (extra_key r)) <$> extraParams d) ∧
    Forall (λ r, normalizeModelPriceExtraParamKey lower (extra_key r) ≠ [] ∧ fine_number false (extra_unitPrice r) ∧
                 (trim (extra_base r) ≠ [] → fine_number false (extra_base r))) (extraParams d);
  fd_expression : formula_enabled (formula d) = true → trim (expression (formula d)) ≠ [];
  fd_variables :
    NoDup ((λ v, normalizeModelPriceFormulaName lower (item_key v)) <$> variables (formula d)) ∧
    Forall (λ v, normalizeModelPriceFormulaName lower (item_key v) ≠ [] ∧ fine_number true (item_value v)) (variables (formula d));
  fd_defaults :
    NoDup ((λ v, normalizeModelPriceFormulaName lower (item_key v)) <$> defaults (formula d)) ∧
    Forall (λ v, normalizeModelPriceFormulaName lower (item_key v) ≠ []) (defaults (formula d));
}.

Lemma combination_trim (re qe : bool) r :
  getModelPriceVariantCombinationKey lower (if re then trim (rule_resolution_text r) else []) (if qe then trim (rule_quality_text r) else []) =
  combination re qe r.
Proof.
  unfold combination, getModelPriceVariantCombinationKey, normalizeModelPriceVariantResolution, normalizeModelPriceVariantQuality.
  destruct re, qe; by rewrite ?trim_idemp.
Qed.

(** Keys that are all there. *)
Lemma omap_some {A} (f : A → option jsstr) (g : A → jsstr) l : Forall (λ x, f x = Some (g x)) l → omap f l = g <$> l.
Proof. induction 1 as [|x l Hx _ IH]; [done|]. cbn. by rewrite Hx, IH. Qed.

Lemma named_rows {A} (ident : A → jsstr) own (name : A → jsstr) dup (P : A → Prop) rows : Forall (λ r, nonempty (ident r) = true) rows →
  (∀ r, own r = [] ↔ name r ≠ [] ∧ P r) →
  check_rows ident own (λ r, some_key (name r)) dup rows = [] ↔ NoDup (name <$> rows) ∧ Forall (λ r, name r ≠ [] ∧ P r) rows.
Proof.
  intros Hi Ho. rewrite rows_fine by done. setoid_rewrite Ho.
  assert (Forall (λ r, name r ≠ [] ∧ P r) rows → omap (λ r, some_key (name r)) rows = name <$> rows) as Hk.
  { intros H. apply omap_some. eapply Forall_impl; [exact H|]. intros r [Hr _]. unfold some_key. by apply nonempty_spec in Hr as ->. }
  split; intros [H1 H2]; split; try done; [by rewrite <- Hk|by rewrite Hk].
Qed.

Section Messages.
Context (t : jsstr → jsstr).

Lemma rule_rows_fine (re qe : bool) rules : Forall (λ r, nonempty (rule_id r) = true) rules →
  check_rows rule_id (own_rule_errors t re qe) (rule_key lower re qe) (t "This specification combination is duplicated.") rules = [] ↔
  NoDup (combination re qe <$> rules) ∧
  Forall (λ r, (re = true → trim (rule_resolution_text r) ≠ []) ∧ (qe = true → trim (rule_quality_text r) ≠ []) ∧
               fine_number false (rule_price_text r)) rules.
Proof.
  intros Hi. rewrite rows_fine by done.
  assert (∀ r, own_rule_errors t re qe r = [] ↔ (re = true → trim (rule_resolution_text r) ≠ []) ∧
    (qe = true → trim (rule_quality_text r) ≠ []) ∧ fine_number false (rule_price_text r)) as Ho.
  { intros r. unfold own_rule_errors, RowErrors. rewrite !app_nil_iff, number_errors_nil, !if_nil, <- !nonempty_spec, <- !implb_false. done. }
  setoid_rewrite Ho.
  assert (Forall (λ r, (re = true → trim (rule_resolution_text r) ≠ []) ∧ (qe = true → trim (rule_quality_text r) ≠ []) ∧
      fine_number false (rule_price_text r)) rules → omap (rule_key lower re qe) rules = combination re qe <$> rules) as Hk.
  { intros H. apply omap_some. eapply Forall_impl; [exact H|]. intros r (Hr & Hq & _). unfold rule_key.
    assert ((negb re || nonempty (trim (rule_resolution_text r))) && (negb qe || nonempty (trim (rule_quality_text r))) = true) as ->.
    { apply andb_true_iff. split; [destruct re|destruct qe]; try done; apply nonempty_spec; auto. }
    by rewrite combination_trim. }
  split; intros [H1 H2]; split; try done; [by rewrite <- Hk|by rewrite Hk].
Qed.

Lemma length_zero {A} (l : list A) : (length l =? 0)%nat = true ↔ l = [].
Proof. by destruct l. Qed.

(** The check accepts exactly the fine drafts. *)
Lemma draft_check d modelName : nonempty (t "Formula expression is required.") = true → ids_ok d →
  valid (validatePriceVariantDraft lower t d modelName) = true ↔ restoreInherited d = true ∨ fine_draft d modelName.
Proof.
  intros Ht (I1 & I2 & I3 & I4). unfold validatePriceVariantDraft. destruct (restoreInherited d); [by split; [left|]|].
  destruct ((resolutionEnabled d || quality_on lower d modelName) && (length (draft_rules d) =? 0)%nat) eqn:E0.
  { cbn. split; [done|]. intros [|[H _ _ _ _]]; [done|]. apply andb_true_iff in E0 as [E1 E2]. destruct (H E1) as [Hne _]. by apply length_zero in E2. }
  cbn [valid]. rewrite !andb_true_iff, !length_zero, negb_true_iff.
  rewrite (named_rows extra_id _ _ _ (λ r, fine_number false (extra_unitPrice r) ∧ (trim (extra_base r) ≠ [] → fine_number false (extra_base r)))); [|done|].
  2:{ intros r. unfold own_extra_errors, RowErrors. rewrite !app_nil_iff, !number_errors_nil, if_nil', nonempty_spec.
      destruct (nonempty (trim (extra_base r))) eqn:Eb; rewrite ?number_errors_nil.
      - apply nonempty_spec in Eb. naive_solver.
      - apply not_true_iff_false in Eb. rewrite nonempty_spec in Eb. naive_solver. }
  rewrite (named_rows item_id _ _ _ (λ v, fine_number true (item_value v))); [|done|].
  2:{ intros r. unfold own_variable_errors, RowErrors. by rewrite app_nil_iff, number_errors_nil, if_nil', nonempty_spec. }
  rewrite (named_rows item_id _ _ _ (λ v, True)); [|done|].
  2:{ intros r. unfold own_default_errors, RowErrors. rewrite if_nil', nonempty_spec. tauto. }
  assert (from_option nonempty false (if formula_enabled (formula d) && negb (nonempty (trim (expression (formula d))))
    then Some (t "Formula expression is required.") else None) = false ↔ (formula_enabled (formula d) = true → trim (expression (formula d)) ≠ [])) as ->.
  { rewrite <- nonempty_spec, implb_false. destruct (formula_enabled _ && _); cbn; by rewrite ?Ht. }
  assert (∀ P Q : FormulaItemDraft → Prop, (∀ v, P v ↔ Q v) → ∀ l, Forall P l ↔ Forall Q l) as HF by (intros P Q H l; split; intros Hl; (eapply Forall_impl; [exact Hl|]); intros v; apply H).
  rewrite (HF (λ r, normalizeModelPriceFormulaName lower (item_key r) ≠ [] ∧ True) (λ r, normalizeModelPriceFormulaName lower (item_key r) ≠ [])) by (intros; tauto).
  destruct (resolutionEnabled d || quality_on lower d modelName) eqn:E1; [rewrite rule_rows_fine by done|]; split.
  - intros ((((Hr & He) & Hx) & Hv) & Hd). right. split; try done. cbv zeta. intros _. split; [|done]. intros E. by rewrite E in E0.
  - intros [|[H ? ? ? ?]]; [done|]. destruct (H E1) as [_ ?]. tauto.
  - intros ((((_ & He) & Hx) & Hv) & Hd). right. split; try done. cbv zeta. congruence.
  - intros [|[_ ? ? ? ?]]; [done|]. tauto.
Qed.
End Messages.

(** ** The configuration of a fine draft *)

Lemma built_props d modelName c : buildPriceVariantConfig lower d modelName = VObj c →
  let qe := quality_on lower d modelName in
  let p := prop (VObj c) in
  p "resolution_enabled"%js = VBool (resolutionEnabled d) ∧ p "quality_enabled"%js = VBool qe ∧ p "inherited"%js = VBool (inherited d) ∧
  p "rules"%js = (if resolutionEnabled d || qe then VArr (rule_config lower d qe <$> draft_rules d) else VUndef) ∧
  p "extra_params"%js = match extraParams d with [] => VUndef | xs => VArr (extra_config lower <$> xs) end ∧
  p "formula"%js = if formula_filled (formula d) then formula_config lower (formula d) else VUndef.
Proof.
  unfold buildPriceVariantConfig. destruct (restoreInherited d); [done|]. destruct (unconfigured lower d modelName); [done|].
  intros [= <-]. cbv zeta. destruct (_ || _), (extraParams d), (formula_filled _); cbn [app prop obj_get]; str_eval; cbn [from_option id]; done.
Qed.

Lemma fine_price text : fine_number false text → is_price (VNum (Number_of_string text)) = true.
Proof.
  intros (_ & Hf & Hp). specialize (Hp eq_refl). cbn. rewrite Hf. cbn. generalize dependent (Number_of_string text). intros x Hf Hp.
  rewrite num_ltb_leb in Hp by by (done || apply finite_not_nan). by apply negb_false_iff in Hp.
Qed.

Lemma rule_config_fine d qe r : fine_number false (rule_price_text r) → isModelPriceVariantRule (rule_config lower d qe r) = true.
Proof.
  intros Hp%fine_price. unfold isModelPriceVariantRule, rule_config. rewrite !andb_true_iff.
  destruct (resolutionEnabled d), qe; cbn [app isRecord prop obj_get]; str_eval; cbn [from_option id]; done.
Qed.

Lemma rule_config_spec d (qe : bool) r :
  rule_resolution lower (resolutionEnabled d) (rule_config lower d qe r) =
    normalizeModelPriceVariantResolution lower (if resolutionEnabled d then rule_resolution_text r else []) ∧
  rule_quality lower qe (rule_config lower d qe r) = normalizeModelPriceVariantQuality lower (if qe then rule_quality_text r else []).
Proof.
  assert (normalizeModelPriceVariantResolution lower [] = [] ∧ normalizeModelPriceVariantQuality lower [] = []) as [E1 E2].
  { unfold normalizeModelPriceVariantResolution, normalizeModelPriceVariantQuality. change (trim []) with ([] : jsstr).
    by rewrite lower_nil. }
  destruct (normalize_names_stable lower (rule_resolution_text r)) as (Hr & _).
  unfold rule_resolution, rule_quality, rule_config.
  destruct (resolutionEnabled d), qe; cbn [app prop obj_get]; str_eval; cbn [from_option id text_or_empty]; split; try done;
    destruct (inherited d); rewrite ?Hr, ?quality_idem; done.
Qed.

Lemma extra_config_fine r : normalizeModelPriceExtraParamKey lower (extra_key r) ≠ [] → fine_number false (extra_unitPrice r) →
  (trim (extra_base r) ≠ [] → fine_number false (extra_base r)) → isModelPriceExtraParamRule lower (extra_config lower r) = true.
Proof.
  intros Hk Hp%fine_price Hb. unfold isModelPriceExtraParamRule, extra_config.
  assert (nonempty (normalizeModelPriceExtraParamKey lower (normalizeModelPriceExtraParamKey lower (extra_key r))) = true) as Hkk.
  { unfold normalizeModelPriceExtraParamKey in *. rewrite lower_trim_normal, lower_idemp. by apply nonempty_spec. }
  destruct (nonempty (trim (extra_base r))) eqn:E; cbn [app isRecord prop obj_get]; str_eval; cbn [from_option id]; rewrite Hkk, Hp; [|done].
  apply nonempty_spec in E. apply Hb in E as E%fine_price. unfold optional. by rewrite E.
Qed.

Lemma fromEntries_Forall (P : jsstr → Prop) (Q : value → Prop) es : Forall (λ p, P p.1 ∧ Q p.2) es → Forall (λ p, P p.1 ∧ Q p.2) (fromEntries es).
Proof.
  unfold fromEntries. assert (∀ es fs, Forall (λ p, P p.1 ∧ Q p.2) es → Forall (λ p, P p.1 ∧ Q p.2) fs →
    Forall (λ p, P p.1 ∧ Q p.2) (fold_left (λ fs p, obj_set fs p.1 p.2) es fs)) as H; [|by intros ?; apply H].
  clear es. induction es as [|[k v] es IH]; intros fs He Hf; [done|]. apply Forall_cons in He as [[Hk Hv] He]. cbn in *. apply IH; [done|].
  unfold obj_set. destruct (obj_get fs k); [|rewrite obj_insert_perm; by constructor].
  clear -Hf Hk Hv. induction Hf as [|[i w] fs Hw H IH]; cbn; [constructor|]. destruct Hw, (str_eqb k i); by repeat constructor.
Qed.

Lemma named_fine test (g : FormulaItemDraft → value) items :
  Forall (λ v, normalizeModelPriceFormulaName lower (item_key v) ≠ [] ∧ test (g v) = true) items →
  let fs := fromEntries ((λ v, (normalizeModelPriceFormulaName lower (item_key v), g v)) <$> items) in named_entries lower test (VObj fs) = true.
Proof.
  intros H. cbn. apply forallb_True'. eapply Forall_impl.
  - apply (fromEntries_Forall (λ k, nonempty (normalizeModelPriceFormulaName lower k) = true) (λ v, test v = true)).
    apply Forall_fmap. eapply Forall_impl; [exact H|]. intros v [Hv Ht]. cbn. rewrite formula_name_again by done. by split; [apply nonempty_spec|].
  - intros p [H1 H2]. by rewrite H1, H2.
Qed.

Lemma formula_shape (enabled : bool) expr (vars defs : obj) : enabled && negb (nonempty (trim expr)) = false →
  named_entries lower is_finite_number (VObj vars) = true → named_entries lower is_string (VObj defs) = true →
  isModelPriceFormulaConfig lower
    (VObj ([("enabled"%js, VBool enabled)] ++ (if nonempty (trim expr) then [("expression"%js, VStr (trim expr))] else []) ++
           (match vars with [] => [] | _ => [("variables"%js, VObj vars)] end) ++
           (match defs with [] => [] | _ => [("defaults"%js, VObj defs)] end))) = true.
Proof.
  intros Hc Nv Nd. unfold isModelPriceFormulaConfig. rewrite !andb_true_iff.
  destruct (nonempty (trim expr)) eqn:E; destruct vars as [|v vars], defs as [|w defs];
    cbn [app isRecord prop obj_get]; str_eval; cbn [from_option id text_or_empty truthy]; change (trim []) with ([] : jsstr);
    rewrite ?trim_idemp, ?E; split_and!; try done; cbn [nonempty]; by rewrite Hc.
Qed.

Lemma formula_config_fine f : (formula_enabled f = true → trim (expression f) ≠ []) →
  Forall (λ v, normalizeModelPriceFormulaName lower (item_key v) ≠ [] ∧ fine_number true (item_value v)) (variables f) →
  Forall (λ v, normalizeModelPriceFormulaName lower (item_key v) ≠ []) (defaults f) →
  isModelPriceFormulaConfig lower (formula_config lower f) = true.
Proof.
  intros He Hv Hd. apply formula_shape.
  - apply implb_false. by rewrite nonempty_spec.
  - apply (named_fine is_finite_number (λ v, VNum (Number_of_string (item_value v)))). eapply Forall_impl; [exact Hv|]. by intros v (? & _ & ? & _).
  - apply (named_fine is_string (λ d, VStr (trim (item_value d)))). eapply Forall_impl; [exact Hd|]. done.
Qed.

Lemma build_cases d modelName : buildPriceVariantConfig lower d modelName = VNull ∧ restoreInherited d = true ∨
  buildPriceVariantConfig lower d modelName = VUndef ∨ ∃ c, buildPriceVariantConfig lower d modelName = VObj c.
Proof. unfold buildPriceVariantConfig. destruct (restoreInherited d); [by left|]. destruct (unconfigured _ _ _); eauto. Qed.

(** The configuration of a fine draft is one the guard accepts. *)
Lemma built_valid d modelName c : fine_draft d modelName → buildPriceVariantConfig lower d modelName = VObj c →
  isModelPriceVariantConfig lower (VObj c) = true.
Proof.
  intros [Hr [Hx1 Hx2] He [_ Hv] [_ Hd]] Hb. destruct (built_props _ _ _ Hb) as (P1 & P2 & P3 & P4 & P5 & P6). cbv zeta in *.
  apply config_spec. split; rewrite ?P1, ?P2, ?P3, ?P4, ?P5, ?P6; eauto; cbn [truthy].
  - destruct (_ || _); eauto.
  - destruct (extraParams d); eauto.
  - destruct (formula_filled _); [right; by apply formula_config_fine|by left].
  - destruct (_ || _) eqn:E; [|constructor]. destruct (Hr eq_refl) as (_ & _ & H). apply Forall_fmap. eapply Forall_impl; [exact H|].
    intros r (_ & _ & Hp). by apply rule_config_fine.
  - destruct (extraParams d) as [|x xs]; [constructor|]. cbn [array_or_empty]. apply Forall_fmap. eapply Forall_impl; [exact Hx2|].
    intros r (H1 & H2 & H3). by apply extra_config_fine.
  - replace (extra_param_key lower <$> _) with ((λ r, normalizeModelPriceExtraParamKey lower (extra_key r)) <$> extraParams d); [done|].
    destruct (extraParams d) as [|x xs]; [done|]. cbn [array_or_empty]. rewrite <- list_fmap_compose. apply list_fmap_ext. intros _ r _.
    unfold compose, extra_param_key, extra_config. cbn [app prop obj_get]. str_eval. cbn [from_option id text_or_empty].
    unfold normalizeModelPriceExtraParamKey. by rewrite lower_trim_normal, lower_idemp.
  - intros E. rewrite E. destruct (Hr E) as (H1 & H2 & H3). cbn [array_or_empty]. split_and!.
    + by destruct (draft_rules d).
    + apply Forall_fmap. eapply Forall_impl; [exact H3|]. intros r (F1 & F2 & _). unfold rule_filled, compose.
      destruct (rule_config_spec d (quality_on lower d modelName) r) as [-> ->]. split; intros Ht; rewrite Ht.
      * apply nonempty_spec. rewrite resolution_nonempty by done. apply nonempty_spec. auto.
      * apply nonempty_spec. unfold normalizeModelPriceVariantQuality. rewrite lower_trim_nonempty by done. apply nonempty_spec. auto.
    + rewrite <- list_fmap_compose. erewrite list_fmap_ext; [exact H2|]. intros _ r _. unfold compose, rule_combination.
      by destruct (rule_config_spec d (quality_on lower d modelName) r) as [-> ->].
Qed.
End Drafts.
End PriceSheetFacts.
