(* ===== verification/PriceSheetLifecycle.v ===== *)
(** * The price sheet over time

    Invariants of the sheets that can be reached by editing: the rows of a draft
    have identifiers of their own, so that the errors of a row are exactly its
    own; the ratios are the quotients of the lane prices; and what submitting a
    sheet leaves in the table. *)

From Stdlib Require Import SpecFloat.
From S2P Require Import Prelude JsString JsRegExp JsNumber JsInteger JsIntegerText JsValue JsObject JsonRoundTrip JsMap BillingExpr PriceVariants PriceTable PriceTableFacts PriceFormat PriceSheet PriceSheetFacts.

Module PriceSheetLifecycle.
Import BillingExpr PriceVariants PriceTable PriceTableFacts PriceFormat PriceSheet PriceSheetFacts.

(** ** Identifiers *)

(** Identifiers with a prefix and distinct numbers up to a bound. *)
Definition issued (prefix : jsstr) (bound : Z) (ids : list jsstr) : Prop :=
  NoDup ids ∧ Forall (λ i, ∃ n, (0 < n <= bound)%Z ∧ i = prefix ++ Z_to_string n) ids.

Lemma Z_to_string_inj a b : (0 <= a)%Z → (0 <= b)%Z → Z_to_string a = Z_to_string b → a = b.
Proof.
  intros Ha Hb. unfold Z_to_string. rewrite !(proj2 (Z.ltb_ge _ _)) by done. intros E.
  by rewrite <- (digits_val_Z_digits a), <- (digits_val_Z_digits b), E.
Qed.

Lemma issued_nil prefix b : issued prefix b [].
Proof. split; constructor. Qed.

Lemma issued_mono prefix b b' ids : (b <= b')%Z → issued prefix b ids → issued prefix b' ids.
Proof. intros Hb [Hn H]. split; [done|]. eapply Forall_impl; [exact H|]. intros i (n & Hn' & ->). exists n. split; [lia|done]. Qed.

Lemma issued_next prefix b ids : (0 <= b)%Z → issued prefix b ids → (prefix ++ Z_to_string (b + 1)) ∉ ids.
Proof.
  intros Hb [_ H] Hin. rewrite Forall_forall in H. destruct (H _ Hin) as (n & Hn & E). apply app_inv_head, Z_to_string_inj in E; lia.
Qed.

Lemma issued_snoc prefix b ids : (0 <= b)%Z → issued prefix b ids → issued prefix (b + 1) (ids ++ [prefix ++ Z_to_string (b + 1)]).
Proof.
  intros Hb Hi. pose proof (issued_next _ _ _ Hb Hi) as Hnew. destruct (issued_mono prefix b (b + 1) ids) as [Hn H]; [lia|done|]. split.
  - apply NoDup_app. split; [done|]. split; [|apply NoDup_singleton]. intros i Hin ->%list_elem_of_singleton. done.
  - apply Forall_app. split; [done|]. apply Forall_singleton. exists (b + 1)%Z. split; [lia|done].
Qed.

Lemma issued_sub prefix b ids ids' : issued prefix b ids → NoDup ids' → (∀ i, i ∈ ids' → i ∈ ids) → issued prefix b ids'.
Proof. intros [_ H] Hn Hs. split; [done|]. rewrite Forall_forall in *. auto. Qed.

Lemma issued_nonempty p prefix b ids : issued (p :: prefix) b ids → Forall (λ i, nonempty i = true) ids.
Proof. intros [_ H]. eapply Forall_impl; [exact H|]. by intros i (n & _ & ->). Qed.

Lemma remove_ids {A} (ident : A → jsstr) i rows prefix b : issued prefix b (ident <$> rows) → issued prefix b (ident <$> remove_row ident i rows).
Proof.
  intros H. eapply issued_sub; [exact H|..].
  - destruct H as [Hn _]. unfold remove_row. induction rows as [|r rows IH]; [done|]. cbn in *. apply NoDup_cons in Hn as [Hr Hn].
    destruct (negb _); [|by apply IH]. cbn. constructor; [|by apply IH]. intros (o & E & [Ho _]%elem_of_lfilter)%list_elem_of_fmap.
    apply Hr. rewrite E. by apply list_elem_of_fmap_2.
  - intros j (o & -> & [Ho _]%elem_of_lfilter)%list_elem_of_fmap. by apply list_elem_of_fmap_2.
Qed.

Lemma edit_ids {A} (ident : A → jsstr) i edit rows : (∀ r, ident (edit r) = ident r) → ident <$> edit_row ident i edit rows = ident <$> rows.
Proof. intros H. unfold edit_row. rewrite <- list_fmap_compose. apply list_fmap_ext. intros _ r _. unfold compose. by destruct (str_eqb _ _). Qed.

(** The counter of a kind of rows. *)
Record counter (create : Sequences → jsstr * Sequences) (count : Sequences → Z) (prefix : jsstr) : Prop := {
  ct_id q : (create q).1 = prefix ++ Z_to_string (count q + 1);
  ct_next q : count (create q).2 = (count q + 1)%Z;
}.

(** Identifiers that were issued one after another. *)
Lemma with_ids_issued {A B} create count prefix (f : jsstr → A → B) (ident : B → jsstr) l q ids :
  counter create count prefix → (∀ i x, ident (f i x) = i) → (0 <= count q)%Z → issued prefix (count q) ids →
  issued prefix (count (with_ids create f l q).2) (ids ++ (ident <$> (with_ids create f l q).1)) ∧ (count q <= count (with_ids create f l q).2)%Z.
Proof.
  intros Hc Hf. revert q ids. induction l as [|x l IH]; intros q ids Hq Hi; cbn [with_ids].
  { cbn. rewrite app_nil_r. split; [done|lia]. }
  pose proof (ct_id _ _ _ Hc q) as H1. pose proof (ct_next _ _ _ Hc q) as H2. destruct (create q) as [i q1]. cbn [fst snd] in H1, H2. subst i.
  specialize (IH q1 (ids ++ [prefix ++ Z_to_string (count q + 1)])). destruct (with_ids create f l q1) as [ys q2]. cbn [fst snd fmap list_fmap] in *.
  rewrite Hf. rewrite H2 in IH. rewrite <- app_assoc in IH. destruct IH as [IH1 IH2]; [lia|by apply issued_snoc|]. split; [done|lia].
Qed.

Lemma with_ids_keeps {A B} create (count : Sequences → Z) (f : jsstr → A → B) l q :
  (∀ q, count (create q).2 = count q) → count (with_ids create f l q).2 = count q.
Proof.
  intros H. revert q. induction l as [|x l IH]; intros q; [done|]. cbn. specialize (H q). destruct (create q) as [i q1]. specialize (IH q1).
  destruct (with_ids create f l q1). cbn in *. congruence.
Qed.

Lemma rule_counter : counter createPriceVariantRuleId priceVariantRuleSequence "model-price-variant-rule-".
Proof. by split. Qed.
Lemma extra_counter : counter createExtraParamRuleId extraParamRuleSequence "model-price-extra-param-rule-".
Proof. by split. Qed.
Lemma variable_counter : counter createFormulaVariableId formulaVariableSequence "model-price-formula-variable-".
Proof. by split. Qed.
Lemma default_counter : counter createFormulaDefaultId formulaDefaultSequence "model-price-formula-default-".
Proof. by split. Qed.

Definition seq_le (q q' : Sequences) : Prop :=
  (priceVariantRuleSequence q <= priceVariantRuleSequence q')%Z ∧ (extraParamRuleSequence q <= extraParamRuleSequence q')%Z ∧
  (formulaVariableSequence q <= formulaVariableSequence q')%Z ∧ (formulaDefaultSequence q <= formulaDefaultSequence q')%Z.

Definition seq_ok : Sequences → Prop := seq_le (MkSequences 0 0 0 0).

Lemma seq_le_refl q : seq_le q q.
Proof. unfold seq_le. lia. Qed.

Lemma seq_le_trans q q' q'' : seq_le q q' → seq_le q' q'' → seq_le q q''.
Proof. unfold seq_le. lia. Qed.

Lemma seq_ok_le q q' : seq_ok q → seq_le q q' → seq_ok q'.
Proof. apply seq_le_trans. Qed.

Definition rules_issued (q : Sequences) (rs : list PriceVariantRuleDraft) : Prop :=
  issued "model-price-variant-rule-" (priceVariantRuleSequence q) (rule_id <$> rs).
Definition extra_issued (q : Sequences) (xs : list ExtraParamRuleDraft) : Prop :=
  issued "model-price-extra-param-rule-" (extraParamRuleSequence q) (extra_id <$> xs).
Definition formula_issued (q : Sequences) (f : FormulaDraft) : Prop :=
  issued "model-price-formula-variable-" (formulaVariableSequence q) (item_id <$> variables f) ∧
  issued "model-price-formula-default-" (formulaDefaultSequence q) (item_id <$> defaults f).

(** Every row of a draft has an identifier of its own. *)
Definition draft_issued (q : Sequences) (d : PriceVariantDraft) : Prop :=
  rules_issued q (draft_rules d) ∧ extra_issued q (extraParams d) ∧ formula_issued q (formula d).

Lemma draft_issued_mono q q' d : seq_le q q' → draft_issued q d → draft_issued q' d.
Proof.
  intros (L1 & L2 & L3 & L4) (H1 & H2 & H3 & H4). unfold draft_issued, formula_issued. split_and!; eapply issued_mono; eauto.
Qed.

Lemma items_issued vs ds q : seq_ok q →
  let '(v, q1) := items createFormulaVariableId vs q in
  let '(d, q2) := items createFormulaDefaultId ds q1 in
  seq_le q q2 ∧ ∀ b e, formula_issued q2 (MkFormula b e v d).
Proof.
  intros (L1 & L2 & L3 & L4). unfold items.
  pose proof (with_ids_issued _ _ _ (λ i p, ItemDraft i p.1 p.2) item_id vs q [] variable_counter ltac:(done) L3 (issued_nil _ _)) as [A1 A2].
  pose proof (with_ids_keeps createFormulaVariableId formulaDefaultSequence (λ i (p : jsstr * jsstr), ItemDraft i p.1 p.2) vs q ltac:(done)) as K1.
  pose proof (with_ids_keeps createFormulaVariableId priceVariantRuleSequence (λ i (p : jsstr * jsstr), ItemDraft i p.1 p.2) vs q ltac:(done)) as K2.
  pose proof (with_ids_keeps createFormulaVariableId extraParamRuleSequence (λ i (p : jsstr * jsstr), ItemDraft i p.1 p.2) vs q ltac:(done)) as K3.
  destruct (with_ids createFormulaVariableId _ vs q) as [v q1]. cbn [fst snd app] in *. rewrite <- K1 in L4.
  pose proof (with_ids_issued _ _ _ (λ i p, ItemDraft i p.1 p.2) item_id ds q1 [] default_counter ltac:(done) L4 (issued_nil _ _)) as [B1 B2].
  pose proof (with_ids_keeps createFormulaDefaultId formulaVariableSequence (λ i (p : jsstr * jsstr), ItemDraft i p.1 p.2) ds q1 ltac:(done)) as J1.
  pose proof (with_ids_keeps createFormulaDefaultId priceVariantRuleSequence (λ i (p : jsstr * jsstr), ItemDraft i p.1 p.2) ds q1 ltac:(done)) as J2.
  pose proof (with_ids_keeps createFormulaDefaultId extraParamRuleSequence (λ i (p : jsstr * jsstr), ItemDraft i p.1 p.2) ds q1 ltac:(done)) as J3.
  destruct (with_ids createFormulaDefaultId _ ds q1) as [d q2]. cbn [fst snd app] in *. split; [unfold seq_le; lia|].
  intros b e. split; cbn [variables defaults]; [by rewrite J1|done].
Qed.

Lemma formula_opened f q : seq_ok q → seq_le q (createFormulaDraft f q).2 ∧ formula_issued (createFormulaDraft f q).2 (createFormulaDraft f q).1.
Proof.
  intros Hq. unfold createFormulaDraft. destruct (negb (truthy f)); [split; [apply seq_le_refl|split; apply issued_nil]|].
  pose proof (items_issued ((λ p, (p.1, to_string p.2)) <$> map_of (prop f "variables")) ((λ p, (p.1, to_string p.2)) <$> map_of (prop f "defaults")) q Hq) as H.
  destruct (items createFormulaVariableId _ q) as [v q1]. destruct (items createFormulaDefaultId _ q1) as [d q2]. cbn. destruct H as [H1 H2]. split; [done|apply H2].
Qed.

Lemma draft_opened config q : seq_ok q →
  seq_le q (createInitialPriceVariantDraft config q).2 ∧ draft_issued (createInitialPriceVariantDraft config q).2 (createInitialPriceVariantDraft config q).1.
Proof.
  intros Hq.
  assert (seq_le q q ∧ draft_issued q restored_draft) as Hnull.
  { split; [apply seq_le_refl|]. split_and!; try apply issued_nil. split; apply issued_nil. }
  pose proof Hq as (L1 & L2 & L3 & L4).
  unfold createInitialPriceVariantDraft. destruct (match config with VNull => true | _ => false end); [exact Hnull|].
  match goal with |- context [with_ids createPriceVariantRuleId ?f ?l q] =>
    pose proof (with_ids_issued _ _ _ f rule_id l q [] rule_counter ltac:(done) L1 (issued_nil _ _)) as [A1 A2];
    pose proof (with_ids_keeps createPriceVariantRuleId extraParamRuleSequence f l q ltac:(done)) as K1;
    pose proof (with_ids_keeps createPriceVariantRuleId formulaVariableSequence f l q ltac:(done)) as K2;
    pose proof (with_ids_keeps createPriceVariantRuleId formulaDefaultSequence f l q ltac:(done)) as K3;
    destruct (with_ids createPriceVariantRuleId f l q) as [rs q1] end; cbn [fst snd app] in *; rewrite <- K1 in L2.
  match goal with |- context [with_ids createExtraParamRuleId ?f ?l q1] =>
    pose proof (with_ids_issued _ _ _ f extra_id l q1 [] extra_counter ltac:(done) L2 (issued_nil _ _)) as [B1 B2];
    pose proof (with_ids_keeps createExtraParamRuleId priceVariantRuleSequence f l q1 ltac:(done)) as J1;
    pose proof (with_ids_keeps createExtraParamRuleId formulaVariableSequence f l q1 ltac:(done)) as J2;
    pose proof (with_ids_keeps createExtraParamRuleId formulaDefaultSequence f l q1 ltac:(done)) as J3;
    destruct (with_ids createExtraParamRuleId f l q1) as [xs q2] end; cbn [fst snd app] in *.
  assert (seq_le q q2) as Hq2 by (unfold seq_le; lia).
  match goal with |- context [createFormulaDraft ?f q2] =>
    pose proof (formula_opened f q2 ltac:(by eapply seq_ok_le)) as [F1 F2]; destruct (createFormulaDraft f q2) as [fd q3] end; cbn [fst snd] in *.
  split; [by eapply seq_le_trans|]; destruct F1 as (M1 & M2 & M3 & M4).
  split_and!; cbn [draft_rules extraParams formula]; [unfold rules_issued; eapply issued_mono; [|exact A1]; lia
    |unfold extra_issued; eapply issued_mono; [|exact B1]; lia|apply F2..].
Qed.

(** Both drafts of a sheet. *)
Definition sheet_issued (q : Sequences) (s : Sheet) : Prop := seq_ok q ∧ draft_issued q (priceVariantDraft s) ∧ draft_issued q (imageEditPriceVariantDraft s).

(** An update of a draft that keeps the identifiers. *)
Definition keeps_ids (updater : PriceVariantDraft → Sequences → PriceVariantDraft * Sequences) : Prop :=
  ∀ d q, seq_ok q → draft_issued q d → seq_le q (updater d q).2 ∧ draft_issued (updater d q).2 (updater d q).1.

Lemma update_issued w updater s q : keeps_ids updater → sheet_issued q s → sheet_issued (updateDraft w updater s q).2 (updateDraft w updater s q).1.
Proof.
  intros Hk (Hq & H1 & H2). unfold updateDraft. specialize (Hk (draft_of w s) q Hq). destruct (updater (draft_of w s) q) as [d q']. cbn [fst snd] in *.
  destruct Hk as [Hle Hd]; [by destruct w|]. split; [by eapply seq_ok_le|]. destruct w; cbn; split; try exact Hd; by eapply draft_issued_mono.
Qed.

Lemma pure_keeps f : (∀ d q, draft_issued q d → draft_issued q (f d)) → keeps_ids (pure f).
Proof. intros H d q _ Hd. split; [apply seq_le_refl|by apply H]. Qed.

Lemma add_rule_keeps : keeps_ids (λ d q, let '(id, q') := createPriceVariantRuleId q in (with_rules d (draft_rules d ++ [RuleDraft id [] [] []]), q')).
Proof.
  intros d q (L1 & L2 & L3 & L4) (H1 & H2 & H3). split; [unfold seq_le; cbn; lia|]. split_and!; [|done..]. cbn. unfold rules_issued. cbn.
  rewrite fmap_app. by apply issued_snoc.
Qed.

Lemma add_extra_keeps : keeps_ids (λ d q, let '(id, q') := createExtraParamRuleId q in (with_extra d (extraParams d ++ [ExtraDraft id "input_images" "1" []]), q')).
Proof.
  intros d q (L1 & L2 & L3 & L4) (H1 & H2 & H3). split; [unfold seq_le; cbn; lia|]. split_and!; [done| |done]. cbn. unfold extra_issued. cbn.
  rewrite fmap_app. by apply issued_snoc.
Qed.

Lemma add_variable_keeps : keeps_ids (λ d q,
  let '(id, q') := createFormulaVariableId q in (with_formula d (with_variables (formula d) (variables (formula d) ++ [ItemDraft id [] []])), q')).
Proof.
  intros d q (L1 & L2 & L3 & L4) (H1 & H2 & H3 & H4). split; [unfold seq_le; cbn; lia|]. split_and!; [done|done|]. split; [|done]. cbn.
  rewrite fmap_app. by apply issued_snoc.
Qed.

Lemma add_default_keeps : keeps_ids (λ d q,
  let '(id, q') := createFormulaDefaultId q in (with_formula d (with_defaults (formula d) (defaults (formula d) ++ [ItemDraft id [] []])), q')).
Proof.
  intros d q (L1 & L2 & L3 & L4) (H1 & H2 & H3 & H4). split; [unfold seq_le; cbn; lia|]. split_and!; [done|done|]. split; [done|]. cbn.
  rewrite fmap_app. by apply issued_snoc.
Qed.

Lemma preset_keeps preset : keeps_ids (λ d q, let '(f, q') := createImageEditFormulaPresetDraft preset q in (with_formula d f, q')).
Proof.
  intros d q Hq Hd. unfold createImageEditFormulaPresetDraft. pose proof (items_issued (preset_variables preset) (preset_defaults preset) q Hq) as H.
  destruct (items createFormulaVariableId _ q) as [v q1]. destruct (items createFormulaDefaultId _ q1) as [f q2]. destruct H as [H1 H2]. cbn [fst snd].
  split; [done|]. destruct (draft_issued_mono q q2 d H1 Hd) as (D1 & D2 & _). split_and!; [done|done|apply H2..].
Qed.

Lemma lines_issued fallback hide lines n q ids : seq_ok q → issued "model-price-variant-rule-" (priceVariantRuleSequence q) ids →
  seq_le q (parse_lines fallback hide lines n q).2 ∧
  ∀ rs, (parse_lines fallback hide lines n q).1 = inr rs →
    issued "model-price-variant-rule-" (priceVariantRuleSequence (parse_lines fallback hide lines n q).2) (ids ++ (rule_id <$> rs)).
Proof.
  revert n q ids. induction lines as [|l lines IH]; intros n q ids Hq Hi; cbn [parse_lines].
  { split; [apply seq_le_refl|]. intros rs [= <-]. by rewrite app_nil_r. }
  destruct (parseLine fallback l n) as [e|[[[r qu] p]|]]; [split; [apply seq_le_refl|done]| |by apply IH].
  set (q1 := (createPriceVariantRuleId q).2). pose proof Hq as (L1 & L2 & L3 & L4).
  assert (seq_le q q1) as Hle by (unfold seq_le; cbn; lia).
  change (createPriceVariantRuleId q) with (("model-price-variant-rule-" ++ Z_to_string (priceVariantRuleSequence q + 1))%js, q1). cbv beta iota.
  destruct (IH (S n) q1 (ids ++ ["model-price-variant-rule-" ++ Z_to_string (priceVariantRuleSequence q + 1)])) as [IH1 IH2].
  { by eapply seq_ok_le. }
  { by apply issued_snoc. }
  destruct (parse_lines fallback hide lines (S n) q1) as [[e|rs] q2]; cbn [fst snd] in *; (split; [by eapply seq_le_trans|]); [done|].
  intros rs' [= <-]. specialize (IH2 rs eq_refl). by rewrite <- app_assoc in IH2.
Qed.

Lemma expression_issued lower w text s q : sheet_issued q s →
  sheet_issued (handleExpressionApply lower w text s q).2
    (match (handleExpressionApply lower w text s q).1 with inr s' => s' | inl _ => s end).
Proof.
  intros Hs. pose proof Hs as (Hq & H1 & H2). unfold handleExpressionApply, parsePriceVariantExpression.
  destruct (lines_issued (draft_of w s) (isGrokImagineVideoModel lower (activeModelName s)) (re_split newline_re text) 1 q [] Hq (issued_nil _ _)) as [Hle Hi].
  destruct (parse_lines _ _ _ _ q) as [r q']. cbn [fst snd] in *.
  assert (sheet_issued q' s) as Hs' by (split; [by eapply seq_ok_le|]; split; by eapply draft_issued_mono).
  destruct r as [e|[|r rs]]; cbn [fst snd]; [done|done|]. specialize (Hi _ eq_refl). cbn [app] in Hi.
  destruct Hs' as (Hq' & D1 & D2). assert (draft_issued q' (draft_of w s)) as (_ & E2 & E3) by by destruct w.
  split; [done|]. destruct w; cbn; split; try done; by split_and!.
Qed.

(** The events that do not touch the drafts. *)
Lemma lanes_keep_drafts s v lane checked :
  (∀ w, draft_of w (handlePromptPriceChange v s) = draft_of w s) ∧ (∀ w, draft_of w (handleLanePriceChange lane v s) = draft_of w s) ∧
  (∀ w, draft_of w (handleLaneToggle lane checked s) = draft_of w s) ∧ (∀ w, draft_of w (handlePriceInput v s) = draft_of w s) ∧
  (∀ w, draft_of w (handleNameInput v s) = draft_of w s).
Proof.
  split_and!; intros w; destruct w; cbn [draft_of];
    unfold handlePromptPriceChange, handleLanePriceChange, handleLaneToggle, handlePriceInput, handleNameInput; by repeat case_match.
Qed.

Lemma submit_keeps_drafts lower t s w : draft_of w (match handleSubmit lower t s with inl (_, s') => s' | inr _ => s end) = draft_of w s.
Proof. unfold handleSubmit. destruct (submit_error lower t s) as [e|]; [|done]. by destruct e, w. Qed.

Lemma same_issued q s s' : (∀ w, draft_of w s' = draft_of w s) → sheet_issued q s → sheet_issued q s'.
Proof. intros H (Hq & H1 & H2). split; [done|]. specialize (H generation) as Hg. specialize (H image_edit) as Hi. cbn in Hg, Hi. by rewrite Hg, Hi. Qed.

Lemma set_rule_id field v r : rule_id (set_rule_field field v r) = rule_id r.
Proof. by destruct field. Qed.
Lemma set_extra_id field v r : extra_id (set_extra_field field v r) = extra_id r.
Proof. by destruct field. Qed.
Lemma set_item_id field v r : item_id (set_item_field field v r) = item_id r.
Proof. by destruct field. Qed.

Ltac keep_ids := apply update_issued; [|done]; apply pure_keeps; intros ? ? (? & ? & ? & ?);
  split; [|split; [|split]]; unfold rules_issued, extra_issued in *;
  cbn [draft_rules extraParams formula variables defaults with_rules with_extra with_formula with_variables with_defaults];
  first [done | by apply remove_ids | by rewrite edit_ids by first [apply set_rule_id|apply set_extra_id|apply set_item_id]].

(** Every event keeps the identifiers. *)
Lemma event_issued lower t e s q : sheet_issued q s → sheet_issued (on_event lower t e s q).2 (on_event lower t e s q).1.
Proof.
  intros Hs. destruct e; cbn [on_event fst snd].
  - eapply same_issued; [|done]. apply (lanes_keep_drafts s v completion true).
  - eapply same_issued; [|done]. apply (lanes_keep_drafts s v lane true).
  - eapply same_issued; [|done]. apply (lanes_keep_drafts s [] lane checked).
  - destruct w; by apply update_issued; [apply pure_keeps|].
  - destruct w; (apply update_issued; [apply add_rule_keeps|done]).
  - destruct w; keep_ids.
  - destruct w; unfold handlePriceVariantRuleChange, handleImageEditPriceVariantRuleChange, handleRuleChange;
      (destruct (match field with price_field => _ | _ => _ end); [done|]); keep_ids.
  - destruct Hs as (Hq & H1 & H2). split; [done|]. split; [|done]. split_and!; try apply issued_nil. split; apply issued_nil.
  - apply update_issued; [apply add_extra_keeps|done].
  - keep_ids.
  - unfold handleImageEditExtraParamRuleChange. destruct (match field with key_field => _ | _ => _ end); [done|]. keep_ids.
  - by apply update_issued; [apply pure_keeps|].
  - by apply update_issued; [apply pure_keeps|].
  - apply update_issued; [apply add_variable_keeps|done].
  - keep_ids.
  - unfold handleImageEditFormulaVariableChange. destruct (match field with name_field => _ | _ => _ end); [done|]. keep_ids.
  - apply update_issued; [apply add_default_keeps|done].
  - keep_ids.
  - keep_ids.
  - apply update_issued; [apply preset_keeps|done].
  - pose proof (expression_issued lower w text s q Hs) as H. unfold handlePriceVariantExpressionApply, handleImageEditPriceVariantExpressionApply.
    destruct w; by destruct (handleExpressionApply lower _ text s q) as [[e|s'] q'].
  - eapply same_issued; [|done]. by intros [].
  - eapply same_issued; [|done]. by intros [].
  - eapply same_issued; [|done]. by apply (lanes_keep_drafts s v completion true).
  - eapply same_issued; [|done]. by apply (lanes_keep_drafts s v completion true).
  - eapply same_issued; [|done]. by intros [].
  - eapply same_issued; [|done]. by intros [].
  - eapply same_issued; [|done]. apply submit_keeps_drafts.
Qed.

Lemma reached_issued lower t data s q : reached lower t data s q → sheet_issued q s.
Proof.
  induction 1 as [q Q1 Q2 Q3 Q4|s q e _ IH]; [|by apply event_issued]. assert (seq_ok q) as Hq by by split_and!.
  unfold open_sheet. destruct (createInitialLaneState data) as [[prompt prices] enabled].
  pose proof (draft_opened (from_option d_priceVariant VUndef data) q Hq) as [A1 A2].
  destruct (createInitialPriceVariantDraft _ q) as [d1 q1]. cbn [fst snd] in *. pose proof (seq_ok_le _ _ Hq A1) as Hq1.
  pose proof (draft_opened (from_option d_imageEditPriceVariant VUndef data) q1 Hq1) as [B1 B2].
  destruct (createInitialPriceVariantDraft _ q1) as [d2 q2]. cbn [fst snd] in *. pose proof (draft_issued_mono _ _ _ B1 A2) as A2'.
  split; [by eapply seq_ok_le|]. by destruct data.
Qed.

Lemma issued_ids_ok q d : draft_issued q d → ids_ok d.
Proof.
  intros (H1%issued_nonempty & H2%issued_nonempty & H3%issued_nonempty & H4%issued_nonempty). by rewrite !Forall_fmap in *.
Qed.

(** ** The checks of a draft *)

Section Checks.
Context (lower : jsstr → jsstr) `{!LowerCase lower} (t : jsstr → jsstr).
Context (Ht : nonempty (t "Formula expression is required.") = true).

(** In every sheet that can be reached, the check accepts a draft exactly
    when each enabled dimension of each rule is filled in, every number is a
    finite one and no two rows stand for the same thing, aliases included; the
    configuration built from an accepted draft is one the type guard of the
    settings accepts, so that saving it cannot invalidate the settings. *)
Theorem draft_check_exact data s q w modelName :
  reached lower t data s q →
  (valid (validatePriceVariantDraft lower t (draft_of w s) modelName) = true ↔
   restoreInherited (draft_of w s) = true ∨ fine_draft lower (draft_of w s) modelName) ∧
  (valid (validatePriceVariantDraft lower t (draft_of w s) modelName) = true →
   match buildPriceVariantConfig lower (draft_of w s) modelName with
   | VNull => restoreInherited (draft_of w s) = true
   | VUndef => True
   | config => isModelPriceVariantConfig lower config = true
   end).
Proof.
  intros (_ & H1 & H2)%reached_issued. assert (ids_ok (draft_of w s)) as Hi by (destruct w; by eapply issued_ids_ok).
  pose proof (draft_check lower t (draft_of w s) modelName Ht Hi) as Hc. split; [done|]. intros [Hr|Hf]%Hc.
  - unfold buildPriceVariantConfig. by rewrite Hr.
  - destruct (build_cases lower (draft_of w s) modelName) as [[-> H]|[-> |[c E]]]; [done|done|]. rewrite E. by eapply built_valid.
Qed.

Lemma own_rule_at re qe r f : own_at (own_rule_errors t re qe) r f =
  match f with
  | at_resolution => if re && negb (nonempty (trim (rule_resolution_text r))) then Some (t "Resolution is required.") else None
  | at_quality => if qe && negb (nonempty (trim (rule_quality_text r))) then Some (t "Quality tier is required.") else None
  | at_price => snd <$> head (number_errors t at_price (rule_price_text r) "Price is required." "Enter a valid non-negative price." false)
  | _ => None
  end.
Proof.
  unfold own_at, own_rule_errors, number_errors. repeat match goal with |- context [if ?b then _ else _] => destruct b end; by destruct f.
Qed.

(** Two rules of a draft that stand for the same specification. *)
Definition same_specification (re qe : bool) (r r' : PriceVariantRuleDraft) : Prop :=
  ∃ k, rule_key lower re qe r = Some k ∧ rule_key lower re qe r' = Some k.

(** In every sheet that can be reached, the messages at a rule are exactly
    its own: a missing resolution or quality, a wrong price, and a duplicate
    exactly when another rule stands for the same specification. *)
Theorem rule_errors_exact data s q w modelName r :
  reached lower t data s q →
  let d := draft_of w s in
  let re := resolutionEnabled d in
  let qe := quality_on lower d modelName in
  let at_field := error_at (ruleErrors (validatePriceVariantDraft lower t d modelName)) (rule_id r) in
  restoreInherited d = false → re || qe = true → r ∈ draft_rules d →
  (at_field at_resolution = None ↔ (re = true → trim (rule_resolution_text r) ≠ [])) ∧
  (at_field at_quality = None ↔ (qe = true → trim (rule_quality_text r) ≠ [])) ∧
  (at_field at_price = None ↔ fine_number false (rule_price_text r)) ∧
  (at_field at_duplicate = None ↔
   ∀ other, other ∈ draft_rules d → rule_id other ≠ rule_id r → ¬ same_specification re qe r other).
Proof.
  intros (_ & H1 & H2)%reached_issued. cbv zeta. intros Hr He Hin. assert (draft_issued q (draft_of w s)) as (Hd & _) by by destruct w.
  set (d := draft_of w s) in *. clearbody d. set (qe := quality_on lower d modelName) in *.
  assert (ruleErrors (validatePriceVariantDraft lower t d modelName) =
    check_rows rule_id (own_rule_errors t (resolutionEnabled d) qe) (rule_key lower (resolutionEnabled d) qe)
      (t "This specification combination is duplicated.") (draft_rules d)) as ->.
  { unfold validatePriceVariantDraft. rewrite Hr. fold qe. rewrite He. destruct (draft_rules d) as [|r0 rs] eqn:E; [by apply elem_of_nil in Hin|done]. }
  destruct (rows_exact rule_id (own_rule_errors t (resolutionEnabled d) qe) (rule_key lower (resolutionEnabled d) qe)
    (t "This specification combination is duplicated.") (draft_rules d)) as [Ho Hx].
  - apply Hd.
  - pose proof (issued_nonempty _ _ _ _ Hd) as H. by rewrite Forall_fmap in H.
  - apply Forall_forall. intros x _. by rewrite own_rule_at.
  - cbv zeta in Ho, Hx. rewrite !Ho by done. rewrite !own_rule_at. rewrite <- !nonempty_spec, !implb_false. split_and!.
    + by destruct (_ && _).
    + by destruct (_ && _).
    + rewrite <- (number_errors_nil t at_price _ "Price is required." "Enter a valid non-negative price."). by destruct (number_errors _ _ _ _ _ _).
    + rewrite Hx by done. unfold twin, same_specification. split; [|naive_solver].
      intros Hn o Ho1 Ho2 (k & E1 & E2). apply Hn. by exists o, k.
Qed.
End Checks.

(** ** Lanes *)

(** The field is the text of a number. *)
Definition numeric (f : Field) : bool := bool_decide (f ∈ ModelPrice :: RATIO_FIELDS).

Lemma text_at_set tx f v g : numeric g = true → text_at (set_text tx f v) g = if decide (g = f) then v else text_at tx g.
Proof. by destruct g. Qed.

Lemma lane_numeric lane : numeric (ratioFieldByLane lane) = true.
Proof. by destruct lane. Qed.

Lemma lane_field_inj a b : ratioFieldByLane a = ratioFieldByLane b ↔ a = b.
Proof. split; [|by intros ->]. by destruct a, b. Qed.

Lemma lane_not_ratio lane : ratioFieldByLane lane ≠ ModelRatio ∧ ratioFieldByLane lane ≠ ModelPrice.
Proof. by destruct lane. Qed.

(** The ratio of the input price. *)
Definition prompt_ratio (prompt : jsstr) : jsstr :=
  match toNumberOrNull prompt with Some x => formatPricingNumber (num_div x (of_Z 2)) | None => [] end.

(** The ratio a lane should have. *)
Definition lane_ratio (prompt : jsstr) (prices : LaneKey → jsstr) (enabled : LaneKey → bool) (lane : LaneKey) : jsstr :=
  if enabled lane then deriveLaneRatio lane (prices lane) prompt prices else [].

(** The ratios of the form are those of the prices that are shown. *)
Definition synced (s : Sheet) : Prop :=
  ratio (sh_texts s) = prompt_ratio (promptPrice s) ∧
  ∀ lane, text_at (sh_texts s) (ratioFieldByLane lane) = lane_ratio (promptPrice s) (lanePrices s) (laneEnabled s) lane.

(** A ratio depends on the prices of its lane and of the audio input. *)
Lemma derive_ext lane price prompt prices prices' : (lane = audioOutput → prices audioInput = prices' audioInput) →
  deriveLaneRatio lane price prompt prices = deriveLaneRatio lane price prompt prices'.
Proof. intros H. unfold deriveLaneRatio. destruct (decide (lane = audioOutput)) as [E|]; [by rewrite H|done]. Qed.

Lemma lanes_fold prompt prices (enabled : LaneKey → bool) s lanes : NoDup lanes → let s' := fold_left (λ s lane,
    setFormValue (ratioFieldByLane lane) (if enabled lane then deriveLaneRatio lane (prices lane) prompt prices else []) s) lanes s in
  promptPrice s' = promptPrice s ∧ lanePrices s' = lanePrices s ∧ laneEnabled s' = laneEnabled s ∧ ratio (sh_texts s') = ratio (sh_texts s) ∧
  ∀ lane, text_at (sh_texts s') (ratioFieldByLane lane) =
    if decide (lane ∈ lanes) then lane_ratio prompt prices enabled lane else text_at (sh_texts s) (ratioFieldByLane lane).
Proof.
  intros Hn. revert s. induction Hn as [|l lanes Hl Hn IH]; intros s; [done|]. cbn [fold_left]. destruct (IH (setFormValue (ratioFieldByLane l)
    (if enabled l then deriveLaneRatio l (prices l) prompt prices else []) s)) as (E1 & E2 & E3 & E4 & E5). clear IH.
  cbv zeta in *. rewrite E1, E2, E3, E4. split_and!; try done.
  - cbn. destruct (decide _) as [E|]; [|done]. by destruct (lane_not_ratio l).
  - intros lane. rewrite E5. cbn [setFormValue with_texts sh_texts]. rewrite text_at_set by apply lane_numeric.
    destruct (decide (lane ∈ lanes)), (decide (lane ∈ l :: lanes)) as [Hc|Hc]; try done.
    + by destruct Hc; right.
    + apply elem_of_cons in Hc as [->|]; [|done]. by rewrite decide_True.
    + rewrite decide_False; [done|]. rewrite lane_field_inj. intros ->. apply Hc. by left.
Qed.

Lemma prompt_synced v s : re_test numericDraftRegex v = true → synced (handlePromptPriceChange v s).
Proof.
  intros Hv. unfold handlePromptPriceChange. rewrite Hv. cbn [negb]. unfold syncLaneRatios. cbv zeta. fold (prompt_ratio v).
  destruct (lanes_fold v (lanePrices s) (laneEnabled s) (setFormValue ModelRatio (prompt_ratio v) (with_lanes s v (lanePrices s) (laneEnabled s))) LANES)
    as (E1 & E2 & E3 & E4 & E5).
  { apply (bool_decide_eq_true_1 (NoDup _)). by vm_compute. }
  split.
  - rewrite E4, E1. done.
  - intros lane. rewrite E5, E1, E2, E3. rewrite decide_True; [done|]. apply (bool_decide_eq_true_1 (_ ∈ _)). by destruct lane.
Qed.

Lemma new_synced q : synced (open_sheet None q).1.
Proof. by split; [|intros []]. Qed.

Lemma with_lane_same {A} (f : LaneKey → A) lane x : with_lane f lane x lane = x.
Proof. unfold with_lane. by rewrite decide_True. Qed.

Lemma with_lane_other {A} (f : LaneKey → A) lane x l : l ≠ lane → with_lane f lane x l = f l.
Proof. intros H. unfold with_lane. by rewrite decide_False. Qed.

(** The ratio of another lane does not change, except that of the audio output
    with the price of the audio input. *)
Lemma lane_ratio_other prompt prices enabled enabled' lane v l : l ≠ lane → (l = audioOutput → lane ≠ audioInput) → enabled' l = enabled l →
  lane_ratio prompt (with_lane prices lane v) enabled' l = lane_ratio prompt prices enabled l.
Proof.
  intros Hl Ho He. unfold lane_ratio. rewrite He, with_lane_other by done. destruct (enabled l); [|done]. apply derive_ext.
  intros ->. apply with_lane_other. intros <-. by apply Ho.
Qed.

Lemma lane_price_synced lane v s : synced s → synced (handleLanePriceChange lane v s).
Proof.
  intros [Hr Hl]. unfold handleLanePriceChange. destruct (negb _); [done|]. cbv zeta.
  set (prices := with_lane (lanePrices s) lane v).
  set (s2 := if laneEnabled s lane then _ else _).
  assert (promptPrice s2 = promptPrice s ∧ lanePrices s2 = prices ∧ laneEnabled s2 = laneEnabled s ∧ ratio (sh_texts s2) = ratio (sh_texts s)) as (E1 & E2 & E3 & E4).
  { unfold s2. destruct (laneEnabled s lane); [|done]. split_and!; try done. cbn. destruct (decide _) as [E|]; [|done]. by destruct (lane_not_ratio lane). }
  assert (∀ l, l ≠ lane → text_at (sh_texts s2) (ratioFieldByLane l) = text_at (sh_texts s) (ratioFieldByLane l)) as E6.
  { intros l Hne. unfold s2. destruct (laneEnabled s lane); [|done]. cbn [setFormValue with_texts sh_texts].
    rewrite text_at_set by apply lane_numeric. rewrite decide_False; [done|]. by rewrite lane_field_inj. }
  assert (∀ l, l ≠ audioOutput ∨ lane ≠ audioInput → text_at (sh_texts s2) (ratioFieldByLane l) = lane_ratio (promptPrice s) prices (laneEnabled s) l) as E5.
  { intros l Hor. destruct (decide (l = lane)) as [->|Hne].
    - unfold s2, lane_ratio. destruct (laneEnabled s lane) eqn:Ee.
      + cbn [setFormValue with_texts sh_texts]. rewrite text_at_set, decide_True by (done || apply lane_numeric). unfold prices. by rewrite with_lane_same.
      + change (sh_texts (with_lanes s (promptPrice s) prices (laneEnabled s))) with (sh_texts s). rewrite Hl. unfold lane_ratio. by rewrite Ee.
    - unfold prices. rewrite (lane_ratio_other _ _ (laneEnabled s)) by tauto. rewrite <- Hl. by apply E6. }
  clearbody s2. destruct (bool_decide (lane = audioInput) && laneEnabled s audioOutput) eqn:Ea.
  - apply andb_true_iff in Ea as [->%bool_decide_eq_true Ea]. split; cbn [setFormValue with_texts sh_texts promptPrice lanePrices laneEnabled].
    + by rewrite E1, <- Hr, <- E4.
    + intros l. rewrite E1, E2, E3, text_at_set by apply lane_numeric. change AudioCompletionRatio with (ratioFieldByLane audioOutput).
      destruct (decide _) as [->%lane_field_inj|Hne]; [unfold lane_ratio; by rewrite Ea|]. rewrite lane_field_inj in Hne. apply E5. by left.
  - split; [by rewrite E1, E4|]. intros l. rewrite E1, E2, E3.
    destruct (decide (l = audioOutput)) as [->|]; [|by apply E5; left]. destruct (decide (lane = audioInput)) as [->|]; [|by apply E5; right].
    rewrite bool_decide_eq_true_2 in Ea by done. cbn [andb] in Ea. rewrite E6, Hl by done. unfold lane_ratio. by rewrite Ea.
Qed.

Lemma lane_toggle_synced lane checked s : synced s → synced (handleLaneToggle lane checked s).
Proof.
  intros [Hr Hl]. unfold handleLaneToggle. cbv zeta. destruct checked.
  - split.
    + cbn. destruct (decide _) as [E|]; [by destruct (lane_not_ratio lane)|done].
    + intros l. cbn [setFormValue with_texts with_lanes sh_texts promptPrice lanePrices laneEnabled]. rewrite text_at_set by apply lane_numeric.
      destruct (decide _) as [->%lane_field_inj|Hne]; unfold lane_ratio; [by rewrite with_lane_same|]. rewrite lane_field_inj in Hne.
      rewrite with_lane_other by done. apply Hl.
  - destruct (decide (lane = audioInput)) as [->|Hai].
    + split; [done|]. intros l. cbn [setFormValue with_texts with_lanes sh_texts promptPrice lanePrices laneEnabled].
      rewrite !text_at_set by apply lane_numeric. change AudioCompletionRatio with (ratioFieldByLane audioOutput).
      destruct (decide (ratioFieldByLane l = ratioFieldByLane audioOutput)) as [->%lane_field_inj|Ho]; [unfold lane_ratio; by rewrite with_lane_same|].
      rewrite lane_field_inj in Ho. rewrite (lane_ratio_other _ _ (with_lane (laneEnabled s) audioInput false)) by (done || by apply with_lane_other).
      destruct (decide _) as [->%lane_field_inj|Hi]; [unfold lane_ratio; by rewrite with_lane_same|]. rewrite lane_field_inj in Hi.
      rewrite (lane_ratio_other _ _ (laneEnabled s)) by (done || by apply with_lane_other). apply Hl.
    + split.
      * cbn. destruct (decide _) as [E|]; [by destruct (lane_not_ratio lane)|done].
      * intros l. cbn [setFormValue with_texts with_lanes sh_texts promptPrice lanePrices laneEnabled]. rewrite text_at_set by apply lane_numeric.
        destruct (decide _) as [->%lane_field_inj|Hne]; [unfold lane_ratio; by rewrite with_lane_same|]. rewrite lane_field_inj in Hne.
        rewrite (lane_ratio_other _ _ (laneEnabled s)) by (done || by apply with_lane_other). apply Hl.
Qed.

(** An event that leaves the lanes and the ratios alone. *)
Lemma same_synced s s' : promptPrice s' = promptPrice s → lanePrices s' = lanePrices s → laneEnabled s' = laneEnabled s →
  ratio (sh_texts s') = ratio (sh_texts s) → (∀ lane, text_at (sh_texts s') (ratioFieldByLane lane) = text_at (sh_texts s) (ratioFieldByLane lane)) →
  synced s → synced s'.
Proof. intros E1 E2 E3 E4 E5 [Hr Hl]. split; [by rewrite E4, E1|]. intros lane. by rewrite E5, E1, E2, E3. Qed.

Lemma draft_synced w updater s q : synced s → synced (updateDraft w updater s q).1.
Proof. unfold updateDraft. destruct (updater _ _). apply same_synced; done. Qed.

Lemma event_synced lower t e s q : synced s → synced (on_event lower t e s q).1.
Proof.
  intros Hs. destruct e; cbn [on_event fst].
  - destruct (re_test numericDraftRegex v) eqn:E; [by apply prompt_synced|]. unfold handlePromptPriceChange. by rewrite E.
  - by apply lane_price_synced.
  - by apply lane_toggle_synced.
  - destruct w; by apply draft_synced.
  - destruct w; by apply draft_synced.
  - destruct w; by apply draft_synced.
  - destruct w; unfold handlePriceVariantRuleChange, handleImageEditPriceVariantRuleChange, handleRuleChange;
      (destruct (match field with price_field => _ | _ => _ end); [done|by apply draft_synced]).
  - done.
  - by apply draft_synced.
  - by apply draft_synced.
  - unfold handleImageEditExtraParamRuleChange. destruct (match field with key_field => _ | _ => _ end); [done|by apply draft_synced].
  - by apply draft_synced.
  - by apply draft_synced.
  - by apply draft_synced.
  - by apply draft_synced.
  - unfold handleImageEditFormulaVariableChange. destruct (match field with name_field => _ | _ => _ end); [done|by apply draft_synced].
  - by apply draft_synced.
  - by apply draft_synced.
  - by apply draft_synced.
  - by apply draft_synced.
  - unfold handlePriceVariantExpressionApply, handleImageEditPriceVariantExpressionApply, handleExpressionApply.
    destruct w; destruct (parsePriceVariantExpression _ _ _ _ q) as [[e|d] q']; done.
  - done.
  - done.
  - unfold handlePriceInput. destruct (re_test _ _); [|done]. revert Hs. apply same_synced; try done.
    intros lane. cbn [setFormValue with_texts sh_texts]. rewrite text_at_set by apply lane_numeric. rewrite decide_False; [done|]. apply lane_not_ratio.
  - unfold handleNameInput. by destruct (editModel s).
  - done.
  - done.
  - unfold handleSubmit. destruct (submit_error lower t s) as [e|]; [|done]. by destruct e.
Qed.

Lemma events_synced lower t es s q : synced s → synced (run_events lower t es (s, q)).1.
Proof.
  revert s q. induction es as [|e es IH]; intros s q Hs; [done|]. cbn. pose proof (event_synced lower t e s q Hs) as H.
  destruct (on_event lower t e s q). by apply IH.
Qed.

(** In a new sheet, and in every sheet after the input price was typed, the
    ratios of the form are the ones of the prices that are shown, whatever is
    typed or switched in whatever order; a lane that is off has no ratio. *)
Theorem lanes_follow lower t es q s v :
  synced (run_events lower t es (open_sheet None q)).1 ∧
  (re_test numericDraftRegex v = true → synced (run_events lower t (PromptPrice v :: es) (s, q)).1).
Proof.
  split.
  - pose proof (new_synced q) as H. destruct (open_sheet None q) as [s' q']. by apply events_synced.
  - intros Hv. change (synced (run_events lower t es (handlePromptPriceChange v s, q)).1). by apply events_synced, prompt_synced.
Qed.

Lemma Z_digits_ne z : Z_digits z ≠ [].
Proof.
  unfold Z_digits. cbn [digits_fuel]. destruct (z / 10 =? 0)%Z; [done|]. rewrite digits_fuel_acc. by destruct (digits_fuel _ _ []).
Qed.

Lemma num_text_ne x : num_to_string x ≠ [].
Proof.
  destruct x as [s|[]| |s m e]; try done. unfold num_to_string. destruct (num_ratio m e) as [p q].
  destruct (shortest 17 1 (S754_finite false m e) p q (dec_exponent p q)) as [[c k] n].
  assert (∀ ds k n, ds ≠ [] → layout ds k n ≠ []) as Hl.
  { intros ds k' n' Hds. unfold layout. destruct ds as [|d ds]; [done|]. destruct (_ && _); [done|]. destruct (_ && _); [by intros [_ [=]]%app_eq_nil|].
    destruct (_ && _); [done|]. by destruct ds. }
  destruct (Z.of_nat (length (Z_digits c)) =? k)%Z; intros [_ E]%app_eq_nil; revert E; apply Hl; [apply Z_digits_ne|done].
Qed.

Lemma format_nil x : formatPricingNumber x = [] ↔ is_finite x = false.
Proof. unfold formatPricingNumber. destruct (is_finite x); [|done]. split; [|done]. intros E. by apply num_text_ne in E. Qed.

(** The price a lane is a ratio of. *)
Definition lane_base (s : Sheet) (lane : LaneKey) : jsstr := if decide (lane = audioOutput) then lanePrices s audioInput else promptPrice s.

Lemma submit_accepts lower t s data : handleSubmit lower t s = inr data → submit_error lower t s = None ∧ data = submit_data lower s.
Proof. unfold handleSubmit. destruct (submit_error lower t s); [done|]. by intros [= <-]. Qed.

Lemma token_base lower t s lane : submit_error lower t s = None → pricingMode s = per_token → lane_priced s lane = true → toNumberOrNull (promptPrice s) ≠ None.
Proof.
  unfold submit_error. cbv zeta. intros H Hm Hp E. rewrite Hm, E in H. rewrite !bool_decide_eq_false_2 in H by done. cbn [andb] in H.
  rewrite !bool_decide_eq_true_2 in H by done. destruct (negb (nonempty (sh_name s))); [done|].
  assert (existsb (lane_priced s) LANES = true) as Hex by (apply existsb_exists; exists lane; split; [by destruct lane; cbn; tauto|done]).
  by rewrite Hex in H.
Qed.

(** Of a sheet that is billed by tokens and accepted, the price of a lane is
    saved as the quotient of the price it is based on; it is lost without a
    message exactly when that price is zero (or the quotient is too large), and
    for the audio output also when the audio input is no number. *)
Theorem token_submit_exact lower t s data lane x :
  synced s → handleSubmit lower t s = inr data → pricingMode s = per_token →
  laneEnabled s lane = true → toNumberOrNull (lanePrices s lane) = Some x →
  ratio (d_texts data) = prompt_ratio (promptPrice s) ∧
  match toNumberOrNull (lane_base s lane) with
  | Some b =>
    text_at (d_texts data) (ratioFieldByLane lane) = (if num_eqb b (of_Z 0) then [] else formatPricingNumber (num_div x b)) ∧
    (text_at (d_texts data) (ratioFieldByLane lane) = [] ↔ num_eqb b (of_Z 0) = true ∨ is_finite (num_div x b) = false)
  | None => lane = audioOutput ∧ text_at (d_texts data) (ratioFieldByLane lane) = []
  end.
Proof.
  intros [Hr Hl] [Hs ->]%submit_accepts Hm He Hx.
  assert (text_at (d_texts (submit_data lower s)) (ratioFieldByLane lane) = deriveLaneRatio lane (lanePrices s lane) (promptPrice s) (lanePrices s)) as E.
  { cbn [submit_data d_texts]. rewrite text_at_set, decide_False by (apply lane_numeric || apply lane_not_ratio). rewrite Hl. unfold lane_ratio. by rewrite He. }
  split; [exact Hr|]. rewrite E. unfold deriveLaneRatio, lane_base. rewrite Hx. destruct (toNumberOrNull (if decide _ then _ else _)) as [b|] eqn:Eb.
  - split; [done|]. destruct (num_eqb b (of_Z 0)) eqn:E0; [by split; [left|]|]. rewrite format_nil. split; [by right|]. by intros [?|].
  - split; [|done]. destruct (decide (lane = audioOutput)) as [|Ho]; [done|]. exfalso. apply (token_base lower t s lane Hs Hm); [|done].
    unfold lane_priced. rewrite He. unfold toNumberOrNull in Hx. by destruct (nonempty (lanePrices s lane)).
Qed.

(** ** Witnesses *)

Lemma run_reached lower t data es s q : reached lower t data s q → reached lower t data (run_events lower t es (s, q)).1 (run_events lower t es (s, q)).2.
Proof.
  revert s q. induction es as [|e es IH]; intros s q H; [done|]. cbn. specialize (IH (on_event lower t e s q).1 (on_event lower t e s q).2).
  rewrite <- surjective_pairing in IH. by apply IH, reached_event.
Qed.

Definition no_ids : Sequences := MkSequences 0 0 0 0.

(** A model with two specification prices, the second without a price yet. *)
Definition sample_events : list Event :=
  [NameInput "painter"; ModeChange per_request; PriceInput "0.1"; SwitchChange generation true true;
   AddRule generation; RuleChange generation "model-price-variant-rule-1" resolution_field "HD";
   RuleChange generation "model-price-variant-rule-1" price_field "0.2";
   AddRule generation; RuleChange generation "model-price-variant-rule-2" resolution_field "720p"]%js.

Definition sample_sheet (es : list Event) : Sheet * Sequences := run_events toLowerCase id es (open_sheet None no_ids).

Lemma sample_reached es : reached toLowerCase id None (sample_sheet es).1 (sample_sheet es).2.
Proof.
  unfold sample_sheet. rewrite (surjective_pairing (open_sheet None no_ids)). by apply run_reached, reached_open.
Qed.

Lemma draft_check_exact_witness :
  ¬ fine_draft toLowerCase (priceVariantDraft (sample_sheet sample_events).1) "painter" ∧
  isModelPriceVariantConfig toLowerCase
    (buildPriceVariantConfig toLowerCase (priceVariantDraft (sample_sheet (take 7 sample_events)).1) "painter") = true.
Proof.
  destruct (draft_check_exact toLowerCase id eq_refl None (sample_sheet sample_events).1 (sample_sheet sample_events).2 generation "painter"
    (sample_reached sample_events)) as [H _].
  destruct (draft_check_exact toLowerCase id eq_refl None (sample_sheet (take 7 sample_events)).1 (sample_sheet (take 7 sample_events)).2 generation "painter"
    (sample_reached (take 7 sample_events))) as [_ H'].
  split.
  - intros Hf. specialize (proj2 H (or_intror Hf)). vm_compute. discriminate.
  - revert H'. vm_compute. intros H'. exact (H' eq_refl).
Defined.

Lemma rule_errors_exact_witness :
  let d := priceVariantDraft (sample_sheet sample_events).1 in
  error_at (ruleErrors (validatePriceVariantDraft toLowerCase id d "painter")) "model-price-variant-rule-2" at_duplicate ≠ None ∧
  same_specification toLowerCase true false (RuleDraft "model-price-variant-rule-2" "720p" [] []) (RuleDraft "model-price-variant-rule-1" "HD" [] "0.2").
Proof.
  cbv zeta. assert (same_specification toLowerCase true false (RuleDraft "model-price-variant-rule-2" "720p" [] [])
    (RuleDraft "model-price-variant-rule-1" "HD" [] "0.2")) as Hsame by (eexists; split; vm_compute; reflexivity).
  split; [|exact Hsame]. intros E.
  destruct (rule_errors_exact toLowerCase id None (sample_sheet sample_events).1 (sample_sheet sample_events).2 generation "painter"
    (RuleDraft "model-price-variant-rule-2" "720p" [] []) (sample_reached sample_events)) as (_ & _ & _ & H).
  - vm_compute. reflexivity.
  - vm_compute. reflexivity.
  - apply (list_elem_of_lookup_2 _ 1). vm_compute. reflexivity.
  - apply (proj1 H E (RuleDraft "model-price-variant-rule-1" "HD" [] "0.2")); [|vm_compute; discriminate|exact Hsame].
    apply (list_elem_of_lookup_2 _ 0). vm_compute. reflexivity.
Defined.

Lemma lanes_follow_witness :
  synced (run_events toLowerCase id [PromptPrice "3"; LaneToggle completion true; LanePrice completion "15"] (open_sheet None no_ids)).1.
Proof.
  rewrite (surjective_pairing (open_sheet None no_ids)).
  apply (proj2 (lanes_follow toLowerCase id [LaneToggle completion true; LanePrice completion "15"] (open_sheet None no_ids).2 (open_sheet None no_ids).1 "3")).
  vm_compute. reflexivity.
Defined.

(** An input price of zero: the completion price is lost. *)
Definition free_sheet : Sheet :=
  (run_events toLowerCase id [PromptPrice "0"; NameInput "free"; LaneToggle completion true; LanePrice completion "15"] (open_sheet None no_ids)).1.

Lemma token_submit_exact_witness : text_at (d_texts (submit_data toLowerCase free_sheet)) CompletionRatio = [].
Proof.
  assert (synced free_sheet) as Hs by (unfold free_sheet; rewrite (surjective_pairing (open_sheet None no_ids)); apply events_synced, new_synced).
  destruct (token_submit_exact toLowerCase id free_sheet (submit_data toLowerCase free_sheet) completion (of_Z 15) Hs) as [_ H].
  - vm_compute. reflexivity.
  - vm_compute. reflexivity.
  - vm_compute. reflexivity.
  - vm_compute. reflexivity.
  - exact (proj2 (proj2 H) (or_introl eq_refl)).
Defined.
End PriceSheetLifecycle.
