(* ===== verification/PriceSheetSave.v ===== *)
(** * A submitted sheet in the table

    The checks of the price sheet and the table of prices together: what an
    accepted sheet hands over meets what saving relies on, so that the saved row
    shows it. *)

From Stdlib Require Import SpecFloat.
From S2P Require Import Prelude JsString JsRegExp JsNumber JsInteger JsIntegerText JsValue JsObject JsonRoundTrip JsMap BillingExpr PriceVariants PriceTable PriceTableFacts PriceFormat PriceSheet PriceSheetFacts PriceSheetLifecycle.

Module PriceSheetSave.
Import BillingExpr PriceVariants PriceTable PriceTableFacts PriceFormat PriceSheet PriceSheetFacts PriceSheetLifecycle.

(** ** Two readers of numbers *)

Lemma match_dot {A} (r : jsstr) (f : jsstr → A) (d : A) :
  match r with 46%N :: r1 => f r1 | _ => d end = match r with c :: r1 => if (c =? 46)%N then f r1 else d | [] => d end.
Proof. destruct r as [|c r1]; [done|]. destruct c as [|p]; [done|]. by do 6 (destruct p as [p|p|]; try done). Qed.

Lemma match_sign {A} (r : jsstr) (f g : jsstr → A) (d : A) :
  match r with 43%N :: r1 => f r1 | 45%N :: r1 => g r1 | _ => d end =
  match r with c :: r1 => if (c =? 43)%N then f r1 else if (c =? 45)%N then g r1 else d | [] => d end.
Proof. destruct r as [|c r1]; [done|]. destruct c as [|p]; [done|]. by do 6 (destruct p as [p|p|]; try done). Qed.

Lemma span_all P (l : jsstr) : forallb P l = true → span P l = (l, []).
Proof. induction l as [|c l IH]; [done|]. cbn. intros [-> H]%andb_true_iff. by rewrite (IH H). Qed.

(** A finite unsigned literal is the same number to [parseFloat]. *)
Lemma unsigned_agrees neg s : is_finite (parse_unsigned neg s) = true → parse_float_unsigned neg s = parse_unsigned neg s.
Proof.
  unfold parse_unsigned, parse_float_unsigned. destruct (str_eqb s "Infinity") eqn:Ei; [done|].
  destruct (startsWith s "Infinity") eqn:Es.
  { apply startsWith_take in Es. rewrite Es. cbn. done. }
  destruct (span is_digit s) as [ip r]. rewrite match_dot.
  assert (∀ fp r', is_finite (if nonempty ip || nonempty fp then match parse_exp r' with
      Some e => dec_to_num neg (digits_val (ip ++ fp)) (e - Z.of_nat (length fp)) | None => NaN end else NaN) = true →
    (if nonempty ip || nonempty fp then dec_to_num neg (digits_val (ip ++ fp))
      (match r' with
       | c :: r1 => if ((c =? 101) || (c =? 69))%N then
           let '(eneg, r2) := match r1 with d :: t => if (d =? 43)%N then (false, t) else if (d =? 45)%N then (true, t) else (false, r1) | [] => (false, r1) end in
           let ed := (span is_digit r2).1 in if nonempty ed then (if (eneg : bool) then - digits_val ed else digits_val ed)%Z else 0%Z
         else 0%Z
       | [] => 0%Z end - Z.of_nat (length fp)) else NaN) =
    (if nonempty ip || nonempty fp then match parse_exp r' with
      Some e => dec_to_num neg (digits_val (ip ++ fp)) (e - Z.of_nat (length fp)) | None => NaN end else NaN)) as H.
  { intros fp r'. destruct (nonempty ip || nonempty fp); [|done]. unfold parse_exp. destruct r' as [|c r1]; [done|].
    destruct ((c =? 101) || (c =? 69))%N; [|done]. rewrite match_sign.
    destruct (match r1 with [] => _ | _ => _ end) as [eneg ds]. destruct (nonempty ds && forallb is_digit ds) eqn:E; [|done].
    apply andb_true_iff in E as [E1 E2]. rewrite (span_all _ _ E2). cbn [fst]. by rewrite E1. }
  destruct (match r with [] => _ | _ => _ end) as [fp r']. apply H.
Qed.

Lemma number_by_head s : trimmed s = true → Number_of_string s =
  match s with
  | [] => of_Z 0
  | c :: r =>
    if (c =? 43)%N then parse_unsigned false r else if (c =? 45)%N then parse_unsigned true r
    else match r with
         | d :: r' =>
           if (c =? 48)%N then
             if ((d =? 120) || (d =? 88))%N then parse_radix 16 r'
             else if ((d =? 111) || (d =? 79))%N then parse_radix 8 r'
             else if ((d =? 98) || (d =? 66))%N then parse_radix 2 r'
             else parse_unsigned false s
           else parse_unsigned false s
         | [] => parse_unsigned false s
         end
  end.
Proof.
  intros Ht. unfold Number_of_string. rewrite (trim_id s Ht). clear Ht. destruct s as [|c r]; [done|].
  destruct c as [|p]; [by destruct r|]. by do 6 (destruct p as [p|p|]; try (by destruct r)).
Qed.

(** A text that is a finite number is one to [parseFloat], too. *)
Lemma parseFloat_finite s : trimmed s = true → s ≠ [] → is_finite (Number_of_string s) = true → is_finite (parseFloat s) = true.
Proof.
  intros Ht Hne. rewrite (number_by_head s Ht). unfold parseFloat.
  assert (trim_start s = s) as ->.
  { apply trim_start_id. unfold trimmed in Ht. destruct s as [|c s]; [done|]. destruct (last (c :: s)) eqn:E; [|by apply last_None in E].
    cbn in Ht |- *. by destruct (is_ws c). }
  destruct s as [|c r]; [done|].
  destruct (N.eqb_spec c 43) as [->|Hp]; [cbn; intros H; by rewrite unsigned_agrees|].
  destruct (N.eqb_spec c 45) as [->|Hm]; [intros H; by rewrite unsigned_agrees|].
  destruct r as [|d r']; [intros H; by rewrite unsigned_agrees|].
  destruct (N.eqb_spec c 48) as [->|]; [|intros H; by rewrite unsigned_agrees].
  assert (∀ x, is_digit x = false → (x =? 46)%N = false → ((x =? 101) || (x =? 69))%N = false → is_finite (parse_float_unsigned false (48%N :: x :: r')) = true) as Hz.
  { intros x H1 H2 H3. unfold parse_float_unsigned. cbn [startsWith N.eqb Pos.eqb andb]. cbn [span]. change (is_digit 48) with true. cbv iota. rewrite H1.
    cbn. rewrite H2. cbn. done. }
  destruct ((d =? 120) || (d =? 88))%N eqn:E1; [intros _; apply Hz; unfold is_digit; lia|].
  destruct ((d =? 111) || (d =? 79))%N eqn:E2; [intros _; apply Hz; unfold is_digit; lia|].
  destruct ((d =? 98) || (d =? 66))%N eqn:E3; [intros _; apply Hz; unfold is_digit; lia|].
  intros H. by rewrite unsigned_agrees.
Qed.

(** ** The configuration of a draft in the settings *)

Section Saved.
Context (lower : jsstr → jsstr) `{!LowerCase lower} (t : jsstr → jsstr).
Context (Ht : nonempty (t "Formula expression is required.") = true).

(** Numbers whose texts read back, names that are no array indices. *)
Definition storable (d : PriceVariantDraft) : bool :=
  forallb (λ r, readable (Number_of_string (rule_price_text r))) (draft_rules d) &&
  forallb (λ r, readable (Number_of_string (extra_unitPrice r)) && readable (Number_of_string (extra_base r))) (extraParams d) &&
  forallb (λ v, bool_decide (key_index (normalizeModelPriceFormulaName lower (item_key v)) = None) && readable (Number_of_string (item_value v)))
    (variables (formula d)) &&
  forallb (λ v, bool_decide (key_index (normalizeModelPriceFormulaName lower (item_key v)) = None)) (defaults (formula d)).

Lemma members_jsonable (fs : obj) : bool_decide (NoDup fs.*1) && forallb (λ k, bool_decide (key_index k = None)) fs.*1 = true →
  Forall (λ p, jsonable p.2) fs → jsonable (VObj fs).
Proof.
  intros [Hn Hk]%andb_true_iff Hj. apply bool_decide_eq_true in Hn. apply obj_jsonable; [done|]. intros p Hp. rewrite Forall_forall in Hj.
  split; [|by apply Hj]. pose proof (forallb_elem _ _ _ Hk (list_elem_of_fmap_2 fst _ _ Hp)) as H. by apply bool_decide_eq_true in H.
Qed.

(** An object with members that are written out. *)
Ltac members := apply members_jsonable; [cbn [fmap list_fmap fst]; by vm_compute|repeat (apply Forall_cons; split; [done|]); constructor].

Lemma fromEntries_keys es fs : NoDup fs.*1 → NoDup (fold_left (λ fs p, obj_set fs p.1 p.2) es fs).*1.
Proof. revert fs. induction es as [|[k v] es IH]; intros fs Hn; [done|]. cbn. by apply IH, obj_set_NoDup. Qed.

Lemma fromEntries_jsonable es : Forall (λ p, key_index p.1 = None ∧ jsonable p.2) es → jsonable (VObj (fromEntries es)).
Proof.
  intros H. apply obj_jsonable; [apply fromEntries_keys; constructor|]. apply (fromEntries_Forall (λ k, key_index k = None) (λ v, jsonable v)) in H.
  by apply Forall_forall.
Qed.

#[local] Opaque Number_of_string readable.

Lemma rule_jsonable d qe r : readable (Number_of_string (rule_price_text r)) → jsonable (rule_config lower d qe r).
Proof.
  intros Hr. unfold rule_config. destruct (resolutionEnabled d), qe; cbn [app]; members.
Qed.

Lemma extra_jsonable r : readable (Number_of_string (extra_unitPrice r)) → readable (Number_of_string (extra_base r)) → jsonable (extra_config lower r).
Proof.
  intros Hr Hb. unfold extra_config. destruct (nonempty (trim (extra_base r))); cbn [app]; members.
Qed.

Lemma formula_jsonable f :
  Forall (λ v, key_index (normalizeModelPriceFormulaName lower (item_key v)) = None ∧ readable (Number_of_string (item_value v))) (variables f) →
  Forall (λ v, key_index (normalizeModelPriceFormulaName lower (item_key v)) = None) (defaults f) → jsonable (formula_config lower f).
Proof.
  intros Hv Hd. unfold formula_config.
  pose proof (fromEntries_jsonable ((λ v, (normalizeModelPriceFormulaName lower (item_key v), VNum (Number_of_string (item_value v)))) <$> variables f)) as Jv.
  pose proof (fromEntries_jsonable ((λ d, (normalizeModelPriceFormulaName lower (item_key d), VStr (trim (item_value d)))) <$> defaults f)) as Jd.
  rewrite Forall_fmap in Jv, Jd. specialize (Jv Hv). specialize (Jd ltac:(by eapply Forall_impl; [exact Hd|])).
  revert Jv Jd. generalize (fromEntries ((λ v, (normalizeModelPriceFormulaName lower (item_key v), VNum (Number_of_string (item_value v)))) <$> variables f)).
  generalize (fromEntries ((λ d, (normalizeModelPriceFormulaName lower (item_key d), VStr (trim (item_value d)))) <$> defaults f)).
  intros defs vars Jv Jd. destruct (nonempty (trim (expression f))), vars as [|v vars], defs as [|w defs]; cbn [app]; members.
Qed.

Lemma built_jsonable d modelName c : storable d = true → buildPriceVariantConfig lower d modelName = VObj c → jsonable (VObj c).
Proof.
  unfold storable. rewrite !andb_true_iff, !forallb_True'. intros [[[Hr Hx] Hv] Hd]. unfold buildPriceVariantConfig.
  destruct (restoreInherited d); [done|]. destruct (unconfigured lower d modelName); [done|]. intros [= <-].
  assert (jsonable (VArr (rule_config lower d (quality_on lower d modelName) <$> draft_rules d))) as J1.
  { cbn. apply Is_true_true, forallb_True', Forall_fmap. eapply Forall_impl; [exact Hr|]. intros r H. by apply Is_true_true, rule_jsonable, Is_true_true. }
  assert (jsonable (VArr (extra_config lower <$> extraParams d))) as J2.
  { cbn. apply Is_true_true, forallb_True', Forall_fmap. eapply Forall_impl; [exact Hx|]. intros r [H1 H2]%andb_true_iff.
    apply Is_true_true, extra_jsonable; by apply Is_true_true. }
  assert (jsonable (formula_config lower (formula d))) as J3.
  { apply formula_jsonable; (eapply Forall_impl; [eassumption|]); intros v H; [|by apply bool_decide_eq_true in H].
    apply andb_true_iff in H as [H1%bool_decide_eq_true H2]. split; [done|by apply Is_true_true]. }
  destruct (_ || _), (extraParams d), (formula_filled _); cbn [app]; members.
Qed.

(** ** Submitting and saving *)

Lemma built_ok d modelName : storable d = true → restoreInherited d = true ∨ fine_draft lower d modelName →
  let c := buildPriceVariantConfig lower d modelName in
  config_ok lower (if truthy c then cloneModelPriceVariantConfig c (inherited_of false c) else VUndef) = true.
Proof.
  intros Hs Hd. cbv zeta. destruct (build_cases lower d modelName) as [[-> _]|[-> |[c E]]]; [done|done|]. rewrite E. cbn [truthy].
  unfold inherited_of. rewrite clone_inherited. apply (clone_stored lower); [by eapply built_jsonable|]. unfold config_valid.
  destruct Hd as [Hr|Hf]; [|by eapply built_valid]. unfold buildPriceVariantConfig in E. by rewrite Hr in E.
Qed.

(** The numbers of a sheet read back from their texts. *)
Definition storable_sheet (s : Sheet) : bool :=
  forallb (λ f, number_ok (text_at (d_texts (submit_data lower s)) f)) (ModelPrice :: RATIO_FIELDS) &&
  storable (priceVariantDraft s) && storable (imageEditPriceVariantDraft s).

Lemma request_facts s : submit_error lower t s = None → pricingMode s = per_request →
  trim (price (sh_texts s)) ≠ [] ∧ is_finite (Number_of_string (trim (price (sh_texts s)))) = true ∧
  ∀ w, valid (validatePriceVariantDraft lower t (draft_of w s) (sh_name s)) = true.
Proof.
  unfold submit_error. cbv zeta. intros H Hm. rewrite Hm in H. rewrite !bool_decide_eq_true_2 in H by done. cbn [andb] in H.
  assert (nonempty (sh_name s) = true → activeModelName s = sh_name s) as Hn by (unfold activeModelName; by intros ->).
  destruct (nonempty (sh_name s)); cbn [negb] in H; [|done]. rewrite (Hn eq_refl) in H.
  destruct (nonempty (trim (price (sh_texts s)))) eqn:E1; cbn [negb] in H; [|done].
  destruct (is_finite _) eqn:E2; cbn [negb orb] in H; [|done]. destruct (num_ltb _ _); [done|].
  destruct (valid (validatePriceVariantDraft lower t (priceVariantDraft s) _)) eqn:V1; cbn [negb] in H; [|done].
  destruct (valid (validatePriceVariantDraft lower t (imageEditPriceVariantDraft s) _)) eqn:V2; cbn [negb] in H; [|done].
  split; [by apply nonempty_spec|]. split; [done|]. by intros [].
Qed.

Lemma submit_ok data0 s q : reached lower t data0 s q → submit_error lower t s = None → storable_sheet s = true →
  data_ok lower (submit_data lower s) false = true.
Proof.
  intros Hreach Hs. unfold storable_sheet. rewrite !andb_true_iff. intros [[Hn S1] S2].
  assert (∀ w, pricingMode s = per_request → restoreInherited (draft_of w s) = true ∨ fine_draft lower (draft_of w s) (sh_name s)) as Hf.
  { intros w Hm. destruct (reached_issued _ _ _ _ _ Hreach) as (_ & I1 & I2). destruct (request_facts s Hs Hm) as (_ & _ & Hv).
    apply (draft_check lower t); [done|destruct w; by eapply issued_ids_ok|apply Hv]. }
  unfold data_ok. rewrite !andb_true_iff. split_and!; [done|..].
  - unfold saved_variant. cbn [submit_data d_priceVariant]. destruct (decide (pricingMode s = per_request)) as [Hm|]; [|done].
    exact (built_ok (priceVariantDraft s) (sh_name s) S1 (Hf generation Hm)).
  - unfold image_clone. cbn [submit_data d_imageEditPriceVariant]. destruct (decide (pricingMode s = per_request)) as [Hm|]; [|done].
    exact (built_ok (imageEditPriceVariantDraft s) (sh_name s) S2 (Hf image_edit Hm)).
Qed.

Lemma submit_regular s : submit_error lower t s = None → (pricingMode s = tiered_expr → nonempty (combined (submit_data lower s)) = true) →
  regular (submit_data lower s) = true.
Proof.
  intros Hs Hc. unfold regular. change (d_billingMode (submit_data lower s)) with (pricingMode s). destruct (pricingMode s) eqn:Hm; [done| |by apply Hc].
  destruct (request_facts s Hs Hm) as (Hne & Hfin & _).
  change (price (d_texts (submit_data lower s))) with (trim (price (sh_texts s))). unfold number_of.
  rewrite (parseFloat_finite _ (trim_trimmed _) Hne Hfin). by apply nonempty_spec in Hne as ->.
Qed.

(** C36: what a sheet that was opened and edited hands over when its checks pass
    is saved.  Provided the numbers in it read back from their JSON texts
    ([storable_sheet]), the name is neither blank nor an array index
    ([name_ok]), an expression, in that mode, is not empty when combined, and
    the settings can be read and hold values of JSON (none of which the sheet
    checks), saving does not throw, and after the settings were written as texts
    and read again the row of the model is the one [save_exact] describes for
    what was handed over: the numbers of its mode as their parsed values print,
    the unit, the specification prices, and the parts of the expression; every
    other row is as before, and the data is what the sheet shows next. *)
Theorem submit_shows data0 sh q data tb ms :
  reached lower t data0 sh q → handleSubmit lower t sh = inr data → storable_sheet sh = true → name_ok (d_name data) = true →
  (pricingMode sh = tiered_expr → nonempty (combined data) = true) →
  read_settings lower (settings tb) = Ret ms → (∀ f, jsonable (VObj (ms f))) →
  ∃ tb' ms', handleSave lower data tb = Ret tb' ∧ editData tb' = Some data ∧ read_settings lower (settings tb') = Ret ms' ∧
    row_of lower ms' (d_name data) = shown_row lower (d_name data) data false (entry ms ModelRoutePriceVariants (d_name data)) ∧
    ∀ n, n ≠ d_name data → row_of lower ms' n = row_of lower ms n.
Proof.
  intros Hreach [Hs ->]%submit_accepts Hst Hn Hc Hr Hj.
  destruct (save_rows lower (settings tb) ms (submit_data lower sh) false [d_name (submit_data lower sh)]) as (s' & ms' & H1 & H2 & H3);
    [done|done|apply NoDup_singleton|cbn [forallb]; by rewrite Hn|by eapply submit_ok|by apply submit_regular|].
  exists (MkTable s' (Some (submit_data lower sh))), ms'. unfold handleSave. rewrite H1. split_and!; [done|done|done|..].
  - rewrite H3, decide_True; [done|]. by apply list_elem_of_singleton.
  - intros n Hne. rewrite H3, decide_False; [done|]. by intros ?%list_elem_of_singleton.
Qed.
End Saved.

(** ** Witness *)

Definition sold_sheet : Sheet := (sample_sheet (take 7 sample_events)).1.
Definition sample_table : Table := MkTable sample_settings None.

Lemma submit_shows_witness : ∃ tb' ms', handleSave toLowerCase (submit_data toLowerCase sold_sheet) sample_table = Ret tb' ∧
  read_settings toLowerCase (settings tb') = Ret ms' ∧
  row_of toLowerCase ms' "painter" =
    shown_row toLowerCase "painter" (submit_data toLowerCase sold_sheet) false (entry sample_read ModelRoutePriceVariants "painter").
Proof.
  destruct (submit_shows toLowerCase id eq_refl None sold_sheet (sample_sheet (take 7 sample_events)).2 (submit_data toLowerCase sold_sheet) sample_table sample_read
    (sample_reached (take 7 sample_events))) as (tb' & ms' & H1 & _ & H2 & H3 & _).
  - vm_compute. reflexivity.
  - vm_compute. reflexivity.
  - vm_compute. reflexivity.
  - vm_compute. discriminate.
  - exact sample_reads.
  - exact sample_jsonable.
  - exists tb', ms'. split; [exact H1|]. split; [exact H2|]. exact H3.
Defined.
End PriceSheetSave.
