(* ===== verification/AdvancedCustom.v ===== *)
(** * Advanced custom channels ([web/src/features/channels/lib/advanced-custom.ts])

    An advanced custom channel routes incoming API paths to upstream paths,
    optionally restricted to models, through a protocol converter and with its
    own authentication.  The configuration is JSON text in the editor; this
    file translates its normalisation, validation, templates and defaults.

    Configurations are untyped JSON values here, as they are when the text has
    just been parsed: reading a property of [null] and calling [trim] on
    something that is not a string throw, which [exc] makes explicit.  Whether
    the host's [new URL(s)] accepts a text, and with which host and protocol,
    is the parameter [parse_url].  The two label tables are read by own keys
    only. *)

From S2P Require Import Prelude JsString JsRegExp JsNumber JsValue.
Local Open Scope N_scope.

Module AdvancedCustom.

Definition CHANNEL_TYPE_ADVANCED_CUSTOM : Z := 58.
Definition ADVANCED_CUSTOM_MODEL_LIST_PATH : jsstr := "/v1/models".
Definition ADVANCED_CUSTOM_MODEL_LIST_LABEL : jsstr := "OpenAI Models".

(** ** Tables *)

(** A converter with its label and trigger label. *)
Definition ADVANCED_CUSTOM_CONVERTER_OPTIONS : list (jsstr * jsstr * jsstr) := [
  ("none", "Native forwarding", "Native forwarding");
  ("anthropic_messages_to_openai_chat_completions", "Anthropic Messages to OpenAI Chat", "To OpenAI Chat");
  ("openai_chat_completions_to_anthropic_messages", "OpenAI Chat to Anthropic Messages", "To Anthropic Messages");
  ("openai_chat_completions_to_openai_responses", "OpenAI Chat to OpenAI Responses", "To OpenAI Responses");
  ("openai_responses_to_openai_chat_completions", "OpenAI Responses to OpenAI Chat", "To OpenAI Chat");
  ("openai_responses_to_gemini_generate_content", "OpenAI Responses to Gemini Generate Content", "To Gemini Generate Content");
  ("gemini_generate_content_to_openai_chat_completions", "Gemini Generate Content to OpenAI Chat", "To OpenAI Chat");
  ("openai_chat_completions_to_gemini_generate_content", "OpenAI Chat to Gemini Generate Content", "To Gemini Generate Content")
].

Definition ADVANCED_CUSTOM_AUTH_MODE_OPTIONS : list (jsstr * jsstr) := [
  ("default", "Default Bearer"); ("none", "No Auth"); ("header", "Header"); ("query", "Query")
].

Definition ADVANCED_CUSTOM_INCOMING_PATH_OPTIONS : list (jsstr * jsstr) := [
  ("/v1/chat/completions", "OpenAI Chat");
  ("/v1/responses", "OpenAI Responses");
  ("/v1/responses/compact", "OpenAI Responses Compact");
  ("/v1/alpha/search", "OpenAI Alpha Search");
  (ADVANCED_CUSTOM_MODEL_LIST_PATH, ADVANCED_CUSTOM_MODEL_LIST_LABEL);
  ("/v1/embeddings", "OpenAI Embeddings");
  ("/v1/images/generations", "OpenAI Image Generations");
  ("/v1/images/edits", "OpenAI Image Edits");
  ("/v1/completions", "OpenAI Completions");
  ("/v1/audio/speech", "OpenAI Audio Speech");
  ("/v1/audio/transcriptions", "OpenAI Audio Transcriptions");
  ("/v1/audio/translations", "OpenAI Audio Translations");
  ("/v1/rerank", "OpenAI Rerank");
  ("/v1/realtime", "OpenAI Realtime");
  ("/v1/messages", "Claude Messages");
  ("/v1beta/models/{model}:generateContent", "Gemini Generate Content");
  ("/v1beta/models/{model}:embedContent", "Gemini Embed Content");
  ("/v1beta/models/{model}:batchEmbedContents", "Gemini Batch Embed Contents")
].

Definition ADVANCED_CUSTOM_ROUTE_SUMMARY_LABELS : list (jsstr * jsstr) := [
  ("/v1/chat/completions", "OpenAI Chat");
  (ADVANCED_CUSTOM_MODEL_LIST_PATH, ADVANCED_CUSTOM_MODEL_LIST_LABEL)
].

(** Lookup by the first component. *)
Definition table_get (t : list (jsstr * jsstr)) (k : jsstr) : option jsstr :=
  snd <$> List.find (λ p, str_eqb p.1 k) t.

Record AdvancedCustomValidationError := VError {
  message : jsstr;
  routeIndex : option nat;
}.

Definition ADVANCED_CUSTOM_MODEL_REGEX_PREFIX : jsstr := "re:".

Definition openAIChatPath : jsstr := "/v1/chat/completions".
Definition openAIResponsesPath : jsstr := "/v1/responses".
Definition claudeMessagesPath : jsstr := "/v1/messages".
Definition geminiGenerateContentPath : jsstr := "/v1beta/models/{model}:generateContent".

Definition auth_obj (t n v : jsstr) : value :=
  VObj [("type", VStr t); ("name", VStr n); ("value", VStr v)].

Definition bearerHeaderAuth : value := auth_obj "header" "Authorization" "Bearer {api_key}".
Definition apiKeyHeaderAuth : value := auth_obj "header" "x-api-key" "{api_key}".
Definition geminiQueryAuth : value := auth_obj "query" "key" "{api_key}".

Definition route_obj (incoming upstream converter : jsstr) (auth : value) : value :=
  VObj [("incoming_path", VStr incoming); ("upstream_path", VStr upstream); ("converter", VStr converter);
        ("auth", auth)].

Definition config_obj (routes : list value) : value := VObj [("advanced_routes", VArr routes)].

(** The templates: key, label, configuration. *)
Definition ADVANCED_CUSTOM_TEMPLATE_OPTIONS : list (jsstr * jsstr * value) := [
  ("official_openai_chat", "Official OpenAI Chat",
   config_obj [route_obj "/v1/chat/completions" "/v1/chat/completions" "none" bearerHeaderAuth]);
  ("official_openai_responses", "Official OpenAI Responses",
   config_obj [route_obj "/v1/responses" "/v1/responses" "none" bearerHeaderAuth]);
  ("official_openai_embeddings", "Official OpenAI Embeddings",
   config_obj [route_obj "/v1/embeddings" "/v1/embeddings" "none" bearerHeaderAuth]);
  ("official_openai_images", "Official OpenAI Images",
   config_obj [route_obj "/v1/images/generations" "/v1/images/generations" "none" bearerHeaderAuth;
               route_obj "/v1/images/edits" "/v1/images/edits" "none" bearerHeaderAuth]);
  ("official_claude_messages", "Official Claude Messages",
   config_obj [route_obj "/v1/messages" "/v1/messages" "none" apiKeyHeaderAuth]);
  ("official_gemini_native", "Official Gemini Native",
   config_obj [route_obj "/v1beta/models/{model}:generateContent" "/v1beta/models/{model}:generateContent" "none" geminiQueryAuth;
               route_obj "/v1beta/models/{model}:embedContent" "/v1beta/models/{model}:embedContent" "none" geminiQueryAuth;
               route_obj "/v1beta/models/{model}:batchEmbedContents" "/v1beta/models/{model}:batchEmbedContents" "none" geminiQueryAuth]);
  ("official_gemini_from_openai_chat", "Official Gemini from OpenAI Chat",
   config_obj [route_obj "/v1/chat/completions" "/v1beta/models/{model}:generateContent"
                 "openai_chat_completions_to_gemini_generate_content" geminiQueryAuth])
].

(** [JSON.parse(JSON.stringify(config))]; [Throw] when there is no text. *)
Definition cloneAdvancedCustomConfig (config : value) : exc value :=
  match JSON_stringify config with
  | Some t => match JSON_parse t with Some v => Ret v | None => Throw end
  | None => Throw
  end.

Definition getAdvancedCustomTemplateConfig (templateKey : jsstr) : exc value :=
  match List.find (λ o, str_eqb o.1.1 templateKey) ADVANCED_CUSTOM_TEMPLATE_OPTIONS,
        ADVANCED_CUSTOM_TEMPLATE_OPTIONS with
  | Some o, _ => cloneAdvancedCustomConfig o.2
  | None, o :: _ => cloneAdvancedCustomConfig o.2
  | None, [] => Throw
  end.

Definition createAdvancedCustomRoute : value :=
  VObj [("incoming_path", VStr openAIChatPath); ("upstream_path", VStr openAIChatPath); ("converter", VStr "none")].

Definition createAdvancedCustomConfig : value := config_obj [createAdvancedCustomRoute].

(** ** Converters *)

Definition isAdvancedCustomConverter (v : jsstr) : bool :=
  existsb (λ o, str_eqb o.1.1 v) ADVANCED_CUSTOM_CONVERTER_OPTIONS.

Definition isConverterPathAllowed (incomingPath converter : jsstr) : bool :=
  if str_eqb converter "none" then true
  else if str_eqb incomingPath "/v1/alpha/search" then false
  else if str_eqb converter "anthropic_messages_to_openai_chat_completions"
  then str_eqb incomingPath "/v1/messages"
  else if str_eqb converter "openai_chat_completions_to_anthropic_messages"
       || str_eqb converter "openai_chat_completions_to_openai_responses"
       || str_eqb converter "openai_chat_completions_to_gemini_generate_content"
  then str_eqb incomingPath "/v1/chat/completions"
  else if str_eqb converter "openai_responses_to_openai_chat_completions"
  then str_eqb incomingPath "/v1/responses"
  else if str_eqb converter "openai_responses_to_gemini_generate_content"
  then str_eqb incomingPath "/v1/responses"
  else includes incomingPath ":generateContent" || includes incomingPath ":streamGenerateContent".

Definition getAdvancedCustomNativeAuth (incomingPath : jsstr) : value :=
  if str_eqb incomingPath claudeMessagesPath then apiKeyHeaderAuth
  else if includes incomingPath ":generateContent" || includes incomingPath ":streamGenerateContent"
       || includes incomingPath ":embedContent" || includes incomingPath ":batchEmbedContents"
  then geminiQueryAuth
  else bearerHeaderAuth.

Definition getAdvancedCustomIncomingPathOptions (converter : jsstr) : list (jsstr * jsstr) :=
  List.filter (λ o, isConverterPathAllowed o.1 converter) ADVANCED_CUSTOM_INCOMING_PATH_OPTIONS.

Definition getDefaultAdvancedCustomIncomingPath (converter : jsstr) : jsstr :=
  match getAdvancedCustomIncomingPathOptions converter with
  | (p, _) :: _ => if nonempty p then p else "/v1/chat/completions"
  | [] => "/v1/chat/completions"
  end.

(** The upstream path and the authentication a converter starts with. *)
Definition getAdvancedCustomConverterDefaults (converter incomingPath : jsstr) : jsstr * value :=
  let normalizedIncomingPath :=
    if nonempty (trim incomingPath) then trim incomingPath else getDefaultAdvancedCustomIncomingPath converter in
  if str_eqb converter "none" then (normalizedIncomingPath, getAdvancedCustomNativeAuth normalizedIncomingPath)
  else if str_eqb converter "anthropic_messages_to_openai_chat_completions"
       || str_eqb converter "gemini_generate_content_to_openai_chat_completions"
       || str_eqb converter "openai_responses_to_openai_chat_completions"
  then (openAIChatPath, bearerHeaderAuth)
  else if str_eqb converter "openai_chat_completions_to_openai_responses"
  then (openAIResponsesPath, bearerHeaderAuth)
  else if str_eqb converter "openai_chat_completions_to_anthropic_messages"
  then (claudeMessagesPath, apiKeyHeaderAuth)
  else if str_eqb converter "openai_chat_completions_to_gemini_generate_content"
       || str_eqb converter "openai_responses_to_gemini_generate_content"
  then (geminiGenerateContentPath, geminiQueryAuth)
  else (if nonempty normalizedIncomingPath then normalizedIncomingPath else openAIChatPath,
        getAdvancedCustomNativeAuth normalizedIncomingPath).

Definition getAdvancedCustomUpstreamPathPlaceholder (converter : jsstr) (incomingPath : option jsstr) : jsstr :=
  (getAdvancedCustomConverterDefaults converter
     (default (getDefaultAdvancedCustomIncomingPath converter) incomingPath)).1.

Definition isAdvancedCustomIncomingPathAllowed (incomingPath converter : jsstr) : bool :=
  isConverterPathAllowed incomingPath converter.

Definition getAdvancedCustomConverterOptions (incomingPath : jsstr) : list (jsstr * jsstr * jsstr) :=
  List.filter (λ o, str_eqb o.1.1 "none" || isConverterPathAllowed (trim incomingPath) o.1.1)
    ADVANCED_CUSTOM_CONVERTER_OPTIONS.

Definition getAdvancedCustomIncomingPathLabel (v : jsstr) : jsstr :=
  match table_get ADVANCED_CUSTOM_INCOMING_PATH_OPTIONS v with
  | Some l => if nonempty l then l else v
  | None => v
  end.

(** ** Reading untyped values *)

(** [v.k]; reading a property of [null] or [undefined] throws. *)
Definition read (v : value) (k : jsstr) : exc value :=
  match v with VUndef | VNull => Throw | _ => Ret (prop v k) end.

(** [v.trim()]; only strings have the method. *)
Definition trim_value (v : value) : exc jsstr :=
  match v with VStr s => Ret (trim s) | _ => Throw end.

(** [v?.trim() || ''] *)
Definition opt_trim (v : value) : exc jsstr :=
  match v with VUndef | VNull => Ret [] | _ => trim_value v end.

(** [v || s] *)
Definition or_str (v : value) (s : jsstr) : value := if truthy v then v else VStr s.

(** ** Normalisation *)

Definition getAdvancedCustomRouteUpstreamPath (route : value) : exc jsstr :=
  u ← read route "upstream_path"; trim_value (or_str u "").

Definition normalizeAdvancedCustomRouteModels (models : value) : exc (list jsstr) :=
  match models with
  | VArr ms => ts ← mapM trim_value ms; Ret (List.filter nonempty ts)
  | _ => Ret []
  end.

Definition normalize_auth (auth : value) : value :=
  VObj [("type", prop auth "type"); ("name", or_str (prop auth "name") ""); ("value", or_str (prop auth "value") "")].

Definition normalizeAdvancedCustomRoute (route : value) : exc value :=
  incoming ← read route "incoming_path";
  upstream ← getAdvancedCustomRouteUpstreamPath route;
  converter ← read route "converter";
  rawModels ← read route "models";
  models ← normalizeAdvancedCustomRouteModels rawModels;
  auth ← read route "auth";
  Ret (VObj ([("incoming_path", or_str incoming ""); ("upstream_path", VStr upstream);
              ("converter", or_str converter "none")]
             ++ (if Nat.ltb 0 (length models) then [("models", VArr (VStr <$> models))] else [])
             ++ (if truthy auth then [("auth", normalize_auth auth)] else []))).

Definition normalizeAdvancedCustomConfig (config : value) : exc value :=
  routes ← read config "advanced_routes";
  match routes with
  | VArr rs => ns ← mapM normalizeAdvancedCustomRoute rs; Ret (config_obj ns)
  | _ => Ret (config_obj [])
  end.

(** [None] is [null]; every exception inside is caught. *)
Definition parseAdvancedCustomConfig (v : option jsstr) : option value :=
  match v with
  | None => None
  | Some s =>
    if negb (nonempty (trim s)) then None
    else match JSON_parse s with
         | Some (VObj fs) => match normalizeAdvancedCustomConfig (VObj fs) with Ret c => Some c | Throw => None end
         | _ => None
         end
  end.

Definition stringifyAdvancedCustomConfig (config : value) : exc (option jsstr) :=
  c ← normalizeAdvancedCustomConfig config; Ret (JSON_stringify2 c).

Definition parseAdvancedCustomRouteModels (v : jsstr) : list jsstr :=
  set_of (List.filter nonempty (trim <$> split_char 44 v)).

Inductive AdvancedCustomModelRuleKind := exact_rule | regex_rule.

Definition getAdvancedCustomModelRuleKind (modelRule : jsstr) : AdvancedCustomModelRuleKind :=
  if startsWith modelRule ADVANCED_CUSTOM_MODEL_REGEX_PREFIX then regex_rule else exact_rule.

Definition getAdvancedCustomRegexModelPattern (modelRule : jsstr) : jsstr :=
  drop (length ADVANCED_CUSTOM_MODEL_REGEX_PREFIX) modelRule.

(** ** Validation *)

(** What the validation remembers of one incoming path. *)
Record PathState := PState {
  catchAllIndex : option nat;
  path_models : gmap jsstr nat;
}.

(** The state of the validation loop. *)
Record ValidationState := VState {
  routeModelsByPath : gmap jsstr PathState;
  modelListRouteIndex : option nat;
}.

Definition is_regex_empty (model : jsstr) : bool :=
  match getAdvancedCustomModelRuleKind model with
  | regex_rule => str_eqb (getAdvancedCustomRegexModelPattern model) ""
  | exact_rule => false
  end.

(** The loop over the models of a route: the first complaint, or the models of
    the path with the new ones. *)
Fixpoint check_models (index : nat) (seen : list jsstr) (known : gmap jsstr nat) (models : list jsstr) :
    AdvancedCustomValidationError + gmap jsstr nat :=
  match models with
  | [] => inr known
  | model :: rest =>
    if is_regex_empty model then inl (VError "Model regex cannot be empty" (Some index))
    else if set_has seen model then inl (VError "Duplicate model in route models" (Some index))
    else if bool_decide (is_Some (known !! model))
    then inl (VError "Route models must be unique for the same incoming path" (Some index))
    else check_models index (set_add seen model) (<[model := index]> known) rest
  end.

Definition validateAdvancedCustomRouteModels (index : nat) (incomingPath : jsstr) (models : list jsstr)
    (byPath : gmap jsstr PathState) : AdvancedCustomValidationError + gmap jsstr PathState :=
  let state := default (PState None ∅) (byPath !! incomingPath) in
  match models with
  | [] =>
    match catchAllIndex state with
    | Some _ => inl (VError "Only one catch-all route is allowed for the same incoming path" (Some index))
    | None => inr (<[incomingPath := PState (Some index) (path_models state)]> byPath)
    end
  | _ =>
    match catchAllIndex state with
    | Some _ => inl (VError "Catch-all route must be last for the same incoming path" (Some index))
    | None =>
      match check_models index [] (path_models state) models with
      | inl e => inl e
      | inr known => inr (<[incomingPath := PState None known]> byPath)
      end
    end
  end.

(** [auth.name?.trim()] is falsy. *)
Definition validateRouteAuth (auth : value) : exc (option jsstr) :=
  if negb (truthy auth) then Ret None
  else
    let t := prop auth "type" in
    let has s := match t with VStr x => str_eqb x s | _ => false end in
    if has "none" then Ret None
    else if negb (has "header") && negb (has "query") then Ret (Some "Auth type is invalid")
    else
      n ← opt_trim (prop auth "name");
      if negb (nonempty n) then Ret (Some "Auth name is required")
      else
        v ← opt_trim (prop auth "value");
        Ret (if negb (nonempty v) then Some "Auth value is required" else None).

Section Url.
(** The host and the protocol of a text [new URL] accepts. *)
Context (parse_url : jsstr → option (jsstr * jsstr)).

Definition isFullHttpURLOrAbsolutePath (v : jsstr) : bool :=
  if startsWith v "/" then negb (startsWith v "//")
  else match parse_url v with
       | Some (host, protocol) => nonempty host && (str_eqb protocol "http:" || str_eqb protocol "https:")
       | None => false
       end.

(** The checks of the model list route. *)
Definition check_model_list (index : nat) (models : list jsstr) (native : bool) (upstreamPath : jsstr)
    (known : option nat) : AdvancedCustomValidationError + option nat :=
  match known with
  | Some _ => inl (VError "Only one OpenAI Models route is allowed" (Some index))
  | None =>
    if Nat.ltb 0 (length models)
    then inl (VError "OpenAI Models route does not support client model rules" (Some index))
    else if negb native then inl (VError "OpenAI Models route must use native forwarding" (Some index))
    else if includes upstreamPath "{model}"
    then inl (VError "OpenAI Models upstream path must not contain {model}" (Some index))
    else inr (Some index)
  end.

(** A converter that is registered, as its text. *)
Definition registered (converter : value) : option jsstr :=
  match converter with
  | VStr c => if isAdvancedCustomConverter c then Some c else None
  | _ => None
  end.

(** One turn of the validation loop. *)
Definition validate_route (index : nat) (route : value) (st : ValidationState) :
    exc (AdvancedCustomValidationError + ValidationState) :=
  let err m := Ret (inl (VError m (Some index))) in
  incomingPath ← opt_trim (prop route "incoming_path");
  upstreamPath ← getAdvancedCustomRouteUpstreamPath route;
  let converter := or_str (prop route "converter") "none" in
  let native := match converter with VStr c => str_eqb c "none" | _ => false end in
  routeModels ← normalizeAdvancedCustomRouteModels (prop route "models");
  if negb (nonempty incomingPath) then err "Incoming path is required"
  else if negb (startsWith incomingPath "/") then err "Incoming path must start with /"
  else if includes incomingPath "?" then err "Incoming path must not include query"
  else
    match (if str_eqb incomingPath ADVANCED_CUSTOM_MODEL_LIST_PATH
           then check_model_list index routeModels native upstreamPath (modelListRouteIndex st)
           else inr (modelListRouteIndex st)) with
    | inl e => Ret (inl e)
    | inr listIndex =>
      match validateAdvancedCustomRouteModels index incomingPath routeModels (routeModelsByPath st) with
      | inl e => Ret (inl e)
      | inr byPath =>
        if negb (nonempty upstreamPath) then err "Upstream path is required"
        else if negb (isFullHttpURLOrAbsolutePath upstreamPath)
        then err "Upstream path must be a full URL or a path starting with /"
        else match registered converter with
             | None => err "Converter is not registered"
             | Some c =>
               if negb (isConverterPathAllowed incomingPath c) then err "Converter does not match incoming path"
               else
                 authError ← validateRouteAuth (prop route "auth");
                 match authError with
                 | Some m => err m
                 | None => Ret (inr (VState byPath listIndex))
                 end
             end
      end
    end.

Fixpoint validate_routes (index : nat) (routes : list value) (st : ValidationState) :
    exc (option AdvancedCustomValidationError) :=
  match routes with
  | [] => Ret None
  | route :: rest =>
    r ← validate_route index route st;
    match r with
    | inl e => Ret (Some e)
    | inr st' => validate_routes (S index) rest st'
    end
  end.

(** The routes of a normalised configuration. *)
Definition routes_of (config : value) : list value :=
  match prop config "advanced_routes" with VArr rs => rs | _ => [] end.

(** [config] is [VNull] when there is none. *)
Definition validateAdvancedCustomConfig (config : value) : exc (option AdvancedCustomValidationError) :=
  if negb (truthy config) then Ret (Some (VError "Advanced custom configuration is required" None))
  else
    normalized ← normalizeAdvancedCustomConfig config;
    match routes_of normalized with
    | [] => Ret (Some (VError "Advanced custom configuration requires at least one route" None))
    | routes => validate_routes 0 routes (VState ∅ None)
    end.

(** [routes.some(route => test(route))] where the test may throw. *)
Fixpoint some_route (test : value → exc bool) (routes : list value) : exc bool :=
  match routes with
  | [] => Ret false
  | r :: rest => b ← test r; if (b : bool) then Ret true else some_route test rest
  end.

Definition hasValidAdvancedCustomModelListRoute (config : value) : exc bool :=
  if negb (truthy config) then Ret false
  else
    e ← validateAdvancedCustomConfig config;
    match e with
    | Some _ => Ret false
    | None =>
      normalized ← normalizeAdvancedCustomConfig config;
      some_route (λ route, p ← opt_trim (prop route "incoming_path");
                           Ret (str_eqb p ADVANCED_CUSTOM_MODEL_LIST_PATH)) (routes_of normalized)
    end.

Definition getAdvancedCustomRouteSummaryLabel (route : value) : exc (option jsstr) :=
  incomingPath ← opt_trim (prop route "incoming_path");
  Ret (if negb (nonempty incomingPath) then None
       else match table_get ADVANCED_CUSTOM_ROUTE_SUMMARY_LABELS incomingPath with
            | Some l => Some l
            | None => Some (getAdvancedCustomIncomingPathLabel incomingPath)
            end).

Record AdvancedCustomStats := Stats {
  routeCount : nat;
  valid : bool;
  routeTypeLabels : list jsstr;
}.

Definition getAdvancedCustomStats (v : option jsstr) : exc AdvancedCustomStats :=
  match parseAdvancedCustomConfig v with
  | None => Ret (Stats 0 false [])
  | Some config =>
    normalized ← normalizeAdvancedCustomConfig config;
    let routes := routes_of normalized in
    labels ← mapM getAdvancedCustomRouteSummaryLabel routes;
    e ← validateAdvancedCustomConfig normalized;
    Ret (Stats (length routes) (match e with None => true | Some _ => false end)
           (set_of (List.filter nonempty (omap id labels))))
  end.
End Url.

Definition advancedCustomConfigUsesRelativeUpstreamPath (config : value) : exc bool :=
  if negb (truthy config) then Ret false
  else
    normalized ← normalizeAdvancedCustomConfig config;
    some_route (λ route, u ← getAdvancedCustomRouteUpstreamPath route; Ret (startsWith u "/"))
      (routes_of normalized).

(** ** Editing the authentication *)

Definition getAdvancedCustomAuthMode (route : value) : value :=
  or_str (prop (prop route "auth") "type") "default".

(** [VUndef] is no authentication entry. *)
Definition buildAdvancedCustomAuth (mode : jsstr) (previousAuth : value) : value :=
  if str_eqb mode "default" then VUndef
  else if str_eqb mode "none" then VObj [("type", VStr "none")]
  else if str_eqb mode "header" then
    VObj [("type", VStr "header"); ("name", or_str (prop previousAuth "name") "Authorization");
          ("value", or_str (prop previousAuth "value") "Bearer {api_key}")]
  else
    VObj [("type", VStr "query"); ("name", or_str (prop previousAuth "name") "api_key");
          ("value", or_str (prop previousAuth "value") "{api_key}")].

Example templates_text :
  forallb (λ o, match cloneAdvancedCustomConfig o.2 with
                | Ret c => bool_decide (JSON_stringify2 c = JSON_stringify2 o.2)
                | Throw => false
                end) ADVANCED_CUSTOM_TEMPLATE_OPTIONS = true.
Proof. vm_compute. reflexivity. Qed.
End AdvancedCustom.
