(* ===== verification/AdvancedCustomFacts.v ===== *)
(** * Theorems on advanced custom channels

    Normalisation is idempotent, the validation accepts exactly the
    configurations whose routes are well formed and do not compete for a
    model, the built-in templates and converter defaults are accepted, and the
    editor text of a configuration reads back as that configuration. *)

From S2P Require Import Prelude JsString JsRegExp JsNumber JsValue JsObject JsonRoundTrip AdvancedCustom.
Local Open Scope N_scope.

Module AdvancedCustomFacts.
Import AdvancedCustom.

(** ** The error monad *)

Lemma bind_ret {A B} (x : exc A) (f : A → exc B) y :
  (x ≫= f) = Ret y ↔ ∃ a, x = Ret a ∧ f a = Ret y.
Proof. destruct x; cbn; split; [done|by intros (? & ? & _)|eauto|by intros (a' & [= ->] & ?)]. Qed.

Lemma mapM_ret {A B} (f : A → exc B) xs ys :
  mapM f xs = Ret ys ↔ Forall2 (λ x y, f x = Ret y) xs ys.
Proof.
  revert ys. induction xs as [|x xs IH]; intros ys; cbn [mapM].
  - split; [intros [= <-]; constructor|]. intros H. by inversion H.
  - rewrite bind_ret. setoid_rewrite bind_ret. setoid_rewrite IH. split.
    + intros (y & Hy & zs & Hzs & [= <-]). by constructor.
    + intros H. inversion H as [|x' y xs' zs Hy Hzs]; subst. exists y. split; [done|]. by exists zs.
Qed.

Lemma mapM_id {A} (f : A → exc A) xs : Forall (λ x, f x = Ret x) xs → mapM f xs = Ret xs.
Proof. intros H. apply mapM_ret. induction H; constructor; auto. Qed.

(** ** Normalisation *)

Lemma or_str_idemp v s : or_str (or_str v s) s = or_str v s.
Proof. unfold or_str. destruct (truthy v) eqn:E; [by rewrite E|]. by destruct (truthy (VStr s)). Qed.

Lemma trim_value_ret v s : trim_value v = Ret s ↔ ∃ t, v = VStr t ∧ s = trim t.
Proof. destruct v; cbn; split; try done; try (by intros (? & ? & _)); [intros [= <-]; eauto|by intros (? & [= ->] & ->)]. Qed.

Lemma mapM_trim ts : mapM trim_value (VStr <$> ts) = Ret (trim <$> ts).
Proof. apply mapM_ret. induction ts; constructor; auto. Qed.

(** Model rules come out trimmed and not empty. *)
Definition rules_normal (ms : list jsstr) : Prop := Forall (λ m, trim m = m ∧ nonempty m = true) ms.

Lemma route_models_normal v ms : normalizeAdvancedCustomRouteModels v = Ret ms → rules_normal ms.
Proof.
  unfold normalizeAdvancedCustomRouteModels. intros H. destruct v; try by (injection H as <-; constructor).
  apply bind_ret in H as (ts & Hts & [= <-]). apply mapM_ret in Hts.
  unfold rules_normal. rewrite Forall_forall. intros m [Hm Hn]%elem_of_lfilter.
  split; [|done]. clear Hn. induction Hts as [|x y xs ys Hxy Hts IH]; [set_solver|].
  apply elem_of_cons in Hm as [->|Hm]; [|auto].
  apply trim_value_ret in Hxy as (t & _ & ->). apply trim_idemp.
Qed.

Lemma route_models_again ms :
  rules_normal ms → normalizeAdvancedCustomRouteModels (VArr (VStr <$> ms)) = Ret ms.
Proof.
  intros H. unfold normalizeAdvancedCustomRouteModels. rewrite mapM_trim. cbn. f_equal.
  unfold rules_normal in H. rewrite Forall_forall in H.
  assert (trim <$> ms = ms) as ->.
  { induction ms as [|m ms IH]; [done|]. cbn. rewrite (proj1 (H m ltac:(set_solver))). f_equal. apply IH. set_solver. }
  apply list_filter_all. intros m Hm. by apply H.
Qed.

(** The fields of a normalised route. *)
Definition norm_route (inc : value) (up : jsstr) (conv : value) (ms : list jsstr) (auth : option value) : value :=
  VObj ([("incoming_path", inc); ("upstream_path", VStr up); ("converter", conv)]
        ++ (if Nat.ltb 0 (length ms) then [("models", VArr (VStr <$> ms))] else [])
        ++ match auth with Some a => [("auth", a)] | None => [] end).

Lemma norm_route_props inc up conv ms auth :
  let r := norm_route inc up conv ms auth in
  prop r "incoming_path" = inc ∧ prop r "upstream_path" = VStr up ∧ prop r "converter" = conv ∧
  prop r "models" = (if Nat.ltb 0 (length ms) then VArr (VStr <$> ms) else VUndef) ∧
  prop r "auth" = default VUndef auth.
Proof. unfold norm_route. by destruct ms, auth. Qed.

Lemma normalize_auth_idemp a : normalize_auth (normalize_auth a) = normalize_auth a.
Proof.
  unfold normalize_auth. cbn [prop obj_get]. str_eval. cbn [from_option id]. by rewrite !or_str_idemp.
Qed.

(** [null] and [undefined] have no properties. *)
Definition nullish (v : value) : bool := match v with VUndef | VNull => true | _ => false end.

Lemma read_ret v k w : read v k = Ret w ↔ nullish v = false ∧ w = prop v k.
Proof. destruct v; cbn; split; try (by intros [? _]); try done; try (by intros [= <-]); by intros [_ ->]. Qed.

Lemma upstream_ret r up :
  getAdvancedCustomRouteUpstreamPath r = Ret up ↔
  nullish r = false ∧ ∃ t, or_str (prop r "upstream_path") "" = VStr t ∧ up = trim t.
Proof.
  unfold getAdvancedCustomRouteUpstreamPath. rewrite bind_ret. setoid_rewrite read_ret.
  setoid_rewrite trim_value_ret. naive_solver.
Qed.

Lemma normalize_route_ret r n :
  normalizeAdvancedCustomRoute r = Ret n ↔
  ∃ up ms, getAdvancedCustomRouteUpstreamPath r = Ret up ∧
    normalizeAdvancedCustomRouteModels (prop r "models") = Ret ms ∧
    n = norm_route (or_str (prop r "incoming_path") "") up (or_str (prop r "converter") "none") ms
          (if truthy (prop r "auth") then Some (normalize_auth (prop r "auth")) else None).
Proof.
  unfold normalizeAdvancedCustomRoute. destruct (nullish r) eqn:En.
  { destruct r; try done; (split; [done|]); intros (up & ms & H & _); apply upstream_ret in H as [? _]; done. }
  assert (∀ k, read r k = Ret (prop r k)) as Hr by (intros k; by apply read_ret).
  rewrite !Hr. cbn [mbind exc_bind]. destruct (getAdvancedCustomRouteUpstreamPath r) as [|up]; cbn [mbind exc_bind].
  { split; [done|]. by intros (? & ? & ? & _). }
  destruct (normalizeAdvancedCustomRouteModels _) as [|ms]; cbn [mbind exc_bind].
  { split; [done|]. by intros (? & ? & _ & ? & _). }
  unfold norm_route. split.
  - intros [= <-]. exists up, ms. split; [done|]. split; [done|]. by destruct (truthy (prop r "auth")).
  - intros (up' & ms' & [= <-] & [= <-] & ->). f_equal. by destruct (truthy (prop r "auth")).
Qed.

Lemma normalize_route_idemp r n : normalizeAdvancedCustomRoute r = Ret n → normalizeAdvancedCustomRoute n = Ret n.
Proof.
  intros (up & ms & Hup & Hms & ->)%normalize_route_ret. apply normalize_route_ret.
  destruct (norm_route_props (or_str (prop r "incoming_path") "") up (or_str (prop r "converter") "none") ms
    (if truthy (prop r "auth") then Some (normalize_auth (prop r "auth")) else None)) as (P1 & P2 & P3 & P4 & P5).
  exists up, ms. rewrite P1, P3, P4, P5, !or_str_idemp. split; [|split].
  - apply upstream_ret. split; [done|]. rewrite P2. apply upstream_ret in Hup as (_ & t & _ & ->).
    exists (trim t). split; [|by rewrite trim_idemp]. unfold or_str. cbn [truthy]. by destruct (trim t).
  - pose proof (route_models_normal _ _ Hms) as Hn. destruct ms as [|m ms]; [done|]. by apply route_models_again.
  - destruct (truthy (prop r "auth")); cbn [default]; [|done]. unfold from_option, id.
    rewrite normalize_auth_idemp. done.
Qed.

Lemma normalize_config_ret c n :
  normalizeAdvancedCustomConfig c = Ret n ↔
  nullish c = false ∧ ∃ ns, n = config_obj ns ∧
    match prop c "advanced_routes" with
    | VArr rs => mapM normalizeAdvancedCustomRoute rs = Ret ns
    | _ => ns = []
    end.
Proof.
  unfold normalizeAdvancedCustomConfig. rewrite bind_ret. setoid_rewrite read_ret. split.
  - intros (rs & (Hn & ->) & H). split; [done|].
    destruct (prop c "advanced_routes"); try (injection H as <-; by eexists).
    apply bind_ret in H as (ns & ? & [= <-]). eauto.
  - intros (Hn & ns & -> & H). eexists. split; [done|].
    destruct (prop c "advanced_routes"); try (by subst ns). apply bind_ret. eauto.
Qed.

Lemma normalize_config_idemp c n : normalizeAdvancedCustomConfig c = Ret n → normalizeAdvancedCustomConfig n = Ret n.
Proof.
  intros (_ & ns & -> & H)%normalize_config_ret. apply normalize_config_ret. split; [done|]. exists ns.
  split; [done|]. change (prop (config_obj ns) "advanced_routes") with (VArr ns). cbv iota.
  apply mapM_id. destruct (prop c "advanced_routes"); try (by subst ns; constructor).
  apply mapM_ret in H. rewrite Forall_forall. intros n' Hin.
  induction H; [set_solver|]. apply elem_of_cons in Hin as [->|]; [|auto]. by eapply normalize_route_idemp.
Qed.

(** ** Model rules of one path *)

Lemma check_models_spec i seen known ms known' :
  check_models i seen known ms = inr known' ↔
  NoDup ms ∧ (∀ m, m ∈ ms → (m ∉ seen) ∧ known !! m = None ∧ is_regex_empty m = false) ∧
  known' = fold_left (λ k m, insert m i k) ms known.
Proof.
  revert seen known. induction ms as [|m ms IH]; intros seen known; cbn [check_models fold_left].
  - split; [intros [= <-]; split; [constructor|set_solver]|]. by intros (_ & _ & ->).
  - destruct (is_regex_empty m) eqn:E1.
    { split; [done|]. intros (_ & H & _). destruct (H m) as (_ & _ & ?); [set_solver|congruence]. }
    unfold set_has. case_bool_decide as E2.
    { split; [done|]. intros (_ & H & _). destruct (H m) as (? & _ & _); [set_solver|done]. }
    case_bool_decide as E3.
    { split; [done|]. intros (_ & H & _). destruct (H m) as (_ & E & _); [set_solver|]. rewrite E in E3. by destruct E3. }
    rewrite IH, NoDup_cons. apply eq_None_not_Some in E3. setoid_rewrite elem_of_set_add. split.
    + intros (Hnd & H & ->). split.
      * split; [|done]. intros Hm. destruct (H m Hm) as (Hs & _). tauto.
      * split; [|done]. intros m' [->|Hm']%elem_of_cons; [done|].
        destruct (H m' Hm') as (Hs & Hk & He). split; [tauto|]. split; [|done].
        rewrite lookup_insert_ne in Hk by (intros ->; tauto). done.
    + intros ([Hm Hnd] & H & ->). split; [done|]. split; [|done]. intros m' Hm'.
      destruct (H m') as (Hs & Hk & He); [set_solver|]. assert (m ≠ m') by (intros ->; done).
      split; [|by rewrite lookup_insert_ne]. intros [->|]; done.
Qed.

Lemma fold_insert_None {A} (ms : list jsstr) (i : A) (known : gmap jsstr A) m :
  (fold_left (λ k m, insert m i k) ms known) !! m = None ↔ (m ∉ ms) ∧ known !! m = None.
Proof.
  revert known. induction ms as [|x ms IH]; intros known; cbn.
  - split; [by split; [apply not_elem_of_nil|]|tauto].
  - rewrite IH, not_elem_of_cons. destruct (decide (x = m)) as [->|Hne].
    + rewrite lookup_insert_eq. naive_solver.
    + rewrite lookup_insert_ne by done. naive_solver.
Qed.

(** What is known of a path. *)
Definition path_state (by_path : gmap jsstr PathState) (p : jsstr) : PathState :=
  default (PState None ∅) (by_path !! p).

(** The state after a route with model rules [ms] for path [p]. *)
Definition add_models (i : nat) (p : jsstr) (ms : list jsstr) (by_path : gmap jsstr PathState) : gmap jsstr PathState :=
  <[p := PState (match ms with [] => Some i | _ => None end)
           (fold_left (λ k m, insert m i k) ms (path_models (path_state by_path p)))]> by_path.

Lemma validate_models_spec i p ms by_path by_path' :
  validateAdvancedCustomRouteModels i p ms by_path = inr by_path' ↔
  catchAllIndex (path_state by_path p) = None ∧ NoDup ms ∧
  (∀ m, m ∈ ms → path_models (path_state by_path p) !! m = None ∧ is_regex_empty m = false) ∧
  by_path' = add_models i p ms by_path.
Proof.
  unfold validateAdvancedCustomRouteModels. fold (path_state by_path p). unfold add_models.
  destruct ms as [|m0 ms0]; [|set (ms := m0 :: ms0)]; destruct (catchAllIndex _) eqn:E.
  - split; [done|]. by intros [? _].
  - split; [intros [= <-]|by intros (_ & _ & _ & ->)].
    repeat split; try done; try constructor; by apply elem_of_nil in H.
  - split; [done|]. by intros [? _].
  - destruct (check_models i [] _ ms) as [e|known] eqn:Ec.
    + split; [done|]. intros (_ & Hnd & H & _). exfalso.
      assert (check_models i [] (path_models (path_state by_path p)) ms =
        inr (fold_left (λ k m, insert m i k) ms (path_models (path_state by_path p)))) as Ec'.
      { apply check_models_spec. split; [done|]. split; [|done]. intros m Hm.
        destruct (H m Hm). split; [apply not_elem_of_nil|done]. }
      by rewrite Ec in Ec'.
    + apply check_models_spec in Ec as (Hnd & H & ->). split.
      * intros [= <-]. split; [done|]. split; [done|]. split; [|done]. intros m Hm. by destruct (H m Hm) as (_ & ? & ?).
      * by intros (_ & _ & _ & ->).
Qed.

(** ** One route *)

Section Url.
Context (parse_url : jsstr → option (jsstr * jsstr)).

(** The parts of a route the validation reads. *)
Definition path_of (r : value) : jsstr := match prop r "incoming_path" with VStr s => trim s | _ => [] end.
Definition models_of (r : value) : list jsstr :=
  match normalizeAdvancedCustomRouteModels (prop r "models") with Ret ms => ms | Throw => [] end.
Definition upstream_of (r : value) : jsstr :=
  match getAdvancedCustomRouteUpstreamPath r with Ret u => u | Throw => [] end.
Definition converter_of (r : value) : jsstr :=
  match or_str (prop r "converter") "none" with VStr c => c | _ => [] end.

(** A route that is well formed by itself. *)
Record route_ok (r : value) : Prop := {
  ok_path : path_of r ≠ [] ∧ startsWith (path_of r) "/" = true ∧ includes (path_of r) "?" = false;
  ok_upstream : upstream_of r ≠ [] ∧ isFullHttpURLOrAbsolutePath parse_url (upstream_of r) = true;
  ok_converter : isAdvancedCustomConverter (converter_of r) = true
                 ∧ isConverterPathAllowed (path_of r) (converter_of r) = true;
  ok_models : normalizeAdvancedCustomRouteModels (prop r "models") = Ret (models_of r)
              ∧ NoDup (models_of r) ∧ Forall (λ m, is_regex_empty m = false) (models_of r);
  ok_auth : validateRouteAuth (prop r "auth") = Ret None;
  ok_model_list : path_of r = ADVANCED_CUSTOM_MODEL_LIST_PATH →
                  models_of r = [] ∧ converter_of r = "none" ∧ includes (upstream_of r) "{model}" = false;
}.

(** A route the state leaves room for. *)
Definition fits (r : value) (st : ValidationState) : Prop :=
  (path_of r = ADVANCED_CUSTOM_MODEL_LIST_PATH → modelListRouteIndex st = None) ∧
  catchAllIndex (path_state (routeModelsByPath st) (path_of r)) = None ∧
  (∀ m, m ∈ models_of r → path_models (path_state (routeModelsByPath st) (path_of r)) !! m = None).

Definition add_route (i : nat) (r : value) (st : ValidationState) : ValidationState :=
  VState (add_models i (path_of r) (models_of r) (routeModelsByPath st))
    (if str_eqb (path_of r) ADVANCED_CUSTOM_MODEL_LIST_PATH then Some i else modelListRouteIndex st).

Lemma opt_trim_ret v s :
  opt_trim v = Ret s → s ≠ [] → ∃ t, v = VStr t ∧ s = trim t.
Proof. destruct v; cbn; intros H Hs; try done; simplify_eq; eauto. Qed.

Lemma check_model_list_spec i ms native up known k' :
  check_model_list i ms native up known = inr k' ↔
  known = None ∧ ms = [] ∧ native = true ∧ includes up "{model}" = false ∧ k' = Some i.
Proof.
  unfold check_model_list. destruct known; [by split; [|intros [? _]]|]. destruct ms; cbn.
  2:{ split; [done|]. by intros (_ & ? & _). }
  destruct native; cbn; [|by split; [|intros (_ & _ & ? & _)]].
  destruct (includes up "{model}"); [by split; [|intros (_ & _ & _ & ? & _)]|].
  split; [by intros [= <-]|]. by intros (_ & _ & _ & _ & ->).
Qed.

Lemma registered_spec v c :
  registered v = Some c ↔ v = VStr c ∧ isAdvancedCustomConverter c = true.
Proof.
  unfold registered. destruct v; try (by split; [|intros [? _]]).
  destruct (isAdvancedCustomConverter s) eqn:E; split; [by intros [= <-]|by intros [[= ->] _]|done|].
  intros [[= ->] H]. congruence.
Qed.

Lemma validate_route_sound i r st st' :
  validate_route parse_url i r st = Ret (inr st') → route_ok r ∧ fits r st ∧ st' = add_route i r st.
Proof.
  unfold validate_route. intros (p & Hp & (up & Hup & (ms & Hms & H)%bind_ret)%bind_ret)%bind_ret.
  destruct (nonempty p) eqn:E1; cbn [negb] in H; [|done].
  destruct (startsWith p "/") eqn:E2; cbn [negb] in H; [|done].
  destruct (includes p "?") eqn:E3; [done|].
  destruct (if str_eqb p _ then _ else _) as [e|li] eqn:Eli; [done|].
  destruct (validateAdvancedCustomRouteModels _ _ _ _) as [e|bp] eqn:Em; [done|].
  destruct (nonempty up) eqn:E4; cbn [negb] in H; [|done].
  destruct (isFullHttpURLOrAbsolutePath parse_url up) eqn:E5; cbn [negb] in H; [|done].
  destruct (registered _) as [c|] eqn:Er; [|done].
  destruct (isConverterPathAllowed p c) eqn:E6; cbn [negb] in H; [|done].
  apply bind_ret in H as (ae & Ha & H). destruct ae; [done|]. injection H as <-.
  apply nonempty_spec in E1, E4. apply opt_trim_ret in Hp as (t & Ht & Hpt); [|done].
  apply registered_spec in Er as [Ec Er]. apply validate_models_spec in Em as (M1 & M2 & M3 & ->).
  assert (path_of r = p) as Pp by (unfold path_of; by rewrite Ht).
  assert (models_of r = ms) as Pm by (unfold models_of; by rewrite Hms).
  assert (upstream_of r = up) as Pu by (unfold upstream_of; by rewrite Hup).
  assert (converter_of r = c) as Pc by (unfold converter_of; by rewrite Ec).
  assert (str_eqb p ADVANCED_CUSTOM_MODEL_LIST_PATH = true →
    modelListRouteIndex st = None ∧ ms = [] ∧ c = "none" ∧ includes up "{model}" = false ∧ li = Some i) as Hl.
  { intros El. rewrite El, Ec in Eli. apply check_model_list_spec in Eli as (? & ? & Hc & ? & ?).
    by apply str_eqb_spec in Hc. }
  split; [|split].
  - constructor; rewrite ?Pp, ?Pm, ?Pu, ?Pc; try done.
    + split; [done|]. split; [done|]. rewrite Forall_forall. intros m Hm. by apply M3.
    + intros El%str_eqb_spec. by destruct (Hl El) as (_ & ? & ? & ? & _).
  - unfold fits. rewrite Pp, Pm. split; [|split; [done|]].
    + intros El%str_eqb_spec. by destruct (Hl El).
    + intros m Hm. by apply M3.
  - unfold add_route. rewrite Pp, Pm. f_equal. destruct (str_eqb p _) eqn:El.
    + by destruct (Hl eq_refl) as (_ & _ & _ & _ & ->).
    + by injection Eli.
Qed.

Lemma validate_route_complete i r st :
  route_ok r → fits r st → validate_route parse_url i r st = Ret (inr (add_route i r st)).
Proof.
  intros [(P1 & P2 & P3) [U1 U2] [C1 C2] (M1 & M2 & M3) A L] (F1 & F2 & F3). unfold validate_route.
  assert (∃ t, prop r "incoming_path" = VStr t ∧ path_of r = trim t) as (t & Ht & Hpt).
  { unfold path_of in *. destruct (prop r "incoming_path"); try done. eauto. }
  assert (getAdvancedCustomRouteUpstreamPath r = Ret (upstream_of r)) as Hu.
  { unfold upstream_of in *. by destruct (getAdvancedCustomRouteUpstreamPath r). }
  assert (or_str (prop r "converter") "none" = VStr (converter_of r)) as Hc.
  { unfold converter_of in *. by destruct (or_str (prop r "converter") "none"). }
  rewrite Ht. cbn [opt_trim trim_value mbind exc_bind]. rewrite <- Hpt, Hu, M1, Hc. cbn [mbind exc_bind].
  rewrite (proj2 (nonempty_spec _) P1), P2, P3. cbn [negb].
  assert ((if str_eqb (path_of r) ADVANCED_CUSTOM_MODEL_LIST_PATH
    then check_model_list i (models_of r) (str_eqb (converter_of r) "none") (upstream_of r) (modelListRouteIndex st)
    else inr (modelListRouteIndex st)) =
    inr (if str_eqb (path_of r) ADVANCED_CUSTOM_MODEL_LIST_PATH then Some i else modelListRouteIndex st)) as ->.
  { destruct (str_eqb (path_of r) _) eqn:El; [|done]. apply str_eqb_spec in El. destruct (L El) as (-> & -> & L3).
    apply check_model_list_spec. by rewrite F1. }
  rewrite (proj2 (validate_models_spec i (path_of r) (models_of r) (routeModelsByPath st)
    (add_models i (path_of r) (models_of r) (routeModelsByPath st)))); cycle 1.
  { split; [done|]. split; [done|]. split; [|reflexivity]. rewrite Forall_forall in M3. auto. }
  rewrite (proj2 (nonempty_spec _) U1), U2. cbn [negb].
  rewrite (proj2 (registered_spec _ _) (conj eq_refl C1)), C2. cbn [negb]. rewrite A. done.
Qed.

(** ** The loop *)

(** The state stands for the routes [pre] seen so far. *)
Record stands_for (st : ValidationState) (pre : list value) : Prop := {
  sf_list : modelListRouteIndex st = None ↔ ∀ r, r ∈ pre → path_of r ≠ ADVANCED_CUSTOM_MODEL_LIST_PATH;
  sf_catch p : catchAllIndex (path_state (routeModelsByPath st) p) = None ↔
               ∀ r, r ∈ pre → path_of r = p → models_of r ≠ [];
  sf_models p m : path_models (path_state (routeModelsByPath st) p) !! m = None ↔
                  ∀ r, r ∈ pre → path_of r = p → m ∉ models_of r;
}.

Lemma path_state_insert p q ps bp :
  path_state (<[p := ps]> bp) q = if decide (p = q) then ps else path_state bp q.
Proof.
  unfold path_state. destruct (decide (p = q)) as [->|Hne]; [by rewrite lookup_insert_eq|].
  by rewrite lookup_insert_ne.
Qed.

Lemma stands_for_empty : stands_for (VState ∅ None) [].
Proof.
  split; intros; (split; [intros _ r Hr; by apply elem_of_nil in Hr|]); intros _; [done|..];
    cbn; unfold path_state; by rewrite lookup_empty.
Qed.

Lemma forall_snoc (P : value → Prop) pre r : (∀ x, x ∈ pre ++ [r] → P x) ↔ (∀ x, x ∈ pre → P x) ∧ P r.
Proof.
  setoid_rewrite elem_of_app. setoid_rewrite list_elem_of_singleton. split.
  - intros H. split; auto.
  - intros [H1 H2] x [Hx| ->]; auto.
Qed.

Lemma stands_for_add i r st pre :
  fits r st → stands_for st pre → stands_for (add_route i r st) (pre ++ [r]).
Proof.
  intros (F1 & F2 & F3) [L C M]. split.
  - rewrite forall_snoc. cbn [add_route modelListRouteIndex].
    destruct (str_eqb (path_of r) _) eqn:E.
    + apply str_eqb_spec in E. split; [done|]. by intros [_ ?].
    + apply str_eqb_neq in E. rewrite L. tauto.
  - intros p. rewrite (forall_snoc (λ x, path_of x = p → models_of x ≠ [])). cbn [add_route routeModelsByPath].
    unfold add_models. rewrite path_state_insert, <- C. destruct (decide (path_of r = p)) as [<-|Hne].
    + cbn [catchAllIndex]. destruct (models_of r); [|by rewrite F2]. split; [done|]. intros [_ H]. by destruct (H eq_refl).
    + split; [by intros H; split|]. by intros [? _].
  - intros p m. rewrite (forall_snoc (λ x, path_of x = p → m ∉ models_of x)). cbn [add_route routeModelsByPath].
    unfold add_models. rewrite path_state_insert, <- M. destruct (decide (path_of r = p)) as [<-|Hne].
    + cbn [path_models]. rewrite fold_insert_None. tauto.
    + split; [by intros H; split|]. by intros [? _].
Qed.

(** Two routes, the first one before the second, do not compete. *)
Definition compatible (a b : value) : Prop :=
  path_of a = path_of b →
  path_of b ≠ ADVANCED_CUSTOM_MODEL_LIST_PATH ∧ models_of a ≠ [] ∧
  (∀ m, m ∈ models_of b → m ∉ models_of a).

Lemma fits_compatible r st pre : stands_for st pre → fits r st ↔ ∀ a, a ∈ pre → compatible a r.
Proof.
  intros [L C M]. unfold fits, compatible. rewrite L, C. setoid_rewrite M. split.
  - intros (H1 & H2 & H3) a Ha Hp. split; [|split; [by apply H2|]].
    + intros Hl. by apply (H1 Hl a Ha); rewrite Hp.
    + intros m Hm. by apply H3.
  - intros H. split; [|split].
    + intros Hl a Ha Hp. destruct (H a Ha); congruence.
    + intros a Ha Hp. by apply (H a Ha).
    + intros m Hm a Ha Hp. by apply (H a Ha).
Qed.

(** Every route fits the ones before it. *)
Fixpoint admissible (pre rs : list value) : Prop :=
  match rs with
  | [] => True
  | r :: rest => route_ok r ∧ (∀ a, a ∈ pre → compatible a r) ∧ admissible (pre ++ [r]) rest
  end.

Lemma validate_routes_spec i rs st pre :
  stands_for st pre → validate_routes parse_url i rs st = Ret None ↔ admissible pre rs.
Proof.
  revert i st pre. induction rs as [|r rs IH]; intros i st pre Hs; cbn [validate_routes admissible]; [done|].
  rewrite <- (fits_compatible r st pre Hs). split.
  - intros (res & Hr & H)%bind_ret. destruct res as [e|st']; [done|].
    apply validate_route_sound in Hr as (Hok & Hf & ->). split; [done|]. split; [done|].
    eapply IH; [|exact H]. by apply stands_for_add.
  - intros (Hok & Hf & H). rewrite (validate_route_complete i r st Hok Hf). cbn [mbind exc_bind].
    apply (IH (S i) _ (pre ++ [r])); [|done]. by apply stands_for_add.
Qed.

Lemma admissible_pairs pre rs :
  admissible pre rs ↔
  Forall route_ok rs ∧ (∀ a b, a ∈ pre → b ∈ rs → compatible a b) ∧
  ∀ i j a b, (i < j)%nat → rs !! i = Some a → rs !! j = Some b → compatible a b.
Proof.
  revert pre. induction rs as [|r rs IH]; intros pre; cbn [admissible].
  - split; [|done]. intros _. split; [constructor|]. split; [set_solver|done].
  - rewrite IH, Forall_cons. split.
    + intros (Hok & Hc & Hall & Hpre & Hij). split; [done|]. split.
      * intros a b Ha [->|Hb]%elem_of_cons; [auto|]. apply Hpre; [set_solver|done].
      * intros i j a b Hlt Hi Hj. destruct j as [|j]; [lia|]. destruct i as [|i]; cbn in Hi, Hj.
        -- simplify_eq. apply Hpre; [set_solver|]. by eapply list_elem_of_lookup_2.
        -- apply (Hij i j); [lia|done..].
    + intros ([Hok Hall] & Hpre & Hij). split; [done|]. split; [intros; apply Hpre; set_solver|].
      split; [done|]. split.
      * intros a b [Ha|Ha]%elem_of_app Hb; [apply Hpre; set_solver|]. apply list_elem_of_singleton in Ha as ->.
        apply list_elem_of_lookup_1 in Hb as [j Hj]. apply (Hij 0%nat (S j)); [lia|done..].
      * intros i j a b Hlt Hi Hj. apply (Hij (S i) (S j)); [lia|done..].
Qed.

(** C22: a configuration is accepted exactly when it can be normalised, has a
    route, every route is well formed (path, upstream, converter, models and
    authentication), and no two routes compete: of two routes with the same
    path the earlier one names models, they share no model rule, and the model
    list path is used once. *)
Theorem validate_exact config :
  validateAdvancedCustomConfig parse_url config = Ret None ↔
  truthy config = true ∧ ∃ rs, normalizeAdvancedCustomConfig config = Ret (config_obj rs) ∧ rs ≠ [] ∧
    Forall route_ok rs ∧
    ∀ i j a b, (i < j)%nat → rs !! i = Some a → rs !! j = Some b → compatible a b.
Proof.
  unfold validateAdvancedCustomConfig. destruct (truthy config); cbn [negb]; [|by split; [|intros [? _]]].
  rewrite bind_ret. split.
  - intros (n & Hn & H). split; [done|]. pose proof Hn as (_ & ns & -> & _)%normalize_config_ret.
    exists ns. split; [done|]. change (routes_of (config_obj ns)) with ns in H. destruct ns as [|r rs]; [done|].
    split; [done|]. apply (validate_routes_spec 0 _ _ []) in H; [|apply stands_for_empty].
    apply admissible_pairs in H as (? & _ & ?). done.
  - intros (_ & ns & Hn & Hne & Hok & Hij). exists (config_obj ns). split; [done|].
    change (routes_of (config_obj ns)) with ns.
    assert (validate_routes parse_url 0 ns (VState ∅ None) = Ret None) as Hv.
    { apply (validate_routes_spec 0 _ _ []); [apply stands_for_empty|]. apply admissible_pairs.
      split; [done|]. split; [set_solver|done]. }
    by destruct ns.
Qed.
End Url.

(** Normalising a configuration twice is normalising it once, whatever JSON
    it was read from, and validation does not see the difference. *)
Theorem config_normalize_stable parse_url config n :
  normalizeAdvancedCustomConfig config = Ret n →
  normalizeAdvancedCustomConfig n = Ret n ∧
  (truthy config = true → validateAdvancedCustomConfig parse_url n = validateAdvancedCustomConfig parse_url config).
Proof.
  intros H. pose proof (normalize_config_idemp _ _ H) as Hi. split; [done|]. intros Ht.
  unfold validateAdvancedCustomConfig. rewrite Ht, H, Hi.
  apply normalize_config_ret in H as (_ & ns & -> & _). done.
Qed.

Definition sample_config : value :=
  config_obj [VObj [("incoming_path", VStr "/v1/messages "); ("upstream_path", VStr " /claude");
                    ("models", VArr [VStr " claude-3 "; VStr ""])];
              VObj [("incoming_path", VStr "/v1/messages"); ("upstream_path", VStr "/fallback");
                    ("auth", bearerHeaderAuth)]].

Lemma config_normalize_stable_witness :
  ∃ n, normalizeAdvancedCustomConfig sample_config = Ret n ∧ normalizeAdvancedCustomConfig n = Ret n ∧
    (truthy sample_config = true →
     validateAdvancedCustomConfig (λ _, None) n = validateAdvancedCustomConfig (λ _, None) sample_config).
Proof. eexists. split; [vm_compute; reflexivity|]. apply config_normalize_stable. vm_compute. reflexivity. Defined.

(** The configuration of a single route made of a path, a converter and the
    defaults of the converter. *)
Definition default_config (path converter : jsstr) : value :=
  let '(up, auth) := getAdvancedCustomConverterDefaults converter path in
  config_obj [route_obj path up converter auth].

Definition accepted (parse_url : jsstr → option (jsstr * jsstr)) (config : value) : bool :=
  match validateAdvancedCustomConfig parse_url config with Ret None => true | _ => false end.

(** Every template is accepted, and so is, for every converter and every
    offered incoming path it allows, the route with the defaults of that
    converter; the default incoming path of a converter is one it allows. *)
Theorem builtin_accepted parse_url :
  Forall (λ o, validateAdvancedCustomConfig parse_url o.2 = Ret None) ADVANCED_CUSTOM_TEMPLATE_OPTIONS ∧
  validateAdvancedCustomConfig parse_url createAdvancedCustomConfig = Ret None ∧
  Forall (λ c, isConverterPathAllowed (getDefaultAdvancedCustomIncomingPath c.1.1) c.1.1 = true ∧
    Forall (λ p, validateAdvancedCustomConfig parse_url (default_config p.1 c.1.1) = Ret None)
      (getAdvancedCustomIncomingPathOptions c.1.1)) ADVANCED_CUSTOM_CONVERTER_OPTIONS.
Proof.
  assert (∀ c, accepted parse_url c = true → validateAdvancedCustomConfig parse_url c = Ret None) as Ha.
  { intros c. unfold accepted. by destruct (validateAdvancedCustomConfig parse_url c) as [|[]]. }
  split; [|split].
  - assert (forallb (λ o, accepted parse_url o.2) ADVANCED_CUSTOM_TEMPLATE_OPTIONS = true) as H
      by (vm_compute; reflexivity).
    apply forallb_True' in H. eapply Forall_impl; [exact H|]. auto.
  - apply Ha. vm_compute. reflexivity.
  - assert (forallb (λ c, isConverterPathAllowed (getDefaultAdvancedCustomIncomingPath c.1.1) c.1.1 &&
      forallb (λ p, accepted parse_url (default_config p.1 c.1.1)) (getAdvancedCustomIncomingPathOptions c.1.1))
      ADVANCED_CUSTOM_CONVERTER_OPTIONS = true) as H by (vm_compute; reflexivity).
    apply forallb_True' in H. eapply Forall_impl; [exact H|]. intros c [H1 H2]%andb_true_iff. split; [done|].
    apply forallb_True' in H2. eapply Forall_impl; [exact H2|]. auto.
Qed.

(** ** The editor text *)

Lemma prop_jsonable v k : jsonable v → prop v k = VUndef ∨ jsonable (prop v k).
Proof.
  destruct v as [| | | | | |fs]; try by left. intros [_ H]%jsonable_obj. cbn.
  destruct (obj_get fs k) eqn:E; [right|by left]. apply obj_get_elem in E. by apply (H (k, v)).
Qed.

Lemma or_str_jsonable v k s : jsonable v → jsonable (or_str (prop v k) s).
Proof. intros H. destruct (prop_jsonable v k H) as [->|Hp]; [done|]. unfold or_str. by destruct (truthy _). Qed.

(** An authentication that is given has a type. *)
Definition auth_typed (r : value) : Prop :=
  truthy (prop r "auth") = true → prop (prop r "auth") "type" ≠ VUndef.

Lemma normalize_auth_jsonable a : jsonable a → prop a "type" ≠ VUndef → jsonable (normalize_auth a).
Proof.
  intros Ha Ht. destruct (prop_jsonable a "type" Ha) as [|Ht']; [done|].
  pose proof (or_str_jsonable a "name" "" Ha). pose proof (or_str_jsonable a "value" "" Ha).
  unfold normalize_auth. cbn [jsonable]. apply andb_True. split; [done|]. apply forallb_True.
  repeat constructor; cbn; done.
Qed.

Lemma normalize_route_jsonable r n :
  jsonable r → auth_typed r → normalizeAdvancedCustomRoute r = Ret n → jsonable n.
Proof.
  intros Hr Hat (up & ms & _ & _ & ->)%normalize_route_ret.
  pose proof (or_str_jsonable r "incoming_path" "" Hr). pose proof (or_str_jsonable r "converter" "none" Hr).
  assert (Hms : jsonable (VArr (VStr <$> ms))) by (apply forallb_True, Forall_fmap, Forall_true; done).
  assert (Ha : truthy (prop r "auth") = true → jsonable (normalize_auth (prop r "auth"))).
  { intros Ht. apply normalize_auth_jsonable; [|by apply Hat].
    destruct (prop_jsonable r "auth" Hr) as [E|]; [by rewrite E in Ht|done]. }
  unfold norm_route. cbn [jsonable]. apply andb_True.
  split; [by destruct (Nat.ltb 0 (length ms)), (truthy (prop r "auth"))|]. apply forallb_True.
  rewrite !Forall_app. split; [repeat constructor; cbn; done|].
  split; [destruct (Nat.ltb 0 (length ms)); repeat constructor; done|].
  destruct (truthy (prop r "auth")); repeat constructor. cbn [fst snd].
  apply andb_True. split; [done|]. by apply Ha.
Qed.

(** The text of a normalised configuration reads back. *)
Lemma normal_text n : normalizeAdvancedCustomConfig n = Ret n → jsonable n →
  ∃ t, JSON_stringify2 n = Some t ∧ parseAdvancedCustomConfig (Some t) = Some n.
Proof.
  intros Hi Hj. destruct (JSON_parse_stringify2 n Hj) as (t & Ht & Hd & Hp). exists t. split; [done|].
  unfold parseAdvancedCustomConfig. rewrite Hp.
  pose proof Hi as (_ & ns & -> & _)%normalize_config_ret.
  unfold config_obj at 1. cbv iota. fold (config_obj ns). rewrite Hi.
  assert (nonempty (trim t) = true) as ->; [|done].
  destruct (trim t) eqn:E; [|done]. exfalso.
  destruct Hd as (c & t' & -> & Hh).
  assert (is_ws c = false) as Hw by (unfold starts_value, is_digit, is_ws in *; lia).
  by apply trim_nil_head in E.
Qed.

(** The text [stringifyAdvancedCustomConfig] writes for a configuration
    whose numbers are safe integers (whatever its texts, quotes and control characters
    included) is read by [parseAdvancedCustomConfig] as the normalised
    configuration. *)
Theorem config_text_round_trip config n :
  jsonable config → Forall auth_typed (routes_of config) →
  normalizeAdvancedCustomConfig config = Ret n →
  ∃ t, stringifyAdvancedCustomConfig config = Ret (Some t) ∧ parseAdvancedCustomConfig (Some t) = Some n.
Proof.
  intros Hc Ha Hn. pose proof (normalize_config_idemp _ _ Hn) as Hi.
  assert (Hj : jsonable n).
  { apply normalize_config_ret in Hn as (_ & ns & -> & H). unfold routes_of in Ha.
    apply andb_True. split; [done|]. apply forallb_True. repeat constructor. cbn [fst snd].
    apply andb_True. split; [done|]. apply forallb_True.
    destruct (prop_jsonable config "advanced_routes" Hc) as [E|Hr]; [rewrite E in H; subst; constructor|].
    destruct (prop config "advanced_routes") as [| | | | |rs|]; try (subst; constructor).
    apply mapM_ret in H. apply forallb_True in Hr. revert Hr Ha. clear -H.
    induction H; [constructor|]. intros [? ?]%Forall_cons [? ?]%Forall_cons.
    constructor; [by eapply normalize_route_jsonable|auto]. }
  destruct (normal_text n Hi Hj) as (t & Ht & Hp). exists t.
  split; [unfold stringifyAdvancedCustomConfig; rewrite Hn; cbn; by rewrite Ht|done].
Qed.

Lemma config_text_round_trip_witness :
  ∃ t, stringifyAdvancedCustomConfig sample_config = Ret (Some t) ∧
    parseAdvancedCustomConfig (Some t) = match normalizeAdvancedCustomConfig sample_config with Ret n => Some n | Throw => None end.
Proof.
  destruct (normalizeAdvancedCustomConfig sample_config) as [|n] eqn:E; [vm_compute in E; discriminate|].
  apply (config_text_round_trip sample_config n);
    [vm_compute; exact I| |exact E].
  apply (Forall_cons_2 _ _ [_]); [|apply Forall_cons_2; [|apply Forall_nil_2]]; intros H; vm_compute in *; discriminate.
Defined.
End AdvancedCustomFacts.
