(* ===== verification/ChannelForm.v ===== *)
(** * The form of a channel
    ([web/src/features/channels/lib/channel-form.ts],
    [web/src/features/channels/hooks/use-channel-mutate-form.ts])

    A channel keeps part of its configuration in two JSON texts: [setting] (how
    requests are sent) and [settings] (type specific and monitoring options).
    Opening a channel spreads both over the fields of the form; saving builds
    the texts again.  Keys of [settings] the form does not know are kept.

    The values of a channel's record have their declared types; the members of
    the two texts are any JSON.  A field of the form that may be ill-typed after
    opening a channel is a [value]; the form is checked before it is sent.
    Channel types are integers.  Case folding ([lower]) and [new URL] are
    parameters; [lower] keeps the two names of a protocol, which the form has
    as [HttpProtocol]. *)

From S2P Require Import Prelude JsString JsRegExp JsNumber JsInteger JsValue JsMap PriceTable AdvancedCustom.

Module ChannelForm.
Import PriceTable AdvancedCustom.

(** ** Constants *)

Definition CHANNEL_TYPE_NEW_API : Z := 60.
Definition CHANNEL_TYPE_TASK_PLUGIN : Z := 62.
Definition FORCE_RESPONSES_CHANNEL_TYPES : list Z := [1; 3; 48; 57; 59; 60]%Z.
Definition MODEL_FETCHABLE_TYPES : list Z :=
  [1; 4; 14; 17; 20; 23; 24; 25; 26; 27; 31; 34; 35; 40; 42; 43; 47; 48; 57; 58; 59; 60]%Z.
Definition FIELD_PASSTHROUGH_TYPES : list Z := [1; 14; 57; 58; 59; CHANNEL_TYPE_NEW_API]%Z.
Definition OPENAI_FIELD_PASSTHROUGH_TYPES : list Z := [1; 57; 58; 59; CHANNEL_TYPE_NEW_API]%Z.
Definition CLAUDE_FIELD_PASSTHROUGH_TYPES : list Z := [14; 58; 59; CHANNEL_TYPE_NEW_API]%Z.

Definition has_type (types : list Z) (type : Z) : bool := bool_decide (type ∈ types).

Definition SUPPORTED_PROXY_PROTOCOLS : list jsstr := ["http:"; "https:"; "socks5:"; "socks5h:"]%js.

Inductive HttpProtocol := HTTP_PROTOCOL_AUTO | HTTP_PROTOCOL_HTTP1.

#[global] Instance HttpProtocol_eq_dec : EqDecision HttpProtocol.
Proof. solve_decision. Defined.

Definition MAX_HTTP2_CONNECTION_SHARDS : number := of_Z 8.

(** [Number(v)] *)
Definition Number_of_value (v : value) : number :=
  match v with
  | VUndef => NaN
  | VNull => of_Z 0
  | VBool b => of_Z (if b then 1 else 0)
  | VNum x => x
  | VStr s => Number_of_string s
  | VArr _ | VObj _ => Number_of_string (to_string v)
  end.

(** [v || d] *)
Definition or_value (v d : value) : value := if truthy v then v else d.

(** [v === true] *)
Definition is_true (v : value) : bool := match v with VBool b => b | _ => false end.

(** [typeof v === 'string' ? v : ''] *)
Definition string_or_empty (v : value) : jsstr := match v with VStr s => s | _ => [] end.

(** ** Fields *)

(** [monitor_enabled] and the like. *)
Inductive Override := inherit | enabled | disabled.

Definition booleanOverride (v : value) : Override :=
  match v with VBool true => enabled | VBool false => disabled | _ => inherit end.

Definition numericSetting (v : value) : jsstr :=
  match v with VNum x => if is_finite x then num_to_string x else [] | _ => [] end.

(** The fields that are stored in [setting]. *)
Record ExtraSettings := MkExtra {
  task_plugin_key : jsstr;
  force_format : value;
  force_responses : bool;
  thinking_to_content : value;
  proxy : value;
  http_protocol : HttpProtocol;
  http2_connection_shards : value;
  pass_through_body_enabled : value;
  system_prompt : value;
  system_prompt_override : value;
}.

(** The fields that are stored in [settings]. *)
Record TypeSettings := MkTyped {
  vertex_key_type : value;
  azure_responses_version : value;
  is_enterprise_account : bool;
  aws_key_type : value;
  allow_service_tier : bool;
  disable_store : bool;
  allow_safety_identifier : bool;
  allow_include_obfuscation : bool;
  allow_inference_geo : bool;
  allow_speed : bool;
  claude_beta_query : bool;
  claude_code_fingerprint_enabled : bool;
  claude_code_transport_fingerprint_enabled : bool;
  claude_code_version : jsstr;
  claude_code_entrypoint : jsstr;
  monitor_enabled : Override;
  monitor_test_interval_minutes : jsstr;
  monitor_response_time_threshold_seconds : jsstr;
  monitor_auto_disable_enabled : Override;
  monitor_auto_enable_enabled : Override;
  monitor_disable_threshold : jsstr;
  monitor_enable_threshold : jsstr;
  disable_task_polling_sleep : bool;
  upstream_model_update_check_enabled : bool;
  upstream_model_update_auto_sync_enabled : bool;
  upstream_model_update_ignored_models : jsstr;
  tokenspro_overview_sync_enabled : bool;
  tokenspro_overview_sync_interval_seconds : jsstr;
  tokenspro_overview_last_success_time : number;
  tokenspro_overview_last_allowed : option number;
  tokenspro_overview_last_error : jsstr;
  advanced_custom : jsstr;
}.

Inductive MultiKeyMode := single | batch | multi_to_single.

#[global] Instance MultiKeyMode_eq_dec : EqDecision MultiKeyMode.
Proof. solve_decision. Defined.

Definition mode_text (m : MultiKeyMode) : jsstr :=
  match m with single => "single" | batch => "batch" | multi_to_single => "multi_to_single" end.

(** The other fields; a text that is not given is empty. *)
Record CoreFields := MkCore {
  f_name : jsstr;
  f_type : Z;
  f_vendor_id : value;
  f_base_url : jsstr;
  f_key : jsstr;
  f_openai_organization : jsstr;
  f_models : jsstr;
  f_group : list jsstr;
  f_group_ids : list value;
  f_model_mapping : jsstr;
  f_priority : value;
  f_weight : value;
  f_concurrency_limit : value;
  f_test_model : jsstr;
  f_auto_ban : value;
  f_status : value;
  f_status_code_mapping : jsstr;
  f_tag : jsstr;
  f_remark : jsstr;
  f_setting : jsstr;
  f_param_override : jsstr;
  f_header_override : jsstr;
  f_settings : jsstr;
  f_other : jsstr;
  f_multi_key_mode : MultiKeyMode;
  f_multi_key_type : value;
  f_batch_prefix : bool;
  f_key_mode : jsstr;
}.

Record ChannelFormValues := MkForm {
  core : CoreFields;
  extra : ExtraSettings;
  typed : TypeSettings;
}.

(** What a channel of the API has; [VUndef] and [VNull] where it may miss. *)
Record Channel := MkChannel {
  c_id : value;
  c_type : Z;
  c_name : jsstr;
  c_vendor_id : value;
  c_base_url : value;
  c_openai_organization : value;
  c_models : jsstr;
  c_group : jsstr;
  c_group_ids : list value;
  c_model_mapping : value;
  c_priority : value;
  c_weight : value;
  c_concurrency_limit : value;
  c_test_model : value;
  c_auto_ban : value;
  c_status : value;
  c_status_code_mapping : value;
  c_tag : value;
  c_remark : jsstr;
  c_setting : value;
  c_param_override : value;
  c_header_override : value;
  c_settings : jsstr;
  c_other : jsstr;
  c_multi_key_mode : value;
}.

(** ** Lists *)

Definition parseModels (models : jsstr) : list jsstr :=
  if nonempty models then List.filter nonempty (trim <$> split_char 44 models) else [].

Definition parseGroups (groups : jsstr) : list jsstr :=
  if nonempty groups then List.filter nonempty (trim <$> split_char 44 groups) else [].

Definition formatModels (models : list jsstr) : jsstr := join [44%N] models.
Definition formatGroups (groups : list jsstr) : jsstr := join [44%N] groups.

(** ** Opening a channel *)

Definition DEFAULT_EXTRA : ExtraSettings :=
  MkExtra [] (VBool false) false (VBool false) (VStr []) HTTP_PROTOCOL_AUTO (VNum (of_Z 1)) (VBool false) (VStr []) (VBool false).

Definition DEFAULT_TYPED : TypeSettings :=
  MkTyped (VStr "json") (VStr []) false (VStr "ak_sk") false false false false false false false false false [] [] inherit [] [] inherit inherit [] []
    false false false [] false [] (of_Z 0) None [] [].

Section Form.
Context (lower : jsstr → jsstr).

Definition normalizeHttpProtocol (v : value) : HttpProtocol :=
  if str_eqb (lower (trim (to_string (or_value v (VStr []))))) "http1" then HTTP_PROTOCOL_HTTP1 else HTTP_PROTOCOL_AUTO.

Definition normalizeHttp2ConnectionShards (v : value) : value :=
  match v with
  | VUndef | VNull => VNum (of_Z 1)
  | _ =>
    if match v with VNum x => is_nan x || num_eqb x (of_Z 0) | _ => false end then VNum (of_Z 1)
    else if num_ltb (Number_of_value v) (of_Z 1) then VNum (of_Z 1)
    else if num_ltb MAX_HTTP2_CONNECTION_SHARDS (Number_of_value v) then VNum MAX_HTTP2_CONNECTION_SHARDS
    else v
  end.

(** The members of a parsed [setting]. *)
Definition read_extra (parsed : value) : ExtraSettings :=
  let protocol := normalizeHttpProtocol (prop parsed "http_protocol") in
  let shards := normalizeHttp2ConnectionShards (prop parsed "http2_connection_shards") in
  MkExtra (string_or_empty (prop parsed "task_plugin_key"))
    (or_value (prop parsed "force_format") (VBool false))
    (is_true (prop parsed "force_responses"))
    (or_value (prop parsed "thinking_to_content") (VBool false))
    (or_value (prop parsed "proxy") (VStr []))
    protocol
    (if decide (protocol = HTTP_PROTOCOL_HTTP1) then VNum (of_Z 1) else shards)
    (or_value (prop parsed "pass_through_body_enabled") (VBool false))
    (or_value (prop parsed "system_prompt") (VStr []))
    (or_value (prop parsed "system_prompt_override") (VBool false)).

(** Reading a member of [null] throws, and the defaults stay. *)
Definition open_extra (setting : value) : ExtraSettings :=
  match setting with
  | VStr s =>
    if nonempty s then match JSON_parse s with None | Some VNull => DEFAULT_EXTRA | Some parsed => read_extra parsed end
    else DEFAULT_EXTRA
  | _ => DEFAULT_EXTRA
  end.

(** The text of the advanced configuration; if it cannot be normalised the
    assignment does not happen. *)
Definition open_advanced (config : value) : jsstr :=
  if truthy config
  then match stringifyAdvancedCustomConfig config with Ret (Some text) => text | _ => [] end
  else [].

Definition read_typed (parsed : value) : TypeSettings :=
  let p := prop parsed in
  MkTyped
    (or_value (p "vertex_key_type"%js) (VStr "json"))
    (or_value (p "azure_responses_version"%js) (VStr []))
    (is_true (p "openrouter_enterprise"%js))
    (or_value (p "aws_key_type"%js) (VStr "ak_sk"))
    (is_true (p "allow_service_tier"%js))
    (is_true (p "disable_store"%js))
    (is_true (p "allow_safety_identifier"%js))
    (is_true (p "allow_include_obfuscation"%js))
    (is_true (p "allow_inference_geo"%js))
    (is_true (p "allow_speed"%js))
    (is_true (p "claude_beta_query"%js))
    (is_true (p "claude_code_fingerprint_enabled"%js))
    (is_true (p "claude_code_transport_fingerprint_enabled"%js))
    (string_or_empty (p "claude_code_version"%js))
    (string_or_empty (p "claude_code_entrypoint"%js))
    (booleanOverride (p "monitor_enabled"%js))
    (numericSetting (p "monitor_test_interval_minutes"%js))
    (numericSetting (p "monitor_response_time_threshold_seconds"%js))
    (booleanOverride (p "monitor_auto_disable_enabled"%js))
    (booleanOverride (p "monitor_auto_enable_enabled"%js))
    (numericSetting (p "monitor_disable_threshold"%js))
    (numericSetting (p "monitor_enable_threshold"%js))
    (is_true (p "disable_task_polling_sleep"%js))
    (is_true (p "upstream_model_update_check_enabled"%js))
    (is_true (p "upstream_model_update_auto_sync_enabled"%js))
    (match p "upstream_model_update_ignored_models"%js with VArr ms => to_string (VArr ms) | _ => [] end)
    (is_true (p "tokenspro_overview_sync_enabled"%js))
    (numericSetting (p "tokenspro_overview_sync_interval_seconds"%js))
    (let x := Number_of_value (p "tokenspro_overview_last_success_time"%js) in if is_finite x then x else of_Z 0)
    (match p "tokenspro_overview_last_allowed"%js with VNum x => Some x | _ => None end)
    (string_or_empty (p "tokenspro_overview_last_error"%js))
    (open_advanced (p "advanced_custom"%js)).

Definition open_typed (settings : jsstr) : TypeSettings :=
  if nonempty settings then match JSON_parse settings with None | Some VNull => DEFAULT_TYPED | Some parsed => read_typed parsed end
  else DEFAULT_TYPED.

(** [v || ''] and [v ?? d] of optional_value values. *)
Definition or_text (v : value) : jsstr := string_or_empty v.
Definition or_else (v d : value) : value := match v with VUndef | VNull => d | _ => v end.

Definition transformChannelToFormDefaults (channel : Channel) : ChannelFormValues :=
  MkForm
    (MkCore (c_name channel) (c_type channel) (or_value (c_vendor_id channel) VUndef) (or_text (c_base_url channel)) []
       (or_text (c_openai_organization channel)) (c_models channel)
       (parseGroups (if nonempty (c_group channel) then c_group channel else "default")) (c_group_ids channel)
       (or_text (c_model_mapping channel)) (or_value (c_priority channel) (VNum (of_Z 0))) (or_value (c_weight channel) (VNum (of_Z 0)))
       (or_else (c_concurrency_limit channel) (VNum (of_Z 0))) (or_text (c_test_model channel)) (or_else (c_auto_ban channel) (VNum (of_Z 1)))
       (c_status channel) (or_text (c_status_code_mapping channel)) (or_text (c_tag channel)) (c_remark channel) (or_text (c_setting channel))
       (or_text (c_param_override channel)) (or_text (c_header_override channel))
       (if nonempty (c_settings channel) then c_settings channel else "{}") (c_other channel) single
       (or_value (c_multi_key_mode channel) (VStr "random")) false "append")
    (open_extra (c_setting channel))
    (open_typed (c_settings channel)).

(** ** Saving *)

(** [v?.trim() || ''] of a checked form. *)
Definition trimmed_text (v : value) : jsstr := trim (string_or_empty v).

Definition shards_of (e : ExtraSettings) : value :=
  if decide (http_protocol e = HTTP_PROTOCOL_HTTP1) then VNum (of_Z 1) else normalizeHttp2ConnectionShards (http2_connection_shards e).

Definition setting_object (form : ChannelFormValues) : obj :=
  let e := extra form in
  let type := f_type (core form) in
  [("force_format"%js, or_value (force_format e) (VBool false));
   ("force_responses"%js, VBool (has_type FORCE_RESPONSES_CHANNEL_TYPES type && force_responses e));
   ("thinking_to_content"%js, or_value (thinking_to_content e) (VBool false));
   ("proxy"%js, VStr (trimmed_text (proxy e)));
   ("pass_through_body_enabled"%js, or_value (pass_through_body_enabled e) (VBool false));
   ("system_prompt"%js, or_value (system_prompt e) (VStr []));
   ("system_prompt_override"%js, or_value (system_prompt_override e) (VBool false))] ++
  (if (type =? CHANNEL_TYPE_TASK_PLUGIN)%Z then [("task_plugin_key"%js, VStr (trim (task_plugin_key e)))] else []) ++
  (if decide (http_protocol e = HTTP_PROTOCOL_HTTP1) then [("http_protocol"%js, VStr "http1")]
   else if num_ltb (of_Z 1) (Number_of_value (shards_of e)) then [("http2_connection_shards"%js, shards_of e)] else []).

Definition buildSettingJSON (form : ChannelFormValues) : jsstr := default [] (JSON_stringify (VObj (setting_object form))).

(** An assignment ([Some]) or a deletion ([None]) of a member. *)
Definition assign_member (fs : obj) (a : jsstr * option value) : obj :=
  match a.2 with Some v => obj_set fs a.1 v | None => obj_delete fs a.1 end.

(** [if (c) o.k = v else if ('k' in o) delete o.k] *)
Definition put_if (c : bool) (k : jsstr) (v : value) : jsstr * option value := (k, if c then Some v else None).

Definition override_value (o : Override) : option value :=
  match o with enabled => Some (VBool true) | disabled => Some (VBool false) | inherit => None end.

(** The assignments of [buildSettingsJSON] in their order; [old] is the object
    before. *)
Definition settings_script (form : ChannelFormValues) (old : obj) : list (jsstr * option value) :=
  let y := typed form in
  let type := f_type (core form) in
  let openai := has_type OPENAI_FIELD_PASSTHROUGH_TYPES type in
  let claude := has_type CLAUDE_FIELD_PASSTHROUGH_TYPES type in
  let number text : option value := if nonempty (trim text) then Some (VNum (Number_of_string text)) else None in
  [put_if (type =? 41)%Z "vertex_key_type" (or_value (vertex_key_type y) (VStr "json"));
   put_if ((type =? 3)%Z && truthy (azure_responses_version y)) "azure_responses_version" (azure_responses_version y);
   put_if (type =? 20)%Z "openrouter_enterprise" (VBool (is_enterprise_account y));
   put_if (type =? 33)%Z "aws_key_type" (or_value (aws_key_type y) (VStr "ak_sk"));
   put_if (has_type FIELD_PASSTHROUGH_TYPES type) "allow_service_tier" (VBool (allow_service_tier y));
   put_if openai "disable_store" (VBool (disable_store y));
   put_if openai "allow_safety_identifier" (VBool (allow_safety_identifier y));
   put_if openai "allow_include_obfuscation" (VBool (allow_include_obfuscation y));
   put_if (openai || claude) "allow_inference_geo" (VBool (allow_inference_geo y));
   put_if claude "allow_speed" (VBool (allow_speed y));
   put_if (type =? 14)%Z "claude_beta_query" (VBool (claude_beta_query y));
   put_if claude "claude_code_fingerprint_enabled" (VBool (claude_code_fingerprint_enabled y));
   put_if claude "claude_code_transport_fingerprint_enabled" (VBool (claude_code_transport_fingerprint_enabled y));
   put_if (claude && nonempty (trim (claude_code_version y))) "claude_code_version" (VStr (trim (claude_code_version y)));
   put_if (claude && nonempty (trim (claude_code_entrypoint y))) "claude_code_entrypoint" (VStr (trim (claude_code_entrypoint y)));
   ("monitor_enabled"%js, override_value (monitor_enabled y));
   ("monitor_auto_disable_enabled"%js, override_value (monitor_auto_disable_enabled y));
   ("monitor_auto_enable_enabled"%js, override_value (monitor_auto_enable_enabled y));
   ("monitor_test_interval_minutes"%js, number (monitor_test_interval_minutes y));
   ("monitor_response_time_threshold_seconds"%js, number (monitor_response_time_threshold_seconds y));
   ("monitor_disable_threshold"%js, number (monitor_disable_threshold y));
   ("monitor_enable_threshold"%js, number (monitor_enable_threshold y));
   ("disable_task_polling_sleep"%js, Some (VBool (disable_task_polling_sleep y)))] ++
  (if has_type MODEL_FETCHABLE_TYPES type then
     let check := upstream_model_update_check_enabled y in
     [("upstream_model_update_check_enabled"%js, Some (VBool check));
      ("upstream_model_update_auto_sync_enabled"%js, Some (VBool (check && upstream_model_update_auto_sync_enabled y)));
      ("upstream_model_update_ignored_models"%js,
       Some (VArr (VStr <$> set_of (List.filter nonempty (trim <$> split_char 44 (upstream_model_update_ignored_models y))))))] ++
     (if negb (is_array (default VUndef (obj_get old "upstream_model_update_last_detected_models"))) || negb check
      then [("upstream_model_update_last_detected_models"%js, Some (VArr []))] else []) ++
     (if negb (is_number (default VUndef (obj_get old "upstream_model_update_last_check_time")))
      then [("upstream_model_update_last_check_time"%js, Some (VNum (of_Z 0)))] else [])
   else []) ++
  [("tokenspro_overview_sync_enabled"%js, Some (VBool (tokenspro_overview_sync_enabled y)));
   (let x := Number_of_string (tokenspro_overview_sync_interval_seconds y) in
    put_if (nonempty (trim (tokenspro_overview_sync_interval_seconds y)) && is_integer x && num_leb (of_Z 60) x)
      "tokenspro_overview_sync_interval_seconds" (VNum x))] ++
  (if (type =? CHANNEL_TYPE_ADVANCED_CUSTOM)%Z
   then match parseAdvancedCustomConfig (Some (advanced_custom y)) with Some c => [("advanced_custom"%js, Some c)] | None => [] end
   else [("advanced_custom"%js, None)]).

(** The value the build starts from. *)
Definition existing_settings (text : jsstr) : value :=
  if nonempty text && negb (str_eqb text "{}") then default (VObj []) (JSON_parse text) else VObj [].

(** The first test or assignment throws on [null] and on a primitive; the named
    members an array gets are not written. *)
Definition buildSettingsJSON (form : ChannelFormValues) : exc jsstr :=
  match existing_settings (f_settings (core form)) with
  | VObj old => Ret (default [] (JSON_stringify (VObj (fold_left assign_member (settings_script form old) old))))
  | VArr vs => Ret (default [] (JSON_stringify (VArr vs)))
  | _ => Throw
  end.

(** [String(value || '').trim().replace(/\/+$/, '')] *)
Definition normalizeBaseUrl (v : jsstr) : jsstr :=
  reverse (snd (span (λ c, (c =? 47)%N) (reverse (trim v)))).

(** [s || null] *)
Definition or_null (s : jsstr) : value := if nonempty s then VStr s else VNull.

(** The loop that turns empty texts into [null]. *)
Definition nulls (fs : obj) : obj := (λ p, (p.1, match p.2 with VStr [] => VNull | v => v end)) <$> fs.

Definition common_members (form : ChannelFormValues) (settings : jsstr) : obj :=
  let c := core form in
  [("name"%js, VStr (f_name c)); ("type"%js, VNum (of_Z (f_type c))); ("vendor_id"%js, or_value (f_vendor_id c) VNull);
   ("base_url"%js, or_null (normalizeBaseUrl (f_base_url c))); ("openai_organization"%js, or_null (f_openai_organization c));
   ("models"%js, VStr (f_models c)); ("group"%js, VStr (formatGroups (f_group c))); ("group_ids"%js, VArr (f_group_ids c));
   ("model_mapping"%js, or_null (f_model_mapping c)); ("concurrency_limit"%js, or_else (f_concurrency_limit c) (VNum (of_Z 0)));
   ("test_model"%js, or_null (f_test_model c)); ("auto_ban"%js, or_else (f_auto_ban c) (VNum (of_Z 1)));
   ("status_code_mapping"%js, or_null (f_status_code_mapping c)); ("tag"%js, or_null (f_tag c)); ("remark"%js, VStr (f_remark c));
   ("setting"%js, VStr (buildSettingJSON form)); ("param_override"%js, or_null (f_param_override c));
   ("header_override"%js, or_null (f_header_override c)); ("settings"%js, VStr settings); ("other"%js, VStr (f_other c))].

(** The order of the members of a payload carries no meaning. *)
Definition transformFormDataToCreatePayload (form : ChannelFormValues) : exc value :=
  let c := core form in
  settings ← buildSettingsJSON form;
  let channel :=
    common_members form settings ++
    [("key"%js, VStr (f_key c)); ("status"%js, f_status c); ("priority"%js, or_value (f_priority c) VNull); ("weight"%js, or_value (f_weight c) VNull)] in
  Ret (VObj [("mode"%js, VStr (mode_text (f_multi_key_mode c)));
             ("multi_key_mode"%js, if decide (f_multi_key_mode c = multi_to_single) then f_multi_key_type c else VUndef);
             ("batch_add_set_key_prefix_2_name"%js, if decide (f_multi_key_mode c = batch) then VBool (f_batch_prefix c) else VUndef);
             ("channel"%js, VObj (nulls channel))]).

Definition transformFormDataToUpdatePayload (form : ChannelFormValues) (channelId : value) : exc obj :=
  let c := core form in
  settings ← buildSettingsJSON form;
  let payload :=
    common_members form settings ++
    [("id"%js, channelId); ("priority"%js, or_else (f_priority c) (VNum (of_Z 0))); ("weight"%js, or_else (f_weight c) (VNum (of_Z 0)))] ++
    (if nonempty (f_key c) && nonempty (trim (f_key c)) then [("key"%js, VStr (f_key c))] else []) in
  Ret (fold_left (λ fs p, obj_set fs p.1 (VStr p.2))
         [("base_url"%js, normalizeBaseUrl (f_base_url c)); ("openai_organization"%js, f_openai_organization c); ("test_model"%js, f_test_model c);
          ("tag"%js, f_tag c); ("remark"%js, f_remark c); ("model_mapping"%js, f_model_mapping c);
          ("status_code_mapping"%js, f_status_code_mapping c); ("param_override"%js, f_param_override c);
          ("header_override"%js, f_header_override c)] (nulls payload)).

(** ** Sending *)

Definition SENSITIVE_UPDATE_FIELDS : list jsstr :=
  ["type"; "key"; "base_url"; "openai_organization"; "param_override"; "header_override"; "setting"; "settings"; "other"]%js.

(** What [updateChannel] is called with. *)
Definition update_request (form : ChannelFormValues) (channelId : value) (canEditSensitive isMultiKeyChannel : bool) : exc obj :=
  let c := core form in
  let typed_key := nonempty (trim (f_key c)) in
  payload ← transformFormDataToUpdatePayload form channelId;
  let payload := if typed_key then payload else obj_delete payload "key" in
  let payload := if canEditSensitive then payload else fold_left obj_delete SENSITIVE_UPDATE_FIELDS payload in
  let payload := if canEditSensitive && isMultiKeyChannel && typed_key && nonempty (f_key_mode c)
                 then obj_set payload "key_mode" (VStr (f_key_mode c)) else payload in
  Ret (if canEditSensitive && isMultiKeyChannel then obj_set payload "multi_key_mode" (f_multi_key_type c) else payload).
End Form.

(** ** Checking the form *)

(** The parts of a parsed URL the checks look at. *)
Record URL := MkURL { protocol : jsstr; host : jsstr; hostname : jsstr; port : jsstr }.

Section Check.
Context (new_URL : jsstr → option URL).

(** The position of the first character of [/[/?#]/]. *)
Fixpoint search_suffix (s : jsstr) : option nat :=
  match s with
  | [] => None
  | c :: r => if (c =? 47)%N || (c =? 63)%N || (c =? 35)%N then Some 0%nat else S <$> search_suffix r
  end.

Definition isOptionalProxyURL (v : jsstr) : bool :=
  let trimmedValue := trim v in
  if negb (nonempty trimmedValue) then true
  else match indexOf trimmedValue "://" 0 with
       | None | Some O => false
       | Some i =>
         let authorityAndSuffix := drop (i + 3) trimmedValue in
         if match search_suffix authorityAndSuffix with
            | Some j => negb (str_eqb (drop j authorityAndSuffix) "/")
            | None => false
            end then false
         else match new_URL trimmedValue with
              | Some u => bool_decide (protocol u ∈ SUPPORTED_PROXY_PROTOCOLS) && nonempty (hostname u) && negb (str_eqb (port u) "0")
              | None => false
              end
       end.

Definition isJsonObjectValue (v : value) : bool := match v with VObj _ => true | _ => false end.

(** [parseOptionalJson] and a predicate on the value of the text: no text is fine, a
    text that is not JSON is not ([JSON.parse] never gives [undefined]). *)
Definition optional_json (test : value → bool) (v : jsstr) : bool :=
  if nonempty (trim v) then match JSON_parse v with Some parsed => test parsed | None => false end else true.

Definition isOptionalJsonObject : jsstr → bool := optional_json isJsonObjectValue.

Definition isOptionalModelMapping : jsstr → bool :=
  optional_json (λ v, match v with VObj fs => forallb (λ p, is_string p.2) fs | _ => false end).

Definition status_code (x : number) : bool := is_integer x && num_leb (of_Z 100) x && num_leb x (of_Z 599).

Definition isOptionalStatusCodeMapping : jsstr → bool :=
  optional_json (λ v, match v with
                      | VObj fs => forallb (λ p, status_code (Number_of_string p.1) && status_code (Number_of_value p.2)) fs
                      | _ => false
                      end).

Definition filled (v : value) : bool := match v with VStr s => nonempty (trim s) | _ => false end.

Definition isCodexCredential : jsstr → bool :=
  optional_json (λ v, isJsonObjectValue v && filled (prop v "access_token") && filled (prop v "account_id")).

Definition isVertexJsonKey : jsstr → bool :=
  optional_json (λ v, match v with VArr vs => forallb isJsonObjectValue vs | _ => isJsonObjectValue v end).

Definition optional_number (test : number → bool) (v : jsstr) : bool :=
  if nonempty (trim v) then test (Number_of_string v) else true.

Definition isOptionalPositiveNumber : jsstr → bool := optional_number (λ x, is_finite x && num_ltb (of_Z 0) x).
Definition isOptionalPositiveInteger : jsstr → bool := optional_number (λ x, is_integer x && num_ltb (of_Z 0) x).
Definition isOptionalMinIntervalSeconds : jsstr → bool := optional_number (λ x, is_integer x && num_leb (of_Z 60) x).

(** [z.number()], [z.number().int()], [z.boolean()], [z.string()], [z.enum(...)], and
    [.optional()]. *)
Definition z_number (v : value) : bool := match v with VNum x => is_finite x | _ => false end.
Definition z_int (v : value) : bool :=
  match v with VNum x => is_integer x && num_leb (of_Z (-9007199254740991)) x && num_leb x (of_Z 9007199254740991) | _ => false end.
Definition z_enum (names : list jsstr) (v : value) : bool := match v with VStr s => bool_decide (s ∈ names) | _ => false end.
Definition optional_value (test : value → bool) (v : value) : bool := is_undefined v || test v.

(** The fields whose Rocq type already has the shape the schema asks for need no
    test. *)
Definition core_ok (c : CoreFields) : bool :=
  nonempty (f_name c) && (0 <=? f_type c)%Z && optional_value z_number (f_vendor_id c) && nonempty (f_models c) &&
  negb (bool_decide (f_group c = [])) && forallb z_number (f_group_ids c) && isOptionalModelMapping (f_model_mapping c) &&
  optional_value z_number (f_priority c) && optional_value z_number (f_weight c) &&
  optional_value (λ v, z_int v && num_leb (of_Z 0) (Number_of_value v)) (f_concurrency_limit c) &&
  optional_value z_number (f_auto_ban c) && z_number (f_status c) && isOptionalStatusCodeMapping (f_status_code_mapping c) &&
  Nat.leb (length (f_remark c)) 255 && isOptionalJsonObject (f_setting c) && isOptionalJsonObject (f_param_override c) &&
  isOptionalJsonObject (f_header_override c) && isOptionalJsonObject (f_settings c) &&
  optional_value (z_enum ["random"; "polling"]%js) (f_multi_key_type c) && bool_decide (f_key_mode c ∈ ["append"; "replace"; []]%js).

Definition extra_ok (e : ExtraSettings) : bool :=
  optional_value is_boolean (force_format e) && optional_value is_boolean (thinking_to_content e) &&
  optional_value is_string (proxy e) && isOptionalProxyURL (string_or_empty (proxy e)) &&
  optional_value z_int (http2_connection_shards e) && optional_value is_boolean (pass_through_body_enabled e) &&
  optional_value is_string (system_prompt e) && optional_value is_boolean (system_prompt_override e).

Definition typed_ok (y : TypeSettings) : bool :=
  optional_value (z_enum ["json"; "api_key"]%js) (vertex_key_type y) && optional_value (z_enum ["ak_sk"; "api_key"]%js) (aws_key_type y) &&
  optional_value is_string (azure_responses_version y) &&
  isOptionalPositiveNumber (monitor_test_interval_minutes y) && isOptionalPositiveNumber (monitor_response_time_threshold_seconds y) &&
  isOptionalPositiveInteger (monitor_disable_threshold y) && isOptionalPositiveInteger (monitor_enable_threshold y) &&
  isOptionalMinIntervalSeconds (tokenspro_overview_sync_interval_seconds y) &&
  is_finite (tokenspro_overview_last_success_time y) &&
  match tokenspro_overview_last_allowed y with Some x => is_finite x | None => true end.

Definition parse_url (s : jsstr) : option (jsstr * jsstr) := (λ u, (host u, protocol u)) <$> new_URL s.

Definition issue := (jsstr * jsstr)%type.
Definition addRequiredIssue (c : bool) (path message : jsstr) : list issue := if c then [(path, message)] else [].

Definition advanced_issues (c : CoreFields) (y : TypeSettings) : exc (list issue) :=
  if (f_type c =? CHANNEL_TYPE_ADVANCED_CUSTOM)%Z then
    let config := default VNull (parseAdvancedCustomConfig (Some (advanced_custom y))) in
    error ← validateAdvancedCustomConfig parse_url config;
    relative ← advancedCustomConfigUsesRelativeUpstreamPath config;
    lists ← (if upstream_model_update_check_enabled y then hasValidAdvancedCustomModelListRoute parse_url config else Ret true);
    Ret (match error with Some e => [("advanced_custom"%js, message e)] | None => [] end ++
         addRequiredIssue (relative && negb (nonempty (trim (f_base_url c)))) "base_url"
           "Base URL is required when an advanced route uses an upstream path" ++
         addRequiredIssue (negb lists) "upstream_model_update_check_enabled"
           "OpenAI Models route is required to enable upstream model checks")
  else Ret [].

Definition superRefine (form : ChannelFormValues) : exc (list issue) :=
  let c := core form in
  let e := extra form in
  let y := typed form in
  let type := f_type c in
  let many := negb (bool_decide (f_multi_key_mode c = single)) in
  let shards := Number_of_value (or_else (http2_connection_shards e) (VNum (of_Z 1))) in
  advanced ← advanced_issues c y;
  Ret (addRequiredIssue (has_type [3; 8; 36; 45; CHANNEL_TYPE_NEW_API]%Z type && negb (nonempty (trim (f_base_url c)))) "base_url"
         "Base URL is required for this channel type" ++
       addRequiredIssue ((type =? CHANNEL_TYPE_TASK_PLUGIN)%Z && negb (nonempty (trim (task_plugin_key e)))) "task_plugin_key" "Select a task plugin" ++
       advanced ++
       addRequiredIssue (has_type [3; 18; 21; 39; 41; 49]%Z type && negb (nonempty (trim (f_other c)))) "other"
         "This channel type requires additional configuration" ++
       addRequiredIssue ((type =? 57)%Z && many) "multi_key_mode" "Codex channels do not support batch creation" ++
       addRequiredIssue ((type =? 57)%Z && nonempty (trim (f_key c)) && negb (isCodexCredential (f_key c))) "key"
         "Codex credential must be a JSON object with access_token and account_id" ++
       addRequiredIssue ((type =? 41)%Z && str_eqb (string_or_empty (vertex_key_type y)) "json" && nonempty (trim (f_key c)) && negb (isVertexJsonKey (f_key c)))
         "key" "Vertex AI service account key must be valid JSON" ++
       addRequiredIssue ((type =? 41)%Z && str_eqb (string_or_empty (vertex_key_type y)) "api_key" && many) "multi_key_mode"
         "Vertex AI API Key mode does not support batch creation" ++
       addRequiredIssue (num_ltb shards (of_Z 1) || num_ltb MAX_HTTP2_CONNECTION_SHARDS shards) "http2_connection_shards"
         "HTTP/2 connection shards must be between 1 and 8" ++
       addRequiredIssue (bool_decide (http_protocol e = HTTP_PROTOCOL_HTTP1) && num_ltb (of_Z 1) shards) "http2_connection_shards"
         "HTTP/2 connection shards must be 1 when HTTP/1.1 is selected").

(** The form passes the schema. *)
Definition checked (form : ChannelFormValues) : bool :=
  core_ok (core form) && extra_ok (extra form) && typed_ok (typed form) &&
  match superRefine form with Ret [] => true | _ => false end.
End Check.

Definition CHANNEL_FORM_DEFAULT_VALUES : ChannelFormValues :=
  MkForm
    (MkCore [] 1 VUndef [] [] [] [] ["default"%js] [] [] (VNum (of_Z 0)) (VNum (of_Z 0)) (VNum (of_Z 0)) [] (VNum (of_Z 1)) (VNum (of_Z 1)) [] [] [] []
       [] [] "{}" [] single (VStr "random") false "append")
    DEFAULT_EXTRA DEFAULT_TYPED.

(** [validateJSON], [validateModelMapping] *)
Definition validateJSON (v : jsstr) : bool :=
  if negb (nonempty v) || negb (nonempty (trim v)) then true else bool_decide (is_Some (JSON_parse v)).
Definition validateModelMapping (v : jsstr) : bool :=
  if negb (nonempty v) || negb (nonempty (trim v)) then true else validateJSON v.
End ChannelForm.
