(* ===== verification/ChannelFormFacts.v ===== *)
(** * Theorems on the form of a channel

    What the stored texts keep of the form: the options reopened, the keys the
    form does not know, saving twice; what an update sends. *)

From S2P Require Import Prelude JsString JsRegExp JsNumber JsInteger JsValue JsObject JsonRoundTrip JsMap ModelMapping PriceTable PriceTableFacts AdvancedCustom AdvancedCustomFacts PriceSheetSave ChannelForm.

Module ChannelFormFacts.
Import ModelMapping PriceTable PriceTableFacts AdvancedCustom AdvancedCustomFacts PriceSheetSave ChannelForm.

#[local] Arguments obj_set : simpl never.
#[local] Arguments obj_delete : simpl never.
#[local] Arguments to_string : simpl never.
#[local] Arguments num_to_string : simpl never.
#[local] Arguments Number_of_string : simpl never.
#[local] Arguments trim : simpl never.
#[local] Arguments set_of : simpl never.
#[local] Arguments open_advanced : simpl never.
#[local] Arguments parseAdvancedCustomConfig : simpl never.

(** ** Assignments *)

(** The first assignment to a key, the only one where keys are distinct. *)
Fixpoint script_get (script : list (jsstr * option value)) (k : jsstr) : option (option value) :=
  match script with
  | [] => None
  | (j, o) :: rest => if str_eqb k j then Some o else script_get rest k
  end.

Lemma script_get_None script k : script_get script k = None ↔ k ∉ script.*1.
Proof.
  induction script as [|[j o] script IH]; cbn; [split; [by intros _ ?%elem_of_nil|done]|].
  rewrite not_elem_of_cons, <- IH. unfold str_eqb. case_bool_decide; [|tauto]. split; [done|tauto].
Qed.

Lemma script_get_app a b k : script_get (a ++ b) k = match script_get a k with Some o => Some o | None => script_get b k end.
Proof. induction a as [|[j o] a IH]; [done|]. cbn. by destruct (str_eqb k j). Qed.

Lemma script_get_elem script k o : NoDup script.*1 → (k, o) ∈ script → script_get script k = Some o.
Proof.
  induction script as [|[j p] script IH]; [by intros _ ?%elem_of_nil|]. cbn. rewrite NoDup_cons. intros [Hj Hn].
  rewrite elem_of_cons. unfold str_eqb. intros [[= <- <-]|Hin]; [by rewrite bool_decide_true|].
  rewrite bool_decide_false by (intros ->; exact (Hj (list_elem_of_fmap_2 fst _ _ Hin))). auto.
Qed.

Lemma assigned script fs k : NoDup script.*1 →
  obj_get (fold_left assign_member script fs) k = match script_get script k with Some o => o | None => obj_get fs k end.
Proof.
  revert fs. induction script as [|[j o] script IH]; intros fs; [done|]. cbn. rewrite NoDup_cons. intros [Hj Hn]. rewrite IH by done.
  unfold str_eqb. case_bool_decide as E.
  - subst. rewrite (proj2 (script_get_None _ _) Hj). unfold assign_member. cbn.
    destruct o; [by rewrite obj_get_set_eq|]. rewrite obj_get_delete. by rewrite decide_True.
  - destruct (script_get script k); [done|]. unfold assign_member. cbn. destruct o; [by rewrite obj_get_set_ne|].
    rewrite obj_get_delete. by rewrite decide_False.
Qed.

Lemma obj_update_same fs k v : obj_get fs k = Some v → obj_update fs k v = fs.
Proof.
  induction fs as [|[j w] fs IH]; [done|]. cbn. destruct (str_eqb k j); [by intros [= ->]|]. intros H. by rewrite IH.
Qed.

Lemma obj_delete_absent fs k : obj_get fs k = None → obj_delete fs k = fs.
Proof.
  unfold obj_delete. induction fs as [|[j w] fs IH]; [done|]. cbn. unfold str_eqb at 1 2. case_bool_decide as E; [done|].
  intros H. rewrite bool_decide_false by congruence. cbn. by rewrite IH.
Qed.

Lemma assign_same fs k o : obj_get fs k = o → assign_member fs (k, o) = fs.
Proof.
  unfold assign_member. cbn. destruct o; intros H; [|by apply obj_delete_absent]. unfold obj_set. rewrite H. by apply obj_update_same.
Qed.

Lemma assigned_same script fs : (∀ k o, (k, o) ∈ script → obj_get fs k = o) → fold_left assign_member script fs = fs.
Proof.
  induction script as [|[k o] script IH]; [done|]. intros H. cbn [fold_left]. rewrite assign_same by (apply H; left).
  apply IH. intros j p Hj. apply H. by right.
Qed.

Lemma assigned_NoDup script fs : NoDup fs.*1 → NoDup (fold_left assign_member script fs).*1.
Proof.
  revert fs. induction script as [|[k o] script IH]; intros fs Hn; [done|]. cbn. apply IH. unfold assign_member. cbn.
  destruct o; [by apply obj_set_NoDup|by apply obj_delete_NoDup].
Qed.

(** An object is writable if its old and its new values are. *)
Lemma assigned_jsonable script fs : NoDup script.*1 → jsonable (VObj fs) →
  (∀ k v, (k, Some v) ∈ script → key_index k = None ∧ jsonable v) → jsonable (VObj (fold_left assign_member script fs)).
Proof.
  intros Hs [Hn Hf]%jsonable_obj H. apply obj_jsonable; [by apply assigned_NoDup|]. intros [k v] Hp.
  apply elem_of_obj_get in Hp; [|by apply assigned_NoDup]. rewrite assigned in Hp by done.
  destruct (script_get script k) as [o|] eqn:E; [|by apply (Hf (k, v)), obj_get_elem]. subst.
  apply (H k v). revert E. clear. induction script as [|[j p] script IH]; [done|]. cbn. unfold str_eqb. case_bool_decide; [subst|].
  - intros [= ->]. left.
  - intros E%IH. by right.
Qed.

(** ** The keys of [settings] the form writes *)

Definition MANAGED_KEYS : list jsstr :=
  ["vertex_key_type"; "azure_responses_version"; "openrouter_enterprise"; "aws_key_type"; "allow_service_tier"; "disable_store";
   "allow_safety_identifier"; "allow_include_obfuscation"; "allow_inference_geo"; "allow_speed"; "claude_beta_query";
   "claude_code_fingerprint_enabled"; "claude_code_transport_fingerprint_enabled"; "claude_code_version"; "claude_code_entrypoint";
   "monitor_enabled"; "monitor_auto_disable_enabled"; "monitor_auto_enable_enabled"; "monitor_test_interval_minutes";
   "monitor_response_time_threshold_seconds"; "monitor_disable_threshold"; "monitor_enable_threshold"; "disable_task_polling_sleep";
   "upstream_model_update_check_enabled"; "upstream_model_update_auto_sync_enabled"; "upstream_model_update_ignored_models";
   "upstream_model_update_last_detected_models"; "upstream_model_update_last_check_time"; "tokenspro_overview_sync_enabled";
   "tokenspro_overview_sync_interval_seconds"; "advanced_custom"]%js.

Lemma managed_NoDup : NoDup MANAGED_KEYS.
Proof. apply (bool_decide_eq_true_1 (NoDup _)). by vm_compute. Qed.

Lemma managed_plain : Forall (λ k, key_index k = None) MANAGED_KEYS.
Proof. apply (bool_decide_eq_true_1 (Forall _ _)). by vm_compute. Qed.

Lemma script_keys form old : sublist (settings_script form old).*1 MANAGED_KEYS.
Proof.
  unfold settings_script, put_if, MANAGED_KEYS. cbv zeta. destruct (has_type MODEL_FETCHABLE_TYPES _);
    [match goal with |- context [if ?b then [("upstream_model_update_last_detected_models"%js, _)] else _] => destruct b end;
     match goal with |- context [if ?b then [("upstream_model_update_last_check_time"%js, _)] else _] => destruct b end|];
    (destruct (Z.eqb _ CHANNEL_TYPE_ADVANCED_CUSTOM); [destruct (parseAdvancedCustomConfig _)|]); cbn [app fmap list_fmap fst];
    repeat first [apply sublist_skip|apply sublist_cons|apply sublist_nil].
Qed.

Lemma script_NoDup form old : NoDup (settings_script form old).*1.
Proof. eapply sublist_NoDup; [apply managed_NoDup|apply script_keys]. Qed.

(** What a key holds after the build. *)
Definition stored (form : ChannelFormValues) (old : obj) (k : jsstr) : option value :=
  match script_get (settings_script form old) k with Some o => o | None => obj_get old k end.

Definition new_settings (form : ChannelFormValues) (old : obj) : obj := fold_left assign_member (settings_script form old) old.

#[local] Arguments new_settings : simpl never.

Lemma new_get form old k : obj_get (new_settings form old) k = stored form old k.
Proof. apply assigned, script_NoDup. Qed.

Lemma unmanaged_kept form old k : k ∉ MANAGED_KEYS → obj_get (new_settings form old) k = obj_get old k.
Proof.
  intros H. rewrite new_get. unfold stored. assert (script_get (settings_script form old) k = None) as ->; [|done].
  apply script_get_None. intros Hk. by apply H, (elem_of_submseteq _ _ _ Hk), sublist_submseteq, script_keys.
Qed.

(** ** The options of a saved form *)

Definition settled_number (text : jsstr) : jsstr :=
  if nonempty (trim text) then numericSetting (VNum (Number_of_string text)) else [].

Definition interval_ok (text : jsstr) : bool :=
  nonempty (trim text) && is_integer (Number_of_string text) && num_leb (of_Z 60) (Number_of_string text).

Definition listed_models (text : jsstr) : list jsstr := set_of (List.filter nonempty (trim <$> split_char 44 text)).

(** What opening the saved settings shows: an option of another channel type
    its default, numbers in their shortest text, the rest as it was entered;
    what the form only shows, and the model updates of a type that has none,
    as it was stored. *)
Definition reopened (form : ChannelFormValues) (old : obj) : TypeSettings :=
  let y := typed form in
  let type := f_type (core form) in
  let openai := has_type OPENAI_FIELD_PASSTHROUGH_TYPES type in
  let claude := has_type CLAUDE_FIELD_PASSTHROUGH_TYPES type in
  let fetchable := has_type MODEL_FETCHABLE_TYPES type in
  let was := read_typed (VObj old) in
  MkTyped
    (if (type =? 41)%Z then or_value (vertex_key_type y) (VStr "json") else VStr "json")
    (if (type =? 3)%Z then or_value (azure_responses_version y) (VStr []) else VStr [])
    ((type =? 20)%Z && is_enterprise_account y)
    (if (type =? 33)%Z then or_value (aws_key_type y) (VStr "ak_sk") else VStr "ak_sk")
    (has_type FIELD_PASSTHROUGH_TYPES type && allow_service_tier y)
    (openai && disable_store y)
    (openai && allow_safety_identifier y)
    (openai && allow_include_obfuscation y)
    ((openai || claude) && allow_inference_geo y)
    (claude && allow_speed y)
    ((type =? 14)%Z && claude_beta_query y)
    (claude && claude_code_fingerprint_enabled y)
    (claude && claude_code_transport_fingerprint_enabled y)
    (if claude then trim (claude_code_version y) else [])
    (if claude then trim (claude_code_entrypoint y) else [])
    (monitor_enabled y)
    (settled_number (monitor_test_interval_minutes y))
    (settled_number (monitor_response_time_threshold_seconds y))
    (monitor_auto_disable_enabled y)
    (monitor_auto_enable_enabled y)
    (settled_number (monitor_disable_threshold y))
    (settled_number (monitor_enable_threshold y))
    (disable_task_polling_sleep y)
    (if fetchable then upstream_model_update_check_enabled y else upstream_model_update_check_enabled was)
    (if fetchable then upstream_model_update_check_enabled y && upstream_model_update_auto_sync_enabled y
     else upstream_model_update_auto_sync_enabled was)
    (if fetchable then formatModels (listed_models (upstream_model_update_ignored_models y)) else upstream_model_update_ignored_models was)
    (tokenspro_overview_sync_enabled y)
    (if interval_ok (tokenspro_overview_sync_interval_seconds y) then settled_number (tokenspro_overview_sync_interval_seconds y) else [])
    (tokenspro_overview_last_success_time was)
    (tokenspro_overview_last_allowed was)
    (tokenspro_overview_last_error was)
    (if (type =? CHANNEL_TYPE_ADVANCED_CUSTOM)%Z
     then match parseAdvancedCustomConfig (Some (advanced_custom y)) with Some c => open_advanced c | None => advanced_custom was end
     else []).

Lemma script_get_if (b : bool) x y k : script_get (if b then x else y) k = if b then script_get x k else script_get y k.
Proof. by destruct b. Qed.

Lemma script_get_match {A} (o : option A) f k :
  script_get (match o with Some c => f c | None => [] end) k = match o with Some c => script_get (f c) k | None => None end.
Proof. by destruct o. Qed.

Lemma if_same {A} (b : bool) (x : A) : (if b then x else x) = x.
Proof. by destruct b. Qed.

Lemma match_same {A B} (o : option A) (x : B) : match o with Some _ => x | None => x end = x.
Proof. by destruct o. Qed.

(** The member [k] after the build, for a key that is written out. *)
Ltac at_key :=
  rewrite new_get; unfold stored, settings_script, put_if; cbv zeta; rewrite ?script_get_app; cbn [script_get]; str_eval;
  rewrite ?script_get_if, ?script_get_match, ?script_get_app, ?script_get_if; cbn [script_get]; str_eval; rewrite ?if_same, ?match_same, ?if_same.

Lemma or_value_idemp v d : or_value (or_value v d) d = or_value v d.
Proof. unfold or_value. destruct (truthy v) eqn:E; [by rewrite E|]. by destruct (truthy d). Qed.

Lemma join_strings ms : to_string (VArr (VStr <$> ms)) = formatModels ms.
Proof. unfold to_string, formatModels. cbn. f_equal. change (map ?f ?l) with (f <$> l). rewrite <- list_fmap_compose. by rewrite (list_fmap_ext _ id), list_fmap_id. Qed.

Lemma override_read o : booleanOverride (default VUndef (override_value o)) = o.
Proof. by destruct o. Qed.

Lemma number_read text : numericSetting (default VUndef (if nonempty (trim text) then Some (VNum (Number_of_string text)) else None)) = settled_number text.
Proof. unfold settled_number. by destruct (nonempty (trim text)). Qed.

Lemma flag_read (b x : bool) : is_true (default VUndef (if b then Some (VBool x) else None)) = b && x.
Proof. by destruct b. Qed.

Lemma text_read (b : bool) t :
  string_or_empty (default VUndef (if b && nonempty t then Some (VStr t) else None)) = if b then t else [].
Proof. destruct b, t; done. Qed.

Lemma choice_read (b : bool) v d : or_value (default VUndef (if b then Some (or_value v d) else None)) d = if b then or_value v d else d.
Proof. destruct b; [apply or_value_idemp|done]. Qed.

Lemma read_new form old : read_typed (VObj (new_settings form old)) = reopened form old.
Proof.
  unfold read_typed, reopened. cbn [prop]. cbv zeta.
  f_equal; at_key; first [apply choice_read|apply flag_read|apply text_read|apply override_read|apply number_read|done|idtac].
  - destruct (Z.eqb _ 3); [|done]. cbn. unfold or_value. destruct (truthy (azure_responses_version _)) eqn:E; cbn; by rewrite ?E.
  - by destruct (has_type MODEL_FETCHABLE_TYPES _).
  - by destruct (has_type MODEL_FETCHABLE_TYPES _).
  - destruct (has_type MODEL_FETCHABLE_TYPES _); [apply join_strings|done].
  - unfold interval_ok. destruct (nonempty (trim (tokenspro_overview_sync_interval_seconds _))) eqn:E; [|done]. cbn [andb].
    unfold settled_number. rewrite E. by destruct (is_integer _ && _).
  - destruct (Z.eqb _ CHANNEL_TYPE_ADVANCED_CUSTOM); [|done]. by destruct (parseAdvancedCustomConfig _).
Qed.

(** ** What can be stored *)

(** An entered number is empty or has a text that reads back. *)
Definition text_ok (t : jsstr) : bool :=
  implb (nonempty (trim t)) (readable (Number_of_string t) && num_text_ok (Number_of_string t)).

Definition storable_form (form : ChannelFormValues) : bool :=
  let y := typed form in
  forallb text_ok [monitor_test_interval_minutes y; monitor_response_time_threshold_seconds y; monitor_disable_threshold y;
                   monitor_enable_threshold y; tokenspro_overview_sync_interval_seconds y] &&
  optional_value jsonable (http2_connection_shards (extra form)) &&
  implb (f_type (core form) =? CHANNEL_TYPE_ADVANCED_CUSTOM)%Z
    match parseAdvancedCustomConfig (Some (advanced_custom y)) with Some c => jsonable c | None => true end.

Lemma text_ok_facts t : text_ok t = true → nonempty (trim t) = true →
  readable (Number_of_string t) ∧ Number_of_string (num_to_string (Number_of_string t)) = Number_of_string t.
Proof.
  unfold text_ok, num_text_ok. intros H E. rewrite E in H. apply andb_true_iff in H as [H1 H2]. apply bool_decide_eq_true in H2.
  split; [by rewrite H1|done].
Qed.

Lemma readable_text x : readable x → nonempty (trim (num_to_string x)) = true.
Proof.
  intros (c & t & -> & Hc)%readable_head. destruct (trim (c :: t)) eqn:E; [|done]. exfalso.
  assert (is_ws c = false) as Hw by (destruct Hc as [->|Hc]; [done|]; unfold is_digit, is_ws in *; lia). by apply trim_nil_head in E.
Qed.

Lemma settled_again t : text_ok t = true →
  nonempty (trim (settled_number t)) = nonempty (trim t) ∧
  (nonempty (trim t) = true → Number_of_string (settled_number t) = Number_of_string t).
Proof.
  intros Ht. unfold settled_number. destruct (nonempty (trim t)) eqn:E; [|done]. destruct (text_ok_facts t Ht E) as [Hr Hn].
  pose proof (readable_spec _ Hr) as [Hf _]. cbn. rewrite Hf. by split; [apply readable_text|].
Qed.

Lemma parsed_normal t c : parseAdvancedCustomConfig t = Some c → normalizeAdvancedCustomConfig c = Ret c.
Proof.
  unfold parseAdvancedCustomConfig. destruct t as [s|]; [|done]. destruct (negb _); [done|]. destruct (JSON_parse s) as [[| | | | | |fs]|]; try done.
  destruct (normalizeAdvancedCustomConfig (VObj fs)) eqn:E; [done|]. intros [= <-]. by eapply normalize_config_idemp.
Qed.

(** Opening the stored configuration gives a text that stands for it. *)
Lemma advanced_again t c : parseAdvancedCustomConfig t = Some c → jsonable c → parseAdvancedCustomConfig (Some (open_advanced c)) = Some c.
Proof.
  intros Hn%parsed_normal Hj. destruct (normal_text c Hn Hj) as (u & Hu & Hp). unfold open_advanced, stringifyAdvancedCustomConfig.
  assert (truthy c = true) as -> by (by pose proof Hn as (_ & ns & -> & _)%normalize_config_ret). rewrite Hn. cbn [mbind exc_bind]. by rewrite Hu.
Qed.

Lemma pieces_parsed text : List.filter nonempty (trim <$> split_char 44 text) = parseModelsString text.
Proof. unfold parseModelsString. by destruct text. Qed.

Lemma listed_again text : listed_models (formatModels (listed_models text)) = listed_models text.
Proof.
  unfold listed_models, formatModels. rewrite !pieces_parsed, parse_join_models; [apply set_of_idemp|].
  pose proof (parse_models_pieces text) as H. rewrite Forall_forall in H |- *. intros m. rewrite elem_of_set_of. apply H.
Qed.

(** ** The check *)

(** A blank text is no JSON. *)
Lemma blank_head s : trim s = [] → match skip_ws s with [] => True | c :: _ => is_ws c = true ∧ json_ws c = false end.
Proof.
  induction s as [|c s IH]; [done|]. intros H. cbn. destruct (is_ws c) eqn:Ew; [|by apply trim_nil_head in H].
  destruct (json_ws c) eqn:Ej; [|done]. apply IH. revert H. unfold trim. cbn. by rewrite Ew.
Qed.

Lemma blank_not_json s : trim s = [] → JSON_parse s = None.
Proof.
  intros H%blank_head. unfold JSON_parse. replace (2 * length s + 2)%nat with (S (2 * length s + 1)) by lia. cbn [json_value].
  destruct (skip_ws s) as [|c t]; [done|]. destruct H as [Hw Hj].
  assert (json_number (c :: t) = None) as E.
  { rewrite json_number_parts. cbn [sign_of]. destruct (N.eqb_spec c 45) as [->|]; [done|]. cbn [span].
    assert (is_digit c = false) as -> by (unfold is_digit, is_ws in *; lia). done. }
  revert E. destruct c as [|c]; [by intros ->|]. repeat (destruct c as [c|c|]; try (by intros ->); try done).
Qed.

Section Checked.
Context (new_URL : jsstr → option URL).

Lemma checked_parts form : checked new_URL form = true →
  core_ok (core form) = true ∧ extra_ok new_URL (extra form) = true ∧ typed_ok (typed form) = true ∧ superRefine new_URL form = Ret [].
Proof.
  unfold checked. rewrite !andb_true_iff. intros [[[H1 H2] H3] H4]. by destruct (superRefine new_URL form) as [|[|]].
Qed.

(** A checked form starts from an object. *)
Lemma checked_object form : core_ok (core form) = true → ∃ old, existing_settings (f_settings (core form)) = VObj old.
Proof.
  unfold core_ok. rewrite !andb_true_iff. intros Hc.
  assert (isOptionalJsonObject (f_settings (core form)) = true) as H by tauto. clear Hc. revert H.
  unfold isOptionalJsonObject, optional_json, existing_settings. generalize (f_settings (core form)). intros text.
  destruct (nonempty text && _) eqn:E; [|by eauto]. destruct (nonempty (trim text)) eqn:Et.
  - destruct (JSON_parse text) as [[| | | | | |fs]|]; try done; eauto.
  - rewrite blank_not_json by (by destruct (trim text)). by eauto.
Qed.

(** A checked advanced channel has a configuration. *)
Lemma checked_advanced form : superRefine new_URL form = Ret [] → f_type (core form) = CHANNEL_TYPE_ADVANCED_CUSTOM →
  ∃ c, parseAdvancedCustomConfig (Some (advanced_custom (typed form))) = Some c ∧ validateAdvancedCustomConfig (parse_url new_URL) c = Ret None.
Proof.
  unfold superRefine, advanced_issues. intros (issues & H & H')%bind_ret Ht. rewrite Ht in H. cbn [Z.eqb] in H.
  rewrite (proj2 (Z.eqb_eq _ _) eq_refl) in H. apply bind_ret in H as (error & He & (rel & _ & (lists & _ & [= <-])%bind_ret)%bind_ret).
  injection H' as H'. apply app_eq_nil in H' as [_ [_ [H' _]%app_eq_nil]%app_eq_nil]. apply app_eq_nil in H' as [H' _].
  destruct error; [done|]. destruct (parseAdvancedCustomConfig _) as [c|]; [|done]. by exists c.
Qed.

Lemma typed_ok_facts y : typed_ok y = true →
  jsonable (or_value (vertex_key_type y) (VStr "json")) ∧ jsonable (or_value (aws_key_type y) (VStr "ak_sk")) ∧
  (truthy (azure_responses_version y) = true → jsonable (azure_responses_version y)).
Proof.
  unfold typed_ok. rewrite !andb_true_iff. intros H. destruct_and!. unfold optional_value, or_value in *.
  split_and!; [destruct (vertex_key_type y)|destruct (aws_key_type y)|destruct (azure_responses_version y)]; try done; by destruct (truthy _).
Qed.

Definition writable (o : option value) : Prop := match o with Some v => jsonable v = true | None => True end.

Lemma writable_if (b : bool) v : (b = true → jsonable v = true) → writable (if b then Some v else None).
Proof. destruct b; cbn; auto. Qed.

Lemma writable_number t : text_ok t = true → writable (if nonempty (trim t) then Some (VNum (Number_of_string t)) else None).
Proof. intros Ht. apply writable_if. intros E. apply Is_true_true. by destruct (text_ok_facts t Ht E) as [? _]. Qed.

Lemma writable_override o : writable (override_value o).
Proof. by destruct o. Qed.

Lemma script_jsonable form old : typed_ok (typed form) = true → storable_form form = true →
  Forall (λ p, writable p.2) (settings_script form old).
Proof.
  intros Hy Hs. destruct (typed_ok_facts _ Hy) as (Hv & Ha & Hz). unfold storable_form in Hs. rewrite !andb_true_iff in Hs.
  destruct Hs as [[Hn _] Hadv]. cbn [forallb] in Hn. rewrite !andb_true_iff in Hn. destruct Hn as (N1 & N2 & N3 & N4 & N5 & _).
  unfold settings_script. cbv zeta. rewrite !Forall_app. split_and!.
  - repeat (apply Forall_cons; split); try apply Forall_nil_2; cbn [put_if fst snd];
      first [by apply writable_number|apply writable_override|done|apply writable_if; intros E]; try (by apply Is_true_true); try done.
    apply Is_true_true, Hz. by apply andb_true_iff in E as [_ ?].
  - destruct (has_type _ _); [|constructor].
    repeat (apply Forall_cons; split); [done|done|apply Is_true_true, strings_jsonable|]. rewrite Forall_app. 
    split; (match goal with |- context [if ?b then _ else _] => destruct b end); repeat constructor.
  - repeat (apply Forall_cons; split); [done| |constructor]. cbn [put_if snd]. apply writable_if. intros E.
    apply Is_true_true. destruct (nonempty (trim _)) eqn:En; [|done]. by destruct (text_ok_facts _ N5 En) as [? _].
  - destruct (Z.eqb _ _); [|by repeat constructor]. destruct (parseAdvancedCustomConfig _); [|constructor]. by repeat constructor.
Qed.

(** ** Saving and opening again *)

Lemma new_jsonable form old : typed_ok (typed form) = true → storable_form form = true → jsonable (VObj old) → jsonable (VObj (new_settings form old)).
Proof.
  intros Hy Hs Ho. apply assigned_jsonable; [apply script_NoDup|done|]. intros k v Hk.
  pose proof (script_jsonable form old Hy Hs) as H. rewrite Forall_forall in H. specialize (H _ Hk). cbn in H. split; [|by rewrite H].
  pose proof managed_plain as Hp. rewrite Forall_forall in Hp. apply Hp.
  by apply (elem_of_submseteq _ _ _ (list_elem_of_fmap_2 fst _ _ Hk)), sublist_submseteq, script_keys.
Qed.

(** The text that is written. *)
Lemma settings_text form old : existing_settings (f_settings (core form)) = VObj old → jsonable (VObj (new_settings form old)) →
  ∃ text, buildSettingsJSON form = Ret text ∧ JSON_parse text = Some (VObj (new_settings form old)) ∧ nonempty text = true ∧
    existing_settings text = VObj (new_settings form old).
Proof.
  intros E Hj. unfold buildSettingsJSON. rewrite E. fold (new_settings form old).
  destruct (JSON_parse_stringify _ Hj) as (t & Ht & (c & t' & Hc & _) & Hp). exists t. rewrite Ht. split; [done|].
  assert (nonempty t = true) as Hn by (by subst). split; [done|]. split; [done|].
  unfold existing_settings. rewrite Hn. cbn [andb]. destruct (str_eqb t "{}") eqn:Et; cbn [negb]; [|by rewrite Hp].
  apply str_eqb_spec in Et as ->. rewrite (eq_refl : JSON_parse "{}" = Some (VObj [])) in Hp. congruence.
Qed.

Lemma opened_text text fs : nonempty text = true → JSON_parse text = Some (VObj fs) → open_typed text = read_typed (VObj fs).
Proof. intros Hn Hp. unfold open_typed. by rewrite Hn, Hp. Qed.

(** The values of a script, built from the options reopened. *)
Lemma again_flag (b x : bool) : (if b then Some (VBool x) else None) = if b then Some (VBool (b && x)) else None.
Proof. by destruct b. Qed.

Lemma again_choice (b : bool) v d :
  (if b then Some (or_value v d) else None) = if b then Some (or_value (if b then or_value v d else d) d) else None.
Proof. destruct b; [by rewrite or_value_idemp|done]. Qed.

Lemma again_optional (b : bool) v :
  (if b && truthy v then Some v else None) =
  if b && truthy (if b then or_value v (VStr []) else VStr []) then Some (if b then or_value v (VStr []) else VStr []) else None.
Proof. destruct b; [|done]. cbn. unfold or_value. destruct (truthy v) eqn:E; by rewrite ?E. Qed.

Lemma again_text (b : bool) t :
  (if b && nonempty (trim t) then Some (VStr (trim t)) else None) =
  if b && nonempty (trim (if b then trim t else [])) then Some (VStr (trim (if b then trim t else []))) else None.
Proof. destruct b; [by rewrite trim_idemp|done]. Qed.

Lemma again_number t : text_ok t = true →
  (if nonempty (trim t) then Some (VNum (Number_of_string t)) else None) =
  if nonempty (trim (settled_number t)) then Some (VNum (Number_of_string (settled_number t))) else None.
Proof. intros [-> H]%settled_again. destruct (nonempty (trim t)); [|done]. by rewrite H. Qed.

Lemma detected_new form old : has_type MODEL_FETCHABLE_TYPES (f_type (core form)) = true →
  let v := default VUndef (obj_get (new_settings form old) "upstream_model_update_last_detected_models") in
  is_array v = true ∧ (upstream_model_update_check_enabled (typed form) = false →
    obj_get (new_settings form old) "upstream_model_update_last_detected_models" = Some (VArr [])).
Proof.
  intros Hf. cbv zeta. at_key. rewrite Hf. destruct (upstream_model_update_check_enabled _) eqn:E; cbn [negb]; rewrite ?orb_true_r, ?orb_false_r; [|done].
  by destruct (is_array (default VUndef (obj_get old "upstream_model_update_last_detected_models"))) eqn:Ea.
Qed.

Lemma check_time_new form old : has_type MODEL_FETCHABLE_TYPES (f_type (core form)) = true →
  is_number (default VUndef (obj_get (new_settings form old) "upstream_model_update_last_check_time")) = true.
Proof.
  intros Hf. at_key. rewrite Hf. destruct (is_number (default VUndef (obj_get old "upstream_model_update_last_check_time"))) eqn:E; cbn [negb];
    by repeat match goal with |- context [if ?b then None else None] => destruct b end.
Qed.

Lemma again_interval t : text_ok t = true → let t' := if interval_ok t then settled_number t else [] in
  (if interval_ok t then Some (VNum (Number_of_string t)) else None) = if interval_ok t' then Some (VNum (Number_of_string t')) else None.
Proof.
  intros Ht. cbv zeta. destruct (interval_ok t) eqn:E; [|done]. pose proof E as E'. unfold interval_ok in E'. rewrite !andb_true_iff in E'.
  destruct E' as [[En Ei] Eg]. destruct (settled_again t Ht) as [H1 H2]. specialize (H2 En). unfold interval_ok. by rewrite H1, H2, En, Ei, Eg.
Qed.

(** The build of a form that was just opened assigns what is there. *)
Lemma assigned_again form old core' extra' :
  storable_form form = true → f_type core' = f_type (core form) →
  (f_type (core form) = CHANNEL_TYPE_ADVANCED_CUSTOM → is_Some (parseAdvancedCustomConfig (Some (advanced_custom (typed form))))) →
  Forall (λ p, obj_get (new_settings form old) p.1 = p.2)
    (settings_script (MkForm core' extra' (reopened form old)) (new_settings form old)).
Proof.
  intros Hs Ht Hadv. unfold storable_form in Hs. rewrite !andb_true_iff in Hs.
  destruct Hs as [[Hn _] Hj]. cbn [forallb] in Hn. rewrite !andb_true_iff in Hn. destruct Hn as (N1 & N2 & N3 & N4 & N5 & _).
  unfold settings_script at 1. cbv zeta. cbn [typed core]. rewrite !Ht. rewrite !Forall_app. split_and!.
  - repeat (apply Forall_cons; split); try apply Forall_nil_2; cbn [put_if fst snd]; at_key; unfold reopened; cbn;
      first [done|apply again_choice|apply again_optional|apply again_flag|apply again_text|by apply again_number].
  - destruct (has_type MODEL_FETCHABLE_TYPES _) eqn:Ef; [|constructor]. destruct (detected_new form old Ef) as [Hd Hd'].
    rewrite Hd, (check_time_new form old Ef). unfold reopened. cbn. rewrite Ef.
    repeat (apply Forall_cons; split); cbn [fst snd].
    + at_key. by rewrite Ef.
    + at_key. rewrite Ef. by rewrite andb_assoc, andb_diag.
    + at_key. rewrite Ef. change (set_of (List.filter nonempty (trim <$> split_char 44 (formatModels ?l)))) with (listed_models (formatModels l)).
      by rewrite listed_again.
    + destruct (upstream_model_update_check_enabled _); [constructor|]. repeat constructor. by apply Hd'.
  - repeat (apply Forall_cons; split); [| |constructor]; cbn [put_if fst snd]; at_key; [done|]. unfold reopened. cbn. by apply again_interval.
  - destruct (Z.eqb_spec (f_type (core form)) CHANNEL_TYPE_ADVANCED_CUSTOM) as [E|E]; cbn [implb] in Hj.
    + unfold reopened. cbn. rewrite (proj2 (Z.eqb_eq _ _) E). destruct (Hadv E) as [c Hc]. rewrite Hc in *. rewrite (advanced_again _ _ Hc) by (by rewrite Hj).
      repeat constructor. cbn [fst snd]. at_key. by rewrite (proj2 (Z.eqb_eq _ _) E), Hc.
    + repeat constructor. cbn [fst snd]. at_key. by rewrite (proj2 (Z.eqb_neq _ _) E).
Qed.

(** ** The [setting] text *)

Definition reopened_extra (form : ChannelFormValues) : ExtraSettings :=
  let e := extra form in
  let type := f_type (core form) in
  MkExtra
    (if (type =? CHANNEL_TYPE_TASK_PLUGIN)%Z then trim (task_plugin_key e) else [])
    (or_value (force_format e) (VBool false))
    (has_type FORCE_RESPONSES_CHANNEL_TYPES type && force_responses e)
    (or_value (thinking_to_content e) (VBool false))
    (VStr (trimmed_text (proxy e)))
    (http_protocol e)
    (shards_of e)
    (or_value (pass_through_body_enabled e) (VBool false))
    (or_value (system_prompt e) (VStr []))
    (or_value (system_prompt_override e) (VBool false)).

Lemma compare_eq_one x : num_leb (of_Z 1) x = true → num_ltb (of_Z 1) x = false → x = of_Z 1.
Proof.
  change (of_Z 1) with (SpecFloat.S754_finite false 4503599627370496 (-52)). unfold num_leb, num_ltb, SpecFloat.SFleb, SpecFloat.SFltb.
  destruct x as [[]|[]| |[] m e]; try done. cbn -[Z.compare Pos.compare_cont].
  destruct (Z.compare_spec (-52) e) as [<-|?|?]; try done. rewrite Pos.compare_cont_spec. cbn -[Pos.compare].
  destruct (Pos.compare_spec 4503599627370496 m); subst; done.
Qed.

(** A checked form has between one and eight shards, one with HTTP/1.1. *)
Lemma checked_shards form : extra_ok new_URL (extra form) = true → superRefine new_URL form = Ret [] →
  ∃ x, shards_of (extra form) = VNum x ∧ num_leb (of_Z 1) x = true ∧ num_leb x MAX_HTTP2_CONNECTION_SHARDS = true ∧ z_int (VNum x) = true ∧
    normalizeHttp2ConnectionShards (VNum x) = VNum x.
Proof.
  intros He H. assert (optional_value z_int (http2_connection_shards (extra form)) = true) as Hz.
  { unfold extra_ok in He. rewrite !andb_true_iff in He. tauto. }
  apply bind_ret in H as (issues & _ & H). apply (f_equal (λ r, match r with Ret l => l | Throw => [] end)) in H. cbv beta iota in H.
  do 8 apply app_eq_nil in H as [_ H]. apply app_eq_nil in H as [H _].
  unfold addRequiredIssue in H. destruct (_ || _) eqn:E in H; [done|]. clear H. apply orb_false_iff in E as [E1 E2].
  assert (∃ y, or_else (http2_connection_shards (extra form)) (VNum (of_Z 1)) = VNum y ∧ z_int (VNum y) = true) as (y & Hy & Hi).
  { destruct (http2_connection_shards (extra form)); try done; eauto. }
  rewrite Hy in E1, E2. cbn [Number_of_value] in E1, E2.
  assert (is_nan y = false) as Hn by (cbn in Hi; by destruct y).
  assert (num_leb (of_Z 1) y = true) as L1 by (rewrite num_ltb_leb in E1 by done; by destruct (num_leb _ _)).
  assert (num_leb y MAX_HTTP2_CONNECTION_SHARDS = true) as L2 by (rewrite num_ltb_leb in E2 by done; by destruct (num_leb _ _)).
  assert (normalizeHttp2ConnectionShards (VNum y) = VNum y) as Hsame.
  { unfold normalizeHttp2ConnectionShards. cbn [Number_of_value]. rewrite Hn, E1, E2. cbn [orb]. by destruct y as [[]|[]| |[]]. }
  unfold shards_of. destruct (decide _) as [E|E]; [by exists (of_Z 1)|]. exists y. split; [|done].
  rewrite <- Hsame, <- Hy. by destruct (http2_connection_shards (extra form)).
Qed.

End Checked.
End ChannelFormFacts.
