(* ===== verification/ChannelFormSave.v ===== *)
(** * Saving a channel and opening it again

    The two stored texts of a checked form, the form a channel with these texts
    opens, and what an update request carries. *)

From S2P Require Import Prelude JsString JsRegExp JsNumber JsInteger JsValue JsObject JsonRoundTrip JsMap PriceTable PriceTableFacts PriceSheetSave AdvancedCustom AdvancedCustomFacts ChannelForm ChannelFormFacts.

Module ChannelFormSave.
Import PriceTable PriceTableFacts PriceSheetSave AdvancedCustom AdvancedCustomFacts ChannelForm ChannelFormFacts.

#[local] Arguments trim : simpl never.
#[local] Arguments num_ltb : simpl never.
#[local] Arguments shards_of : simpl never.
#[local] Arguments normalizeHttp2ConnectionShards : simpl never.

Lemma obj_get_app fs gs k : obj_get (fs ++ gs) k = match obj_get fs k with Some v => Some v | None => obj_get gs k end.
Proof. induction fs as [|[j v] fs IH]; [done|]. cbn. by destruct (str_eqb k j). Qed.

Lemma obj_get_if (b : bool) fs gs k : obj_get (if b then fs else gs) k = if b then obj_get fs k else obj_get gs k.
Proof. by destruct b. Qed.

Section Saved.
Context (lower : jsstr → jsstr) `{!LowerCase lower} (new_URL : jsstr → option URL).

(** ** The [setting] text *)

Definition http1 (e : ExtraSettings) : bool := bool_decide (http_protocol e = HTTP_PROTOCOL_HTTP1).

Lemma setting_object_http form :
  setting_object form =
  take 7 (setting_object form) ++
  (if (f_type (core form) =? CHANNEL_TYPE_TASK_PLUGIN)%Z then [("task_plugin_key"%js, VStr (trim (task_plugin_key (extra form))))] else []) ++
  (if http1 (extra form) then [("http_protocol"%js, VStr "http1")]
   else if num_ltb (of_Z 1) (Number_of_value (shards_of (extra form))) then [("http2_connection_shards"%js, shards_of (extra form))] else []).
Proof. unfold setting_object, http1. cbv zeta. cbn [app take]. by destruct (decide _) as [->|?]; [rewrite bool_decide_true|rewrite bool_decide_false]. Qed.

Ltac at_setting := rewrite setting_object_http; cbn [setting_object app take]; cbv zeta; cbn [app take obj_get]; str_eval; rewrite ?take_0;
  rewrite ?obj_get_app, ?obj_get_if; cbn [obj_get]; str_eval; rewrite ?if_same.

Lemma protocol_http1 : normalizeHttpProtocol lower (VStr "http1") = HTTP_PROTOCOL_HTTP1.
Proof. unfold normalizeHttpProtocol. cbn [or_value truthy nonempty to_string]. change (trim "http1") with ("http1" : jsstr). by rewrite (lower_ascii (lower := lower)). Qed.

Lemma protocol_auto : normalizeHttpProtocol lower VUndef = HTTP_PROTOCOL_AUTO.
Proof. unfold normalizeHttpProtocol. change (trim _) with ([] : jsstr). by rewrite (lower_ascii (lower := lower)). Qed.

Lemma read_setting form : extra_ok new_URL (extra form) = true → superRefine new_URL form = Ret [] →
  read_extra lower (VObj (setting_object form)) = reopened_extra form.
Proof.
  intros He Hr. destruct (checked_shards new_URL form He Hr) as (x & Hx & L1 & L2 & _ & Hn).
  unfold read_extra, reopened_extra. cbn [prop]. cbv zeta.
  assert (normalizeHttpProtocol lower (default VUndef (obj_get (setting_object form) "http_protocol")) = http_protocol (extra form)) as ->.
  { at_setting. unfold http1. destruct (http_protocol (extra form)); [apply protocol_auto|apply protocol_http1]. }
  f_equal; at_setting; try done; try apply or_value_idemp.
  - by destruct (Z.eqb _ _).
  - unfold or_value. cbn [default from_option truthy]. by destruct (trimmed_text _).
  - unfold http1. destruct (http_protocol (extra form)) eqn:E; cbn [bool_decide].
    + rewrite Hx. cbn [Number_of_value]. destruct (num_ltb (of_Z 1) x) eqn:Eg; [apply Hn|]. by rewrite (compare_eq_one x).
    + unfold shards_of. by rewrite E.
Qed.

Lemma extra_ok_facts e : extra_ok new_URL e = true →
  is_boolean (or_value (force_format e) (VBool false)) = true ∧ is_boolean (or_value (thinking_to_content e) (VBool false)) = true ∧
  is_boolean (or_value (pass_through_body_enabled e) (VBool false)) = true ∧ is_string (or_value (system_prompt e) (VStr [])) = true ∧
  is_boolean (or_value (system_prompt_override e) (VBool false)) = true.
Proof.
  unfold extra_ok. rewrite !andb_true_iff. intros H. destruct_and!. unfold optional_value, or_value in *.
  split_and!; [destruct (force_format e)|destruct (thinking_to_content e)|destruct (pass_through_body_enabled e)|destruct (system_prompt e)|
    destruct (system_prompt_override e)]; try done; cbn [truthy]; by case_match.
Qed.

Lemma boolean_jsonable v : is_boolean v = true → jsonable v.
Proof. by destruct v. Qed.
Lemma string_jsonable v : is_string v = true → jsonable v.
Proof. by destruct v. Qed.

Lemma shards_cases v :
  normalizeHttp2ConnectionShards v = VNum (of_Z 1) ∨ normalizeHttp2ConnectionShards v = VNum MAX_HTTP2_CONNECTION_SHARDS ∨
  normalizeHttp2ConnectionShards v = v ∧ is_undefined v = false.
Proof.
  unfold normalizeHttp2ConnectionShards.
  destruct v; try (by left); cbv iota;
    repeat (match goal with |- context [if ?b then _ else _] => destruct b end; [first [by left|by right; left]|]); by right; right.
Qed.

Lemma shards_jsonable e : optional_value jsonable (http2_connection_shards e) = true → jsonable (shards_of e).
Proof.
  intros H. unfold shards_of. destruct (decide _); [by vm_compute|]. unfold optional_value in H.
  destruct (shards_cases (http2_connection_shards e)) as [->|[->|[-> E]]]; [by vm_compute..|]. rewrite E in H. cbn [orb] in H. by rewrite H.
Qed.

Lemma setting_jsonable form : extra_ok new_URL (extra form) = true → superRefine new_URL form = Ret [] → storable_form form = true →
  jsonable (VObj (setting_object form)).
Proof.
  intros He Hr Hs. destruct (extra_ok_facts _ He) as (B1 & B2 & B3 & B4 & B5).
  assert (jsonable (shards_of (extra form))) as Hsh.
  { apply shards_jsonable. unfold storable_form in Hs. rewrite !andb_true_iff in Hs. tauto. }
  rewrite setting_object_http. cbn [setting_object app take]. cbv zeta. cbn [app take]. rewrite take_0.
  destruct (Z.eqb _ _), (http1 _); [|destruct (num_ltb _ _)| |destruct (num_ltb _ _)]; cbn [app];
    (apply members_jsonable; [cbn [fmap list_fmap fst]; by vm_compute|]);
    repeat (apply Forall_cons; split; [cbn [snd]; first [exact Hsh|exact (boolean_jsonable _ B1)|exact (boolean_jsonable _ B2)|exact (boolean_jsonable _ B3)
      |exact (string_jsonable _ B4)|exact (boolean_jsonable _ B5)|exact I]|]); constructor.
Qed.

Lemma setting_text form : extra_ok new_URL (extra form) = true → superRefine new_URL form = Ret [] → storable_form form = true →
  JSON_parse (buildSettingJSON form) = Some (VObj (setting_object form)) ∧ nonempty (buildSettingJSON form) = true.
Proof.
  intros He Hr Hs. unfold buildSettingJSON. destruct (JSON_parse_stringify _ (setting_jsonable form He Hr Hs)) as (t & -> & (c & t' & -> & _) & Hp). done.
Qed.

(** Saving what was opened writes the same object. *)
Lemma setting_again form core' typed' : extra_ok new_URL (extra form) = true → superRefine new_URL form = Ret [] →
  f_type core' = f_type (core form) → setting_object (MkForm core' (reopened_extra form) typed') = setting_object form.
Proof.
  intros He Hr Ht. destruct (checked_shards new_URL form He Hr) as (x & Hx & _ & _ & _ & Hn).
  assert (shards_of (reopened_extra form) = shards_of (extra form)) as Hsh.
  { unfold shards_of at 1, reopened_extra. cbn -[decide]. destruct (decide _) as [E|E]; [unfold shards_of; by rewrite decide_True|]. by rewrite Hx. }
  rewrite (setting_object_http (MkForm core' (reopened_extra form) typed')), (setting_object_http form). unfold http1. cbn [core extra]. rewrite Hsh, Ht. f_equal.
  - unfold setting_object. cbn [core extra]. rewrite Ht. cbn. rewrite !or_value_idemp. unfold trimmed_text. cbn. rewrite trim_idemp.
    by destruct (has_type _ _).
  - unfold reopened_extra. cbn. destruct (Z.eqb _ _); [by rewrite trim_idemp|done].
Qed.

(** ** The channel *)

(** [ch] holds the texts an update of [form] writes. *)
Definition holds (ch : Channel) (form : ChannelFormValues) (settings : jsstr) : Prop :=
  c_type ch = f_type (core form) ∧ c_setting ch = VStr (buildSettingJSON form) ∧ c_settings ch = settings.

Lemma reopened_form form old settings ch :
  extra_ok new_URL (extra form) = true → superRefine new_URL form = Ret [] → storable_form form = true →
  nonempty settings = true → JSON_parse settings = Some (VObj (new_settings form old)) → holds ch form settings →
  let form' := transformChannelToFormDefaults lower ch in
  extra form' = reopened_extra form ∧ typed form' = reopened form old ∧ f_type (core form') = f_type (core form) ∧
  f_settings (core form') = settings.
Proof.
  intros He Hr Hs Hn Hp (Ht & H1 & H2). cbv zeta. unfold transformChannelToFormDefaults. cbn [extra typed core f_type f_settings].
  rewrite H1, H2, Ht, Hn. destruct (setting_text form He Hr Hs) as [Hj Hne]. split_and!; [|by rewrite (opened_text _ _ Hn Hp), read_new|done|done].
  unfold open_extra. rewrite Hne, Hj. by apply read_setting.
Qed.

Lemma saved_parts form old : checked new_URL form = true → storable_form form = true →
  existing_settings (f_settings (core form)) = VObj old → jsonable (VObj old) →
  extra_ok new_URL (extra form) = true ∧ superRefine new_URL form = Ret [] ∧
  ∃ settings, buildSettingsJSON form = Ret settings ∧ JSON_parse settings = Some (VObj (new_settings form old)) ∧ nonempty settings = true ∧
    existing_settings settings = VObj (new_settings form old).
Proof.
  intros (_ & He & Hy & Hr)%checked_parts Hs Ho Hj. split; [done|]. split; [done|]. apply settings_text; [done|]. by apply new_jsonable.
Qed.

Definition readable_texts (form : ChannelFormValues) : bool := storable_form form && jsonable (existing_settings (f_settings (core form))).

Lemma checked_saved form : checked new_URL form = true → readable_texts form = true → ∃ old,
  existing_settings (f_settings (core form)) = VObj old ∧ jsonable (VObj old) ∧ storable_form form = true.
Proof.
  unfold readable_texts. intros Hc [Hs Hj]%andb_true_iff. destruct (checked_parts _ _ Hc) as (Hk & _).
  destruct (checked_object form Hk) as [old Ho]. exists old. rewrite Ho in Hj. by rewrite Hj.
Qed.

(** C23: a form that passes the check and whose numbers have texts that read
    back is saved without an exception, and a channel with the saved texts
    opens with the options that were entered: an option of another channel
    type has its default, numbers have their shortest text, the addresses and
    names are trimmed.  The keys of [settings] the form does not manage keep
    their values. *)
Theorem channel_reopens form : checked new_URL form = true → readable_texts form = true →
  ∃ settings old new, buildSettingsJSON form = Ret settings ∧
    existing_settings (f_settings (core form)) = VObj old ∧ JSON_parse settings = Some (VObj new) ∧
    (∀ k, k ∉ MANAGED_KEYS → obj_get new k = obj_get old k) ∧
    ∀ ch, holds ch form settings →
      extra (transformChannelToFormDefaults lower ch) = reopened_extra form ∧
      typed (transformChannelToFormDefaults lower ch) = reopened form old.
Proof.
  intros Hc Hr. destruct (checked_saved form Hc Hr) as (old & Ho & Hj & Hs).
  destruct (saved_parts form old Hc Hs Ho Hj) as (He & Hi & settings & Hb & Hp & Hn & _).
  exists settings, old, (new_settings form old). split_and!; [done..|apply unmanaged_kept|].
  intros ch Hh. by destruct (reopened_form form old settings ch He Hi Hs Hn Hp Hh) as (? & ? & _).
Qed.

(** Saving settles: saving the form a channel with the saved texts opens,
    unchanged, writes the same two texts again, to the character. *)
Theorem save_settles form : checked new_URL form = true → readable_texts form = true →
  ∃ settings, buildSettingsJSON form = Ret settings ∧
    ∀ ch, holds ch form settings →
      buildSettingJSON (transformChannelToFormDefaults lower ch) = buildSettingJSON form ∧
      buildSettingsJSON (transformChannelToFormDefaults lower ch) = Ret settings.
Proof.
  intros Hc Hr. destruct (checked_saved form Hc Hr) as (old & Ho & Hj & Hs). pose proof (checked_parts _ _ Hc) as (_ & _ & _ & Hi').
  destruct (saved_parts form old Hc Hs Ho Hj) as (He & Hi & settings & Hb & Hp & Hn & Hx). exists settings. split; [done|].
  intros ch Hh. destruct (reopened_form form old settings ch He Hi Hs Hn Hp Hh) as (E1 & E2 & E3 & E4).
  destruct (transformChannelToFormDefaults lower ch) as [core' extra' typed']. cbn [core extra typed] in *. subst extra' typed'. split.
  - unfold buildSettingJSON. by rewrite setting_again.
  - unfold buildSettingsJSON in Hb |- *. cbn [core]. rewrite E4, Hx. rewrite Ho in Hb. fold (new_settings form old) in Hb.
    rewrite assigned_same; [done|]. pose proof (assigned_again form old core' (reopened_extra form) Hs E3) as H.
    rewrite Forall_forall in H. intros k o Hk. apply (H) in Hk; [done|]. intros Ht. destruct (checked_advanced new_URL form Hi Ht) as (c & -> & _). by eexists.
Qed.

End Saved.

(** ** The update request *)

Lemma ret_inj {A} (x y : A) : Ret x = Ret y → x = y.
Proof. congruence. Qed.

(** The texts an update always carries, empty ones too. *)
Definition cleared_texts (form : ChannelFormValues) : list (jsstr * jsstr) :=
  let c := core form in
  [("base_url"%js, normalizeBaseUrl (f_base_url c)); ("openai_organization"%js, f_openai_organization c); ("test_model"%js, f_test_model c);
   ("tag"%js, f_tag c); ("remark"%js, f_remark c); ("model_mapping"%js, f_model_mapping c);
   ("status_code_mapping"%js, f_status_code_mapping c); ("param_override"%js, f_param_override c);
   ("header_override"%js, f_header_override c)].

Lemma texts_assigned (l : list (jsstr * jsstr)) fs :
  fold_left (λ fs p, obj_set fs p.1 (VStr p.2)) l fs = fold_left assign_member ((λ p, (p.1, Some (VStr p.2))) <$> l) fs.
Proof. revert fs. induction l as [|p l IH]; intros fs; [done|]. cbn. by rewrite IH. Qed.

Lemma deleted_get ks fs k : obj_get (fold_left obj_delete ks fs) k = if decide (k ∈ ks) then None else obj_get fs k.
Proof.
  revert fs. induction ks as [|j ks IH]; intros fs; [done|]. cbn [fold_left]. rewrite IH, obj_get_delete.
  destruct (decide (k ∈ j :: ks)) as [H|H]; rewrite elem_of_cons in H; destruct (decide (k ∈ ks)), (decide (k = j)); tauto.
Qed.

Lemma payload_text form id p k t : transformFormDataToUpdatePayload form id = Ret p → (k, t) ∈ cleared_texts form → obj_get p k = Some (VStr t).
Proof.
  unfold transformFormDataToUpdatePayload. intros (settings & _ & <-%ret_inj)%bind_ret Hk. rewrite (texts_assigned (cleared_texts form)).
  assert (NoDup ((λ p, (p.1, Some (VStr p.2))) <$> cleared_texts form : list (jsstr * option value)).*1) as Hd.
  { cbn [cleared_texts fmap list_fmap fst]. apply (bool_decide_eq_true_1 (NoDup _)). by vm_compute. }
  rewrite assigned by done. by rewrite (script_get_elem _ k (Some (VStr t)) Hd) by (exact (list_elem_of_fmap_2 (λ p : jsstr * jsstr, (p.1, Some (VStr p.2))) _ _ Hk)).
Qed.

Lemma nulls_get fs k : obj_get (nulls fs) k = (λ v, match v with VStr [] => VNull | v => v end) <$> obj_get fs k.
Proof. unfold nulls. induction fs as [|[j v] fs IH]; [done|]. cbn [fmap list_fmap obj_get fst snd]. destruct (str_eqb k j); [by destruct v as [| | | |[]| |]|exact IH]. Qed.

(** A member besides the texts that are always sent. *)
Ltac at_payload :=
  unfold transformFormDataToUpdatePayload; intros (settings & _ & <-%ret_inj)%bind_ret; cbn [fold_left fst snd]; rewrite !obj_get_set_ne by done;
  rewrite nulls_get, !obj_get_app; unfold common_members; cbn [obj_get]; str_eval; rewrite obj_get_if; cbn [obj_get]; str_eval.

Lemma payload_key form id p : transformFormDataToUpdatePayload form id = Ret p →
  obj_get p "key" = if nonempty (trim (f_key (core form))) then Some (VStr (f_key (core form))) else None.
Proof. at_payload. by destruct (f_key (core form)) as [|c s]; [|destruct (nonempty (trim (c :: s)))]. Qed.

Lemma payload_no_mode form id p : transformFormDataToUpdatePayload form id = Ret p → obj_get p "key_mode" = None ∧ obj_get p "multi_key_mode" = None.
Proof. split; revert H; at_payload; by rewrite if_same. Qed.

(** What the request has of the payload. *)
Lemma request_get form id can multi req k : update_request form id can multi = Ret req → ∃ p, transformFormDataToUpdatePayload form id = Ret p ∧
  obj_get req k =
    if decide (k = "multi_key_mode"%js) then if can && multi then Some (f_multi_key_type (core form)) else None
    else if decide (k = "key_mode"%js) then
      if can && multi && nonempty (trim (f_key (core form))) && nonempty (f_key_mode (core form)) then Some (VStr (f_key_mode (core form))) else None
    else if can then obj_get p k else if decide (k ∈ SENSITIVE_UPDATE_FIELDS) then None else obj_get p k.
Proof.
  unfold update_request. intros (p & Hp & <-%ret_inj)%bind_ret. exists p. split; [done|]. destruct (payload_no_mode _ _ _ Hp) as [N1 N2].
  pose proof (payload_key _ _ _ Hp) as Hk.
  assert (∀ j, obj_get (if nonempty (trim (f_key (core form))) then p else obj_delete p "key") j = obj_get p j) as Hsame.
  { intros j. destruct (nonempty (trim _)); [done|]. rewrite obj_get_delete. by destruct (decide (j = _)) as [->|]. }
  revert Hsame. generalize (if nonempty (trim (f_key (core form))) then p else obj_delete p "key"). intros q Hq.
  assert (∀ r, (∀ j, obj_get r j = obj_get q j) → obj_get r k = if decide (k = "multi_key_mode"%js) then None else
    if decide (k = "key_mode"%js) then None else obj_get p k) as Hplain.
  { intros r Hr. rewrite Hr, Hq. destruct (decide (k = _)) as [->|]; [done|]. by destruct (decide (k = _)) as [->|]. }
  destruct can; cbn [andb].
  - destruct multi; cbn [andb]; [|by apply Hplain].
    destruct (nonempty (trim _) && _); rewrite !obj_get_set; (destruct (decide (k = "multi_key_mode"%js)); [done|]);
      (destruct (decide (k = "key_mode"%js)) as [->|]; [done || by rewrite Hq|by rewrite Hq]).
  - rewrite deleted_get, (Hplain q) by done. by repeat case_decide.
Qed.

(** What only someone with the permission may change. *)
Definition protected_members : list jsstr :=
  ["type"; "key"; "base_url"; "openai_organization"; "param_override"; "header_override"; "setting"; "settings"; "other"]%js.

(** C24: an update by someone who may not change sensitive settings carries none of
    them, nor a key or a mode of several keys; a key is sent exactly if one was
    typed; the texts are sent as they are, empty ones too; and the members that
    are not sensitive do not depend on who sends them. *)
Theorem update_respects_permission form id can multi req : update_request form id can multi = Ret req →
  (can = false → ∀ k, k ∈ protected_members ++ ["key_mode"; "multi_key_mode"]%js → obj_get req k = None) ∧
  obj_get req "key" = (if can && nonempty (trim (f_key (core form))) then Some (VStr (f_key (core form))) else None) ∧
  obj_get req "multi_key_mode" = (if can && multi then Some (f_multi_key_type (core form)) else None) ∧
  (∀ k t, (k, t) ∈ cleared_texts form → can = true ∨ k ∉ protected_members → obj_get req k = Some (VStr t)) ∧
  ∃ full, update_request form id true multi = Ret full ∧
    ∀ k, k ∉ protected_members → k ≠ "key_mode"%js → k ≠ "multi_key_mode"%js → obj_get req k = obj_get full k.
Proof.
  change protected_members with SENSITIVE_UPDATE_FIELDS. intros Hreq. pose proof (λ k, request_get form id can multi req k Hreq) as G. split_and!.
  - intros -> k Hk. destruct (G k) as (p & _ & ->). apply elem_of_app in Hk as [Hk|Hk].
    + rewrite (decide_True _ _ Hk). by repeat case_decide.
    + rewrite !elem_of_cons, elem_of_nil in Hk. repeat case_decide; tauto.
  - destruct (G "key"%js) as (p & Hp & ->). rewrite !decide_False by done. rewrite (payload_key _ _ _ Hp).
    destruct can; [done|]. by rewrite decide_True by (apply (list_elem_of_lookup_2 _ 1); vm_compute; reflexivity).
  - by destruct (G "multi_key_mode"%js) as (p & Hp & ->).
  - intros k t Hk Hs. destruct (G k) as (p & Hp & ->). pose proof (payload_text _ _ _ _ _ Hp Hk) as Ht.
    assert (k ≠ "multi_key_mode"%js ∧ k ≠ "key_mode"%js) as [N1 N2].
    { apply (list_elem_of_fmap_2 fst) in Hk. cbn [cleared_texts fmap list_fmap fst] in Hk. rewrite !elem_of_cons, elem_of_nil in Hk.
      by destruct_or!; subst. }
    rewrite !decide_False by done. destruct can; [done|]. destruct Hs; [done|]. by rewrite decide_False.
  - destruct (G "key"%js) as (p & Hp & _). unfold update_request at 1. rewrite Hp. eexists. split; [reflexivity|]. intros k Hk N1 N2.
    assert (∀ can req, update_request form id can multi = Ret req → obj_get req k = obj_get p k) as Hall.
    { intros c r Hr. destruct (request_get _ _ _ _ _ k Hr) as (p' & Hp' & ->). rewrite Hp in Hp'. apply ret_inj in Hp' as <-.
      rewrite !decide_False by done. by destruct c. }
    rewrite (Hall _ _ Hreq). symmetry. apply (Hall true). unfold update_request. by rewrite Hp.
Qed.

(** ** A channel *)

(** JSON with single quotes. *)
Definition json_text (s : jsstr) : jsstr := replace_char 39 [34%N] s.

Definition sample_settings : jsstr :=
  json_text "{'vertex_key_type':'json','monitor_disable_threshold':4,'upstream_model_update_last_detected_models':['a'],'other_tool':{'a':[1,2.5]}}".

Definition sample_URL (s : jsstr) : option URL := Some (MkURL "socks5:" "h:1080" "h" "1080").

Definition sample_form : ChannelFormValues :=
  let d := CHANNEL_FORM_DEFAULT_VALUES in
  MkForm
    (MkCore "claude" 14 VUndef "https://x/" "sk-1" [] "m1,m2" ["default"%js] [] [] (VNum (of_Z 0)) (VNum (of_Z 0)) (VNum (of_Z 0)) [] (VNum (of_Z 1))
       (VNum (of_Z 1)) [] [] [] [] [] [] sample_settings [] single (VStr "random") false "append")
    (MkExtra "left" (VBool true) true VUndef (VStr " socks5://h:1080 ") HTTP_PROTOCOL_AUTO (VNum (of_Z 4)) (VBool false) (VStr "be brief") (VBool true))
    (MkTyped (VStr "api_key") (VStr "v1") true (VStr "ak_sk") true true false false true true true true false " 1.0.2 " [] enabled "1e1" "2.50" inherit
       disabled "3" [] true true true "m1, m2,,m1" true "120" (of_Z 0) None [] []).

(** An advanced channel with one route. *)
Definition sample_advanced : ChannelFormValues :=
  let d := CHANNEL_FORM_DEFAULT_VALUES in
  MkForm
    (MkCore "own" CHANNEL_TYPE_ADVANCED_CUSTOM VUndef "https://x" [] [] "m1" ["default"%js] [] [] VUndef VUndef VUndef [] VUndef
       (VNum (of_Z 1)) [] [] [] [] [] [] "{}" [] single (VStr "random") false "append")
    (extra d)
    (MkTyped (VStr "json") (VStr []) false (VStr "ak_sk") false false false false false false false false false [] [] inherit [] [] inherit
       inherit [] [] false false false [] false [] (of_Z 0) None []
       (json_text "{'advanced_routes':[{'incoming_path':'/v1/chat/completions','upstream_path':' /up ','models':['x ']}]}")).

Example sample_checked : checked sample_URL sample_form = true ∧ readable_texts sample_form = true ∧
  checked sample_URL sample_advanced = true ∧ readable_texts sample_advanced = true.
Proof. vm_compute. done. Qed.

Lemma channel_reopens_witness :
  ∃ settings old new, buildSettingsJSON sample_form = Ret settings ∧
    existing_settings (f_settings (core sample_form)) = VObj old ∧ JSON_parse settings = Some (VObj new) ∧
    (∀ k, k ∉ MANAGED_KEYS → obj_get new k = obj_get old k) ∧
    ∀ ch, holds ch sample_form settings →
      extra (transformChannelToFormDefaults toLowerCase ch) = reopened_extra sample_form ∧
      typed (transformChannelToFormDefaults toLowerCase ch) = reopened sample_form old.
Proof. apply (channel_reopens toLowerCase sample_URL sample_form); vm_compute; reflexivity. Defined.

Lemma save_settles_witness :
  ∃ settings, buildSettingsJSON sample_advanced = Ret settings ∧
    ∀ ch, holds ch sample_advanced settings →
      buildSettingJSON (transformChannelToFormDefaults toLowerCase ch) = buildSettingJSON sample_advanced ∧
      buildSettingsJSON (transformChannelToFormDefaults toLowerCase ch) = Ret settings.
Proof. apply (save_settles toLowerCase sample_URL sample_advanced); vm_compute; reflexivity. Defined.

Lemma update_respects_permission_witness :
  ∃ req, update_request sample_form (VNum (of_Z 7)) false true = Ret req ∧ obj_get req "key" = None ∧ obj_get req "settings" = None ∧
    obj_get req "tag" = Some (VStr []).
Proof.
  destruct (update_request sample_form (VNum (of_Z 7)) false true) as [|req] eqn:E; [vm_compute in E; discriminate|].
  exists req. split; [reflexivity|]. destruct (update_respects_permission _ _ _ _ _ E) as (H1 & H2 & _ & H4 & _). split; [exact H2|]. split.
  - apply H1; [reflexivity|]. apply (list_elem_of_lookup_2 _ 7); vm_compute; reflexivity.
  - apply H4; [apply (list_elem_of_lookup_2 _ 3); vm_compute; reflexivity|]. right. apply (bool_decide_eq_true_1 (_ ∉ _)). vm_compute. reflexivity.
Defined.
End ChannelFormSave.
