(* ===== verification/ChannelUpdates.v ===== *)
(** * Updates of a channel from the list
    ([web/src/features/channels/lib/upstream-update-utils.ts],
    [lib/channel-field-update.ts], [hooks/use-channel-upstream-updates.ts],
    [components/dialogs/upstream-update-dialog.tsx])

    The pending model updates of a channel, the hook that applies and detects
    them, the dialog in which models are picked, and the scheduler behind the
    number fields of the table.

    The dialog is rendered once, with the page, and shown and hidden by
    [showModal]; its own state lives as long as the page, so the page's state
    [Page] has the fields of both.  A request is in flight from its call to
    the end of the refresh after it; the answers arrive as events, in any
    order.  A callback sees the state of the last render, which every event
    follows.  Case folding ([lower]) is a parameter; messages are recorded by
    their key. *)

From S2P Require Import Prelude JsString JsNumber JsInteger JsValue.

Module ChannelUpdates.

(** ** Pending updates *)

(** [String(model || '').trim()], without the empty texts and repetitions. *)
Definition normalizeModelList (models : list value) : list jsstr :=
  set_of (List.filter nonempty ((λ m, trim (if truthy m then to_string m else [])) <$> models)).

Definition normalize_names (names : list jsstr) : list jsstr := normalizeModelList (VStr <$> names).

(** [(v as unknown[]) || []], mapped: anything else that is truthy has no [map]. *)
Definition model_list (v : value) : exc (list jsstr) :=
  if truthy v then match v with VArr vs => Ret (normalizeModelList vs) | _ => Throw end else Ret [].

Record UpdateMeta := MkMeta {
  meta_enabled : bool;
  pendingAddModels : list jsstr;
  pendingRemoveModels : list jsstr;
}.

(** [null] if it is no JSON. *)
Definition parsed_settings (arrays : bool) (settings : value) : value :=
  match settings with
  | VObj _ => settings
  | VArr _ => if arrays then settings else VNull
  | VStr s => default VNull (JSON_parse s)
  | _ => VNull
  end.

Definition parseUpstreamUpdateMeta (settings : value) : exc UpdateMeta :=
  let parsed := parsed_settings false settings in
  if negb (truthy parsed) || negb (is_object parsed) then Ret (MkMeta false [] [])
  else
    add ← model_list (prop parsed "upstream_model_update_last_detected_models");
    remove ← model_list (prop parsed "upstream_model_update_last_removed_models");
    Ret (MkMeta (match prop parsed "upstream_model_update_check_enabled" with VBool b => b | _ => false end) add remove).

Definition getManualIgnoredModelCount (settings : value) : exc nat :=
  let parsed := parsed_settings true settings in
  if negb (truthy parsed) then Ret 0%nat
  else ms ← model_list (prop parsed "upstream_model_update_ignored_models"); Ret (length ms).

(** ** The page *)

Inductive UpdateTab := add_tab | remove_tab.

#[global] Instance Tab_eq_dec : EqDecision UpdateTab.
Proof. solve_decision. Defined.

Inductive Request :=
  | Apply (id : Z) (add_models ignore_models remove_models : list jsstr)
  | ApplyAll
  | Detect (id : Z)
  | DetectAll.

Inductive Kind := apply_kind | apply_all_kind | detect_kind | detect_all_kind.

#[global] Instance Kind_eq_dec : EqDecision Kind.
Proof. solve_decision. Defined.

Definition kind_of (r : Request) : Kind :=
  match r with Apply _ _ _ _ => apply_kind | ApplyAll => apply_all_kind | Detect _ => detect_kind | DetectAll => detect_all_kind end.

(** A call waits for the answer to its request, then for the refresh. *)
Inductive Phase := awaiting_answer | awaiting_refresh.

Record Call := MkCall { request : Request; phase : Phase }.

Inductive Toast :=
  | toast_info (key : jsstr)
  | toast_success (key : jsstr)
  | toast_error (message : value)
  (* the runtime's own text of an exception *)
  | toast_exception.

Record Page := MkPage {
  (* the hook *)
  showModal : bool;
  channel : option Z;
  addModels : list jsstr;
  removeModels : list jsstr;
  preferredTab : UpdateTab;
  applyLoading : bool;
  detectAllLoading : bool;
  applyAllLoading : bool;
  running : Kind → bool;
  (* the dialog *)
  activeTab : UpdateTab;
  searchAdd : jsstr;
  searchRemove : jsstr;
  selectedAdd : list jsstr;
  selectedRemove : list jsstr;
  partialConfirmOpen : bool;
  (* what was sent and shown *)
  calls : list Call;
  sent : list Request;
  toasts : list Toast;
}.

Definition fresh_page : Page :=
  MkPage false None [] [] add_tab false false false (λ _, false) add_tab [] [] [] [] false [] [] [].

Definition say (m : Toast) (p : Page) : Page :=
  MkPage (showModal p) (channel p) (addModels p) (removeModels p) (preferredTab p) (applyLoading p) (detectAllLoading p) (applyAllLoading p)
    (running p) (activeTab p) (searchAdd p) (searchRemove p) (selectedAdd p) (selectedRemove p) (partialConfirmOpen p)
    (calls p) (sent p) (toasts p ++ [m]).

Definition with_modal (show : bool) (ch : option Z) (add remove : list jsstr) (tab : UpdateTab) (p : Page) : Page :=
  MkPage show ch add remove tab (applyLoading p) (detectAllLoading p) (applyAllLoading p)
    (running p) (activeTab p) (searchAdd p) (searchRemove p) (selectedAdd p) (selectedRemove p) (partialConfirmOpen p)
    (calls p) (sent p) (toasts p).

Definition with_dialog (tab : UpdateTab) (sa sr : jsstr) (add remove : list jsstr) (partial : bool) (p : Page) : Page :=
  MkPage (showModal p) (channel p) (addModels p) (removeModels p) (preferredTab p) (applyLoading p) (detectAllLoading p) (applyAllLoading p)
    (running p) tab sa sr add remove partial (calls p) (sent p) (toasts p).

(** [ref.current = b] and the loading flag, if the kind has one. *)
Definition set_running (k : Kind) (b : bool) (p : Page) : Page :=
  MkPage (showModal p) (channel p) (addModels p) (removeModels p) (preferredTab p)
    (if decide (k = apply_kind) then b else applyLoading p)
    (if decide (k = detect_all_kind) then b else detectAllLoading p)
    (if decide (k = apply_all_kind) then b else applyAllLoading p)
    (λ j, if decide (j = k) then b else running p j)
    (activeTab p) (searchAdd p) (searchRemove p) (selectedAdd p) (selectedRemove p) (partialConfirmOpen p)
    (calls p) (sent p) (toasts p).

Definition with_calls (cs : list Call) (rs : list Request) (p : Page) : Page :=
  MkPage (showModal p) (channel p) (addModels p) (removeModels p) (preferredTab p) (applyLoading p) (detectAllLoading p) (applyAllLoading p)
    (running p) (activeTab p) (searchAdd p) (searchRemove p) (selectedAdd p) (selectedRemove p) (partialConfirmOpen p)
    cs rs (toasts p).

Definition post_request (r : Request) (p : Page) : Page := with_calls (calls p ++ [MkCall r awaiting_answer]) (sent p ++ [r]) p.

(** ** The hook *)

(** [!record?.id] *)
Definition id_of (record : option Z) : option Z :=
  match record with Some id => if (id =? 0)%Z then None else Some id | None => None end.

Definition is_nil {A} (l : list A) : bool := match l with [] => true | _ => false end.

Definition openModal (record : option Z) (pendingAdd pendingRemove : list jsstr) (tab : UpdateTab) (p : Page) : Page :=
  let normAdd := normalize_names pendingAdd in
  let normRemove := normalize_names pendingRemove in
  match id_of record with
  | Some id =>
    if is_nil normAdd && is_nil normRemove then say (toast_info "No processable upstream model updates for this channel") p
    else with_modal true (Some id) normAdd normRemove tab p
  | None => say (toast_info "No processable upstream model updates for this channel") p
  end.

Definition closeModal (p : Page) : Page := with_modal false None [] [] add_tab p.

(** Up to the request. *)
Definition applyUpdates (selectedAdd selectedRemove : list jsstr) (p : Page) : Page :=
  if running p apply_kind then p
  else match channel p with
       | None => closeModal p
       | Some id =>
         let normSelectedAdd := normalize_names selectedAdd in
         let ignoreModels := List.filter (λ m, negb (set_has normSelectedAdd m)) (addModels p) in
         post_request (Apply id normSelectedAdd ignoreModels (normalize_names selectedRemove)) (set_running apply_kind true p)
       end.

Definition start (r : Request) (p : Page) : Page :=
  if running p (kind_of r) then p else post_request r (set_running (kind_of r) true p).

Definition applyAllUpdates (p : Page) : Page := start ApplyAll p.
Definition detectAllUpdates (p : Page) : Page := start DetectAll p.
Definition detectChannelUpdates (record : option Z) (p : Page) : Page :=
  match id_of record with Some id => start (Detect id) p | None => p end.

(** What [api.post] gives: the body of a response, or an error. *)
Inductive Answer := response (body : value) | rejected (err : value).

Definition failure_key (k : Kind) : jsstr :=
  match k with
  | apply_kind => "Operation failed"
  | apply_all_kind => "Batch processing failed"
  | detect_kind => "Detection failed"
  | detect_all_kind => "Batch detection failed"
  end.

Definition success_key (k : Kind) : jsstr :=
  match k with
  | apply_kind =>
    "Upstream model updates applied: {{added}} added, {{removed}} removed, {{ignored}} ignored this time, {{totalIgnored}} total ignored models"
  | apply_all_kind =>
    "Batch upstream model updates applied: {{channels}} channels, {{added}} added, {{removed}} removed, {{fails}} failed"
  | detect_kind => "Detection complete: {{add}} to add, {{remove}} to remove"
  | detect_all_kind =>
    "Upstream model detection task started. Track progress in System Info, then refresh to review staged updates."
  end.

(** [v?.k] *)
Definition maybe_prop (v : value) (k : jsstr) : value := match v with VUndef | VNull => VUndef | _ => prop v k end.

(** [a || b || ...] *)
Fixpoint first_truthy (vs : list value) (last : value) : value :=
  match vs with [] => last | v :: vs' => if truthy v then v else first_truthy vs' last end.

(** [err?.response?.data?.message || err?.message || t(key)] *)
Definition failure_message (k : Kind) (err : value) : value :=
  first_truthy [maybe_prop (maybe_prop (maybe_prop err "response") "data") "message"; maybe_prop err "message"] (VStr (failure_key k)).

(** Computing the message of a success throws if the settings of the answer list
    their ignored models as anything but an array. *)
Definition success_throws (k : Kind) (data : value) : bool :=
  match k with
  | apply_kind => match getManualIgnoredModelCount (maybe_prop data "settings") with Throw => true | Ret _ => false end
  | _ => false
  end.

(** The [finally] block. *)
Definition finish (k : Kind) (p : Page) : Page := set_running k false p.

Definition remove_call (i : nat) (p : Page) : Page := with_calls (take i (calls p) ++ drop (S i) (calls p)) (sent p) p.
Definition await_refresh (i : nat) (r : Request) (p : Page) : Page := with_calls (<[i := MkCall r awaiting_refresh]> (calls p)) (sent p) p.

(** After the answer to request [i]. *)
Definition on_call_answer (i : nat) (r : Request) (a : Answer) (p : Page) : Page :=
  let k := kind_of r in
  match a with
  | rejected err => finish k (say (toast_error (failure_message k err)) (remove_call i p))
  | response body =>
    let body := if truthy body then body else VObj [] in
    if negb (truthy (prop body "success"))
    then finish k (say (toast_error (first_truthy [prop body "message"] (VStr (failure_key k)))) (remove_call i p))
    else if success_throws k (prop body "data")
    then finish k (say toast_exception (remove_call i p))
    else
      let p := say (toast_success (success_key k)) p in
      await_refresh i r (if decide (k = apply_kind) then closeModal p else p)
  end.

(** After the refresh; [Some err] if it was rejected. *)
Definition on_call_refreshed (i : nat) (r : Request) (err : option value) (p : Page) : Page :=
  let k := kind_of r in
  let p := remove_call i p in
  finish k (match err with Some e => say (toast_error (failure_message k e)) p | None => p end).

(** ** The dialog *)

Section Dialog.
Context (lower : jsstr → jsstr).

Definition matching (models : list jsstr) (search : jsstr) : list jsstr := List.filter (λ m, includes (lower m) (lower search)) models.

Definition filteredAdd (p : Page) : list jsstr := matching (addModels p) (searchAdd p).
Definition filteredRemove (p : Page) : list jsstr := matching (removeModels p) (searchRemove p).

(** The order of a [Set] is that of its insertions. *)
Definition set_delete (s : list jsstr) (m : jsstr) : list jsstr := List.filter (λ n, negb (str_eqb n m)) s.

Definition toggleModel (m : jsstr) (s : list jsstr) : list jsstr := if set_has s m then set_delete s m else set_add s m.

Definition toggleAllVisible (models s : list jsstr) : list jsstr :=
  if forallb (set_has s) models then fold_left set_delete models s else fold_left set_add models s.

Definition confirm (p : Page) : Page := applyUpdates (selectedAdd p) (selectedRemove p) p.

Definition handleConfirm (p : Page) : Page :=
  let hasAdd := negb (is_nil (addModels p)) in
  let hasRemove := negb (is_nil (removeModels p)) in
  let anyAdd := negb (is_nil (selectedAdd p)) in
  let anyRemove := negb (is_nil (selectedRemove p)) in
  if hasAdd && hasRemove && negb (eqb anyAdd anyRemove)
  then with_dialog (activeTab p) (searchAdd p) (searchRemove p) (selectedAdd p) (selectedRemove p) true p
  else confirm p.

(** ** Events *)

Inductive UpdateEvent :=
  | Open (record : option Z) (pendingAdd pendingRemove : list jsstr) (tab : UpdateTab)
  | Cancel
  | PickTab (tab : UpdateTab)
  | Search (tab : UpdateTab) (text : jsstr)
  | Toggle (tab : UpdateTab) (m : jsstr)
  | ToggleAll (tab : UpdateTab)
  | Confirm
  | ConfirmPartial
  | DismissPartial
  | PressApplyAll
  | PressDetect (record : option Z)
  | PressDetectAll
  | Answered (i : nat) (a : Answer)
  | Refreshed (i : nat) (err : option value).

Definition set_selection (add remove : list jsstr) (p : Page) : Page :=
  with_dialog (activeTab p) (searchAdd p) (searchRemove p) add remove (partialConfirmOpen p) p.

(** The controls of a tab are shown while it is the active one. *)
Definition on_tab (tab : UpdateTab) (p : Page) : bool := showModal p && bool_decide (activeTab p = tab).

(** A control that is not shown or disabled has no effect. *)
Definition on_update_event (p : Page) (e : UpdateEvent) : Page :=
  match e with
  | Open record pendingAdd pendingRemove tab => openModal record pendingAdd pendingRemove tab p
  | Cancel => if showModal p then closeModal p else p
  | PickTab tab =>
    if showModal p
    then with_dialog tab (searchAdd p) (searchRemove p) (selectedAdd p) (selectedRemove p) (partialConfirmOpen p) p else p
  | Search tab text =>
    if on_tab tab p then
      match tab with
      | add_tab => with_dialog (activeTab p) text (searchRemove p) (selectedAdd p) (selectedRemove p) (partialConfirmOpen p) p
      | remove_tab => with_dialog (activeTab p) (searchAdd p) text (selectedAdd p) (selectedRemove p) (partialConfirmOpen p) p
      end
    else p
  | Toggle add_tab m =>
    if on_tab add_tab p && bool_decide (m ∈ filteredAdd p) then set_selection (toggleModel m (selectedAdd p)) (selectedRemove p) p else p
  | Toggle remove_tab m =>
    if on_tab remove_tab p && bool_decide (m ∈ filteredRemove p) then set_selection (selectedAdd p) (toggleModel m (selectedRemove p)) p else p
  | ToggleAll add_tab =>
    if on_tab add_tab p && negb (is_nil (filteredAdd p)) then set_selection (toggleAllVisible (filteredAdd p) (selectedAdd p)) (selectedRemove p) p else p
  | ToggleAll remove_tab =>
    if on_tab remove_tab p && negb (is_nil (filteredRemove p))
    then set_selection (selectedAdd p) (toggleAllVisible (filteredRemove p) (selectedRemove p)) p else p
  | Confirm =>
    if showModal p && negb (applyLoading p) && negb (is_nil (addModels p) && is_nil (removeModels p)) then handleConfirm p else p
  | ConfirmPartial =>
    if partialConfirmOpen p
    then confirm (with_dialog (activeTab p) (searchAdd p) (searchRemove p) (selectedAdd p) (selectedRemove p) false p) else p
  | DismissPartial => with_dialog (activeTab p) (searchAdd p) (searchRemove p) (selectedAdd p) (selectedRemove p) false p
  | PressApplyAll => applyAllUpdates p
  | PressDetect record => detectChannelUpdates record p
  | PressDetectAll => detectAllUpdates p
  | Answered i a =>
    match calls p !! i with Some (MkCall r awaiting_answer) => on_call_answer i r a p | _ => p end
  | Refreshed i err =>
    match calls p !! i with Some (MkCall r awaiting_refresh) => on_call_refreshed i r err p | _ => p end
  end.

Definition run_update_events : list UpdateEvent → Page → Page := fold_left on_update_event.
End Dialog.

(** ** Number fields of the table *)

Definition CHANNEL_FIELD_UPDATE_DELAY_MS : Z := 800.

(** The scheduler's variables, the timers the browser has armed, and the calls of
    [onUpdate].  [onUpdate] runs after the variables are cleared, so a call it
    makes is one more event. *)
Record Scheduler := MkScheduler {
  timeoutId : option Z;
  pendingValue : option number;
  armed : list Z;
  next_timer : Z;
  updates : list number;
}.

Definition new_scheduler : Scheduler := MkScheduler None None [] 1 [].

Definition clearPendingTimer (s : Scheduler) : Scheduler :=
  match timeoutId s with
  | None => s
  | Some id => MkScheduler None (pendingValue s) (List.filter (λ j, negb (j =? id)%Z) (armed s)) (next_timer s) (updates s)
  end.

Definition commitPendingValue (s : Scheduler) : Scheduler :=
  let s := clearPendingTimer s in
  match pendingValue s with
  | None => s
  | Some v => MkScheduler (timeoutId s) None (armed s) (next_timer s) (updates s ++ [v])
  end.

Definition schedule (v : number) (s : Scheduler) : Scheduler :=
  let s := clearPendingTimer s in
  MkScheduler (Some (next_timer s)) (Some v) (next_timer s :: armed s) (next_timer s + 1) (updates s).

Inductive FieldEvent := Schedule (v : number) | Flush | Elapsed (id : Z).

(** A timer elapses if it is armed. *)
Inductive field_step : Scheduler → FieldEvent → Scheduler → Prop :=
  | step_schedule s v : field_step s (Schedule v) (schedule v s)
  | step_flush s : field_step s Flush (commitPendingValue s)
  | step_elapsed s id : id ∈ armed s →
      field_step s (Elapsed id)
        (commitPendingValue (MkScheduler (timeoutId s) (pendingValue s) (List.filter (λ j, negb (j =? id)%Z) (armed s)) (next_timer s) (updates s))).

Inductive field_run : Scheduler → list FieldEvent → Scheduler → Prop :=
  | run_none s : field_run s [] s
  | run_step s e s' es s'' : field_step s e s' → field_run s' es s'' → field_run s (e :: es) s''.
End ChannelUpdates.
