(* ===== verification/ChannelUpdatesFacts.v ===== *)
(** * Theorems on the updates of a channel from the list

    Locks of the requests, what an applied update sends, what the dialog keeps
    between two channels, and which typed numbers are sent. *)

From S2P Require Import Prelude JsString JsNumber JsInteger JsValue ChannelUpdates.

Module ChannelUpdatesFacts.
Import ChannelUpdates.

Section Pages.
Context (lower : jsstr → jsstr).

(** ** Locks *)

Definition kinds (p : Page) : list Kind := (λ c, kind_of (request c)) <$> calls p.

(** A kind is locked exactly while one call of it is in flight. *)
Record locked (p : Page) : Prop := {
  locked_once : NoDup (kinds p);
  locked_running k : running p k = true ↔ k ∈ kinds p;
  locked_apply : applyLoading p = running p apply_kind;
  locked_apply_all : applyAllLoading p = running p apply_all_kind;
  locked_detect_all : detectAllLoading p = running p detect_all_kind;
}.

(** Pages with the same calls and flags. *)
Definition same_calls (p q : Page) : Prop :=
  calls p = calls q ∧ running p = running q ∧ applyLoading p = applyLoading q ∧ applyAllLoading p = applyAllLoading q ∧
  detectAllLoading p = detectAllLoading q.

Lemma same_locked p q : same_calls p q → locked p → locked q.
Proof.
  intros (E1 & E2 & E3 & E4 & E5) [H1 H2 H3 H4 H5]. split; unfold kinds in *; rewrite <- ?E1, <- ?E2, <- ?E3, <- ?E4, <- ?E5; done.
Qed.

Lemma locked_start r p : locked p → running p (kind_of r) = false → locked (post_request r (set_running (kind_of r) true p)).
Proof.
  intros [H1 H2 H3 H4 H5] Hr. assert (kind_of r ∉ kinds p) as Hn by (rewrite <- H2, Hr; done).
  split; unfold kinds in *; cbn [post_request with_calls set_running calls running applyLoading applyAllLoading detectAllLoading].
  - rewrite fmap_app. apply NoDup_app. split_and!; [done| |apply NoDup_singleton]. intros k Hk ->%list_elem_of_singleton. done.
  - intros k. rewrite fmap_app, elem_of_app, <- H2. cbn. rewrite list_elem_of_singleton. destruct (decide (k = kind_of r)); tauto.
  - destruct (decide _) as [<-|]; [by rewrite decide_True|]. by rewrite decide_False by congruence.
  - destruct (decide (kind_of r = apply_all_kind)) as [<-|]; [by rewrite decide_True|]. by rewrite decide_False by congruence.
  - destruct (decide (kind_of r = detect_all_kind)) as [<-|]; [by rewrite decide_True|]. by rewrite decide_False by congruence.
Qed.

Lemma locked_finish i r ph p : locked p → calls p !! i = Some (MkCall r ph) → locked (finish (kind_of r) (remove_call i p)).
Proof.
  intros [H1 H2 H3 H4 H5] Hi. unfold kinds in *.
  assert ((λ c, kind_of (request c)) <$> calls p ≡ₚ kind_of r :: ((λ c, kind_of (request c)) <$> (take i (calls p) ++ drop (S i) (calls p)))) as Hp.
  { rewrite <- (take_drop_middle _ _ _ Hi) at 1. rewrite !fmap_app. cbn. by rewrite Permutation_middle. }
  rewrite Hp in H1. apply NoDup_cons in H1 as [Hn H1].
  split; unfold kinds; cbn [finish remove_call with_calls set_running calls running applyLoading applyAllLoading detectAllLoading]; [done|..].
  - intros k. specialize (H2 k). rewrite Hp, elem_of_cons in H2. destruct (decide (k = kind_of r)) as [->|]; [done|tauto].
  - destruct (decide _) as [<-|]; [by rewrite decide_True|]. by rewrite decide_False by congruence.
  - destruct (decide (kind_of r = apply_all_kind)) as [<-|]; [by rewrite decide_True|]. by rewrite decide_False by congruence.
  - destruct (decide (kind_of r = detect_all_kind)) as [<-|]; [by rewrite decide_True|]. by rewrite decide_False by congruence.
Qed.

Lemma locked_refresh i r ph p : locked p → calls p !! i = Some (MkCall r ph) → locked (await_refresh i r p).
Proof.
  intros [H1 H2 H3 H4 H5] Hi.
  assert (kinds (await_refresh i r p) = kinds p) as E.
  { unfold kinds, await_refresh. cbn [with_calls calls]. rewrite list_fmap_insert. apply list_insert_id. by rewrite list_lookup_fmap, Hi. }
  split; try rewrite E; done.
Qed.

Lemma locked_applyUpdates a b p : locked p → locked (applyUpdates a b p).
Proof.
  intros H. unfold applyUpdates. destruct (running p apply_kind) eqn:E; [done|]. destruct (channel p) as [id|]; [|by apply (same_locked p)].
  by apply (locked_start (Apply _ _ _ _)).
Qed.

Lemma locked_request r p : locked p → locked (start r p).
Proof. intros H. unfold start. destruct (running p (kind_of r)) eqn:E; [done|]. by apply locked_start. Qed.

Lemma locked_answer i r a p : locked p → calls p !! i = Some (MkCall r awaiting_answer) → locked (on_call_answer i r a p).
Proof.
  intros H Hi. pose proof (locked_finish _ _ _ _ H Hi) as Hf.
  assert (∀ m, locked (finish (kind_of r) (say m (remove_call i p)))) as Hs by (intros m; by eapply same_locked; [|exact Hf]).
  unfold on_call_answer. destruct a as [body|err]; [|apply Hs]. cbv zeta. destruct (negb _); [apply Hs|]. destruct (success_throws _ _); [apply Hs|].
  apply (locked_refresh i r awaiting_answer); [|by destruct (decide _)]. eapply same_locked; [|exact H]. by destruct (decide _).
Qed.

Lemma locked_event e p : locked p → locked (on_update_event lower p e).
Proof.
  intros H. assert (∀ q, same_calls p q → locked q) as Hs by (intros q Hq; by eapply same_locked).
  destruct e as [record add remove tab| |tab|[] text|[] m|[]| | | | |record| |i a|i err]; cbn [on_update_event];
    try (destruct (on_tab _ _ && _)); try (destruct (on_tab _ _)); try done; try (by apply Hs).
  - unfold openModal. destruct (id_of record); [destruct (_ && _)|]; by apply Hs.
  - destruct (showModal p); [by apply Hs|done].
  - destruct (showModal p); [by apply Hs|done].
  - destruct (_ && _); [|done]. unfold handleConfirm. destruct (_ && _); [by apply Hs|by apply locked_applyUpdates].
  - destruct (partialConfirmOpen p); [|done]. apply locked_applyUpdates. by apply Hs.
  - by apply locked_request.
  - unfold detectChannelUpdates. destruct (id_of record); [by apply locked_request|done].
  - by apply locked_request.
  - destruct (calls p !! i) as [[r []]|] eqn:E; [by apply locked_answer|done..].
  - destruct (calls p !! i) as [[r []]|] eqn:E; [done| |done]. unfold on_call_refreshed. pose proof (locked_finish _ _ _ _ H E) as Hf.
    destruct err; [|done]. by eapply same_locked; [|exact Hf].
Qed.

Lemma fresh_locked : locked fresh_page.
Proof. split; try done; [constructor|]. intros k. split; [done|by intros ?%elem_of_nil]. Qed.

Lemma run_locked es : locked (run_update_events lower es fresh_page).
Proof.
  unfold run_update_events. generalize fresh_page, fresh_locked. induction es as [|e es IH]; intros p Hp; [done|]. cbn. by apply IH, locked_event.
Qed.
(** Whatever is pressed and in whatever order the answers arrive, of each
    kind of request at most one is in flight, its lock and its loading flag are
    set exactly during that time, and when no call is left everything can be
    pressed again. *)
Theorem requests_exclusive es : let p := run_update_events lower es fresh_page in
  NoDup (kinds p) ∧ (∀ k, running p k = true ↔ k ∈ kinds p) ∧
  applyLoading p = running p apply_kind ∧ applyAllLoading p = running p apply_all_kind ∧ detectAllLoading p = running p detect_all_kind ∧
  (calls p = [] → ∀ r, sent (start r p) = sent p ++ [r]).
Proof.
  cbv zeta. pose proof (run_locked es) as H. revert H. generalize (run_update_events lower es fresh_page). intros p [H1 H2 H3 H4 H5].
  split_and!; try done. intros Hc r. unfold start. destruct (running p (kind_of r)) eqn:E; [|reflexivity]. apply H2 in E. unfold kinds in E. rewrite Hc in E. by apply elem_of_nil in E.
Qed.

(** ** Applying *)

Lemma app_self_nil {A} (l k : list A) : l = l ++ k → k = [].
Proof. rewrite <- (app_nil_r l) at 1. intros H%app_inv_head. done. Qed.

Lemma applied_exact a b p id add ign rem : sent (applyUpdates a b p) = sent p ++ [Apply id add ign rem] →
  running p apply_kind = false ∧ channel p = Some id ∧ add = normalize_names a ∧ rem = normalize_names b ∧
  ign = List.filter (λ m, negb (set_has add m)) (addModels p).
Proof.
  unfold applyUpdates. destruct (running p apply_kind) eqn:E; [by intros ?%app_self_nil|].
  destruct (channel p) as [i|] eqn:Ec; [|by intros ?%app_self_nil]. cbn [post_request with_calls sent set_running]. intros [= -> <- <- <-]%app_inv_head. done.
Qed.

Lemma started_exact r p id add ign rem : sent (start r p) = sent p ++ [Apply id add ign rem] → r = Apply id add ign rem.
Proof. unfold start. destruct (running p _); [by intros ?%app_self_nil|]. by intros [= ?]%app_inv_head. Qed.

Lemma on_call_answer_sent i r a p : sent (on_call_answer i r a p) = sent p.
Proof. unfold on_call_answer. destruct a; [|done]. cbv zeta. destruct (negb _); [done|]. destruct (success_throws _ _); [done|]. by destruct (decide _). Qed.

(** A request that applies updates is sent for the channel of the dialog,
    while none is in flight; it adds and removes what is selected, trimmed and
    without repetitions, and every model the channel had pending to add is
    either added or ignored, never both. *)
Lemma apply_partitions p e id add ign rem : sent (on_update_event lower p e) = sent p ++ [Apply id add ign rem] →
  running p apply_kind = false ∧ channel p = Some id ∧ add = normalize_names (selectedAdd p) ∧ rem = normalize_names (selectedRemove p) ∧
  ∀ m, m ∈ ign ↔ m ∈ addModels p ∧ m ∉ add.
Proof.
  assert (sent p = sent p ++ [Apply id add ign rem] → False) as Hno by (by intros ?%app_self_nil).
  assert (∀ q, channel q = channel p → running q = running p → addModels q = addModels p → sent q = sent p →
    selectedAdd q = selectedAdd p → selectedRemove q = selectedRemove p → sent (confirm q) = sent p ++ [Apply id add ign rem] →
    running p apply_kind = false ∧ channel p = Some id ∧ add = normalize_names (selectedAdd p) ∧ rem = normalize_names (selectedRemove p) ∧
    ∀ m, m ∈ ign ↔ m ∈ addModels p ∧ m ∉ add) as Hconfirm.
  { intros q E1 E2 E3 E4 E5 E6. unfold confirm. rewrite <- E4. intros (H1 & H2 & H3 & H4 & H5)%applied_exact. rewrite <- E1, <- E2, <- E3, <- E5, <- E6.
    split_and!; try done. intros m. rewrite H5, elem_of_lfilter, negb_true_iff. rewrite <- (set_has_spec add m). destruct (set_has add m); split; intros [? ?]; done. }
  destruct e as [record a b tab| |tab|[] text|[] m|[]| | | | |record| |i a|i err]; cbn [on_update_event];
    try (destruct (on_tab _ _ && _)); try (destruct (on_tab _ _)); try (by intros ?%Hno); try (by intros ?%app_self_nil).
  - unfold openModal. destruct (id_of record); [destruct (_ && _)|]; by intros ?%app_self_nil.
  - destruct (showModal p); by intros ?%app_self_nil.
  - destruct (showModal p); by intros ?%app_self_nil.
  - destruct (_ && _); [|by intros ?%Hno]. unfold handleConfirm. destruct (_ && _); [by intros ?%app_self_nil|by apply Hconfirm].
  - destruct (partialConfirmOpen p); [|by intros ?%Hno]. by apply Hconfirm.
  - by intros ?%started_exact.
  - unfold detectChannelUpdates. destruct (id_of record); [by intros ?%started_exact|by intros ?%Hno].
  - by intros ?%started_exact.
  - destruct (calls p !! i) as [[r []]|]; [rewrite on_call_answer_sent|..]; by intros ?%Hno.
  - destruct (calls p !! i) as [[r []]|]; [by intros ?%Hno| |by intros ?%Hno]. unfold on_call_refreshed. destruct err; by intros ?%app_self_nil.
Qed.

(** ** Two channels *)

(** C25: the selection outlives the dialog: after models were picked for one channel
    and the dialog was cancelled, opening it for another channel with models to
    add and confirming sends the models picked before, for the other channel,
    whether or not it has them pending. *)
Theorem selection_outlives_dialog es b pendingAdd tab : let p := run_update_events lower es fresh_page in
  showModal p = true → running p apply_kind = false → (b ≠ 0)%Z → normalize_names pendingAdd ≠ [] →
  sent (run_update_events lower [Cancel; Open (Some b) pendingAdd [] tab; Confirm] p) =
  sent p ++ [Apply b (normalize_names (selectedAdd p))
    (List.filter (λ m, negb (set_has (normalize_names (selectedAdd p)) m)) (normalize_names pendingAdd)) (normalize_names (selectedRemove p))].
Proof.
  cbv zeta. pose proof (locked_apply _ (run_locked es)) as Hl. revert Hl. generalize (run_update_events lower es fresh_page). intros p Hl Hs Hr Hb Ha.
  unfold run_update_events. cbn [fold_left]. assert (on_update_event lower p Cancel = closeModal p) as -> by (cbn; by rewrite Hs).
  set (q := on_update_event lower (closeModal p) (Open (Some b) pendingAdd [] tab)).
  assert (q = with_modal true (Some b) (normalize_names pendingAdd) [] tab (closeModal p)) as Hq.
  { unfold q. cbn [on_update_event]. unfold openModal, id_of. rewrite (proj2 (Z.eqb_neq b 0) Hb). destruct (normalize_names pendingAdd); done. }
  rewrite Hq. cbn [on_update_event]. cbn [with_modal closeModal showModal applyLoading addModels removeModels]. rewrite Hl, Hr.
  destruct (normalize_names pendingAdd) as [|m ms] eqn:E; [done|]. cbn [is_nil andb negb]. unfold handleConfirm.
  cbn [with_modal closeModal addModels removeModels is_nil negb andb]. unfold confirm, applyUpdates.
  cbn [with_modal closeModal running channel]. rewrite Hr. done.
Qed.
End Pages.

(** ** Number fields *)

(** The values a sequence of events sends: at a flush and when a timer elapses the
    last value scheduled since the one before. *)
Fixpoint committed (pending : option number) (es : list FieldEvent) : list number :=
  match es with
  | [] => []
  | Schedule v :: es => committed (Some v) es
  | (Flush | Elapsed _) :: es => match pending with Some v => [v] | None => [] end ++ committed None es
  end.

Definition scheduled (es : list FieldEvent) : list number := omap (λ e, match e with Schedule v => Some v | _ => None end) es.

(** One timer is armed, and known, exactly while a value is pending. *)
Definition timer_ok (s : Scheduler) : Prop :=
  match pendingValue s with
  | Some _ => ∃ id, timeoutId s = Some id ∧ armed s = [id] ∧ (id < next_timer s)%Z
  | None => timeoutId s = None ∧ armed s = []
  end.

Lemma commit_ok s : timer_ok s →
  commitPendingValue s = MkScheduler None None [] (next_timer s) (updates s ++ match pendingValue s with Some v => [v] | None => [] end).
Proof.
  unfold timer_ok, commitPendingValue, clearPendingTimer. destruct s as [t [v|] ar n us]; cbn.
  - intros (id & -> & -> & _). cbn. by rewrite Z.eqb_refl.
  - intros [-> ->]. cbn. by rewrite app_nil_r.
Qed.

Lemma step_ok s e s' : timer_ok s → field_step s e s' → timer_ok s' ∧
  updates s' = updates s ++ committed (pendingValue s) [e] ∧
  pendingValue s' = match e with Schedule v => Some v | _ => None end ∧
  (∀ id, e = Elapsed id → is_Some (pendingValue s)).
Proof.
  intros Hs Hstep. destruct Hstep as [s v|s|s id Hid].
  - unfold schedule. split_and!; [|cbn; rewrite app_nil_r; unfold clearPendingTimer; by destruct (timeoutId s)|done|done].
    unfold timer_ok in Hs |- *. cbn. exists (next_timer (clearPendingTimer s)). split_and!; [done| |lia].
    unfold clearPendingTimer. destruct (pendingValue s); [|by destruct Hs as [-> ->]]. destruct Hs as (id & -> & -> & _). cbn. by rewrite Z.eqb_refl.
  - rewrite (commit_ok s Hs). cbn. by rewrite !app_nil_r.
  - unfold timer_ok in Hs. destruct (pendingValue s) as [v|] eqn:E; [|destruct Hs as [_ Ha]; rewrite Ha in Hid; by apply elem_of_nil in Hid].
    destruct Hs as (j & Ht & Ha & Hj). rewrite Ha in Hid |- *. apply list_elem_of_singleton in Hid as <-.
    unfold commitPendingValue, clearPendingTimer. cbn. rewrite Ht, Z.eqb_refl. cbn. rewrite ?app_nil_r. split_and!; try done; by eexists.
Qed.

Lemma committed_step pending e es : committed pending (e :: es) =
  committed pending [e] ++ committed (match e with Schedule v => Some v | _ => None end) es.
Proof. destruct e; cbn; [done|..]; by rewrite app_nil_r. Qed.

Lemma run_ok s es s' : field_run s es s' → timer_ok s →
  timer_ok s' ∧ updates s' = updates s ++ committed (pendingValue s) es ∧
  pendingValue s' = fold_left (λ pending e, match e with Schedule v => Some v | _ => None end) es (pendingValue s).
Proof.
  induction 1 as [s|s e s' es s'' He Hr IH]; intros Hs; [by rewrite app_nil_r|].
  destruct (step_ok _ _ _ Hs He) as (Hs' & Hu & Hp & _). destruct (IH Hs') as (H1 & H2 & H3). split; [done|].
  rewrite committed_step, H2, Hu, Hp, <- app_assoc. split; [done|]. cbn. rewrite H3, Hp. done.
Qed.

Definition as_list (o : option number) : list number := match o with Some v => [v] | None => [] end.

(** With the pending value, the last value sent is the last one scheduled. *)
Lemma committed_last pending es :
  last (committed pending es ++ as_list (fold_left (λ pending e, match e with Schedule v => Some v | _ => None end) es pending)) =
  last (as_list pending ++ scheduled es).
Proof.
  revert pending. induction es as [|e es IH]; intros pending; cbn [fold_left committed]; [by rewrite app_nil_r|].
  unfold scheduled in *. destruct e as [v| |id]; cbn [omap list_omap].
  - rewrite IH. change (as_list (Some v) ++ ?l) with (v :: l). rewrite (last_app (as_list pending)). destruct (last (v :: _)) eqn:E; [done|by apply last_None in E].
  - fold (as_list pending). rewrite <- app_assoc, last_app, IH. cbn [as_list app]. by rewrite (last_app (as_list pending)).
  - fold (as_list pending). rewrite <- app_assoc, last_app, IH. cbn [as_list app]. by rewrite (last_app (as_list pending)).
Qed.

Lemma new_timer_ok : timer_ok new_scheduler.
Proof. done. Qed.

(** C26: the scheduler of a number field sends exactly the last value of every burst:
    at a flush and when its timer elapses the value typed last since the one
    before, once; at most one timer is armed, exactly while a value waits; a
    timer that elapses always finds one; and when no timer is armed, the last
    value typed is the last one sent. *)
Theorem field_updates_exact es s : field_run new_scheduler es s →
  updates s = committed None es ∧ (length (armed s) <= 1)%nat ∧ (armed s = [] ↔ pendingValue s = None) ∧
  (∀ id s', field_step s (Elapsed id) s' → ∃ v, pendingValue s = Some v ∧ updates s' = updates s ++ [v]) ∧
  (armed s = [] → last (updates s) = last (scheduled es)).
Proof.
  intros Hr. destruct (run_ok _ _ _ Hr new_timer_ok) as (Ht & Hu & Hp). cbn in Hu, Hp. pose proof Ht as Ht'. unfold timer_ok in Ht'.
  assert (armed s = [] ↔ pendingValue s = None) as Ha.
  { destruct (pendingValue s); [|by destruct Ht' as [_ ->]]. destruct Ht' as (id & _ & -> & _). done. }
  split_and!; [done| |done| |].
  - destruct (pendingValue s); [destruct Ht' as (id & _ & -> & _)|destruct Ht' as [_ ->]]; cbn; lia.
  - intros id s' Hs. destruct (step_ok _ _ _ Ht Hs) as (_ & H1 & _ & H2). destruct (H2 id eq_refl) as [v Hv]. exists v. split; [done|].
    rewrite H1, Hv. cbn. done.
  - intros E. apply Ha in E. pose proof (committed_last None es) as H. rewrite <- Hp, E in H. cbn [as_list app] in H. rewrite app_nil_r in H. by rewrite Hu.
Qed.

(** ** Examples *)

(** Two models are picked for channel 1; channel 2 has one of its own. *)
Definition leak_events : list UpdateEvent :=
  [Open (Some 1%Z) ["a"; "b"]%js [] add_tab; Toggle add_tab "a"].

Lemma selection_outlives_dialog_witness :
  let p := run_update_events toLowerCase leak_events fresh_page in
  sent (run_update_events toLowerCase [Cancel; Open (Some 2%Z) ["c"%js] [] add_tab; Confirm] p) = [Apply 2 ["a"%js] ["c"%js] []].
Proof.
  cbv zeta. rewrite (selection_outlives_dialog toLowerCase leak_events 2 ["c"%js] add_tab); [reflexivity|reflexivity|reflexivity|discriminate|].
  vm_compute. discriminate.
Defined.

Lemma apply_partitions_witness :
  let p := run_update_events toLowerCase leak_events fresh_page in
  channel p = Some 1%Z ∧ ∀ m, m ∈ ["b"%js] ↔ m ∈ addModels p ∧ m ∉ ["a"%js].
Proof.
  cbv zeta. destruct (apply_partitions toLowerCase (run_update_events toLowerCase leak_events fresh_page) Confirm 1 ["a"%js] ["b"%js] []) as (_ & H1 & _ & _ & H2);
    [reflexivity|]. split; [exact H1|exact H2].
Defined.

Lemma field_updates_exact_witness :
  ∃ s, field_run new_scheduler [Schedule (of_Z 1); Schedule (of_Z 2); Elapsed 2; Schedule (of_Z 3); Flush] s ∧
    updates s = [of_Z 2; of_Z 3] ∧ last (updates s) = Some (of_Z 3).
Proof.
  assert (H : field_run new_scheduler [Schedule (of_Z 1); Schedule (of_Z 2); Elapsed 2; Schedule (of_Z 3); Flush]
    (MkScheduler None None [] 4 [of_Z 2; of_Z 3])).
  { do 2 (eapply run_step; [apply step_schedule|]). eapply run_step; [apply step_elapsed; apply list_elem_of_singleton; reflexivity|].
    eapply run_step; [apply step_schedule|]. eapply run_step; [apply step_flush|]. apply run_none. }
  eexists. split; [exact H|]. destruct (field_updates_exact _ _ H) as (H1 & _ & _ & _ & H2). split; [exact H1|]. apply H2. reflexivity.
Defined.
End ChannelUpdatesFacts.
