(* ===== verification/ChannelRows.v ===== *)
(** * The rows of the channel table
    ([web/src/features/channels/lib/channel-utils.ts],
    [lib/status-code-risk-guard.ts], [lib/channel-form-errors.ts],
    [lib/multi-key-utils.ts], [constants.ts])

    Grouping channels by tag, their keys, models and groups as text, what
    needs attention, the status code mappings a channel must not have.

    A channel of the table has its declared types; members that may be [null]
    or missing are [value]s.  [localeCompare], the translation and
    [Intl.RelativeTimeFormat] are parameters; amounts of money are formatted by
    the currency library and not part of this file. *)

From S2P Require Import Prelude JsString JsRegExp JsNumber JsInteger JsValue JsMap PriceFormat.

Module ChannelRows.
Import PriceFormat.

(** ** Channel types *)

Definition CHANNEL_TYPES : list (Z * jsstr) :=
  [(0%Z, "Unknown"%js); (1%Z, "OpenAI"%js); (2%Z, "MjProxy"%js); (3%Z, "Azure"%js); (4%Z, "Ollama"%js); (5%Z, "MjProxyPlus"%js);
   (7%Z, "OhMyGPT"%js); (8%Z, "Custom"%js); (14%Z, "Anthropic"%js); (15%Z, "Baidu"%js); (16%Z, "Zhipu"%js); (17%Z, "Ali"%js);
   (18%Z, "Xunfei"%js); (19%Z, "360"%js); (20%Z, "OpenRouter"%js); (22%Z, "FastGPT"%js); (23%Z, "Tencent"%js); (24%Z, "Gemini"%js);
   (25%Z, "Moonshot"%js); (26%Z, "Zhipu V4"%js); (27%Z, "Perplexity"%js); (31%Z, "LingYiWanWu"%js); (33%Z, "AWS"%js);
   (34%Z, "Cohere"%js); (35%Z, "MiniMax"%js); (36%Z, "SunoAPI"%js); (37%Z, "Dify"%js); (38%Z, "Jina"%js); (39%Z, "Cloudflare"%js);
   (40%Z, "SiliconFlow"%js); (41%Z, "Vertex AI"%js); (42%Z, "Mistral"%js); (43%Z, "DeepSeek"%js); (44%Z, "MokaAI"%js);
   (45%Z, "VolcEngine"%js); (46%Z, "Baidu V2"%js); (47%Z, "Xinference"%js); (48%Z, "xAI"%js); (49%Z, "Coze"%js); (50%Z, "Kling"%js);
   (51%Z, "Jimeng"%js); (52%Z, "Vidu"%js); (53%Z, "Submodel"%js); (54%Z, "DoubaoVideo"%js); (55%Z, "Sora"%js); (56%Z, "Replicate"%js);
   (57%Z, "ChatGPT Subscription (Codex)"%js); (58%Z, "Advanced Custom"%js); (59%Z, "Sub2API"%js); (60%Z, "New API"%js);
   (61%Z, "AtlasCloud"%js); (62%Z, "Task Plugin"%js)].

Definition CHANNEL_TYPE_DISPLAY_ORDER : list Z :=
  [1; 14; 33; 24; 43; 3; 41; 48; 60; 58; 42; 34; 20; 4; 40; 27; 25; 17; 26; 15;
   46; 23; 18; 45; 31; 35; 49; 19; 47; 37; 38; 39; 11; 8; 57; 59; 22; 21; 44; 2;
   5; 36; 50; 51; 52; 53; 54; 55; 56]%Z.

(** The types of the display order that have a label, then the others. *)
Definition CHANNEL_TYPE_OPTIONS : list (Z * jsstr) :=
  let ordered := omap (λ id, label ← map_get CHANNEL_TYPES id; Some (id, label)) CHANNEL_TYPE_DISPLAY_ORDER in
  ordered ++ List.filter (λ p, negb (p.1 =? 0)%Z && negb (bool_decide (p.1 ∈ ordered.*1))) CHANNEL_TYPES.

Definition getChannelTypeLabel (type : Z) : jsstr := default "Unknown"%js (map_get CHANNEL_TYPES type).

(** ** Keys *)

(** [s.slice(0, n)] and [s.slice(-n)]. *)
Definition slice_first (n : nat) (s : jsstr) : jsstr := take n s.
Definition slice_last (n : nat) (s : jsstr) : jsstr := drop (length s - n) s.

Definition key_lines (key : jsstr) : list jsstr := List.filter (λ k, nonempty (trim k)) (split_char 10 key).

Definition formatChannelKey (key : jsstr) (isMultiKey : bool) : jsstr :=
  if negb (nonempty key) then []
  else if isMultiKey then num_to_string (of_Z (Z.of_nat (length (key_lines key)))) ++ " keys"
  else if Nat.leb (length key) 16 then slice_first 4 key ++ "..." ++ slice_last 4 key
  else slice_first 8 key ++ "..." ++ slice_last 8 key.

Definition formatKeyPreview (key : jsstr) (maxLength : nat) : jsstr :=
  if negb (nonempty key) then [] else if Nat.leb (length key) maxLength then key else slice_first maxLength key ++ "...".

Definition countKeys (key : jsstr) : nat := if nonempty key then length (key_lines key) else 0.

Record Deduplicated := MkDedup { deduplicatedText : jsstr; beforeCount : nat; afterCount : nat; removedCount : Z }.

(** The loop over the lines, with the set and the list it fills. *)
Definition dedup_line (st : list jsstr * list jsstr) (line : jsstr) : list jsstr * list jsstr :=
  let trimmedLine := trim line in
  if nonempty trimmedLine && negb (set_has st.1 trimmedLine) then (set_add st.1 trimmedLine, st.2 ++ [trimmedLine]) else st.

Definition deduplicateKeys (keysText : jsstr) : Deduplicated :=
  if negb (nonempty keysText) || negb (nonempty (trim keysText)) then MkDedup [] 0 0 0
  else
    let keyLines := split_char 10 keysText in
    let deduplicatedKeys := (fold_left dedup_line keyLines ([], [])).2 in
    MkDedup (join [10%N] deduplicatedKeys) (length keyLines) (length deduplicatedKeys)
      (Z.of_nat (length keyLines) - Z.of_nat (length deduplicatedKeys)).

(** ** Models and groups *)

Definition parseModelsList (models : jsstr) : list jsstr :=
  if nonempty models then List.filter nonempty (trim <$> split_char 44 models) else [].

Section Locale.
Context (localeCompare : jsstr → jsstr → number).

Definition compare_groups (a b : jsstr) : number :=
  if str_eqb a "default" then of_Z (-1) else if str_eqb b "default" then of_Z 1 else localeCompare a b.

Definition parseGroupsList (groups : jsstr) : list jsstr :=
  if nonempty groups then sort_by compare_groups (List.filter nonempty (trim <$> split_char 44 groups)) else [].

Definition validateGroups (groups : jsstr) : bool := Nat.ltb 0 (length (parseGroupsList groups)).
End Locale.

Definition validateModels (models : jsstr) : bool := Nat.ltb 0 (length (parseModelsList models)).
Definition validateChannelName (name : jsstr) : bool := nonempty (trim name).
Definition validateApiKey (key : jsstr) : bool := nonempty (trim key).
Definition formatModelsString (models : list jsstr) : jsstr := join [44%N] models.
Definition formatGroupsString (groups : list jsstr) : jsstr := join [44%N] groups.

Record GroupReference := MkGroup { g_id : number; g_code : jsstr; g_name : jsstr }.

(** [None]: not an array. *)
Definition buildGroupDisplayNameMap (groupDetails : option (list GroupReference)) : list (jsstr * jsstr) :=
  fold_left (λ labels detail,
    let code := trim (g_code detail) in
    let name := trim (g_name detail) in
    if nonempty code && nonempty name && negb (str_eqb name code) then map_set labels code name else labels)
    (default [] groupDetails) [].

(** ** Settings *)

Definition parseChannelSettings (settingStr : value) : value :=
  match settingStr with VStr s => if nonempty s then default (VObj []) (JSON_parse s) else VObj [] | _ => VObj [] end.

Definition parseChannelOtherSettings (settingsStr : value) : value :=
  match settingsStr with
  | VStr s => if nonempty s && negb (str_eqb s "{}") then default (VObj []) (JSON_parse s) else VObj []
  | _ => VObj []
  end.

Definition validateChannelSettings (settings : jsstr) : bool :=
  if negb (nonempty settings) || negb (nonempty (trim settings)) then true else bool_decide (is_Some (JSON_parse settings)).

(** ** Display *)

Inductive Variant := success | warning | danger | neutral.

#[global] Instance Variant_eq_dec : EqDecision Variant.
Proof. solve_decision. Defined.

Definition CHANNEL_STATUS_CONFIG (status : Z) : option (Variant * jsstr) :=
  match status with
  | 0 => Some (neutral, "Unknown"%js)
  | 1 => Some (success, "Enabled"%js)
  | 2 => Some (danger, "Disabled"%js)
  | 3 => Some (warning, "Auto Disabled"%js)
  | _ => None
  end%Z.

Definition getChannelStatusBadge (status : Z) : Variant * jsstr := default (neutral, "Unknown"%js) (CHANNEL_STATUS_CONFIG status).

Definition MULTI_KEY_STATUS_CONFIG (status : Z) : option (Variant * jsstr) :=
  match status with
  | 1 => Some (success, "Enabled"%js)
  | 2 => Some (neutral, "Manual Disabled"%js)
  | 3 => Some (danger, "Auto Disabled"%js)
  | _ => None
  end%Z.

Definition getMultiKeyStatusBadge (status : Z) : Variant * jsstr := default (success, "Enabled"%js) (MULTI_KEY_STATUS_CONFIG status).
Definition getMultiKeyStatusConfig (status : Z) : Variant * jsstr := default (neutral, "Unknown"%js) (MULTI_KEY_STATUS_CONFIG status).

Inductive MultiKeyAction := delete_key | enable_key | disable_key | enable_all | disable_all | delete_disabled.

Definition getMultiKeyConfirmMessage (action : option MultiKeyAction) : jsstr :=
  match action with
  | None => []
  | Some delete_key => "Are you sure you want to delete this key? This action cannot be undone."
  | Some enable_key => "Enable this key?"
  | Some disable_key => "Disable this key?"
  | Some enable_all => "Are you sure you want to enable all keys?"
  | Some disable_all => "Are you sure you want to disable all enabled keys?"
  | Some delete_disabled => "Are you sure you want to delete all auto-disabled keys? This action cannot be undone."
  end.

Definition isDestructiveAction (action : option MultiKeyAction) : bool :=
  match action with Some (delete_key | delete_disabled | disable_all) => true | _ => false end.

Definition getBalanceVariant (balance : number) : Variant :=
  if num_eqb balance (of_Z 0) then neutral
  else if num_ltb balance (of_Z 1) then danger
  else if num_ltb balance (of_Z 10) then warning
  else success.

(** Without a translation. *)
Definition formatResponseTime (timeMs : number) : jsstr :=
  if num_eqb timeMs (of_Z 0) then "Not tested"
  else if num_ltb timeMs (of_Z 1000) then num_to_string timeMs ++ "ms"
  else num_to_fixed 2 (num_div timeMs (of_Z 1000)) ++ "s".

Definition getResponseTimeConfig (timeMs : number) : Variant * jsstr :=
  if num_eqb timeMs (of_Z 0) then (neutral, "Not tested"%js)
  else if num_leb timeMs (of_Z 500) then (success, "Excellent"%js)
  else if num_leb timeMs (of_Z 1000) then (success, "Good"%js)
  else if num_leb timeMs (of_Z 2000) then (warning, "Fair"%js)
  else (danger, "Poor"%js).

Definition getPriorityDisplay (priority : value) : jsstr := match priority with VUndef | VNull => "0" | v => to_string v end.
Definition getWeightDisplay (weight : value) : jsstr := match weight with VUndef | VNull => "0" | v => to_string v end.

Inductive TimeUnit := second | minute | hour | day | month | year.

(** The distance and the unit [formatRelativeTime] hands over, for [now] in
    milliseconds. *)
Definition relative_time (timestamp now : number) : number * TimeUnit :=
  let diffSec := num_sub timestamp (num_div now (of_Z 1000)) in
  let absSec := num_abs diffSec in
  let within n := num_ltb absSec (of_Z n) in
  let count n := num_round (num_div diffSec (of_Z n)) in
  if within 60%Z then (num_round diffSec, second)
  else if within 3600%Z then (count 60%Z, minute)
  else if within 86400%Z then (count 3600%Z, hour)
  else if within 2592000%Z then (count 86400%Z, day)
  else if within 31536000%Z then (count 2592000%Z, month)
  else (count 31536000%Z, year).

(** [formatted.replaceAll(/(\d)([\u4e00-\u9fff])/g, '$1 $2')] *)
Fixpoint space_digits (s : jsstr) : jsstr :=
  match s with
  | c :: ((d :: _) as r) =>
    if is_digit c && (19968 <=? d)%N && (d <=? 40959)%N then c :: 32%N :: space_digits r else c :: space_digits r
  | _ => s
  end.

Section Relative.
(** [new Intl.RelativeTimeFormat(locale, ...).format]; [None] if it throws. *)
Context (rtf : option jsstr → number → TimeUnit → option jsstr).

Definition formatRelativeTime (timestamp : number) (locale : option jsstr) (now : number) : jsstr :=
  if negb (num_truthy timestamp) then "Never"
  else
    let '(v, unit) := relative_time timestamp now in
    match rtf locale v unit with
    | None => "Unknown"
    | Some formatted =>
      match locale with Some language => if startsWith language "zh" then space_digits formatted else formatted | None => formatted end
    end.
End Relative.

(** ** Channels *)

Record ChannelInfo := MkInfo {
  is_multi_key : bool;
  multi_key_size : number;
  multi_key_status_list : option obj;
}.

Record TableChannel := MkTable {
  t_id : number;
  t_name : jsstr;
  t_tag : value;
  t_status : number;
  t_group : jsstr;
  t_group_details : list GroupReference;
  t_used_quota : number;
  t_response_time : number;
  t_priority : value;
  t_weight : value;
  t_balance : number;
  t_info : option ChannelInfo;
}.

Definition isChannelEnabled (channel : TableChannel) : bool := num_eqb (t_status channel) (of_Z 1).
Definition isMultiKeyChannel (channel : TableChannel) : bool := match t_info channel with Some i => is_multi_key i | None => false end.

Definition low_balance (channel : TableChannel) : bool := num_ltb (of_Z 0) (t_balance channel) && num_ltb (t_balance channel) (of_Z 1).

Definition all_keys_disabled (channel : TableChannel) : bool :=
  match t_info channel with
  | Some i =>
    is_multi_key i &&
    match multi_key_status_list i with Some l => num_leb (multi_key_size i) (of_Z (Z.of_nat (length l))) | None => false end
  | None => false
  end.

Definition channelNeedsAttention (channel : TableChannel) : bool :=
  if num_eqb (t_status channel) (of_Z 3) then true
  else if low_balance channel then true
  else if all_keys_disabled channel then true
  else false.

Definition getAttentionReason (channel : TableChannel) : option jsstr :=
  if num_eqb (t_status channel) (of_Z 3) then Some "Auto-disabled"%js
  else if low_balance channel then Some "Low balance"%js
  else if all_keys_disabled channel then Some "All keys disabled"%js
  else None.

(** ** Rows of tags *)

(** What a tag's row has of its own; the fields it takes over from its first
    channel and those set to constants are not kept. *)
Record TagRow := MkTagRow {
  tr_tag : jsstr;
  tr_status : option number;
  tr_group : jsstr;
  tr_group_ids : list number;
  tr_group_details : list GroupReference;
  tr_used_quota : number;
  tr_response_time : number;
  tr_priority : value;
  tr_weight : value;
  tr_children : list TableChannel;
}.

Definition new_tag_row (tag : jsstr) : TagRow :=
  MkTagRow tag None [] [] [] (of_Z 0) (of_Z 0) (VNum (of_Z (-1))) (VNum (of_Z (-1))) [].

(** [a === b] of numbers, [null] and [undefined]. *)
Definition same_number (a b : value) : bool :=
  match a, b with
  | VNum x, VNum y => num_eqb x y
  | VNull, VNull | VUndef, VUndef => true
  | _, _ => false
  end.

(** The priority or weight of a row after one more child. *)
Definition common_number (own child : value) : value :=
  if same_number own (VNum (of_Z (-1))) then child
  else if negb (same_number own child) then VNull
  else own.

Definition merge_groups (group child : jsstr) : jsstr :=
  match group with
  | [] => child
  | _ =>
    let existingGroups := set_of (List.filter nonempty (split_char 44 group)) in
    fold_left (λ acc g, if set_has existingGroups g then acc else acc ++ [44%N] ++ g)
      (List.filter nonempty (split_char 44 child)) group
  end.

Definition detail_key (detail : GroupReference) : jsstr :=
  if num_ltb (of_Z 0) (g_id detail) then "id:" ++ num_to_string (g_id detail) else "code:" ++ g_code detail.

Definition merge_details (own child : list GroupReference) : list GroupReference :=
  let byKey := fold_left (λ m d, map_set m (detail_key d) d) own [] in
  let byKey := fold_left (λ m d, match map_get m (detail_key d) with None => map_set m (detail_key d) d | Some _ => m end) child byKey in
  byKey.*2.

Definition add_child (row : TagRow) (channel : TableChannel) : TagRow :=
  let children := tr_children row ++ [channel] in
  let childCount := Z.of_nat (length children) in
  let details := merge_details (tr_group_details row) (t_group_details channel) in
  MkTagRow (tr_tag row)
    (if num_eqb (t_status channel) (of_Z 1) then Some (of_Z 1)
     else match tr_status row with None => Some (t_status channel) | Some s => Some s end)
    (merge_groups (tr_group row) (t_group channel))
    (List.filter (λ id, num_ltb (of_Z 0) id) (g_id <$> details))
    details
    (num_add (tr_used_quota row) (t_used_quota channel))
    (num_div (num_add (num_mul (tr_response_time row) (of_Z (childCount - 1))) (t_response_time channel)) (of_Z childCount))
    (common_number (tr_priority row) (t_priority channel))
    (common_number (tr_weight row) (t_weight channel))
    children.

(** [channel.tag || ''] *)
Definition tag_of (channel : TableChannel) : jsstr := match t_tag channel with VStr s => s | _ => [] end.

(** The rows are shared by the map and the result, in the order of creation. *)
Definition place_channel (tagMap : list (jsstr * TagRow)) (channel : TableChannel) : list (jsstr * TagRow) :=
  map_update tagMap (tag_of channel) (new_tag_row (tag_of channel)) (λ row, add_child row channel).

Definition aggregateChannelsByTag (channels : list TableChannel) : list TagRow := (fold_left place_channel channels []).*2.

Inductive TableRow := tag_row (row : TagRow) | channel_row (channel : TableChannel).

Definition isTagAggregateRow (row : TableRow) : bool := match row with tag_row _ => true | channel_row _ => false end.

Definition getChannelTableRowId (row : TableRow) : jsstr :=
  match row with
  | tag_row r => "tag:" ++ tr_tag r
  | channel_row c => "channel:" ++ num_to_string (t_id c)
  end.

(** ** Status code mappings *)

Definition NON_REDIRECTABLE_STATUS_CODES : list Z := [504; 524]%Z.

(** [/^[1-5]\d{2}$/] and [Number.parseInt] *)
Definition three_digits (s : jsstr) : option Z :=
  match s with
  | [a; b; c] =>
    if (49 <=? a)%N && (a <=? 53)%N && is_digit b && is_digit c
    then Some (100 * (Z.of_N a - 48) + 10 * (Z.of_N b - 48) + (Z.of_N c - 48))%Z else None
  | _ => None
  end.

Definition parseStatusCodeKey (rawKey : jsstr) : option Z := three_digits (trim rawKey).

Definition parseStatusCodeMappingTarget (rawValue : value) : option Z :=
  match rawValue with
  | VNum x => if is_integer x && num_leb (of_Z 100) x && num_leb x (of_Z 599) then num_floor x else None
  | VStr s => three_digits (trim s)
  | _ => None
  end.

Definition mapping_entries (text : jsstr) : obj :=
  if nonempty (trim text) then match JSON_parse text with Some (VObj fs) => fs | _ => [] end else [].

Definition collectInvalidStatusCodeEntries (text : jsstr) : list jsstr :=
  omap (λ p, match parseStatusCodeKey p.1, parseStatusCodeMappingTarget p.2 with
             | Some _, Some _ => None
             | _, _ => Some (p.1 ++ " → " ++ to_string p.2)
             end) (mapping_entries text).

(** A redirect of a status that must be kept. *)
Definition risky_redirect (p : jsstr * value) : option jsstr :=
  match parseStatusCodeKey p.1, parseStatusCodeMappingTarget p.2 with
  | Some fromCode, Some toCode =>
    if negb (bool_decide (fromCode ∈ NON_REDIRECTABLE_STATUS_CODES)) then None
    else if (fromCode =? toCode)%Z then None
    else Some (Z_to_string fromCode ++ " -> " ++ Z_to_string toCode)
  | _, _ => None
  end.

Definition collectDisallowedStatusCodeRedirects (text : jsstr) : list jsstr :=
  sort_strings (set_of (omap risky_redirect (mapping_entries text))).

Definition collectNewDisallowedStatusCodeRedirects (original current : jsstr) : list jsstr :=
  let currentRisky := collectDisallowedStatusCodeRedirects current in
  match currentRisky with
  | [] => []
  | _ => List.filter (λ m, negb (set_has (collectDisallowedStatusCodeRedirects original) m)) currentRisky
  end.

(** ** Errors of the form *)

Definition ADVANCED_SETTINGS_FIELDS : list jsstr :=
  ["priority"; "weight"; "test_model"; "auto_ban"; "tag"; "remark"; "param_override"; "header_override"; "status_code_mapping";
   "advanced_custom"; "force_format"; "force_responses"; "thinking_to_content"; "pass_through_body_enabled"; "proxy"; "http_protocol";
   "http2_connection_shards"; "system_prompt"; "system_prompt_override"; "allow_service_tier"; "disable_store"; "allow_safety_identifier";
   "allow_include_obfuscation"; "allow_inference_geo"; "allow_speed"; "claude_beta_query"; "disable_task_polling_sleep";
   "upstream_model_update_check_enabled"; "upstream_model_update_auto_sync_enabled"; "upstream_model_update_ignored_models"]%js.

Definition isAdvancedSettingsField (fieldName : jsstr) : bool := bool_decide (fieldName ∈ ADVANCED_SETTINGS_FIELDS).
Definition hasAdvancedSettingsErrors (errors : obj) : bool := existsb isAdvancedSettingsField errors.*1.
End ChannelRows.
