(* ===== verification/ChannelRowsFacts.v ===== *)
(** * Theorems on the rows of the channel table

    The rows of tags against a direct description, the keys without
    repetitions, the redirects that are reported. *)

From S2P Require Import Prelude JsString JsRegExp JsNumber JsInteger JsValue JsMap ChannelRows.

Module ChannelRowsFacts.
Import ChannelRows.

(** ** Grouping *)

Definition of_tag (t : jsstr) (cs : list TableChannel) : list TableChannel := List.filter (λ c, str_eqb (tag_of c) t) cs.

(** The row of a tag with the children [cs]. *)
Definition row_with (t : jsstr) (cs : list TableChannel) : TagRow := fold_left add_child cs (new_tag_row t).

Lemma of_tag_snoc t cs c : of_tag t (cs ++ [c]) = of_tag t cs ++ if decide (tag_of c = t) then [c] else [].
Proof.
  unfold of_tag. rewrite List.filter_app. cbn. unfold str_eqb. destruct (decide _) as [E|E]; [by rewrite bool_decide_true|by rewrite bool_decide_false].
Qed.

Definition row_map (cs : list TableChannel) : list (jsstr * TagRow) := fold_left place_channel cs [].

Lemma row_map_snoc cs c : row_map (cs ++ [c]) = place_channel (row_map cs) c.
Proof. unfold row_map. by rewrite fold_left_app. Qed.

Lemma row_map_get cs t : map_get (row_map cs) t = if decide (t ∈ tag_of <$> cs) then Some (row_with t (of_tag t cs)) else None.
Proof.
  induction cs as [|c cs IH] using rev_ind; [done|]. rewrite row_map_snoc. unfold place_channel. rewrite map_get_update, of_tag_snoc, fmap_app.
  destruct (decide (t = tag_of c)) as [->|Hne].
  - rewrite decide_True by (apply elem_of_app; right; left). rewrite decide_True by done. f_equal. unfold row_with. rewrite fold_left_app. cbn. f_equal.
    rewrite IH. destruct (decide _) as [|Hn]; [done|]. cbn.
    assert (of_tag (tag_of c) cs = []) as ->; [|done]. apply list_filter_none. intros d Hd. apply str_eqb_neq. intros E. apply Hn. rewrite <- E.
    by apply list_elem_of_fmap_2.
  - rewrite IH, (decide_False (P := tag_of c = t)), app_nil_r by congruence. destruct (decide (t ∈ tag_of <$> cs)).
    + by rewrite decide_True by (apply elem_of_app; by left).
    + rewrite decide_False; [done|]. rewrite elem_of_app. cbn. rewrite list_elem_of_singleton. tauto.
Qed.

Lemma set_of_snoc (l : list jsstr) x : set_of (l ++ [x]) = set_add (set_of l) x.
Proof. unfold set_of. by rewrite fold_left_app. Qed.

Lemma row_map_keys cs : (row_map cs).*1 = set_of (tag_of <$> cs).
Proof.
  induction cs as [|c cs IH] using rev_ind; [done|]. rewrite row_map_snoc. unfold place_channel, map_update. rewrite map_set_keys, IH, fmap_app.
  cbn [fmap list_fmap]. rewrite set_of_snoc. unfold set_add.
  destruct (decide (tag_of c ∈ set_of (tag_of <$> cs))); [by rewrite bool_decide_true|by rewrite bool_decide_false].
Qed.

Lemma map_values {K A} `{EqDecision K} (m : list (K * A)) : NoDup m.*1 → Some <$> m.*2 = map_get m <$> m.*1.
Proof.
  intros Hn. apply list_eq. intros i. rewrite !list_lookup_fmap. destruct (m !! i) as [[k v]|] eqn:E; [|done]. cbn. f_equal. symmetry.
  apply map_get_elem; [done|]. by eapply list_elem_of_lookup_2.
Qed.

(** The rows, described directly. *)
Lemma rows_direct cs : aggregateChannelsByTag cs = (λ t, row_with t (of_tag t cs)) <$> set_of (tag_of <$> cs).
Proof.
  apply (list_fmap_eq_inj Some); [congruence|]. unfold aggregateChannelsByTag. fold (row_map cs).
  rewrite map_values by (rewrite row_map_keys; apply NoDup_set_of). rewrite row_map_keys, <- list_fmap_compose. apply list_fmap_ext.
  intros i t Ht%list_elem_of_lookup_2. rewrite elem_of_set_of in Ht. cbn. rewrite row_map_get, decide_True by done. done.
Qed.

(** ** One row *)

Lemma row_snoc t cs c : row_with t (cs ++ [c]) = add_child (row_with t cs) c.
Proof. unfold row_with. by rewrite fold_left_app. Qed.

Lemma row_tag t cs : tr_tag (row_with t cs) = t.
Proof. induction cs as [|c cs IH] using rev_ind; [done|]. by rewrite row_snoc. Qed.

Lemma row_children t cs : tr_children (row_with t cs) = cs.
Proof. induction cs as [|c cs IH] using rev_ind; [done|]. rewrite row_snoc. cbn. by rewrite IH. Qed.

Lemma row_quota t cs : tr_used_quota (row_with t cs) = fold_left num_add (t_used_quota <$> cs) (of_Z 0).
Proof. induction cs as [|c cs IH] using rev_ind; [done|]. rewrite row_snoc, fmap_app, fold_left_app. cbn. by rewrite IH. Qed.

Lemma row_status t c cs :
  tr_status (row_with t (c :: cs)) = Some (if existsb isChannelEnabled (c :: cs) then of_Z 1 else t_status c).
Proof.
  induction cs as [|d cs IH] using rev_ind.
  - cbn. unfold isChannelEnabled. by destruct (num_eqb _ _).
  - change (c :: cs ++ [d]) with ((c :: cs) ++ [d]). rewrite row_snoc, existsb_app. unfold add_child. cbn [tr_status]. rewrite IH.
    change (existsb isChannelEnabled [d]) with (num_eqb (t_status d) (of_Z 1) || false). rewrite orb_false_r.
    destruct (num_eqb (t_status d) (of_Z 1)); [by rewrite orb_true_r|by rewrite orb_false_r].
Qed.

(** The common value of priorities none of which is the marker -1. *)
Lemma common_exact p ps : same_number p (VNum (of_Z (-1))) = false →
  fold_left common_number ps (common_number (VNum (of_Z (-1))) p) = if forallb (same_number p) ps then p else VNull.
Proof.
  intros Hp. change (common_number (VNum (of_Z (-1))) p) with p.
  assert (∀ qs, fold_left common_number qs VNull = VNull) as Hnull.
  { intros qs. induction qs as [|q qs IH]; [done|]. cbn [fold_left]. by assert (common_number VNull q = VNull) as -> by (by destruct q). }
  induction ps as [|q ps IH]; [done|]. cbn [fold_left forallb].
  assert (common_number p q = if same_number p q then p else VNull) as -> by (unfold common_number; rewrite Hp; by destruct (same_number p q)).
  destruct (same_number p q); [exact IH|apply Hnull].
Qed.

Lemma row_priority t cs : tr_priority (row_with t cs) = fold_left common_number (t_priority <$> cs) (VNum (of_Z (-1))).
Proof. induction cs as [|c cs IH] using rev_ind; [done|]. rewrite row_snoc, fmap_app, fold_left_app. cbn. by rewrite IH. Qed.

Lemma row_weight t cs : tr_weight (row_with t cs) = fold_left common_number (t_weight <$> cs) (VNum (of_Z (-1))).
Proof. induction cs as [|c cs IH] using rev_ind; [done|]. rewrite row_snoc, fmap_app, fold_left_app. cbn. by rewrite IH. Qed.

(** ** Groups of a row *)

Definition add_detail (acc : list GroupReference) (d : GroupReference) : list GroupReference :=
  if decide (detail_key d ∈ detail_key <$> acc) then acc else acc ++ [d].

Definition by_key (l : list GroupReference) : list (jsstr * GroupReference) := (λ d, (detail_key d, d)) <$> l.

Lemma by_key_keys l : (by_key l).*1 = detail_key <$> l.
Proof. unfold by_key. by rewrite <- list_fmap_compose. Qed.

Lemma by_key_values l : (by_key l).*2 = l.
Proof. unfold by_key. rewrite <- list_fmap_compose. rewrite <- (list_fmap_id l) at 2. done. Qed.

Lemma map_set_new {K A} `{EqDecision K} (m : list (K * A)) k v : k ∉ m.*1 → map_set m k v = m ++ [(k, v)].
Proof. induction m as [|[j w] m IH]; [done|]. cbn. rewrite not_elem_of_cons. intros [H1 H2]. rewrite decide_False by done. by rewrite IH. Qed.

Lemma by_key_own own acc : NoDup (detail_key <$> acc ++ own) →
  fold_left (λ m d, map_set m (detail_key d) d) own (by_key acc) = by_key (acc ++ own).
Proof.
  revert acc. induction own as [|d own IH]; intros acc Hn; [by rewrite app_nil_r|]. cbn [fold_left].
  rewrite map_set_new.
  - rewrite (cons_middle d acc own), app_assoc in Hn |- *. rewrite <- IH by done. f_equal. unfold by_key. by rewrite fmap_app.
  - rewrite by_key_keys. rewrite fmap_app in Hn. apply NoDup_app in Hn as (_ & Hn & _). intros Hd. apply (Hn _ Hd). left.
Qed.

Lemma by_key_child child acc :
  fold_left (λ m d, match map_get m (detail_key d) with None => map_set m (detail_key d) d | Some _ => m end) child (by_key acc) =
  by_key (fold_left add_detail child acc).
Proof.
  revert acc. induction child as [|d child IH]; intros acc; [done|]. cbn [fold_left]. rewrite <- IH. f_equal. unfold add_detail.
  destruct (map_get (by_key acc) (detail_key d)) eqn:E.
  - rewrite decide_True; [done|]. apply dec_stable. intros Hn. rewrite <- by_key_keys in Hn. apply map_get_None in Hn. congruence.
  - apply map_get_None in E. rewrite decide_False by (by rewrite <- by_key_keys). rewrite map_set_new by done. unfold by_key. by rewrite fmap_app.
Qed.

Lemma merged own child : NoDup (detail_key <$> own) → merge_details own child = fold_left add_detail child own.
Proof.
  intros H. unfold merge_details. change (@nil (jsstr * GroupReference)) with (by_key []). rewrite (by_key_own own []), by_key_child by done.
  apply by_key_values.
Qed.

Lemma add_detail_keys acc d : detail_key <$> add_detail acc d = set_add (detail_key <$> acc) (detail_key d).
Proof.
  unfold add_detail, set_add. destruct (decide _); [by rewrite bool_decide_true|]. rewrite bool_decide_false by done. by rewrite fmap_app.
Qed.

Lemma added_keys l acc : detail_key <$> fold_left add_detail l acc = fold_left set_add (detail_key <$> l) (detail_key <$> acc).
Proof. revert acc. induction l as [|d l IH]; intros acc; [done|]. cbn. by rewrite IH, add_detail_keys. Qed.

Lemma row_details t cs : tr_group_details (row_with t cs) = fold_left add_detail (concat (t_group_details <$> cs)) [].
Proof.
  induction cs as [|c cs IH] using rev_ind; [done|]. rewrite row_snoc, fmap_app, concat_app, fold_left_app. cbn. rewrite app_nil_r, IH.
  apply merged. rewrite added_keys. apply NoDup_fold_set_add. constructor.
Qed.

Lemma row_detail_keys t cs : detail_key <$> tr_group_details (row_with t cs) = set_of (detail_key <$> concat (t_group_details <$> cs)).
Proof. rewrite row_details, added_keys. done. Qed.

Lemma row_ids t cs : cs ≠ [] → tr_group_ids (row_with t cs) = List.filter (λ id, num_ltb (of_Z 0) id) (g_id <$> tr_group_details (row_with t cs)).
Proof. destruct cs as [|c cs] using rev_ind; [done|]. by rewrite row_snoc. Qed.

(** ** The table *)

Lemma of_tag_cons t c cs : of_tag t (c :: cs) = (if decide (tag_of c = t) then [c] else []) ++ of_tag t cs.
Proof. unfold of_tag. cbn. unfold str_eqb. destruct (decide _); [by rewrite bool_decide_true|by rewrite bool_decide_false]. Qed.

Lemma concat_split {A B} (f g : A → list B) l : concat ((λ x, f x ++ g x) <$> l) ≡ₚ concat (f <$> l) ++ concat (g <$> l).
Proof.
  induction l as [|x l IH]; [done|]. cbn. rewrite IH, <- !app_assoc. f_equiv. rewrite !app_assoc. f_equiv. apply Permutation_app_comm.
Qed.

Lemma concat_single c ts : NoDup ts → tag_of c ∈ ts → concat ((λ t, if decide (tag_of c = t) then [c] else []) <$> ts) = [c].
Proof.
  intros Hn Hc. induction ts as [|t ts IH]; [by apply elem_of_nil in Hc|]. apply NoDup_cons in Hn as [Ht Hn]. cbn. destruct (decide (tag_of c = t)) as [E|E].
  - cbn. f_equal. subst. clear IH Hc Hn. induction ts as [|u ts IH]; [done|]. rewrite not_elem_of_cons in Ht. cbn. rewrite decide_False by tauto. apply IH. tauto.
  - cbn. apply IH; [done|]. apply elem_of_cons in Hc as [?|?]; [congruence|done].
Qed.

Lemma split_by_tag cs ts : NoDup ts → (∀ c, c ∈ cs → tag_of c ∈ ts) → concat ((λ t, of_tag t cs) <$> ts) ≡ₚ cs.
Proof.
  intros Hn. induction cs as [|c cs IH]; intros Hc.
  - clear. induction ts; [done|]. cbn. done.
  - assert ((λ t, of_tag t (c :: cs)) <$> ts = (λ t, (if decide (tag_of c = t) then [c] else []) ++ of_tag t cs) <$> ts) as ->.
    { apply list_fmap_ext. intros i t _. apply of_tag_cons. }
    rewrite concat_split, concat_single by (done || apply Hc; left). cbn. f_equiv. apply IH. intros d Hd. apply Hc. by right.
Qed.

Definition unmarked (v : value) : Prop := same_number v (VNum (of_Z (-1))) = false.

(** The value all of them share, or [null]. *)
Definition shared (v : value) (vs : list value) : value := if forallb (same_number v) vs then v else VNull.

(** The table by tags has one row per tag, in the order of the tags' first
    channels, and every channel stands under its tag, once and in its order.
    A row has the sum of the quotas, is enabled exactly if a child is (else it
    has the status of its first child), has the priority and the weight its
    children share (unless the first one has the value -1), and the groups of
    its children without repetitions. *)
Theorem tag_rows_exact cs : let rows := aggregateChannelsByTag cs in
  tr_tag <$> rows = set_of (tag_of <$> cs) ∧ concat (tr_children <$> rows) ≡ₚ cs ∧
  ∀ row, row ∈ rows → ∃ c rest, tr_children row = c :: rest ∧ tr_children row = of_tag (tr_tag row) cs ∧
    tr_used_quota row = fold_left num_add (t_used_quota <$> tr_children row) (of_Z 0) ∧
    tr_status row = Some (if existsb isChannelEnabled (tr_children row) then of_Z 1 else t_status c) ∧
    (unmarked (t_priority c) → tr_priority row = shared (t_priority c) (t_priority <$> rest)) ∧
    (unmarked (t_weight c) → tr_weight row = shared (t_weight c) (t_weight <$> rest)) ∧
    detail_key <$> tr_group_details row = set_of (detail_key <$> concat (t_group_details <$> tr_children row)) ∧
    tr_group_ids row = List.filter (λ id, num_ltb (of_Z 0) id) (g_id <$> tr_group_details row).
Proof.
  cbv zeta. rewrite rows_direct. split_and!.
  - rewrite <- list_fmap_compose. rewrite <- (list_fmap_id (set_of _)) at 2. apply list_fmap_ext. intros i t _. apply row_tag.
  - rewrite <- list_fmap_compose. rewrite (list_fmap_ext (tr_children ∘ _) (λ t, of_tag t cs)) by (intros i t _; apply row_children).
    apply split_by_tag; [apply NoDup_set_of|]. intros c Hc. apply elem_of_set_of. by apply list_elem_of_fmap_2.
  - intros row (t & -> & Ht)%list_elem_of_fmap. rewrite row_tag, row_children, row_quota, row_detail_keys.
    apply elem_of_set_of, list_elem_of_fmap in Ht as (d & Ed & Hd).
    assert (d ∈ of_tag t cs) as Hin by (apply elem_of_lfilter; split; [done|by apply str_eqb_spec]).
    destruct (of_tag t cs) as [|c rest] eqn:E; [by apply elem_of_nil in Hin|]. exists c, rest.
    split_and!; try done; [by apply row_status| | |by apply row_ids].
    + intros Hm. rewrite row_priority. exact (common_exact (t_priority c) (t_priority <$> rest) Hm).
    + intros Hm. rewrite row_weight. exact (common_exact (t_weight c) (t_weight <$> rest) Hm).
Qed.

(** Row identifiers are distinct if the identifiers of the channels are. *)
Lemma row_ids_distinct cs : NoDup ((λ c, num_to_string (t_id c)) <$> cs) →
  NoDup (getChannelTableRowId <$> ((tag_row <$> aggregateChannelsByTag cs) ++ (channel_row <$> cs))).
Proof.
  intros Hn. rewrite fmap_app, <- !list_fmap_compose. apply NoDup_app. split_and!.
  - rewrite rows_direct, <- list_fmap_compose. apply NoDup_fmap_2; [|apply NoDup_set_of]. intros t u. cbn. rewrite !row_tag. congruence.
  - intros x (r & -> & _)%list_elem_of_fmap (c & H & _)%list_elem_of_fmap. cbn in H. discriminate.
  - assert (getChannelTableRowId ∘ channel_row <$> cs = app "channel:"%js <$> ((λ c, num_to_string (t_id c)) <$> cs)) as -> by (by rewrite <- list_fmap_compose).
    apply NoDup_fmap_2; [|done]. apply _.
Qed.

(** The marker is taken for a value not set yet. *)
Example marker_forgets p5 :
  p5 = VNum (of_Z 5) → fold_left common_number [VNum (of_Z (-1)); p5] (VNum (of_Z (-1))) = p5.
Proof. by intros ->. Qed.

(** ** Keys *)

Definition distinct_keys (text : jsstr) : list jsstr := set_of (List.filter nonempty (trim <$> split_char 10 text)).

Lemma dedup_fold ls s :
  fold_left dedup_line ls (s, s) =
  let r := fold_left set_add (List.filter nonempty (trim <$> ls)) s in (r, r).
Proof.
  cbv zeta. revert s. induction ls as [|l ls IH]; intros s; [done|]. cbn [fold_left fmap list_fmap List.filter].
  assert (dedup_line (s, s) l = let s' := if nonempty (trim l) then set_add s (trim l) else s in (s', s')) as ->.
  { unfold dedup_line, set_add, set_has. cbn [fst snd]. destruct (nonempty (trim l)); [|done]. by destruct (bool_decide _). }
  cbv zeta. rewrite IH. by destruct (nonempty (trim l)).
Qed.

(** A piece between separators, trimmed and not empty. *)
Definition piece (sep : N) (m : jsstr) : Prop := trim m = m ∧ m ≠ [] ∧ lacks sep m = true.

Lemma pieces_ok sep s : Forall (piece sep) (List.filter nonempty (trim <$> split_char sep s)).
Proof.
  apply Forall_forall. intros m (Hm & Hne)%elem_of_lfilter. apply list_elem_of_fmap in Hm as (p & -> & Hp). apply nonempty_spec in Hne.
  split; [apply trim_idemp|]. split; [done|]. pose proof (split_char_parts_lack sep s) as Hl. apply (forallb_elem _ _ p) in Hl; [|done].
  unfold trim. destruct (trim_start_suffix p) as [w Hw]. destruct (trim_end_prefix (trim_start p)) as [w' Hw'].
  unfold lacks in *. rewrite Hw, forallb_app in Hl. bool_hyps. rewrite Hw', forallb_app in H0. by bool_hyps.
Qed.

Lemma pieces_joined sep ms : Forall (piece sep) ms → List.filter nonempty (trim <$> split_char sep (join [sep] ms)) = ms.
Proof.
  intros H. rewrite Forall_forall in H. destruct ms as [|m0 ms']; [done|]. set (ms := m0 :: ms') in *.
  rewrite split_join; [|done|apply forallb_True', Forall_forall; intros m Hm; by apply H].
  assert (trim <$> ms = ms) as ->.
  { rewrite <- (list_fmap_id ms) at 2. apply list_fmap_ext. intros i m Hm%list_elem_of_lookup_2. by apply H. }
  apply list_filter_all. intros m Hm. apply nonempty_spec. by apply H.
Qed.

Lemma distinct_ok text : Forall (piece 10) (distinct_keys text).
Proof.
  pose proof (pieces_ok 10 text) as H. rewrite Forall_forall in H |- *. intros m. unfold distinct_keys. rewrite elem_of_set_of. apply H.
Qed.

Lemma dedup_text text : nonempty text && nonempty (trim text) = true → deduplicatedText (deduplicateKeys text) = join [10%N] (distinct_keys text) ∧
  afterCount (deduplicateKeys text) = length (distinct_keys text).
Proof.
  intros H. unfold deduplicateKeys. destruct (nonempty text); [|done]. cbn [andb] in H. rewrite H. cbn [negb orb].
  rewrite dedup_fold. done.
Qed.

Lemma joined_nonempty ms : Forall (piece 10) ms → ms ≠ [] → nonempty (trim (join [10%N] ms)) = true.
Proof.
  intros H Hne. destruct (trim (join [10%N] ms)) eqn:E; [|done]. exfalso. apply Hne. rewrite <- (pieces_joined 10 ms H).
  destruct ms as [|m ms]; [done|]. apply Forall_cons in H as [(H1 & H2 & _) _]. destruct m as [|c m]; [done|].
  assert (is_ws c = false) as Hw.
  { destruct (is_ws c) eqn:Ew; [|done]. exfalso. pose proof (trim_length m) as Hl. unfold trim in H1, Hl. cbn [trim_start] in H1.
    rewrite Ew in H1. rewrite H1 in Hl. cbn in Hl. lia. }
  destruct ms; cbn in E; by apply trim_nil_head in E.
Qed.

Lemma blank_chars s : trim s = [] ↔ forallb is_ws s = true.
Proof.
  induction s as [|c s IH]; [done|]. cbn [forallb]. destruct (is_ws c) eqn:E; cbn [andb].
  - rewrite <- IH. unfold trim. cbn [trim_start]. by rewrite E.
  - split; [intros H; by apply trim_nil_head in H|done].
Qed.

Lemma split_chars (P : N → bool) sep s : forallb P s = true → forallb (forallb P) (split_char sep s) = true.
Proof.
  induction s as [|c s IH]; [done|]. cbn. intros [Hc Hs]%andb_true_iff. specialize (IH Hs). destruct (c =? sep)%N; [done|].
  destruct (split_char sep s) as [|p ps]; cbn in *; [by rewrite Hc|]. by rewrite Hc.
Qed.

Lemma blank_no_keys text : nonempty text && nonempty (trim text) = false → distinct_keys text = [].
Proof.
  intros H. assert (trim text = []) as Ht%blank_chars by (destruct text; [done|]; by destruct (trim _)).
  unfold distinct_keys. rewrite list_filter_none; [done|]. intros m (p & -> & Hp)%list_elem_of_fmap.
  apply (split_chars _ 10), (forallb_elem _ _ p) in Ht; [|done]. apply blank_chars in Ht. by rewrite Ht.
Qed.

Lemma dedup_again ks : Forall (piece 10) ks → NoDup ks → let t := join [10%N] ks in
  List.filter nonempty (trim <$> split_char 10 t) = ks ∧ countKeys t = length ks ∧
  deduplicatedText (deduplicateKeys t) = t ∧ removedCount (deduplicateKeys t) = 0%Z.
Proof.
  intros Hok Hn. cbv zeta. destruct ks as [|k ks']; [done|]. set (ks := k :: ks') in *.
  assert (split_char 10 (join [10%N] ks) = ks) as Hs.
  { apply split_join; [done|]. apply forallb_True', Forall_forall. intros m Hm. rewrite Forall_forall in Hok. by apply Hok. }
  assert (distinct_keys (join [10%N] ks) = ks) as Hd by (unfold distinct_keys; rewrite (pieces_joined _ _ Hok); by apply set_of_NoDup).
  assert (nonempty (trim (join [10%N] ks)) = true) as Hne by (by apply joined_nonempty).
  assert (nonempty (join [10%N] ks) = true) as Hne' by (by destruct (join [10%N] ks)).
  split; [by apply pieces_joined|]. split.
  - unfold countKeys, key_lines. rewrite Hne', Hs. f_equal. apply list_filter_all. intros m Hm. rewrite Forall_forall in Hok.
    destruct (Hok m Hm) as (-> & Hm' & _). by apply nonempty_spec.
  - destruct (dedup_text (join [10%N] ks)) as [-> Ha]; [by rewrite Hne', Hne|]. rewrite Hd in *. split; [done|].
    revert Ha. unfold deduplicateKeys. rewrite Hne', Hne. cbn [negb orb afterCount removedCount]. rewrite Hs. lia.
Qed.

(** Removing repeated keys keeps the distinct keys of the text, trimmed and in
    the order of their first lines, and counts them; doing it again changes
    nothing and finds nothing to remove. *)
Lemma keys_deduplicated text : let r := deduplicateKeys text in
  List.filter nonempty (trim <$> split_char 10 (deduplicatedText r)) = distinct_keys text ∧
  afterCount r = length (distinct_keys text) ∧ countKeys (deduplicatedText r) = afterCount r ∧
  deduplicatedText (deduplicateKeys (deduplicatedText r)) = deduplicatedText r ∧ removedCount (deduplicateKeys (deduplicatedText r)) = 0%Z.
Proof.
  cbv zeta. destruct (nonempty text && nonempty (trim text)) eqn:E.
  - destruct (dedup_text text E) as [-> ->]. destruct (dedup_again (distinct_keys text)) as (H1 & H2 & H3 & H4); [apply distinct_ok|apply NoDup_set_of|done].
  - rewrite (blank_no_keys text E). assert (deduplicateKeys text = MkDedup [] 0 0 0) as ->; [|done].
    unfold deduplicateKeys. by destruct (nonempty text), (nonempty (trim text)).
Qed.

(** ** Redirects *)

Lemma sorted_filter {A} (R : A → A → Prop) (f : A → bool) l : StronglySorted R l → StronglySorted R (List.filter f l).
Proof.
  induction 1 as [|x l Hs IH Hx]; [constructor|]. cbn. destruct (f x); [|done]. constructor; [done|].
  rewrite Forall_forall in Hx |- *. intros y [Hy _]%elem_of_lfilter. by apply Hx.
Qed.

(** The redirects that are reported before a channel is saved are the new ones
    among those that must not be: a mapping in the text from 504 or 524 to
    another code, not in the text before; each once and in order. *)
Lemma new_redirects_exact original current :
  let reported := collectNewDisallowedStatusCodeRedirects original current in
  NoDup reported ∧ StronglySorted (λ s t, str_leb s t = true) reported ∧
  ∀ m, m ∈ reported ↔ m ∈ omap risky_redirect (mapping_entries current) ∧ m ∉ omap risky_redirect (mapping_entries original).
Proof.
  cbv zeta.
  assert (collectNewDisallowedStatusCodeRedirects original current =
    List.filter (λ m, negb (set_has (collectDisallowedStatusCodeRedirects original) m)) (collectDisallowedStatusCodeRedirects current)) as ->.
  { unfold collectNewDisallowedStatusCodeRedirects. by destruct (collectDisallowedStatusCodeRedirects current). }
  assert (∀ text m, m ∈ collectDisallowedStatusCodeRedirects text ↔ m ∈ omap risky_redirect (mapping_entries text)) as Hin.
  { intros text m. unfold collectDisallowedStatusCodeRedirects, sort_strings. by rewrite elem_of_sort_by, elem_of_set_of. }
  split_and!.
  - apply NoDup_lfilter. unfold collectDisallowedStatusCodeRedirects, sort_strings. rewrite sort_by_Permutation. apply NoDup_set_of.
  - apply sorted_filter, sort_strings_sorted.
  - intros m. rewrite elem_of_lfilter, negb_true_iff, Hin, <- (Hin original), <- not_true_iff_false, set_has_spec. done.
Qed.

(** A redirect that is reported takes 504 or 524 to another code. *)
Lemma risky_exact k v m : risky_redirect (k, v) = Some m ↔
  ∃ a b, parseStatusCodeKey k = Some a ∧ parseStatusCodeMappingTarget v = Some b ∧ (a = 504 ∨ a = 524)%Z ∧ a ≠ b ∧ m = Z_to_string a ++ " -> " ++ Z_to_string b.
Proof.
  unfold risky_redirect. cbn [fst snd]. destruct (parseStatusCodeKey k) as [a|], (parseStatusCodeMappingTarget v) as [b|];
    try (split; [done|intros (? & ? & ? & ? & _); done]).
  split.
  - case_bool_decide as E; [|done]. cbn [negb]. destruct (Z.eqb_spec a b) as [|Hne]; [done|]. intros [= <-]. exists a, b. split_and!; try done.
    unfold NON_REDIRECTABLE_STATUS_CODES in E. rewrite !elem_of_cons, elem_of_nil in E. tauto.
  - intros (a' & b' & [= <-] & [= <-] & Ha & Hne & ->). rewrite bool_decide_true by (unfold NON_REDIRECTABLE_STATUS_CODES; rewrite !elem_of_cons; tauto).
    cbn [negb]. by rewrite (proj2 (Z.eqb_neq a b)).
Qed.

(** ** Channel types and attention *)

(** Every type that has a label is offered once, and nothing else. *)
Lemma type_options_exact : NoDup CHANNEL_TYPE_OPTIONS.*1 ∧
  ∀ id, id ∈ CHANNEL_TYPE_OPTIONS.*1 ↔ id ∈ CHANNEL_TYPES.*1 ∧ id ≠ 0%Z.
Proof.
  split; [apply (bool_decide_eq_true_1 (NoDup _)); by vm_compute|]. intros id.
  assert (CHANNEL_TYPE_OPTIONS.*1 ≡ₚ List.filter (λ i, negb (i =? 0)%Z) CHANNEL_TYPES.*1) as ->.
  { apply NoDup_Permutation; [apply (bool_decide_eq_true_1 (NoDup _)); by vm_compute..|]. intros i. split; revert i; apply Forall_forall.
    all: apply (bool_decide_eq_true_1 (Forall _ _)); by vm_compute. }
  rewrite elem_of_lfilter. split; intros [H1 H2]; split; try done; [by destruct (Z.eqb_spec id 0)|by apply Z.eqb_neq in H2 as ->].
Qed.

Lemma attention_reason channel : channelNeedsAttention channel = bool_decide (is_Some (getAttentionReason channel)).
Proof. unfold channelNeedsAttention, getAttentionReason. by repeat (match goal with |- context [if ?b then _ else _] => destruct b end; [done|]). Qed.

(** A key of up to eight characters is shown completely: the end that is shown
    contains all that follows the beginning. *)
Lemma short_key_shown key : key ≠ [] → (length key <= 8)%nat →
  ∃ u, formatChannelKey key false = take 4 key ++ "..." ++ u ++ drop 4 key.
Proof.
  intros Hne Hl. exists (take (4 - (length key - 4)) (slice_last 4 key)). unfold formatChannelKey. rewrite (proj2 (nonempty_spec key) Hne). cbn [negb].
  rewrite (proj2 (Nat.leb_le _ 16)) by lia. unfold slice_first, slice_last. do 2 f_equal.
  rewrite <- (take_drop (4 - (length key - 4)) (drop (length key - 4) key)) at 1. f_equal. rewrite drop_drop. f_equal. lia.
Qed.
End ChannelRowsFacts.
