(* ===== verification/OAuthBinding.v ===== *)
(** * Binding an account in a popup
    ([web/src/features/profile/components/tabs/account-bindings-tab.tsx],
    [web/src/features/auth/lib/oauth-callback-mode.ts],
    [lib/oauth-bind-window.ts], [web/src/routes/oauth/$provider.tsx])

    A binding runs in two windows.  The profile tab opens a popup, asks the
    server for a flow, stamps the popup's session storage with it and sends the
    popup to the provider.  The provider sends it back to the callback page,
    which recognises the stamp, posts the code to the tab and waits; the tab
    exchanges the code and posts the result back.

    The tab and the page are state machines.  The objects of
    [PendingOAuthBinding] are compared by identity and changed in place, so the
    tab keeps them in the order of their creation and refers to them by index.
    Every call opens one window, which has the index of its object.  Answers,
    messages, timers and closed windows arrive as events, in any order; a
    message carries any data, any origin and any source.  The listener is
    replaced without a gap when the callbacks it uses change, which changes
    nothing here.  Translations are the texts they translate. *)

From S2P Require Import Prelude JsString JsNumber JsValue.

Module OAuthBinding.

(** ** Which callback it is *)

Definition OAUTH_BIND_FLOW_KEY_PREFIX : jsstr := "oauth_bind_flow:".

(** A session storage; [setItem] throws when it has no room. *)
Record OAuthModeStorage := MkModeStorage {
  mode_items : gmap jsstr jsstr;
  mode_room : bool;
}.

Definition mode_setItem (k v : jsstr) (st : OAuthModeStorage) : exc OAuthModeStorage :=
  if mode_room st then Ret (MkModeStorage (<[k := v]> (mode_items st)) true) else Throw.
Definition mode_getItem (k : jsstr) (st : OAuthModeStorage) : option jsstr := mode_items st !! k.

(** [getOAuthSessionStorage]: [None] when the owner has none or reading it
    throws. *)
Definition getOAuthSessionStorage (owner : option (exc OAuthModeStorage)) : option OAuthModeStorage :=
  match owner with Some (Ret st) => Some st | _ => None end.

Definition flow_key (provider : jsstr) : jsstr := OAUTH_BIND_FLOW_KEY_PREFIX ++ provider.

(** The answer, and the storage afterwards. *)
Definition markOAuthBindPopup (storage : option OAuthModeStorage) (provider state : jsstr) :
    bool * option OAuthModeStorage :=
  match storage with
  | None => (false, None)
  | Some st =>
    if negb (nonempty provider) || negb (nonempty state) then (false, Some st)
    else match mode_setItem (flow_key provider) state st with
         | Throw => (false, Some st)
         | Ret st' => (bool_decide (mode_getItem (flow_key provider) st' = Some state), Some st')
         end
  end.

Inductive OAuthCallbackMode := login | bind.

(** [opener] is [Some closed] for a window that has one. *)
Definition resolveOAuthCallbackMode (provider state : jsstr) (opener : option bool) (storage : option OAuthModeStorage) :
    OAuthCallbackMode :=
  match opener, storage with
  | Some false, Some st =>
    if negb (nonempty state) then login
    else if bool_decide (mode_getItem (flow_key provider) st = Some state) then bind else login
  | _, _ => login
  end.

(** ** Timers *)

(** [active] is the flag of the closure, [armed] whether the host still holds
    the timer. *)
Record Timer := MkTimer { active : bool; armed : bool }.

Definition started : Timer := MkTimer true true.

(** The function both starters return. *)
Definition stop_timer (w : Timer) : Timer := if active w then MkTimer false false else w.

(** The timeout of [startOAuthBindResponseDeadline]: the timer, and whether
    [onTimeout] runs. *)
Definition deadline_fires (w : Timer) : Timer * bool :=
  (MkTimer false false, active w).

(** The interval of [watchOAuthPopupClosed], and whether [onClosed] runs. *)
Definition watch_fires (popup_closed : bool) (w : Timer) : Timer * bool :=
  if negb (active w) || negb popup_closed then (w, false) else (MkTimer false false, true).

(** ** The profile tab *)

Definition OAUTH_BIND_CALLBACK_MESSAGE : jsstr := "oauth:binding:callback".
Definition OAUTH_BIND_RESULT_MESSAGE : jsstr := "oauth:binding:result".

Inductive WindowSource := Popup (n : nat) | Opener | Elsewhere.
#[export] Instance source_eq : EqDecision WindowSource.
Proof. solve_decision. Defined.

Record MessageEvent := MkEvent {
  e_origin : jsstr;
  e_source : WindowSource;
  e_data : value;
}.

Record PendingOAuthBinding := MkPending {
  provider : jsstr;
  state : jsstr;
  popup : nat;
  closeWatcher : Timer;
}.

(** The window of a binding, as the tab sees it. *)
Record PopupWindow := MkPopup {
  closed : bool;
  session : option (exc OAuthModeStorage);
  location : option jsstr;
}.

(** The request [GET /api/oauth/<provider>] with its parameters, and the
    binding whose callback caused it. *)
Record ExchangeRequest := MkRequest {
  r_binding : nat;
  r_provider : jsstr;
  r_params : list (jsstr * value);
}.

(** Where a handled message waits: for the exchange, or, after a success, for
    the list of bindings; with the binding and what the message named. *)
Inductive ExchangePoint := AwaitExchange | AwaitBindings (message : value).

Record Handled := MkHandled {
  h_binding : nat;
  h_provider : jsstr;
  h_state : jsstr;
  h_point : ExchangePoint;
}.

Record BindTab := MkBindTab {
  pendings : list PendingOAuthBinding;
  popups : list PopupWindow;
  current : option nat;
  creating : list (nat * (jsstr → option jsstr));
  handling : list Handled;
  requests : list ExchangeRequest;
  posted : list (nat * value);
  toasts : list value;
  updates : nat;
  mounted : bool;
}.

Definition new_tab : BindTab := MkBindTab [] [] None [] [] [] [] [] 0 true.

Definition set_pendings f t := MkBindTab (f (pendings t)) (popups t) (current t) (creating t) (handling t) (requests t) (posted t) (toasts t) (updates t) (mounted t).
Definition set_popups f t := MkBindTab (pendings t) (f (popups t)) (current t) (creating t) (handling t) (requests t) (posted t) (toasts t) (updates t) (mounted t).
Definition set_current c t := MkBindTab (pendings t) (popups t) c (creating t) (handling t) (requests t) (posted t) (toasts t) (updates t) (mounted t).
Definition set_creating f t := MkBindTab (pendings t) (popups t) (current t) (f (creating t)) (handling t) (requests t) (posted t) (toasts t) (updates t) (mounted t).
Definition set_handling f t := MkBindTab (pendings t) (popups t) (current t) (creating t) (f (handling t)) (requests t) (posted t) (toasts t) (updates t) (mounted t).
Definition add_request r t := MkBindTab (pendings t) (popups t) (current t) (creating t) (handling t) (requests t ++ [r]) (posted t) (toasts t) (updates t) (mounted t).
Definition add_post p t := MkBindTab (pendings t) (popups t) (current t) (creating t) (handling t) (requests t) (posted t ++ [p]) (toasts t) (updates t) (mounted t).
Definition add_toast v t := MkBindTab (pendings t) (popups t) (current t) (creating t) (handling t) (requests t) (posted t) (toasts t ++ [v]) (updates t) (mounted t).
Definition add_update t := MkBindTab (pendings t) (popups t) (current t) (creating t) (handling t) (requests t) (posted t) (toasts t) (S (updates t)) (mounted t).
Definition set_mounted b t := MkBindTab (pendings t) (popups t) (current t) (creating t) (handling t) (requests t) (posted t) (toasts t) (updates t) b.

Definition set_watcher (f : Timer → Timer) (p : PendingOAuthBinding) : PendingOAuthBinding :=
  MkPending (provider p) (state p) (popup p) (f (closeWatcher p)).
Definition set_state (s : jsstr) (p : PendingOAuthBinding) : PendingOAuthBinding :=
  MkPending (provider p) s (popup p) (closeWatcher p).

Definition popup_closed (t : BindTab) (n : nat) : bool := from_option closed true (popups t !! n).
Definition close_popup (n : nat) (t : BindTab) : BindTab :=
  set_popups (alter (λ w, MkPopup true (session w) (location w)) n) t.
Definition close_open_popup (n : nat) (t : BindTab) : BindTab :=
  if popup_closed t n then t else close_popup n t.

(** [clearPendingOAuthBinding]; the argument is never left out with a binding
    current. *)
Definition clearPendingOAuthBinding (expected : nat) (t : BindTab) : BindTab :=
  if bool_decide (current t = Some expected)
  then set_current None (set_pendings (alter (set_watcher stop_timer) expected) t)
  else t.

(** The window of a pending binding. *)
Definition popup_of (t : BindTab) (i : nat) : nat := from_option popup i (pendings t !! i).

(** Up to the first [await]; [opened] is the storage of the window that opens,
    [None] when it is blocked. *)
Definition startOAuthBinding (prov : jsstr) (buildUrl : jsstr → option jsstr)
    (opened : option (option (exc OAuthModeStorage))) (t : BindTab) : BindTab :=
  let t := match current t with
           | Some previous => close_open_popup (popup_of t previous) (clearPendingOAuthBinding previous t)
           | None => t
           end in
  match opened with
  | None => add_toast (VStr "OAuth pop-up was blocked") t
  | Some st =>
    let i := length (pendings t) in
    let n := length (popups t) in
    set_creating (λ l, l ++ [(i, buildUrl)])
      (set_current (Some i)
        (set_popups (λ l, l ++ [MkPopup false st None])
          (set_pendings (λ l, l ++ [MkPending prov [] n started]) t)))
  end.

(** The handler of an exception in [startOAuthBinding]. *)
Definition start_failed (i : nat) (t : BindTab) : BindTab :=
  let isCurrent := bool_decide (current t = Some i) in
  let t := close_popup (popup_of t i) (clearPendingOAuthBinding i t) in
  if isCurrent then add_toast (VStr "Failed to initialize OAuth") t else t.

(** [createOAuthFlow] has answered: [None] when it threw. *)
Definition flow_answered (i : nat) (buildUrl : jsstr → option jsstr) (answer : option jsstr) (t : BindTab) : BindTab :=
  match answer with
  | None => start_failed i t
  | Some s =>
    let n := popup_of t i in
    if negb (bool_decide (current t = Some i)) || popup_closed t n then t
    else
      let prov := from_option provider [] (pendings t !! i) in
      let '(marked, st) := markOAuthBindPopup (getOAuthSessionStorage (popups t !! n ≫= session)) prov s in
      let t := match st with
               | Some st => set_popups (alter (λ w, MkPopup (closed w) (Some (Ret st)) (location w)) n) t
               | None => t
               end in
      if negb marked then start_failed i t
      else
        let t := set_pendings (alter (set_state s) i) t in
        match buildUrl s with
        | None => start_failed i t
        | Some url => set_popups (alter (λ w, MkPopup (closed w) (session w) (Some url)) n) t
        end
  end.

(** [v === s] *)
Definition is_text (v : value) (s : jsstr) : bool := match v with VStr u => str_eqb u s | _ => false end.

Definition string_of (v : value) : jsstr := match v with VStr u => u | _ => [] end.

(** [a || b] *)
Definition value_or (a b : value) : value := if truthy a then a else b.

(** [params] of the exchange. *)
Definition exchange_params (data : value) : list (jsstr * value) :=
  [("state"%js, prop data "state")] ++
  (if truthy (prop data "code") then [("code"%js, prop data "code")] else []) ++
  (if truthy (prop data "error") then [("error"%js, prop data "error")] else []) ++
  (if truthy (prop data "errorDescription") then [("error_description"%js, prop data "errorDescription")] else []).

(** The result posted to the popup. *)
Definition result_message (prov st : jsstr) (success : bool) (message : value) : value :=
  VObj [("type"%js, VStr OAUTH_BIND_RESULT_MESSAGE); ("provider"%js, VStr prov); ("state"%js, VStr st);
        ("success"%js, VBool success); ("message"%js, message)].
Definition post_result (h : Handled) (success : bool) (message : value) (t : BindTab) : BindTab :=
  add_post (popup_of t (h_binding h), result_message (h_provider h) (h_state h) success message) t.

Section Origin.
Context (ORIGIN : jsstr).

(** The checks of [handleMessage]: the binding whose callback the message is. *)
Definition callback_of (ev : MessageEvent) (t : BindTab) : option nat :=
  if negb (mounted t) || negb (str_eqb (e_origin ev) ORIGIN) || negb (truthy (e_data ev)) then None
  else
    i ← current t; p ← pendings t !! i;
    if is_text (prop (e_data ev) "type") OAUTH_BIND_CALLBACK_MESSAGE
       && is_text (prop (e_data ev) "provider") (provider p)
       && is_text (prop (e_data ev) "state") (state p)
       && bool_decide (e_source ev = Popup (popup p))
    then Some i else None.

Definition handleMessage (ev : MessageEvent) (t : BindTab) : BindTab :=
  match callback_of ev t with
  | None => t
  | Some i =>
    let t := clearPendingOAuthBinding i t in
    let h := MkHandled i (string_of (prop (e_data ev) "provider")) (string_of (prop (e_data ev) "state")) AwaitExchange in
    if negb (truthy (prop (e_data ev) "code")) && negb (truthy (prop (e_data ev) "error"))
    then post_result h false (VStr "Missing code") (add_toast (VStr "Missing code") t)
    else
      set_handling (λ l, l ++ [h]) (add_request (MkRequest i (h_provider h) (exchange_params (e_data ev))) t)
  end.

(** The answer of the exchange: a body, or an exception with the message of its
    response, if any, and its own, if it is an [Error]. *)
Inductive ExchangeAnswer := Answered (data : value) | Rejected (responseMessage : value) (errorMessage : option jsstr).

Definition exchange_answered (h : Handled) (answer : ExchangeAnswer) (t : BindTab) : BindTab :=
  match answer with
  | Answered data =>
    let message := value_or (prop data "message") (VStr "OAuth failed") in
    if truthy (prop data "success")
    then set_handling (λ l, l ++ [MkHandled (h_binding h) (h_provider h) (h_state h) (AwaitBindings message)]) (add_update (add_toast (VStr "Binding successful!") t))
    else post_result h false message (add_toast message t)
  | Rejected responseMessage errorMessage =>
    let message := value_or responseMessage (VStr (default "OAuth failed"%js errorMessage)) in
    post_result h false message (add_toast message t)
  end.

(** ** The tab as a state machine *)

Inductive TabEvent :=
  | Start (prov : jsstr) (buildUrl : jsstr → option jsstr) (opened : option (option (exc OAuthModeStorage)))
  | FlowAnswer (k : nat) (answer : option jsstr)
  | Receive (ev : MessageEvent)
  | ExchangeAnswer_ (k : nat) (answer : ExchangeAnswer)
  | BindingsFetched (k : nat)
  | WatchTick (i : nat)
  | UserCloses (n : nat)
  | Unmount.

(** [None] when the event cannot happen; [k] is the place of the call among
    those that wait. *)
Definition tab_event (ev : TabEvent) (t : BindTab) : option BindTab :=
  match ev with
  | Start prov buildUrl opened => if mounted t then Some (startOAuthBinding prov buildUrl opened t) else None
  | FlowAnswer k answer =>
    c ← creating t !! k; Some (flow_answered c.1 c.2 answer (set_creating (delete k) t))
  | Receive m => Some (handleMessage m t)
  | ExchangeAnswer_ k answer =>
    h ← handling t !! k;
    match h_point h with
    | AwaitExchange => Some (exchange_answered h answer (set_handling (delete k) t))
    | AwaitBindings _ => None
    end
  | BindingsFetched k =>
    h ← handling t !! k;
    match h_point h with
    | AwaitBindings message => Some (post_result h true message (set_handling (delete k) t))
    | AwaitExchange => None
    end
  | WatchTick i =>
    p ← pendings t !! i;
    if negb (armed (closeWatcher p)) then None
    else
      let '(w, fired) := watch_fires (popup_closed t (popup p)) (closeWatcher p) in
      let t := set_pendings (alter (set_watcher (λ _, w)) i) t in
      Some (if fired then clearPendingOAuthBinding i t else t)
  | UserCloses n => Some (close_popup n t)
  | Unmount =>
    if negb (mounted t) then None
    else Some (set_mounted false
           match current t with
           | Some i => close_open_popup (popup_of t i) (clearPendingOAuthBinding i t)
           | None => t
           end)
  end.

Definition tab_run (t t' : BindTab) : Prop := rtc (λ a b, ∃ ev, tab_event ev a = Some b) t t'.

(** ** The callback page *)

Record CallbackSearch := MkSearch {
  q_code : option jsstr;
  q_state : option jsstr;
  q_error : option jsstr;
  q_error_description : option jsstr;
}.

(** The page while it binds: the timers that will close the window by their
    numbers, and the one the cleanup knows. *)
Record CallbackPage := MkPage {
  page_provider : jsstr;
  page_state : jsstr;
  listening : bool;
  deadline : Timer;
  closers : list nat;
  delayedClose : option nat;
  next_closer : nat;
  page_closed : bool;
  page_toasts : list value;
}.

Definition opt_string (o : option jsstr) : value := from_option VStr VUndef o.

(** What the page posts to its opener. *)
Definition callback_message (prov : jsstr) (q : CallbackSearch) : value :=
  VObj [("type"%js, VStr OAUTH_BIND_CALLBACK_MESSAGE); ("provider"%js, VStr prov);
        ("code"%js, VStr (default [] (q_code q))); ("state"%js, VStr (default [] (q_state q)));
        ("error"%js, opt_string (q_error q)); ("errorDescription"%js, opt_string (q_error_description q))].

(** The effect of the page in the mode [bind]: nothing but a message when the
    opener has gone. *)
Definition mount_bind (prov : jsstr) (q : CallbackSearch) (opener : option bool) : CallbackPage * option value :=
  let page := MkPage prov (default [] (q_state q)) in
  match opener with
  | Some false => (page true started [] None 0 false [], Some (callback_message prov q))
  | _ => (page false (MkTimer false false) [] None 0 false [VStr "OAuth binding window is no longer available"], None)
  end.

Definition page_toast (v : value) (p : CallbackPage) : CallbackPage :=
  MkPage (page_provider p) (page_state p) (listening p) (deadline p) (closers p) (delayedClose p) (next_closer p)
    (page_closed p) (page_toasts p ++ [v]).
Definition set_deadline (w : Timer) (p : CallbackPage) : CallbackPage :=
  MkPage (page_provider p) (page_state p) (listening p) w (closers p) (delayedClose p) (next_closer p)
    (page_closed p) (page_toasts p).
Definition close_page (p : CallbackPage) : CallbackPage :=
  MkPage (page_provider p) (page_state p) (listening p) (deadline p) (closers p) (delayedClose p) (next_closer p)
    true (page_toasts p).
(** [delayedClose = window.setTimeout(() => window.close(), 1500)] *)
Definition close_later (p : CallbackPage) : CallbackPage :=
  MkPage (page_provider p) (page_state p) (listening p) (deadline p) (closers p ++ [next_closer p])
    (Some (next_closer p)) (S (next_closer p)) (page_closed p) (page_toasts p).

(** The checks of [handleBindingResult]. *)
Definition is_result_for (ev : MessageEvent) (p : CallbackPage) : bool :=
  listening p && str_eqb (e_origin ev) ORIGIN && bool_decide (e_source ev = Opener) && truthy (e_data ev)
  && is_text (prop (e_data ev) "type") OAUTH_BIND_RESULT_MESSAGE
  && is_text (prop (e_data ev) "provider") (page_provider p)
  && is_text (prop (e_data ev) "state") (page_state p).

Definition handleBindingResult (ev : MessageEvent) (p : CallbackPage) : CallbackPage :=
  if negb (is_result_for ev p) then p
  else
    let p := set_deadline (stop_timer (deadline p)) p in
    if truthy (prop (e_data ev) "success") then close_page (page_toast (VStr "Binding successful!") p)
    else close_later (page_toast (value_or (prop (e_data ev) "message") (VStr "OAuth failed")) p).

Inductive PageEvent := PageReceive (ev : MessageEvent) | DeadlineFires | CloserFires (k : nat) | PageCleanup.

Definition page_event (ev : PageEvent) (p : CallbackPage) : option CallbackPage :=
  match ev with
  | PageReceive m => Some (handleBindingResult m p)
  | DeadlineFires =>
    if negb (armed (deadline p)) then None
    else
      let '(w, fired) := deadline_fires (deadline p) in
      let p := set_deadline w p in
      Some (if fired then close_later (page_toast (VStr "OAuth binding timed out. Please try again.") p) else p)
  | CloserFires k =>
    if bool_decide (k ∈ closers p)
    then Some (close_page
           (MkPage (page_provider p) (page_state p) (listening p) (deadline p) (List.filter (λ j, negb (Nat.eqb j k)) (closers p))
              (delayedClose p) (next_closer p) (page_closed p) (page_toasts p)))
    else None
  | PageCleanup =>
    let p := set_deadline (stop_timer (deadline p)) p in
    Some (MkPage (page_provider p) (page_state p) false (deadline p)
            match delayedClose p with
            | Some k => List.filter (λ j, negb (Nat.eqb j k)) (closers p)
            | None => closers p
            end (delayedClose p) (next_closer p) (page_closed p) (page_toasts p))
  end.

End Origin.

(** ** The telegram callback *)

Inductive TelegramBindCallback := TelegramResult (flowToken : jsstr) (success : bool) (code : option jsstr) | TelegramInvalid.

Definition TELEGRAM_BIND_RESULT_MESSAGE : jsstr := "telegram:binding:result".

(** [None] for [null]. *)
Definition parseTelegramBindCallback (telegram_bind flow_token error_code : option jsstr) : option TelegramBindCallback :=
  if negb (bool_decide (telegram_bind = Some "success"%js)) && negb (bool_decide (telegram_bind = Some "error"%js)) then None
  else match flow_token with
       | Some tok =>
         if negb (nonempty tok) then Some TelegramInvalid
         else if bool_decide (telegram_bind = Some "success"%js) then Some (TelegramResult tok true None)
         else Some (TelegramResult tok false error_code)
       | None => Some TelegramInvalid
       end.

(** The message posted; nothing is posted, and the answer is [false], if [None]. *)
Definition postTelegramBindResult (callback : option TelegramBindCallback) (opener : option bool) : option value :=
  match callback, opener with
  | Some (TelegramResult tok success code), Some false =>
    Some (VObj [("type"%js, VStr TELEGRAM_BIND_RESULT_MESSAGE); ("flow_token"%js, VStr tok); ("success"%js, VBool success);
                ("code"%js, opt_string code)])
  | _, _ => None
  end.

(** The mode in which the callback page is rendered. *)
Definition callback_mode (prov : jsstr) (q : CallbackSearch) (telegram_bind : option jsstr)
    (opener : option bool) (storage : option OAuthModeStorage) : OAuthCallbackMode :=
  if str_eqb prov "telegram"
     && (bool_decide (telegram_bind = Some "success"%js) || bool_decide (telegram_bind = Some "error"%js))
  then bind
  else resolveOAuthCallbackMode prov (default [] (q_state q)) opener storage.

End OAuthBinding.
