(* ===== verification/OAuthBindingFacts.v ===== *)
(** * Facts about the binding of accounts

    The invariant of the profile tab ([tab_inv]), kept by every event, and of
    the callback page; the two windows together. *)

From S2P Require Import Prelude JsString JsNumber JsValue OAuthBinding.

Module OAuthBindingFacts.
Import OAuthBinding.

(** ** The invariant of the tab *)

Definition stopped : Timer := MkTimer false false.

(** The bindings whose callback was accepted. *)
Definition accepted (t : BindTab) : list nat := (h_binding <$> handling t) ++ (fst <$> posted t).

(** The popup of a binding carries the stamp of its flow. *)
Definition stamped (t : BindTab) (i : nat) (p : PendingOAuthBinding) : Prop :=
  ∃ w st, popups t !! i = Some w ∧ session w = Some (Ret st) ∧ mode_getItem (flow_key (provider p)) st = Some (state p).

(** [owed] are accepted callbacks that are being worked on in between. *)
Record inv_but (owed : list nat) (t : BindTab) : Prop := {
  inv_length : length (popups t) = length (pendings t);
  inv_popup : ∀ i p, pendings t !! i = Some p → popup p = i;
  inv_watch : ∀ i p, pendings t !! i = Some p →
    closeWatcher p = if bool_decide (current t = Some i) then started else stopped;
  inv_current : ∀ i, current t = Some i → mounted t = true ∧ is_Some (pendings t !! i) ∧ i ∉ owed ++ accepted t;
  inv_left : ∀ i w, popups t !! i = Some w → current t ≠ Some i → closed w = true ∨ i ∈ owed ++ accepted t;
  inv_once : NoDup (owed ++ accepted t);
  inv_accepted : ∀ i, i ∈ owed ++ accepted t → is_Some (pendings t !! i);
  inv_handled : ∀ h, h ∈ handling t → ∃ p, pendings t !! h_binding h = Some p ∧ provider p = h_provider h ∧ state p = h_state h;
  inv_posted : ∀ m, m ∈ posted t → ∃ p b v, pendings t !! m.1 = Some p ∧ m.2 = result_message (provider p) (state p) b v;
  inv_requests : ∀ r, r ∈ requests t → r_binding r ∈ owed ++ accepted t ∧
    ∃ p, pendings t !! r_binding r = Some p ∧ provider p = r_provider r ∧ r_params r !! 0 = Some ("state"%js, VStr (state p));
  inv_request_once : NoDup (r_binding <$> requests t);
  inv_stamped : ∀ i p, pendings t !! i = Some p → state p ≠ [] → provider p ≠ [] ∧ stamped t i p;
  inv_creating : ∀ c, c ∈ creating t → ∃ p, pendings t !! c.1 = Some p ∧ state p = [];
  inv_creating_once : NoDup (creating t).*1;
}.

Abbreviation tab_inv := (inv_but []).

Lemma alter_inv {A} (f : A → A) i j (l : list A) x :
  alter f i l !! j = Some x → ∃ y, l !! j = Some y ∧ x = if bool_decide (i = j) then f y else y.
Proof.
  rewrite list_lookup_alter. destruct (decide (i = j)) as [->|Hn].
  - intros (y & Hy & ->)%fmap_Some. exists y. by rewrite bool_decide_true.
  - intros Hx. exists x. by rewrite bool_decide_false.
Qed.

Lemma alter_some {A} (f : A → A) i j (l : list A) y :
  l !! j = Some y → alter f i l !! j = Some (if bool_decide (i = j) then f y else y).
Proof.
  intros Hy. rewrite list_lookup_alter, Hy. destruct (decide (i = j)) as [->|Hn].
  - by rewrite Hy, bool_decide_true.
  - by rewrite bool_decide_false.
Qed.

Lemma alter_is_some {A} (f : A → A) i j (l : list A) : is_Some (alter f i l !! j) ↔ is_Some (l !! j).
Proof. split; intros [x Hx]; [apply alter_inv in Hx as (y & Hy & _)|apply (alter_some f i) in Hx]; eauto. Qed.

(** Closing a window that is closed changes nothing. *)
Lemma close_open_eq n t : close_open_popup n t = close_popup n t.
Proof.
  unfold close_open_popup. destruct (popup_closed t n) eqn:Hc; [|done].
  unfold close_popup, set_popups. destruct t as [ps ws c cr hd rs po ts u m]. simpl in *. f_equal.
  apply list_eq. intros j. rewrite list_lookup_alter. destruct (decide (n = j)) as [->|Hn]; [|done].
  unfold popup_closed in Hc. simpl in Hc.
  destruct (ws !! j) as [[cl se lo]|] eqn:Hw; [|done]. simpl in *. by subst.
Qed.

Lemma popup_of_eq o t i : inv_but o t → is_Some (pendings t !! i) → popup_of t i = i.
Proof. intros I [p Hp]. unfold popup_of. rewrite Hp. exact (inv_popup o t I i p Hp). Qed.

(** What changes neither the bindings nor the windows. *)
Lemma inv_close_popup o n t : inv_but o t → inv_but o (close_popup n t).
Proof.
  intros I. destruct I; constructor; simpl; auto.
  - by rewrite length_alter.
  - intros i w Hw Hc. apply alter_inv in Hw as (w' & Hw' & ->). destruct (inv_left0 i w' Hw' Hc); [|auto].
    left. by case_bool_decide.
  - intros i p Hp Hs. destruct (inv_stamped0 i p Hp Hs) as (? & w & st & Hw & Hse & Hg). split; [done|].
    eexists _, st. split; [simpl; by apply alter_some|]. by case_bool_decide.
Qed.

(** Accepting a callback first clears its binding. *)
Lemma inv_accept o i t :
  inv_but o t → current t = Some i →
  inv_but (i :: o) (clearPendingOAuthBinding i t).
Proof.
  intros I Hc. unfold clearPendingOAuthBinding. rewrite bool_decide_true by done.
  destruct I; constructor; simpl; auto.
  - by rewrite length_alter.
  - intros j p Hp. apply alter_inv in Hp as (p' & Hp' & ->). case_bool_decide; simpl; eauto.
  - intros j p Hp. apply alter_inv in Hp as (p' & Hp' & ->). specialize (inv_watch0 j p' Hp').
    destruct (decide (i = j)) as [<-|Hij].
    + rewrite bool_decide_true in inv_watch0 |- * by done. simpl. by rewrite inv_watch0.
    + rewrite bool_decide_false in inv_watch0 |- * by congruence. by rewrite inv_watch0.
  - done.
  - intros j w Hw _. destruct (decide (i = j)) as [->|Hn]; [right; left|].
    destruct (inv_left0 j w Hw) as [?|?]; [rewrite Hc; congruence|by left|by right; right].
  - constructor; [apply (inv_current0 i Hc)|done].
  - intros j Hj. apply alter_is_some. apply elem_of_cons in Hj as [->|Hj]; [apply (inv_current0 i Hc)|auto].
  - intros h Hh. destruct (inv_handled0 h Hh) as (p & Hp & ? & ?). eexists. split; [by apply alter_some|]. by case_bool_decide.
  - intros m Hm. destruct (inv_posted0 m Hm) as (p & b & v & Hp & Hv). eexists _, b, v. split; [by apply alter_some|].
    rewrite Hv. by case_bool_decide.
  - intros r Hr. destruct (inv_requests0 r Hr) as (? & p & Hp & ? & ?). split; [by right|].
    eexists. split; [by apply alter_some|]. by case_bool_decide.
  - intros j p Hp Hs. apply alter_inv in Hp as (p' & Hp' & ->).
    assert (provider (if bool_decide (i = j) then set_watcher stop_timer p' else p') = provider p' ∧
            state (if bool_decide (i = j) then set_watcher stop_timer p' else p') = state p') as [Hpr Hst] by by case_bool_decide.
    unfold stamped. simpl. rewrite Hpr, Hst in *. exact (inv_stamped0 j p' Hp' Hs).
  - intros c Hc'. destruct (inv_creating0 c Hc') as (p & Hp & ?). eexists. split; [by apply alter_some|]. by case_bool_decide.
Qed.

(** A window that is closed is owed nothing. *)
Lemma inv_forget o i t :
  inv_but (i :: o) t → popup_closed t i = true → i ∉ r_binding <$> requests t → inv_but o t.
Proof.
  intros I Hc Hr. destruct I; constructor; auto.
  - intros j Hj. destruct (inv_current0 j Hj) as (? & ? & Hn). repeat split; [done..|]. intros ?. apply Hn. by right.
  - intros j w Hw Hj. destruct (inv_left0 j w Hw Hj) as [?|Hin]; [by left|]. apply elem_of_cons in Hin as [->|?]; [|by right].
    left. unfold popup_closed in Hc. by rewrite Hw in Hc.
  - by apply NoDup_cons in inv_once0 as [_ ?].
  - intros j Hj. apply inv_accepted0. by right.
  - intros r Hin. destruct (inv_requests0 r Hin) as [Ha ?]. split; [|done]. apply elem_of_cons in Ha as [Ha|?]; [|done].
    destruct Hr. rewrite <- Ha. by apply list_elem_of_fmap_2.
Qed.

Lemma inv_requests_fresh o t i : inv_but o t → current t = Some i → i ∉ r_binding <$> requests t.
Proof.
  intros I Hc (r & -> & Hr)%list_elem_of_fmap. destruct (inv_requests o t I r Hr) as [Ha _].
  by destruct (inv_current o t I (r_binding r) Hc) as (_ & _ & ?).
Qed.

Lemma close_clear_comm n i t :
  close_popup n (clearPendingOAuthBinding i t) = clearPendingOAuthBinding i (close_popup n t).
Proof. unfold clearPendingOAuthBinding. simpl. by case_bool_decide. Qed.

(** Clearing the binding of a closed window. *)
Lemma inv_cleared i t : tab_inv t → popup_closed t i = true → tab_inv (clearPendingOAuthBinding i t).
Proof.
  intros I Hc. destruct (decide (current t = Some i)) as [Hi|Hi].
  - apply (inv_forget [] i); [by apply inv_accept|..]; unfold clearPendingOAuthBinding; rewrite bool_decide_true by done; [done|].
    simpl. exact (inv_requests_fresh [] t i I Hi).
  - unfold clearPendingOAuthBinding. by rewrite bool_decide_false.
Qed.

Lemma popup_closed_close t i : popup_closed (close_popup i t) i = true.
Proof. unfold popup_closed. simpl. rewrite list_lookup_alter, decide_True by done. by destruct (popups t !! i). Qed.

(** Clearing a binding and closing its window. *)
Lemma inv_drop i t : tab_inv t → is_Some (pendings t !! i) →
  tab_inv (close_popup (popup_of t i) (clearPendingOAuthBinding i t)).
Proof.
  intros I Hs. rewrite (popup_of_eq [] t i I Hs), close_clear_comm.
  apply inv_cleared; [by apply inv_close_popup|apply popup_closed_close].
Qed.

Lemma clear_current i t : current t = Some i → current (clearPendingOAuthBinding i t) = None.
Proof. intros Hc. unfold clearPendingOAuthBinding. by rewrite bool_decide_true. Qed.

Lemma clear_requests i t : requests (clearPendingOAuthBinding i t) = requests t.
Proof. unfold clearPendingOAuthBinding. by case_bool_decide. Qed.

(** ** The steps of the tab *)

Lemma inv_toast o v t : inv_but o t → inv_but o (add_toast v t).
Proof. intros []; by constructor. Qed.

Lemma inv_update o t : inv_but o t → inv_but o (add_update t).
Proof. intros []; by constructor. Qed.

Lemma inv_unmounted t : tab_inv t → current t = None → tab_inv (set_mounted false t).
Proof. intros [] Hc; constructor; auto. simpl. intros i Hi. congruence. Qed.

(** A handled message leaves the list of those that wait. *)
Lemma inv_take k h t : tab_inv t → handling t !! k = Some h → inv_but [h_binding h] (set_handling (delete k) t).
Proof.
  intros I Hk.
  assert (h_binding h :: accepted (set_handling (delete k) t) ≡ₚ accepted t) as Hp.
  { unfold accepted. simpl. rewrite app_comm_cons. f_equiv. rewrite <- fmap_cons. f_equiv. symmetry. by apply delete_Permutation. }
  destruct I; constructor; auto.
  - intros j Hj. destruct (inv_current0 j Hj) as (? & ? & Hn). repeat split; [done..|]. simpl. by rewrite Hp.
  - intros j w Hw Hj. simpl. rewrite Hp. by apply inv_left0.
  - simpl. by rewrite Hp.
  - intros j. simpl. rewrite Hp. by apply inv_accepted0.
  - intros h' Hh'. apply inv_handled0. exact (list_elem_of_delete_inv _ _ _ Hh').
  - intros r Hr. simpl. rewrite Hp. by apply inv_requests0.
Qed.

(** The handled message names its binding. *)
Definition names (t : BindTab) (h : Handled) : Prop :=
  ∃ p, pendings t !! h_binding h = Some p ∧ provider p = h_provider h ∧ state p = h_state h.

(** What was owed is given: the accepted callbacks stay the same. *)
Lemma inv_settled i t t' :
  inv_but [i] t → pendings t' = pendings t → popups t' = popups t → current t' = current t → creating t' = creating t →
  requests t' = requests t → mounted t' = mounted t → accepted t' ≡ₚ i :: accepted t →
  (∀ h, h ∈ handling t' → h ∈ handling t ∨ names t h) →
  (∀ m, m ∈ posted t' → m ∈ posted t ∨ ∃ p b v, pendings t !! m.1 = Some p ∧ m.2 = result_message (provider p) (state p) b v) →
  tab_inv t'.
Proof.
  intros I H1 H2 H3 H4 H5 H6 Ha Hh Hm. destruct I; constructor; simpl in *.
  all: try (unfold stamped; rewrite ?H1, ?H2, ?H3, ?H4, ?H5, ?H6, ?Ha; by auto).
  - intros j. rewrite H1, H3, H6, Ha. auto.
  - intros j w. rewrite H2, H3, Ha. auto.
  - intros j. rewrite H1, Ha. auto.
  - intros h Hin. rewrite H1. destruct (Hh h Hin); [auto|done].
  - intros m Hin. rewrite H1. destruct (Hm m Hin); [auto|done].
  - intros r. rewrite H1, H5, Ha. auto.
Qed.

Lemma inv_post h b v t : inv_but [h_binding h] t → names t h → tab_inv (post_result h b v t).
Proof.
  intros I (p & Hp & Hpr & Hst). unfold post_result. rewrite (popup_of_eq _ t _ I) by eauto.
  apply (inv_settled (h_binding h) t); try done; [|by left|].
  - unfold accepted. simpl. rewrite fmap_app, app_assoc. simpl. by rewrite <- Permutation_cons_append.
  - intros m [?|Hm]%elem_of_app; [by left|]. apply list_elem_of_singleton in Hm as ->. right.
    exists p, b, v. by rewrite <- Hpr, <- Hst.
Qed.

Lemma inv_handle h t : inv_but [h_binding h] t → names t h → tab_inv (set_handling (λ l, l ++ [h]) t).
Proof.
  intros I Hn. apply (inv_settled (h_binding h) t); try done; [| |by left].
  - unfold accepted. simpl. rewrite fmap_app, <- app_assoc. simpl. by rewrite <- Permutation_middle.
  - simpl. intros h' [?|Hx]%elem_of_app; [auto|]. apply list_elem_of_singleton in Hx as ->. auto.
Qed.

Lemma inv_request r t :
  inv_but [r_binding r] t → r_binding r ∉ r_binding <$> requests t →
  (∃ p, pendings t !! r_binding r = Some p ∧ provider p = r_provider r ∧ r_params r !! 0 = Some ("state"%js, VStr (state p))) →
  inv_but [r_binding r] (add_request r t).
Proof.
  intros I Hr Hp. destruct I; constructor; auto.
  - intros r' [?|Hx]%elem_of_app; [by apply inv_requests0|]. apply list_elem_of_singleton in Hx as ->. split; [by left|done].
  - simpl. rewrite fmap_app. apply NoDup_app. split; [done|]. split; [|apply NoDup_singleton].
    intros x Hx Hy. apply list_elem_of_singleton in Hy as ->. by apply Hr.
Qed.

Lemma inv_opened prov url st t : tab_inv t → current t = None → mounted t = true →
  tab_inv (set_creating (λ l, l ++ [(length (pendings t), url)]) (set_current (Some (length (pendings t)))
    (set_popups (λ l, l ++ [MkPopup false st None])
      (set_pendings (λ l, l ++ [MkPending prov [] (length (popups t)) started]) t)))).
Proof.
  intros I Hc Hm.
  assert (∀ i p, (pendings t ++ [MkPending prov [] (length (popups t)) started]) !! i = Some p →
    pendings t !! i = Some p ∧ i ≠ length (pendings t) ∨ i = length (pendings t) ∧ p = MkPending prov [] (length (popups t)) started) as Hl.
  { intros i p [?|[Hle Hp]]%lookup_app_Some.
    - left. split; [done|]. apply lookup_lt_Some in H. lia.
    - right. apply list_lookup_singleton_Some in Hp as [? <-]. split; [lia|done]. }
  assert (∀ i p, pendings t !! i = Some p → (pendings t ++ [MkPending prov [] (length (popups t)) started]) !! i = Some p) as Hk
    by (intros; by apply lookup_app_l_Some).
  destruct I; constructor; simpl in *.
  - rewrite !length_app. simpl. lia.
  - intros i p [[? _]|[-> ->]]%Hl; [eauto|done].
  - intros i p [[Hi Hn]|[-> ->]]%Hl; [|by rewrite bool_decide_true].
    rewrite (inv_watch0 i p Hi), Hc, !bool_decide_false; congruence.
  - intros i [= <-]. split; [done|]. split.
    + rewrite lookup_app_r, Nat.sub_diag by lia. by eexists.
    + intros Ha. apply inv_accepted0 in Ha. apply lookup_lt_is_Some in Ha. lia.
  - intros i w [Hw|[Hle Hw]]%lookup_app_Some Hi; [apply (inv_left0 i w Hw); congruence|].
    apply list_lookup_singleton_Some in Hw as [? _]. destruct Hi. f_equal. lia.
  - done.
  - intros i [p Hp]%inv_accepted0. eauto.
  - intros h (p & Hp & ?)%inv_handled0. eauto.
  - intros m (p & b & v & Hp & ?)%inv_posted0. eauto 10.
  - intros r (? & p & Hp & ?)%inv_requests0. eauto.
  - done.
  - intros i p [[Hi _]|[-> ->]]%Hl Hs; [|done]. destruct (inv_stamped0 i p Hi Hs) as (? & w & s & Hw & ?). split; [done|].
    exists w, s. split; [|done]. by apply lookup_app_l_Some.
  - intros c [(p & Hp & ?)%inv_creating0|Hx]%elem_of_app; [eauto|]. apply list_elem_of_singleton in Hx as ->.
    simpl. eexists. split; [by rewrite lookup_app_r, Nat.sub_diag by lia|done].
  - rewrite fmap_app. apply NoDup_app. split; [done|]. split; [|apply NoDup_singleton].
    intros x (c & -> & (p & Hp & _)%inv_creating0)%list_elem_of_fmap Hx%list_elem_of_singleton.
    apply lookup_lt_Some in Hp. simpl in Hx. lia.
Qed.

Lemma inv_start prov url opened t : tab_inv t → mounted t = true → tab_inv (startOAuthBinding prov url opened t).
Proof.
  intros I Hm. unfold startOAuthBinding.
  set (t0 := match current t with Some _ => _ | None => _ end).
  assert (tab_inv t0 ∧ current t0 = None ∧ mounted t0 = true) as (I0 & Hc0 & Hm0).
  { unfold t0. destruct (current t) as [i|] eqn:Hc; [|done]. rewrite close_open_eq.
    destruct (inv_current [] t I i Hc) as (_ & Hs & _). split; [by apply inv_drop|].
    unfold close_popup, clearPendingOAuthBinding. by rewrite bool_decide_true. }
  destruct opened as [st|]; [by apply inv_opened|by apply inv_toast].
Qed.

Lemma inv_failed i t : tab_inv t → is_Some (pendings t !! i) → tab_inv (start_failed i t).
Proof. intros I Hs. unfold start_failed. case_bool_decide; [apply inv_toast|]; by apply inv_drop. Qed.

(** What a window stores, and where it is sent, changes nothing before it is
    stamped. *)
Lemma inv_window i f t :
  (∀ w, closed (f w) = closed w) → (∀ p, pendings t !! i = Some p → state p = [] ∨ ∀ w, session (f w) = session w) →
  tab_inv t → tab_inv (set_popups (alter f i) t).
Proof.
  intros Hf Hi I. destruct I; constructor; simpl; auto.
  - by rewrite length_alter.
  - intros j w Hw Hj. apply alter_inv in Hw as (w' & Hw' & ->). destruct (inv_left0 j w' Hw' Hj); [|by right].
    left. case_bool_decide; [by rewrite Hf|done].
  - intros j p Hp Hs. destruct (inv_stamped0 j p Hp Hs) as (? & w & st & Hw & Hse & ?). split; [done|].
    eexists _, st. split; [simpl; by apply alter_some|]. case_bool_decide as Hij; [|done]. subst j.
    destruct (Hi p Hp) as [?|Hse']; [done|]. by rewrite Hse'.
Qed.

(** A flow that is no longer awaited; its binding has no state yet. *)
Lemma flow_taken k c t : tab_inv t → creating t !! k = Some c →
  tab_inv (set_creating (delete k) t) ∧ (c.1 ∉ (delete k (creating t)).*1) ∧ ∃ p, pendings t !! c.1 = Some p ∧ state p = [].
Proof.
  intros I Hk. assert ((c.1 :: (delete k (creating t)).*1) ≡ₚ (creating t).*1) as Hp.
  { rewrite <- fmap_cons. f_equiv. symmetry. by apply delete_Permutation. }
  pose proof (inv_creating_once _ _ I) as Hn. rewrite <- Hp in Hn. apply NoDup_cons in Hn as [Hn Hnd].
  split; [|split; [done|apply (inv_creating _ _ I); by eapply list_elem_of_lookup_2]].
  destruct I; constructor; auto.
  intros c' Hc'. apply inv_creating0. exact (list_elem_of_delete_inv _ _ _ Hc').
Qed.

Lemma inv_set_state i s t p : tab_inv t → pendings t !! i = Some p → current t = Some i → i ∉ (creating t).*1 →
  provider p ≠ [] → (∃ w st, popups t !! i = Some w ∧ session w = Some (Ret st) ∧ mode_getItem (flow_key (provider p)) st = Some s) →
  tab_inv (set_pendings (alter (set_state s) i) t).
Proof.
  intros I Hp Hc Hcr Hpr Hst. pose proof (inv_requests_fresh _ _ _ I Hc) as Hrf.
  destruct (inv_current _ _ I i Hc) as (_ & _ & Hacc).
  assert (∀ j, j ≠ i → alter (set_state s) i (pendings t) !! j = pendings t !! j) as Hne
    by (intros j ?; by rewrite list_lookup_alter, decide_False).
  destruct I; constructor; simpl; auto.
  - by rewrite length_alter.
  - intros j q Hq. apply alter_inv in Hq as (q' & Hq' & ->). case_bool_decide; simpl; eauto.
  - intros j q Hq. apply alter_inv in Hq as (q' & Hq' & ->). rewrite <- (inv_watch0 j q' Hq'). by case_bool_decide.
  - intros j Hj. destruct (inv_current0 j Hj) as (? & ? & ?). repeat split; [done| |done]. by apply alter_is_some.
  - intros j Hj. apply alter_is_some. auto.
  - intros h Hh. rewrite Hne; [auto|]. intros <-. apply Hacc. simpl. apply elem_of_app. left. by apply list_elem_of_fmap_2.
  - intros m Hm. rewrite Hne; [auto|]. intros He. apply Hacc. simpl. apply elem_of_app. right. rewrite <- He. by apply list_elem_of_fmap_2.
  - intros r Hr. rewrite Hne; [by apply inv_requests0|]. intros <-. apply Hrf. by apply list_elem_of_fmap_2.
  - intros j q Hq Hs. apply alter_inv in Hq as (q' & Hq' & ->). case_bool_decide as Hij; [|by apply inv_stamped0].
    subst j. rewrite Hp in Hq'. injection Hq' as <-. done.
  - intros c Hin. rewrite Hne; [auto|]. intros <-. apply Hcr. by apply list_elem_of_fmap_2.
Qed.

(** A popup is marked exactly if it stores the mark afterwards. *)
Lemma marked_stores st prov s st' : markOAuthBindPopup st prov s = (true, st') →
  prov ≠ [] ∧ s ≠ [] ∧ ∃ m, st' = Some m ∧ mode_getItem (flow_key prov) m = Some s.
Proof.
  unfold markOAuthBindPopup. destruct st as [m|]; [|done]. destruct prov as [|c prov]; [done|]. destruct s as [|d s]; [done|].
  simpl. unfold mode_setItem. destruct (mode_room m); [|done]. intros [= Hb <-]. apply bool_decide_eq_true in Hb.
  repeat split; [done..|]. eauto.
Qed.

Lemma inv_flow i url answer t p :
  tab_inv t → pendings t !! i = Some p → state p = [] → i ∉ (creating t).*1 → tab_inv (flow_answered i url answer t).
Proof.
  intros I Hp Hs Hcr. unfold flow_answered. destruct answer as [s|]; [|apply inv_failed; eauto].
  rewrite (popup_of_eq _ t i I) by eauto. case_bool_decide as Hc; [|done].
  destruct (popup_closed t i) eqn:Hpc; [done|]. simpl. rewrite Hp. simpl.
  destruct (markOAuthBindPopup _ _ _) as [marked st] eqn:Hm.
  set (t1 := match st with Some _ => _ | None => _ end).
  assert (tab_inv t1 ∧ pendings t1 = pendings t ∧ current t1 = current t ∧ creating t1 = creating t) as (I1 & H1 & H2 & H3).
  { unfold t1. destruct st as [st|]; [|done]. split; [|done]. apply inv_window; [done| |done].
    intros q Hq. left. congruence. }
  destruct marked; simpl; [|apply inv_failed; [done|rewrite H1; eauto]].
  apply marked_stores in Hm as (Hpr & Hs' & m & -> & Hg).
  assert (tab_inv (set_pendings (alter (set_state s) i) t1)) as I2.
  { apply (inv_set_state i s t1 p); rewrite ?H1, ?H2, ?H3; try done.
    unfold popup_closed in Hpc. destruct (popups t !! i) as [w|] eqn:Hw; [|done].
    eexists _, m. split; [unfold t1; simpl; by apply alter_some|]. by rewrite bool_decide_true. }
  destruct (url s) as [u|]; [|apply inv_failed; [done|unfold set_pendings; simpl; apply alter_is_some; eauto]].
  apply inv_window; [done| |done]. intros q _. by right.
Qed.

Section Origin.
Context (ORIGIN : jsstr).

Lemma is_text_spec v s : is_text v s = true ↔ v = VStr s.
Proof.
  destruct v; simpl; try (split; congruence). unfold str_eqb. rewrite bool_decide_eq_true. split; congruence.
Qed.

(** What [handleMessage] checks. *)
Lemma callback_of_spec ev t i : callback_of ORIGIN ev t = Some i ↔
  mounted t = true ∧ e_origin ev = ORIGIN ∧ truthy (e_data ev) = true ∧ current t = Some i ∧
  ∃ p, pendings t !! i = Some p ∧ prop (e_data ev) "type" = VStr OAUTH_BIND_CALLBACK_MESSAGE ∧
    prop (e_data ev) "provider" = VStr (provider p) ∧ prop (e_data ev) "state" = VStr (state p) ∧
    e_source ev = Popup (popup p).
Proof.
  unfold callback_of, str_eqb. destruct (mounted t); simpl; [|split; [done|by intros [? _]]].
  case_bool_decide as Ho; simpl; [|split; [done|tauto]].
  destruct (truthy (e_data ev)); simpl; [|split; [done|by intros (_ & _ & ? & _)]].
  destruct (current t) as [j|]; simpl; [|split; [done|by intros (_ & _ & _ & ? & _)]].
  destruct (pendings t !! j) as [p|] eqn:Hp; simpl.
  - split.
    + destruct (_ && bool_decide (e_source ev = _)) eqn:Hb; [|done]. intros [= <-]. bool_hyps.
      rewrite is_text_spec in *. eauto 10.
    + intros (_ & _ & _ & [= <-] & q & Hq & ? & ? & ? & ?). rewrite Hp in Hq. injection Hq as <-.
      rewrite (proj2 (is_text_spec _ _)), (proj2 (is_text_spec _ _)), (proj2 (is_text_spec _ _)), bool_decide_true by done. done.
  - split; [done|]. intros (_ & _ & _ & [= <-] & q & Hq & _). congruence.
Qed.

Lemma inv_receive ev t : tab_inv t → tab_inv (handleMessage ORIGIN ev t).
Proof.
  intros I. unfold handleMessage. destruct (callback_of ORIGIN ev t) as [i|] eqn:Hcb; [|done].
  apply callback_of_spec in Hcb as (_ & _ & _ & Hc & p & Hp & _ & Hpr & Hst & _). rewrite Hpr, Hst. simpl.
  pose proof (inv_accept [] i t I Hc) as I1. pose proof (inv_requests_fresh _ _ _ I Hc) as Hf.
  assert (∃ p', pendings (clearPendingOAuthBinding i t) !! i = Some p' ∧ provider p' = provider p ∧ state p' = state p) as Hp'.
  { unfold clearPendingOAuthBinding. rewrite bool_decide_true by done. simpl. eexists. split; [by apply alter_some|].
    by rewrite bool_decide_true. }
  assert (names (clearPendingOAuthBinding i t) (MkHandled i (provider p) (state p) AwaitExchange)) as Hn
    by (destruct Hp' as (p' & ? & ? & ?); by exists p').
  destruct (_ && _); [by apply inv_post; [apply inv_toast|]|].
  apply inv_handle; simpl; [|done].
  apply (inv_request (MkRequest i (provider p) (exchange_params (e_data ev)))); simpl; [done|by rewrite clear_requests|].
  destruct Hp' as (p' & ? & ? & Hs'). exists p'. rewrite Hst, Hs'. done.
Qed.

Lemma inv_exchange k h answer t : tab_inv t → handling t !! k = Some h →
  tab_inv (exchange_answered h answer (set_handling (delete k) t)).
Proof.
  intros I Hk. pose proof (inv_take k h t I Hk) as I1.
  assert (names t h) as Hn by (apply (inv_handled _ _ I); by eapply list_elem_of_lookup_2).
  unfold exchange_answered. destruct answer as [data|rm em]; [|by apply inv_post; [apply inv_toast|]].
  destruct (truthy (prop data "success")); [|by apply inv_post; [apply inv_toast|]].
  by apply (inv_handle (MkHandled (h_binding h) (h_provider h) (h_state h) _)); [apply inv_update, inv_toast|].
Qed.

Lemma inv_tick i t t' : tab_inv t → tab_event ORIGIN (WatchTick i) t = Some t' → tab_inv t'.
Proof.
  intros I. simpl. destruct (pendings t !! i) as [p|] eqn:Hp; [|done]. simpl.
  pose proof (inv_watch _ _ I i p Hp) as Hw. rewrite (inv_popup _ _ I i p Hp). case_bool_decide as Hc; rewrite Hw; simpl; [|done].
  unfold watch_fires. simpl. destruct (popup_closed t i) eqn:Hpc; simpl; intros [= <-].
  - replace (clearPendingOAuthBinding i _) with (clearPendingOAuthBinding i t); [by apply inv_cleared|].
    unfold clearPendingOAuthBinding. simpl. rewrite !bool_decide_true by done. unfold set_pendings, set_current. simpl. f_equal.
    rewrite list_alter_alter_eq. apply list_alter_ext; [|done]. intros q Hq. rewrite Hp in Hq. injection Hq as <-.
    unfold set_watcher. simpl. by rewrite Hw.
  - replace (set_pendings _ t) with t; [done|]. destruct t. unfold set_pendings. simpl in *. f_equal.
    rewrite (list_alter_ext _ id _ pendings0); [by rewrite list_alter_id| |done]. intros q Hq. rewrite Hp in Hq. injection Hq as <-.
    unfold set_watcher. destruct p. simpl in *. by rewrite Hw.
Qed.

Lemma inv_event ev t t' : tab_inv t → tab_event ORIGIN ev t = Some t' → tab_inv t'.
Proof.
  intros I. destruct ev as [prov url opened|k answer|m|k answer|k|i|n|].
  - simpl. destruct (mounted t) eqn:Hm; [|done]. intros [= <-]. by apply inv_start.
  - simpl. destruct (creating t !! k) as [c|] eqn:Hk; [|done]. intros [= <-].
    destruct (flow_taken k c t I Hk) as (I1 & Hn & p & Hp & Hs). by apply (inv_flow _ _ _ _ p).
  - intros [= <-]. by apply inv_receive.
  - simpl. destruct (handling t !! k) as [h|] eqn:Hk; [|done]. simpl. destruct (h_point h); [|done]. intros [= <-].
    by apply inv_exchange.
  - simpl. destruct (handling t !! k) as [h|] eqn:Hk; [|done]. simpl. destruct (h_point h); [done|]. intros [= <-].
    apply inv_post; [by apply inv_take|]. apply (inv_handled _ _ I). by eapply list_elem_of_lookup_2.
  - by apply inv_tick.
  - intros [= <-]. by apply inv_close_popup.
  - simpl. destruct (mounted t) eqn:Hm; [|done]. intros [= <-].
    destruct (current t) as [i|] eqn:Hc; [rewrite close_open_eq|]; apply inv_unmounted; try done.
    + apply inv_drop; [done|apply (inv_current _ _ I i Hc)].
    + unfold close_popup. simpl. by apply clear_current.
Qed.

(** Every state of the tab. *)
Lemma tab_inv_reachable t : tab_run ORIGIN new_tab t → tab_inv t.
Proof.
  assert (∀ t0, tab_inv t0 → tab_run ORIGIN t0 t → tab_inv t) as H.
  { intros t0 I0 Hr. induction Hr as [|a b c [ev Hev] _ IH]; [done|]. apply IH. by eapply inv_event. }
  apply H. constructor; simpl; try done; try apply NoDup_nil_2; intros ? Hx; by apply not_elem_of_nil in Hx.
Qed.

(** ** Where requests come from *)

Lemma failed_requests i t : requests (start_failed i t) = requests t.
Proof. unfold start_failed. case_bool_decide; simpl; apply clear_requests. Qed.

Lemma flow_requests i url answer t : requests (flow_answered i url answer t) = requests t.
Proof.
  unfold flow_answered. destruct answer as [s|]; [|apply failed_requests]. destruct (_ || _); [done|].
  destruct (markOAuthBindPopup _ _ _) as [[] [st|]]; simpl; try (destruct (url s)); rewrite ?failed_requests; done.
Qed.

(** Only a message adds a request. *)
Lemma event_requests ev t t' : tab_event ORIGIN ev t = Some t' →
  requests t' = requests t ∨ ∃ m, ev = Receive m ∧ t' = handleMessage ORIGIN m t.
Proof.
  destruct ev as [prov url opened|k answer|m|k answer|k|i|n|]; simpl; intros H; [left..|right|left|left|left|left|left].
  - destruct (mounted t); [|done]. injection H as <-. unfold startOAuthBinding.
    destruct (current t), opened; rewrite ?close_open_eq; simpl; rewrite ?clear_requests; done.
  - destruct (creating t !! k) as [c|]; [|done]. injection H as <-. by rewrite flow_requests.
  - injection H as <-. eauto.
  - destruct (handling t !! k) as [h|]; [|done]. simpl in H. destruct (h_point h); [|done]. injection H as <-.
    unfold exchange_answered. destruct answer; [|done]. by destruct (truthy _).
  - destruct (handling t !! k) as [h|]; [|done]. simpl in H. destruct (h_point h); [done|]. by injection H as <-.
  - destruct (pendings t !! i) as [p|]; [|done]. simpl in H. destruct (negb _); [done|].
    destruct (watch_fires _ _) as [w []]; injection H as <-; by rewrite ?clear_requests.
  - by injection H as <-.
  - destruct (mounted t); [|done]. injection H as <-. simpl.
    destruct (current t); rewrite ?close_open_eq; simpl; by rewrite ?clear_requests.
Qed.

(** The message is the callback of the current binding: from its window, on
    this site, naming its provider and its state. *)
Definition genuine (ev : MessageEvent) (t : BindTab) (i : nat) (p : PendingOAuthBinding) : Prop :=
  mounted t = true ∧ current t = Some i ∧ pendings t !! i = Some p ∧ e_origin ev = ORIGIN ∧ e_source ev = Popup i ∧
  prop (e_data ev) "type" = VStr OAUTH_BIND_CALLBACK_MESSAGE ∧
  prop (e_data ev) "provider" = VStr (provider p) ∧ prop (e_data ev) "state" = VStr (state p) ∧
  (state p ≠ [] → stamped t i p).

Lemma message_exact ev t : tab_inv t →
  handleMessage ORIGIN ev t = t ∨
  ∃ i p, genuine ev t i p ∧ current (handleMessage ORIGIN ev t) = None ∧
    requests (handleMessage ORIGIN ev t) =
      requests t ++ (if truthy (prop (e_data ev) "code") || truthy (prop (e_data ev) "error")
                     then [MkRequest i (provider p) (exchange_params (e_data ev))] else []).
Proof.
  intros I. unfold handleMessage. destruct (callback_of ORIGIN ev t) as [i|] eqn:Hcb; [right|by left].
  apply callback_of_spec in Hcb as (Hm & Ho & Ht & Hc & p & Hp & Hty & Hpr & Hst & Hs).
  exists i, p. pose proof (inv_popup _ _ I i p Hp) as Hpop. rewrite Hpop in Hs. split.
  - repeat split; try done. intros Hne. by apply (inv_stamped _ _ I).
  - rewrite Hpr, Hst. simpl. destruct (truthy (prop (e_data ev) "code")), (truthy (prop (e_data ev) "error")); simpl;
      rewrite ?clear_current, ?clear_requests, ?app_nil_r by done; done.
Qed.

(** C10: Whatever messages arrive, from whatever window and in whatever order,
    the tab asks the server to exchange a code only for a callback from the
    window it opened for the current binding, on its own site, with the
    provider and the state of that binding, whose stamp the window carries
    once the flow exists; it does so at most once for every binding, for its
    provider and with its state, and the binding is over then.  Any other
    message changes nothing, and nothing but a message causes a request. *)
Theorem exchanges_genuine t : tab_run ORIGIN new_tab t →
  (∀ ev t', tab_event ORIGIN ev t = Some t' →
     requests t' = requests t ∨
     ∃ m i p, ev = Receive m ∧ genuine m t i p ∧ current t' = None ∧ (i ∉ r_binding <$> requests t) ∧
       requests t' = requests t ++ [MkRequest i (provider p) (exchange_params (e_data m))]) ∧
  (∀ m, (∀ i p, ¬ genuine m t i p) → handleMessage ORIGIN m t = t) ∧
  NoDup (r_binding <$> requests t) ∧
  (∀ r, r ∈ requests t → ∃ p, pendings t !! r_binding r = Some p ∧ r_provider r = provider p ∧
     r_params r !! 0 = Some ("state"%js, VStr (state p)) ∧ current t ≠ Some (r_binding r)).
Proof.
  intros I%tab_inv_reachable. repeat split.
  - intros ev t' Hev. destruct (event_requests ev t t' Hev) as [?|(m & -> & ->)]; [by left|].
    destruct (message_exact m t I) as [->|(i & p & Hg & Hc & Hr)]; [by left|].
    destruct (_ || _); [right|left; by rewrite app_nil_r in Hr].
    exists m, i, p. repeat split; try done; try apply Hg. apply (inv_requests_fresh _ _ _ I), Hg.
  - intros m Hm. destruct (message_exact m t I) as [?|(i & p & Hg & _)]; [done|]. by destruct (Hm i p).
  - apply (inv_request_once _ _ I).
  - intros r Hr. destruct (inv_requests _ _ I r Hr) as (Ha & p & Hp & Hpr & Hst). exists p. repeat split; try done.
    intros Hc. by destruct (inv_current _ _ I _ Hc) as (_ & _ & ?).
Qed.

(** C11: In every state the tab can reach, it watches exactly the window of the
    current binding; every other window it opened is closed or has returned
    with its callback; every accepted callback is being exchanged or was
    answered, never both and never twice, and the answer went to its own
    window with its own provider and state; nothing is current once the page
    is left. *)
Theorem windows_accounted t : tab_run ORIGIN new_tab t →
  (∀ i p, pendings t !! i = Some p → popup p = i ∧ (armed (closeWatcher p) = true ↔ current t = Some i)) ∧
  (∀ i w, popups t !! i = Some w → current t = Some i ∨ closed w = true ∨ i ∈ h_binding <$> handling t ∨ i ∈ (posted t).*1) ∧
  NoDup ((h_binding <$> handling t) ++ (posted t).*1) ∧
  (∀ n v, (n, v) ∈ posted t → ∃ p b m, pendings t !! n = Some p ∧ v = result_message (provider p) (state p) b m) ∧
  (mounted t = false → current t = None).
Proof.
  intros I%tab_inv_reachable. repeat split.
  - by apply (inv_popup _ _ I).
  - rewrite (inv_watch _ _ I i p H). by case_bool_decide.
  - intros Hc. rewrite (inv_watch _ _ I i p H). by rewrite bool_decide_true.
  - intros i w Hw. destruct (decide (current t = Some i)) as [?|Hn]; [by left|right].
    destruct (inv_left _ _ I i w Hw Hn) as [?|Ha]; [by left|]. right. by apply (proj1 (elem_of_app (h_binding <$> handling t) (posted t).*1 i)) in Ha.
  - apply (inv_once _ _ I).
  - intros n v Hin. apply (inv_posted _ _ I (n, v) Hin).
  - intros Hm. destruct (current t) as [i|] eqn:Hc; [|done]. destruct (inv_current _ _ I i Hc) as [? _]. congruence.
Qed.

(** A run given by its events. *)
Fixpoint run_events (evs : list TabEvent) (t : BindTab) : option BindTab :=
  match evs with [] => Some t | ev :: evs' => t' ← tab_event ORIGIN ev t; run_events evs' t' end.

Lemma runs_to evs t t' : run_events evs t = Some t' → tab_run ORIGIN t t'.
Proof.
  revert t. induction evs as [|ev evs IH]; intros t; simpl; [intros [= ->]; apply rtc_refl|].
  destruct (tab_event ORIGIN ev t) as [t1|] eqn:He; [|done]. simpl. intros Hr. eapply rtc_l; [by exists ev|by apply IH].
Qed.
End Origin.

(** ** A binding *)

Definition SITE : jsstr := "https://a.example".
Definition github_url (s : jsstr) : option jsstr := Some ("https://github.com/login/oauth/authorize?client_id=x&state="%js ++ s).
Definition demo_events : list TabEvent :=
  [Start "github" github_url (Some (Some (Ret (MkModeStorage ∅ true)))); FlowAnswer 0 (Some "s1"%js)].
Definition demo_callback : MessageEvent :=
  MkEvent SITE (Popup 0)
    (VObj [("type"%js, VStr OAUTH_BIND_CALLBACK_MESSAGE); ("provider"%js, VStr "github"); ("state"%js, VStr "s1"); ("code"%js, VStr "c")]).
Definition demo_tab : BindTab := default new_tab (run_events SITE demo_events new_tab).
Definition demo_accepted : BindTab := default new_tab (run_events SITE (demo_events ++ [Receive demo_callback]) new_tab).

Lemma demo_reached : tab_run SITE new_tab demo_tab.
Proof. apply (runs_to SITE demo_events). vm_compute. reflexivity. Qed.

Lemma exchanges_genuine_witness :
  NoDup (r_binding <$> requests demo_accepted) ∧ length (requests demo_accepted) = 1.
Proof.
  split; [|vm_compute; reflexivity].
  apply (exchanges_genuine SITE demo_accepted), (runs_to SITE (demo_events ++ [Receive demo_callback])). vm_compute. reflexivity.
Defined.

Lemma windows_accounted_witness :
  current demo_tab = Some 0 ∧ (mounted demo_tab = false → current demo_tab = None).
Proof. split; [vm_compute; reflexivity|]. apply (windows_accounted SITE demo_tab), demo_reached. Defined.
End OAuthBindingFacts.
