(* ===== verification/OAuthHandshake.v ===== *)
(** * The two windows of a binding together

    The callback page never waits for ever, and a popup that returns with the
    state of the current binding brings the binding to its end: the theorems
    compose the tab and the page of [OAuthBinding]. *)

From S2P Require Import Prelude JsString JsNumber JsValue OAuthBinding OAuthBindingFacts.

Module OAuthHandshake.
Import OAuthBinding OAuthBindingFacts.

(** ** The mode of the callback *)

(** A bind needs a live opener and the stamp of this provider and state. *)
Lemma mode_bind_exact prov s opener st :
  resolveOAuthCallbackMode prov s opener st = bind ↔
  opener = Some false ∧ s ≠ [] ∧ ∃ m, st = Some m ∧ mode_getItem (flow_key prov) m = Some s.
Proof.
  unfold resolveOAuthCallbackMode. destruct opener as [[]|], st as [m|];
    try (split; [done|intros (Ho & _ & m' & Hm & _); by (discriminate Ho || discriminate Hm)]).
  destruct s as [|c s]; simpl; [split; [done|by intros (_ & ? & _)]|].
  case_bool_decide as Hg; split; intros H; try done.
  - repeat split; [done|]. eauto.
  - destruct H as (_ & _ & m' & [= <-] & ?). done.
Qed.

(** Stamps of different providers do not meet. *)
Lemma flow_key_inj p q : flow_key p = flow_key q → p = q.
Proof. apply app_inv_head. Qed.

Section Origin.
Context (ORIGIN : jsstr).

(** ** The callback page *)

(** The page as long as it is shown. *)
Definition page_run : CallbackPage → CallbackPage → Prop :=
  rtc (λ a b, ∃ ev, ev ≠ PageCleanup ∧ page_event ORIGIN ev a = Some b).

(** It is closed, will be closed by a timer, or waits with its deadline set. *)
Record page_inv (p : CallbackPage) : Prop := {
  page_waits : page_closed p = true ∨ closers p ≠ [] ∨ deadline p = started;
  page_timer : deadline p = started ∨ deadline p = stopped;
  page_numbers : ∀ k, k ∈ closers p → k < next_closer p;
}.

Lemma stop_timer_stopped w : w = started ∨ w = stopped → stop_timer w = stopped.
Proof. by intros [->| ->]. Qed.

Lemma page_inv_event ev p p' : ev ≠ PageCleanup → page_inv p → page_event ORIGIN ev p = Some p' → page_inv p'.
Proof.
  intros Hne [Hw Ht Hn] Hev. destruct ev as [m| |k|]; simpl in Hev; [| | |done].
  - injection Hev as <-. unfold handleBindingResult. destruct (is_result_for ORIGIN m p); simpl; [|by constructor].
    rewrite stop_timer_stopped by done. destruct (truthy (prop (e_data m) "success")); constructor; simpl; auto.
    + right. left. by destruct (closers p).
    + intros k [Hk|Hk]%elem_of_app; [apply Hn in Hk|apply list_elem_of_singleton in Hk]; lia.
  - destruct (armed (deadline p)) eqn:Ha; [|done]. destruct Ht as [Ht|Ht]; rewrite Ht in Ha, Hev; [|done].
    injection Hev as <-. constructor; simpl; auto.
    + right. left. by destruct (closers p).
    + intros k [Hk|Hk]%elem_of_app; [apply Hn in Hk|apply list_elem_of_singleton in Hk]; lia.
  - case_bool_decide; [|done]. injection Hev as <-. constructor; simpl; auto.
    intros j [Hj _]%elem_of_lfilter. auto.
Qed.

Lemma page_inv_reachable prov q p : page_run (mount_bind prov q (Some false)).1 p → page_inv p.
Proof.
  intros Hr. assert (page_inv (mount_bind prov q (Some false)).1) as I0.
  { constructor; simpl; auto. intros k Hk. by apply not_elem_of_nil in Hk. }
  revert I0. induction Hr as [|a b c [ev [Hne Hev]] _ IH]; [done|]. intros I0. apply IH. by eapply page_inv_event.
Qed.

(** Firing a close timer closes the window. *)
Lemma closer_closes k p : k ∈ closers p → ∃ p', page_event ORIGIN (CloserFires k) p = Some p' ∧ page_closed p' = true.
Proof. intros Hk. simpl. rewrite bool_decide_true by done. by eexists. Qed.

(** C13: A callback page that binds never waits for ever: whatever messages
    arrive and in whatever order its timers fire, it is closed, or one timer
    that is running closes it, or its deadline is running and starts that
    timer.  A message changes it only if its opener sent it, on its own site,
    as the result for its provider and its state; that ends the waiting: the
    deadline cannot fire any more, and the page is closed, at once after a
    success and by a timer after a failure. *)
Theorem page_never_stuck prov q p : page_run (mount_bind prov q (Some false)).1 p →
  (page_closed p = true ∨
   (∃ k p', page_event ORIGIN (CloserFires k) p = Some p' ∧ page_closed p' = true) ∨
   (∃ k p1 p', page_event ORIGIN DeadlineFires p = Some p1 ∧
      page_event ORIGIN (CloserFires k) p1 = Some p' ∧ page_closed p' = true)) ∧
  (∀ m, let p' := handleBindingResult ORIGIN m p in
     p' = p ∨
     e_origin m = ORIGIN ∧ e_source m = Opener ∧ prop (e_data m) "type" = VStr OAUTH_BIND_RESULT_MESSAGE ∧
     prop (e_data m) "provider" = VStr (page_provider p) ∧ prop (e_data m) "state" = VStr (page_state p) ∧
     page_event ORIGIN DeadlineFires p' = None ∧
     (if truthy (prop (e_data m) "success") then page_closed p' = true else closers p' ≠ [])).
Proof.
  intros I%page_inv_reachable. split.
  - destruct (page_waits p I) as [?|[Hk|Hd]]; [by left| |].
    + right. left. destruct (closers p) as [|k ks] eqn:Hks; [done|]. exists k. apply closer_closes. rewrite Hks. by left.
    + right. right. simpl. rewrite Hd. simpl. set (p1 := close_later _).
      destruct (closer_closes (next_closer p) p1) as (p' & Hp' & Hc); [simpl; apply elem_of_app; right; by left|].
      by exists (next_closer p), p1, p'.
  - intros m p'. unfold p', handleBindingResult. destruct (is_result_for ORIGIN m p) eqn:Hres; [right|by left].
    unfold is_result_for, str_eqb in Hres. bool_hyps. rewrite is_text_spec in *. simpl negb. cbv iota.
    rewrite stop_timer_stopped by apply (page_timer p I). destruct (truthy (prop (e_data m) "success")); simpl; repeat split; try done.
    by destruct (closers p).
Qed.

(** ** Both windows *)

Definition succeeds (answer : ExchangeAnswer) : bool :=
  match answer with Answered data => truthy (prop data "success") | Rejected _ _ => false end.

(** The page takes the result that names it. *)
Lemma result_taken prov q b v :
  let page := (mount_bind prov q (Some false)).1 in
  let page' := handleBindingResult ORIGIN (MkEvent ORIGIN Opener (result_message prov (default [] (q_state q)) b v)) page in
  deadline page' = stopped ∧ if b then page_closed page' = true else page_closed page' = false ∧ closers page' = [0].
Proof.
  simpl. unfold handleBindingResult. replace (is_result_for _ _ _) with true; [by destruct b|].
  symmetry. unfold is_result_for. repeat (apply andb_true_iff; split); try done;
    try by apply is_text_spec. by apply bool_decide_eq_true.
Qed.

(** What a message that waits posts goes to the window of its binding. *)
Lemma post_result_exact h k b m t t1 :
  tab_inv t → handling t !! k = Some h → pendings t1 = pendings t → posted t1 = posted t →
  posted (post_result h b m t1) = posted t ++ [(h_binding h, result_message (h_provider h) (h_state h) b m)].
Proof.
  intros I Hh Hp1 Hp2. assert (is_Some (pendings t !! h_binding h)) as Hs.
  { apply (inv_accepted _ _ I). unfold accepted. apply list_elem_of_lookup_2, (list_elem_of_fmap_2 h_binding) in Hh. set_solver. }
  simpl. rewrite Hp2. pose proof (popup_of_eq _ t _ I Hs) as Hpo. unfold popup_of in *. by rewrite Hp1, Hpo.
Qed.

(** How a page that got the result [v] goes on. *)
Definition page_ends (prov : jsstr) (q : CallbackSearch) (success : bool) (v : value) : Prop :=
  let page := handleBindingResult ORIGIN (MkEvent ORIGIN Opener v) (mount_bind prov q (Some false)).1 in
  deadline page = stopped ∧ if success then page_closed page = true else page_closed page = false ∧ closers page = [0].

(** The answer of the exchange, in any state in which its message waits. *)
Lemma exchange_settles answer h k t :
  tab_inv t → handling t !! k = Some h → h_point h = AwaitExchange →
  ∃ t', tab_event ORIGIN (ExchangeAnswer_ k answer) t = Some t' ∧ requests t' = requests t ∧
    if succeeds answer
    then updates t' = S (updates t) ∧ posted t' = posted t ∧ length (handling t') = length (handling t) ∧
         ∃ m, last (handling t') = Some (MkHandled (h_binding h) (h_provider h) (h_state h) (AwaitBindings m))
    else updates t' = updates t ∧ handling t' = delete k (handling t) ∧
         ∃ m, posted t' = posted t ++ [(h_binding h, result_message (h_provider h) (h_state h) false m)].
Proof.
  intros I Hh Hpt. exists (exchange_answered h answer (set_handling (delete k) t)).
  split; [simpl; rewrite Hh; simpl; by rewrite Hpt|]. unfold exchange_answered.
  destruct answer as [data|rm em]; simpl succeeds; cbv iota.
  - destruct (truthy (prop data "success")).
    + repeat split; [|by eexists; simpl; rewrite last_snoc]. simpl. rewrite length_app, length_delete by done.
      apply lookup_lt_Some in Hh. simpl. lia.
    + repeat split. eexists. by apply (post_result_exact h k).
  - repeat split. eexists. by apply (post_result_exact h k).
Qed.

(** The list of bindings, in any state in which a success waits for it. *)
Lemma fetched_settles h k m t :
  tab_inv t → handling t !! k = Some h → h_point h = AwaitBindings m →
  ∃ t', tab_event ORIGIN (BindingsFetched k) t = Some t' ∧ requests t' = requests t ∧ updates t' = updates t ∧
    handling t' = delete k (handling t) ∧
    posted t' = posted t ++ [(h_binding h, result_message (h_provider h) (h_state h) true m)].
Proof.
  intros I Hh Hpt. exists (post_result h true m (set_handling (delete k) t)).
  split; [simpl; rewrite Hh; simpl; by rewrite Hpt|]. repeat split. by apply (post_result_exact h k).
Qed.

(** C12: When the popup of the current binding comes back with the binding's
    state and a code, its page recognises the binding and its message is
    accepted: the code is sent to the server with that state, once.  Whatever
    the tab does meanwhile, the answer of the server settles it, by what it is:
    a refusal or an exception at once posts one result to that popup, a failure;
    a success refreshes the profile and, when the list of bindings is there,
    posts one result to that popup, a success; nothing is sent again.  The page
    that gets the result stops waiting and is closed, at once after a success
    and by one timer after a failure. *)
Theorem handshake_completes t i p w q code telegram_bind :
  tab_run ORIGIN new_tab t → current t = Some i → pendings t !! i = Some p → popups t !! i = Some w →
  state p ≠ [] → q_state q = Some (state p) → q_code q = Some code → code ≠ [] →
  let waiting := MkHandled i (provider p) (state p) in
  callback_mode (provider p) q telegram_bind (Some false) (getOAuthSessionStorage (session w)) = bind ∧
  ∃ msg t1 rest, (mount_bind (provider p) q (Some false)).2 = Some msg ∧
    tab_event ORIGIN (Receive (MkEvent ORIGIN (Popup i) msg)) t = Some t1 ∧ current t1 = None ∧
    requests t1 = requests t ++ [MkRequest i (provider p) (("state"%js, VStr (state p)) :: ("code"%js, VStr code) :: rest)] ∧
    posted t1 = posted t ∧ handling t1 = handling t ++ [waiting AwaitExchange] ∧
    (∀ t2 k answer, tab_run ORIGIN t1 t2 → handling t2 !! k = Some (waiting AwaitExchange) →
      ∃ t3, tab_event ORIGIN (ExchangeAnswer_ k answer) t2 = Some t3 ∧ requests t3 = requests t2 ∧
      if succeeds answer
      then updates t3 = S (updates t2) ∧ posted t3 = posted t2 ∧
        ∃ m, last (handling t3) = Some (waiting (AwaitBindings m))
      else updates t3 = updates t2 ∧ handling t3 = delete k (handling t2) ∧
        ∃ v, posted t3 = posted t2 ++ [(i, v)] ∧ page_ends (provider p) q false v) ∧
    (∀ t2 k m, tab_run ORIGIN t1 t2 → handling t2 !! k = Some (waiting (AwaitBindings m)) →
      ∃ t3 v, tab_event ORIGIN (BindingsFetched k) t2 = Some t3 ∧ requests t3 = requests t2 ∧
        handling t3 = delete k (handling t2) ∧ posted t3 = posted t2 ++ [(i, v)] ∧ page_ends (provider p) q true v).
Proof.
  intros Hrun Hc Hp Hw Hs Hqs Hqc Hcode waiting. pose proof (tab_inv_reachable _ _ Hrun) as I.
  destruct (inv_stamped _ _ I i p Hp Hs) as (_ & w' & st & Hw' & Hse & Hg). rewrite Hw in Hw'. injection Hw' as <-.
  destruct (inv_current _ _ I i Hc) as (Hm & _ & _). split.
  { unfold callback_mode. destruct (_ && _); [done|]. apply mode_bind_exact. rewrite Hqs. split; [done|]. split; [done|].
    exists st. by rewrite Hse. }
  set (msg := callback_message (provider p) q). set (ev := MkEvent ORIGIN (Popup i) msg).
  assert (callback_of ORIGIN ev t = Some i) as Hcb.
  { apply callback_of_spec. repeat split; try done. exists p. rewrite (inv_popup _ _ I i p Hp). repeat split; try done.
    unfold ev, msg, callback_message. simpl. by rewrite Hqs. }
  assert (prop msg "code" = VStr code) as Hpc by (unfold msg, callback_message; simpl; by rewrite Hqc).
  assert (truthy (VStr code) = true) as Htc by by destruct code.
  assert (prop msg "provider" = VStr (provider p) ∧ prop msg "state" = VStr (state p)) as [Hpp Hps]
    by (unfold msg, callback_message; simpl; by rewrite Hqs).
  set (t1 := set_handling (λ l, l ++ [waiting AwaitExchange]) (add_request (MkRequest i (provider p) (exchange_params msg)) (clearPendingOAuthBinding i t))).
  assert (handleMessage ORIGIN ev t = t1) as Hh.
  { unfold handleMessage. rewrite Hcb. simpl e_data. by rewrite Hpp, Hps, Hpc, Htc. }
  assert (∀ t2, tab_run ORIGIN t1 t2 → tab_inv t2) as I2.
  { intros t2 H2. apply (tab_inv_reachable ORIGIN). unfold tab_run in *. etrans; [exact Hrun|]. eapply rtc_l; [|exact H2]. exists (Receive ev). simpl. by rewrite Hh. }
  assert (∀ b m, page_ends (provider p) q b (result_message (provider p) (state p) b m)) as Hpage.
  { intros b m. pose proof (result_taken (provider p) q b m) as Hr. by rewrite Hqs in Hr. }
  exists msg, t1. eexists. split; [done|]. split; [by rewrite <- Hh|]. split; [simpl; by apply clear_current|].
  split; [simpl; rewrite clear_requests; unfold exchange_params; rewrite Hps, Hpc, Htc; done|].
  assert (posted t1 = posted t ∧ handling t1 = handling t ++ [waiting AwaitExchange]) as [H1 H2].
  { unfold t1, clearPendingOAuthBinding. by rewrite bool_decide_true. }
  split; [done|]. split; [done|]. split.
  - intros t2 k answer H%I2 Hk. destruct (exchange_settles answer _ k t2 H Hk eq_refl) as (t3 & H3 & Hr & Ha).
    exists t3. split; [done|]. split; [done|]. destruct (succeeds answer).
    + destruct Ha as (Hu & Hpo & _ & Hl). done.
    + destruct Ha as (Hu & Hd & m & Hpo). repeat split; try done. by eexists.
  - intros t2 k m H%I2 Hk. destruct (fetched_settles _ k m t2 H Hk eq_refl) as (t3 & H3 & Hr & _ & Hd & Hpo).
    exists t3. eexists. split; [done|]. split; [done|]. split; [done|]. by split.
Qed.
End Origin.

(** ** A binding *)

Definition demo_search : CallbackSearch := MkSearch (Some "c"%js) (Some "s1"%js) None None.

Lemma handshake_completes_witness : ∃ t1 t3 v, tab_run SITE demo_tab t3 ∧
  tab_event SITE (ExchangeAnswer_ 0 (Rejected VUndef None)) t1 = Some t3 ∧ posted t3 = posted t1 ++ [(0, v)] ∧
  page_ends SITE "github" demo_search false v.
Proof.
  destruct (pendings demo_tab !! 0) as [p|] eqn:Hp; [|vm_compute in Hp; discriminate Hp].
  destruct (popups demo_tab !! 0) as [w|] eqn:Hw; [|vm_compute in Hw; discriminate Hw].
  assert (state p = "s1"%js ∧ provider p = "github"%js) as [Hs Hpr] by (vm_compute in Hp; injection Hp as <-; split; reflexivity).
  destruct (handshake_completes SITE demo_tab 0 p w demo_search "c" None) as (_ & msg & t1 & rest & _ & H1 & _ & _ & _ & Hh & Ha & _).
  - exact demo_reached.
  - vm_compute. reflexivity.
  - exact Hp.
  - exact Hw.
  - rewrite Hs. discriminate.
  - rewrite Hs. reflexivity.
  - reflexivity.
  - discriminate.
  - destruct (Ha t1 0 (Rejected VUndef None) (rtc_refl _ _)) as (t3 & H3 & _ & _ & _ & v & Hv & Hpg).
    + rewrite Hh. reflexivity.
    + exists t1, t3, v. rewrite Hpr in Hpg. split; [|split; [exact H3|split; [exact Hv|exact Hpg]]].
      eapply rtc_l; [by eexists|]. eapply rtc_l; [by eexists|apply rtc_refl].
Defined.

Lemma page_never_stuck_witness :
  page_run SITE (mount_bind "github" demo_search (Some false)).1 (mount_bind "github" demo_search (Some false)).1 ∧
  ∃ k p1 p', page_event SITE DeadlineFires (mount_bind "github" demo_search (Some false)).1 = Some p1 ∧
    page_event SITE (CloserFires k) p1 = Some p' ∧ page_closed p' = true.
Proof.
  split; [apply rtc_refl|].
  destruct (page_never_stuck SITE "github" demo_search (mount_bind "github" demo_search (Some false)).1 (rtc_refl _ _)) as [[H|[H|H]] _].
  - discriminate H.
  - destruct H as (k & p' & H & _). vm_compute in H. discriminate H.
  - exact H.
Defined.
End OAuthHandshake.
