(* ===== verification/ParamOverride.v ===== *)
(** * Parameter overrides of a channel
    ([web/src/features/channels/components/dialogs/param-override-editor-dialog.tsx])

    The rules by which a channel rewrites requests are stored as JSON.  Here are
    the rules as the editor holds them, how they are read from and written to
    JSON, their validation, and the drafts behind two kinds of values.

    [nextLocalId] gives texts [po_<time>_<number>] with a number that is never
    used twice; an id is represented by that number, and functions that create
    ids take the next one and return the one after.  Reading a property of
    [null] throws, which is [Throw].  The message of a failed validation is its
    key and its line; no translation is empty.  [normalizeCondition] is
    [normalizeRuleCondition] here.  [toUpperCase] is compared with
    ASCII words only, which only ASCII letters can give. *)

From S2P Require Import Prelude JsString JsNumber JsValue.

Module ParamOverride.

(** ** Rules *)

Record ParamOverrideCondition := MkCondition {
  c_id : nat;
  c_path : jsstr;
  c_mode : jsstr;
  c_value_text : jsstr;
  c_invert : bool;
  c_pass_missing_key : bool;
}.

Record ParamOverrideOperation := MkOperation {
  op_id : nat;
  description : jsstr;
  path : jsstr;
  mode : jsstr;
  from : jsstr;
  to : jsstr;
  value_text : jsstr;
  keep_origin : bool;
  logic : jsstr;
  conditions : list ParamOverrideCondition;
}.

(** ** Modes *)

Definition OPERATION_MODE_OPTIONS : list (jsstr * jsstr) :=
  [("set"%js, "Set Field"%js); ("delete"%js, "Delete Field"%js); ("append"%js, "Append to End"%js);
   ("prepend"%js, "Prepend to Start"%js); ("copy"%js, "Copy Field"%js); ("move"%js, "Move Field"%js);
   ("replace"%js, "String Replace"%js); ("regex_replace"%js, "Regex Replace"%js); ("trim_prefix"%js, "Trim Prefix"%js);
   ("trim_suffix"%js, "Trim Suffix"%js); ("ensure_prefix"%js, "Ensure Prefix"%js); ("ensure_suffix"%js, "Ensure Suffix"%js);
   ("trim_space"%js, "Trim Space"%js); ("to_lower"%js, "To Lowercase"%js); ("to_upper"%js, "To Uppercase"%js);
   ("return_error"%js, "Return Custom Error"%js); ("prune_objects"%js, "Prune Object Items"%js);
   ("pass_headers"%js, "Pass Through Headers"%js); ("sync_fields"%js, "Sync Fields"%js);
   ("set_header"%js, "Set Request Header"%js); ("delete_header"%js, "Delete Request Header"%js);
   ("copy_header"%js, "Copy Request Header"%js); ("move_header"%js, "Move Request Header"%js)].
Definition OPERATION_MODE_VALUES : list jsstr := OPERATION_MODE_OPTIONS.*1.
Definition OPERATION_MODE_LABEL_MAP (m : jsstr) : option jsstr := snd <$> List.find (λ o, str_eqb o.1 m) OPERATION_MODE_OPTIONS.

Definition CONDITION_MODE_VALUES : list jsstr :=
  ["full"; "prefix"; "suffix"; "contains"; "gt"; "gte"; "lt"; "lte"]%js.

Record ModeMeta := MkMeta {
  m_path : bool;
  m_pathOptional : bool;
  m_value : bool;
  m_from : bool;
  m_to : bool;
  m_keepOrigin : bool;
  m_pathAlias : bool;
}.

Definition meta_path : ModeMeta := MkMeta true false false false false false false.
Definition meta_path_value : ModeMeta := MkMeta true false true false false false false.
Definition meta_set : ModeMeta := MkMeta true false true false false true false.
Definition meta_from_to : ModeMeta := MkMeta false false false true true false false.
Definition meta_replace : ModeMeta := MkMeta true false false true false false false.
Definition meta_header : ModeMeta := MkMeta false false false true true true true.

Definition MODE_META : list (jsstr * ModeMeta) :=
  [("delete"%js, meta_path); ("set"%js, meta_set); ("append"%js, meta_set); ("prepend"%js, meta_set);
   ("copy"%js, meta_from_to); ("move"%js, meta_from_to); ("replace"%js, meta_replace); ("regex_replace"%js, meta_replace);
   ("trim_prefix"%js, meta_path_value); ("trim_suffix"%js, meta_path_value); ("ensure_prefix"%js, meta_path_value);
   ("ensure_suffix"%js, meta_path_value); ("trim_space"%js, meta_path); ("to_lower"%js, meta_path); ("to_upper"%js, meta_path);
   ("return_error"%js, MkMeta false false true false false false false); ("prune_objects"%js, MkMeta false true true false false false false);
   ("pass_headers"%js, MkMeta false false true false false true false); ("sync_fields"%js, meta_from_to);
   ("set_header"%js, meta_set); ("delete_header"%js, meta_path); ("copy_header"%js, meta_header); ("move_header"%js, meta_header)].

(** [MODE_META[mode] || MODE_META.set] *)
Definition meta_of (m : jsstr) : ModeMeta := default meta_set (snd <$> List.find (λ o, str_eqb o.1 m) MODE_META).

Definition VALUE_REQUIRED_MODES : list jsstr :=
  ["trim_prefix"; "trim_suffix"; "ensure_prefix"; "ensure_suffix"; "set_header"; "return_error"; "prune_objects"; "pass_headers"]%js.
Definition FROM_REQUIRED_MODES : list jsstr :=
  ["copy"; "move"; "replace"; "regex_replace"; "copy_header"; "move_header"; "sync_fields"]%js.
Definition TO_REQUIRED_MODES : list jsstr := ["copy"; "move"; "copy_header"; "move_header"; "sync_fields"]%js.

(** ** Values as text *)

Definition toValueText (v : value) : jsstr :=
  match v with
  | VUndef => []
  | VStr s => s
  | _ => default [] (JSON_stringify v)
  end.

Definition parseLooseValue (valueText : jsstr) : value :=
  let raw := trim valueText in
  if negb (nonempty raw) then VStr [] else default (VStr raw) (JSON_parse raw).

Definition verifyJSON (t : jsstr) : bool := match JSON_parse t with Some _ => true | None => false end.

(** ** Reading rules *)

Definition string_member (v : value) (k : jsstr) : jsstr := match prop v k with VStr s => s | _ => [] end.
Definition true_member (v : value) (k : jsstr) : bool := match prop v k with VBool b => b | _ => false end.
Definition known_mode (modes : list jsstr) (d : jsstr) (v : value) : jsstr :=
  match v with VStr m => if set_has modes m then m else d | _ => d end.

Definition upper_ascii (c : N) : N := if ((97 <=? c) && (c <=? 122))%N then (c - 32)%N else c.
(** [String(v || d).toUpperCase() === w] *)
Definition upper_is (v : value) (d w : jsstr) : bool :=
  str_eqb (upper_ascii <$> to_string (if truthy v then v else VStr d)) w.

Definition normalizeRuleCondition (condition : value) (n : nat) : exc (ParamOverrideCondition * nat) :=
  match condition with
  | VNull => Throw
  | _ =>
    Ret (MkCondition n (string_member condition "path") (known_mode CONDITION_MODE_VALUES "full" (prop condition "mode"))
           (toValueText (prop condition "value")) (true_member condition "invert") (true_member condition "pass_missing_key"),
         S n)
  end.

Definition createDefaultCondition (n : nat) : ParamOverrideCondition * nat := (MkCondition n [] "full" [] false false, S n).

(** [vs.map(f)] with a function that takes numbers. *)
Fixpoint map_fresh {A} (f : value → nat → exc (A * nat)) (vs : list value) (n : nat) : exc (list A * nat) :=
  match vs with
  | [] => Ret ([], n)
  | v :: vs' =>
    match f v n with
    | Ret (a, n') => match map_fresh f vs' n' with Ret (l, n'') => Ret (a :: l, n'') | Throw => Throw end
    | Throw => Throw
    end
  end.

Definition normalizeOperation (operation : value) (n : nat) : exc (ParamOverrideOperation * nat) :=
  match operation with
  | VNull => Throw
  | _ =>
    match (match prop operation "conditions" with VArr cs => map_fresh normalizeRuleCondition cs (S n) | _ => Ret ([], S n) end) with
    | Throw => Throw
    | Ret (cs, n') =>
      Ret (MkOperation n (string_member operation "description") (string_member operation "path")
             (known_mode OPERATION_MODE_VALUES "set" (prop operation "mode"))
             (string_member operation "from") (string_member operation "to") (toValueText (prop operation "value"))
             (true_member operation "keep_origin")
             (if upper_is (prop operation "logic") "OR" "AND" then "AND" else "OR") cs, n')
    end
  end.

Definition createDefaultOperation (n : nat) : ParamOverrideOperation * nat :=
  (MkOperation n [] [] "set" [] [] [] false "OR" [], S n).

(** ** Order *)

Fixpoint find_index {A} (P : A → bool) (l : list A) : option nat :=
  match l with [] => None | x :: l' => if P x then Some 0 else S <$> find_index P l' end.

(** [position] is [true] for ['after']. *)
Definition reorderOperations (ops : list ParamOverrideOperation) (sourceId targetId : nat) (position : bool) :
    list ParamOverrideOperation :=
  if Nat.eqb sourceId targetId then ops
  else match find_index (λ o, Nat.eqb (op_id o) sourceId) ops with
       | None => ops
       | Some i =>
         match ops !! i with
         | None => ops
         | Some moved =>
           let next := take i ops ++ drop (S i) ops in
           match find_index (λ o, Nat.eqb (op_id o) targetId) next with
           | None => ops
           | Some j => let k := if position then S j else j in take k next ++ moved :: drop k next
           end
         end
       end.

(** ** Writing rules *)

Definition isOperationBlank (o : ParamOverrideOperation) : bool :=
  let hasCondition := existsb (λ c, nonempty (trim (c_path c)) || nonempty (trim (c_value_text c))
                                    || negb (str_eqb (c_mode c) "full") || c_invert c || c_pass_missing_key c) (conditions o) in
  str_eqb (mode o) "set" && negb (nonempty (trim (path o))) && negb (nonempty (trim (from o))) && negb (nonempty (trim (to o)))
  && negb (nonempty (trim (value_text o))) && negb (keep_origin o) && negb hasCondition.

(** [x || d] on texts *)
Definition text_else (x d : jsstr) : jsstr := if nonempty x then x else d.

(** [if (b) p.k = v] *)
Definition set_if (b : bool) (k : jsstr) (v : value) (p : obj) : obj := if b then obj_set p k v else p.

Definition buildConditionPayload (c : ParamOverrideCondition) : option value :=
  let p := trim (c_path c) in
  if negb (nonempty p) then None
  else
    let payload := [("path"%js, VStr p); ("mode"%js, VStr (text_else (c_mode c) "full")); ("value"%js, parseLooseValue (c_value_text c))] in
    Some (VObj (set_if (c_pass_missing_key c) "pass_missing_key" (VBool true) (set_if (c_invert c) "invert" (VBool true) payload))).

(** The members before the conditions. *)
Definition operation_fields (o : ParamOverrideOperation) : obj :=
  let m := text_else (mode o) "set" in
  let meta := meta_of m in
  let descriptionValue := trim (description o) in
  let pathValue := trim (path o) in
  let fromValue := trim (from o) in
  let toValue := trim (to o) in
  let p := [("mode"%js, VStr m)] in
  let p := set_if (nonempty descriptionValue) "description" (VStr descriptionValue) p in
  let p := set_if (m_path meta) "path" (VStr pathValue) p in
  let p := set_if (m_pathOptional meta && nonempty pathValue) "path" (VStr pathValue) p in
  let p := set_if (m_value meta) "value" (parseLooseValue (value_text o)) p in
  let p := set_if (m_keepOrigin meta && keep_origin o) "keep_origin" (VBool true) p in
  let p := set_if (m_from meta) "from" (VStr fromValue) p in
  let p := set_if (negb (m_to meta) && nonempty (trim (to o))) "to" (VStr toValue) p in
  let p := set_if (m_to meta) "to" (VStr toValue) p in
  let p := set_if (m_pathAlias meta && negb (truthy (prop (VObj p) "from")) && nonempty pathValue) "from" (VStr pathValue) p in
  set_if (m_pathAlias meta && negb (truthy (prop (VObj p) "to")) && nonempty pathValue) "to" (VStr pathValue) p.

Definition buildOperationPayload (o : ParamOverrideOperation) : value :=
  let p := operation_fields o in
  match omap buildConditionPayload (conditions o) with
  | [] => VObj p
  | cs => VObj (obj_set (obj_set p "conditions" (VArr cs)) "logic" (VStr (if str_eqb (logic o) "AND" then "AND" else "OR")))
  end.

(** ** Headers to pass on *)

Definition header_name (v : value) : jsstr := trim (to_string (or_empty v)).

Definition parsePassHeaderNames (v : value) : list jsstr :=
  match v with
  | VArr vs => List.filter nonempty (header_name <$> vs)
  | VObj _ =>
    match prop v "headers" with
    | VArr vs => List.filter nonempty (header_name <$> vs)
    | _ => match prop v "header" with
           | VUndef => []
           | h => let single := header_name h in if nonempty single then [single] else []
           end
    end
  | VStr s => List.filter nonempty (trim <$> split_char 44 s)
  | _ => []
  end.

(** ** Validation *)

(** The first complaint about a rule. *)
Definition operation_error (o : ParamOverrideOperation) : option jsstr :=
  let m := text_else (mode o) "set" in
  let meta := meta_of m in
  let pathValue := trim (path o) in
  let raw := trim (value_text o) in
  let aliased := m_pathAlias meta && nonempty pathValue in
  if m_path meta && negb (nonempty pathValue) then Some "Rule {{line}} is missing target path"%js
  else if set_has FROM_REQUIRED_MODES m && negb (nonempty (trim (from o))) && negb aliased then Some "Rule {{line}} is missing source field"%js
  else if set_has TO_REQUIRED_MODES m && negb (nonempty (trim (to o))) && negb aliased then Some "Rule {{line}} is missing target field"%js
  else if set_has VALUE_REQUIRED_MODES m && negb (nonempty raw) then Some "Rule {{line}} is missing value"%js
  else if str_eqb m "return_error" &&
          match JSON_parse raw with
          | Some (VObj fs) => negb (nonempty (trim (to_string (let v := prop (VObj fs) "message" in if truthy v then v else VStr []))))
          | _ => false
          end
  then Some "Rule {{line}} return_error requires a message field"%js
  else if str_eqb m "pass_headers" && match parsePassHeaderNames (parseLooseValue raw) with [] => true | _ => false end
  then Some "Rule {{line}} pass_headers format is invalid"%js
  else None.

Fixpoint validate_from (line : nat) (ops : list ParamOverrideOperation) : option (jsstr * nat) :=
  match ops with
  | [] => None
  | o :: ops' => match operation_error o with Some e => Some (e, line) | None => validate_from (S line) ops' end
  end.
Definition validateOperations (ops : list ParamOverrideOperation) : option (jsstr * nat) := validate_from 1 ops.

(** [inl] is the message of the exception. *)
Definition buildOperationsJson (ops : list ParamOverrideOperation) (validate : bool) : (jsstr * nat) + jsstr :=
  let filteredOps := List.filter (λ o, negb (isOperationBlank o)) ops in
  match filteredOps with
  | [] => inr []
  | _ =>
    match (if validate then validateOperations filteredOps else None) with
    | Some e => inl e
    | None => inr (default [] (JSON_stringify2 (VObj [("operations"%js, VArr (buildOperationPayload <$> filteredOps))])))
    end
  end.

(** ** Opening a stored text *)

Record EditorState := MkEditorState {
  s_json : bool;
  s_legacy : bool;
  s_legacyValue : jsstr;
  s_operations : list ParamOverrideOperation;
  s_jsonText : jsstr;
  s_jsonError : jsstr;
}.

(** [null], arrays and the rest are no configuration. *)
Definition config_operations (parsed : value) : option (option (list value)) :=
  match parsed with
  | VObj _ => Some (match prop parsed "operations" with VArr vs => Some vs | _ => None end)
  | _ => None
  end.

Definition normalize_operations (vs : list value) (n : nat) : exc (list ParamOverrideOperation * nat) :=
  match vs with
  | [] => let '(o, n') := createDefaultOperation n in Ret ([o], n')
  | _ => map_fresh normalizeOperation vs n
  end.

Definition parseInitialState (rawValue : jsstr) (n : nat) : exc (EditorState * nat) :=
  let trimmed := trim rawValue in
  let '(o, n1) := createDefaultOperation n in
  if negb (nonempty trimmed) then Ret (MkEditorState false false [] [o] [] [], n1)
  else match JSON_parse trimmed with
       | None => Ret (MkEditorState true false [] [o] rawValue "Invalid JSON format", n1)
       | Some parsed =>
         let pretty := default [] (JSON_stringify2 parsed) in
         match config_operations parsed with
         | Some (Some vs) =>
           match normalize_operations vs n with
           | Ret (ops, n') => Ret (MkEditorState false false [] ops pretty [], n')
           | Throw => Throw
           end
         | Some None => Ret (MkEditorState false true pretty [o] pretty [], n1)
         | None => Ret (MkEditorState true false [] [o] pretty [], n1)
         end
       end.

(** ** Endpoints of a synchronisation *)

Definition parseSyncTargetSpec (spec : jsstr) : bool * jsstr :=
  let raw := trim spec in
  if negb (nonempty raw) then (false, [])
  else match indexOf raw ":" 0 with
       | None => (false, raw)
       | Some i => (str_eqb (toLowerCase (trim (take i raw))) "header", trim (drop (S i) raw))
       end.

(** [header] is whether the type is ['header']. *)
Definition buildSyncTargetSpec (header : bool) (k : jsstr) : jsstr :=
  let normalizedKey := trim k in
  if negb (nonempty normalizedKey) then [] else (if header then "header:"%js else "json:"%js) ++ normalizedKey.

(** ** The draft of an error *)

Record ReturnErrorDraft := MkErrorDraft {
  d_message : jsstr;
  d_statusCode : number;
  d_code : jsstr;
  d_type : jsstr;
  d_skipRetry : bool;
  d_simpleMode : bool;
}.

Definition valid_status (x : number) : bool := is_integer x && num_leb (of_Z 100) x && num_leb x (of_Z 599).

(** [String(a || b || '').trim()] *)
Definition first_text (a b : value) : jsstr := trim (to_string (if truthy a then a else if truthy b then b else VStr [])).

(** [Number(v)] *)
Definition status_number (v : value) : number :=
  match v with
  | VUndef => NaN
  | VNull => of_Z 0
  | VBool b => if b then of_Z 1 else of_Z 0
  | VNum x => x
  | _ => Number_of_string (to_string v)
  end.

Definition parseReturnErrorDraft (valueText : jsstr) : ReturnErrorDraft :=
  let raw := trim valueText in
  if negb (nonempty raw) then MkErrorDraft [] (of_Z 400) [] [] true true
  else match JSON_parse raw with
       | Some (VObj fs) =>
         let parsed := VObj fs in
         let statusRaw := match prop parsed "status_code" with VUndef => prop parsed "status" | v => v end in
         let statusValue := status_number statusRaw in
         MkErrorDraft (first_text (prop parsed "message") (prop parsed "msg"))
           (if valid_status statusValue then statusValue else of_Z 400)
           (first_text (prop parsed "code") VUndef) (first_text (prop parsed "type") VUndef)
           (match prop parsed "skip_retry" with VBool false => false | _ => true end) false
       | _ => MkErrorDraft raw (of_Z 400) [] [] true true
       end.

Definition buildReturnErrorValueText (d : ReturnErrorDraft) : jsstr :=
  let message := trim (d_message d) in
  if d_simpleMode d then message
  else
    let code := trim (d_code d) in
    let type := trim (d_type d) in
    let p := [("message"%js, VStr message);
              ("status_code"%js, VNum (if valid_status (d_statusCode d) then d_statusCode d else of_Z 400))] in
    let p := set_if (nonempty code) "code" (VStr code) p in
    let p := set_if (nonempty type) "type" (VStr type) p in
    let p := set_if (negb (d_skipRetry d)) "skip_retry" (VBool false) p in
    default [] (JSON_stringify (VObj p)).

(** ** The draft of pruned objects *)

Record PruneObjectsDraft := MkPruneDraft {
  p_simpleMode : bool;
  p_typeText : jsstr;
  p_logic : jsstr;
  p_recursive : bool;
  p_rules : list ParamOverrideCondition;
}.

(** The source has the same body twice. *)
Definition normalizePruneRule := normalizeRuleCondition.

(** One rule for every entry of an object. *)
Fixpoint entry_rules (fs : obj) (n : nat) : list ParamOverrideCondition * nat :=
  match fs with
  | [] => ([], n)
  | (k, v) :: fs' =>
    let '(l, n') := entry_rules fs' (S n) in
    (MkCondition n k "full" (toValueText v) false false :: l, n')
  end.

(** The elements that are objects. *)
Fixpoint item_rules (vs : list value) (n : nat) : list ParamOverrideCondition * nat :=
  match vs with
  | [] => ([], n)
  | v :: vs' =>
    if truthy v && is_object v
    then match normalizePruneRule v n with
         | Ret (r, n1) => let '(l, n') := item_rules vs' n1 in (r :: l, n')
         | Throw => item_rules vs' n
         end
    else item_rules vs' n
  end.

Definition parsePruneObjectsDraft (valueText : jsstr) (n : nat) : PruneObjectsDraft * nat :=
  let raw := trim valueText in
  let simple t := MkPruneDraft true t "AND" true [] in
  if negb (nonempty raw) then (simple [], n)
  else match JSON_parse raw with
       | None => (simple raw, n)
       | Some (VStr s) => (simple (trim s), n)
       | Some (VObj fs) =>
         let parsed := VObj fs in
         let '(r1, n1) := match prop parsed "where" with VObj ws => entry_rules ws n | _ => ([], n) end in
         let '(r2, n2) := match prop parsed "conditions" with
                          | VArr vs => item_rules vs n1
                          | VObj ws => entry_rules ws n1
                          | _ => ([], n1)
                          end in
         let given k := negb (is_undefined (prop parsed k)) in
         (MkPruneDraft (negb (given "logic"%js || given "recursive"%js || given "where"%js || given "conditions"%js))
            (match prop parsed "type" with VUndef => [] | v => trim (to_string v) end)
            (if upper_is (prop parsed "logic") "AND" "OR" then "OR" else "AND")
            (match prop parsed "recursive" with VBool false => false | _ => true end) (r1 ++ r2), n2)
       | Some v => (simple (trim (to_string (or_empty v))), n)
       end.

Definition prune_condition (r : ParamOverrideCondition) : value :=
  let p := [("path"%js, VStr (trim (c_path r)));
            ("mode"%js, VStr (if set_has CONDITION_MODE_VALUES (c_mode r) then c_mode r else "full"))] in
  let valueRaw := trim (c_value_text r) in
  let p := set_if (nonempty valueRaw) "value" (parseLooseValue valueRaw) p in
  let p := set_if (c_invert r) "invert" (VBool true) p in
  VObj (set_if (c_pass_missing_key r) "pass_missing_key" (VBool true) p).

Definition buildPruneObjectsValueText (d : PruneObjectsDraft) : jsstr :=
  let typeText := trim (p_typeText d) in
  if p_simpleMode d then typeText
  else
    let p := set_if (nonempty typeText) "type" (VStr typeText) [] in
    let p := set_if (upper_is (VStr (p_logic d)) "AND" "OR") "logic" (VStr "OR") p in
    let p := set_if (negb (p_recursive d)) "recursive" (VBool false) p in
    let cs := prune_condition <$> List.filter (λ r, nonempty (trim (c_path r))) (p_rules d) in
    let p := match cs with [] => p | _ => obj_set p "conditions" (VArr cs) end in
    if negb (nonempty typeText) && match cs with [] => true | _ => false end
    then default [] (JSON_stringify (VObj [("logic"%js, VStr "AND")]))
    else default [] (JSON_stringify (VObj p)).

(** ** Shown texts *)

Definition getOperationSummary (o : ParamOverrideOperation) (index : nat) : jsstr :=
  let m := text_else (mode o) "set" in
  let label := default m (OPERATION_MODE_LABEL_MAP m) in
  let from_to := text_else (trim (from o)) (text_else (trim (to o)) "-") in
  Z_to_string (Z.of_nat index + 1) ++ ". "%js ++ label ++ " · "%js ++
  (if str_eqb m "sync_fields" then from_to else text_else (trim (path o)) from_to).

End ParamOverride.
