(* ===== verification/ParamEditor.v ===== *)
(** * The editor of parameter overrides
    ([web/src/features/channels/components/dialogs/param-override-editor-dialog.tsx])

    The dialog as a state machine over the rules of [ParamOverride].  A callback
    sees the state of the last render, which every event follows; after each
    event the effect that keeps the selection valid runs.  Whether React runs
    an updater at once is a parameter where the code depends on it ([eager]).
    What the pointer does is given by its outcome.  An id of [''] is [None]. *)

From S2P Require Import Prelude JsString JsNumber JsValue ParamOverride.

Module ParamEditor.
Import ParamOverride.

(** ** Templates *)

Definition LEGACY_TEMPLATE : value := VObj [("temperature"%js, VNum (of_Z 0)); ("max_tokens"%js, VNum (of_Z 1000))].

Definition template (ops : list value) : value := VObj [("operations"%js, VArr ops)].
Definition condition_template (p m v : jsstr) : value := VObj [("path"%js, VStr p); ("mode"%js, VStr m); ("value"%js, VStr v)].

Definition OPERATION_TEMPLATE : value :=
  template [VObj [("description"%js, VStr "Set default temperature for openai/* models."); ("path"%js, VStr "temperature");
                  ("mode"%js, VStr "set"); ("value"%js, VNum (Number_of_string "0.7"));
                  ("conditions"%js, VArr [condition_template "model" "prefix" "openai/"]); ("logic"%js, VStr "AND")]].

Definition HEADER_PASSTHROUGH_TEMPLATE : value :=
  template [VObj [("description"%js, VStr "Pass through X-Request-Id header to upstream."); ("mode"%js, VStr "pass_headers");
                  ("value"%js, VArr [VStr "X-Request-Id"]); ("keep_origin"%js, VBool true)]].

Definition GEMINI_IMAGE_4K_TEMPLATE : value :=
  template [VObj [("description"%js, VStr "Set imageSize to 4K when model contains gemini/image and ends with 4k."); ("mode"%js, VStr "set");
                  ("path"%js, VStr "generationConfig.imageConfig.imageSize"); ("value"%js, VStr "4K");
                  ("conditions"%js, VArr [condition_template "original_model" "contains" "gemini";
                                          condition_template "original_model" "contains" "image";
                                          condition_template "original_model" "suffix" "4k"]);
                  ("logic"%js, VStr "AND")]].

Definition CODEX_CLI_HEADER_PASSTHROUGH_HEADERS : list jsstr :=
  ["Originator"; "Session_id"; "Thread_id"; "Session-Id"; "Thread-Id"; "X-Client-Request-Id"; "User-Agent"; "X-Codex-Beta-Features";
   "X-Codex-Turn-State"; "X-Codex-Turn-Metadata"; "X-Codex-Window-Id"; "X-Codex-Parent-Thread-Id"; "X-OpenAI-Subagent";
   "X-OpenAI-Memgen-Request"; "X-ResponsesAPI-Include-Timing-Metrics"; "X-OpenAI-Internal-Codex-Responses-Lite"]%js.

Definition CLAUDE_CLI_HEADER_PASSTHROUGH_HEADERS : list jsstr :=
  ["X-Stainless-Arch"; "X-Stainless-Lang"; "X-Stainless-Os"; "X-Stainless-Package-Version"; "X-Stainless-Retry-Count";
   "X-Stainless-Runtime"; "X-Stainless-Runtime-Version"; "X-Stainless-Timeout"; "User-Agent"; "X-App"; "Anthropic-Beta";
   "Anthropic-Dangerous-Direct-Browser-Access"; "Anthropic-Version"]%js.

Definition buildPassHeadersTemplate (headers : list jsstr) : value :=
  template [VObj [("mode"%js, VStr "pass_headers"); ("value"%js, VArr (VStr <$> headers)); ("keep_origin"%js, VBool true)]].

(** The tokens that are kept under a name; the others are dropped. *)
Definition bedrock_tokens : list (jsstr * option jsstr) :=
  [("advanced-tool-use-2025-11-20"%js, Some "tool-search-tool-2025-10-19"%js); ("bash_20241022"%js, None); ("bash_20250124"%js, None);
   ("code-execution-2025-08-25"%js, None); ("compact-2026-01-12"%js, Some "compact-2026-01-12"%js);
   ("computer-use-2025-01-24"%js, Some "computer-use-2025-01-24"%js); ("computer-use-2025-11-24"%js, Some "computer-use-2025-11-24"%js);
   ("context-1m-2025-08-07"%js, Some "context-1m-2025-08-07"%js);
   ("context-management-2025-06-27"%js, Some "context-management-2025-06-27"%js); ("effort-2025-11-24"%js, None);
   ("fast-mode-2026-02-01"%js, None); ("files-api-2025-04-14"%js, None); ("fine-grained-tool-streaming-2025-05-14"%js, None);
   ("interleaved-thinking-2025-05-14"%js, Some "interleaved-thinking-2025-05-14"%js); ("mcp-client-2025-11-20"%js, None);
   ("mcp-client-2025-04-04"%js, None); ("mcp-servers-2025-12-04"%js, None); ("output-128k-2025-02-19"%js, None);
   ("structured-output-2024-03-01"%js, None); ("prompt-caching-scope-2026-01-05"%js, None); ("skills-2025-10-02"%js, None);
   ("structured-outputs-2025-11-13"%js, None); ("text_editor_20241022"%js, None); ("text_editor_20250124"%js, None);
   ("token-efficient-tools-2025-02-19"%js, None); ("tool-search-tool-2025-10-19"%js, Some "tool-search-tool-2025-10-19"%js);
   ("web-fetch-2025-09-10"%js, None); ("web-search-2025-03-05"%js, None); ("oauth-2025-04-20"%js, None)].

Definition AWS_BEDROCK_ANTHROPIC_COMPAT_TEMPLATE : value :=
  template [VObj [("description"%js, VStr "Normalize anthropic-beta header tokens for Bedrock compatibility."); ("mode"%js, VStr "set_header");
                  ("path"%js, VStr "anthropic-beta");
                  ("value"%js, VObj ((λ p, (p.1, from_option VStr VNull p.2)) <$> bedrock_tokens))];
            VObj [("description"%js, VStr "Remove all tools[*].custom.input_examples before upstream relay."); ("mode"%js, VStr "delete");
                  ("path"%js, VStr "tools.*.custom.input_examples")]].

(** The presets: whether they are of the legacy kind, and the payload. *)
Definition TEMPLATE_PRESET_CONFIG : list (jsstr * (bool * value)) :=
  [("operations_default"%js, (false, OPERATION_TEMPLATE)); ("legacy_default"%js, (true, LEGACY_TEMPLATE));
   ("pass_headers_auth"%js, (false, HEADER_PASSTHROUGH_TEMPLATE)); ("gemini_image_4k"%js, (false, GEMINI_IMAGE_4K_TEMPLATE));
   ("claude_cli_headers_passthrough"%js, (false, buildPassHeadersTemplate CLAUDE_CLI_HEADER_PASSTHROUGH_HEADERS));
   ("codex_cli_headers_passthrough"%js, (false, buildPassHeadersTemplate CODEX_CLI_HEADER_PASSTHROUGH_HEADERS));
   ("aws_bedrock_anthropic_beta_override"%js, (false, AWS_BEDROCK_ANTHROPIC_COMPAT_TEMPLATE))].
Definition preset_of (k : jsstr) : bool * value :=
  default (false, OPERATION_TEMPLATE) (snd <$> List.find (λ p, str_eqb p.1 k) TEMPLATE_PRESET_CONFIG).

(** ** The state *)

(** Messages: the key of a text, with a line where it has one. *)
Abbreviation message := (jsstr * nat)%type.

Record Editor := MkEditor {
  e_open : bool;
  e_json : bool;
  e_legacy : bool;
  e_legacyValue : jsstr;
  e_ops : list ParamOverrideOperation;
  e_jsonText : jsstr;
  e_jsonError : option message;
  e_selected : option nat;
  e_expanded : list (nat * bool);
  e_drag : option nat;
  e_over : option (nat * bool);
  e_preset : jsstr;
  e_seed : nat;
  e_saved : list jsstr;
  e_toasts : list message;
}.

Definition with_ops f e := MkEditor (e_open e) (e_json e) (e_legacy e) (e_legacyValue e) (f (e_ops e)) (e_jsonText e) (e_jsonError e) (e_selected e) (e_expanded e) (e_drag e) (e_over e) (e_preset e) (e_seed e) (e_saved e) (e_toasts e).
Definition with_view json legacy lv e := MkEditor (e_open e) json legacy lv (e_ops e) (e_jsonText e) (e_jsonError e) (e_selected e) (e_expanded e) (e_drag e) (e_over e) (e_preset e) (e_seed e) (e_saved e) (e_toasts e).
Definition with_json t er e := MkEditor (e_open e) (e_json e) (e_legacy e) (e_legacyValue e) (e_ops e) t er (e_selected e) (e_expanded e) (e_drag e) (e_over e) (e_preset e) (e_seed e) (e_saved e) (e_toasts e).
Definition with_selected s e := MkEditor (e_open e) (e_json e) (e_legacy e) (e_legacyValue e) (e_ops e) (e_jsonText e) (e_jsonError e) s (e_expanded e) (e_drag e) (e_over e) (e_preset e) (e_seed e) (e_saved e) (e_toasts e).
Definition with_expanded x e := MkEditor (e_open e) (e_json e) (e_legacy e) (e_legacyValue e) (e_ops e) (e_jsonText e) (e_jsonError e) (e_selected e) x (e_drag e) (e_over e) (e_preset e) (e_seed e) (e_saved e) (e_toasts e).
Definition with_drag d o e := MkEditor (e_open e) (e_json e) (e_legacy e) (e_legacyValue e) (e_ops e) (e_jsonText e) (e_jsonError e) (e_selected e) (e_expanded e) d o (e_preset e) (e_seed e) (e_saved e) (e_toasts e).
Definition with_preset k e := MkEditor (e_open e) (e_json e) (e_legacy e) (e_legacyValue e) (e_ops e) (e_jsonText e) (e_jsonError e) (e_selected e) (e_expanded e) (e_drag e) (e_over e) k (e_seed e) (e_saved e) (e_toasts e).
Definition with_seed n e := MkEditor (e_open e) (e_json e) (e_legacy e) (e_legacyValue e) (e_ops e) (e_jsonText e) (e_jsonError e) (e_selected e) (e_expanded e) (e_drag e) (e_over e) (e_preset e) n (e_saved e) (e_toasts e).
Definition with_saved t e := MkEditor false (e_json e) (e_legacy e) (e_legacyValue e) (e_ops e) (e_jsonText e) (e_jsonError e) (e_selected e) (e_expanded e) (e_drag e) (e_over e) (e_preset e) (e_seed e) (e_saved e ++ [t]) (e_toasts e).
Definition with_toast m e := MkEditor (e_open e) (e_json e) (e_legacy e) (e_legacyValue e) (e_ops e) (e_jsonText e) (e_jsonError e) (e_selected e) (e_expanded e) (e_drag e) (e_over e) (e_preset e) (e_seed e) (e_saved e) (e_toasts e ++ [m]).

(** The dialog before it is opened. *)
Definition closed_editor : Editor :=
  let '(o, n) := createDefaultOperation 0 in
  MkEditor false false false [] [o] [] None None [] None None "operations_default" n [] [].

(** The effect of opening; an exception of it is [Throw]. *)
Definition open_dialog (stored : jsstr) (e : Editor) : exc Editor :=
  match parseInitialState stored (e_seed e) with
  | Throw => Throw
  | Ret (s, n) =>
    Ret (MkEditor true (s_json s) (s_legacy s) (s_legacyValue s) (s_operations s) (s_jsonText s)
           (if nonempty (s_jsonError s) then Some (s_jsonError s, 0) else None)
           (op_id <$> head (s_operations s)) [] None None
           (if s_legacy s then "legacy_default" else "operations_default") n (e_saved e) (e_toasts e))
  end.

(** The effect that keeps the selection valid. *)
Definition keep_selected (e : Editor) : Editor :=
  match e_ops e with
  | [] => with_selected None e
  | o :: _ => if existsb (λ o, bool_decide (e_selected e = Some (op_id o))) (e_ops e) then e else with_selected (Some (op_id o)) e
  end.

(** ** Changes of rules *)

Inductive Patch :=
  | PDescription (s : jsstr) | PPath (s : jsstr) | PMode (s : jsstr) | PFrom (s : jsstr) | PTo (s : jsstr)
  | PFromTo (s t : jsstr) | PValueText (s : jsstr) | PKeepOrigin (b : bool) | PLogic (s : jsstr).

Definition apply_patch (p : Patch) (o : ParamOverrideOperation) : ParamOverrideOperation :=
  let '(MkOperation i d pa m f t v k l cs) := o in
  match p with
  | PDescription s => MkOperation i s pa m f t v k l cs
  | PPath s => MkOperation i d s m f t v k l cs
  | PMode s => MkOperation i d pa s f t v k l cs
  | PFrom s => MkOperation i d pa m s t v k l cs
  | PTo s => MkOperation i d pa m f s v k l cs
  | PFromTo s s' => MkOperation i d pa m s s' v k l cs
  | PValueText s => MkOperation i d pa m f t s k l cs
  | PKeepOrigin b => MkOperation i d pa m f t v b l cs
  | PLogic s => MkOperation i d pa m f t v k s cs
  end.

Inductive CPatch := CPath (s : jsstr) | CMode (s : jsstr) | CValueText (s : jsstr) | CInvert (b : bool) | CPassMissingKey (b : bool).

Definition apply_cpatch (p : CPatch) (c : ParamOverrideCondition) : ParamOverrideCondition :=
  let '(MkCondition i pa m v inv pm) := c in
  match p with
  | CPath s => MkCondition i s m v inv pm
  | CMode s => MkCondition i pa s v inv pm
  | CValueText s => MkCondition i pa m s inv pm
  | CInvert b => MkCondition i pa m v b pm
  | CPassMissingKey b => MkCondition i pa m v inv b
  end.

Definition with_conditions f (o : ParamOverrideOperation) : ParamOverrideOperation :=
  MkOperation (op_id o) (description o) (path o) (mode o) (from o) (to o) (value_text o) (keep_origin o) (logic o) (f (conditions o)).

(** [prev.map((o) => (o.id === id ? f(o) : o))] *)
Definition update_op (i : nat) (f : ParamOverrideOperation → ParamOverrideOperation) (e : Editor) : Editor :=
  with_ops (fmap (λ o, if Nat.eqb (op_id o) i then f o else o)) e.

Definition updateOperation (i : nat) (p : Patch) : Editor → Editor := update_op i (apply_patch p).

Definition addOperation (e : Editor) : Editor :=
  let '(created, n) := createDefaultOperation (e_seed e) in
  with_seed n (with_selected (Some (op_id created)) (with_ops (λ l, l ++ [created]) e)).

(** The object [duplicateOperation] normalises. *)
Definition condition_copy (c : ParamOverrideCondition) : value :=
  VObj [("path"%js, VStr (c_path c)); ("mode"%js, VStr (c_mode c)); ("value"%js, parseLooseValue (c_value_text c));
        ("invert"%js, VBool (c_invert c)); ("pass_missing_key"%js, VBool (c_pass_missing_key c))].
Definition operation_copy (o : ParamOverrideOperation) : value :=
  VObj [("description"%js, VStr (description o)); ("path"%js, VStr (path o)); ("mode"%js, VStr (mode o));
        ("value"%js, parseLooseValue (value_text o)); ("keep_origin"%js, VBool (keep_origin o)); ("from"%js, VStr (from o));
        ("to"%js, VStr (to o)); ("logic"%js, VStr (logic o)); ("conditions"%js, VArr (condition_copy <$> conditions o))].

Definition duplicateOperation (eager : bool) (i : nat) (e : Editor) : Editor :=
  match find_index (λ o, Nat.eqb (op_id o) i) (e_ops e) with
  | None => e
  | Some k =>
    match e_ops e !! k with
    | None => e
    | Some source =>
      match normalizeOperation (operation_copy source) (e_seed e) with
      | Throw => e
      | Ret (cloned, n) =>
        let e := with_seed n (with_ops (λ l, take (S k) l ++ cloned :: drop (S k) l) e) in
        if eager then with_selected (Some (op_id cloned)) e else e
      end
    end
  end.

Definition removeOperation (i : nat) (e : Editor) : Editor :=
  if Nat.leb (length (e_ops e)) 1
  then let '(o, n) := createDefaultOperation (e_seed e) in with_seed n (with_ops (λ _, [o]) e)
  else with_ops (List.filter (λ o, negb (Nat.eqb (op_id o) i))) e.

Definition addCondition (i : nat) (e : Editor) : Editor :=
  let '(created, n) := createDefaultCondition (e_seed e) in
  with_seed n (with_expanded ((c_id created, true) :: e_expanded e) (update_op i (with_conditions (λ l, l ++ [created])) e)).

Definition updateCondition (i ci : nat) (p : CPatch) : Editor → Editor :=
  update_op i (with_conditions (fmap (λ c, if Nat.eqb (c_id c) ci then apply_cpatch p c else c))).

Definition removeCondition (i ci : nat) : Editor → Editor :=
  update_op i (with_conditions (List.filter (λ c, negb (Nat.eqb (c_id c) ci)))).

Definition with_value_text (t : jsstr) (o : ParamOverrideOperation) : ParamOverrideOperation := apply_patch (PValueText t) o.

Definition updateReturnErrorDraft (i : nat) (f : ReturnErrorDraft → ReturnErrorDraft) : Editor → Editor :=
  update_op i (λ o, with_value_text (buildReturnErrorValueText (f (parseReturnErrorDraft (value_text o)))) o).

(** The updater reads the draft again, with new ids; [f] may take ids too. *)
Definition updatePruneObjectsDraft (i : nat) (f : PruneObjectsDraft → nat → PruneObjectsDraft * nat) (e : Editor) : Editor :=
  fold_left (λ acc o,
    if Nat.eqb (op_id o) i
    then let '(d, n) := parsePruneObjectsDraft (value_text o) (e_seed acc) in
         let '(d', n') := f d n in
         with_seed n' (with_ops (λ l, l ++ [with_value_text (buildPruneObjectsValueText d') o]) acc)
    else with_ops (λ l, l ++ [o]) acc) (e_ops e) (with_ops (λ _, []) e).

Definition set_rules (simple : bool) (rules : list ParamOverrideCondition) (d : PruneObjectsDraft) : PruneObjectsDraft :=
  MkPruneDraft simple (p_typeText d) (p_logic d) (p_recursive d) rules.

Definition addPruneRule (i : nat) : Editor → Editor :=
  updatePruneObjectsDraft i (λ d n, let '(r, n') := createDefaultCondition n in (set_rules false (p_rules d ++ [r]) d, n')).

Definition updatePruneRule (i ri : nat) (p : CPatch) : Editor → Editor :=
  updatePruneObjectsDraft i (λ d n,
    (set_rules (p_simpleMode d) ((λ r, if Nat.eqb (c_id r) ri then apply_cpatch p r else r) <$> p_rules d) d, n)).

Definition removePruneRule (i ri : nat) : Editor → Editor :=
  updatePruneObjectsDraft i (λ d n, (set_rules (p_simpleMode d) (List.filter (λ r, negb (Nat.eqb (c_id r) ri)) (p_rules d)) d, n)).

(** ** Dragging *)

Definition handleDragStart (i : nat) (e : Editor) : Editor := with_selected (Some i) (with_drag (Some i) (e_over e) e).

(** [after]: the pointer is in the lower half. *)
Definition handleDragOver (i : nat) (after : bool) (e : Editor) : Editor :=
  match e_drag e with
  | Some s => if Nat.eqb s i then e else with_drag (e_drag e) (Some (i, after)) e
  | None => e
  end.

(** [data] is what the transfer carries. *)
Definition handleDrop (i : nat) (data : option nat) (e : Editor) : Editor :=
  let source := match e_drag e with Some s => Some s | None => data end in
  let after := match e_over e with Some (j, a) => if Nat.eqb j i then a else false | None => false end in
  let e := match source with
           | Some s => if Nat.eqb s i then e else with_selected (Some s) (with_ops (λ l, reorderOperations l s i after) e)
           | None => e
           end in
  with_drag None None e.

(** ** Switching, templates, saving *)

Definition buildVisualJson (e : Editor) : message + jsstr :=
  if e_legacy e then
    let trimmed := trim (e_legacyValue e) in
    if negb (nonempty trimmed) then inr []
    else match JSON_parse trimmed with
         | None => inl ("Parameter override must be valid JSON format"%js, 0)
         | Some (VObj fs) => inr (default [] (JSON_stringify2 (VObj fs)))
         | Some _ => inl ("Legacy format must be a JSON object"%js, 0)
         end
  else buildOperationsJson (e_ops e) true.

Definition switchToJsonMode (e : Editor) : Editor :=
  if e_json e then e
  else
    let e' := match buildVisualJson e with
              | inr t => with_json t None e
              | inl m =>
                with_json (if e_legacy e then e_legacyValue e
                           else match buildOperationsJson (e_ops e) false with inr t => t | inl _ => [] end)
                  (Some m) (with_toast m e)
              end in
    with_view true (e_legacy e') (e_legacyValue e') e'.

(** Empty rules, one of them selected. *)
Definition fresh_ops (e : Editor) : Editor :=
  let '(o, n) := createDefaultOperation (e_seed e) in
  with_seed n (with_selected (Some (op_id o)) (with_ops (λ _, [o]) e)).

Definition switchToVisualMode (e : Editor) : exc Editor :=
  if negb (e_json e) then Ret e
  else
    let trimmed := trim (e_jsonText e) in
    if negb (nonempty trimmed) then Ret (with_view false false [] (with_json (e_jsonText e) None (fresh_ops e)))
    else match JSON_parse trimmed with
         | None => Ret (with_toast ("Parameter override must be valid JSON format"%js, 0) e)
         | Some parsed =>
           match config_operations parsed with
           | Some (Some vs) =>
             match normalize_operations vs (e_seed e) with
             | Throw => Throw
             | Ret (ops, n) =>
               Ret (with_preset "operations_default" (with_view false false [] (with_json (e_jsonText e) None
                     (with_seed n (with_selected (op_id <$> head ops) (with_ops (λ _, ops) e))))))
             end
           | Some None =>
             Ret (with_preset "legacy_default" (with_view false true (default [] (JSON_stringify2 parsed))
                   (with_json (e_jsonText e) None (fresh_ops e))))
           | None => Ret (with_toast ("Parameter override must be a valid JSON object"%js, 0) e)
           end
         end.

(** [{ ...base, ...v }] *)
Definition spread_over (base : obj) (v : value) : obj :=
  let entries := match v with
                 | VObj fs => fs
                 | VArr vs => imap (λ i w, (Z_to_string (Z.of_nat i), w)) vs
                 | VStr s => imap (λ i c, (Z_to_string (Z.of_nat i), VStr [c])) s
                 | _ => []
                 end in
  fold_left (λ acc p, obj_set acc p.1 p.2) entries base.

Definition obj_of (v : value) : obj := match v with VObj fs => fs | _ => [] end.

(** The rules of a template; its objects are never [null]. *)
Definition template_ops (payload : value) (n : nat) : list ParamOverrideOperation * nat :=
  match prop payload "operations" with
  | VArr vs => match map_fresh normalizeOperation vs n with Ret r => r | Throw => ([], n) end
  | _ => ([], n)
  end.

(** The legacy text of a template; the rules are emptied, the selection is not
    changed here. *)
Definition fill_legacy (t : jsstr) (e : Editor) : Editor :=
  let '(o, n) := createDefaultOperation (e_seed e) in
  with_view false true t (with_json t None (with_seed n (with_ops (λ _, [o]) e))).

Definition fillTemplate (append : bool) (e : Editor) : Editor :=
  let '(legacy, payload) := preset_of (e_preset e) in
  if legacy then
    if append && e_legacy e then
      let trimmed := trim (e_legacyValue e) in
      if negb (nonempty trimmed) then fill_legacy (default [] (JSON_stringify2 (VObj (obj_of payload)))) e
      else match JSON_parse trimmed with
           | None => with_toast ("Current legacy JSON is invalid, cannot append"%js, 0) e
           | Some current => fill_legacy (default [] (JSON_stringify2 (VObj (spread_over (obj_of payload) current)))) e
           end
    else fill_legacy (default [] (JSON_stringify2 payload)) e
  else
    let '(ops, n) := template_ops payload (e_seed e) in
    if append then
      let existing := if e_legacy e then [] else List.filter (λ o, negb (isOperationBlank o)) (e_ops e) in
      let next := existing ++ ops in
      with_view false false [] (with_json [] None
        (with_seed n (with_selected (op_id <$> head next) (with_ops (λ _, next) e))))
    else
      let '(final, n) := match ops with [] => let '(o, n') := createDefaultOperation n in ([o], n') | _ => (ops, n) end in
      with_view false false (e_legacyValue e)
        (with_json (default [] (JSON_stringify2 (template (match prop payload "operations" with VArr vs => vs | _ => [] end)))) None
          (with_seed n (with_selected (op_id <$> head final) (with_ops (λ _, final) e)))).

Definition resetEditorState (e : Editor) : Editor :=
  with_preset "operations_default" (with_view false false [] (with_json [] None (fresh_ops e))).

Definition handleJsonChange (t : jsstr) (e : Editor) : Editor :=
  let trimmed := trim t in
  with_json t (if negb (nonempty trimmed) || verifyJSON trimmed then None else Some ("JSON format error"%js, 0)) e.

Definition visualValidationError (e : Editor) : option message :=
  if e_json e then None else match buildVisualJson e with inl m => Some m | inr _ => None end.

Definition handleOverrideSave (e : Editor) : Editor :=
  let result := if e_json e then
                  let trimmed := trim (e_jsonText e) in
                  if negb (nonempty trimmed) then inr []
                  else match JSON_parse trimmed with
                       | None => inl ("Parameter override must be valid JSON format"%js, 0)
                       | Some v => inr (default [] (JSON_stringify2 v))
                       end
                else buildVisualJson e in
  match result with inr t => with_saved t e | inl m => with_toast m e end.

Definition selectedOperation (e : Editor) : option ParamOverrideOperation :=
  List.find (λ o, bool_decide (e_selected e = Some (op_id o))) (e_ops e).

(** The draft that is shown, and the next number; the initial rule is created
    and dropped by every rendering. *)
Definition pruneObjectsDraft (e : Editor) : option (PruneObjectsDraft * nat) :=
  match selectedOperation e with
  | Some o => if str_eqb (mode o) "prune_objects" then Some (parsePruneObjectsDraft (value_text o) (createDefaultOperation (e_seed e)).2) else None
  | None => None
  end.

(** What rendering leaves: the ids it took. *)
Definition render_editor (e : Editor) : Editor :=
  with_seed (match pruneObjectsDraft e with Some (_, n) => n | None => (createDefaultOperation (e_seed e)).2 end) e.

(** [expandAllConditions] and [collapseAllConditions] *)
Definition expand_all (b : bool) (e : Editor) : Editor :=
  match selectedOperation e with
  | Some o => with_expanded (((λ c, (c_id c, b)) <$> conditions o) ++ e_expanded e) e
  | None => e
  end.

(** ** The dialog as a state machine *)

Inductive EditorEvent :=
  | Open (stored : jsstr) | Render
  | Update (i : nat) (p : Patch)
  | Add | Duplicate (eager : bool) (i : nat) | Remove (i : nat)
  | AddCond (i : nat) | UpdateCond (i ci : nat) (p : CPatch) | RemoveCond (i ci : nat)
  | UpdateError (i : nat) (f : ReturnErrorDraft → ReturnErrorDraft)
  | UpdatePrune (i : nat) (f : PruneObjectsDraft → PruneObjectsDraft)
  | AddRule (i : nat) | UpdateRule (i ri : nat) (p : CPatch) | RemoveRule (i ri : nat)
  | DragStart (i : nat) | DragOver (i : nat) (after : bool) | Drop (i : nat) (data : option nat) | DragEnd
  | ToJson | ToVisual | Fill (append : bool) | Reset | Preset (k : jsstr)
  | JsonChange (t : jsstr) | LegacyChange (t : jsstr) | ExpandAll (b : bool) | Select_ (i : nat) | Save | Cancel.

(** The selects offer the known modes and the two logics. *)
Definition patch_ok (p : Patch) : bool :=
  match p with PMode m => set_has OPERATION_MODE_VALUES m | PLogic l => str_eqb l "AND" || str_eqb l "OR" | _ => true end.
Definition cpatch_ok (p : CPatch) : bool := match p with CMode m => set_has CONDITION_MODE_VALUES m | _ => true end.

Definition editor_handler (ev : EditorEvent) (e : Editor) : exc Editor :=
  match ev with
  | Open stored => open_dialog stored e
  | Render => Ret (render_editor e)
  | Update i p => if patch_ok p then Ret (updateOperation i p e) else Ret e
  | Add => Ret (addOperation e)
  | Duplicate eager i => Ret (duplicateOperation eager i e)
  | Remove i => Ret (removeOperation i e)
  | AddCond i => Ret (addCondition i e)
  | UpdateCond i ci p => if cpatch_ok p then Ret (updateCondition i ci p e) else Ret e
  | RemoveCond i ci => Ret (removeCondition i ci e)
  | UpdateError i f => Ret (updateReturnErrorDraft i f e)
  | UpdatePrune i f => Ret (updatePruneObjectsDraft i (λ d n, (f d, n)) e)
  | AddRule i => Ret (addPruneRule i e)
  | UpdateRule i ri p => Ret (updatePruneRule i ri p e)
  | RemoveRule i ri => Ret (removePruneRule i ri e)
  | DragStart i => Ret (handleDragStart i e)
  | DragOver i after => Ret (handleDragOver i after e)
  | Drop i data => Ret (handleDrop i data e)
  | DragEnd => Ret (with_drag None None e)
  | ToJson => Ret (switchToJsonMode e)
  | ToVisual => switchToVisualMode e
  | Fill append => Ret (fillTemplate append e)
  | Reset => Ret (resetEditorState e)
  | Preset k => Ret (with_preset k e)
  | JsonChange t => Ret (handleJsonChange t e)
  | LegacyChange t => Ret (with_view (e_json e) (e_legacy e) t e)
  | ExpandAll b => Ret (expand_all b e)
  | Select_ i => Ret (with_selected (Some i) e)
  | Save => Ret (handleOverrideSave e)
  | Cancel => Ret (MkEditor false (e_json e) (e_legacy e) (e_legacyValue e) (e_ops e) (e_jsonText e) (e_jsonError e) (e_selected e)
                     (e_expanded e) (e_drag e) (e_over e) (e_preset e) (e_seed e) (e_saved e) (e_toasts e))
  end.

(** One event and the effect after it; an event that throws has no state after
    it. *)
Definition editor_step (e e' : Editor) : Prop := ∃ ev e1, editor_handler ev e = Ret e1 ∧ e' = keep_selected e1.
Definition editor_run : Editor → Editor → Prop := rtc editor_step.

End ParamEditor.
