(* ===== verification/ParamOverrideFacts.v ===== *)
(** * Facts about parameter overrides

    What is written is read back: [rules_reopen] says what a saved set of rules
    opens as, and [resave_exact] when saving it again writes the same. *)

From S2P Require Import Prelude JsString JsNumber JsValue JsObject JsonRoundTrip ParamOverride.

Module ParamOverrideFacts.
Import ParamOverride.

(** ** Values as text *)

Lemma digits_no_ws s a b : span is_digit s = (a, b) → no_ws b = true → no_ws s = true.
Proof.
  revert a b. induction s as [|c s IH]; intros a b E Hb; [done|]. cbn in E. destruct (is_digit c) eqn:Hc.
  - destruct (span is_digit s) as [a' b'] eqn:Es. injection E as <- <-. unfold no_ws. cbn. rewrite andb_true_iff. split; [|by apply (IH a' b')].
    unfold is_digit in Hc. unfold is_ws. lia.
  - by injection E as <- <-.
Qed.

Lemma no_ws_cons c s : is_ws c = false → no_ws s = true → no_ws (c :: s) = true.
Proof. unfold no_ws. cbn. by intros -> ->. Qed.

(** The text of a number has no white space. *)
Lemma number_no_ws s x : json_number s = Some (x, []) → no_ws s = true.
Proof.
  rewrite json_number_parts. destruct (sign_of s) as [neg s1] eqn:Es. destruct (span is_digit s1) as [ip s2] eqn:Ei.
  destruct (match ip with [] => false | [_] => true | c :: _ => negb (c =? 48)%N end); [|done].
  destruct (fraction_of s2) as [[fp s3] [|]] eqn:Ef; [|done]. destruct (exponent_of s3) as [[e s4] [|]] eqn:Ee; [|done].
  intros [= _ ->].
  assert (no_ws s3 = true) as H3.
  { unfold exponent_of in Ee. destruct s3 as [|c s3]; [done|]. destruct ((c =? 101)%N || (c =? 69)%N) eqn:Hc; [|done].
    destruct (exp_sign_of s3) as [en r1] eqn:Ex. destruct (span is_digit r1) as [ed r2] eqn:Ed. simplify_eq/=.
    apply digits_no_ws in Ed; [|done]. apply no_ws_cons; [unfold is_ws; lia|]. unfold exp_sign_of in Ex. destruct s3 as [|d s3]; [done|].
    destruct (d =? 43)%N eqn:?, (d =? 45)%N eqn:?; injection Ex as _ <-; try done; (apply no_ws_cons; [unfold is_ws; lia|done]). }
  assert (no_ws s2 = true) as H2.
  { unfold fraction_of in Ef. destruct s2 as [|c s2]; [done|]. destruct (c =? 46)%N eqn:Hc; [|by simplify_eq/=].
    destruct (span is_digit s2) as [f r'] eqn:Ex. simplify_eq/=. apply no_ws_cons; [unfold is_ws; lia|]. by eapply digits_no_ws. }
  apply digits_no_ws in Ei; [|done]. unfold sign_of in Es. destruct s as [|c s]; [done|].
  destruct (c =? 45)%N eqn:?; injection Es as _ <-; [|done]. apply no_ws_cons; [unfold is_ws; lia|done].
Qed.

(** The compact text of a value that is no string has no white space around it. *)
Lemma stringify_trimmed v t : jsonable v → is_string v = false → JSON_stringify v = Some t → trimmed t = true.
Proof.
  rewrite (JSON_stringify_print v 0). destruct v as [| |b|x|s|[|v vs]|fs]; intros Hj Hs Ht; try done; cbn in Ht; try (by injection Ht as <-).
  - destruct b; by injection Ht as <-.
  - apply readable_spec in Hj as [Hf Hn]. rewrite Hf in Ht. injection Ht as <-. specialize (Hn [] I). rewrite app_nil_r in Hn.
    by eapply no_ws_trimmed, number_no_ws.
  - injection Ht as <-. by apply (trimmed_between 91 _ "]").
  - destruct (omap _ fs) as [|m ms]; injection Ht as <-; [done|]. by apply (trimmed_between 123 _ "}").
Qed.

(** A string literal is longer than what it stands for. *)
Lemma json_cons_length c o t r (k : nat) :
  json_cons c o = Some (t, r) → (∀ t' r', o = Some (t', r') → (length t' + length r' < k)%nat) → (length t + length r < S k)%nat.
Proof. destruct o as [[t' r']|]; [|done]. intros [= <- <-] H. specialize (H _ _ eq_refl). cbn. lia. Qed.

Lemma json_chars_length n : ∀ s t r, (length s <= n)%nat → json_chars s = Some (t, r) → (length t + length r < length s)%nat.
Proof.
  induction n as [|n IH]; intros [|c s] t r Hn E; try done; [cbn in Hn; lia|]. cbn in Hn.
  assert (∀ k u, (length u <= n)%nat → json_cons k (json_chars u) = Some (t, r) → (length t + length r < S (length u))%nat) as Hmore.
  { intros k u Hu Hc. apply (json_cons_length _ _ _ _ _ Hc). intros t' r' He. by apply IH. }
  destruct (N.eq_dec c 34%N) as [->|H1]; [injection E as <- <-; cbn; lia|].
  destruct (N.eq_dec c 92%N) as [->|H2].
  - destruct s as [|e s]; [done|]. cbn [length] in *.
    destruct (N.eq_dec e 117%N) as [->|H3].
    + destruct s as [|a [|b [|c [|d s]]]]; try done. cbn [length] in *. cbn in E. destruct (hex4 a b c d) as [u|]; [|done].
      specialize (Hmore u s ltac:(lia) E). lia.
    + assert (∃ k, json_cons k (json_chars s) = Some (t, r)) as [k Hk].
      { cbn in E. destruct e as [|e]; [done|]. repeat (destruct e as [e|e|]; try done); eauto. }
      specialize (Hmore k s ltac:(lia) Hk). lia.
  - destruct (decide (32 <= c)%N) as [H3|H3].
    + rewrite json_chars_other in E by done. specialize (Hmore c s ltac:(lia) E). cbn. lia.
    + exfalso. cbn in E. assert (Hlt : ((c <? 32)%N || (c =? 92)%N) = true) by lia. revert E Hlt.
      destruct c as [|c]; [done|]. repeat (destruct c as [c|c|]; try (intros E Hlt; rewrite ?Hlt in E; done); try lia).
Qed.

Definition survives (v : value) : Prop := parseLooseValue (toValueText v) = v.

Lemma skip_ws_length s : (length (skip_ws s) <= length s)%nat.
Proof. induction s as [|c s IH]; [done|]. cbn. destruct (json_ws c); cbn; lia. Qed.

Lemma json_elements_arr n : ∀ s acc v r, json_elements n s acc = Some (v, r) → is_string v = false.
Proof.
  induction n as [|n IH]; intros s acc v r; [done|]. cbn [json_elements]. destruct (json_value n s) as [[w r']|]; [|done].
  destruct (skip_ws r') as [|c t]; [done|]. repeat case_match; try done; intros E; simplify_eq; eauto.
Qed.

Lemma json_members_obj n : ∀ s acc v r, json_members n s acc = Some (v, r) → is_string v = false.
Proof.
  induction n as [|n IH]; intros s acc v r; [done|]. cbn [json_members].
  repeat case_match; try done; intros E; simplify_eq; eauto.
Qed.

Lemma json_value_string n s u r : json_value n s = Some (VStr u, r) → (length u < length s)%nat.
Proof.
  destruct n as [|n]; [done|]. cbn [json_value]. pose proof (skip_ws_length s) as Hl.
  destruct (skip_ws s) as [|c t] eqn:Hs; [done|]. destruct (N.eq_dec c 34%N) as [->|Hc].
  - destruct (json_chars t) as [[u' r']|] eqn:Hj; [|done]. intros [= <- <-]. apply (json_chars_length (length t)) in Hj; [|done]. cbn in Hl. lia.
  - intros E. exfalso. revert E. clear Hs Hl.
    repeat case_match; intros E; simplify_eq.
    all: first [apply json_elements_arr in E|apply json_members_obj in E]; done.
Qed.

Lemma parse_string_length s u : JSON_parse s = Some (VStr u) → (length u < length s)%nat.
Proof.
  unfold JSON_parse. destruct (json_value _ s) as [[v r]|] eqn:E; [|done]. destruct (skip_ws r); [|done]. intros [= ->].
  by eapply json_value_string.
Qed.

(** Everything but a text is read back from its text; a text only if it is
    empty, or stands without outer space and is no JSON. *)
Lemma survives_exact v : jsonable v →
  survives v ↔ ∀ s, v = VStr s → s = [] ∨ trim s = s ∧ JSON_parse s = None.
Proof.
  intros Hj. unfold survives. destruct (is_string v) eqn:Hs.
  - destruct v as [| | | |s| |]; try done. cbn [toValueText]. unfold parseLooseValue. split.
    + intros Hp u [= <-]. pose proof (trim_length s) as Hlen. destruct (trim s) as [|c r] eqn:Ht; simpl in Hp; [left; by injection Hp as <-|].
      right. destruct (JSON_parse (c :: r)) as [w|] eqn:Hw; simpl in Hp; [|injection Hp as Hp; rewrite Hp in *; done].
      subst w. apply parse_string_length in Hw. lia.
    + intros H. destruct (H s eq_refl) as [->|[Ht Hw]]; [done|]. rewrite Ht, Hw. by destruct s.
  - split; [intros _ s ->; done|]. intros _. destruct (JSON_parse_stringify v Hj) as (t & Ht & (c & r & -> & _) & Hp).
    assert (toValueText v = c :: r) as -> by (destruct v; try done; unfold toValueText; by rewrite Ht).
    unfold parseLooseValue. rewrite trim_id by (by eapply stringify_trimmed). cbn [nonempty negb]. by rewrite Hp.
Qed.

(** ** Members of what is written *)

Lemma prop_set fs k v j : prop (VObj (obj_set fs k v)) j = if str_eqb j k then v else prop (VObj fs) j.
Proof. unfold prop, str_eqb. rewrite obj_get_set. destruct (decide (j = k)); [by rewrite bool_decide_true|by rewrite bool_decide_false]. Qed.

Lemma written_other (b : bool) fs k v j : str_eqb j k = false → prop (VObj (set_if b k v fs)) j = prop (VObj fs) j.
Proof. intros H. unfold set_if. destruct b; [|done]. by rewrite prop_set, H. Qed.

Lemma written_same (b : bool) fs k v : prop (VObj (set_if b k v fs)) k = if b then v else prop (VObj fs) k.
Proof. unfold set_if. destruct b; [|done]. rewrite prop_set. unfold str_eqb. by rewrite bool_decide_true. Qed.

(** Reads a member of an object built by assignments. *)
Ltac read_written :=
  repeat first [rewrite written_other by (vm_compute; reflexivity) | rewrite written_same];
  try match goal with |- context [prop (VObj [(?k, ?v)]) ?j] =>
        let r := eval cbv in (str_eqb j k) in
        lazymatch r with true => change (prop (VObj [(k, v)]) j) with v | false => change (prop (VObj [(k, v)]) j) with VUndef end
      end.

Lemma jsonable_set fs k v : key_index k = None → jsonable v → jsonable (VObj fs) → jsonable (VObj (obj_set fs k v)).
Proof.
  intros Hk Hv [Hn Hf]%jsonable_obj. apply obj_jsonable; [by apply obj_set_NoDup|]. intros [j w] Hin.
  apply (elem_of_obj_get _ _ _ (obj_set_NoDup _ _ _ Hn)) in Hin. rewrite obj_get_set in Hin. destruct (decide (j = k)) as [->|Hj].
  - by injection Hin as <-.
  - apply (Hf (j, w)). by apply obj_get_elem.
Qed.

Lemma jsonable_set_if (b : bool) fs k v : key_index k = None → jsonable v → jsonable (VObj fs) →
  jsonable (VObj (set_if b k v fs)).
Proof. unfold set_if. destruct b; [apply jsonable_set|done]. Qed.

(** *** Conditions *)

Definition condition_value (c : ParamOverrideCondition) : value := parseLooseValue (c_value_text c).

Definition reopened_condition (n : nat) (c : ParamOverrideCondition) : ParamOverrideCondition :=
  MkCondition n (trim (c_path c)) (c_mode c) (toValueText (condition_value c)) (c_invert c) (c_pass_missing_key c).

(** A condition that is written. *)
Definition kept_condition (c : ParamOverrideCondition) : bool := nonempty (trim (c_path c)).
Definition kept_conditions (o : ParamOverrideOperation) : list ParamOverrideCondition := List.filter kept_condition (conditions o).

Definition condition_known (c : ParamOverrideCondition) : Prop := c_mode c ∈ CONDITION_MODE_VALUES.

Definition condition_payload (c : ParamOverrideCondition) : value := default VNull (buildConditionPayload c).

Lemma payloads_kept cs : omap buildConditionPayload cs = condition_payload <$> List.filter kept_condition cs.
Proof.
  induction cs as [|c cs IH]; [done|]. cbn [omap list_omap List.filter]. rewrite IH.
  assert (buildConditionPayload c = if kept_condition c then Some (condition_payload c) else None) as ->; [|by destruct (kept_condition c)].
  unfold kept_condition, condition_payload, buildConditionPayload. by destruct (nonempty (trim (c_path c))).
Qed.

Lemma known_nonempty c : condition_known c → c_mode c ≠ [].
Proof. unfold condition_known. intros Hc He. rewrite He in Hc. vm_compute in Hc. set_solver. Qed.

Definition condition_base (c : ParamOverrideCondition) : obj :=
  [("path"%js, VStr (trim (c_path c))); ("mode"%js, VStr (text_else (c_mode c) "full")); ("value"%js, condition_value c)].

Lemma condition_payload_eq c : kept_condition c = true →
  condition_payload c = VObj (set_if (c_pass_missing_key c) "pass_missing_key" (VBool true) (set_if (c_invert c) "invert" (VBool true) (condition_base c))).
Proof. unfold kept_condition, condition_payload, buildConditionPayload. by intros ->. Qed.

(** The members of a written condition, by name. *)
Lemma condition_members c : kept_condition c = true → condition_known c →
  let v := condition_payload c in
  prop v "path" = VStr (trim (c_path c)) ∧ prop v "mode" = VStr (c_mode c) ∧ prop v "value" = condition_value c ∧
  true_member v "invert" = c_invert c ∧ true_member v "pass_missing_key" = c_pass_missing_key c ∧ v ≠ VNull.
Proof.
  intros Hk Hc%known_nonempty. rewrite condition_payload_eq by done. unfold true_member.
  assert (text_else (c_mode c) "full" = c_mode c) as Hm by (unfold text_else; by destruct (c_mode c)).
  cbv zeta. unfold condition_base. rewrite Hm. split_and!; read_written; try done.
  - by destruct (c_invert c).
  - by destruct (c_pass_missing_key c).
Qed.

Lemma condition_reopens c n : kept_condition c = true → condition_known c →
  normalizeRuleCondition (condition_payload c) n = Ret (reopened_condition n c, S n).
Proof.
  intros Hk Hc. destruct (condition_members c Hk Hc) as (Hp & Hm & Hv & Hi & Hpm & Hn). unfold normalizeRuleCondition.
  destruct (condition_payload c) eqn:E; try done; unfold string_member; rewrite Hp, Hm, Hv, Hi, Hpm; unfold known_mode;
    rewrite (proj2 (set_has_spec _ _) Hc); done.
Qed.

Fixpoint reopened_conditions (n : nat) (cs : list ParamOverrideCondition) : list ParamOverrideCondition :=
  match cs with [] => [] | c :: cs' => reopened_condition n c :: reopened_conditions (S n) cs' end.

Lemma conditions_reopen cs n : Forall (λ c, kept_condition c = true ∧ condition_known c) cs →
  map_fresh normalizeRuleCondition (condition_payload <$> cs) n = Ret (reopened_conditions n cs, (n + length cs)%nat).
Proof.
  intros H. revert n. induction H as [|c cs [Hk Hc] _ IH]; intros n; cbn; [by rewrite Nat.add_0_r|].
  rewrite condition_reopens, IH by done. do 2 f_equal. lia.
Qed.

Lemma condition_jsonable c : kept_condition c = true → jsonable (condition_value c) → jsonable (condition_payload c).
Proof.
  intros Hk Hv. rewrite condition_payload_eq by done. apply jsonable_set_if; [done..|]. apply jsonable_set_if; [done..|].
  apply obj_jsonable.
  - by apply (bool_decide_unpack _); vm_compute.
  - intros p Hp. repeat (apply elem_of_cons in Hp as [->|Hp]; [split; [done|done]|]). by apply not_elem_of_nil in Hp.
Qed.

(** *** Rules *)

Definition operation_known (o : ParamOverrideOperation) : Prop :=
  mode o ∈ OPERATION_MODE_VALUES ∧ Forall condition_known (conditions o).

Definition operation_value (o : ParamOverrideOperation) : value := parseLooseValue (value_text o).

Definition meta (o : ParamOverrideOperation) : ModeMeta := meta_of (mode o).

(** The source and the target that are written. *)
Definition written_from (o : ParamOverrideOperation) : jsstr :=
  let f := if m_from (meta o) then trim (from o) else [] in
  if m_pathAlias (meta o) && negb (nonempty f) && nonempty (trim (path o)) then trim (path o) else f.
Definition written_to (o : ParamOverrideOperation) : jsstr :=
  if m_pathAlias (meta o) && negb (nonempty (trim (to o))) && nonempty (trim (path o)) then trim (path o) else trim (to o).

(** The rule a written rule opens as. *)
Definition reopened_op (n : nat) (o : ParamOverrideOperation) : ParamOverrideOperation :=
  MkOperation n (trim (description o)) (if m_path (meta o) || m_pathOptional (meta o) then trim (path o) else [])
    (mode o) (written_from o) (written_to o) (if m_value (meta o) then toValueText (operation_value o) else [])
    (m_keepOrigin (meta o) && keep_origin o)
    (match kept_conditions o with [] => "OR" | _ => if str_eqb (logic o) "AND" then "AND" else "OR" end)
    (reopened_conditions (S n) (kept_conditions o)).

Lemma mode_else o : operation_known o → text_else (mode o) "set" = mode o.
Proof.
  intros [Hm _]. unfold text_else. destruct (mode o) eqn:He; [|done]. vm_compute in Hm. set_solver.
Qed.

Lemma as_text (b : bool) (x : jsstr) : (match (if b then VStr x else VUndef) with VStr s => s | _ => [] end) = if b then x else [].
Proof. by destruct b. Qed.

Lemma nonempty_else (x : jsstr) : (if nonempty x then x else []) = x.
Proof. by destruct x. Qed.

Lemma truthy_text (b : bool) (x : jsstr) : truthy (if b then VStr x else VUndef) = b && nonempty x.
Proof. destruct b; [|done]. by destruct x. Qed.

(** The members of a written rule before the conditions, by name. *)
Lemma fields_members o : operation_known o →
  let v := VObj (operation_fields o) in
  prop v "mode" = VStr (mode o) ∧
  prop v "description" = (if nonempty (trim (description o)) then VStr (trim (description o)) else VUndef) ∧
  prop v "path" = (if m_path (meta o) || m_pathOptional (meta o) && nonempty (trim (path o)) then VStr (trim (path o)) else VUndef) ∧
  prop v "value" = (if m_value (meta o) then operation_value o else VUndef) ∧
  prop v "keep_origin" = (if m_keepOrigin (meta o) && keep_origin o then VBool true else VUndef) ∧
  prop v "conditions" = VUndef ∧ prop v "logic" = VUndef.
Proof.
  intros Hk. unfold operation_fields. rewrite (mode_else o Hk). cbv zeta. unfold meta, operation_value.
  split_and!; read_written; try done.
  destruct (m_path _), (m_pathOptional _), (nonempty (trim (path o))); done.
Qed.

Lemma fields_from o : operation_known o → string_member (VObj (operation_fields o)) "from" = written_from o.
Proof.
  intros Hk. unfold string_member, operation_fields. rewrite (mode_else o Hk). cbv zeta. unfold written_from, meta.
  rewrite written_other by (vm_compute; reflexivity). rewrite written_same.
  set (f := prop _ "from").
  assert (f = if m_from (meta_of (mode o)) then VStr (trim (from o)) else VUndef) as -> by (unfold f; read_written; done).
  rewrite truthy_text. destruct (m_pathAlias _), (m_from _); simpl; try done.
  - destruct (nonempty (trim (from o))); simpl; [done|]. by destruct (nonempty (trim (path o))).
  - by destruct (nonempty (trim (path o))).
Qed.

Lemma fields_to o : operation_known o → string_member (VObj (operation_fields o)) "to" = written_to o.
Proof.
  intros Hk. unfold string_member, operation_fields. rewrite (mode_else o Hk). cbv zeta. unfold written_to, meta.
  rewrite written_same. set (f := prop _ "to").
  assert (f = if m_to (meta_of (mode o)) || nonempty (trim (to o)) then VStr (trim (to o)) else VUndef) as ->.
  { unfold f. rewrite written_other by (vm_compute; reflexivity). rewrite written_same, written_same. read_written.
    by destruct (m_to _), (nonempty (trim (to o))). }
  rewrite truthy_text. destruct (m_pathAlias _), (m_to _), (nonempty (trim (to o))) eqn:Ht; simpl; rewrite ?Ht; try done;
    destruct (nonempty (trim (path o))); try done; by destruct (trim (to o)).
Qed.

Lemma fields_jsonable o : operation_known o → jsonable (operation_value o) → jsonable (VObj (operation_fields o)).
Proof.
  intros Hk Hv. unfold operation_fields. cbv zeta. repeat (apply jsonable_set_if; [done|done|]). done.
Qed.

(** *** Rules with their conditions *)

Definition has_conditions (o : ParamOverrideOperation) : bool := match kept_conditions o with [] => false | _ => true end.
Definition written_logic (o : ParamOverrideOperation) : jsstr := if str_eqb (logic o) "AND" then "AND" else "OR".

Lemma payload_eq o : buildOperationPayload o =
  VObj (set_if (has_conditions o) "logic" (VStr (written_logic o))
         (set_if (has_conditions o) "conditions" (VArr (condition_payload <$> kept_conditions o)) (operation_fields o))).
Proof.
  unfold buildOperationPayload. rewrite payloads_kept. fold (kept_conditions o). unfold has_conditions, written_logic.
  by destruct (kept_conditions o).
Qed.

Lemma kept_known o : operation_known o → Forall (λ c, kept_condition c = true ∧ condition_known c) (kept_conditions o).
Proof.
  intros [_ H]. rewrite Forall_forall in H |- *. intros c [Hc Hk]%elem_of_lfilter. auto.
Qed.

Lemma payload_prop o k : str_eqb k "logic" = false → str_eqb k "conditions" = false →
  prop (buildOperationPayload o) k = prop (VObj (operation_fields o)) k.
Proof. intros H1 H2. by rewrite payload_eq, !written_other. Qed.

Lemma kept_read o n : operation_known o →
  (match (if has_conditions o then VArr (condition_payload <$> kept_conditions o) else VUndef) with
   | VArr cs => map_fresh normalizeRuleCondition cs (S n) | _ => Ret ([], S n) end) =
  Ret (reopened_conditions (S n) (kept_conditions o), (S n + length (kept_conditions o))%nat).
Proof.
  intros Hk. rewrite <- conditions_reopen by (by apply kept_known). unfold has_conditions. by destruct (kept_conditions o).
Qed.

Lemma path_read o : (if m_path (meta o) || m_pathOptional (meta o) && nonempty (trim (path o)) then trim (path o) else []) =
  if m_path (meta o) || m_pathOptional (meta o) then trim (path o) else [].
Proof. destruct (m_path _), (m_pathOptional _); simpl; try done. apply nonempty_else. Qed.

Lemma keep_read (b : bool) : (match (if b then VBool true else VUndef) with VBool b => b | _ => false end) = b.
Proof. by destruct b. Qed.

Lemma logic_read o : (if upper_is (if has_conditions o then VStr (written_logic o) else VUndef) "OR" "AND" then "AND" else "OR")%js =
  match kept_conditions o with [] => "OR" | _ => if str_eqb (logic o) "AND" then "AND" else "OR" end%js.
Proof.
  unfold has_conditions, written_logic. destruct (kept_conditions o); [done|]. by destruct (str_eqb (logic o) "AND").
Qed.

(** A written rule opens as [reopened_op]. *)
Lemma payload_reopens o n : operation_known o →
  normalizeOperation (buildOperationPayload o) n = Ret (reopened_op n o, (S n + length (kept_conditions o))%nat).
Proof.
  intros Hk. destruct (fields_members o Hk) as (Hm & Hd & Hp & Hv & Hko & Hc & Hl).
  assert (prop (buildOperationPayload o) "conditions" = if has_conditions o then VArr (condition_payload <$> kept_conditions o) else VUndef) as Hcs.
  { rewrite payload_eq, written_other by done. rewrite written_same. by rewrite Hc. }
  assert (prop (buildOperationPayload o) "logic" = if has_conditions o then VStr (written_logic o) else VUndef) as Hlo.
  { rewrite payload_eq, written_same, written_other by done. by rewrite Hl. }
  assert (∀ k, str_eqb k "logic" = false → str_eqb k "conditions" = false →
            string_member (buildOperationPayload o) k = string_member (VObj (operation_fields o)) k) as Hs.
  { intros k H1 H2. unfold string_member. by rewrite payload_prop. }
  unfold normalizeOperation. rewrite Hcs, Hlo, !Hs, fields_from, fields_to by done. unfold true_member, string_member.
  rewrite !payload_prop, Hm, Hd, Hp, Hv, Hko by done. rewrite !as_text, nonempty_else.
  assert (known_mode OPERATION_MODE_VALUES "set" (VStr (mode o)) = mode o) as ->.
  { unfold known_mode. by rewrite (proj2 (set_has_spec _ _) (proj1 Hk)). }
  assert (buildOperationPayload o ≠ VNull) as Hn by (by rewrite payload_eq).
  rewrite kept_read, path_read, keep_read, logic_read by done.
  assert (toValueText (if m_value (meta o) then operation_value o else VUndef) =
          if m_value (meta o) then toValueText (operation_value o) else []) as -> by (by destruct (m_value (meta o))).
  by destruct (buildOperationPayload o).
Qed.

(** *** All rules *)

(** The rules that are written. *)
Definition written_ops (ops : list ParamOverrideOperation) : list ParamOverrideOperation :=
  List.filter (λ o, negb (isOperationBlank o)) ops.

Fixpoint reopened_ops (n : nat) (ops : list ParamOverrideOperation) : list ParamOverrideOperation :=
  match ops with
  | [] => []
  | o :: ops' => reopened_op n o :: reopened_ops (S n + length (kept_conditions o)) ops'
  end.

(** The number of ids the rules take. *)
Definition rule_ids (ops : list ParamOverrideOperation) : nat := sum_list_with (λ o, S (length (kept_conditions o))) ops.

(** The values of a rule are written without loss. *)
Definition operation_printable (o : ParamOverrideOperation) : Prop :=
  jsonable (operation_value o) ∧ Forall (λ c, jsonable (condition_value c)) (kept_conditions o).

Definition document (ops : list ParamOverrideOperation) : value :=
  VObj [("operations"%js, VArr (buildOperationPayload <$> ops))].

Lemma ops_reopen ops n : Forall operation_known ops →
  map_fresh normalizeOperation (buildOperationPayload <$> ops) n = Ret (reopened_ops n ops, (n + rule_ids ops)%nat).
Proof.
  intros H. revert n. induction H as [|o ops Ho _ IH]; intros n; cbn; [by rewrite Nat.add_0_r|].
  rewrite payload_reopens, IH by done. do 2 f_equal. unfold rule_ids. cbn. lia.
Qed.

Lemma payload_jsonable o : operation_known o → operation_printable o → jsonable (buildOperationPayload o).
Proof.
  intros Hk [Hv Hc]. rewrite payload_eq. apply jsonable_set_if; [done..|]. apply jsonable_set_if; [done| |by apply fields_jsonable].
  cbn. apply forallb_True, Forall_fmap, Forall_forall. intros c Hin. rewrite Forall_forall in Hc.
  apply condition_jsonable; [|by apply Hc]. by apply elem_of_lfilter in Hin as [_ ?].
Qed.

Lemma document_jsonable ops : Forall operation_known ops → Forall operation_printable ops → jsonable (document ops).
Proof.
  intros Hk Hp. apply obj_jsonable; [by apply NoDup_singleton|]. intros p ->%list_elem_of_singleton. split; [done|]. cbn.
  apply forallb_True, Forall_fmap. rewrite Forall_forall in *. intros o Ho. by apply payload_jsonable; auto.
Qed.

Lemma written_Forall (P : ParamOverrideOperation → Prop) ops : Forall P ops → Forall P (written_ops ops).
Proof. rewrite !Forall_forall. intros H o [Ho _]%elem_of_lfilter. auto. Qed.

(** What is written, as a text. *)
Lemma build_exact ops b t : buildOperationsJson ops b = inr t →
  t = match written_ops ops with [] => [] | _ => default [] (JSON_stringify2 (document (written_ops ops))) end.
Proof.
  unfold buildOperationsJson. fold (written_ops ops). destruct (written_ops ops) as [|o ops']; [by intros [= <-]|].
  destruct (if b then _ else _); [done|]. by intros [= <-].
Qed.

Lemma rules_opened ops b t n :
  Forall operation_known ops → Forall operation_printable ops → buildOperationsJson ops b = inr t → t ≠ [] →
  parseInitialState t n =
  Ret (MkEditorState false false [] (reopened_ops n (written_ops ops)) t [], (n + rule_ids (written_ops ops))%nat).
Proof.
  intros Hk Hp Ht%build_exact Hne. pose proof (written_Forall _ _ Hk) as Hk'. pose proof (written_Forall _ _ Hp) as Hp'.
  destruct (written_ops ops) as [|o ops'] eqn:Hw; [done|].
  destruct (JSON_parse_stringify2 _ (document_jsonable _ Hk' Hp')) as (t' & Ht' & _ & Hpt). rewrite Ht' in Ht. simpl in Ht. subst t'.
  unfold parseInitialState. rewrite (trim_id t) by (by eapply stringify2_obj_trimmed). rewrite Hpt.
  replace (nonempty t) with true by (by destruct t). simpl negb. cbn iota. rewrite Ht'.
  change (config_operations (document (o :: ops'))) with (Some (Some (buildOperationPayload <$> o :: ops'))). cbn iota.
  change (normalize_operations (buildOperationPayload <$> o :: ops') n) with (map_fresh normalizeOperation (buildOperationPayload <$> o :: ops') n).
  by rewrite ops_reopen.
Qed.

(** C27: Rules whose modes and condition modes are known and whose values JSON
    can hold, once written by [buildOperationsJson] as a text that is not empty,
    open again in the visual editor: with the written text, without an error,
    and with exactly the rules that are not blank, in their order, under new
    ids, each as [reopened_op] says.  Description, path, source and target are
    trimmed; the path, the source, the value and the keep-origin switch are
    dropped for modes that do not use them, the target is kept in every mode; a
    missing source or target of a header mode is the path.  The value is shown
    as [toValueText] writes what [parseLooseValue] reads of it, so a quoted
    number comes back as the bare number.  Conditions without a path are
    dropped, the others are trimmed and their values rewritten in the same way;
    the logic is kept, and is OR when no condition is left. *)
Theorem rules_reopen ops b t n :
  Forall operation_known ops → Forall operation_printable ops → buildOperationsJson ops b = inr t → t ≠ [] →
  parseInitialState t n =
  Ret (MkEditorState false false [] (reopened_ops n (written_ops ops)) t [], (n + rule_ids (written_ops ops))%nat).
Proof. apply rules_opened. Qed.

(** ** Writing again *)

(** Only the header modes take the path for a source or target. *)
Lemma alias_header o : operation_known o → m_pathAlias (meta o) = true → meta o = meta_header.
Proof.
  intros [Hm _]. unfold meta. revert Hm. generalize (mode o). apply (Forall_forall (λ m, m_pathAlias (meta_of m) = true → meta_of m = meta_header)).
  repeat (apply Forall_cons; split; [vm_compute; done|]). by apply Forall_nil.
Qed.

Lemma text_idem (b : bool) s : trim (if b then trim s else []) = if b then trim s else [].
Proof. destruct b; [apply trim_idemp|done]. Qed.

Lemma written_from_trim o : trim (written_from o) = written_from o.
Proof. unfold written_from. cbv zeta. case_match; [apply trim_idemp|]. apply text_idem. Qed.
Lemma written_to_trim o : trim (written_to o) = written_to o.
Proof. unfold written_to. case_match; apply trim_idemp. Qed.

Definition head_fields (o : ParamOverrideOperation) : obj :=
  let meta := meta o in
  let p := [("mode"%js, VStr (mode o))] in
  let p := set_if (nonempty (trim (description o))) "description" (VStr (trim (description o))) p in
  let p := set_if (m_path meta) "path" (VStr (trim (path o))) p in
  let p := set_if (m_pathOptional meta && nonempty (trim (path o))) "path" (VStr (trim (path o))) p in
  let p := set_if (m_value meta) "value" (operation_value o) p in
  set_if (m_keepOrigin meta && keep_origin o) "keep_origin" (VBool true) p.

Lemma fields_plain o : operation_known o → m_pathAlias (meta o) = false →
  operation_fields o =
  set_if (m_to (meta o)) "to" (VStr (trim (to o)))
    (set_if (negb (m_to (meta o)) && nonempty (trim (to o))) "to" (VStr (trim (to o)))
      (set_if (m_from (meta o)) "from" (VStr (trim (from o))) (head_fields o))).
Proof.
  intros Hk Ha. unfold operation_fields. rewrite (mode_else o Hk). cbv zeta. fold (meta o). rewrite Ha. reflexivity.
Qed.

Lemma head_reopened n o : (m_value (meta o) = true → survives (operation_value o)) →
  head_fields (reopened_op n o) = head_fields o.
Proof.
  intros Hv. unfold head_fields. change (meta (reopened_op n o)) with (meta o).
  assert (∀ p, set_if (m_value (meta o)) "value" (operation_value (reopened_op n o)) p = set_if (m_value (meta o)) "value" (operation_value o) p) as Hval.
  { intros p. unfold operation_value at 1. cbn [value_text reopened_op]. destruct (m_value (meta o)); [|done]. by rewrite Hv. }
  rewrite Hval. cbn [reopened_op mode description path keep_origin]. rewrite trim_idemp.
  destruct (m_keepOrigin (meta o)), (keep_origin o), (m_path (meta o)), (m_pathOptional (meta o)); cbn [orb andb]; by rewrite ?trim_idemp.
Qed.

(** A rule of a header mode, member by member. *)
Lemma fields_header o : operation_known o → m_pathAlias (meta o) = true →
  operation_fields o =
  ("mode"%js, VStr (mode o)) ::
  (if nonempty (trim (description o)) then [("description"%js, VStr (trim (description o)))] else []) ++
  (if keep_origin o then [("keep_origin"%js, VBool true)] else []) ++
  [("from"%js, VStr (written_from o)); ("to"%js, VStr (written_to o))].
Proof.
  intros Hk Ha. pose proof (alias_header o Hk Ha) as Hm. unfold operation_fields, written_from, written_to. rewrite (mode_else o Hk).
  cbv zeta. fold (meta o). rewrite Hm. cbn [meta_header m_path m_pathOptional m_value m_keepOrigin m_from m_to m_pathAlias].
  cbn [andb negb]. generalize (trim (description o)), (trim (from o)), (trim (to o)), (trim (path o)). intros d f t p.
  destruct d, (keep_origin o), f, t, p; reflexivity.
Qed.

Lemma reopened_known n o : operation_known o → operation_known (reopened_op n o).
Proof.
  intros Hk. split; [apply Hk|]. cbn [reopened_op conditions]. pose proof (kept_known o Hk) as Hkc. revert Hkc.
  generalize (S n). induction (kept_conditions o) as [|c cs IH]; intros m Hf; [done|]. apply Forall_cons in Hf as [[_ Hc'] Hf].
  cbn. constructor; [done|]. by apply IH.
Qed.

Lemma reopened_from n o : operation_known o → written_from (reopened_op n o) = written_from o.
Proof.
  intros Hk. unfold written_from at 1. change (meta (reopened_op n o)) with (meta o). cbn [reopened_op from path]. rewrite written_from_trim.
  destruct (m_pathAlias (meta o)) eqn:Ha; [rewrite (alias_header o Hk Ha); simpl; by rewrite andb_false_r|]. simpl.
  unfold written_from. rewrite Ha. simpl. by destruct (m_from (meta o)).
Qed.

Lemma reopened_to n o : operation_known o → written_to (reopened_op n o) = written_to o.
Proof.
  intros Hk. unfold written_to at 1. change (meta (reopened_op n o)) with (meta o). cbn [reopened_op to path]. rewrite written_to_trim.
  destruct (m_pathAlias (meta o)) eqn:Ha; [|done]. rewrite (alias_header o Hk Ha). simpl. by rewrite andb_false_r.
Qed.

Lemma fields_reopened n o : operation_known o → (m_value (meta o) = true → survives (operation_value o)) →
  operation_fields (reopened_op n o) = operation_fields o.
Proof.
  intros Hk Hv. pose proof (reopened_known n o Hk) as Hk'.
  change (meta (reopened_op n o)) with (meta o) in *. destruct (m_pathAlias (meta o)) eqn:Ha.
  - rewrite !fields_header by done. pose proof (alias_header o Hk Ha) as Hm.
    rewrite reopened_from, reopened_to by done. cbn [reopened_op mode description keep_origin]. rewrite Hm, trim_idemp. done.
  - rewrite !fields_plain, head_reopened by done. change (meta (reopened_op n o)) with (meta o). cbn [reopened_op from to].
    rewrite written_from_trim, written_to_trim. unfold written_from, written_to. rewrite Ha. cbv zeta. simpl.
    by destruct (m_from (meta o)).
Qed.

Lemma kept_reopened n c : kept_condition (reopened_condition n c) = kept_condition c.
Proof. unfold kept_condition. cbn [reopened_condition c_path]. by rewrite trim_idemp. Qed.

Lemma conditions_kept n o : kept_conditions (reopened_op n o) = reopened_conditions (S n) (kept_conditions o).
Proof.
  unfold kept_conditions at 1. cbn [reopened_op conditions]. assert (Forall (λ c, kept_condition c = true) (kept_conditions o)) as H.
  { apply Forall_forall. by intros c [_ ?]%elem_of_lfilter. }
  revert H. generalize (S n). induction (kept_conditions o) as [|c cs IH]; intros m Hf; [done|]. apply Forall_cons in Hf as [Hc Hf].
  cbn [reopened_conditions List.filter]. by rewrite kept_reopened, Hc, IH.
Qed.

Lemma condition_rewritten n c : kept_condition c = true → condition_known c →
  condition_payload (reopened_condition n c) = condition_payload c ↔ survives (condition_value c).
Proof.
  intros Hk Hc. split.
  - intros E. destruct (condition_members c Hk Hc) as (_ & _ & Hv & _).
    destruct (condition_members (reopened_condition n c)) as (_ & _ & Hv' & _); [by rewrite kept_reopened|done|].
    rewrite E, Hv in Hv'. done.
  - intros Hs. rewrite !condition_payload_eq by (by rewrite ?kept_reopened). unfold condition_base. cbn [reopened_condition c_path c_mode c_invert c_pass_missing_key].
    rewrite trim_idemp. replace (condition_value (reopened_condition n c)) with (condition_value c) by done. done.
Qed.

Lemma conditions_rewritten cs n : Forall (λ c, kept_condition c = true ∧ condition_known c) cs →
  condition_payload <$> reopened_conditions n cs = condition_payload <$> cs ↔ Forall (λ c, survives (condition_value c)) cs.
Proof.
  intros H. revert n. induction H as [|c cs [Hk Hc] _ IH]; intros n; [done|]. cbn [reopened_conditions fmap list_fmap].
  rewrite Forall_cons, <- (condition_rewritten n) by done. rewrite <- (IH (S n)). split; [by intros [= ? ?]|intros [-> ->]; done].
Qed.

Definition op_survives (o : ParamOverrideOperation) : Prop :=
  (m_value (meta o) = true → survives (operation_value o)) ∧ Forall (λ c, survives (condition_value c)) (kept_conditions o).

Lemma has_reopened n o : has_conditions (reopened_op n o) = has_conditions o.
Proof. unfold has_conditions. rewrite conditions_kept. by destruct (kept_conditions o). Qed.

(** A rule that was opened is written as before if its values survive. *)
Lemma payload_rewritten n o : operation_known o →
  buildOperationPayload (reopened_op n o) = buildOperationPayload o ↔ op_survives o.
Proof.
  intros Hk. pose proof (reopened_known n o Hk) as Hk'. unfold op_survives. rewrite <- (conditions_rewritten _ (S n)) by (by apply kept_known). split.
  - intros E. split.
    + intros Hv. destruct (fields_members o Hk) as (_ & _ & _ & H1 & _). destruct (fields_members _ Hk') as (_ & _ & _ & H2 & _).
      rewrite <- payload_prop in H1, H2 by done. rewrite E, H1 in H2. change (meta (reopened_op n o)) with (meta o) in H2. rewrite Hv in H2.
      unfold operation_value at 2 in H2. cbn [reopened_op value_text] in H2. by rewrite Hv in H2.
    + assert (∀ x, prop (buildOperationPayload x) "conditions" = if has_conditions x then VArr (condition_payload <$> kept_conditions x) else prop (VObj (operation_fields x)) "conditions") as Hc.
      { intros x. rewrite payload_eq, written_other by done. by rewrite written_same. }
      pose proof (Hc o) as H1. pose proof (Hc (reopened_op n o)) as H2. rewrite E, H1, has_reopened, conditions_kept in H2.
      unfold has_conditions in H2. destruct (kept_conditions o); [done|]. congruence.
  - intros [Hv Hc]. rewrite !payload_eq, has_reopened, conditions_kept, fields_reopened by done. rewrite Hc.
    assert (∀ p, set_if (has_conditions o) "logic" (VStr (written_logic (reopened_op n o))) p = set_if (has_conditions o) "logic" (VStr (written_logic o)) p) as ->; [|done].
    intros p. unfold written_logic, has_conditions. cbn [reopened_op logic]. destruct (kept_conditions o); [done|]. by destruct (str_eqb (logic o) "AND").
Qed.

(** ** Validation of what is opened *)

(** The required fields are the ones the mode has. *)
Lemma required_meta o : operation_known o →
  set_has FROM_REQUIRED_MODES (mode o) = m_from (meta o) ∧ set_has TO_REQUIRED_MODES (mode o) = m_to (meta o) ∧
  (set_has VALUE_REQUIRED_MODES (mode o) = true → m_value (meta o) = true) ∧
  (str_eqb (mode o) "return_error" || str_eqb (mode o) "pass_headers" = true → set_has VALUE_REQUIRED_MODES (mode o) = true).
Proof.
  intros [Hm _]. unfold meta. revert Hm. generalize (mode o).
  apply (Forall_forall (λ m, set_has FROM_REQUIRED_MODES m = m_from (meta_of m) ∧ set_has TO_REQUIRED_MODES m = m_to (meta_of m) ∧
    (set_has VALUE_REQUIRED_MODES m = true → m_value (meta_of m) = true) ∧
    (str_eqb m "return_error" || str_eqb m "pass_headers" = true → set_has VALUE_REQUIRED_MODES m = true))).
  repeat (apply Forall_cons; split; [vm_compute; done|]). by apply Forall_nil.
Qed.

(** A complaint about an error object depends on the value alone. *)
Definition message_missing (v : value) : bool :=
  match v with
  | VObj fs => negb (nonempty (trim (to_string (let v := prop (VObj fs) "message" in if truthy v then v else VStr []))))
  | _ => false
  end.

Lemma message_of_value t : nonempty (trim t) = true →
  (match JSON_parse (trim t) with
   | Some (VObj fs) => negb (nonempty (trim (to_string (let v := prop (VObj fs) "message" in if truthy v then v else VStr []))))
   | _ => false end) = message_missing (parseLooseValue t).
Proof. unfold parseLooseValue. intros ->. simpl negb. cbn iota. by destruct (JSON_parse (trim t)) as [[]|]. Qed.

Lemma loose_trim t : parseLooseValue (trim t) = parseLooseValue t.
Proof. unfold parseLooseValue. by rewrite trim_idemp. Qed.

(** The checks of a rule, on what is written of it. *)
Definition rule_error (m : jsstr) (p f t : jsstr) (given : bool) (v : value) : option jsstr :=
  let meta := meta_of m in
  if m_path meta && negb (nonempty p) then Some "Rule {{line}} is missing target path"%js
  else if m_from meta && negb (nonempty f) then Some "Rule {{line}} is missing source field"%js
  else if m_to meta && negb (nonempty t) then Some "Rule {{line}} is missing target field"%js
  else if set_has VALUE_REQUIRED_MODES m && negb given then Some "Rule {{line}} is missing value"%js
  else if str_eqb m "return_error" && message_missing v then Some "Rule {{line}} return_error requires a message field"%js
  else if str_eqb m "pass_headers" && match parsePassHeaderNames v with [] => true | _ => false end
  then Some "Rule {{line}} pass_headers format is invalid"%js
  else None.

Lemma from_missing o :
  m_from (meta o) && negb (nonempty (trim (from o))) && negb (m_pathAlias (meta o) && nonempty (trim (path o))) =
  m_from (meta o) && negb (nonempty (written_from o)).
Proof.
  unfold written_from. cbv zeta.
  destruct (m_from (meta o)), (m_pathAlias (meta o)), (nonempty (trim (from o))) eqn:E, (nonempty (trim (path o))) eqn:E'; simpl; rewrite ?E, ?E'; done.
Qed.

Lemma to_missing o :
  m_to (meta o) && negb (nonempty (trim (to o))) && negb (m_pathAlias (meta o) && nonempty (trim (path o))) =
  m_to (meta o) && negb (nonempty (written_to o)).
Proof.
  unfold written_to.
  destruct (m_to (meta o)), (m_pathAlias (meta o)), (nonempty (trim (to o))) eqn:E, (nonempty (trim (path o))) eqn:E'; simpl; rewrite ?E, ?E'; done.
Qed.

Lemma operation_error_exact o : operation_known o →
  operation_error o = rule_error (mode o) (trim (path o)) (written_from o) (written_to o) (nonempty (trim (value_text o))) (operation_value o).
Proof.
  intros Hk. destruct (required_meta o Hk) as (Hf & Ht & _ & Hs). unfold operation_error, rule_error. rewrite (mode_else o Hk), loose_trim. cbv zeta.
  fold (operation_value o). change (meta_of (mode o)) with (meta o). rewrite Hf, Ht, from_missing, to_missing.
  destruct (set_has VALUE_REQUIRED_MODES (mode o) && negb (nonempty (trim (value_text o)))) eqn:Hr; [done|].
  destruct (str_eqb (mode o) "return_error") eqn:He; [|done]. rewrite Hs in Hr by done. apply negb_false_iff in Hr.
  by rewrite message_of_value.
Qed.

(** What must hold for an opened rule to be written as before: its values
    survive, and a required value is not the empty text. *)
Definition rewritable (o : ParamOverrideOperation) : Prop :=
  op_survives o ∧ (set_has VALUE_REQUIRED_MODES (mode o) = true → operation_value o ≠ VStr []).

Lemma survives_given v : survives v → nonempty (trim (toValueText v)) = true ↔ v ≠ VStr [].
Proof.
  unfold survives, parseLooseValue. intros H. destruct (nonempty (trim (toValueText v))) eqn:E; simpl in H; [|by rewrite <- H; split].
  split; [|done]. intros _ ->. by rewrite trim_id in E.
Qed.

Lemma reopened_value n o : m_value (meta o) = true → survives (operation_value o) → operation_value (reopened_op n o) = operation_value o.
Proof. intros Hm Hs. unfold operation_value at 1. cbn [reopened_op value_text]. by rewrite Hm, Hs. Qed.

Lemma reopened_error n o : operation_known o → op_survives o → operation_error o = None →
  operation_error (reopened_op n o) = None ↔ (set_has VALUE_REQUIRED_MODES (mode o) = true → operation_value o ≠ VStr []).
Proof.
  intros Hk [Hv _]. rewrite !operation_error_exact by (try apply reopened_known; done). rewrite reopened_from, reopened_to by done.
  destruct (required_meta o Hk) as (_ & _ & Hr & Hs). unfold rule_error. cbn [reopened_op mode path value_text]. fold (meta o).
  assert (m_path (meta o) && negb (nonempty (trim (if m_path (meta o) || m_pathOptional (meta o) then trim (path o) else []))) =
          m_path (meta o) && negb (nonempty (trim (path o)))) as -> by (destruct (m_path (meta o)); simpl; by rewrite ?trim_idemp).
  destruct (m_path (meta o) && _); [done|]. destruct (m_from (meta o) && _); [done|]. destruct (m_to (meta o) && _); [done|].
  destruct (set_has VALUE_REQUIRED_MODES (mode o)) eqn:Hq; cbn [andb].
  - rewrite Hr by done. specialize (Hv (Hr eq_refl)). rewrite (reopened_value n o) by auto. pose proof (survives_given _ Hv) as Hg.
    destruct (negb (nonempty (trim (value_text o)))); [done|]. destruct (nonempty (trim (toValueText _))).
    + intros H. split; [|done]. intros _ _. by apply Hg.
    + intros _. split; [done|]. intros H. specialize (H eq_refl). by apply Hg in H.
  - destruct (str_eqb (mode o) "return_error"); [by specialize (Hs eq_refl)|].
    destruct (str_eqb (mode o) "pass_headers"); [by specialize (Hs eq_refl)|]. by intros _.
Qed.

(** ** The text again *)

Lemma validate_None k ops : validate_from k ops = None ↔ Forall (λ o, operation_error o = None) ops.
Proof.
  revert k. induction ops as [|o ops IH]; intros k; [by split|]. cbn. rewrite Forall_cons. destruct (operation_error o); [by split; [|intros []]|].
  rewrite IH. by split; [|intros []].
Qed.

(** A rule that passes is not blank once it is opened. *)
Lemma reopened_written n o : operation_known o → operation_error o = None → isOperationBlank (reopened_op n o) = false.
Proof.
  intros Hk He. unfold isOperationBlank. cbn [reopened_op mode path]. destruct (str_eqb (mode o) "set") eqn:Hm; [|done].
  apply str_eqb_spec in Hm. unfold operation_error in He. rewrite (mode_else o Hk), Hm in He. unfold meta. rewrite Hm.
  change (meta_of "set") with meta_set in *. cbn [meta_set m_path m_pathOptional orb andb] in He |- *. rewrite trim_idemp.
  by destruct (nonempty (trim (path o))).
Qed.

Lemma written_reopened ops n : Forall operation_known ops → Forall (λ o, operation_error o = None) ops →
  written_ops (reopened_ops n ops) = reopened_ops n ops.
Proof.
  intros H1 H2. revert n. induction H1 as [|o ops Ho _ IH]; intros n; [done|]. apply Forall_cons in H2 as [He H2].
  cbn [reopened_ops written_ops List.filter]. rewrite reopened_written by done. cbn [negb]. f_equal. by apply IH.
Qed.

Lemma payloads_rewritten ops n : Forall operation_known ops →
  buildOperationPayload <$> reopened_ops n ops = buildOperationPayload <$> ops ↔ Forall op_survives ops.
Proof.
  intros H. revert n. induction H as [|o ops Ho _ IH]; intros n; [done|]. cbn [reopened_ops fmap list_fmap].
  rewrite Forall_cons, <- (payload_rewritten n) by done. rewrite <- (IH (S n + length (kept_conditions o))%nat).
  split; [by intros [= ? ?]|intros [-> ->]; done].
Qed.

Lemma reopened_valid ops n : Forall operation_known ops → Forall op_survives ops → Forall (λ o, operation_error o = None) ops →
  Forall (λ o, operation_error o = None) (reopened_ops n ops) ↔
  Forall (λ o, set_has VALUE_REQUIRED_MODES (mode o) = true → operation_value o ≠ VStr []) ops.
Proof.
  intros H H1 H2. revert n. induction H as [|o ops Ho _ IH]; intros n; [done|]. apply Forall_cons in H1 as [Hs H1], H2 as [He H2].
  cbn [reopened_ops]. rewrite !Forall_cons, IH, reopened_error by done. done.
Qed.

Lemma build_valid ops t : buildOperationsJson ops true = inr t → Forall (λ o, operation_error o = None) (written_ops ops).
Proof.
  unfold buildOperationsJson. fold (written_ops ops). destruct (written_ops ops) as [|o ops'] eqn:E; [done|].
  destruct (validateOperations (o :: ops')) eqn:Hv; [done|]. intros _. by apply (validate_None 1).
Qed.

Lemma build_all ops : written_ops ops = ops → ops ≠ [] → ∀ t,
  buildOperationsJson ops true = inr t ↔ Forall (λ o, operation_error o = None) ops ∧ default [] (JSON_stringify2 (document ops)) = t.
Proof.
  intros Hw Hne t. unfold buildOperationsJson. fold (written_ops ops). rewrite Hw. destruct ops as [|o ops']; [done|].
  rewrite <- (validate_None 1). unfold validateOperations. destruct (validate_from 1 (o :: ops')); [by split; [|intros []]|].
  split; [intros [= <-]; done|intros [_ <-]; done].
Qed.

(** Different documents have different texts. *)
Lemma document_inj ops ops' : jsonable (document ops) → jsonable (document ops') →
  default [] (JSON_stringify2 (document ops)) = default [] (JSON_stringify2 (document ops')) →
  buildOperationPayload <$> ops = buildOperationPayload <$> ops'.
Proof.
  intros H1 H2. destruct (JSON_parse_stringify2 _ H1) as (t & -> & _ & Hp). destruct (JSON_parse_stringify2 _ H2) as (t' & -> & _ & Hp').
  simpl. intros ->. rewrite Hp in Hp'. unfold document in Hp'. congruence.
Qed.

Lemma reopened_all_known ops n : Forall operation_known ops → Forall operation_known (reopened_ops n ops).
Proof. intros H. revert n. induction H; intros n; cbn; constructor; [by apply reopened_known|done]. Qed.

(** C28: Rules that passed the validation and were saved, opened and saved again
    without a change, give the same text exactly if every value in them
    survives being shown as a text (see [survives_exact]: all values do but
    the texts with outer space and those that are themselves JSON) and no
    required value is the empty JSON string, which the validation takes for
    missing the second time. *)
Theorem resave_exact ops n t :
  Forall operation_known ops → Forall operation_printable ops → Forall operation_printable (reopened_ops n (written_ops ops)) →
  buildOperationsJson ops true = inr t →
  ∃ s n', parseInitialState t n = Ret (s, n') ∧
          (buildOperationsJson (s_operations s) true = inr t ↔ Forall rewritable (written_ops ops)).
Proof.
  intros Hk Hp Hp' Hb. pose proof (build_exact _ _ _ Hb) as Ht. destruct (written_ops ops) as [|o ws] eqn:Hw.
  { subst t. eexists _, _. split; [reflexivity|]. done. }
  pose proof (build_valid _ _ Hb) as He. rewrite Hw in He. pose proof (written_Forall _ _ Hk) as Hk1. pose proof (written_Forall _ _ Hp) as Hp1.
  rewrite Hw in Hk1, Hp1. pose proof (document_jsonable _ Hk1 Hp1) as Hj.
  assert (t ≠ []) as Hne by (destruct (JSON_parse_stringify2 _ Hj) as (t' & E & (c & r & -> & _) & _); by rewrite Ht, E).
  pose proof (rules_opened ops true t n Hk Hp Hb Hne) as Hopen. rewrite Hw in Hopen. eexists _, _. split; [exact Hopen|]. cbn [s_operations].
  rewrite build_all by (try apply written_reopened; done).
  pose proof (document_jsonable _ (reopened_all_known _ n Hk1) Hp') as Hj'. unfold rewritable. rewrite Forall_and, <- (payloads_rewritten _ n) by done. split.
  - intros [Hv E]. assert (buildOperationPayload <$> reopened_ops n (o :: ws) = buildOperationPayload <$> o :: ws) as Hs.
    { apply document_inj; [done..|]. by rewrite E. }
    split; [done|]. apply payloads_rewritten in Hs; [|done]. by apply (reopened_valid _ n).
  - intros [Hs Hv]. unfold document. rewrite Hs. split; [|done]. apply payloads_rewritten in Hs; [|done]. by apply (reopened_valid _ n).
Qed.

(** ** Example *)

Definition sample_condition : ParamOverrideCondition := MkCondition 1 " model " "prefix" "openai/" true false.
Definition sample_rules : list ParamOverrideOperation :=
  [MkOperation 0 " note " " temperature " "set" [] [] " 0.5 " true "AND" [sample_condition; MkCondition 2 [] "full" "unused" false false];
   MkOperation 3 [] [] "set" [] [] [] false "OR" [];
   MkOperation 4 [] "X-Id" "copy_header" [] "X-To" [] false "OR" []].

#[export] Instance operation_known_dec o : Decision (operation_known o).
Proof. unfold operation_known, condition_known. apply _. Defined.
#[export] Instance operation_printable_dec o : Decision (operation_printable o).
Proof. unfold operation_printable. apply _. Defined.

Lemma sample_known : Forall operation_known sample_rules.
Proof. apply (bool_decide_unpack _). vm_compute. exact I. Defined.
Lemma sample_printable : Forall operation_printable sample_rules.
Proof. apply (bool_decide_unpack _). vm_compute. exact I. Defined.

Lemma rules_reopen_witness :
  ∃ t, buildOperationsJson sample_rules true = inr t ∧
       parseInitialState t 7 = Ret (MkEditorState false false [] (reopened_ops 7 (written_ops sample_rules)) t [], 10).
Proof.
  destruct (buildOperationsJson sample_rules true) as [m|t] eqn:E; [vm_compute in E; discriminate|]. exists t. split; [done|].
  apply (rules_reopen sample_rules true t 7 sample_known sample_printable E).
  intros ->. vm_compute in E. discriminate.
Defined.

(** A text that is a number is written as a number the second time. *)
Definition quoted_rules : list ParamOverrideOperation :=
  [MkOperation 0 [] "user" "set" [] [] (34%N :: "42"%js ++ [34%N]) false "OR" []].

Lemma resave_exact_witness :
  ∃ t s n', buildOperationsJson quoted_rules true = inr t ∧ parseInitialState t 1 = Ret (s, n') ∧
            (buildOperationsJson (s_operations s) true = inr t ↔ Forall rewritable (written_ops quoted_rules)) ∧
            buildOperationsJson (s_operations s) true ≠ inr t.
Proof.
  destruct (buildOperationsJson quoted_rules true) as [m|t] eqn:E; [vm_compute in E; discriminate|]. exists t.
  destruct (resave_exact quoted_rules 1 t) as (s & n' & H1 & H2); [by apply (bool_decide_unpack _); vm_compute..|done|].
  exists s, n'. split; [done|]. split; [done|]. split; [done|]. vm_compute in E. injection E as <-. vm_compute in H1. injection H1 as <- _.
  vm_compute. discriminate.
Defined.

End ParamOverrideFacts.
