(* ===== verification/ParamEditorFacts.v ===== *)
(** * Facts about the editor of parameter overrides

    [editor_invariant] holds in every reachable state; [prune_rules_inert] says
    what the controls of prune rules do. *)

From S2P Require Import Prelude JsString JsNumber JsValue ParamOverride ParamEditor ParamOverrideFacts.

Module ParamEditorFacts.
Import ParamOverride ParamEditor ParamOverrideFacts.

(** ** Ids *)

Definition op_ids (o : ParamOverrideOperation) : list nat := op_id o :: (c_id <$> conditions o).
Definition all_ids (ops : list ParamOverrideOperation) : list nat := ops ≫= op_ids.

Definition rule_ok (o : ParamOverrideOperation) : Prop := operation_known o ∧ (logic o = "AND" ∨ logic o = "OR")%js.

Definition inv_ops (n : nat) (ops : list ParamOverrideOperation) : Prop :=
  ops ≠ [] ∧ NoDup (all_ids ops) ∧ Forall (λ i, i < n)%nat (all_ids ops) ∧ Forall rule_ok ops.

Lemma nodup_within (l k : list nat) : NoDup k → l ⊆+ k → NoDup l.
Proof. intros Hk (r & Hr)%submseteq_Permutation. rewrite Hr in Hk. by apply NoDup_app in Hk as [? _]. Qed.

(** The rules after a change have ids from before and new ones. *)
Lemma inv_grow n ops n' ops' : inv_ops n ops → (n <= n')%nat → all_ids ops' ⊆+ all_ids ops ++ seq n (n' - n) →
  ops' ≠ [] → Forall rule_ok ops' → inv_ops n' ops'.
Proof.
  intros (_ & Hd & Hb & _) Hn Hs Hne Hok. rewrite Forall_forall in Hb. split; [done|].
  assert (NoDup (all_ids ops ++ seq n (n' - n))) as Hd'.
  { apply NoDup_app. split_and!; [done| |apply NoDup_seq]. intros i Hi. specialize (Hb i Hi). rewrite elem_of_seq. lia. }
  split_and!; [by eapply nodup_within| |done]. apply Forall_forall. intros i Hi. eapply elem_of_submseteq in Hi; [|done].
  apply elem_of_app in Hi as [Hi|Hi]; [specialize (Hb i Hi); lia|]. apply elem_of_seq in Hi. lia.
Qed.

(** Rules that are all new. *)
Lemma inv_fresh n ops n' ops' : inv_ops n ops → (n <= n')%nat → all_ids ops' = seq n (n' - n) → ops' ≠ [] → Forall rule_ok ops' →
  inv_ops n' ops'.
Proof. intros Hi Hn He. apply (inv_grow n ops); [done..|]. rewrite He. apply submseteq_inserts_l. done. Qed.

(** Rules whose ids are from before. *)
Lemma inv_within n ops ops' : inv_ops n ops → all_ids ops' ⊆+ all_ids ops → ops' ≠ [] → Forall rule_ok ops' → inv_ops n ops'.
Proof. intros Hi He. apply (inv_grow n ops); [done..|]. by apply submseteq_inserts_r. Qed.

(** Ids that nothing uses may pass. *)
Lemma inv_later n n' ops : inv_ops n ops → (n <= n')%nat → inv_ops n' ops.
Proof. intros (H1 & H2 & H3 & H4) Hn. split_and!; try done. eapply Forall_impl; [done|]. intros; simpl in *; lia. Qed.

Lemma all_ids_cons o ops : all_ids (o :: ops) = op_ids o ++ all_ids ops.
Proof. done. Qed.
Lemma all_ids_app l k : all_ids (l ++ k) = all_ids l ++ all_ids k.
Proof. apply bind_app. Qed.

Lemma all_ids_map f ops : (∀ o, o ∈ ops → op_ids (f o) ⊆+ op_ids o) → all_ids (f <$> ops) ⊆+ all_ids ops.
Proof.
  induction ops as [|o ops IH]; intros H; [done|]. rewrite fmap_cons, !all_ids_cons. apply submseteq_app; [apply H; by left|]. apply IH. intros; apply H; by right.
Qed.

Lemma all_ids_filter P ops : all_ids (List.filter P ops) ⊆+ all_ids ops.
Proof.
  induction ops as [|o ops IH]; [done|]. cbn [List.filter]. destruct (P o); rewrite !all_ids_cons.
  - by apply submseteq_app.
  - by apply submseteq_inserts_l.
Qed.

Lemma all_ids_perm ops ops' : ops ≡ₚ ops' → all_ids ops ≡ₚ all_ids ops'.
Proof. intros H. unfold all_ids. by rewrite H. Qed.

(** A rule is found by its id. *)
Lemma ids_distinct o ops o' : NoDup (all_ids (o :: ops)) → o' ∈ ops → op_id o' ≠ op_id o.
Proof.
  intros [Hn _]%NoDup_cons Ho E. apply Hn, elem_of_app. right. apply list_elem_of_bind. exists o'. split; [|done]. rewrite <- E. by left.
Qed.

Lemma head_elem {A} (l : list A) x : head l = Some x → x ∈ l.
Proof. destruct l; [done|]. intros [= ->]. by left. Qed.

(** ** New rules *)

Lemma ret_pair {A B} (a a' : A) (b b' : B) : Ret (a, b) = Ret (a', b') → a = a' ∧ b = b'.
Proof. by intros [= -> ->]. Qed.

Lemma condition_fresh v n c n' : normalizeRuleCondition v n = Ret (c, n') → n' = S n ∧ c_id c = n ∧ condition_known c.
Proof.
  unfold normalizeRuleCondition. assert (∀ m, known_mode CONDITION_MODE_VALUES "full" m ∈ CONDITION_MODE_VALUES) as Hk.
  { intros m. unfold known_mode. assert ("full"%js ∈ CONDITION_MODE_VALUES) by (by apply set_has_spec). destruct m; try done. case_match; [by apply set_has_spec|done]. }
  destruct v; [|done|..]; intros [<- <-]%ret_pair; (split; [done|]); (split; [done|]); apply Hk.
Qed.

Lemma conditions_fresh vs n cs n' : map_fresh normalizeRuleCondition vs n = Ret (cs, n') →
  (n <= n')%nat ∧ c_id <$> cs = seq n (n' - n) ∧ Forall condition_known cs.
Proof.
  revert n cs n'. induction vs as [|v vs IH]; intros n cs n' E; cbn [map_fresh] in E; [injection E as <- <-; rewrite Nat.sub_diag; done|].
  destruct (normalizeRuleCondition v n) as [|[c n1]] eqn:Ec; [done|]. destruct (map_fresh _ vs n1) as [|[cs' n2]] eqn:Er; [done|]. injection E as <- <-.
  apply condition_fresh in Ec as (-> & Hc & Hk). apply IH in Er as (Hn & Hi & Hf). split; [lia|]. split; [|by constructor].
  cbn. rewrite Hc, Hi. replace (n2 - n)%nat with (S (n2 - S n)) by lia. done.
Qed.

Definition read_conditions (v : value) (n : nat) : exc (list ParamOverrideCondition * nat) :=
  match prop v "conditions" with VArr cs => map_fresh normalizeRuleCondition cs (S n) | _ => Ret ([], S n) end.

Lemma read_fresh v n cs n' : read_conditions v n = Ret (cs, n') →
  (S n <= n')%nat ∧ c_id <$> cs = seq (S n) (n' - S n) ∧ Forall condition_known cs.
Proof.
  unfold read_conditions. destruct (prop v "conditions"); try (intros [<- <-]%ret_pair; by rewrite Nat.sub_diag). apply conditions_fresh.
Qed.

Lemma normalize_parts v n o n' : normalizeOperation v n = Ret (o, n') →
  ∃ cs, read_conditions v n = Ret (cs, n') ∧ op_id o = n ∧ conditions o = cs ∧
        mode o = known_mode OPERATION_MODE_VALUES "set" (prop v "mode") ∧ (logic o = "AND" ∨ logic o = "OR")%js.
Proof.
  assert (v ≠ VNull → normalizeOperation v n = match read_conditions v n with Throw => Throw | Ret (cs, n') =>
      Ret (MkOperation n (string_member v "description") (string_member v "path")
             (known_mode OPERATION_MODE_VALUES "set" (prop v "mode")) (string_member v "from") (string_member v "to")
             (toValueText (prop v "value")) (true_member v "keep_origin")
             (if upper_is (prop v "logic") "OR" "AND" then "AND" else "OR") cs, n') end) as Heq by (by destruct v).
  intros E. assert (v ≠ VNull) as Hv by (by intros ->). rewrite Heq in E by done. destruct (read_conditions v n) as [|[cs n1]]; [done|].
  apply ret_pair in E as [<- <-]. exists cs. split_and!; [done..|]. cbn [logic]. case_match; auto.
Qed.

Lemma operation_fresh v n o n' : normalizeOperation v n = Ret (o, n') → (n <= n')%nat ∧ op_ids o = seq n (n' - n) ∧ rule_ok o.
Proof.
  intros (cs & (Hn & Hc & Hk)%read_fresh & Ho & <- & Hm & Hl)%normalize_parts.
  split; [lia|]. split.
  - unfold op_ids. rewrite Ho, Hc. replace (n' - n)%nat with (S (n' - S n)) by lia. done.
  - split; [|done]. split; [|done]. rewrite Hm. unfold known_mode. assert ("set"%js ∈ OPERATION_MODE_VALUES) by (by apply set_has_spec).
    destruct (prop v "mode"); try done. case_match; [by apply set_has_spec|done].
Qed.

Lemma operations_fresh vs n ops n' : map_fresh normalizeOperation vs n = Ret (ops, n') →
  (n <= n')%nat ∧ all_ids ops = seq n (n' - n) ∧ Forall rule_ok ops ∧ length ops = length vs.
Proof.
  revert n ops n'. induction vs as [|v vs IH]; intros n ops n' E; cbn [map_fresh] in E; [injection E as <- <-; rewrite Nat.sub_diag; done|].
  destruct (normalizeOperation v n) as [|[o n1]] eqn:Ec; [done|]. destruct (map_fresh _ vs n1) as [|[ops' n2]] eqn:Er; [done|]. injection E as <- <-.
  apply operation_fresh in Ec as (Hn1 & Hc & Hk). apply IH in Er as (Hn & Hi & Hf & Hl). split; [lia|]. split_and!; [|by constructor|cbn; lia].
  rewrite all_ids_cons, Hi, Hc.
  replace (n2 - n)%nat with ((n1 - n) + (n2 - n1))%nat by lia. rewrite seq_app. do 2 f_equal; lia.
Qed.

Lemma default_fresh n : rule_ok (createDefaultOperation n).1 ∧ all_ids [(createDefaultOperation n).1] = seq n 1.
Proof. split; [|done]. split; [|by right]. split; [by apply set_has_spec|done]. Qed.

(** ** Drafts of pruned objects *)

Lemma entry_rules_ids fs n : (n <= (entry_rules fs n).2)%nat ∧ Forall (λ r, n <= c_id r < (entry_rules fs n).2)%nat (entry_rules fs n).1.
Proof.
  revert n. induction fs as [|[k v] fs IH]; intros n; [done|]. cbn. specialize (IH (S n)). destruct (entry_rules fs (S n)) as [l n'].
  cbn in *. destruct IH as [H1 H2]. split; [lia|]. constructor; [cbn; lia|]. eapply Forall_impl; [done|]. intros r Hr. cbn in *. lia.
Qed.

Lemma item_rules_ids vs n : (n <= (item_rules vs n).2)%nat ∧ Forall (λ r, n <= c_id r < (item_rules vs n).2)%nat (item_rules vs n).1.
Proof.
  revert n. induction vs as [|v vs IH]; intros n; [done|]. cbn [item_rules]. destruct (truthy v && is_object v); [|apply IH].
  destruct (normalizePruneRule v n) as [|[r n1]] eqn:E; [apply IH|]. apply condition_fresh in E as (-> & Hc & _). specialize (IH (S n)).
  destruct (item_rules vs (S n)) as [l n']. cbn in *. destruct IH as [H1 H2]. split; [lia|]. constructor; [cbn; lia|].
  eapply Forall_impl; [done|]. intros r' Hr. cbn in *. lia.
Qed.

(** The rules of a draft take the ids from [n] on. *)
Lemma draft_ids t n : let '(d, n') := parsePruneObjectsDraft t n in (n <= n')%nat ∧ Forall (λ r, n <= c_id r < n')%nat (p_rules d).
Proof.
  unfold parsePruneObjectsDraft. destruct (negb (nonempty (trim t))); [done|]. destruct (JSON_parse (trim t)) as [[| | | | | |fs]|]; try done.
  set (P := λ (x : list ParamOverrideCondition * nat) n, (n <= x.2)%nat ∧ Forall (λ r, n <= c_id r < x.2)%nat x.1).
  assert (P (match prop (VObj fs) "where" with VObj ws => entry_rules ws n | _ => ([], n) end) n) as H1.
  { unfold P. destruct (prop (VObj fs) "where"); try done. apply entry_rules_ids. }
  destruct (match prop (VObj fs) "where" with VObj ws => entry_rules ws n | _ => ([], n) end) as [r1 n1].
  assert (P (match prop (VObj fs) "conditions" with VArr vs => item_rules vs n1 | VObj ws => entry_rules ws n1 | _ => ([], n1) end) n1) as H2.
  { unfold P. destruct (prop (VObj fs) "conditions"); try done; [apply item_rules_ids|apply entry_rules_ids]. }
  destruct (match prop (VObj fs) "conditions" with VArr vs => item_rules vs n1 | VObj ws => entry_rules ws n1 | _ => ([], n1) end) as [r2 n2].
  destruct H1 as [Ha Hb], H2 as [Hc Hd]. cbn in *. split; [lia|]. apply Forall_app. split; (eapply Forall_impl; [done|]); intros r Hr; cbn in *; lia.
Qed.

(** How one rule changes when the numbers start at [n]. *)
Definition prune_one (i : nat) (f : PruneObjectsDraft → nat → PruneObjectsDraft * nat) (n : nat) (o : ParamOverrideOperation) :
    ParamOverrideOperation :=
  if Nat.eqb (op_id o) i
  then let '(d, n1) := parsePruneObjectsDraft (value_text o) n in with_value_text (buildPruneObjectsValueText (f d n1).1) o
  else o.

Lemma prune_update i f e (R : ParamOverrideOperation → ParamOverrideOperation → Prop) :
  (∀ d n, n <= (f d n).2)%nat → (∀ o n, (e_seed e <= n)%nat → R o (prune_one i f n o)) →
  ∃ ops' n', updatePruneObjectsDraft i f e = with_seed n' (with_ops (λ _, ops') e) ∧ (e_seed e <= n')%nat ∧ Forall2 R (e_ops e) ops'.
Proof.
  intros Hf HR. unfold updatePruneObjectsDraft.
  assert (∀ ops acc k, (e_seed e <= k)%nat → ∃ ops' n',
    fold_left (λ acc o, if Nat.eqb (op_id o) i
      then let '(d, n) := parsePruneObjectsDraft (value_text o) (e_seed acc) in let '(d', n') := f d n in
           with_seed n' (with_ops (λ l, l ++ [with_value_text (buildPruneObjectsValueText d') o]) acc)
      else with_ops (λ l, l ++ [o]) acc) ops (with_seed k (with_ops (λ _, acc) e))
    = with_seed n' (with_ops (λ _, acc ++ ops') e) ∧ (k <= n')%nat ∧ Forall2 R ops ops') as Hgo.
  { induction ops as [|o ops IH]; intros acc k Hk; [exists [], k; rewrite app_nil_r; done|]. cbn [fold_left].
    specialize (HR o k Hk). unfold prune_one in HR. destruct (Nat.eqb (op_id o) i).
    - change (e_seed (with_seed k _)) with k. pose proof (draft_ids (value_text o) k) as Hd. destruct (parsePruneObjectsDraft (value_text o) k) as [d n1].
      specialize (Hf d n1). destruct (f d n1) as [d' n2]. destruct Hd as [Hd _]. cbn in Hf, HR.
      destruct (IH (acc ++ [with_value_text (buildPruneObjectsValueText d') o]) n2) as (ops' & n' & E & Hn & HF); [lia|].
      eexists (_ :: ops'), n'. split; [|split; [lia|by constructor]]. rewrite <- app_assoc in E. exact E.
    - destruct (IH (acc ++ [o]) k Hk) as (ops' & n' & E & Hn & HF). exists (o :: ops'), n'. rewrite <- app_assoc in E. split; [exact E|].
      split; [done|by constructor]. }
  destruct (Hgo (e_ops e) [] (e_seed e)) as (ops' & n' & E & Hn & HF); [done|]. exists ops', n'. split; [|done]. by destruct e.
Qed.

(** ** The invariant, change by change *)

Definition inv (e : Editor) : Prop := inv_ops (e_seed e) (e_ops e).

Lemma inv_map n ops f : inv_ops n ops → (∀ o, op_ids (f o) ⊆+ op_ids o) → (∀ o, rule_ok o → rule_ok (f o)) → inv_ops n (f <$> ops).
Proof.
  intros Hi Hf Hok. apply (inv_within n ops); [done|by apply all_ids_map| |].
  - destruct Hi as (Hne & _). by destruct ops.
  - apply Forall_fmap. destruct Hi as (_ & _ & _ & Hr). eapply Forall_impl; [exact Hr|]. intros o. apply Hok.
Qed.

Lemma editor_update i f e : inv e → (∀ o, op_ids (f o) ⊆+ op_ids o) → (∀ o, rule_ok o → rule_ok (f o)) → inv (update_op i f e).
Proof. intros Hi Hf Hok. apply (inv_map _ _ _ Hi); intros o; destruct (Nat.eqb (op_id o) i); auto. Qed.

Lemma inv_patch i p e : inv e → patch_ok p = true → inv (updateOperation i p e).
Proof.
  intros Hi Hp. apply editor_update; [done| |]; intros []; destruct p; try done; intros [[Hm Hc] Hl]; (split; [split|]); try done.
  - by apply set_has_spec.
  - apply orb_true_iff in Hp as [Hp|Hp]; apply str_eqb_spec in Hp; auto.
Qed.

Lemma fmap_cpatch (P : nat → bool) p (cs : list ParamOverrideCondition) : c_id <$> ((λ c, if P (c_id c) then apply_cpatch p c else c) <$> cs) = c_id <$> cs.
Proof. rewrite <- list_fmap_compose. apply list_fmap_ext. intros _ c _. simpl. destruct (P (c_id c)); [|done]. by destruct c, p. Qed.

Lemma inv_update_condition i ci p e : inv e → cpatch_ok p = true → inv (updateCondition i ci p e).
Proof.
  intros Hi Hp. apply editor_update; [done| |]; intros o.
  - unfold op_ids. cbn [with_conditions op_id conditions]. rewrite (fmap_cpatch (λ j, Nat.eqb j ci)). done.
  - intros [[Hm Hc] Hl]. split; [|done]. split; [done|]. cbn [with_conditions conditions]. apply Forall_fmap. eapply Forall_impl; [exact Hc|].
    intros c Hk. simpl. destruct (Nat.eqb (c_id c) ci); [|done]. destruct c, p; try done. by apply set_has_spec.
Qed.

Lemma ids_filter P cs : c_id <$> List.filter P cs ⊆+ c_id <$> cs.
Proof. induction cs as [|c cs IH]; [done|]. cbn. destruct (P c); cbn; [by apply submseteq_skip|by apply submseteq_cons]. Qed.

Lemma inv_remove_condition i ci e : inv e → inv (removeCondition i ci e).
Proof.
  intros Hi. apply editor_update; [done| |]; intros o.
  - unfold op_ids. cbn [with_conditions op_id conditions]. apply submseteq_skip, ids_filter.
  - intros [[Hm Hc] Hl]. split; [|done]. split; [done|]. cbn [with_conditions conditions]. rewrite Forall_forall in Hc |- *.
    intros c [Hin _]%elem_of_lfilter. auto.
Qed.

Lemma add_condition_ids i c ops : NoDup (all_ids ops) →
  all_ids ((λ o, if Nat.eqb (op_id o) i then with_conditions (λ l, l ++ [c]) o else o) <$> ops) ⊆+ all_ids ops ++ [c_id c].
Proof.
  induction ops as [|o ops IH]; intros Hd; [cbn; apply submseteq_nil_l|]. rewrite fmap_cons, !all_ids_cons. destruct (Nat.eqb_spec (op_id o) i) as [<-|Hi].
  - assert ((λ o', if Nat.eqb (op_id o') (op_id o) then with_conditions (λ l, l ++ [c]) o' else o') <$> ops = ops) as ->.
    { rewrite <- (list_fmap_id ops) at 2. apply Forall_fmap_ext, Forall_forall. intros o' Ho. destruct (Nat.eqb_spec (op_id o') (op_id o)) as [E|]; [|done].
      by destruct (ids_distinct _ _ _ Hd Ho). }
    unfold op_ids. cbn [with_conditions op_id conditions]. rewrite fmap_app. cbn. apply submseteq_skip. rewrite <- !app_assoc.
    apply submseteq_app; [done|]. rewrite (Permutation_app_comm (all_ids ops)). done.
  - rewrite <- app_assoc. apply submseteq_app; [done|]. apply IH. rewrite all_ids_cons in Hd. by apply NoDup_app in Hd as (_ & _ & ?).
Qed.

Lemma inv_add_condition i e : inv e → inv (addCondition i e).
Proof.
  intros Hi. unfold inv. cbn [addCondition createDefaultCondition e_seed e_ops with_seed with_expanded update_op with_ops]. 
  apply (inv_grow (e_seed e) (e_ops e)); [done|lia| | |].
  - replace (S (e_seed e) - e_seed e)%nat with 1 by lia. apply (add_condition_ids i (createDefaultCondition (e_seed e)).1). apply Hi.
  - destruct Hi as (Hne & _). by destruct (e_ops e).
  - apply Forall_fmap. destruct Hi as (_ & _ & _ & Hr). eapply Forall_impl; [exact Hr|]. intros o [[Hm Hc] Hl]. simpl. destruct (Nat.eqb (op_id o) i); [|done].
    split; [|done]. split; [done|]. cbn [with_conditions conditions]. apply Forall_app. split; [done|]. repeat constructor.
Qed.

(** Replacing all rules by an empty one. *)
Lemma inv_default n ops : inv_ops n ops → inv_ops (S n) [(createDefaultOperation n).1].
Proof.
  intros Hi. destruct (default_fresh n) as [H1 H2]. apply (inv_fresh n ops); [done|lia| |done|by apply Forall_singleton].
  rewrite H2. by replace (S n - n)%nat with 1 by lia.
Qed.

Lemma inv_add e : inv e → inv (addOperation e).
Proof.
  intros Hi. unfold inv. cbn. destruct (default_fresh (e_seed e)) as [H1 H2]. apply (inv_grow (e_seed e) (e_ops e)); [done|lia| | |].
  - rewrite all_ids_app. replace (S (e_seed e) - e_seed e)%nat with 1 by lia. rewrite <- H2. done.
  - by destruct (e_ops e).
  - apply Forall_app. split; [apply Hi|]. by apply Forall_singleton.
Qed.

Lemma inv_duplicate eager i e : inv e → inv (duplicateOperation eager i e).
Proof.
  intros Hi. unfold duplicateOperation. destruct (find_index _ (e_ops e)) as [k|]; [|done]. destruct (e_ops e !! k) as [o|]; [|done].
  destruct (normalizeOperation (operation_copy o) (e_seed e)) as [|[c n]] eqn:E; [done|]. apply operation_fresh in E as (Hn & Hc & Hok).
  assert (inv (with_seed n (with_ops (λ l, take (S k) l ++ c :: drop (S k) l) e))) as H; [|by destruct eager].
  unfold inv. cbn [with_seed with_ops e_seed e_ops]. apply (inv_grow (e_seed e) (e_ops e)); [done..| | |].
  - rewrite (all_ids_perm _ (c :: e_ops e)) by (rewrite <- Permutation_middle; by rewrite take_drop). rewrite all_ids_cons, Hc.
    by rewrite Permutation_app_comm.
  - by destruct (take (S k) (e_ops e)).
  - rewrite <- Permutation_middle, take_drop. constructor; [done|apply Hi].
Qed.

Lemma inv_remove i e : inv e → inv (removeOperation i e).
Proof.
  intros Hi. unfold removeOperation. destruct (Nat.leb_spec (length (e_ops e)) 1) as [Hl|Hl]; [by eapply inv_default|].
  apply (inv_within _ (e_ops e)); [done|apply all_ids_filter| |].
  - destruct Hi as (_ & Hd & _). cbn [with_ops e_ops]. destruct (e_ops e) as [|o [|o' ops]]; cbn in Hl; [lia..|].
    assert (op_id o' ≠ op_id o) as Hne by (eapply ids_distinct; [done|by left]).
    cbn. destruct (Nat.eqb_spec (op_id o) i), (Nat.eqb_spec (op_id o') i); cbn; try done. congruence.
  - destruct Hi as (_ & _ & _ & Hr). rewrite Forall_forall in Hr |- *. intros o [Ho _]%elem_of_lfilter. auto.
Qed.

(** Moving a rule keeps the rules. *)
Lemma reorder_perm ops i j after : reorderOperations ops i j after ≡ₚ ops.
Proof.
  unfold reorderOperations. destruct (Nat.eqb i j); [done|]. destruct (find_index _ ops) as [k|]; [|done].
  destruct (ops !! k) as [o|] eqn:Hk; [|done]. destruct (find_index _ _) as [m|]; [|done]. cbv zeta.
  rewrite <- Permutation_middle, take_drop. rewrite <- delete_take_drop. symmetry. by apply delete_Permutation.
Qed.

Lemma inv_perm n ops ops' : inv_ops n ops → ops' ≡ₚ ops → inv_ops n ops'.
Proof.
  intros Hi Hp. apply (inv_within n ops); [done|by rewrite (all_ids_perm _ _ Hp)| |].
  - intros ->. apply Permutation_nil_l in Hp. by destruct Hi as [Hne _].
  - rewrite Hp. apply Hi.
Qed.

Lemma editor_drop i data e : inv e → inv (handleDrop i data e).
Proof.
  intros Hi. unfold handleDrop. destruct (match e_drag e with Some s => Some s | None => data end) as [s|]; [|done].
  destruct (Nat.eqb s i); [done|]. eapply inv_perm; [exact Hi|]. apply reorder_perm.
Qed.

Lemma ids_value_text t o : op_ids (with_value_text t o) = op_ids o.
Proof. by destruct o. Qed.
Lemma ok_value_text t o : rule_ok o → rule_ok (with_value_text t o).
Proof. by destruct o. Qed.

Lemma inv_error i f e : inv e → inv (updateReturnErrorDraft i f e).
Proof. intros Hi. apply editor_update; [done| |]; intros o; [by rewrite ids_value_text|apply ok_value_text]. Qed.

Lemma inv_prune i f e : inv e → (∀ d n, n <= (f d n).2)%nat → inv (updatePruneObjectsDraft i f e).
Proof.
  intros Hi Hf. destruct (prune_update i f e (λ o o', op_ids o' = op_ids o ∧ (rule_ok o → rule_ok o'))) as (ops' & n' & -> & Hn & HF); [done| |].
  { intros o n _. unfold prune_one. destruct (Nat.eqb (op_id o) i); [|done]. destruct (parsePruneObjectsDraft (value_text o) n).
    rewrite ids_value_text. split; [done|apply ok_value_text]. }
  unfold inv. cbn [with_seed with_ops e_seed e_ops]. apply (inv_later (e_seed e)); [|done]. apply (inv_within _ (e_ops e)); [done| | |].
  - clear -HF. induction HF as [|o o' ops ops' [Ho _] _ IH]; [done|]. rewrite !all_ids_cons, Ho. by apply submseteq_app.
  - destruct Hi as (Hne & _). by inversion HF; subst; [congruence|].
  - destruct Hi as (_ & _ & _ & Hr). clear -HF Hr. induction HF as [|o o' ops ops' [_ Ho] _ IH]; [done|]. apply Forall_cons in Hr as [H1 H2]. constructor; auto.
Qed.

Lemma inv_normalize vs n ops n' old : inv_ops n old → normalize_operations vs n = Ret (ops, n') → inv_ops n' ops.
Proof.
  intros Hi. destruct vs as [|v vs]; [intros [<- <-]%ret_pair; by eapply inv_default|].
  intros (Hn & Hc & Hok & Hl)%(operations_fresh (v :: vs)). apply (inv_fresh n old); [done..| |done]. by destruct ops.
Qed.

Lemma editor_open stored e e' : inv e → open_dialog stored e = Ret e' → inv e'.
Proof.
  intros Hi. unfold open_dialog. destruct (parseInitialState stored (e_seed e)) as [|[s n]] eqn:E; [done|]. intros [= <-]. unfold inv. cbn [e_seed e_ops].
  assert (inv_ops (S (e_seed e)) [(createDefaultOperation (e_seed e)).1]) as Hd by (by eapply inv_default).
  unfold parseInitialState in E. cbn [createDefaultOperation] in E. destruct (negb (nonempty (trim stored))); [by apply ret_pair in E as [<- <-]|].
  destruct (JSON_parse (trim stored)) as [parsed|]; [|by apply ret_pair in E as [<- <-]].
  destruct (config_operations parsed) as [[vs|]|]; [|by apply ret_pair in E as [<- <-]..].
  destruct (normalize_operations vs (e_seed e)) as [|[ops n1]] eqn:En; [done|]. apply ret_pair in E as [<- <-]. cbn [s_operations]. by apply (inv_normalize vs (e_seed e) _ _ (e_ops e)).
Qed.

Lemma inv_visual e e' : inv e → switchToVisualMode e = Ret e' → inv e'.
Proof.
  intros Hi. unfold switchToVisualMode. destruct (negb (e_json e)); [by intros [= <-]|]. cbv zeta.
  assert (inv (fresh_ops e)) as Hd by (by eapply inv_default).
  destruct (negb (nonempty (trim (e_jsonText e)))); [by intros [= <-]|]. destruct (JSON_parse (trim (e_jsonText e))) as [parsed|]; [|by intros [= <-]].
  destruct (config_operations parsed) as [[vs|]|]; [|by intros [= <-]..].
  destruct (normalize_operations vs (e_seed e)) as [|[ops n1]] eqn:En; [done|]. intros [= <-]. unfold inv. cbn. by apply (inv_normalize vs (e_seed e) _ _ (e_ops e)).
Qed.

(** Every preset that is not of the legacy kind has rules. *)
Lemma preset_rules k n : (preset_of k).1 = false → ∃ ops n', template_ops (preset_of k).2 n = (ops, n') ∧ ops ≠ [] ∧
  (n <= n')%nat ∧ all_ids ops = seq n (n' - n) ∧ Forall rule_ok ops.
Proof.
  intros Hl. assert (∃ v vs, prop (preset_of k).2 "operations" = VArr (v :: vs) ∧ map_fresh normalizeOperation (v :: vs) n ≠ Throw) as (v & vs & Hp & Ht).
  { unfold preset_of in *. assert (∀ x, x = default (false, OPERATION_TEMPLATE) (snd <$> List.find (λ p, str_eqb p.1 k) TEMPLATE_PRESET_CONFIG) → x.1 = false →
      x ∈ [(false, OPERATION_TEMPLATE); (false, HEADER_PASSTHROUGH_TEMPLATE); (false, GEMINI_IMAGE_4K_TEMPLATE);
           (false, buildPassHeadersTemplate CLAUDE_CLI_HEADER_PASSTHROUGH_HEADERS); (false, buildPassHeadersTemplate CODEX_CLI_HEADER_PASSTHROUGH_HEADERS);
           (false, AWS_BEDROCK_ANTHROPIC_COMPAT_TEMPLATE)]) as Hin.
    { intros x -> Hx. cbn [TEMPLATE_PRESET_CONFIG List.find fst] in Hx |- *.
      repeat (destruct (str_eqb _ k) in Hx |- *; [first [discriminate Hx|cbn; set_solver]|]). cbn; set_solver. }
    specialize (Hin _ eq_refl Hl). clear Hl. revert Hin. generalize (default (false, OPERATION_TEMPLATE) (snd <$> List.find (λ p, str_eqb p.1 k) TEMPLATE_PRESET_CONFIG)).
    intros x Hx. repeat (apply elem_of_cons in Hx as [->|Hx]; [do 2 eexists; split; [reflexivity|discriminate]|]). by apply not_elem_of_nil in Hx. }
  unfold template_ops. rewrite Hp. destruct (map_fresh normalizeOperation (v :: vs) n) as [|[ops n']] eqn:E; [done|].
  apply operations_fresh in E as (Hn & Hc & Hok & Hlen). exists ops, n'. split_and!; try done. by destruct ops.
Qed.

Lemma inv_fill append e : inv e → inv (fillTemplate append e).
Proof.
  intros Hi. unfold fillTemplate. pose proof (preset_rules (e_preset e) (e_seed e)) as Hp. destruct (preset_of (e_preset e)) as [legacy payload].
  assert (∀ t, inv (fill_legacy t e)) as Hf by (intros t; by eapply inv_default).
  destruct legacy.
  { destruct (append && e_legacy e); [|apply Hf]. cbv zeta. destruct (negb _); [apply Hf|]. destruct (JSON_parse _); [apply Hf|done]. }
  cbn [fst snd] in Hp. destruct (Hp eq_refl) as (ops & n' & -> & Hne & Hn & Hc & Hok). destruct append.
  - unfold inv. cbn -[isOperationBlank]. apply (inv_grow (e_seed e) (e_ops e)); [done..| | |].
    + rewrite all_ids_app, Hc. apply submseteq_app; [|done]. destruct (e_legacy e); [apply submseteq_nil_l|apply all_ids_filter].
    + by intros [_ ?]%app_nil.
    + apply Forall_app. split; [|done]. destruct (e_legacy e); [done|]. destruct Hi as (_ & _ & _ & Hr). rewrite Forall_forall in Hr |- *.
      intros o [Ho _]%elem_of_lfilter. auto.
  - destruct ops as [|o ops]; [done|]. unfold inv. cbn [with_view with_json with_seed with_selected with_ops e_seed e_ops]. by apply (inv_fresh (e_seed e) (e_ops e)).
Qed.

Lemma inv_handler ev e e' : inv e → editor_handler ev e = Ret e' → inv e'.
Proof.
  intros Hi E. destruct ev; cbn [editor_handler] in E; try (injection E as <-).
  - by eapply editor_open.
  - unfold inv, render_editor. cbn [with_seed e_seed e_ops]. apply (inv_later (e_seed e)); [done|]. unfold pruneObjectsDraft.
    destruct (selectedOperation e) as [o|]; [|cbn; lia]. destruct (str_eqb (mode o) "prune_objects"); [|cbn; lia].
    pose proof (draft_ids (value_text o) (createDefaultOperation (e_seed e)).2) as Hd. destruct (parsePruneObjectsDraft _ _). cbn in Hd. lia.
  - destruct (patch_ok p) eqn:Hp; injection E as <-; [by apply inv_patch|done].
  - by apply inv_add.
  - by apply inv_duplicate.
  - by apply inv_remove.
  - by apply inv_add_condition.
  - destruct (cpatch_ok p) eqn:Hp; injection E as <-; [by apply inv_update_condition|done].
  - by apply inv_remove_condition.
  - by apply inv_error.
  - by apply inv_prune.
  - apply inv_prune; [done|]. intros d n. cbn. lia.
  - by apply inv_prune.
  - by apply inv_prune.
  - done.
  - unfold handleDragOver. destruct (e_drag e); [|done]. by destruct (Nat.eqb _ _).
  - by apply editor_drop.
  - done.
  - unfold switchToJsonMode. destruct (e_json e); [done|]. by destruct (buildVisualJson e).
  - by eapply inv_visual.
  - by apply inv_fill.
  - by eapply inv_default.
  - done.
  - done.
  - done.
  - unfold expand_all. by destruct (selectedOperation e).
  - done.
  - unfold handleOverrideSave. by destruct (if e_json e then _ else _).
  - done.
Qed.

Lemma inv_selected e : inv (keep_selected e) ↔ inv e.
Proof. unfold keep_selected. destruct (e_ops e) eqn:E; [done|]. by destruct (existsb _ _). Qed.

(** The effect leaves one of the rules selected. *)
Lemma keep_selected_valid e : e_ops e ≠ [] → ∃ o, o ∈ e_ops (keep_selected e) ∧ e_selected (keep_selected e) = Some (op_id o).
Proof.
  intros Hne. unfold keep_selected. destruct (e_ops e) as [|o ops] eqn:E; [done|]. destruct (existsb _ (o :: ops)) eqn:Hx.
  - apply existsb_exists in Hx as (o' & Ho & Hs%bool_decide_eq_true). exists o'. rewrite E. split; [by apply list_elem_of_In|done].
  - exists o. cbn. rewrite E. split; [by left|done].
Qed.

(** The dialog after its first rendering. *)
Definition mounted : Editor := keep_selected closed_editor.

Lemma inv_run e : editor_run mounted e → inv e ∧ ∃ o, o ∈ e_ops e ∧ e_selected e = Some (op_id o).
Proof.
  unfold editor_run. apply (rtc_ind_r (R := editor_step) (λ e, inv e ∧ ∃ o, o ∈ e_ops e ∧ e_selected e = Some (op_id o)) mounted).
  - split; [|eexists; split; [by left|done]]. split_and!; [done|by apply (bool_decide_unpack _)|by apply (bool_decide_unpack _)|].
    apply Forall_singleton. apply (default_fresh 0).
  - intros x y _ (ev & e1 & He & ->) [Hi _]. assert (inv e1) as H1 by (by eapply inv_handler). split; [by apply inv_selected|]. apply keep_selected_valid, H1.
Qed.

(** C29: In every state the dialog can reach, by any sequence of openings,
    edits, copies, drags, templates, mode switches and saves, there is a rule,
    one of the rules is selected, the ids of the rules and of their conditions
    are all different and were all given out, every rule and condition has a
    mode the selects offer, and every rule combines its conditions by AND or
    OR.  So deleting the last rule leaves one, and an id names one rule. *)
Theorem editor_invariant e : editor_run mounted e →
  (∃ o, o ∈ e_ops e ∧ e_selected e = Some (op_id o)) ∧ NoDup (all_ids (e_ops e)) ∧ Forall (λ i, i < e_seed e)%nat (all_ids (e_ops e)) ∧
  Forall rule_ok (e_ops e).
Proof. intros [(_ & H1 & H2 & H3) Hs]%inv_run. done. Qed.

(** ** Ids never come back *)

Lemma seed_prune i f e : (∀ d n, n <= (f d n).2)%nat → (e_seed e <= e_seed (updatePruneObjectsDraft i f e))%nat.
Proof. intros Hf. destruct (prune_update i f e (λ _ _, True)) as (ops' & n' & -> & Hn & _); done. Qed.

Lemma seed_normalize vs n ops n' : normalize_operations vs n = Ret (ops, n') → (n <= n')%nat.
Proof. destruct vs as [|v vs]; [intros [_ <-]%ret_pair; lia|]. by intros [? _]%(operations_fresh (v :: vs)). Qed.

Lemma seed_open stored e e' : open_dialog stored e = Ret e' → (e_seed e <= e_seed e')%nat.
Proof.
  unfold open_dialog. destruct (parseInitialState stored (e_seed e)) as [|[s n]] eqn:E; [done|]. intros [= <-]. cbn [e_seed].
  unfold parseInitialState in E. cbn [createDefaultOperation] in E. destruct (negb (nonempty (trim stored))); [apply ret_pair in E as [_ <-]; lia|].
  destruct (JSON_parse (trim stored)) as [parsed|]; [|apply ret_pair in E as [_ <-]; lia].
  destruct (config_operations parsed) as [[vs|]|]; [|apply ret_pair in E as [_ <-]; lia..].
  destruct (normalize_operations vs (e_seed e)) as [|[ops n1]] eqn:En; [done|]. apply ret_pair in E as [_ <-]. by eapply seed_normalize.
Qed.

Lemma seed_visual e e' : switchToVisualMode e = Ret e' → (e_seed e <= e_seed e')%nat.
Proof.
  unfold switchToVisualMode. destruct (negb (e_json e)); [by intros [= <-]|]. cbv zeta.
  destruct (negb (nonempty (trim (e_jsonText e)))); [intros [= <-]; cbn; lia|]. destruct (JSON_parse (trim (e_jsonText e))) as [parsed|]; [|by intros [= <-]].
  destruct (config_operations parsed) as [[vs|]|]; [|intros [= <-]; cbn; lia..].
  destruct (normalize_operations vs (e_seed e)) as [|[ops n1]] eqn:En; [done|]. intros [= <-]. cbn. by eapply seed_normalize.
Qed.

Lemma seed_fill append e : (e_seed e <= e_seed (fillTemplate append e))%nat.
Proof.
  unfold fillTemplate. pose proof (preset_rules (e_preset e) (e_seed e)) as Hp. destruct (preset_of (e_preset e)) as [legacy payload].
  assert (∀ t, (e_seed e <= e_seed (fill_legacy t e))%nat) as Hf by (intros t; cbn; lia).
  destruct legacy.
  { destruct (append && e_legacy e); [|apply Hf]. cbv zeta. destruct (negb _); [apply Hf|]. destruct (JSON_parse _); [apply Hf|done]. }
  cbn [fst snd] in Hp. destruct (Hp eq_refl) as (ops & n' & -> & Hne & Hn & _). destruct append; [done|]. by destruct ops.
Qed.

Lemma seed_handler ev e e' : editor_handler ev e = Ret e' → (e_seed e <= e_seed e')%nat.
Proof.
  intros E. destruct ev; cbn [editor_handler] in E; try (injection E as <-); try done; try (cbn; lia).
  - by eapply seed_open.
  - unfold render_editor, pruneObjectsDraft. cbn [with_seed e_seed].
    destruct (selectedOperation e) as [o|]; [|cbn; lia]. destruct (str_eqb (mode o) "prune_objects"); [|cbn; lia].
    pose proof (draft_ids (value_text o) (createDefaultOperation (e_seed e)).2) as Hd. destruct (parsePruneObjectsDraft _ _). cbn in Hd. lia.
  - destruct (patch_ok p); by injection E as <-.
  - unfold duplicateOperation. destruct (find_index _ _); [|done]. destruct (e_ops e !! _) as [o|]; [|done].
    destruct (normalizeOperation _ _) as [|[c n']] eqn:Ec; [done|]. apply operation_fresh in Ec as [Hn _]. by destruct eager.
  - unfold removeOperation. destruct (Nat.leb _ 1); cbn; lia.
  - destruct (cpatch_ok p); by injection E as <-.
  - by apply seed_prune.
  - apply seed_prune. intros d n. cbn. lia.
  - by apply seed_prune.
  - by apply seed_prune.
  - unfold handleDragOver. destruct (e_drag e); [|done]. by destruct (Nat.eqb _ _).
  - unfold handleDrop. destruct (match e_drag e with Some s => Some s | None => data end) as [s|]; [|done]. by destruct (Nat.eqb s i).
  - unfold switchToJsonMode. destruct (e_json e); [done|]. by destruct (buildVisualJson e).
  - by eapply seed_visual.
  - by apply seed_fill.
  - unfold expand_all. by destruct (selectedOperation e).
  - unfold handleOverrideSave. by destruct (if e_json e then _ else _).
Qed.

Lemma seed_selected e : e_seed (keep_selected e) = e_seed e.
Proof. unfold keep_selected. destruct (e_ops e); [done|]. by destruct (existsb _ _). Qed.

Lemma seed_run e e' : editor_run e e' → (e_seed e <= e_seed e')%nat.
Proof.
  induction 1 as [|e e1 e2 (ev & e' & He & ->) _ IH]; [done|]. rewrite seed_selected in IH. apply seed_handler in He. lia.
Qed.

(** ** Prune rules *)

Definition erase (r : ParamOverrideCondition) : ParamOverrideCondition :=
  MkCondition 0 (c_path r) (c_mode r) (c_value_text r) (c_invert r) (c_pass_missing_key r).

Lemma entry_erase fs n m : erase <$> (entry_rules fs n).1 = erase <$> (entry_rules fs m).1.
Proof.
  revert n m. induction fs as [|[k v] fs IH]; intros n m; [done|]. cbn. specialize (IH (S n) (S m)).
  destruct (entry_rules fs (S n)), (entry_rules fs (S m)). cbn in *. by rewrite IH.
Qed.

Lemma item_erase vs n m : erase <$> (item_rules vs n).1 = erase <$> (item_rules vs m).1.
Proof.
  revert n m. induction vs as [|v vs IH]; intros n m; [done|]. cbn [item_rules]. destruct (truthy v && is_object v); [|apply IH].
  assert (match normalizePruneRule v n, normalizePruneRule v m with Ret (r, n1), Ret (r', m1) => erase r = erase r' | Throw, Throw => True | _, _ => False end) as Hr
    by (by destruct v).
  destruct (normalizePruneRule v n) as [|[r n1]], (normalizePruneRule v m) as [|[r' m1]]; try done. specialize (IH n1 m1).
  destruct (item_rules vs n1), (item_rules vs m1). cbn in *. by rewrite IH, Hr.
Qed.

Definition erase_draft (d : PruneObjectsDraft) : PruneObjectsDraft := set_rules (p_simpleMode d) (erase <$> p_rules d) d.

(** The numbers make no difference but for the ids. *)
Lemma draft_erase t n m : erase_draft (parsePruneObjectsDraft t n).1 = erase_draft (parsePruneObjectsDraft t m).1.
Proof.
  unfold parsePruneObjectsDraft. destruct (negb (nonempty (trim t))); [done|]. destruct (JSON_parse (trim t)) as [[| | | | | |fs]|]; try done.
  set (F := λ n, match prop (VObj fs) "where" with VObj ws => entry_rules ws n | _ => ([], n) end).
  set (G := λ n, match prop (VObj fs) "conditions" with VArr vs => item_rules vs n | VObj ws => entry_rules ws n | _ => ([], n) end).
  assert (∀ n m, erase <$> (F n).1 = erase <$> (F m).1) as HF by (intros a b; unfold F; destruct (prop (VObj fs) "where"); try done; apply entry_erase).
  assert (∀ n m, erase <$> (G n).1 = erase <$> (G m).1) as HG
    by (intros a b; unfold G; destruct (prop (VObj fs) "conditions"); try done; [apply item_erase|apply entry_erase]).
  fold (F n) (F m). specialize (HF n m). destruct (F n) as [r1 n1], (F m) as [r1' m1]. fold (G n1) (G m1). specialize (HG n1 m1).
  destruct (G n1) as [r2 n2], (G m1) as [r2' m2]. unfold erase_draft, set_rules. cbn [fst p_simpleMode p_rules p_typeText p_logic p_recursive].
  cbn [fst] in HF, HG. by rewrite !fmap_app, HF, HG.
Qed.

Definition named (r : ParamOverrideCondition) : bool := nonempty (trim (c_path r)).

Lemma written_erase rs : prune_condition <$> List.filter named (erase <$> rs) = prune_condition <$> List.filter named rs.
Proof. induction rs as [|r rs IH]; [done|]. cbn [fmap list_fmap List.filter]. change (named (erase r)) with (named r). destruct (named r); [|done]. cbn. by rewrite IH. Qed.

(** The text of a draft depends on the written form of its rules only. *)
Lemma build_draft d d' : p_simpleMode d = p_simpleMode d' → p_typeText d = p_typeText d' → p_logic d = p_logic d' → p_recursive d = p_recursive d' →
  prune_condition <$> List.filter named (p_rules d) = prune_condition <$> List.filter named (p_rules d') →
  buildPruneObjectsValueText d = buildPruneObjectsValueText d'.
Proof.
  intros H1 H2 H3 H4 H5. unfold buildPruneObjectsValueText. cbv zeta. fold named. by rewrite H1, H2, H3, H4, H5.
Qed.

(** Reading a text and writing it again; [false] asks for the advanced form. *)
Definition reprint (b : bool) (t : jsstr) : jsstr :=
  let d := (parsePruneObjectsDraft t 0).1 in buildPruneObjectsValueText (set_rules (b && p_simpleMode d) (p_rules d) d).

Lemma reprint_any b t n : let d := (parsePruneObjectsDraft t n).1 in
  buildPruneObjectsValueText (set_rules (b && p_simpleMode d) (p_rules d) d) = reprint b t.
Proof.
  cbv zeta. unfold reprint. pose proof (draft_erase t n 0) as He. set (d := (parsePruneObjectsDraft t n).1) in *. set (d' := (parsePruneObjectsDraft t 0).1) in *.
  unfold erase_draft, set_rules in He. injection He as H1 H2 H3 H4 H5.
  apply build_draft; cbn [set_rules p_simpleMode p_typeText p_logic p_recursive p_rules]; try done; [by rewrite H1|].
  by rewrite <- written_erase, H5, written_erase.
Qed.

Definition reprint_rule (b : bool) (i : nat) (o : ParamOverrideOperation) : ParamOverrideOperation :=
  if Nat.eqb (op_id o) i then with_value_text (reprint b (value_text o)) o else o.

Lemma prune_reprints b i f e : (∀ d n, n <= (f d n).2)%nat →
  (∀ t n, (e_seed e <= n)%nat → let '(d, n1) := parsePruneObjectsDraft t n in
    buildPruneObjectsValueText (f d n1).1 = buildPruneObjectsValueText (set_rules (b && p_simpleMode d) (p_rules d) d)) →
  e_ops (updatePruneObjectsDraft i f e) = reprint_rule b i <$> e_ops e.
Proof.
  intros Hf Hb. destruct (prune_update i f e (λ o o', o' = reprint_rule b i o)) as (ops' & n' & -> & _ & HF); [done| |].
  - intros o n Hn. unfold prune_one, reprint_rule. destruct (Nat.eqb (op_id o) i); [|done]. specialize (Hb (value_text o) n Hn).
    rewrite <- (reprint_any b _ n). destruct (parsePruneObjectsDraft (value_text o) n) as [d n1]. by rewrite Hb.
  - cbn [with_seed with_ops e_ops]. induction HF as [|o o' ops ops' -> _ IH]; [done|]. by rewrite IH.
Qed.

Lemma absent_map ri g (rs : list ParamOverrideCondition) : Forall (λ r, c_id r ≠ ri) rs →
  (λ r, if Nat.eqb (c_id r) ri then g r else r) <$> rs = rs.
Proof. induction 1 as [|r rs Hr _ IH]; [done|]. cbn. rewrite IH. by apply Nat.eqb_neq in Hr as ->. Qed.

Lemma absent_filter ri rs : Forall (λ r, c_id r ≠ ri) rs → List.filter (λ r, negb (Nat.eqb (c_id r) ri)) rs = rs.
Proof. induction 1 as [|r rs Hr _ IH]; [done|]. cbn. rewrite IH. by apply Nat.eqb_neq in Hr as ->. Qed.

(** The rules read now have other ids than any given out before. *)
Lemma draft_new ri k t n : (ri < k)%nat → (k <= n)%nat → Forall (λ r, c_id r ≠ ri) (p_rules (parsePruneObjectsDraft t n).1).
Proof.
  intros H1 H2. pose proof (draft_ids t n) as Hd. destruct (parsePruneObjectsDraft t n) as [d n']. destruct Hd as [_ Hd].
  eapply Forall_impl; [exact Hd|]. intros r Hr. simpl in *. lia.
Qed.

(** The ids of a draft are below the next number. *)
Lemma shown_below e d n r : pruneObjectsDraft e = Some (d, n) → r ∈ p_rules d → (c_id r < n)%nat.
Proof.
  unfold pruneObjectsDraft. destruct (selectedOperation e) as [o|]; [|done]. destruct (str_eqb (mode o) "prune_objects"); [|done].
  pose proof (draft_ids (value_text o) (createDefaultOperation (e_seed e)).2) as Hd. destruct (parsePruneObjectsDraft _ _) as [d' n'].
  intros [= -> ->] Hr. destruct Hd as [_ Hd]. rewrite Forall_forall in Hd. specialize (Hd r Hr). lia.
Qed.

(** C30: The controls of the rules of a pruning rule do not work: when a draft
    was shown, and later, whatever happened in between, one of the rules shown
    is changed or removed, the value of the addressed rule is only read and
    written again ([reprint]), with all its rules and none of them changed, and
    so it is in its advanced form when a rule is added.  (The updater reads the
    value again, which gives its rules new ids; and a rule without a path is
    not written.) *)
Theorem prune_rules_inert e0 d n e i r p :
  pruneObjectsDraft e0 = Some (d, n) → editor_run (keep_selected (render_editor e0)) e → r ∈ p_rules d →
  e_ops (updatePruneRule i (c_id r) p e) = reprint_rule true i <$> e_ops e ∧
  e_ops (removePruneRule i (c_id r) e) = reprint_rule true i <$> e_ops e ∧
  e_ops (addPruneRule i e) = reprint_rule false i <$> e_ops e.
Proof.
  intros Hd Hrun Hr. pose proof (shown_below _ _ _ _ Hd Hr) as Hlt.
  assert (c_id r < e_seed e)%nat as Hs.
  { apply seed_run in Hrun. rewrite seed_selected in Hrun. unfold render_editor in Hrun. rewrite Hd in Hrun. cbn in Hrun. lia. }
  split_and!; (apply prune_reprints; [try done|]).
  - intros t k Hk. pose proof (draft_new _ _ t k Hs Hk) as Hn. destruct (parsePruneObjectsDraft t k) as [x n1]. cbn in Hn |- *. by rewrite absent_map.
  - intros t k Hk. pose proof (draft_new _ _ t k Hs Hk) as Hn. destruct (parsePruneObjectsDraft t k) as [x n1]. cbn in Hn |- *. by rewrite absent_filter.
  - intros x k. cbn. lia.
  - intros t k Hk. destruct (parsePruneObjectsDraft t k) as [x n1]. cbn [createDefaultCondition fst].
    apply build_draft; try done. cbn [set_rules p_rules]. rewrite List.filter_app. cbn. by rewrite app_nil_r.
Qed.

(** ** Examples *)

(** Opening a stored pruning rule with one rule in it. *)
Definition stored_prune : jsstr :=
  default [] (JSON_stringify (VObj [("operations"%js, VArr [VObj [("mode"%js, VStr "prune_objects"); ("value"%js,
    VObj [("conditions"%js, VArr [VObj [("path"%js, VStr "type"); ("mode"%js, VStr "full"); ("value"%js, VStr "thinking")]])])]])])).

Definition prune_editor : Editor := keep_selected (match editor_handler (Open stored_prune) mounted with Ret e => e | Throw => mounted end).

Lemma prune_editor_run : editor_run mounted prune_editor.
Proof.
  apply rtc_once. destruct (editor_handler (Open stored_prune) mounted) as [|e] eqn:E; [vm_compute in E; discriminate|].
  exists (Open stored_prune), e. split; [done|]. unfold prune_editor. by rewrite E.
Defined.

Lemma editor_invariant_witness : editor_run mounted prune_editor ∧ NoDup (all_ids (e_ops prune_editor)) ∧ Forall rule_ok (e_ops prune_editor).
Proof.
  split; [exact prune_editor_run|]. destruct (editor_invariant prune_editor prune_editor_run) as (_ & H1 & _ & H2). done.
Defined.

Lemma prune_rules_inert_witness :
  ∃ d n r, pruneObjectsDraft prune_editor = Some (d, n) ∧ p_rules d = [r] ∧
    e_ops (removePruneRule 1 (c_id r) (keep_selected (render_editor prune_editor))) = reprint_rule true 1 <$> e_ops prune_editor ∧
    length (p_rules (parsePruneObjectsDraft (reprint true (value_text (hd (createDefaultOperation 0).1 (e_ops prune_editor)))) 0).1) = 1.
Proof.
  destruct (pruneObjectsDraft prune_editor) as [[d n]|] eqn:Hd; [|vm_compute in Hd; discriminate]. exists d, n.
  destruct (p_rules d) as [|r [|]] eqn:Hr; [vm_compute in Hd; injection Hd as <- <-; discriminate Hr| |vm_compute in Hd; injection Hd as <- <-; discriminate Hr].
  exists r. split; [done|]. split; [done|]. split; [|vm_compute; reflexivity].
  destruct (prune_rules_inert prune_editor d n (keep_selected (render_editor prune_editor)) 1 r (CPath []) Hd) as (_ & H & _);
    [apply rtc_refl|rewrite Hr; by left|]. rewrite H. vm_compute. reflexivity.
Defined.

End ParamEditorFacts.
