(* ===== verification/AuthStore.v ===== *)
(** * The authentication store ([web/src/stores/auth-store.ts])

    The in-memory state of a signed-in tab and its five updates.  A zustand
    [set] with a function of the state is a function on the record.  Of a user
    only the three fields the console validates are typed; [details] is the
    whole object as the server sent it. *)

From S2P Require Import Prelude JsString JsNumber JsValue.

Module AuthStore.

Record AuthUser := MkUser {
  user_id : number;
  username : jsstr;
  role : number;
  details : obj;
}.

Record LoginSession := MkSession {
  sid : jsstr;
  current : bool;
  login_method : jsstr;
  ip : jsstr;
  user_agent : jsstr;
  created_at : number;
  last_active_at : number;
  expires_at : number;
}.

Record AuthBundle := MkBundle {
  access_token : jsstr;
  token_type : jsstr;
  access_expires_at : number;
  bundle_user : AuthUser;
  bundle_session : LoginSession;
}.

Inductive AuthBootstrapState := idle | checking | complete.
#[global] Instance AuthBootstrapState_eq_dec : EqDecision AuthBootstrapState.
Proof. solve_decision. Defined.

Record AuthState := MkAuth {
  user : option AuthUser;
  accessToken : option jsstr;
  accessExpiresAt : option number;
  session : option LoginSession;
  pending2FAFlowToken : option jsstr;
  bootstrapState : AuthBootstrapState;
}.

Definition initial_auth : AuthState := MkAuth None None None None None idle.

Definition setBundle (bundle : AuthBundle) (auth : AuthState) : AuthState :=
  MkAuth (Some (bundle_user bundle)) (Some (access_token bundle)) (Some (access_expires_at bundle))
    (Some (bundle_session bundle)) None complete.

Definition setUser (u : option AuthUser) (auth : AuthState) : AuthState :=
  MkAuth u (accessToken auth) (accessExpiresAt auth) (session auth) (pending2FAFlowToken auth) (bootstrapState auth).

Definition setPending2FAFlowToken (token : option jsstr) (auth : AuthState) : AuthState :=
  MkAuth (user auth) (accessToken auth) (accessExpiresAt auth) (session auth) token (bootstrapState auth).

Definition setBootstrapState (b : AuthBootstrapState) (auth : AuthState) : AuthState :=
  MkAuth (user auth) (accessToken auth) (accessExpiresAt auth) (session auth) (pending2FAFlowToken auth) b.

(** [reset()] is [reset complete]. *)
Definition reset (b : AuthBootstrapState) (auth : AuthState) : AuthState :=
  MkAuth None None None None None b.

(** [auth.session?.sid] *)
Definition session_sid (auth : AuthState) : option jsstr := sid <$> session auth.

(** The credentials stand or fall together: a session comes with a non-empty
    token and an expiry, and without a session there is neither. *)
Definition coherent (auth : AuthState) : Prop :=
  match session auth, accessToken auth, accessExpiresAt auth with
  | Some s, Some t, Some e => nonempty (sid s) = true ∧ nonempty t = true ∧ is_finite e = true
  | None, None, None => True
  | _, _, _ => False
  end.

(** What the guard of bundles ensures of a bundle's own fields. *)
Definition bundle_ok (b : AuthBundle) : Prop :=
  nonempty (sid (bundle_session b)) = true ∧ nonempty (access_token b) = true ∧ is_finite (access_expires_at b) = true.

Lemma coherent_setBundle b auth : bundle_ok b → coherent (setBundle b auth).
Proof. done. Qed.

Lemma coherent_keep u p b auth : coherent auth →
  coherent (setUser u auth) ∧ coherent (setPending2FAFlowToken p auth) ∧ coherent (setBootstrapState b auth).
Proof. done. Qed.

Lemma coherent_sid auth : coherent auth → session_sid auth ≠ Some [].
Proof.
  unfold coherent, session_sid. destruct (session auth) as [s|]; [|done]. cbn.
  destruct (accessToken auth), (accessExpiresAt auth); try done. intros [Hs _] [= E]. by rewrite E in Hs.
Qed.
End AuthStore.
