(* ===== verification/AuthSession.v ===== *)
(** * Authentication sessions ([web/src/lib/auth-session.ts])

    The access token lives in memory only; [refreshAuthentication] obtains a
    new one from the refresh cookie.  The refresh loop is written against a
    runtime of operations ([AuthRefreshRuntime], a class here), suspends at
    every [await], and other code may run while it is suspended.  The model
    therefore cuts it at the awaits: a [RunPoint] is where a run is suspended,
    and the operations of this file run the code from one suspension to the
    next.

    A tab ([Tab]) is the store, the module variables [authEpoch] and
    [refreshPromise], and what the tab sent to the outside: the events
    published to other tabs and the clearings of the query cache.  The clock
    is an argument.  [tab_step] is every way a tab moves: the exported
    operations, called at any time, and the suspended refresh going on. *)

From S2P Require Import Prelude JsString JsNumber JsValue AuthStore.
Local Open Scope Z_scope.

Module AuthSession.
Import AuthStore.

(** ** Guards on server data *)

Definition is_record (v : value) : bool := truthy v && is_object v.

Definition get_str (v : value) : jsstr := match v with VStr s => s | _ => [] end.
Definition get_num (v : value) : number := match v with VNum x => x | _ => NaN end.
Definition get_bool (v : value) : bool := match v with VBool b => b | _ => false end.
Definition get_obj (v : value) : obj := match v with VObj fs => fs | _ => [] end.

Definition isAuthUser (v : value) : bool :=
  if negb (is_record v) then false
  else match prop v "id" with VNum x => is_integer x && num_ltb (of_Z 0) x | _ => false end &&
       is_string (prop v "username") && is_number (prop v "role").

Definition isLoginSession (v : value) : bool :=
  if negb (is_record v) then false
  else match prop v "sid" with VStr s => nonempty s | _ => false end &&
       is_boolean (prop v "current") && is_string (prop v "login_method") && is_string (prop v "ip") &&
       is_string (prop v "user_agent") && is_number (prop v "created_at") &&
       is_number (prop v "last_active_at") && is_number (prop v "expires_at").

Definition hasValidTokenFields (v : value) : bool :=
  match prop v "access_token" with VStr s => nonempty s | _ => false end &&
  match prop v "token_type" with VStr s => nonempty s | _ => false end &&
  match prop v "access_expires_at" with VNum x => is_finite x && num_ltb (of_Z 0) x | _ => false end.

Definition isAuthBundle (v : value) : bool :=
  if negb (is_record v) then false
  else hasValidTokenFields v && isAuthUser (prop v "user") && isLoginSession (prop v "session").

Definition isAuthTokenRotation (v : value) : bool :=
  is_record v && hasValidTokenFields v && bool_decide (get_str (prop v "token_type") = "Bearer"%js) &&
  isLoginSession (prop v "session") && get_bool (prop (prop v "session") "current").

(** The typed reading of a value its guard accepted. *)
Definition user_of (v : value) : AuthUser :=
  MkUser (get_num (prop v "id")) (get_str (prop v "username")) (get_num (prop v "role")) (get_obj v).
Definition session_of (v : value) : LoginSession :=
  MkSession (get_str (prop v "sid")) (get_bool (prop v "current")) (get_str (prop v "login_method"))
    (get_str (prop v "ip")) (get_str (prop v "user_agent")) (get_num (prop v "created_at"))
    (get_num (prop v "last_active_at")) (get_num (prop v "expires_at")).
Definition bundle_of (v : value) : AuthBundle :=
  MkBundle (get_str (prop v "access_token")) (get_str (prop v "token_type")) (get_num (prop v "access_expires_at"))
    (user_of (prop v "user")) (session_of (prop v "session")).

(** ** The refresh loop *)

Inductive RefreshError := AuthRefreshSupersededError | ResponseError (v : value) | HostError.

Inductive RefreshOutcome :=
  | authenticated (bundle : AuthBundle)
  | anonymous
  | transient_error (error : RefreshError)
  | out_of_sync (code : option jsstr).

(** [VUndef] where the response has no data or no error. *)
Record AuthRefreshHTTPResponse := MkResponse {
  status : Z;
  data : value;
  error : value;
}.

(** The operations the loop works with, on a state [S]; [request] and [wait]
    are its suspensions. *)
Class AuthRefreshRuntime (S : Type) := {
  getExpectedSID : S → option jsstr;
  parseBundle : value → option AuthBundle;
  acceptBundle : AuthBundle → S → S;
  clear : bool → option AuthBootstrapState → S → S;
  markTransient : S → S;
  isCurrent : option (S → bool);
}.

Definition refreshRaceDelays : list Z := [80; 200; 500].

(** Where a run is: waiting for the browser lock, for the response to a request
    sent with an expected session, for a delay to pass, done, or rejected. *)
Inductive RunPoint :=
  | AwaitLock
  | AwaitResponse (expectedSID : option jsstr) (raceAttempt : nat) (allowMismatchRetry : bool)
  | AwaitTimer (delay : Z) (raceAttempt : nat) (allowMismatchRetry : bool)
  | Settled (outcome : RefreshOutcome)
  | Rejected.

Section Runner.
Context {S : Type} `{R : AuthRefreshRuntime S}.

Definition is_current (s : S) : bool := match isCurrent with Some f => f s | None => true end.

Definition superseded : RefreshOutcome := transient_error AuthRefreshSupersededError.

(** [run] up to its request. *)
Definition run (raceAttempt : nat) (allowMismatchRetry : bool) (s : S) : S * RunPoint :=
  if negb (is_current s) then (s, Settled superseded)
  else (s, AwaitResponse (getExpectedSID s) raceAttempt allowMismatchRetry).

Definition response_code (r : AuthRefreshHTTPResponse) : option jsstr :=
  if is_record (data r) then match prop (data r) "code" with VStr c => Some c | _ => None end else None.

(** The bundle of a successful response. *)
Definition response_bundle (r : AuthRefreshHTTPResponse) : option AuthBundle :=
  let responseData := if is_record (data r) then data r else VUndef in
  match prop responseData "success", parseBundle (prop responseData "data") with
  | VBool true, Some b => Some b
  | _, _ => None
  end.

(** [run] from its response on. *)
Definition on_response (raceAttempt : nat) (allowMismatchRetry : bool) (r : AuthRefreshHTTPResponse) (s : S) :
    S * RunPoint :=
  if negb (is_current s) then (s, Settled superseded)
  else
    let code := response_code r in
    match response_bundle r with
    | Some bundle => (acceptBundle bundle s, Settled (authenticated bundle))
    | None =>
      if (status r =? 409) && bool_decide (code = Some "AUTH_REFRESH_RACE"%js) then
        match refreshRaceDelays !! raceAttempt with
        | Some delay => (s, AwaitTimer delay (raceAttempt + 1) allowMismatchRetry)
        | None => (clear false None s, Settled (out_of_sync code))
        end
      else if (status r =? 409) && bool_decide (code = Some "AUTH_SESSION_MISMATCH"%js) then
        if allowMismatchRetry then run 0 false (clear false (Some idle) s)
        else (clear false None s, Settled (out_of_sync code))
      else if status r =? 401 then (clear true None s, Settled anonymous)
      else if (status r =? 0) || (500 <=? status r) || (status r =? 429) then
        (markTransient s, Settled (transient_error (ResponseError
          (match error r with VUndef | VNull => data r | e => e end))))
      else (clear false None s,
            Settled (out_of_sync (Some (default "AUTH_INVALID_REFRESH_RESPONSE"%js code))))
    end.

(** [run] when its delay has passed. *)
Definition on_timer (raceAttempt : nat) (allowMismatchRetry : bool) (s : S) : S * RunPoint :=
  run raceAttempt allowMismatchRetry s.

Definition createRefreshRunner (s : S) : S * RunPoint := run 0 true s.
End Runner.

(** ** Requests *)

(** What posting to the refresh endpoint gives: an answer, an axios error with
    or without an answer, or another exception. *)
Inductive PostResult :=
  | Answered (status : Z) (data : value)
  | AxiosError (response : option (Z * value)) (error : value)
  | OtherError (error : value).

Definition refresh_headers (expectedSID : option jsstr) : list (jsstr * jsstr) :=
  match expectedSID with
  | Some s => if nonempty s then [("X-Auth-Session"%js, s)] else []
  | None => []
  end.

Definition requestRefresh (p : PostResult) : AuthRefreshHTTPResponse :=
  match p with
  | Answered st d => MkResponse st d VUndef
  | OtherError e => MkResponse 0 VUndef e
  | AxiosError resp e =>
    MkResponse (default 0 (fst <$> resp)) (default VUndef (snd <$> resp)) e
  end.

(** ** A tab *)

Inductive SyncKind := SyncAuthenticated | SyncSignedOut.

Record Refresh := MkRefresh {
  refreshEpoch : Z;
  point : RunPoint;
}.

Record Tab := MkTab {
  auth : AuthState;
  authEpoch : Z;
  refreshPromise : option Refresh;
  published : list (SyncKind * jsstr);
  queryClears : nat;
}.

Definition initial_tab : Tab := MkTab initial_auth 0 None [] 0.

Definition with_auth (a : AuthState) (t : Tab) : Tab :=
  MkTab a (authEpoch t) (refreshPromise t) (published t) (queryClears t).
Definition bump_epoch (t : Tab) : Tab :=
  MkTab (auth t) (authEpoch t + 1) (refreshPromise t) (published t) (queryClears t).
Definition with_promise (p : option Refresh) (t : Tab) : Tab :=
  MkTab (auth t) (authEpoch t) p (published t) (queryClears t).

(** [publishAuthSessionEvent] drops events without a session. *)
Definition publish (k : SyncKind) (s : jsstr) (t : Tab) : Tab :=
  if nonempty s
  then MkTab (auth t) (authEpoch t) (refreshPromise t) (published t ++ [(k, s)]) (queryClears t)
  else t.

Definition applyAuthBundle (bundle : AuthBundle) (synchronizeTabs : bool) (t : Tab) : Tab :=
  let previousSID := session_sid (auth t) in
  let t := bump_epoch t in
  let t := with_auth (setBundle bundle (auth t)) t in
  if synchronizeTabs && negb (bool_decide (previousSID = Some (sid (bundle_session bundle))))
  then publish SyncAuthenticated (sid (bundle_session bundle)) t
  else t.

(** [inl] is the message of the [AuthRotationError] thrown. *)
Definition applyAuthRotation (v : value) (t : Tab) : jsstr + Tab :=
  if negb (isAuthTokenRotation v) then inl "Invalid authentication rotation response"%js
  else
    match user (auth t), session (auth t) with
    | Some u, Some s =>
      let next := session_of (prop v "session") in
      if negb (bool_decide (sid next = sid s)) then inl "Authentication rotation session mismatch"%js
      else inr (applyAuthBundle
        (MkBundle (get_str (prop v "access_token")) (get_str (prop v "token_type"))
           (get_num (prop v "access_expires_at")) u next) false t)
    | _, _ => inl "Authentication rotation has no active session"%js
    end.

(** The default of [bootstrapState] is [complete]. *)
Definition clearAuthentication (synchronizeTabs : bool) (b : AuthBootstrapState) (t : Tab) : Tab :=
  let s := session_sid (auth t) in
  let t := bump_epoch t in
  let t := with_auth (reset b (auth t)) t in
  match s with
  | Some s => if synchronizeTabs && nonempty s then publish SyncSignedOut s t else t
  | None => t
  end.

Definition clearAuthenticatedClientState (synchronizeTabs : bool) (t : Tab) : Tab :=
  let t := MkTab (auth t) (authEpoch t) (refreshPromise t) (published t) (queryClears t + 1) in
  clearAuthentication synchronizeTabs complete t.

(** The runtime of a refresh started in epoch [e]. *)
#[global] Instance runRefresh_runtime (e : Z) : AuthRefreshRuntime Tab := {
  getExpectedSID t := session_sid (auth t);
  parseBundle v := if isAuthBundle v then Some (bundle_of v) else None;
  acceptBundle b t := applyAuthBundle b false t;
  clear sync b t :=
    if negb sync && bool_decide (b = Some idle) then with_auth (reset idle (auth t)) t
    else clearAuthentication sync (default complete b) t;
  markTransient t := with_auth (setBootstrapState idle (auth t)) t;
  isCurrent := Some (λ t, authEpoch t =? e);
}.

(** What the host offers as [navigator.locks]: nothing, a lock manager, or one
    whose [request] throws. *)
Inductive Locks := NoLocks | LockManager | LocksThrow.

Definition performRefreshWithBrowserLock (locks : Locks) (e : Z) (t : Tab) : Tab * RunPoint :=
  match locks with
  | NoLocks => createRefreshRunner (R := runRefresh_runtime e) t
  | LockManager => (t, AwaitLock)
  | LocksThrow => (with_auth (setBootstrapState idle (auth t)) t, Settled (transient_error HostError))
  end.

(** Starts a refresh, or joins the one that is pending. *)
Definition refreshAuthentication (locks : Locks) (t : Tab) : Tab :=
  match refreshPromise t with
  | Some _ => t
  | None =>
    let e := authEpoch t in
    let '(t', p) := performRefreshWithBrowserLock locks e t in
    with_promise (Some (MkRefresh e p)) t'
  end.

(** What the host does for a pending refresh. *)
Inductive HostEvent :=
  | LockGranted
  | LockRejected
  | Response (p : PostResult)
  | TimerFired
  | PromiseSettled.

(** The refresh goes on; [None] when the event is not one it waits for. *)
Definition resume (ev : HostEvent) (t : Tab) : option Tab :=
  match refreshPromise t with
  | None => None
  | Some (MkRefresh e p) =>
    let go (q : Tab * RunPoint) := Some (with_promise (Some (MkRefresh e q.2)) q.1) in
    match ev, p with
    | LockGranted, AwaitLock => go (createRefreshRunner (R := runRefresh_runtime e) t)
    | LockRejected, AwaitLock => go (t, Rejected)
    | Response post, AwaitResponse _ n a => go (on_response (R := runRefresh_runtime e) n a (requestRefresh post) t)
    | TimerFired, AwaitTimer _ n a => go (on_timer (R := runRefresh_runtime e) n a t)
    | PromiseSettled, Settled _ | PromiseSettled, Rejected => Some (with_promise None t)
    | _, _ => None
    end
  end.

(** ** Reading the store *)

(** [Math.floor(Date.now() / 1000)] is the argument [now], in seconds. *)
Definition token_after (a : AuthState) (limit : Z) : bool :=
  match accessToken a, accessExpiresAt a with
  | Some tok, Some e => nonempty tok && num_truthy e && num_ltb (of_Z limit) e
  | _, _ => false
  end.

Definition currentValidAuthBundle (now : Z) (t : Tab) : option AuthBundle :=
  match user (auth t), accessToken (auth t), accessExpiresAt (auth t), session (auth t) with
  | Some u, Some tok, Some e, Some s =>
    if negb (nonempty tok) || negb (num_truthy e) || num_leb e (of_Z now) then None
    else Some (MkBundle tok "Bearer"%js e u s)
  | _, _, _, _ => None
  end.

(** [inl] is an outcome known at once, [inr] the tab whose pending refresh
    gives the outcome. *)
Definition bootstrapAuthentication (locks : Locks) (now : Z) (t : Tab) : (RefreshOutcome * Tab) + Tab :=
  match currentValidAuthBundle now t with
  | Some bundle => inl (authenticated bundle, with_auth (setBootstrapState complete (auth t)) t)
  | None =>
    let hasStaleSession := match user (auth t), session (auth t) with Some _, Some _ => true | _, _ => false end in
    if bool_decide (bootstrapState (auth t) = complete) && negb hasStaleSession then inl (anonymous, t)
    else inr (refreshAuthentication locks (with_auth (setBootstrapState checking (auth t)) t))
  end.

Definition getCommonHeaders (t : Tab) : list (jsstr * jsstr) :=
  [("Content-Type"%js, "application/json"%js)] ++
  match accessToken (auth t) with
  | Some tok => if nonempty tok then [("Authorization"%js, ("Bearer " ++ tok)%js)] else []
  | None => []
  end.

Inductive HeadersError := RequestFailed (cause : RefreshError) | SessionExpired.

(** [getFreshAuthHeaders] up to its await: the headers, or a refresh to wait
    for. *)
Definition getFreshAuthHeaders (locks : Locks) (now : Z) (t : Tab) : list (jsstr * jsstr) + Tab :=
  if token_after (auth t) (now + 60) then inl (getCommonHeaders t)
  else inr (refreshAuthentication locks t).

(** ... and from the outcome of that refresh on. *)
Definition fresh_headers_resume (now : Z) (outcome : RefreshOutcome) (t : Tab) :
    HeadersError + list (jsstr * jsstr) :=
  match outcome with
  | authenticated _ => inr (getCommonHeaders t)
  | _ =>
    if token_after (auth t) now then inr (getCommonHeaders t)
    else match outcome with transient_error e => inl (RequestFailed e) | _ => inl SessionExpired end
  end.

(** ** Steps of a tab *)

(** A change of who is signed in, made outside of the refresh loop. *)
Inductive auth_change : Tab → Tab → Prop :=
  | change_bundle b sync t : bundle_ok b → auth_change t (applyAuthBundle b sync t)
  | change_rotation v t t' : applyAuthRotation v t = inr t' → auth_change t t'
  | change_clear sync b t : auth_change t (clearAuthentication sync b t)
  | change_client sync t : auth_change t (clearAuthenticatedClientState sync t).

Inductive tab_step : Tab → Tab → Prop :=
  | step_change t t' : auth_change t t' → tab_step t t'
  | step_user u t : tab_step t (with_auth (setUser u (auth t)) t)
  | step_pending p t : tab_step t (with_auth (setPending2FAFlowToken p (auth t)) t)
  | step_bootstrap_state b t : tab_step t (with_auth (setBootstrapState b (auth t)) t)
  | step_refresh locks t : tab_step t (refreshAuthentication locks t)
  | step_bootstrap_known locks now t o t' : bootstrapAuthentication locks now t = inl (o, t') → tab_step t t'
  | step_bootstrap_refresh locks now t t' : bootstrapAuthentication locks now t = inr t' → tab_step t t'
  | step_headers locks now t t' : getFreshAuthHeaders locks now t = inr t' → tab_step t t'
  | step_resume ev t t' : resume ev t = Some t' → tab_step t t'.

Definition tab_steps : Tab → Tab → Prop := rtc tab_step.
Definition reachable (t : Tab) : Prop := tab_steps initial_tab t.
End AuthSession.
