(* ===== verification/AuthSessionFacts.v ===== *)
(** * Theorems on authentication sessions

    The refresh loop ends after a bounded number of requests whatever the
    server answers and whatever other code does to the state meanwhile; a
    refresh that a newer sign-in or sign-out overtook changes nothing; what a
    refresh leaves in the store is determined by its outcome; and every
    reachable tab satisfies [tab_inv]. *)

From S2P Require Import Prelude JsString JsNumber JsValue AuthStore AuthSession.
Local Open Scope Z_scope.

Module AuthSessionFacts.
Import AuthStore AuthSession.

(** ** The loop against any runtime *)

Section Loop.
Context {S : Type} `{R : AuthRefreshRuntime S}.
Implicit Types (s : S) (q : S * RunPoint).

(** One turn of the environment: other code changes the state, then the run
    gets its answer, or its delay passes. *)
Definition turn : Type := (S → S) * AuthRefreshHTTPResponse.

Definition advance (e : turn) q : S * RunPoint :=
  let s := e.1 q.1 in
  match q.2 with
  | AwaitResponse _ n a => on_response n a e.2 s
  | AwaitTimer _ n a => on_timer n a s
  | p => (s, p)
  end.

(** The points a run passes, the first one included. *)
Fixpoint visits (es : list turn) q : list RunPoint :=
  q.2 :: match es with [] => [] | e :: es => visits es (advance e q) end.

Definition is_request (p : RunPoint) : bool := match p with AwaitResponse _ _ _ => true | _ => false end.
Definition delay_of (p : RunPoint) : Z := match p with AwaitTimer d _ _ => d | _ => 0 end.
Definition requests (ps : list RunPoint) : nat := length (List.filter is_request ps).
Definition waited (ps : list RunPoint) : Z := foldr (λ p, Z.add (delay_of p)) 0 ps.

(** Bounds on the turns, requests and delays still to come at a point. *)
Definition retry (a : bool) (n : nat) : nat := if a then n else 0.
Definition turns_left (p : RunPoint) : nat :=
  match p with
  | AwaitResponse _ n a => 2 * (3 - n) + 1 + retry a 7
  | AwaitTimer _ n a => 2 * (3 - n) + 2 + retry a 7
  | _ => 0
  end.
Definition requests_left (p : RunPoint) : nat :=
  match p with
  | AwaitResponse _ n a | AwaitTimer _ n a => 4 - n + retry a 4
  | _ => 0
  end.
Definition sum_delays (n : nat) : Z := foldr Z.add 0 (drop n refreshRaceDelays).
Definition delays_left (p : RunPoint) : Z :=
  match p with
  | AwaitResponse _ n a | AwaitTimer _ n a => delay_of p + sum_delays n + (if a then 780 else 0)
  | _ => 0
  end.
Definition attempt_ok (p : RunPoint) : Prop :=
  match p with AwaitResponse _ n _ | AwaitTimer _ n _ => (n <= 3)%nat | _ => True end.

Lemma run_point n a s : (run n a s).2 = Settled superseded ∨ ∃ x, (run n a s).2 = AwaitResponse x n a.
Proof. unfold run. destruct (negb (is_current s)); cbn; eauto. Qed.

(** What an answer leads to: the end, a delay, or the one retry. *)
Lemma on_response_point n a r s :
  let p := (on_response n a r s).2 in
  (∃ o, p = Settled o) ∨
  (∃ d, refreshRaceDelays !! n = Some d ∧ p = AwaitTimer d (n + 1) a) ∨
  (a = true ∧ ∃ x, p = AwaitResponse x 0 false).
Proof.
  unfold on_response. destruct (negb (is_current s)); [by left; eexists|].
  destruct (response_bundle r); [by left; eexists|].
  destruct ((status r =? 409) && bool_decide (response_code r = Some "AUTH_REFRESH_RACE"%js)).
  { destruct (refreshRaceDelays !! n) eqn:E; cbn; [right; left; eauto|left; eauto]. }
  destruct ((status r =? 409) && bool_decide (response_code r = Some "AUTH_SESSION_MISMATCH"%js)).
  { destruct a; [|by left; eexists]. destruct (run_point 0 false (clear false (Some idle) s)) as [->|[x ->]]; eauto. }
  left. destruct (status r =? 401); [by eexists|]. destruct (_ || _); by eexists.
Qed.

Lemma delays_lookup n d : refreshRaceDelays !! n = Some d →
  (n < 3)%nat ∧ 0 <= d ∧ sum_delays n = d + sum_delays (n + 1).
Proof. destruct n as [|[|[|n]]]; cbn; intros [= <-]; repeat split; lia. Qed.

(** Every turn uses up the bounds, whatever the environment does. *)
Lemma advance_left e q : attempt_ok q.2 →
  let p := (advance e q).2 in
  attempt_ok p ∧
  (turns_left p <= turns_left q.2 - 1)%nat ∧
  (requests_left p + (if is_request q.2 then 1 else 0) <= requests_left q.2)%nat ∧
  delays_left p + delay_of q.2 <= delays_left q.2.
Proof.
  destruct q as [s [|x n a|d n a|o|]]; unfold advance; cbn [fst snd attempt_ok]; intros Hn; try (cbn; lia).
  - destruct (on_response_point n a e.2 (e.1 s)) as [[o ->]|[(d & Hd & ->)|(-> & y & ->)]].
    + cbn -[sum_delays]. assert (0 <= sum_delays n) by (destruct n as [|[|[|[|n]]]]; cbn; lia). destruct a; cbn; lia.
    + apply delays_lookup in Hd as (? & ? & Hs). cbn -[sum_delays]. destruct a; cbn -[sum_delays]; lia.
    + assert (0 <= sum_delays n) by (destruct n as [|[|[|[|n]]]]; cbn; lia).
      cbn -[sum_delays]. change (sum_delays 0) with 780. cbn in Hn. lia.
  - unfold on_timer. destruct (run_point n a (e.1 s)) as [->|[x ->]]; cbn -[sum_delays] in *.
    + assert (0 <= sum_delays n) by (destruct n as [|[|[|[|n]]]]; cbn; lia). destruct a; cbn; lia.
    + lia.
Qed.

Lemma visits_bounds es q : attempt_ok q.2 →
  (requests (visits es q) <= requests_left q.2)%nat ∧ waited (visits es q) <= delays_left q.2.
Proof.
  revert q. induction es as [|e es IH]; intros q Hq; destruct (advance_left (id, MkResponse 0 VUndef VUndef) q Hq) as (_ & _ & H3 & H4).
  - clear H3 H4. destruct q as [s [|x n a|d n a|o|]]; cbn -[sum_delays] in *; try lia;
      (assert (0 <= sum_delays n) by (destruct n as [|[|[|[|?]]]]; cbn; lia)); destruct a; cbn; lia.
  - clear H3 H4. destruct (advance_left e q Hq) as (Ha & _ & H3 & H4). destruct (IH _ Ha) as [I1 I2].
    cbn [visits]. unfold requests in *. cbn [List.filter waited foldr]. fold (waited (visits es (advance e q))).
    destruct (is_request q.2); cbn [length] in *; lia.
Qed.

Lemma visits_end es q : attempt_ok q.2 → q.2 ≠ AwaitLock → q.2 ≠ Rejected → (turns_left q.2 <= length es)%nat →
  ∃ o, last (visits es q) = Some (Settled o).
Proof.
  revert q. induction es as [|e es IH]; intros q Hq Hl Hr Hn.
  - destruct q as [s [|x n a|d n a|o|]]; cbn in *; try lia; try done. by eexists.
  - destruct (advance_left e q Hq) as (Ha & Ht & _). cbn [visits].
    assert (last (visits es (advance e q)) = last (q.2 :: visits es (advance e q))) as <- by (destruct es; done).
    apply IH; [done| | |cbn in Hn; lia].
    all: destruct q as [s [|x n a|d n a|o|]]; unfold advance; cbn [fst snd]; try done.
    all: try (destruct (on_response_point n a e.2 (e.1 s)) as [[o ->]|[(d & Hd & ->)|(-> & y & ->)]]; done).
    all: unfold on_timer; destruct (run_point n a (e.1 s)) as [->|[x ->]]; done.
Qed.

(** C1: whatever the server answers and whatever other code does to the state
    between two answers, a refresh sends at most eight requests, waits at most
    1560 ms between them, and has an outcome after at most fourteen turns. *)
Theorem refresh_terminates s es :
  let ps := visits es (createRefreshRunner s) in
  (requests ps <= 8)%nat ∧ waited ps <= 1560 ∧
  ((14 <= length es)%nat → ∃ o, last ps = Some (Settled o)).
Proof.
  unfold createRefreshRunner. cbn zeta.
  destruct (run_point 0 true s) as [H|[x H]];
    (assert (Hq : attempt_ok (run 0 true s).2) by (rewrite H; cbn; lia));
    destruct (visits_bounds es _ Hq) as [I1 I2]; pose proof (visits_end es _ Hq) as I3;
    rewrite H in I1, I2, I3; cbn in I1, I2; (split; [lia|]); (split; [lia|]); intros Hn;
    apply I3; try done; cbn; lia.
Qed.
End Loop.

(** The worst case: three races, a mismatch, and races until the end. *)
Definition conflict (code : jsstr) : AuthRefreshHTTPResponse :=
  MkResponse 409 (VObj [("success"%js, VBool false); ("code"%js, VStr code)]) VUndef.
Definition worst_turns : list (@turn Tab) :=
  replicate 6 (id, conflict "AUTH_REFRESH_RACE"%js) ++ (id, conflict "AUTH_SESSION_MISMATCH"%js) ::
  replicate 7 (id, conflict "AUTH_REFRESH_RACE"%js).

Lemma refresh_terminates_witness :
  let ps := visits (R := runRefresh_runtime 0) worst_turns (createRefreshRunner (R := runRefresh_runtime 0) initial_tab) in
  requests ps = 8%nat ∧ waited ps = 1560 ∧ ∃ o, last ps = Some (Settled o).
Proof.
  split; [vm_compute; reflexivity|]. split; [vm_compute; reflexivity|].
  apply (refresh_terminates (R := runRefresh_runtime 0) initial_tab worst_turns). vm_compute. lia.
Defined.

#[local] Arguments applyAuthBundle : simpl never.
#[local] Arguments clearAuthentication : simpl never.
#[local] Arguments session_of : simpl never.

(** ** Epochs *)

Lemma publish_same k s t :
  auth (publish k s t) = auth t ∧ authEpoch (publish k s t) = authEpoch t ∧
  refreshPromise (publish k s t) = refreshPromise t.
Proof. unfold publish. by destruct (nonempty s). Qed.

Ltac no_publish :=
  match goal with |- context [publish ?k ?s ?t] => destruct (publish_same k s t) as (-> & -> & ->) end.

Lemma applyAuthBundle_same b sync t :
  auth (applyAuthBundle b sync t) = setBundle b (auth t) ∧
  authEpoch (applyAuthBundle b sync t) = authEpoch t + 1 ∧
  refreshPromise (applyAuthBundle b sync t) = refreshPromise t.
Proof. unfold applyAuthBundle. destruct (_ && _); [by no_publish|done]. Qed.

Lemma clearAuthentication_same sync b t :
  auth (clearAuthentication sync b t) = reset b (auth t) ∧
  authEpoch (clearAuthentication sync b t) = authEpoch t + 1 ∧
  refreshPromise (clearAuthentication sync b t) = refreshPromise t.
Proof.
  unfold clearAuthentication. destruct (session_sid (auth t)); [|done].
  destruct (_ && _); [by no_publish|done].
Qed.

Lemma rotation_inr v t t' : applyAuthRotation v t = inr t' →
  ∃ u s, user (auth t) = Some u ∧ session (auth t) = Some s ∧ isAuthTokenRotation v = true ∧
    let next := session_of (prop v "session") in
    sid next = sid s ∧
    t' = applyAuthBundle (MkBundle (get_str (prop v "access_token")) (get_str (prop v "token_type"))
           (get_num (prop v "access_expires_at")) u next) false t.
Proof.
  unfold applyAuthRotation. destruct (isAuthTokenRotation v); [cbn [negb]|done].
  destruct (user (auth t)) as [u|]; [|done]. destruct (session (auth t)) as [s|]; [|done].
  destruct (bool_decide _) eqn:E; cbn [negb]; [|done]. apply bool_decide_eq_true in E. intros [= <-].
  by exists u, s.
Qed.

Lemma change_bumps t t' : auth_change t t' →
  authEpoch t' = authEpoch t + 1 ∧ refreshPromise t' = refreshPromise t.
Proof.
  intros [b sync ? ?|v ? ? H|sync b ?|sync ?].
  - apply applyAuthBundle_same.
  - apply rotation_inr in H as (u & s & _ & _ & _ & _ & ->). apply applyAuthBundle_same.
  - apply clearAuthentication_same.
  - unfold clearAuthenticatedClientState.
    match goal with |- context [clearAuthentication ?s ?b ?t] => destruct (clearAuthentication_same s b t) as (_ & -> & ->) end.
    done.
Qed.

(** The state the runner of a refresh leaves: its epoch never goes back. *)
Lemma run_epoch e n a t : (run (R := runRefresh_runtime e) n a t).1 = t.
Proof. unfold run. by destruct (negb _). Qed.

Lemma clear_epoch e sync b t :
  authEpoch t <= authEpoch (clear (AuthRefreshRuntime := runRefresh_runtime e) sync b t) ∧
  refreshPromise (clear (AuthRefreshRuntime := runRefresh_runtime e) sync b t) = refreshPromise t.
Proof.
  cbn. destruct (_ && _); [done|]. destruct (clearAuthentication_same sync (default complete b) t) as (_ & -> & ->).
  split; [lia|done].
Qed.

Lemma on_response_epoch e n a r t : authEpoch t <= authEpoch (on_response (R := runRefresh_runtime e) n a r t).1.
Proof.
  pose proof (clear_epoch e true None t) as [H1 _]. pose proof (clear_epoch e false None t) as [H2 _].
  pose proof (clear_epoch e false (Some idle) t) as [H3 _].
  unfold on_response. destruct (negb _); [done|].
  destruct (response_bundle (R := runRefresh_runtime e) r) as [b|].
  { cbn. destruct (applyAuthBundle_same b false t) as (_ & -> & _). lia. }
  repeat case_match; cbn [fst]; try done; try (by rewrite run_epoch).
Qed.

Lemma resume_spec ev t t' : resume ev t = Some t' →
  ∃ e p, refreshPromise t = Some (MkRefresh e p) ∧
    ((refreshPromise t' = None ∧ t' = with_promise None t) ∨
     ∃ s q, t' = with_promise (Some (MkRefresh e q)) s ∧
       ((s = t ∧ q = Rejected ∧ p = AwaitLock) ∨
        (∃ n a, (s, q) = run (R := runRefresh_runtime e) n a t ∧
           ((p = AwaitLock ∧ n = 0%nat ∧ a = true) ∨ ∃ d, p = AwaitTimer d n a)) ∨
        (∃ x n a post, ev = Response post ∧ p = AwaitResponse x n a ∧
           (s, q) = on_response (R := runRefresh_runtime e) n a (requestRefresh post) t))).
Proof.
  unfold resume. destruct (refreshPromise t) as [[e p]|]; [|done]. intros H. exists e, p. split; [done|].
  destruct ev, p; try done; injection H as <-; try (left; done); right; (eexists _, _; split; [reflexivity|]).
  - right. left. exists 0%nat, true. rewrite <- surjective_pairing. auto.
  - left. done.
  - right. right. eexists _, _, _, _. rewrite <- surjective_pairing. auto.
  - right. left. eexists _, _. rewrite <- surjective_pairing. eauto.
Qed.

Lemma resume_epoch ev t t' : resume ev t = Some t' → authEpoch t <= authEpoch t'.
Proof.
  intros (e & p & _ & [[_ ->]|(s & q & -> & H)])%resume_spec; [done|]. cbn [with_promise authEpoch].
  destruct H as [(-> & _)|[(n & a & E & _)|(x & n & a & post & _ & _ & E)]]; [done| |].
  - pose proof (run_epoch e n a t) as Hr. rewrite <- E in Hr. cbn in Hr. by subst.
  - pose proof (on_response_epoch e n a (requestRefresh post) t) as Hr. by rewrite <- E in Hr.
Qed.

Lemma refresh_epoch locks t : authEpoch (refreshAuthentication locks t) = authEpoch t.
Proof.
  unfold refreshAuthentication. destruct (refreshPromise t); [done|].
  destruct locks; cbn; try done. unfold createRefreshRunner, run. by destruct (negb _).
Qed.

Lemma bootstrap_inr locks now t t' : bootstrapAuthentication locks now t = inr t' →
  currentValidAuthBundle now t = None ∧
  t' = refreshAuthentication locks (with_auth (setBootstrapState checking (auth t)) t).
Proof.
  unfold bootstrapAuthentication. destruct (currentValidAuthBundle now t); [done|].
  destruct (_ && _); [done|]. by intros [= <-].
Qed.

Lemma bootstrap_inl locks now t o t' : bootstrapAuthentication locks now t = inl (o, t') →
  t' = t ∨ t' = with_auth (setBootstrapState complete (auth t)) t.
Proof.
  unfold bootstrapAuthentication. destruct (currentValidAuthBundle now t); [intros [= <- <-]; auto|].
  destruct (_ && _); [intros [= <- <-]; auto|done].
Qed.

Lemma headers_inr locks now t t' : getFreshAuthHeaders locks now t = inr t' → t' = refreshAuthentication locks t.
Proof. unfold getFreshAuthHeaders. destruct (token_after _ _); [done|]. by intros [= <-]. Qed.

Lemma step_epoch t t' : tab_step t t' → authEpoch t <= authEpoch t'.
Proof.
  intros [? ? H|u ?|p ?|b ?|locks ?|locks now ? o ? H|locks now ? ? H|locks now ? ? H|ev ? ? H]; try done.
  - apply change_bumps in H as [-> _]. lia.
  - by rewrite refresh_epoch.
  - apply bootstrap_inl in H as [->| ->]; done.
  - apply bootstrap_inr in H as [_ ->]. by rewrite refresh_epoch.
  - apply headers_inr in H as ->. by rewrite refresh_epoch.
  - by eapply resume_epoch.
Qed.

Lemma steps_epoch t t' : tab_steps t t' → authEpoch t <= authEpoch t'.
Proof. induction 1 as [|? ? ? H _ IH]; [done|]. apply step_epoch in H. lia. Qed.

(** ** The invariant *)

(** What a pending refresh may rely on.  After a mismatch the retry is sent
    without a session, and as long as nobody else signs in there is none. *)
Definition refresh_inv (t : Tab) (r : Refresh) : Prop :=
  refreshEpoch r <= authEpoch t ∧
  let retried a := a = false → authEpoch t = refreshEpoch r → session (auth t) = None in
  match point r with
  | AwaitResponse s n a => (n <= 3)%nat ∧ (a = false → s = None) ∧ retried a
  | AwaitTimer d n a => (1 <= n <= 3)%nat ∧ refreshRaceDelays !! (n - 1)%nat = Some d ∧ retried a
  | _ => True
  end.

Record tab_inv (t : Tab) : Prop := {
  inv_coherent : coherent (auth t);
  inv_published : Forall (λ p, nonempty p.2 = true) (published t);
  inv_refresh : ∀ r, refreshPromise t = Some r → refresh_inv t r;
}.

Lemma publish_published k s t : Forall (λ p, nonempty p.2 = true) (published t) →
  Forall (λ p, nonempty p.2 = true) (published (publish k s t)).
Proof. unfold publish. destruct (nonempty s) eqn:E; [|done]. intros H. apply Forall_app. split; [done|]. by constructor. Qed.

Lemma applyAuthBundle_published b sync t : Forall (λ p, nonempty p.2 = true) (published t) →
  Forall (λ p, nonempty p.2 = true) (published (applyAuthBundle b sync t)).
Proof. unfold applyAuthBundle. destruct (_ && _); [|done]. intros H. by apply publish_published. Qed.

Lemma clearAuthentication_published sync b t : Forall (λ p, nonempty p.2 = true) (published t) →
  Forall (λ p, nonempty p.2 = true) (published (clearAuthentication sync b t)).
Proof.
  unfold clearAuthentication. destruct (session_sid _); [|done]. destruct (_ && _); [|done].
  intros H. by apply publish_published.
Qed.

(** A pending refresh survives the epoch moving on. *)
Lemma refresh_inv_later t t' r : refresh_inv t r → authEpoch t < authEpoch t' → refresh_inv t' r.
Proof.
  intros [H1 H2] Hlt. split; [lia|]. destruct (point r); try done; cbn in *.
  - destruct H2 as (? & ? & _). split; [done|]. split; [done|]. intros. lia.
  - destruct H2 as (? & ? & _). split; [done|]. split; [done|]. intros. lia.
Qed.

Lemma inv_bundle b sync t : bundle_ok b → tab_inv t → tab_inv (applyAuthBundle b sync t).
Proof.
  intros Hb [H1 H2 H3]. destruct (applyAuthBundle_same b sync t) as (Ea & Ee & Ep). constructor.
  - by rewrite Ea.
  - by apply applyAuthBundle_published.
  - rewrite Ep. intros r Hr. eapply refresh_inv_later; [by apply H3|lia].
Qed.

Lemma inv_clear sync b t : tab_inv t → tab_inv (clearAuthentication sync b t).
Proof.
  intros [H1 H2 H3]. destruct (clearAuthentication_same sync b t) as (Ea & Ee & Ep). constructor.
  - by rewrite Ea.
  - by apply clearAuthentication_published.
  - rewrite Ep. intros r Hr. eapply refresh_inv_later; [by apply H3|lia].
Qed.

(** Store updates that keep the session, or drop it. *)
Lemma inv_with_auth a t : coherent a → (session a = session (auth t) ∨ session a = None) → tab_inv t → tab_inv (with_auth a t).
Proof.
  intros Ha Hs [H1 H2 H3]. constructor; [done|done|]. cbn. intros r Hr. destruct (H3 r Hr) as [I1 I2].
  split; [done|]. destruct (point r); try done; cbn in *.
  all: destruct I2 as (? & ? & I2); (split; [done|]); (split; [done|]); intros Ef Ee;
    destruct Hs as [->| ->]; auto.
Qed.

Lemma inv_promise p t : tab_inv t → (∀ r, p = Some r → refresh_inv t r) → tab_inv (with_promise p t).
Proof. intros [H1 H2 H3] Hp. by constructor. Qed.

(** Starting the loop with an attempt in range. *)
Lemma run_inv e n a t : tab_inv t → e <= authEpoch t → (n <= 3)%nat →
  (a = false → authEpoch t = e → session (auth t) = None) →
  refresh_inv t (MkRefresh e (run (R := runRefresh_runtime e) n a t).2).
Proof.
  intros Hi He Hn Ha. split; [done|]. unfold run. destruct (is_current t) eqn:Ec; cbn; [|done].
  split; [done|]. split; [|done]. intros Hf. unfold is_current in Ec. cbn in Ec. unfold session_sid.
  rewrite (Ha Hf); [done|lia].
Qed.

Lemma refresh_inv_start locks t : tab_inv t → tab_inv (refreshAuthentication locks t).
Proof.
  intros Hi. unfold refreshAuthentication. destruct (refreshPromise t) eqn:Ep; [done|].
  destruct locks; cbn [performRefreshWithBrowserLock].
  - unfold createRefreshRunner. pose proof (run_inv (authEpoch t) 0 true t Hi) as Hr.
    pose proof (run_epoch (authEpoch t) 0 true t) as Es. destruct (run _ _ _) as [s p]. cbn in Es, Hr. subst s.
    apply inv_promise; [done|]. intros r [= <-]. apply Hr; [lia|lia|done].
  - apply inv_promise; [done|]. intros r [= <-]. by split.
  - apply inv_promise; [|intros r [= <-]; by split]. apply inv_with_auth; [|by left|done].
    apply (coherent_keep None None idle), Hi.
Qed.

Lemma bundle_of_ok v : isAuthBundle v = true → bundle_ok (bundle_of v).
Proof.
  unfold isAuthBundle. destruct (negb (is_record v)); [done|].
  rewrite !andb_true_iff. intros [[Ht _] Hs]. unfold hasValidTokenFields in Ht. rewrite !andb_true_iff in Ht.
  destruct Ht as [[H1 _] H3]. unfold isLoginSession in Hs. destruct (negb (is_record (prop v "session"))); [done|].
  rewrite !andb_true_iff in Hs. destruct Hs as [[[[[[[Hs _] _] _] _] _] _] _].
  unfold bundle_ok, bundle_of, session_of. cbn. repeat split.
  - by destruct (prop (prop v "session") "sid").
  - by destruct (prop v "access_token").
  - destruct (prop v "access_expires_at"); try done. by apply andb_true_iff in H3 as [? _].
Qed.

Lemma response_bundle_ok e r b : response_bundle (R := runRefresh_runtime e) r = Some b → bundle_ok b.
Proof.
  unfold response_bundle. cbn. destruct (prop _ "success") as [| |[]| | | |]; try done.
  destruct (isAuthBundle _) eqn:E; [|done]. intros [= <-]. by apply bundle_of_ok.
Qed.

(** The answer to a current request keeps the invariant. *)
Lemma response_inv e x n a r t : tab_inv t → refreshPromise t = Some (MkRefresh e (AwaitResponse x n a)) →
  let q := on_response (R := runRefresh_runtime e) n a r t in
  tab_inv q.1 ∧ refresh_inv q.1 (MkRefresh e q.2).
Proof.
  intros Hi Hp. pose proof (inv_refresh t Hi _ Hp) as [He (Hn & Hx & Hs)]. cbn in He, Hs.
  assert (Hc : ∀ sync b, tab_inv (clearAuthentication sync b t) ∧
    ∀ o, refresh_inv (clearAuthentication sync b t) (MkRefresh e (Settled o))).
  { intros sync b. split; [by apply inv_clear|]. intros o. split; [|done]. cbn.
    destruct (clearAuthentication_same sync b t) as (_ & -> & _). lia. }
  unfold on_response. destruct (negb _); [split; [done|by split]|].
  destruct (response_bundle (R := runRefresh_runtime e) r) as [b|] eqn:Eb.
  { cbn. split.
    - apply inv_bundle; [|done]. by eapply response_bundle_ok.
    - split; [|done]. cbn. destruct (applyAuthBundle_same b false t) as (_ & -> & _). lia. }
  destruct ((status r =? 409) && bool_decide (response_code r = Some "AUTH_REFRESH_RACE"%js)).
  { destruct (refreshRaceDelays !! n) as [d|] eqn:Ed; [|by split; apply Hc].
    apply delays_lookup in Ed as Hd. split; [done|]. split; [done|]. cbn -[lookup].
    split; [lia|]. split; [by replace (n + 1 - 1)%nat with n by lia|done]. }
  destruct ((status r =? 409) && bool_decide (response_code r = Some "AUTH_SESSION_MISMATCH"%js)).
  { destruct a; [|by split; apply Hc]. rewrite run_epoch. cbn [clear runRefresh_runtime negb bool_decide andb].
    rewrite bool_decide_true by done. cbn [andb].
    assert (tab_inv (with_auth (reset idle (auth t)) t)) by (apply inv_with_auth; [done|by right|done]).
    split; [done|]. by apply run_inv; [|cbn; lia|lia|]. }
  destruct (status r =? 401); [by split; apply Hc|]. destruct (_ || _); [|by split; apply Hc].
  split; [|by split]. apply inv_with_auth; [apply (coherent_keep None None idle), Hi|by left|done].
Qed.

Lemma inv_resume ev t t' : resume ev t = Some t' → tab_inv t → tab_inv t'.
Proof.
  intros (e & p & Hp & [[_ ->]|(s & q & -> & H)])%resume_spec Hi; [by apply inv_promise|].
  pose proof (inv_refresh t Hi _ Hp) as [He Hr]. cbn in He, Hr.
  destruct H as [(-> & -> & _)|[(n & a & E & H)|(x & n & a & post & _ & -> & E)]].
  - apply inv_promise; [done|]. intros r [= <-]. by split.
  - pose proof (run_epoch e n a t) as Es. pose proof (run_inv e n a t Hi He) as Hq. rewrite <- E in Es, Hq.
    cbn in Es, Hq. subst s. apply inv_promise; [done|]. intros r [= <-].
    destruct H as [(-> & -> & ->)|[d ->]]; [apply Hq; [lia|done]|]. destruct Hr as (? & ? & ?). apply Hq; [lia|done].
  - destruct (response_inv e x n a (requestRefresh post) t Hi Hp) as [H1 H2]. rewrite <- E in H1, H2.
    apply inv_promise; [done|]. by intros r [= <-].
Qed.

Lemma inv_change t t' : auth_change t t' → tab_inv t → tab_inv t'.
Proof.
  intros [b sync ? ?|v ? ? H|sync b ?|sync ?] Hi.
  - by apply inv_bundle.
  - apply rotation_inr in H as (u & s & _ & _ & Hv & _ & ->). apply inv_bundle; [|done].
    unfold isAuthTokenRotation, hasValidTokenFields in Hv. rewrite !andb_true_iff in Hv.
    destruct Hv as ((((_ & (Ht & _) & He) & _) & Hs) & _). unfold isLoginSession in Hs.
    destruct (negb (is_record (prop v "session"))); [done|]. rewrite !andb_true_iff in Hs.
    destruct Hs as [[[[[[[Hs _] _] _] _] _] _] _]. unfold bundle_ok, session_of. cbn. repeat split.
    + by destruct (prop (prop v "session") "sid").
    + by destruct (prop v "access_token").
    + destruct (prop v "access_expires_at"); try done. by apply andb_true_iff in He as [? _].
  - by apply inv_clear.
  - apply inv_clear. destruct Hi as [H1 H2 H3]. by constructor.
Qed.

Lemma inv_step t t' : tab_step t t' → tab_inv t → tab_inv t'.
Proof.
  assert (Hb : ∀ b t, tab_inv t → tab_inv (with_auth (setBootstrapState b (auth t)) t)).
  { intros b s Hs. apply inv_with_auth; [apply (coherent_keep None None b), Hs|by left|done]. }
  intros [? ? H|u ?|p ?|b ?|locks ?|locks now ? o ? H|locks now ? ? H|locks now ? ? H|ev ? ? H] Hi.
  - by eapply inv_change.
  - apply inv_with_auth; [apply (coherent_keep u None idle), Hi|by left|done].
  - apply inv_with_auth; [apply (coherent_keep None p idle), Hi|by left|done].
  - by apply Hb.
  - by apply refresh_inv_start.
  - apply bootstrap_inl in H as [->| ->]; [done|by apply Hb].
  - apply bootstrap_inr in H as [_ ->]. by apply refresh_inv_start, Hb.
  - apply headers_inr in H as ->. by apply refresh_inv_start.
  - by eapply inv_resume.
Qed.

Lemma inv_initial : tab_inv initial_tab.
Proof. by constructor. Qed.

Lemma inv_reachable t : reachable t → tab_inv t.
Proof.
  unfold reachable, tab_steps. generalize initial_tab inv_initial. intros t0 H0. induction 1; [done|].
  apply IHrtc. by eapply inv_step.
Qed.

(** ** Theorems *)

(** A refresh that is not current any more only stops. *)
Lemma resume_stale ev t t' e p : resume ev t = Some t' → refreshPromise t = Some (MkRefresh e p) →
  authEpoch t ≠ e →
  auth t' = auth t ∧ authEpoch t' = authEpoch t ∧ published t' = published t ∧ queryClears t' = queryClears t ∧
  ∀ r, refreshPromise t' = Some r → point r = Settled superseded ∨ point r = Rejected.
Proof.
  intros (e' & p' & Hp & [[_ ->]|(s & q & -> & H)])%resume_spec Hp' Hne; [by repeat split|].
  rewrite Hp in Hp'. injection Hp' as -> ->.
  assert (Hcur : is_current (R := runRefresh_runtime e) t = false) by (unfold is_current; cbn; lia).
  destruct H as [(-> & -> & _)|[(n & a & E & _)|(x & n & a & post & _ & _ & E)]].
  - repeat split. intros r [= <-]. by right.
  - unfold run in E. rewrite Hcur in E. injection E as -> ->. repeat split. intros r [= <-]. by left.
  - unfold on_response in E. rewrite Hcur in E. injection E as -> ->. repeat split. intros r [= <-]. by left.
Qed.

(** C2: once somebody signed in, rotated the token or signed out while a
    refresh was pending, then whatever happens next, that refresh can no longer
    change the store, the epoch or what is published: its late answer only
    settles it as superseded. *)
Theorem superseded_refresh_inert t t1 t2 t3 r r2 ev :
  reachable t → refreshPromise t = Some r → auth_change t t1 → tab_steps t1 t2 →
  refreshPromise t2 = Some r2 → refreshEpoch r2 = refreshEpoch r → resume ev t2 = Some t3 →
  auth t3 = auth t2 ∧ authEpoch t3 = authEpoch t2 ∧ published t3 = published t2 ∧ queryClears t3 = queryClears t2 ∧
  ∀ r3, refreshPromise t3 = Some r3 → point r3 = Settled superseded ∨ point r3 = Rejected.
Proof.
  intros Hr Hp [Hb _]%change_bumps Hs%steps_epoch Hp2 Heq Hres.
  destruct (inv_refresh t (inv_reachable t Hr) r Hp) as [He _].
  destruct r2 as [e p]. eapply resume_stale; [done|done|]. cbn in Heq. lia.
Qed.

(** Where the answer to a pending request leaves the tab: the refresh at [p],
    the store, the epoch and the events published. *)
Definition answered (t t' : Tab) (e : Z) (p : RunPoint) (a : AuthState) (epoch : Z) (evs : list (SyncKind * jsstr)) :
    Prop :=
  refreshPromise t' = Some (MkRefresh e p) ∧ auth t' = a ∧ authEpoch t' = epoch ∧ published t' = published t ++ evs.

Lemma clear_answered t e sync p : authEpoch t = e →
  answered t (with_promise (Some (MkRefresh e p)) (clearAuthentication sync complete t)) e p
    (reset complete (auth t)) (e + 1)
    (match session_sid (auth t) with Some s => if sync && nonempty s then [(SyncSignedOut, s)] else [] | None => [] end).
Proof.
  intros <-. destruct (clearAuthentication_same sync complete t) as (H1 & H2 & _).
  split; [done|]. cbn [with_promise auth authEpoch published]. split; [done|]. split; [done|].
  unfold clearAuthentication, publish. destruct (session_sid (auth t)) as [s|]; cbn; [|by rewrite app_nil_r].
  destruct sync; cbn; [|by rewrite app_nil_r]. destruct (nonempty s); cbn; [done|by rewrite app_nil_r].
Qed.

(** C3: the answer to a current request determines the store and what follows,
    on every branch and with the branches covering every answer: a valid bundle
    signs in; without one, a race waits for the next delay and tries again, and
    signs out locally once the delays are used up; the first mismatch drops the
    stale session and asks again without it, a second one signs out locally;
    401 signs out and tells the other tabs; an unreachable, failing or
    rate-limiting server keeps the credentials; anything else signs out locally
    with the answer's code. *)
Theorem refresh_outcome_exact t e x n a post t' :
  refreshPromise t = Some (MkRefresh e (AwaitResponse x n a)) → authEpoch t = e →
  resume (Response post) t = Some t' →
  let r := requestRefresh post in
  let code := response_code r in
  let locally c := answered t t' e (Settled (out_of_sync c)) (reset complete (auth t)) (e + 1) [] in
  let race := status r = 409 ∧ code = Some "AUTH_REFRESH_RACE"%js in
  let mismatch := status r = 409 ∧ code = Some "AUTH_SESSION_MISMATCH"%js in
  let down := status r = 0 ∨ 500 <= status r ∨ status r = 429 in
  match response_bundle (R := runRefresh_runtime e) r with
  | Some b => answered t t' e (Settled (authenticated b)) (setBundle b (auth t)) (e + 1) []
  | None =>
    (race → match refreshRaceDelays !! n with
            | Some d => answered t t' e (AwaitTimer d (n + 1) a) (auth t) e []
            | None => locally code
            end) ∧
    (mismatch → if a then answered t t' e (AwaitResponse None 0 false) (reset idle (auth t)) e [] else locally code) ∧
    (status r = 401 →
      answered t t' e (Settled anonymous) (reset complete (auth t)) (e + 1)
        (match session_sid (auth t) with
         | Some s => if nonempty s then [(SyncSignedOut, s)] else []
         | None => []
         end)) ∧
    (down →
      answered t t' e
        (Settled (transient_error (ResponseError (match error r with VUndef | VNull => data r | x => x end))))
        (setBootstrapState idle (auth t)) e []) ∧
    (¬ race → ¬ mismatch → status r ≠ 401 → ¬ down →
      locally (Some (default "AUTH_INVALID_REFRESH_RESPONSE"%js code)))
  end.
Proof.
  intros Hp He Hres r code locally race mismatch down. unfold resume in Hres. rewrite Hp in Hres.
  injection Hres as <-. subst locally. fold r.
  assert (Hcur : is_current (R := runRefresh_runtime e) t = true) by (unfold is_current; cbn; lia).
  assert (Hcl : ∀ c, answered t (with_promise (Some (MkRefresh e (Settled (out_of_sync c))))
    (clearAuthentication false complete t)) e (Settled (out_of_sync c)) (reset complete (auth t)) (e + 1) []).
  { intros c. pose proof (clear_answered t e false (Settled (out_of_sync c)) He) as H.
    by destruct (session_sid (auth t)). }
  assert (Hrace : race ↔ (status r =? 409) && bool_decide (response_code r = Some "AUTH_REFRESH_RACE"%js) = true).
  { by rewrite andb_true_iff, bool_decide_eq_true, Z.eqb_eq. }
  assert (Hmis : mismatch ↔ (status r =? 409) && bool_decide (response_code r = Some "AUTH_SESSION_MISMATCH"%js) = true).
  { by rewrite andb_true_iff, bool_decide_eq_true, Z.eqb_eq. }
  assert (Hdown : down ↔ (status r =? 0) || (500 <=? status r) || (status r =? 429) = true).
  { rewrite !orb_true_iff. unfold down. lia. }
  unfold on_response. rewrite Hcur. cbn [negb].
  destruct (response_bundle (R := runRefresh_runtime e) r) as [b|] eqn:Eb.
  { destruct (applyAuthBundle_same b false t) as (H1 & H2 & _). split; [done|]. split; [exact H1|].
    split; [cbn in H2 |- *; lia|]. cbn. by rewrite app_nil_r. }
  split; [|split; [|split; [|split]]].
  - intros H%Hrace. rewrite H. destruct (refreshRaceDelays !! n); [|apply Hcl].
    repeat split; [done|]. cbn. by rewrite app_nil_r.
  - intros H. rewrite (not_true_is_false ((status r =? 409) && bool_decide (response_code r = Some "AUTH_REFRESH_RACE"%js)))
      by (intros [_ H']%Hrace; destruct H as [_ H]; by rewrite H in H').
    apply Hmis in H. rewrite H. destruct a; [|apply Hcl].
    change (clear false (Some idle) t) with (with_auth (reset idle (auth t)) t). unfold run.
    change (is_current (R := runRefresh_runtime e) (with_auth (reset idle (auth t)) t))
      with (is_current (R := runRefresh_runtime e) t). rewrite Hcur. cbn.
    repeat split; [done|]. cbn. by rewrite app_nil_r.
  - intros H. rewrite H. cbn [Z.eqb Pos.eqb andb fst snd]. apply (clear_answered t e true (Settled anonymous) He).
  - intros H. assert (status r =? 409 = false ∧ status r =? 401 = false) as [-> ->] by (unfold down in H; lia).
    cbn [andb]. apply Hdown in H. rewrite H. repeat split; [done|]. cbn. by rewrite app_nil_r.
  - intros H1 H2 H3 H4. rewrite Hrace, not_true_iff_false in H1. rewrite Hmis, not_true_iff_false in H2.
    rewrite Hdown, not_true_iff_false in H4. apply Z.eqb_neq in H3. rewrite H1, H2, H3, H4. apply Hcl.
Qed.

(** C4: in every state a tab can reach, the session, the token and its expiry
    come together; published events name a session; a pending refresh is in
    range of its retries, was not started in the future, and its retry after a
    mismatch carries no session. *)
Theorem reachable_tab_inv t : reachable t → tab_inv t.
Proof. apply inv_reachable. Qed.

(** A rotation is applied exactly when it is well formed, a user is signed
    in and it is for the current session; then the token is replaced, the user
    and the session id stay, no event is published, and a pending refresh is
    superseded.  Otherwise it throws and changes nothing. *)
Theorem rotation_exact v t :
  match applyAuthRotation v t with
  | inr t' =>
    isAuthTokenRotation v = true ∧ user (auth t') = user (auth t) ∧ user (auth t) ≠ None ∧
    session_sid (auth t) = Some (sid (session_of (prop v "session"))) ∧
    session_sid (auth t') = session_sid (auth t) ∧
    accessToken (auth t') = Some (get_str (prop v "access_token")) ∧ published t' = published t ∧
    authEpoch t' = authEpoch t + 1 ∧ refreshPromise t' = refreshPromise t
  | inl _ =>
    ¬ (isAuthTokenRotation v = true ∧ user (auth t) ≠ None ∧
       session_sid (auth t) = Some (sid (session_of (prop v "session"))))
  end.
Proof.
  destruct (applyAuthRotation v t) as [err|t'] eqn:E.
  - intros (Hv & Hu & Hs). unfold session_sid in Hs. destruct (user (auth t)) as [u|] eqn:Eu; [|done].
    destruct (session (auth t)) as [s|] eqn:Es; [|done]. cbn in Hs. injection Hs as Hs.
    unfold applyAuthRotation in E. by rewrite Hv, Eu, Es, bool_decide_true in E.
  - apply rotation_inr in E as (u & s & Hu & Hs & Hv & Hsid & ->).
    destruct (applyAuthBundle_same (MkBundle (get_str (prop v "access_token")) (get_str (prop v "token_type"))
      (get_num (prop v "access_expires_at")) u (session_of (prop v "session"))) false t) as (-> & -> & ->).
    unfold session_sid. rewrite Hu, Hs. cbn in Hsid |- *. by rewrite Hsid.
Qed.

Lemma refresh_pending locks t : ∃ r, refreshPromise (refreshAuthentication locks t) = Some r ∧
  (∀ r0, refreshPromise t = Some r0 → refreshAuthentication locks t = t ∧ r = r0) ∧
  (refreshPromise t = None → refreshEpoch r = authEpoch t).
Proof.
  unfold refreshAuthentication. destruct (refreshPromise t) as [r|] eqn:E.
  - exists r. split; [done|]. split; [|done]. by intros r0 [= <-].
  - destruct (performRefreshWithBrowserLock locks (authEpoch t) t) as [s p]. by eexists.
Qed.

Lemma refresh_credentials locks t :
  session (auth (refreshAuthentication locks t)) = session (auth t) ∧
  accessToken (auth (refreshAuthentication locks t)) = accessToken (auth t) ∧
  published (refreshAuthentication locks t) = published t.
Proof.
  unfold refreshAuthentication. destruct (refreshPromise t); [done|].
  destruct locks; cbn; try done. unfold createRefreshRunner, run. by destruct (negb _).
Qed.

Lemma no_valid_bundle now t : currentValidAuthBundle now t = None →
  ¬ (∃ tok x, accessToken (auth t) = Some tok ∧ accessExpiresAt (auth t) = Some x ∧ user (auth t) ≠ None ∧
      session (auth t) ≠ None ∧ nonempty tok = true ∧ num_truthy x = true ∧ num_leb x (of_Z now) = false).
Proof.
  intros H (tok & x & Ht & Hx & Hu & Hs & H1 & H2 & H3). unfold currentValidAuthBundle in H. rewrite Ht, Hx in H.
  destruct (user (auth t)), (session (auth t)); try done. by rewrite H1, H2, H3 in H.
Qed.

(** C5: starting the console answers at once exactly when that is safe: with
    the stored credentials when they are complete and not expired, as anonymous
    when a completed check left no user or no session; in every other state, and
    only there, a refresh is pending afterwards, a pending one is joined rather than doubled, and the
    credentials are untouched until it answers. *)
Theorem bootstrap_exact locks now t :
  match bootstrapAuthentication locks now t with
  | inl (authenticated b, t') =>
    accessToken (auth t) = Some (access_token b) ∧ accessExpiresAt (auth t) = Some (access_expires_at b) ∧
    user (auth t) = Some (bundle_user b) ∧ session (auth t) = Some (bundle_session b) ∧
    nonempty (access_token b) = true ∧ num_truthy (access_expires_at b) = true ∧
    num_leb (access_expires_at b) (of_Z now) = false ∧
    t' = with_auth (setBootstrapState complete (auth t)) t
  | inl (anonymous, t') =>
    t' = t ∧ bootstrapState (auth t) = complete ∧ (user (auth t) = None ∨ session (auth t) = None)
  | inl _ => False
  | inr t' =>
    (¬ (∃ tok x, accessToken (auth t) = Some tok ∧ accessExpiresAt (auth t) = Some x ∧ user (auth t) ≠ None ∧
        session (auth t) ≠ None ∧ nonempty tok = true ∧ num_truthy x = true ∧ num_leb x (of_Z now) = false)) ∧
    (bootstrapState (auth t) = complete → user (auth t) ≠ None ∧ session (auth t) ≠ None) ∧
    (∃ r, refreshPromise t' = Some r ∧ (∀ r0, refreshPromise t = Some r0 → r = r0) ∧
      (refreshPromise t = None → refreshEpoch r = authEpoch t)) ∧
    authEpoch t' = authEpoch t ∧ session (auth t') = session (auth t) ∧
    accessToken (auth t') = accessToken (auth t) ∧ published t' = published t
  end.
Proof.
  destruct (bootstrapAuthentication locks now t) as [[o t']|t'] eqn:E.
  - unfold bootstrapAuthentication, currentValidAuthBundle in E.
    destruct (user (auth t)) as [u|], (accessToken (auth t)) as [tok|], (accessExpiresAt (auth t)) as [x|],
      (session (auth t)) as [s|]; cbn [negb andb] in E;
      try (destruct (bool_decide (bootstrapState (auth t) = complete)) eqn:Eb; cbn [andb] in E; [|done];
           try done; injection E as <- <-; apply bool_decide_eq_true in Eb; repeat split; auto).
    destruct (nonempty tok) eqn:H1, (num_truthy x) eqn:H2, (num_leb x (of_Z now)) eqn:H3; cbn in E;
      try (rewrite andb_false_r in E; done).
    injection E as <- <-. by repeat split.
  - assert (bootstrapState (auth t) = complete → user (auth t) ≠ None ∧ session (auth t) ≠ None) as Hs.
    { intros Hb. unfold bootstrapAuthentication in E. destruct (currentValidAuthBundle now t); [done|].
      rewrite bool_decide_true in E by done. by destruct (user (auth t)), (session (auth t)). }
    apply bootstrap_inr in E as [Hn ->]. split; [by apply no_valid_bundle|]. split; [done|].
    set (t1 := with_auth _ t). destruct (refresh_pending locks t1) as (r & Hr & Hj & He).
    destruct (refresh_credentials locks t1) as (-> & -> & ->). rewrite refresh_epoch.
    split; [|done]. exists r. split; [done|]. split; [|done]. intros r0 H0. by apply Hj.
Qed.

(** Headers handed out without a refresh carry a token that lasts more
    than a minute; headers handed out after a refresh that did not authenticate
    carry a token that is not expired; an error is reported only when the
    refresh did not authenticate and no valid token is left, and it is a
    retryable one exactly when the refresh was. *)
Theorem fresh_headers_exact locks now t :
  (∀ hs, getFreshAuthHeaders locks now t = inl hs →
    ∃ tok x, accessToken (auth t) = Some tok ∧ accessExpiresAt (auth t) = Some x ∧
      num_ltb (of_Z (now + 60)) x = true ∧
      hs = [("Content-Type"%js, "application/json"%js); ("Authorization"%js, ("Bearer " ++ tok)%js)]) ∧
  (∀ o hs, fresh_headers_resume now o t = inr hs → (∀ b, o ≠ authenticated b) →
    ∃ tok x, accessToken (auth t) = Some tok ∧ accessExpiresAt (auth t) = Some x ∧ num_ltb (of_Z now) x = true ∧
      hs = [("Content-Type"%js, "application/json"%js); ("Authorization"%js, ("Bearer " ++ tok)%js)]) ∧
  (∀ o err, fresh_headers_resume now o t = inl err →
    (∀ b, o ≠ authenticated b) ∧ token_after (auth t) now = false ∧
    err = match o with transient_error e => RequestFailed e | _ => SessionExpired end).
Proof.
  assert (Hh : ∀ limit, token_after (auth t) limit = true →
    ∃ tok x, accessToken (auth t) = Some tok ∧ accessExpiresAt (auth t) = Some x ∧ num_ltb (of_Z limit) x = true ∧
      getCommonHeaders t = [("Content-Type"%js, "application/json"%js); ("Authorization"%js, ("Bearer " ++ tok)%js)]).
  { intros limit. unfold token_after, getCommonHeaders. destruct (accessToken (auth t)) as [tok|]; [|done].
    destruct (accessExpiresAt (auth t)) as [x|]; [|done]. rewrite !andb_true_iff. intros [[Hn _] Hl].
    exists tok, x. by rewrite Hn. }
  split; [|split].
  - intros hs. unfold getFreshAuthHeaders. destruct (token_after _ _) eqn:E; [|done]. intros [= <-]. by apply Hh.
  - intros o hs H Ho. unfold fresh_headers_resume in H. destruct o as [b| | |]; [by destruct (Ho b)| | |];
      (destruct (token_after (auth t) now) eqn:E; [|done]); injection H as <-; by apply Hh.
  - intros o err H. unfold fresh_headers_resume in H. destruct o as [b| | |]; [done| | |];
      (destruct (token_after (auth t) now) eqn:E; [done|]); injection H as <-; done.
Qed.

(** ** Witnesses *)

Definition sample_user : value := VObj [("id"%js, VNum (of_Z 7)); ("username"%js, VStr "root"); ("role"%js, VNum (of_Z 100))].
Definition sample_session (s : jsstr) : value :=
  VObj [("sid"%js, VStr s); ("current"%js, VBool true); ("login_method"%js, VStr "password"); ("ip"%js, VStr "::1");
        ("user_agent"%js, VStr "test"); ("created_at"%js, VNum (of_Z 1)); ("last_active_at"%js, VNum (of_Z 2));
        ("expires_at"%js, VNum (of_Z 3))].
Definition sample_bundle (s tok : jsstr) : value :=
  VObj [("access_token"%js, VStr tok); ("token_type"%js, VStr "Bearer"); ("access_expires_at"%js, VNum (of_Z 1000));
        ("user"%js, sample_user); ("session"%js, sample_session s)].
Definition success (v : value) : PostResult := Answered 200 (VObj [("success"%js, VBool true); ("data"%js, v)]).

(** A tab that waits for the answer to its first refresh, and one that signed in
    meanwhile. *)
Definition waiting_tab : Tab := refreshAuthentication NoLocks initial_tab.
Definition overtaken_tab : Tab := applyAuthBundle (bundle_of (sample_bundle "new" "t2")) true waiting_tab.

Lemma waiting_reachable : reachable waiting_tab.
Proof. apply rtc_once. apply step_refresh. Qed.

Lemma superseded_refresh_inert_witness :
  ∃ t3, resume (Response (success (sample_bundle "old" "t1"))) overtaken_tab = Some t3 ∧
    auth t3 = auth overtaken_tab ∧ accessToken (auth t3) = Some "t2"%js.
Proof.
  eexists. split; [reflexivity|].
  assert (auth_change waiting_tab overtaken_tab) as Hc by (apply change_bundle; by vm_compute).
  split; [|reflexivity].
  eapply (superseded_refresh_inert waiting_tab overtaken_tab overtaken_tab _ _ _
    (Response (success (sample_bundle "old" "t1"))) waiting_reachable);
    [reflexivity|exact Hc|apply rtc_refl|reflexivity|reflexivity|reflexivity].
Defined.

Lemma refresh_outcome_exact_witness :
  ∃ t', resume (Response (AxiosError (Some (401, VUndef)) VUndef)) waiting_tab = Some t' ∧
    answered waiting_tab t' 0 (Settled anonymous) (reset complete (auth waiting_tab)) (0 + 1) [].
Proof.
  eexists. split; [reflexivity|].
  pose proof (refresh_outcome_exact waiting_tab 0 None 0 true (AxiosError (Some (401, VUndef)) VUndef) _
    eq_refl eq_refl eq_refl) as H. cbn -[waiting_tab answered resume] in H. destruct H as (_ & _ & H & _). apply H. reflexivity.
Defined.

Lemma reachable_tab_inv_witness : tab_inv waiting_tab.
Proof. apply (reachable_tab_inv waiting_tab waiting_reachable). Defined.

Lemma fresh_headers_exact_witness :
  ∃ tok x, accessToken (auth overtaken_tab) = Some tok ∧ accessExpiresAt (auth overtaken_tab) = Some x ∧
    num_ltb (of_Z (100 + 60)) x = true ∧
    getCommonHeaders overtaken_tab =
    [("Content-Type"%js, "application/json"%js); ("Authorization"%js, ("Bearer " ++ tok)%js)].
Proof. apply (fresh_headers_exact NoLocks 100 overtaken_tab). vm_compute. reflexivity. Defined.
End AuthSessionFacts.
