(* ===== verification/AuthSync.v ===== *)
(** * Sessions across tabs ([web/src/lib/auth-session-sync.ts], the listener of
    [web/src/routes/__root.tsx])

    A tab that signs in or out tells the other tabs of the browser, over a
    [BroadcastChannel] where there is one and by writing and removing a storage
    key where there is none.  A [Group] is the tabs of a browser with what is
    still on its way to each; its steps are those of the tabs, the deliveries
    and the passing of time.  The identifiers a tab draws at random are
    arguments. *)

From S2P Require Import Prelude JsString JsNumber JsInteger JsIntegerText JsValue JsonRoundTrip AuthStore AuthSession AuthSessionFacts.
Local Open Scope Z_scope.

Module AuthSync.
Import AuthStore AuthSession AuthSessionFacts.

(** ** Events *)

Definition AUTH_SYNC_STORAGE_KEY : jsstr := "new-api:auth-session:event".

#[global] Instance SyncKind_eq_dec : EqDecision SyncKind.
Proof. solve_decision. Defined.

Definition kind_text (k : SyncKind) : jsstr :=
  match k with SyncAuthenticated => "authenticated" | SyncSignedOut => "signed_out" end.

Record AuthSessionSyncEvent := MkEvent {
  ev_kind : SyncKind;
  ev_sid : jsstr;
  ev_source : jsstr;
  ev_nonce : jsstr;
  ev_timestamp : number;
}.

Definition event_value (e : AuthSessionSyncEvent) : value :=
  VObj [("kind"%js, VStr (kind_text (ev_kind e))); ("sid"%js, VStr (ev_sid e)); ("source"%js, VStr (ev_source e));
        ("nonce"%js, VStr (ev_nonce e)); ("timestamp"%js, VNum (ev_timestamp e))].

Definition isAuthSessionSyncEvent (v : value) : bool :=
  if negb (truthy v) || negb (is_object v) then false
  else
    match prop v "kind" with
    | VStr k => str_eqb k "authenticated" || str_eqb k "signed_out"
    | _ => false
    end &&
    match prop v "sid" with VStr s => nonempty s | _ => false end &&
    is_string (prop v "source") && is_string (prop v "nonce") && is_number (prop v "timestamp").

(** The typed reading of a value the guard accepted. *)
Definition event_of (v : value) : AuthSessionSyncEvent :=
  MkEvent (if str_eqb (get_str (prop v "kind")) "authenticated" then SyncAuthenticated else SyncSignedOut)
    (get_str (prop v "sid")) (get_str (prop v "source")) (get_str (prop v "nonce")) (get_num (prop v "timestamp")).

(** ** Publishing *)

(** What the browser offers: a broadcast channel, only storage, or storage
    that throws. *)
Inductive Transport := ByChannel | ByStorage | NoTransport.
#[global] Instance Transport_eq_dec : EqDecision Transport.
Proof. solve_decision. Defined.

(** What another tab's listeners are called with. *)
Inductive Notice :=
  | ChannelMessage (data : value)
  | StorageChange (key : jsstr) (newValue : option jsstr).

(** [publishAuthSessionEvent] of a tab with identifier [source], at [now]
    milliseconds; [nonce] is the identifier it draws. *)
Definition publishAuthSessionEvent (tr : Transport) (source nonce : jsstr) (now : Z) (k : SyncKind) (s : jsstr) :
    list Notice :=
  if negb (nonempty s) then []
  else
    let event := event_value (MkEvent k s source nonce (of_Z now)) in
    match tr with
    | ByChannel => [ChannelMessage event]
    | ByStorage => [StorageChange AUTH_SYNC_STORAGE_KEY (JSON_stringify event); StorageChange AUTH_SYNC_STORAGE_KEY None]
    | NoTransport => []
    end.

(** ** Receiving *)

(** The event handed to the listener, if any. *)
Definition deliver (own : jsstr) (now : Z) (v : value) : option AuthSessionSyncEvent :=
  if isAuthSessionSyncEvent v && negb (str_eqb (get_str (prop v "source")) own) &&
     num_ltb (num_abs (num_sub (of_Z now) (get_num (prop v "timestamp")))) (of_Z 60000)
  then Some (event_of v)
  else None.

Definition handleStorage (own : jsstr) (now : Z) (key : jsstr) (newValue : option jsstr) : option AuthSessionSyncEvent :=
  match newValue with
  | Some text =>
    if negb (str_eqb key AUTH_SYNC_STORAGE_KEY) || negb (nonempty text) then None
    else match JSON_parse text with Some v => deliver own now v | None => None end
  | None => None
  end.

(** [subscribeAuthSessionEvents]: what a notice leads to. *)
Definition receive (own : jsstr) (now : Z) (n : Notice) : option AuthSessionSyncEvent :=
  match n with
  | ChannelMessage data => deliver own now data
  | StorageChange key newValue => handleStorage own now key newValue
  end.

(** ** The listener of the root route *)

Inductive Reaction := Ignored | Reload | GoToSignIn.

Definition on_session_event (e : AuthSessionSyncEvent) (t : Tab) : Tab * Reaction :=
  let currentSID := session_sid (auth t) in
  let signed_in := match currentSID with Some s => nonempty s | None => false end in
  match ev_kind e with
  | SyncAuthenticated =>
    if bool_decide (Some (ev_sid e) = currentSID) then (t, Ignored)
    else ((if signed_in then clearAuthentication false complete t else t), Reload)
  | SyncSignedOut =>
    if signed_in && bool_decide (Some (ev_sid e) = currentSID)
    then (clearAuthenticatedClientState false t, GoToSignIn)
    else (t, Ignored)
  end.

(** ** The tabs of a browser *)

Record Member := MkMember {
  m_tab : Tab;
  m_source : jsstr;
  m_inbox : list Notice;
}.

Record Group := MkGroup {
  clock : Z;
  members : list Member;
}.

Definition m_sid (m : Member) : option jsstr := session_sid (auth (m_tab m)).

(** The next notice reaches a tab.  A reload starts a new page, with a new
    identifier and nothing on its way to it. *)
Definition deliver_next (now : Z) (fresh : jsstr) (m : Member) : Member :=
  match m_inbox m with
  | [] => m
  | n :: rest =>
    match receive (m_source m) now n with
    | None => MkMember (m_tab m) (m_source m) rest
    | Some e =>
      match on_session_event e (m_tab m) with
      | (_, Reload) => MkMember initial_tab fresh []
      | (t', _) => MkMember t' (m_source m) rest
      end
    end
  end.

Definition post (ns : list Notice) (m : Member) : Member := MkMember (m_tab m) (m_source m) (m_inbox m ++ ns).

(** What a tab published on the way from [t] to [t']. *)
Definition newly_published (t t' : Tab) : list (SyncKind * jsstr) := drop (length (published t)) (published t').

(** Tab [i] goes from [m_tab m] to [t'].  A channel's messages reach the tab's
    own subscription too, storage events only the other tabs. *)
Definition act (tr : Transport) (i : nat) (m : Member) (t' : Tab) (nonce : jsstr) (g : Group) : Group :=
  let ns := newly_published (m_tab m) t' ≫= λ p, publishAuthSessionEvent tr (m_source m) nonce (clock g) p.1 p.2 in
  MkGroup (clock g)
    (imap (λ j m', match tr with ByStorage => if decide (j = i) then m' else post ns m' | _ => post ns m' end)
       (<[i := MkMember t' (m_source m) (m_inbox m)]> (members g))).

Inductive delivery : Group → Group → Prop :=
  | delivery_next i m fresh g : members g !! i = Some m → m_inbox m ≠ [] →
    delivery g (MkGroup (clock g) (<[i := deliver_next (clock g) fresh m]> (members g))).

Inductive group_step (tr : Transport) : Group → Group → Prop :=
  | group_tick d g : 0 <= d → group_step tr g (MkGroup (clock g + d) (members g))
  | group_act i m t' nonce g : members g !! i = Some m → tab_step (m_tab m) t' → group_step tr g (act tr i m t' nonce g)
  | group_deliver g g' : delivery g g' → group_step tr g g'.
End AuthSync.
