(* ===== verification/AuthSyncFacts.v ===== *)
(** * Theorems on sessions across tabs

    Events reach the other tabs' listeners unchanged whatever the transport;
    what a tab publishes is computed by a deterministic machine of its identity; and a
    sign-out or a sign-in reaches every tab: once the notices are delivered, no
    tab is left in a session that ended. *)

From S2P Require Import Prelude JsString JsNumber JsInteger JsIntegerText JsValue JsonRoundTrip AuthStore AuthSession AuthSessionFacts AuthSync.
Local Open Scope Z_scope.

Module AuthSyncFacts.
Import AuthStore AuthSession AuthSessionFacts AuthSync.

#[local] Arguments applyAuthBundle : simpl never.
#[local] Arguments clearAuthentication : simpl never.
#[local] Arguments of_Z : simpl never.

(** ** Delivery *)

Lemma event_value_jsonable e z : ev_timestamp e = of_Z z → safe_int (of_Z z) = Some z → jsonable (event_value e).
Proof.
  intros Ht Hz. apply obj_jsonable; [apply (bool_decide_unpack _); done|].
  intros p Hp. repeat (apply elem_of_cons in Hp as [->|Hp]; [split; [done|]; try done|]); [|by apply elem_of_nil in Hp].
  cbn. rewrite Ht. apply safe_int_readable. by rewrite Hz.
Qed.

Definition in_time (now ts : Z) : bool := Z.abs (now - ts) <? 60000.

Lemma deliver_event own now e z : ev_timestamp e = of_Z z → 0 <= z < 2 ^ 53 → 0 <= now < 2 ^ 53 →
  deliver own now (event_value e) =
  if nonempty (ev_sid e) && negb (str_eqb (ev_source e) own) && in_time now z then Some e else None.
Proof.
  intros Ht Hz Hn. destruct e as [k s src nonce ts]. cbn in Ht. subst ts. unfold deliver.
  change (get_str (prop (event_value (MkEvent k s src nonce (of_Z z))) "source")) with src.
  change (get_num (prop (event_value (MkEvent k s src nonce (of_Z z))) "timestamp")) with (of_Z z).
  rewrite num_sub_exact, num_abs_exact, num_ltb_exact by (unfold safe; lia).
  assert (isAuthSessionSyncEvent (event_value (MkEvent k s src nonce (of_Z z))) = nonempty s) as ->.
  { unfold isAuthSessionSyncEvent. destruct k; cbn; by destruct s. }
  cbn [ev_sid ev_source]. unfold in_time. destruct (_ && _); [|done].
  unfold event_of. cbn. by destruct k.
Qed.

Lemma sync_delivery tr src nonce ts own now k s :
  0 <= ts < 2 ^ 53 → 0 <= now < 2 ^ 53 →
  omap (receive own now) (publishAuthSessionEvent tr src nonce ts k s) =
  if bool_decide (tr ≠ NoTransport) && nonempty s && negb (str_eqb src own) && in_time now ts
  then [MkEvent k s src nonce (of_Z ts)] else [].
Proof.
  intros Ht Hn. unfold publishAuthSessionEvent. destruct (nonempty s) eqn:Es; cbn [negb]; [|by rewrite andb_false_r].
  set (e := MkEvent k s src nonce (of_Z ts)).
  pose proof (deliver_event own now e ts eq_refl Ht Hn) as Hd. cbn [ev_sid ev_source] in Hd. unfold e in Hd at 2 3.
  cbn [ev_sid ev_source] in Hd. rewrite Es in Hd. cbn [andb] in Hd.
  destruct tr; cbn [omap list_omap receive]; [|..|done].
  - rewrite Hd. by destruct (_ && _).
  - destruct (JSON_parse_stringify (event_value e)) as (t & -> & Hh & Hp).
    { apply (event_value_jsonable e ts); [done|]. apply safe_int_of_Z. unfold safe. lia. }
    unfold handleStorage. rewrite Hp, Hd. destruct Hh as (c & t' & -> & _). cbn [negb nonempty].
    rewrite orb_false_r. unfold str_eqb at 1. rewrite bool_decide_true by done. cbn [negb]. by destruct (_ && _).
Qed.

(** A sign-in or sign-out that a tab publishes reaches the listener of a
    tab exactly once and unchanged, over a channel as well as by storage,
    exactly when it comes from another tab and is less than a minute old (or
    ahead); the notice of the storage key's removal reaches nobody. *)
Theorem sync_delivery_exact tr src nonce ts own now k s :
  0 <= ts < 2 ^ 53 → 0 <= now < 2 ^ 53 →
  omap (receive own now) (publishAuthSessionEvent tr src nonce ts k s) =
  if bool_decide (tr ≠ NoTransport) && nonempty s && negb (str_eqb src own) && in_time now ts
  then [MkEvent k s src nonce (of_Z ts)] else [].
Proof. apply sync_delivery. Qed.

Lemma sync_delivery_exact_witness :
  omap (receive "tab-2"%js 1000) (publishAuthSessionEvent ByStorage "tab-1" "n" 999 SyncSignedOut "s1") =
  [MkEvent SyncSignedOut "s1"%js "tab-1"%js "n"%js (of_Z 999)].
Proof. rewrite (sync_delivery_exact ByStorage "tab-1" "n" 999 "tab-2" 1000 SyncSignedOut "s1"); [vm_compute; reflexivity|lia|lia]. Defined.

(** ** What a tab publishes *)

(** The abstract machine: who a tab is signed in as, driven by what it is told
    to do.  Keeping the session says nothing; entering one announces it if the
    entry is shared and the session is another one; leaving announces the
    session left if the exit is shared.  Nothing else is ever said. *)
Inductive Identity := Keeps | Enters (shared : bool) (s : jsstr) | Leaves (shared : bool).

Definition identity_next (l : Identity) (who : option jsstr) : option jsstr * list (SyncKind * jsstr) :=
  match l with
  | Keeps => (who, [])
  | Enters shared s => (Some s, if shared && bool_decide (who ≠ Some s) then [(SyncAuthenticated, s)] else [])
  | Leaves shared => (None, match who with Some s => if shared then [(SyncSignedOut, s)] else [] | None => [] end)
  end.

Fixpoint identity_run (ls : list Identity) (who : option jsstr) : option jsstr * list (SyncKind * jsstr) :=
  match ls with
  | [] => (who, [])
  | l :: ls =>
    let '(who, es) := identity_next l who in
    let '(who, fs) := identity_run ls who in
    (who, es ++ fs)
  end.

(** What the answer to a refresh of epoch [e] tells a tab of epoch [now]: a
    bundle to enter its session, and only 401 to leave for everybody. *)
Definition answer_label (now e : Z) (n : nat) (first : bool) (r : AuthRefreshHTTPResponse) : Identity :=
  if bool_decide (now ≠ e) then Keeps
  else
    match response_bundle (R := runRefresh_runtime e) r with
    | Some b => Enters false (sid (bundle_session b))
    | None =>
      if bool_decide (status r = 401) then Leaves true
      else if bool_decide (status r = 0 ∨ 500 <= status r ∨ status r = 429) then Keeps
      else if bool_decide (status r = 409 ∧ response_code r = Some "AUTH_REFRESH_RACE"%js ∧ (n < 3)%nat) then Keeps
      else Leaves false
    end.

(** The steps of a tab, each with what it tells the machine. *)
Inductive tab_acts : Tab → Identity → Tab → Prop :=
  | acts_bundle b sync t : bundle_ok b →
      tab_acts t (Enters sync (sid (bundle_session b))) (applyAuthBundle b sync t)
  | acts_rotation v t t' : applyAuthRotation v t = inr t' → tab_acts t Keeps t'
  | acts_clear sync b t : tab_acts t (Leaves sync) (clearAuthentication sync b t)
  | acts_client sync t : tab_acts t (Leaves sync) (clearAuthenticatedClientState sync t)
  | acts_user u t : tab_acts t Keeps (with_auth (setUser u (auth t)) t)
  | acts_pending p t : tab_acts t Keeps (with_auth (setPending2FAFlowToken p (auth t)) t)
  | acts_bootstrap_state b t : tab_acts t Keeps (with_auth (setBootstrapState b (auth t)) t)
  | acts_refresh locks t : tab_acts t Keeps (refreshAuthentication locks t)
  | acts_bootstrap_known locks now t o t' : bootstrapAuthentication locks now t = inl (o, t') → tab_acts t Keeps t'
  | acts_bootstrap_refresh locks now t t' : bootstrapAuthentication locks now t = inr t' → tab_acts t Keeps t'
  | acts_headers locks now t t' : getFreshAuthHeaders locks now t = inr t' → tab_acts t Keeps t'
  | acts_answer post e x n a t t' : refreshPromise t = Some (MkRefresh e (AwaitResponse x n a)) →
      resume (Response post) t = Some t' →
      tab_acts t (answer_label (authEpoch t) e n a (requestRefresh post)) t'
  | acts_host ev t t' : (∀ post, ev ≠ Response post) → resume ev t = Some t' → tab_acts t Keeps t'.

Lemma step_labelled t t' : tab_step t t' ↔ ∃ l, tab_acts t l t'.
Proof.
  split.
  - intros [? ? [b sync ? H|v ? ? H|sync b ?|sync ?]|u ?|p ?|b ?|locks ?|locks now ? o ? H|locks now ? ? H|locks now ? ? H|ev ? ? H];
      try (eexists; by econstructor). destruct ev as [| |post| |];
      try (eexists; eapply acts_host; [|exact H]; intros ? [=]; fail).
    pose proof H as (e & p & Hp & _)%resume_spec. destruct p; try (unfold resume in H; rewrite Hp in H; done).
    eexists. by eapply acts_answer.
  - intros [l [b sync s H|v s s' H|sync b s|sync s|u s|p s|b s|locks s|locks now s o s' H|locks now s s' H|locks now s s' H|post e x n a s s' _ H|ev s s' _ H]];
      first [by econstructor | apply step_change; by econstructor].
Qed.

(** The simulation: a step says what the machine says, and leaves the tab
    signed in as the machine. *)
Definition simulates (t : Tab) (l : Identity) (t' : Tab) : Prop :=
  ∃ evs, published t' = published t ++ evs ∧ identity_next l (session_sid (auth t)) = (session_sid (auth t'), evs).

Lemma simulates_keeps t t' :
  published t' = published t → session_sid (auth t') = session_sid (auth t) → simulates t Keeps t'.
Proof. intros Hp Hs. exists []. rewrite app_nil_r. cbn. by rewrite Hs. Qed.

Lemma simulates_bundle b sync t : bundle_ok b →
  simulates t (Enters sync (sid (bundle_session b))) (applyAuthBundle b sync t).
Proof.
  intros (Hb & _). destruct (applyAuthBundle_same b sync t) as (Ea & _). unfold simulates. rewrite Ea.
  unfold applyAuthBundle. eexists. split; [|reflexivity]. rewrite bool_decide_not.
  destruct (sync && _); [|by rewrite app_nil_r]. unfold publish. by rewrite Hb.
Qed.

Lemma session_named t s : tab_inv t → session_sid (auth t) = Some s → nonempty s = true.
Proof. intros Hi Hs. apply inv_coherent, coherent_sid in Hi. destruct s; [by rewrite Hs in Hi|done]. Qed.

Lemma simulates_clear sync b t : tab_inv t → simulates t (Leaves sync) (clearAuthentication sync b t).
Proof.
  intros Hi. destruct (clearAuthentication_same sync b t) as (Ea & _). unfold simulates. rewrite Ea.
  unfold clearAuthentication. eexists. split; [|reflexivity].
  destruct (session_sid (auth t)) as [s|] eqn:E; [|by rewrite app_nil_r].
  unfold publish. rewrite (session_named t s) by done. destruct sync; [done|by rewrite app_nil_r].
Qed.

Lemma simulates_answer e n a r t : tab_inv t →
  simulates t (answer_label (authEpoch t) e n a r) (on_response (R := runRefresh_runtime e) n a r t).1.
Proof.
  intros Hi. assert (Hc : ∀ sync b, simulates t (Leaves sync) (clearAuthentication sync b t))
    by (intros; by apply simulates_clear).
  unfold answer_label, on_response, is_current. cbn [isCurrent runRefresh_runtime].
  destruct (authEpoch t =? e) eqn:He; cbn [negb].
  2: { apply Z.eqb_neq in He. rewrite bool_decide_true by done. by apply simulates_keeps. }
  apply Z.eqb_eq in He. rewrite bool_decide_false by (intros H; done).
  destruct (response_bundle (R := runRefresh_runtime e) r) as [b|] eqn:Eb.
  { apply simulates_bundle. by eapply response_bundle_ok. }
  destruct (status r =? 409) eqn:E9; cbn [andb].
  - apply Z.eqb_eq in E9. rewrite bool_decide_false, (bool_decide_false (status r = 0 ∨ _)) by lia.
    rewrite E9. cbn [Z.eqb Pos.eqb Z.leb Z.compare Pos.compare Pos.compare_cont orb].
    destruct (bool_decide (response_code r = Some "AUTH_REFRESH_RACE"%js)) eqn:E1.
    { apply bool_decide_eq_true in E1. destruct (decide (n < 3)%nat) as [Hn|Hn].
      - rewrite bool_decide_true by done. destruct n as [|[|[|n]]]; try lia; by apply simulates_keeps.
      - rewrite bool_decide_false by (intros (_ & _ & ?); done). destruct n as [|[|[|n]]]; try lia. apply Hc. }
    apply bool_decide_eq_false in E1. rewrite bool_decide_false by (intros (_ & ? & _); done).
    destruct (bool_decide (response_code r = Some "AUTH_SESSION_MISMATCH"%js)); [|apply Hc].
    destruct a; [|apply Hc]. rewrite run_epoch. exists []. rewrite app_nil_r. split; [done|]. cbn.
    by destruct (session_sid (auth t)).
  - apply Z.eqb_neq in E9. rewrite (bool_decide_false (_ ∧ _)) by (intros (? & _); done).
    destruct (status r =? 401) eqn:E1; [apply Z.eqb_eq in E1; rewrite bool_decide_true by done; apply Hc|].
    apply Z.eqb_neq in E1. rewrite (bool_decide_false (status r = 401)) by done.
    destruct ((status r =? 0) || (500 <=? status r) || (status r =? 429)) eqn:E2.
    + rewrite !orb_true_iff in E2. rewrite bool_decide_true by lia. by apply simulates_keeps.
    + rewrite !orb_false_iff in E2. rewrite bool_decide_false by lia. apply Hc.
Qed.

Lemma refresh_keeps locks t t0 : published t = published t0 → session (auth t) = session (auth t0) →
  simulates t0 Keeps (refreshAuthentication locks t).
Proof.
  intros Hp Hs. destruct (refresh_credentials locks t) as (Es & _ & Ep).
  apply simulates_keeps; [congruence|]. unfold session_sid. congruence.
Qed.

Lemma host_keeps ev t t' : (∀ post, ev ≠ Response post) → resume ev t = Some t' → simulates t Keeps t'.
Proof.
  intros Hne (e & p & _ & [[_ ->]|(s & q & -> & H)])%resume_spec; [by apply simulates_keeps|].
  destruct H as [(-> & _)|[(n & a & E & _)|(x & n & a & post & -> & _)]]; [by apply simulates_keeps| |by destruct (Hne post)].
  pose proof (run_epoch e n a t) as Hr. rewrite <- E in Hr. cbn in Hr. subst. by apply simulates_keeps.
Qed.

Lemma acts_simulates t l t' : tab_acts t l t' → tab_inv t → simulates t l t'.
Proof.
  intros [b sync s H|v s s' H|sync b s|sync s|u s|p s|b s|locks s|locks now s o s' H|locks now s s' H|locks now s s' H|post e x n a s s' Hp H|ev s s' Hne H] Hi;
    try (by apply simulates_keeps).
  - by apply simulates_bundle.
  - apply rotation_inr in H as (u & s0 & _ & Hs & _ & Hsid & ->). apply simulates_keeps; [done|].
    match goal with |- context [applyAuthBundle ?b ?y ?t] => destruct (applyAuthBundle_same b y t) as (-> & _) end.
    unfold session_sid. rewrite Hs. change (Some (sid (session_of (prop v "session"))) = Some (sid s0)). by rewrite Hsid.
  - by apply simulates_clear.
  - unfold clearAuthenticatedClientState. match goal with |- context [clearAuthentication _ _ ?x] =>
      destruct (simulates_clear sync complete x) as (evs & Hq & Hs) end; [by destruct Hi|by exists evs].
  - by apply refresh_keeps.
  - apply bootstrap_inl in H as [->| ->]; by apply simulates_keeps.
  - apply bootstrap_inr in H as [_ ->]. by apply refresh_keeps.
  - apply headers_inr in H as ->. by apply refresh_keeps.
  - pose proof (simulates_answer e n a (requestRefresh post) s Hi) as (evs & H1 & H2). unfold resume in H.
    rewrite Hp in H. injection H as <-. by exists evs.
  - by eapply host_keeps.
Qed.

(** Runs of a tab. *)
Inductive tab_run : Tab → list Identity → Tab → Prop :=
  | tab_run_nil t : tab_run t [] t
  | tab_run_cons t1 l t2 ls t3 : tab_acts t1 l t2 → tab_run t2 ls t3 → tab_run t1 (l :: ls) t3.

Lemma runs_labelled t t' : tab_steps t t' ↔ ∃ ls, tab_run t ls t'.
Proof.
  split.
  - induction 1 as [t|t1 t2 t3 [l H]%step_labelled _ [ls IH]]; [by exists []; constructor|].
    exists (l :: ls). by econstructor.
  - intros [ls H]. induction H as [|t1 l t2 ls t3 H _ IH]; [apply rtc_refl|]. eapply rtc_l; [|exact IH].
    apply step_labelled. by exists l.
Qed.

Lemma run_simulates t ls t' : tab_run t ls t' → tab_inv t →
  ∃ evs, published t' = published t ++ evs ∧ identity_run ls (session_sid (auth t)) = (session_sid (auth t'), evs).
Proof.
  induction 1 as [t|t1 l t2 ls t3 H _ IH]; intros Hi; [exists []; by rewrite app_nil_r|].
  destruct (acts_simulates _ _ _ H Hi) as (es & Hp & Hn).
  destruct IH as (fs & Hq & Hf); [eapply inv_step; [|done]; apply step_labelled; by exists l|].
  exists (es ++ fs). cbn [identity_run]. rewrite Hn, Hf, Hq, Hp, app_assoc. done.
Qed.

(** C6: a tab refines the machine of its identity.  Every run of a tab from the
    moment its page is loaded is a sequence of steps that each keep the session,
    enter one or leave it, shared with the other tabs or not, as the operation
    called or the answer received says; the session the tab ends in and exactly
    everything it published, in order, are what the deterministic machine
    computes from that sequence: a shared entry into another session announces
    it, a shared exit announces the session left, and nothing else is said. *)
Theorem tab_refines_identity t :
  (reachable t ↔ ∃ ls, tab_run initial_tab ls t) ∧
  ∀ ls, tab_run initial_tab ls t → identity_run ls None = (session_sid (auth t), published t).
Proof.
  split; [apply runs_labelled|]. intros ls H. by destruct (run_simulates _ _ _ H inv_initial) as (evs & -> & ?).
Qed.

Lemma tab_refines_identity_witness :
  ∃ t, tab_run initial_tab [Enters true "s1"%js; Leaves true] t ∧
    identity_run [Enters true "s1"%js; Leaves true] None = (session_sid (auth t), published t) ∧
    published t = [(SyncAuthenticated, "s1"%js); (SyncSignedOut, "s1"%js)].
Proof.
  eexists.
  assert (tab_run initial_tab [Enters true "s1"%js; Leaves true]
    (clearAuthentication true complete (applyAuthBundle (bundle_of (sample_bundle "s1" "t1")) true initial_tab))) as H.
  { eapply tab_run_cons; [apply (acts_bundle (bundle_of (sample_bundle "s1" "t1"))); vm_compute; auto|].
    eapply tab_run_cons; [apply acts_clear|constructor]. }
  split; [exact H|]. split; [apply (tab_refines_identity _); exact H|reflexivity].
Defined.

(** ** The group *)

(** Deliveries are silent: a listener publishes nothing, so notices never
    multiply. *)
Lemma listener_silent e t : published (on_session_event e t).1 = published t.
Proof.
  assert (∀ b t, published (clearAuthentication false b t) = published t) as Hc.
  { intros b t0. unfold clearAuthentication. by destruct (session_sid (auth t0)). }
  unfold on_session_event. destruct (ev_kind e); case_bool_decide; rewrite ?andb_false_r, ?andb_true_r; cbn [fst].
  - done.
  - destruct (match session_sid (auth t) with Some s => nonempty s | None => false end); [apply Hc|done].
  - destruct (match session_sid (auth t) with Some s => nonempty s | None => false end); [|done].
    unfold clearAuthenticatedClientState. cbn [fst]. by rewrite Hc.
  - done.
Qed.

(** Nor does a delivery sign anybody in. *)
Lemma deliver_next_sid now fresh m :
  m_sid (deliver_next now fresh m) = None ∨
  m_tab (deliver_next now fresh m) = m_tab m ∧ m_source (deliver_next now fresh m) = m_source m ∧
    m_inbox (deliver_next now fresh m) = tail (m_inbox m).
Proof.
  unfold deliver_next. destruct (m_inbox m) as [|n rest] eqn:E; [rewrite E; auto|].
  destruct (receive (m_source m) now n) as [e|]; [|auto].
  unfold on_session_event. destruct (ev_kind e); case_bool_decide; rewrite ?andb_false_r, ?andb_true_r; [auto|auto| |auto].
  destruct (match session_sid (auth (m_tab m)) with Some s => nonempty s | None => false end); [left|auto].
  unfold m_sid, clearAuthenticatedClientState. cbn [m_tab].
  match goal with |- context [clearAuthentication ?s ?b ?t] => destruct (clearAuthentication_same s b t) as (-> & _) end.
  done.
Qed.

Lemma deliver_next_inbox now fresh m : m_inbox m ≠ [] →
  (length (m_inbox (deliver_next now fresh m)) < length (m_inbox m))%nat.
Proof.
  intros H. unfold deliver_next. destruct (m_inbox m) as [|n rest]; [done|].
  destruct (receive (m_source m) now n) as [e|]; [|cbn; lia].
  destruct (on_session_event e (m_tab m)) as [t' []]; cbn; lia.
Qed.

Definition pending (g : Group) : nat := sum_list (map (λ m, length (m_inbox m)) (members g)).

Section Ending.
(** A class of sessions that ended, and the notice of the end. *)
Variable ended : jsstr → Prop.
Variables (lo hi : Z).

(** A notice that, delivered before the deadline, makes a tab leave an ended
    session. *)
Definition expels (own : jsstr) (n : Notice) : Prop :=
  ∀ now t s, lo <= now < hi → session_sid (auth t) = Some s → ended s →
  ∃ e, receive own now n = Some e ∧
    ((on_session_event e t).2 = Reload ∨ session_sid (auth (on_session_event e t).1) = None).

(** Every tab still in an ended session has such a notice on its way. *)
Definition told (m : Member) : Prop :=
  ∀ s, m_sid m = Some s → ended s → ∃ n, n ∈ m_inbox m ∧ expels (m_source m) n.
Definition all_told (g : Group) : Prop := lo <= clock g ∧ Forall told (members g).

(** Steps in which nobody enters an ended session. *)
Definition enters (m m' : Member) : Prop := ∃ s, m_sid m' = Some s ∧ ended s ∧ m_sid m ≠ Some s.
Definition quiet (g g' : Group) : Prop :=
  ∀ i m m', members g !! i = Some m → members g' !! i = Some m' → ¬ enters m m'.
Definition quiet_step (tr : Transport) (g g' : Group) : Prop := group_step tr g g' ∧ quiet g g' ∧ clock g' < hi.

Lemma told_delivery now fresh m : lo <= now < hi → told m → told (deliver_next now fresh m).
Proof.
  intros Hn Hm s Hs He. destruct (deliver_next_sid now fresh m) as [H|(Ht & Hsrc & Hin)]; [congruence|].
  unfold m_sid in Hs. rewrite Ht in Hs. destruct (Hm s Hs He) as (n & Hni & Hx). rewrite Hsrc, Hin.
  destruct (m_inbox m) as [|n0 rest] eqn:E; [by apply elem_of_nil in Hni|].
  apply elem_of_cons in Hni as [->|Hni]; [exfalso|by exists n].
  destruct (Hx now (m_tab m) s Hn Hs He) as (e & Hr & Hc). unfold deliver_next in Ht, Hin. rewrite E, Hr in Ht, Hin.
  destruct (on_session_event e (m_tab m)) as [t' r]. cbn in Hc. destruct Hc as [->|Hc].
  - cbn in Ht. by rewrite <- Ht in Hs.
  - destruct r; cbn in Ht; rewrite <- Ht in Hs; try done; congruence.
Qed.

Lemma told_post ns m : told m → told (post ns m).
Proof.
  intros Hm s Hs He. destruct (Hm s Hs He) as (n & Hn & Hx). exists n. split; [|done]. cbn. apply elem_of_app. by left.
Qed.

Lemma told_act tr i m t' nonce g : members g !! i = Some m → quiet g (act tr i m t' nonce g) →
  Forall told (members g) → Forall told (members (act tr i m t' nonce g)).
Proof.
  intros Hi Hq Ht. rewrite Forall_lookup in *. intros j m' Hj. pose proof Hj as Hj0. unfold act in Hj. cbn [members] in Hj.
  rewrite list_lookup_imap in Hj. set (ms := <[i := _]> (members g)) in *.
  destruct (ms !! j) as [m0|] eqn:E; [|done]. cbn in Hj. apply (inj Some) in Hj.
  assert (told m0 → told m') as Hm by (intros; subst m'; destruct tr; try case_decide; auto using told_post).
  apply Hm. unfold ms in E. apply list_lookup_insert_Some in E as [(-> & <- & _)|(_ & E)]; [|by apply (Ht j)].
  intros s Hs He. cbn in *. destruct (Ht j m Hi s) as (n & Hn & Hx); [|done|by exists n].
  destruct (decide (m_sid m = Some s)) as [|Hne]; [done|]. exfalso. apply (Hq j m m' Hi Hj0). exists s.
  split; [|done]. subst m'. destruct tr; try case_decide; done.
Qed.

Lemma told_step tr g g' : quiet_step tr g g' → all_told g → all_told g'.
Proof.
  intros (Hstep & Hq & Hc) [Hlo Ht]. destruct Hstep as [d g Hd|i m t' nonce g Hi Hs|g g' [i m fresh g1 Hi Hne]].
  - split; [cbn; lia|done].
  - split; [done|]. by apply told_act.
  - split; [done|]. cbn. apply Forall_insert; [done|]. apply told_delivery; [done|].
    rewrite Forall_lookup in Ht. by eapply Ht.
Qed.

Lemma told_steps tr g g' : rtc (quiet_step tr) g g' → all_told g → all_told g'.
Proof. induction 1; [done|]. eauto using told_step. Qed.

Lemma pending_delivery g g' : delivery g g' → (pending g' < pending g)%nat.
Proof.
  intros [i m fresh g0 Hi Hne]. unfold pending. cbn [members].
  pose proof (deliver_next_inbox (clock g0) fresh m Hne) as Hl. revert Hl i Hi. generalize (deliver_next (clock g0) fresh m) as m'. intros m' Hl. generalize (members g0).
  intros l. induction l as [|m0 l IH]; intros [|i] Hi; try done; cbn in *.
  - injection Hi as ->. lia.
  - apply Nat.add_lt_mono_l. exact (IH i Hi).
Qed.

(** Delivering what is pending empties the inboxes. *)
Lemma settles tr g : clock g < hi → ∃ n g', (n <= pending g)%nat ∧ nsteps delivery n g g' ∧ rtc (quiet_step tr) g g' ∧
  Forall (λ m, m_inbox m = []) (members g').
Proof.
  remember (pending g) as k eqn:Hk. revert g Hk. induction (lt_wf k) as [k _ IH]. intros g -> Hc.
  destruct (decide (Forall (λ m, m_inbox m = []) (members g))) as [He|Hne].
  { exists 0%nat, g. split; [lia|]. split; [constructor|]. by split; [constructor|]. }
  apply not_Forall_Exists, Exists_exists in Hne as (m & Hm & Hne); [|intros ?; apply _].
  apply list_elem_of_lookup in Hm as [i Hi].
  set (g1 := MkGroup (clock g) (<[i := deliver_next (clock g) (m_source m) m]> (members g))).
  assert (delivery g g1) as Hd by (by constructor). pose proof (pending_delivery g g1 Hd) as Hlt.
  destruct (IH _ Hlt g1 eq_refl Hc) as (n & g' & Hn & H1 & H2 & H3). exists (S n), g'.
  split; [lia|]. split; [by econstructor|]. split; [|done]. eapply rtc_l; [|done]. split; [by constructor|]. split; [|done].
  intros j m1 m2 E1 E2 (s & Hs & _ & Hno). unfold g1 in E2. cbn in E2.
  apply list_lookup_insert_Some in E2 as [(-> & <- & _)|(_ & E2)]; [|congruence].
  rewrite Hi in E1. injection E1 as <-.
  destruct (deliver_next_sid (clock g) (m_source m) m) as [H|(Ht & _)]; [congruence|]. unfold m_sid in *. congruence.
Qed.

(** From a state in which everybody concerned is told, nobody is left in an
    ended session once the pending notices are delivered. *)
Lemma ending_reaches_all tr g1 g2 : all_told g1 → clock g1 < hi → rtc (quiet_step tr) g1 g2 →
  ∃ n g3, (n <= pending g2)%nat ∧ nsteps delivery n g2 g3 ∧ Forall (λ m, m_inbox m = []) (members g3) ∧
    ∀ m s, m ∈ members g3 → m_sid m = Some s → ¬ ended s.
Proof.
  intros Ht Hc Hs. assert (clock g2 < hi) as Hc2.
  { apply rtc_inv_r in Hs as [->|(g & _ & (_ & _ & H))]; done. }
  destruct (settles tr g2 Hc2) as (n & g3 & Hn & Hd & Hq & He). exists n, g3. split; [done|]. split; [done|]. split; [done|].
  intros m s Hm Hsid Hend. apply told_steps in Hs; [|done]. apply told_steps in Hq as [_ Hq]; [|done].
  rewrite Forall_forall in Hq, He. destruct (Hq m Hm s Hsid Hend) as (x & Hx & _). rewrite (He m Hm) in Hx.
  by apply elem_of_nil in Hx.
Qed.
End Ending.

Lemma omap_only {A B} (f : A → option B) x xs y : omap f (x :: xs) = [y] → omap f xs = [] → f x = Some y.
Proof. cbn [omap list_omap]. destruct (f x); [by intros [= -> _]|]. intros H1 H2. unfold omap, list_omap in *. congruence. Qed.

(** What an announcement brings to the others. *)
Lemma published_notice tr src nonce ts k s : tr ≠ NoTransport → 0 <= ts → ts + 60000 <= 2 ^ 53 → nonempty s = true →
  ∃ n, n ∈ publishAuthSessionEvent tr src nonce ts k s ∧ ∀ own now, ts <= now < ts + 60000 → own ≠ src →
    receive own now n = Some (MkEvent k s src nonce (of_Z ts)).
Proof.
  intros Htr Ht Hhi Hs.
  assert (Hd : ∀ own now, ts <= now < ts + 60000 → own ≠ src →
    omap (receive own now) (publishAuthSessionEvent tr src nonce ts k s) = [MkEvent k s src nonce (of_Z ts)]).
  { intros own now Hn Ho. rewrite sync_delivery by lia. rewrite bool_decide_true, Hs by done.
    assert (str_eqb src own = false) as -> by (apply str_eqb_neq; congruence).
    unfold in_time. destruct (Z.ltb_spec (Z.abs (now - ts)) 60000); [done|lia]. }
  unfold publishAuthSessionEvent in *. rewrite Hs in *. cbn [negb] in *.
  destruct tr; [| |done]; (eexists; split; [apply elem_of_cons; left; reflexivity|]); intros own now Hn Ho;
    by apply (omap_only _ _ _ _ (Hd own now Hn Ho)).
Qed.

(** The state after a tab announced the end of sessions. *)
Lemma announced_all_told (ended : jsstr → Prop) tr g i m t' nonce k s :
  tr ≠ NoTransport → 0 <= clock g → clock g + 60000 <= 2 ^ 53 → members g !! i = Some m → nonempty s = true →
  (∀ j m', members g !! j = Some m' → j ≠ i → m_source m' ≠ m_source m) →
  published t' = published (m_tab m) ++ [(k, s)] → (∀ x, session_sid (auth t') = Some x → ¬ ended x) →
  (∀ e t x, ev_kind e = k → ev_sid e = s → session_sid (auth t) = Some x → ended x →
    (on_session_event e t).2 = Reload ∨ session_sid (auth (on_session_event e t).1) = None) →
  all_told ended (clock g) (clock g + 60000) (act tr i m t' nonce g).
Proof.
  intros Htr Hlo Hhi Hi Hs Hsrc Hpub Hown Hexp. split; [done|]. apply Forall_lookup. intros j m' Hj.
  unfold act in Hj. cbn [members] in Hj. unfold newly_published in Hj. rewrite Hpub, drop_app_length in Hj.
  cbn [mbind list_bind fst snd] in Hj. rewrite app_nil_r in Hj.
  destruct (published_notice tr (m_source m) nonce (clock g) k s Htr Hlo Hhi Hs) as (n & Hn & Hr).
  set (ns := publishAuthSessionEvent _ _ _ _ _ _) in *. rewrite list_lookup_imap in Hj.
  destruct (<[i := _]> (members g) !! j) as [m0|] eqn:E; [|done]. cbn in Hj. apply (inj Some) in Hj.
  apply list_lookup_insert_Some in E as [(-> & <- & _)|(Hne & E)].
  - intros x Hx Hex. exfalso. apply (Hown x); [|done]. subst m'. destruct tr; try case_decide; done.
  - assert (m' = post ns m0) as -> by (subst m'; destruct tr; try case_decide; done).
    intros x Hx Hex. exists n. split; [apply elem_of_app; by right|]. intros now t y Hnow Hy Hey.
    eexists. split; [apply Hr; [done|]|by eapply Hexp]. cbn. by eapply Hsrc.
Qed.

(** C7: when a tab signs out of a session, every tab leaves it: whatever the
    tabs do in the minute after (as long as none enters that session again),
    there are finitely many notices to deliver, at most as many as are pending,
    and when they are, all inboxes are empty and no tab is in the session. *)
Theorem sign_out_reaches_all tr g g2 i m s nonce :
  tr ≠ NoTransport → 0 <= clock g → clock g + 60000 <= 2 ^ 53 →
  members g !! i = Some m → m_sid m = Some s → nonempty s = true →
  (∀ j m', members g !! j = Some m' → j ≠ i → m_source m' ≠ m_source m) →
  rtc (quiet_step (eq s) (clock g + 60000) tr)
    (act tr i m (clearAuthenticatedClientState true (m_tab m)) nonce g) g2 →
  ∃ n g3, (n <= pending g2)%nat ∧ nsteps delivery n g2 g3 ∧ Forall (λ m, m_inbox m = []) (members g3) ∧
    ∀ m', m' ∈ members g3 → m_sid m' ≠ Some s.
Proof.
  intros Htr Hlo Hhi Hi Hm Hs Hsrc Hq.
  set (g1 := act _ _ _ _ _ _) in Hq. cut (all_told (eq s) (clock g) (clock g + 60000) g1).
  { intros Ht. destruct (ending_reaches_all (eq s) _ _ tr g1 g2 Ht ltac:(cbn; lia) Hq) as (n & g3 & Hn & Hd & He & Hend).
    exists n, g3. repeat split; try done. intros m' Hm' Hx. by apply (Hend m' s Hm' Hx). }
  unfold g1. clear Hq g1.
  unfold m_sid in Hm. assert (E : clearAuthenticatedClientState true (m_tab m) =
    clearAuthentication true complete (MkTab (auth (m_tab m)) (authEpoch (m_tab m)) (refreshPromise (m_tab m))
      (published (m_tab m)) (queryClears (m_tab m) + 1))) by done.
  rewrite E. apply announced_all_told with SyncSignedOut s; try done.
  - unfold clearAuthentication. cbn [auth]. rewrite Hm. cbn [with_auth bump_epoch andb]. rewrite Hs. unfold publish. by rewrite Hs.
  - intros x Hx. match type of Hx with context [clearAuthentication ?a ?b ?c] => destruct (clearAuthentication_same a b c) as (Ea & _) end.
    by rewrite Ea in Hx.
  - intros e t x Hk He Ht <-. right. unfold on_session_event. rewrite Hk, Ht, He, Hs, bool_decide_true by done. cbn [andb fst].
    unfold clearAuthenticatedClientState.
    match goal with |- context [clearAuthentication ?a ?b ?c] => destruct (clearAuthentication_same a b c) as (-> & _) end. done.
Qed.

(** When a tab signs in to a session it was not in, no tab is left in
    another one, under the same conditions. *)
Theorem sign_in_reaches_all tr g g2 i m b nonce :
  tr ≠ NoTransport → 0 <= clock g → clock g + 60000 <= 2 ^ 53 →
  members g !! i = Some m → bundle_ok b → m_sid m ≠ Some (sid (bundle_session b)) →
  (∀ j m', members g !! j = Some m' → j ≠ i → m_source m' ≠ m_source m) →
  rtc (quiet_step (λ s, s ≠ sid (bundle_session b)) (clock g + 60000) tr)
    (act tr i m (applyAuthBundle b true (m_tab m)) nonce g) g2 →
  ∃ n g3, (n <= pending g2)%nat ∧ nsteps delivery n g2 g3 ∧ Forall (λ m, m_inbox m = []) (members g3) ∧
    ∀ m' s, m' ∈ members g3 → m_sid m' = Some s → s = sid (bundle_session b).
Proof.
  intros Htr Hlo Hhi Hi Hb Hm Hsrc Hq. set (s := sid (bundle_session b)) in *.
  set (g1 := act _ _ _ _ _ _) in Hq. cut (all_told (λ x, x ≠ s) (clock g) (clock g + 60000) g1).
  { intros Ht. destruct (ending_reaches_all (λ x, x ≠ s) _ _ tr g1 g2 Ht ltac:(cbn; lia) Hq) as (n & g3 & Hn & Hd & He & Hend).
    exists n, g3. repeat split; try done. intros m' x Hm' Hx.
    destruct (decide (x = s)) as [|Hne]; [done|by destruct (Hend m' x Hm' Hx)]. }
  unfold g1. clear Hq g1.
  destruct (applyAuthBundle_same b true (m_tab m)) as (Ea & _).
  apply announced_all_told with SyncAuthenticated s; try done.
  - apply Hb.
  - unfold applyAuthBundle. rewrite bool_decide_false by done. cbn [negb andb]. unfold publish. fold s.
    destruct Hb as (Hb & _). fold s in Hb. by rewrite Hb.
  - intros x. rewrite Ea. intros [= <-] H. by apply H.
  - intros e t x Hk He Ht Hne. left. unfold on_session_event. rewrite Hk, Ht, He, bool_decide_false by congruence. done.
Qed.

(** ** Witnesses *)

Definition signed_in_tab : Tab := applyAuthBundle (bundle_of (sample_bundle "s1" "t1")) false initial_tab.
Definition two_tabs : Group :=
  MkGroup 1000 [MkMember signed_in_tab "tab-1" []; MkMember signed_in_tab "tab-2" []].
Definition first_tab : Member := MkMember signed_in_tab "tab-1" [].

Lemma other_sources j m' : members two_tabs !! j = Some m' → j ≠ 0%nat → m_source m' ≠ m_source first_tab.
Proof. destruct j as [|[|j]]; cbn; [done|intros [= <-] _; done|done]. Qed.

Lemma sign_out_reaches_all_witness :
  ∃ n g3, (n <= 2)%nat ∧
    nsteps delivery n (act ByStorage 0 first_tab (clearAuthenticatedClientState true signed_in_tab) "n" two_tabs) g3 ∧
    ∀ m', m' ∈ members g3 → m_sid m' ≠ Some "s1"%js.
Proof.
  destruct (sign_out_reaches_all ByStorage two_tabs
    (act ByStorage 0 first_tab (clearAuthenticatedClientState true signed_in_tab) "n" two_tabs) 0 first_tab "s1" "n") as (n & g3 & Hn & Hd & _ & Hs);
    [done|done|done|reflexivity|reflexivity|reflexivity|apply other_sources|apply rtc_refl|].
  exists n, g3. split; [exact Hn|]. split; [exact Hd|exact Hs].
Defined.

Lemma sign_in_reaches_all_witness :
  ∃ n g3, (n <= 2)%nat ∧
    nsteps delivery n (act ByChannel 0 first_tab (applyAuthBundle (bundle_of (sample_bundle "s2" "t2")) true signed_in_tab) "n" two_tabs) g3 ∧
    ∀ m' s, m' ∈ members g3 → m_sid m' = Some s → s = "s2"%js.
Proof.
  destruct (sign_in_reaches_all ByChannel two_tabs
    (act ByChannel 0 first_tab (applyAuthBundle (bundle_of (sample_bundle "s2" "t2")) true signed_in_tab) "n" two_tabs) 0 first_tab (bundle_of (sample_bundle "s2" "t2")) "n")
    as (n & g3 & Hn & Hd & _ & Hs);
    [done|done|done|reflexivity|vm_compute; auto|discriminate|apply other_sources|apply rtc_refl|].
  exists n, g3. split; [exact Hn|]. split; [exact Hd|exact Hs].
Defined.
End AuthSyncFacts.
