(* ===== verification/HttpClient.v ===== *)
(** * The HTTP client ([web/src/lib/http-client.ts],
    [web/src/lib/server-error-message.ts])

    The console's axios instance: requests carry the access token; GET requests
    to the same address in the same session are shared while one is in flight;
    a response may carry a rotated token; a 401 is answered by one refresh of
    the session and one retry.  A call is followed through its suspensions, at
    which other code may change the tab.  Translation ([t]) is a parameter. *)

From S2P Require Import Prelude JsString JsNumber JsValue JsMap AuthStore AuthSession.
Local Open Scope Z_scope.

Module HttpClient.
Import AuthStore AuthSession.

(** ** Server error messages *)

Definition serverErrorMessageKeys : list (jsstr * jsstr) :=
  [("AUTH_SESSION_LIMIT"%js,
    "Too many active login sessions. On a device where you are already signed in, open Login sessions and use “Sign out other sessions” to revoke them. If you cannot access a signed-in device, reset your password to sign out all sessions."%js);
   ("AUTH_SESSION_ISSUANCE_LIMIT"%js,
    "Too many login sessions were created recently. Please wait for the rolling window to pass, then try again."%js);
   ("TELEGRAM_BIND_DISABLED"%js, "Telegram binding is disabled."%js);
   ("TELEGRAM_BIND_INVALID_REQUEST"%js, "The Telegram authorization request is invalid or expired."%js);
   ("TELEGRAM_BIND_FLOW_INVALID"%js, "This Telegram binding request has expired or has already been used."%js);
   ("TELEGRAM_BIND_SESSION_INVALID"%js, "The login session that started this Telegram binding is no longer valid."%js);
   ("TELEGRAM_BIND_ALREADY_BOUND"%js, "This Telegram account is already bound."%js);
   ("TELEGRAM_BIND_USER_DELETED"%js, "This user account no longer exists."%js);
   ("TELEGRAM_BIND_USER_DISABLED"%js, "This user account is disabled."%js);
   ("TELEGRAM_BIND_INTERNAL_ERROR"%js, "Telegram binding failed. Please try again."%js)].

Inductive MessageKey := OwnKey (text : jsstr) | InheritedKey (member : jsstr).

Definition serverErrorPayload (v : value) : option value :=
  if negb (is_record v) then None
  else
    let response := prop v "response" in
    if is_record response && is_record (prop response "data") then Some (prop response "data") else Some v.

Definition getServerErrorMessageKey (v : value) : option MessageKey :=
  match serverErrorPayload v with
  | Some payload =>
    match prop payload "code" with
    | VStr code =>
      match map_get serverErrorMessageKeys code with
      | Some text => Some (OwnKey text)
      | None => if bool_decide (code ∈ object_prototype) then Some (InheritedKey code) else None
      end
    | _ => None
    end
  | None => None
  end.

(** ** Configuration and state *)

(** What [config.params] holds: a value of JSON, or a [URLSearchParams], whose
    pairs are not properties of the object. *)
Inductive Params := JsonParams (v : value) | SearchParams (pairs : list (jsstr * jsstr)).

Record ApiRequestConfig := MkConfig {
  skipBusinessError : bool;
  skipErrorHandler : bool;
  disableDuplicate : bool;
  skipAuthRefresh : bool;
  authRetry : bool;
  acceptAuthRotation : bool;
  params : Params;
  headers : list (jsstr * jsstr);
}.

Definition default_config : ApiRequestConfig := MkConfig false false false false false false (JsonParams VUndef) [].

Definition with_authRetry (c : ApiRequestConfig) : ApiRequestConfig :=
  MkConfig (skipBusinessError c) (skipErrorHandler c) (disableDuplicate c) (skipAuthRefresh c) true
    (acceptAuthRotation c) (params c) (headers c).
Definition with_header (k v : jsstr) (c : ApiRequestConfig) : ApiRequestConfig :=
  MkConfig (skipBusinessError c) (skipErrorHandler c) (disableDuplicate c) (skipAuthRefresh c) (authRetry c)
    (acceptAuthRotation c) (params c) (map_set (headers c) k v).

(** What a toast shows: a text, a value of the response, or a translation
    asked for something that is no text. *)
Inductive ToastText := ToastValue (v : value) | ToastOfMember (member : jsstr).

(** A GET that was sent: the session it was sent in, its address and its
    parameters. *)
Record Issue := MkIssue {
  issue_sid : option jsstr;
  issue_url : jsstr;
  issue_params : Params;
}.

Record Client := MkClient {
  c_tab : Tab;
  inFlightGet : list (jsstr * nat);
  issued : list Issue;
  toasts : list ToastText;
  pathname : jsstr;
}.

Definition with_tab (t : Tab) (c : Client) : Client := MkClient t (inFlightGet c) (issued c) (toasts c) (pathname c).
Definition with_flights (fs : list (jsstr * nat)) (c : Client) : Client :=
  MkClient (c_tab c) fs (issued c) (toasts c) (pathname c).
Definition toast_error (x : ToastText) (c : Client) : Client :=
  MkClient (c_tab c) (inFlightGet c) (issued c) (toasts c ++ [x]) (pathname c).

Definition redirectToSignIn (c : Client) : Client :=
  if negb (str_eqb (pathname c) "/sign-in")
  then MkClient (c_tab c) (inFlightGet c) (issued c) (toasts c) "/sign-in"
  else c.

(** ** Shared GET requests *)

(** [config.params ? JSON.stringify(config.params) : '{}']: an object without
    properties of its own, as a [URLSearchParams] is, gives ['{}']. *)
Definition params_text (ps : Params) : jsstr :=
  match ps with
  | JsonParams v => if truthy v then default "undefined"%js (JSON_stringify v) else "{}"%js
  | SearchParams _ => "{}"%js
  end.

(** [useAuthStore.getState().auth.session?.sid || 'anonymous'] *)
Definition session_key (sid : option jsstr) : jsstr :=
  match sid with Some s => if nonempty s then s else "anonymous"%js | None => "anonymous"%js end.

Definition flight_key (sid : option jsstr) (url ps : jsstr) : jsstr :=
  (session_key sid ++ ":" ++ url ++ "?" ++ ps)%js.

(** [originalGet]: a new request, numbered by its place in [issued]. *)
Definition originalGet (url : jsstr) (config : ApiRequestConfig) (c : Client) : Client * nat :=
  (MkClient (c_tab c) (inFlightGet c)
     (issued c ++ [MkIssue (session_sid (auth (c_tab c))) url (params config)]) (toasts c) (pathname c),
   length (issued c)).

(** [api.get]: the number of the request whose answer the caller gets. *)
Definition api_get (url : jsstr) (config : ApiRequestConfig) (c : Client) : Client * nat :=
  if disableDuplicate config then originalGet url config c
  else
    let key := flight_key (session_sid (auth (c_tab c))) url (params_text (params config)) in
    match map_get (inFlightGet c) key with
    | Some id => (c, id)
    | None =>
      let '(c1, id) := originalGet url config c in
      (with_flights (map_set (inFlightGet c1) key id) c1, id)
    end.

(** [finally]: the request under [key] is settled. *)
Definition get_settled (key : jsstr) (c : Client) : Client :=
  with_flights (List.filter (λ p, negb (str_eqb p.1 key)) (inFlightGet c)) c.

(** ** Interceptors *)

Section Interceptors.
Variable t : jsstr → jsstr.

Definition toast_key (k : MessageKey) : ToastText :=
  match k with OwnKey text => ToastValue (VStr (t text)) | InheritedKey m => ToastOfMember m end.

(** [message || t('Request failed')] *)
Definition or_failed (v : value) : value := if truthy v then v else VStr (t "Request failed").

(** The request interceptor. *)
Definition on_request (config : ApiRequestConfig) (c : Client) : ApiRequestConfig :=
  match accessToken (auth (c_tab c)) with
  | Some tok => if nonempty tok then with_header "Authorization" ("Bearer " ++ tok)%js config else config
  | None => config
  end.

(** The response interceptor; [inl] is the error a refused rotation throws. *)
Definition on_success (config : ApiRequestConfig) (data : value) (c : Client) : Client * (jsstr + value) :=
  let rotated :=
    if acceptAuthRotation config && match prop data "success" with VBool b => b | _ => false end
    then applyAuthRotation (prop data "data") (c_tab c)
    else inr (c_tab c) in
  match rotated with
  | inl err => (c, inl err)
  | inr tab =>
    let c := with_tab tab c in
    let failed := match prop data "success" with VBool b => negb b | _ => false end in
    if negb (skipBusinessError config) && failed then
      (toast_error (match getServerErrorMessageKey data with
                    | Some k => toast_key k
                    | None => ToastValue (or_failed (prop data "message"))
                    end) c, inr data)
    else (c, inr data)
  end.

Definition session_expired (c : Client) : Client := toast_error (ToastValue (VStr (t "Session expired!"))) c.

(** Where the error interceptor is left: waiting for a refresh, or with the
    error thrown on. *)
Inductive ErrorPoint := AwaitRefresh (config : ApiRequestConfig) | Thrown.

(** The error interceptor up to its await; [error] is the error's own fields,
    [config] its configuration. *)
Definition on_error (locks : Locks) (config : option ApiRequestConfig) (error : value) (c : Client) : Client * ErrorPoint :=
  let skip := match config with Some cf => skipErrorHandler cf | None => false end in
  let is401 := match prop (prop error "response") "status" with VNum x => num_eqb x (of_Z 401) | _ => false end in
  if is401 then
    match config with
    | Some cf =>
      if negb (skipAuthRefresh cf) && negb (authRetry cf) then
        (with_tab (refreshAuthentication locks (c_tab c)) c, AwaitRefresh (with_authRetry cf))
      else if authRetry cf then
        let c := with_tab (clearAuthentication false complete (c_tab c)) c in
        let c := if negb skip then session_expired c else c in
        (redirectToSignIn c, Thrown)
      else (if negb skip then session_expired c else c, Thrown)
    | None => (session_expired c, Thrown)
    end
  else if negb skip then
    (toast_error (match getServerErrorMessageKey error with
                  | Some k => toast_key k
                  | None =>
                    let m := prop (prop (prop error "response") "data") "message" in
                    ToastValue (or_failed (if truthy m then m else prop error "message"))
                  end) c, Thrown)
  else (c, Thrown).

(** The error interceptor from the outcome of the refresh on ([None] when the
    promise of the refresh rejects): the configuration of the retry, or the
    error thrown. *)
Definition on_refreshed (config : ApiRequestConfig) (outcome : option RefreshOutcome) (c : Client) :
    Client * option ApiRequestConfig :=
  match outcome with
  | Some (authenticated _) =>
    (c, Some (match accessToken (auth (c_tab c)) with
              | Some tok => if nonempty tok then with_header "Authorization" ("Bearer " ++ tok)%js config else config
              | None => config
              end))
  | Some anonymous | Some (out_of_sync _) =>
    (redirectToSignIn (if negb (skipErrorHandler config) then session_expired c else c), None)
  | Some (transient_error _) | None => (c, None)
  end.

(** ** One call *)

Inductive CallPoint :=
  | Sent (config : ApiRequestConfig)
  | Refreshing (config : ApiRequestConfig)
  | Resolved (data : value)
  | Failed.

(** What happens to a call. *)
Inductive CallEvent :=
  | Answer (data : value)
  | Failure (error : value)
  | RefreshSettled (outcome : option RefreshOutcome).

Definition send (config : ApiRequestConfig) (c : Client) : Client * CallPoint := (c, Sent (on_request config c)).

Definition call_step (locks : Locks) (ev : CallEvent) (p : CallPoint) (c : Client) : Client * CallPoint :=
  match p, ev with
  | Sent config, Answer data =>
    let '(c', r) := on_success config data c in
    (c', match r with inl _ => Failed | inr d => Resolved d end)
  | Sent config, Failure error =>
    let '(c', r) := on_error locks (Some config) error c in
    (c', match r with AwaitRefresh cf => Refreshing cf | Thrown => Failed end)
  | Refreshing config, RefreshSettled outcome =>
    let '(c', r) := on_refreshed config outcome c in
    match r with Some cf => send cf c' | None => (c', Failed) end
  | _, _ => (c, p)
  end.
End Interceptors.

(** ** Steps of the client *)

Inductive client_step : Client → Client → Prop :=
  | client_get url config c : client_step c (api_get url config c).1
  | client_settled key c : client_step c (get_settled key c)
  | client_tab t c : client_step c (with_tab t c)
  | client_toast x c : client_step c (toast_error x c)
  | client_redirect c : client_step c (redirectToSignIn c).

Definition initial_client : Client := MkClient initial_tab [] [] [] "/".
End HttpClient.
