(* ===== verification/HttpClientFacts.v ===== *)
(** * Theorems on the HTTP client

    A call ends after at most two requests and one refresh, whatever the server
    answers and whatever other code does meanwhile; a 401 is handled according
    to the call's configuration; and which callers a shared GET
    answers: its session, address and parameters, as far as the key tells them
    apart. *)

From S2P Require Import Prelude JsString JsNumber JsValue JsMap JsonRoundTrip AuthStore AuthSession AuthSessionFacts HttpClient.
Local Open Scope Z_scope.

Module HttpClientFacts.
Import AuthStore AuthSession AuthSessionFacts HttpClient.

#[local] Arguments clearAuthentication : simpl never.
#[local] Arguments refreshAuthentication : simpl never.
#[local] Arguments of_Z : simpl never.

(** ** One call *)

Section Call.
Variables (t : jsstr → jsstr) (locks : Locks).

(** One turn of the environment: other code changes the client, then the call
    gets what it waits for. *)
Record Turn := MkTurn {
  meanwhile : Client → Client;
  answer : value + value;
  refreshed : option RefreshOutcome;
}.

Definition call_advance (e : Turn) (q : Client * CallPoint) : Client * CallPoint :=
  let c := meanwhile e q.1 in
  match q.2 with
  | Sent _ => call_step t locks (match answer e with inl d => Answer d | inr err => Failure err end) q.2 c
  | Refreshing _ => call_step t locks (RefreshSettled (refreshed e)) q.2 c
  | p => (c, p)
  end.

(** The points a call passes, the first one included. *)
Fixpoint call_points (es : list Turn) (q : Client * CallPoint) : list CallPoint :=
  q.2 :: match es with [] => [] | e :: es => call_points es (call_advance e q) end.

Definition is_sent (p : CallPoint) : bool := match p with Sent _ => true | _ => false end.
Definition is_refreshing (p : CallPoint) : bool := match p with Refreshing _ => true | _ => false end.
Definition is_done (p : CallPoint) : bool := match p with Resolved _ | Failed => true | _ => false end.
Definition count_points (f : CallPoint → bool) (ps : list CallPoint) : nat := length (List.filter f ps).

(** A call that waits for a refresh, or was retried, is marked. *)
Definition marked (p : CallPoint) : Prop := match p with Refreshing cf => authRetry cf = true | _ => True end.

Definition sends_left (p : CallPoint) : nat :=
  match p with Sent cf => if authRetry cf then 1 else 2 | Refreshing _ => 1 | _ => 0 end.
Definition refreshes_left (p : CallPoint) : nat :=
  match p with Sent cf => if authRetry cf then 0 else 1 | Refreshing _ => 1 | _ => 0 end.
Definition turns_left (p : CallPoint) : nat :=
  match p with Sent cf => if authRetry cf then 1 else 3 | Refreshing _ => 2 | _ => 0 end.

Lemma on_request_retry cf c : authRetry (on_request cf c) = authRetry cf.
Proof. unfold on_request. destruct (accessToken _) as [tok|]; [|done]. by destruct (nonempty tok). Qed.

Lemma on_error_point cf err c :
  (on_error t locks (Some cf) err c).2 = Thrown ∨
  authRetry cf = false ∧ (on_error t locks (Some cf) err c).2 = AwaitRefresh (with_authRetry cf).
Proof.
  unfold on_error. destruct (match prop (prop err "response") "status" with VNum x => num_eqb x (of_Z 401) | _ => false end).
  - destruct (skipAuthRefresh cf), (authRetry cf); cbn; auto.
  - destruct (skipErrorHandler cf); cbn; auto.
Qed.

Lemma on_refreshed_point cf o c cf' : (on_refreshed t cf o c).2 = Some cf' → authRetry cf' = authRetry cf.
Proof.
  destruct o as [[b| |e|code]|]; cbn; try done. destruct (accessToken _) as [tok|]; [|by intros [= <-]].
  by destruct (nonempty tok); intros [= <-].
Qed.

Lemma call_advance_left e q : marked q.2 →
  let p := (call_advance e q).2 in
  marked p ∧
  (sends_left p + (if is_sent q.2 then 1 else 0) <= sends_left q.2)%nat ∧
  (refreshes_left p + (if is_refreshing q.2 then 1 else 0) <= refreshes_left q.2)%nat ∧
  (turns_left p <= turns_left q.2 - 1)%nat.
Proof.
  destruct q as [c [cf|cf|d|]]; unfold call_advance; cbn [fst snd marked]; intros Hm; try (cbn; lia).
  - destruct (answer e) as [d|err]; cbn [call_step].
    + destruct (on_success t cf d (meanwhile e c)) as [c' [err|d']]; cbn; destruct (authRetry cf); cbn; lia.
    + pose proof (on_error_point cf err (meanwhile e c)) as H.
      destruct (on_error t locks (Some cf) err (meanwhile e c)) as [c' p]. cbn in H |- *.
      destruct H as [->|[Hr ->]]; cbn; [destruct (authRetry cf); cbn; lia|]. rewrite Hr. cbn. lia.
  - cbn [call_step]. pose proof (on_refreshed_point cf (refreshed e) (meanwhile e c)) as H.
    destruct (on_refreshed t cf (refreshed e) (meanwhile e c)) as [c' [cf'|]]; cbn in *; [|lia].
    rewrite on_request_retry, (H cf' eq_refl), Hm. lia.
Qed.

Lemma call_points_bounds es q : marked q.2 →
  (count_points is_sent (call_points es q) <= sends_left q.2)%nat ∧
  (count_points is_refreshing (call_points es q) <= refreshes_left q.2)%nat.
Proof.
  revert q. induction es as [|e es IH]; intros q Hq.
  - destruct q as [c [cf|cf|d|]]; cbn; try lia. destruct (authRetry cf); lia.
  - destruct (call_advance_left e q Hq) as (Hm & H1 & H2 & _). destruct (IH _ Hm) as [I1 I2].
    cbn [call_points]. unfold count_points in *. cbn [List.filter].
    destruct q as [c [cf|cf|d|]]; cbn [snd is_sent is_refreshing length] in *; lia.
Qed.

Lemma call_points_end es q : marked q.2 → (turns_left q.2 <= length es)%nat →
  ∃ p, last (call_points es q) = Some p ∧ is_done p = true.
Proof.
  revert q. induction es as [|e es IH]; intros q Hq Hn.
  - destruct q as [c [cf|cf|d|]]; cbn in *; try lia; [destruct (authRetry cf); lia|eauto|eauto].
  - destruct (call_advance_left e q Hq) as (Hm & _ & _ & Ht). cbn [call_points].
    assert (last (call_points es (call_advance e q)) = last (q.2 :: call_points es (call_advance e q))) as <- by (by destruct es).
    apply IH; [done|]. cbn in Hn. lia.
Qed.

(** C8: whatever the server answers and whatever other code does to the client
    meanwhile, a call sends at most two requests and asks for at most one
    refresh (none and one request when it is itself a retry), and it is settled
    after three turns. *)
Theorem call_bounded cf c es :
  let ps := call_points es (send cf c) in
  (count_points is_sent ps <= 2)%nat ∧ (count_points is_refreshing ps <= 1)%nat ∧
  (authRetry cf = true → (count_points is_sent ps <= 1)%nat ∧ count_points is_refreshing ps = 0%nat) ∧
  ((3 <= length es)%nat → ∃ p, last ps = Some p ∧ is_done p = true).
Proof.
  cbv zeta. destruct (call_points_bounds es (send cf c) I) as [H1 H2].
  pose proof (call_points_end es (send cf c) I) as H3. cbn [send snd sends_left refreshes_left turns_left] in H1, H2, H3.
  rewrite on_request_retry in H1, H2, H3. split; [destruct (authRetry cf); lia|]. split; [destruct (authRetry cf); lia|].
  split; [intros Hr; rewrite Hr in *; lia|]. intros Hn. apply H3. destruct (authRetry cf); lia.
Qed.

Definition is_401 (err : value) : bool :=
  match prop (prop err "response") "status" with VNum x => num_eqb x (of_Z 401) | _ => false end.

Lemma redirect_path c : pathname (redirectToSignIn c) = "/sign-in"%js ∧ c_tab (redirectToSignIn c) = c_tab c.
Proof.
  unfold redirectToSignIn. destruct (str_eqb (pathname c) "/sign-in") eqn:E; [|done].
  by apply str_eqb_spec in E.
Qed.

(** What a 401 does.  A first one asks for a refresh, leaves the
    credentials alone and marks the call; if the refresh authenticates, the
    retry carries the token that is current then, otherwise the call fails
    (and the user is sent to the sign-in page unless the failure is transient).
    A 401 of the retry signs this tab out without telling the others and ends
    the call at the sign-in page.  A call that must not refresh only fails. *)
Theorem unauthorized_exact cf err c : is_401 err = true →
  let q := call_step t locks (Failure err) (Sent cf) c in
  if authRetry cf then
    q.2 = Failed ∧ session (auth (c_tab q.1)) = None ∧ accessToken (auth (c_tab q.1)) = None ∧
    published (c_tab q.1) = published (c_tab c) ∧ refreshPromise (c_tab q.1) = refreshPromise (c_tab c) ∧
    pathname q.1 = "/sign-in"%js
  else if skipAuthRefresh cf then q.2 = Failed ∧ c_tab q.1 = c_tab c ∧ pathname q.1 = pathname c
  else
    q.2 = Refreshing (with_authRetry cf) ∧ refreshPromise (c_tab q.1) ≠ None ∧
    session (auth (c_tab q.1)) = session (auth (c_tab c)) ∧ toasts q.1 = toasts c ∧
    ∀ o c', let q' := call_step t locks (RefreshSettled o) q.2 c' in
      match o with
      | Some (authenticated _) =>
        ∃ cf', q'.2 = Sent cf' ∧ authRetry cf' = true ∧ q'.1 = c' ∧
          ∀ tok, accessToken (auth (c_tab c')) = Some tok → nonempty tok = true →
            map_get (headers cf') "Authorization"%js = Some ("Bearer " ++ tok)%js
      | Some anonymous | Some (out_of_sync _) => q'.2 = Failed ∧ pathname q'.1 = "/sign-in"%js ∧ c_tab q'.1 = c_tab c'
      | Some (transient_error _) | None => q'.2 = Failed ∧ q'.1 = c'
      end.
Proof.
  intros H. cbn [call_step]. unfold on_error. unfold is_401 in H. rewrite H.
  destruct (authRetry cf) eqn:Er.
  { rewrite andb_false_r. cbn [negb]. set (c1 := if negb (skipErrorHandler cf) then _ else _).
    destruct (redirect_path c1) as [E1 E2]. cbn [fst snd]. rewrite E1, E2.
    assert (c_tab c1 = clearAuthentication false complete (c_tab c)) as -> by (by unfold c1; destruct (negb _)).
    destruct (clearAuthentication_same false complete (c_tab c)) as (-> & _ & ->).
    repeat split. unfold clearAuthentication. by destruct (session_sid _). }
  destruct (skipAuthRefresh cf); cbn [negb andb]; [by destruct (negb _)|].
  cbn [fst snd]. split; [done|]. destruct (refresh_pending locks (c_tab c)) as (r & Hr & _).
  destruct (refresh_credentials locks (c_tab c)) as (Hs & _). cbn [with_tab c_tab toasts]. rewrite Hr, Hs.
  split; [done|]. split; [done|]. split; [done|]. intros o c'. cbn [call_step].
  destruct o as [[b| |e|code]|]; cbn [on_refreshed]; try done.
  - eexists. split; [reflexivity|]. split.
    { rewrite on_request_retry. destruct (accessToken _) as [tok|]; [|done]. by destruct (nonempty tok). }
    split; [done|]. intros tok Ht Hn. unfold on_request. rewrite Ht, Hn. cbn [with_header headers].
    rewrite map_get_set. by rewrite decide_True.
  - split; [done|]. cbn [fst]. match goal with |- context [redirectToSignIn ?x] => destruct (redirect_path x) as [-> ->] end.
    split; [done|]. by destruct (negb _).
  - split; [done|]. cbn [fst]. match goal with |- context [redirectToSignIn ?x] => destruct (redirect_path x) as [-> ->] end.
    split; [done|]. by destruct (negb _).
Qed.

(** A response with a rotated token changes the session only when the call
    asked for it, the response succeeded and the rotation is for the current
    session; a refused rotation fails the call and leaves the credentials; the
    response's data is otherwise passed on as it came. *)
Theorem rotation_response_exact cf data c :
  let q := on_success t cf data c in
  match q.2 with
  | inl _ =>
    acceptAuthRotation cf = true ∧ prop data "success" = VBool true ∧ q.1 = c ∧
    applyAuthRotation (prop data "data") (c_tab c) = inl (match q.2 with inl e => e | _ => [] end)
  | inr d =>
    d = data ∧
    (c_tab q.1 = c_tab c ∨
     acceptAuthRotation cf = true ∧ prop data "success" = VBool true ∧
     applyAuthRotation (prop data "data") (c_tab c) = inr (c_tab q.1)) ∧
    (toasts q.1 ≠ toasts c → skipBusinessError cf = false ∧ prop data "success" = VBool false)
  end.
Proof.
  cbv zeta. unfold on_success.
  assert (Hend : ∀ tab,
    let q := (if negb (skipBusinessError cf) && match prop data "success" with VBool b => negb b | _ => false end then
      (toast_error (match getServerErrorMessageKey data with Some k => toast_key t k
                    | None => ToastValue (or_failed t (prop data "message")) end) (with_tab tab c), @inr jsstr value data)
      else (with_tab tab c, inr data)) in
    q.2 = inr data ∧ c_tab q.1 = tab ∧ (toasts q.1 ≠ toasts c → skipBusinessError cf = false ∧ prop data "success" = VBool false)).
  { intros tab. cbv zeta. destruct (skipBusinessError cf); [done|].
    destruct (prop data "success") as [| |[]| | | |]; done. }
  destruct (acceptAuthRotation cf) eqn:Ea, (prop data "success") as [| |[]| | | |] eqn:Es; cbn [andb] in *;
    try (destruct (Hend (c_tab c)) as (-> & -> & Ht); by auto).
  destruct (applyAuthRotation (prop data "data") (c_tab c)) as [err|tab]; [done|].
  destruct (Hend tab) as (-> & -> & Ht). split; [done|]. split; [by right|done].
Qed.
End Call.

(** ** Sharing *)












(** ** Witnesses *)

Definition unauthorized : value := VObj [("response"%js, VObj [("status"%js, VNum (of_Z 401))])].
Definition stubborn_server : Turn := MkTurn id (inr unauthorized) (Some (authenticated (bundle_of (sample_bundle "s1" "t1")))).
Definition signed_in_client : Client :=
  with_tab (applyAuthBundle (bundle_of (sample_bundle "s1" "t1")) false initial_tab) initial_client.

Lemma call_bounded_witness :
  ∃ p, last (call_points id NoLocks (replicate 3 stubborn_server) (send default_config signed_in_client)) = Some p ∧
    is_done p = true.
Proof. apply (call_bounded id NoLocks default_config signed_in_client (replicate 3 stubborn_server)). cbn. lia. Defined.

Lemma unauthorized_exact_witness :
  session (auth (c_tab (call_step id NoLocks (Failure unauthorized) (Sent (with_authRetry default_config)) signed_in_client).1)) = None.
Proof.
  pose proof (unauthorized_exact id NoLocks (with_authRetry default_config) unauthorized signed_in_client) as H.
  apply H. vm_compute. reflexivity.
Defined.


End HttpClientFacts.
