(* ===== verification/AuthRedirect.v ===== *)
(** * Where a sign-in leads
    ([web/src/features/auth/lib/auth-redirect.ts], [lib/storage.ts],
    [hooks/use-auth-redirect.ts], [web/src/routes/oauth/$provider.tsx],
    [web/src/routes/(auth)/], [components/layout/components/public-header.tsx])

    The page a visitor wanted before signing in is carried along in two ways:
    inside the console as the parameter [redirect], which is sanitised where it
    is used, and for another site in the tab's session storage.  The invitation
    of a visitor is kept in the session storage too, taken from the address.

    [new URL] and [URLSearchParams] belong to the browser: they are the classes
    [UrlParser] and [SearchParams], and what the theorems rely on of them are
    the laws of the URL standard stated as [UrlLaws] and [SearchLaws].  A
    storage is [None] when the browser refuses access to it. *)

From S2P Require Import Prelude JsString JsNumber JsRegExp JsValue AuthStore AuthSession HttpClient.

Module AuthRedirect.
Import AuthStore AuthSession HttpClient.

(** ** The browser's part *)

Record WebURL := MkWebURL {
  protocol : jsstr;
  origin : jsstr;
  pathname : jsstr;
  search : jsstr;
  hash : jsstr;
  href : jsstr;
}.

(** [new URL(target, base)]; [None] when it throws. *)
Class UrlParser := new_URL : option jsstr → jsstr → option WebURL.

(** The pairs of a query, and the query of pairs. *)
Class SearchParams := {
  params_of : jsstr → list (jsstr * jsstr);
  params_text : list (jsstr * jsstr) → jsstr;
}.

(** The state of a tab that signs in: its storages, whether the session storage
    has room, the language, the authentication state, the pages it was sent to
    and the addresses that replaced the current one. *)
Inductive Destination := Inside (h : jsstr) | Outside (h : jsstr) | SignInPage (redirect : option jsstr).

Record Visit := MkVisit {
  sessionItems : option (gmap jsstr jsstr);
  sessionRoom : bool;
  localItems : option (gmap jsstr jsstr);
  language : jsstr;
  auth_tab : Tab;
  visited : list Destination;
  replaced : list jsstr;
  notices : list (MessageKey + value);
}.

Definition set_session f v := MkVisit (f (sessionItems v)) (sessionRoom v) (localItems v) (language v) (auth_tab v) (visited v) (replaced v) (notices v).
Definition set_local f v := MkVisit (sessionItems v) (sessionRoom v) (f (localItems v)) (language v) (auth_tab v) (visited v) (replaced v) (notices v).
Definition set_language l v := MkVisit (sessionItems v) (sessionRoom v) (localItems v) l (auth_tab v) (visited v) (replaced v) (notices v).
Definition set_auth f v := MkVisit (sessionItems v) (sessionRoom v) (localItems v) (language v) (f (auth_tab v)) (visited v) (replaced v) (notices v).
Definition go d v := MkVisit (sessionItems v) (sessionRoom v) (localItems v) (language v) (auth_tab v) (visited v ++ [d]) (replaced v) (notices v).
Definition replace_address a v := MkVisit (sessionItems v) (sessionRoom v) (localItems v) (language v) (auth_tab v) (visited v) (replaced v ++ [a]) (notices v).
Definition notify n v := MkVisit (sessionItems v) (sessionRoom v) (localItems v) (language v) (auth_tab v) (visited v) (replaced v) (notices v ++ [n]).

(** [window.sessionStorage.setItem]; [None] when it throws. *)
Definition session_set (k t : jsstr) (v : Visit) : option Visit :=
  match sessionItems v with
  | Some m => if sessionRoom v then Some (set_session (λ _, Some (<[k := t]> m)) v) else None
  | None => None
  end.

(** ** Sanitised targets *)

Definition allowedRedirectProtocols : list jsstr := ["http:"; "https:"]%js.
Definition EXTERNAL_AUTH_REDIRECT_STORAGE_KEY : jsstr := "external-auth-redirect".

(** [/^https?:\/\//i] *)
Definition http_prefix : re :=
  seqs [Bol; one_of "hH"; one_of "tT"; one_of "tT"; one_of "pP"; Opt (one_of "sS"); lit_re "://"].

Section Urls.
Context `{UrlParser}.

Definition sanitizeExternalAuthRedirect (v : value) : option jsstr :=
  match v with
  | VStr s =>
    let target := trim s in
    if negb (re_test http_prefix target) || includes target "\" then None
    else match new_URL None target with
         | Some u => if set_has allowedRedirectProtocols (protocol u) then Some (href u) else None
         | None => None
         end
  | _ => None
  end.

Definition clearExternalAuthRedirect (v : Visit) : Visit :=
  set_session (fmap (delete EXTERNAL_AUTH_REDIRECT_STORAGE_KEY)) v.

Definition saveExternalAuthRedirect (x : value) (v : Visit) : option jsstr * Visit :=
  let target := sanitizeExternalAuthRedirect x in
  let v := clearExternalAuthRedirect v in
  match target with
  | Some t =>
    if negb (nonempty t) then (None, v)
    else match session_set EXTERNAL_AUTH_REDIRECT_STORAGE_KEY t v with
         | Some v' => (Some t, v')
         | None => (None, clearExternalAuthRedirect v)
         end
  | None => (None, v)
  end.

Definition consumeExternalAuthRedirect (v : Visit) : option jsstr * Visit :=
  match sessionItems v with
  | Some m =>
    (sanitizeExternalAuthRedirect (from_option VStr VNull (m !! EXTERNAL_AUTH_REDIRECT_STORAGE_KEY)),
     clearExternalAuthRedirect v)
  | None => (None, clearExternalAuthRedirect v)
  end.

Definition target_path (u : WebURL) : jsstr := pathname u ++ search u ++ hash u.

Definition sanitizeAuthRedirect (x : value) (site : jsstr) : option jsstr :=
  match x with
  | VStr s =>
    let target := trim s in
    if negb (nonempty target) || includes target "\" || startsWith target "//" then None
    else
      trusted ← new_URL None site;
      if negb (set_has allowedRedirectProtocols (protocol trusted)) then None
      else
        u ← (if startsWith target "/" then new_URL (Some (origin trusted)) target else new_URL None target);
        if negb (set_has allowedRedirectProtocols (protocol u)) || negb (str_eqb (origin u) (origin trusted)) then None
        else Some (target_path u)
  | _ => None
  end.

(** ** The saved language *)

Definition getSavedLanguage (user : AuthUser) : option jsstr :=
  let as_text v := match v with VStr s => Some s | _ => None end in
  let setting := prop (VObj (details user)) "setting" in
  match prop (VObj (details user)) "language" with
  | VStr l => Some l
  | _ =>
    if is_record setting then as_text (prop setting "language")
    else match setting with
         | VStr s => match JSON_parse s with Some parsed => as_text (prop parsed "language") | None => None end
         | _ => None
         end
  end.

(** ** Invitations *)

Definition AFFILIATE : jsstr := "aff".
Definition LEGACY_INVITE : jsstr := "invite".

Definition clearInvitationCredentials (v : Visit) : Visit :=
  let remove := fmap (λ m : gmap jsstr jsstr, delete LEGACY_INVITE (delete AFFILIATE m)) in
  set_local remove (set_session remove v).

Definition saveInvitationCredentials (aff : jsstr) (v : Visit) : option jsstr * Visit :=
  let normalizedAff := trim aff in
  let v := clearInvitationCredentials v in
  if negb (nonempty normalizedAff) then (None, v)
  else match session_set AFFILIATE normalizedAff v with
       | Some v' => (Some normalizedAff, v')
       | None => (None, clearInvitationCredentials v)
       end.

Definition getInvitationCredentials (v : Visit) : option jsstr * Visit :=
  match sessionItems v with
  | Some m =>
    let aff := from_option trim [] (m !! AFFILIATE) in
    if negb (nonempty aff) then (None, clearInvitationCredentials v) else (Some aff, v)
  | None => (None, clearInvitationCredentials v)
  end.

Section Params.
Context `{SearchParams}.

Definition params_get (k : jsstr) (l : list (jsstr * jsstr)) : option jsstr :=
  snd <$> List.find (λ p, str_eqb p.1 k) l.
Definition params_has (k : jsstr) (l : list (jsstr * jsstr)) : bool := existsb (λ p, str_eqb p.1 k) l.
Definition params_delete (k : jsstr) (l : list (jsstr * jsstr)) : list (jsstr * jsstr) :=
  List.filter (λ p, negb (str_eqb p.1 k)) l.

(** What is left of the query. *)
Definition remaining (l : list (jsstr * jsstr)) : list (jsstr * jsstr) := params_delete LEGACY_INVITE (params_delete AFFILIATE l).
Definition remaining_query (l : list (jsstr * jsstr)) : jsstr :=
  let text := params_text (remaining l) in if nonempty text then "?"%js ++ text else [].

(** [path] and [frag] are the rest of the current address. *)
Definition syncInvitationCredentialsFromSearch (path query frag : jsstr) (v : Visit) : option jsstr * Visit :=
  let params := params_of query in
  if negb (params_has AFFILIATE params) && negb (params_has LEGACY_INVITE params) then getInvitationCredentials v
  else
    let '(credentials, v) := if params_has AFFILIATE params
                             then saveInvitationCredentials (default [] (params_get AFFILIATE params)) v
                             else getInvitationCredentials v in
    (credentials, replace_address (path ++ remaining_query params ++ frag) v).

End Params.

(** ** Asking for a flow *)

(** The body of [createOAuthFlow]'s request. *)
Definition flow_request (login : bool) (v : Visit) : option jsstr * Visit :=
  if login then getInvitationCredentials v else (None, v).

(** Its answer: the token, or an exception. *)
Definition flow_response (login : bool) (data : value) (v : Visit) : exc jsstr * Visit :=
  let token := match prop data "data" with VStr s => VStr s | d => prop d "flow_token" end in
  match truthy (prop data "success"), token with
  | true, VStr s => if nonempty s then (Ret s, if login then clearInvitationCredentials v else v) else (Throw, v)
  | _, _ => (Throw, v)
  end.

(** ** Signing in *)

Context (SITE : jsstr).

Definition DASHBOARD : jsstr := "/dashboard".

Definition inner_target (redirectTo : value) (fallback : jsstr) : jsstr :=
  default fallback (sanitizeAuthRedirect redirectTo SITE).

(** [handleLoginSuccess] up to the language, and the language to load, if any. *)
Definition login_begins (bundle : AuthBundle) (v : Visit) : Visit * option jsstr :=
  let v := set_auth (applyAuthBundle bundle true) (clearInvitationCredentials v) in
  (v, match getSavedLanguage (bundle_user bundle) with
      | Some l => if nonempty l && negb (str_eqb l (language v)) then Some l else None
      | None => None
      end).

(** The rest of it. *)
Definition login_ends (redirectTo : value) (v : Visit) : Visit :=
  let '(external, v) := consumeExternalAuthRedirect v in
  match external with
  | Some t => if nonempty t then go (Outside t) v else go (Inside (inner_target redirectTo DASHBOARD)) v
  | None => go (Inside (inner_target redirectTo DASHBOARD)) v
  end.

(** [loads] is whether a language can be loaded; when it cannot, the exception
    ends the function. *)
Definition handleLoginSuccess (loads : jsstr → bool) (bundle : AuthBundle) (redirectTo : value) (v : Visit) : bool * Visit :=
  match login_begins bundle v with
  | (v, Some l) => if loads l then (true, login_ends redirectTo (set_language l v)) else (false, v)
  | (v, None) => (true, login_ends redirectTo v)
  end.

(** The prompt of the public header. *)
Definition startSignIn (external : bool) (target : jsstr) (v : Visit) : Visit :=
  let '(saved, v') := if external then saveExternalAuthRedirect (VStr target) v else (None, v) in
  match saved with
  | Some t => if nonempty t then go (SignInPage (Some DASHBOARD)) v'
              else go (SignInPage (Some (inner_target (VStr target) DASHBOARD))) (clearExternalAuthRedirect v')
  | None => go (SignInPage (Some (inner_target (VStr target) DASHBOARD))) (clearExternalAuthRedirect v')
  end.

(** The sign-in page before it loads: one who is signed in is sent on. *)
Definition sign_in_beforeLoad (redirect : value) (v : Visit) : Visit :=
  match user (auth (auth_tab v)) with
  | Some _ => go (Inside (inner_target redirect DASHBOARD)) v
  | None => v
  end.

(** ** The callback of a provider *)

Definition SIGN_IN : jsstr := "/sign-in".
Definition to_sign_in (v : Visit) : Visit := go (Inside (inner_target (VStr SIGN_IN) SIGN_IN)) v.

Definition has_text (o : option jsstr) : bool := from_option nonempty false o.

(** The callback page in the mode [login]: nothing to wait for without a code
    and an error. *)
Definition oauth_login (code error : option jsstr) (v : Visit) : option Visit :=
  if negb (has_text code) && negb (has_text error)
  then Some (to_sign_in (notify (inr (VStr "Missing code")) v))
  else None.

Inductive LoginAnswer := LoginBody (data : value) | LoginError (error : value) (message : option jsstr).

(** [a || b] *)
Definition truthy_or (a b : value) : value := if truthy a then a else b.

Definition oauth_login_answered (redirect : value) (answer : LoginAnswer) (v : Visit) : Visit :=
  match answer with
  | LoginBody data =>
    if truthy (prop data "success") && isAuthBundle (prop data "data")
    then notify (inr (VStr "Signed in successfully!"))
           (go (Inside (inner_target redirect DASHBOARD))
              (set_auth (applyAuthBundle (bundle_of (prop data "data")) true) v))
    else to_sign_in
           (notify match getServerErrorMessageKey data with
                   | Some k => inl k
                   | None => inr (truthy_or (prop data "message") (VStr "OAuth failed"))
                   end v)
  | LoginError error message =>
    to_sign_in
      match getServerErrorMessageKey error with
      | Some _ => v
      | None => notify (inr (truthy_or (prop (prop (prop error "response") "data") "message")
                               (VStr (default "OAuth failed"%js message)))) v
      end
  end.

(** The older callback page, for WeChat. *)
Definition wechat_login_answered (redirect : value) (answer : option LoginAnswer) (v : Visit) : Visit :=
  let failed v := go (SignInPage None) (notify (inr (VStr "OAuth failed")) v) in
  let keyed x v := match getServerErrorMessageKey x with Some _ => go (SignInPage None) v | None => failed v end in
  match answer with
  | Some (LoginBody data) =>
    if truthy (prop data "success") && isAuthBundle (prop data "data")
    then go (Inside (inner_target redirect DASHBOARD)) (set_auth (applyAuthBundle (bundle_of (prop data "data")) true) v)
    else keyed data v
  | Some (LoginError error _) => keyed error v
  | None => failed v
  end.

End Urls.

(** ** The laws *)

Definition web (u : WebURL) : Prop := protocol u ∈ allowedRedirectProtocols.

(** What the URL standard says of parsing and writing [http] and [https]
    addresses: the written form is read back, begins with the scheme, and has
    neither space at its ends nor a backslash the text had not; the path is
    absolute; and a path that does not begin with two slashes, with query and
    fragment, leads from the site back to the same place. *)
Class UrlLaws `{UrlParser} : Prop := {
  url_reread b t u : new_URL b t = Some u → web u → new_URL None (href u) = Some u;
  url_scheme b t u : new_URL b t = Some u → web u → ∃ rest, href u = protocol u ++ "//"%js ++ rest;
  url_trimmed b t u : new_URL b t = Some u → web u → trimmed (href u) = true ∧ trimmed (target_path u) = true;
  url_no_backslash b t u : new_URL b t = Some u → web u → includes t "\" = false →
    from_option (λ o, includes o "\") false b = false → includes (href u) "\" = false ∧ includes (target_path u) "\" = false;
  url_path b t u : new_URL b t = Some u → web u → startsWith (pathname u) "/" = true;
  url_origin b t u : new_URL b t = Some u → web u → includes (origin u) "\" = false;
  url_back b t u : new_URL b t = Some u → web u → startsWith (target_path u) "//" = false →
    ∃ u', new_URL (Some (origin u)) (target_path u) = Some u' ∧ web u' ∧ origin u' = origin u ∧ target_path u' = target_path u;
}.

(** A query that [toString] wrote is read back, with and without its mark. *)
Class SearchLaws `{SearchParams} : Prop := {
  params_reread q l : l `sublist_of` params_of q → params_of (params_text l) = l;
  params_mark l : params_of ("?"%js ++ params_text l) = params_of (params_text l);
  params_empty : params_of [] = [];
}.

End AuthRedirect.
