(* ===== verification/AuthRedirectFacts.v ===== *)
(** * Facts about sign-in redirects and invitations *)

From S2P Require Import Prelude JsString JsNumber JsRegExp JsValue AuthStore AuthSession HttpClient AuthRedirect.

Module AuthRedirectFacts.
Import AuthStore AuthSession AuthRedirect.

(** ** Targets inside the console *)

Section Urls.
Context `{UrlLaws}.

Lemma web_has u : set_has allowedRedirectProtocols (protocol u) = true ↔ web u.
Proof. apply set_has_spec. Qed.

(** A sanitised target is the path of an address of the site. *)
Lemma inner_redirect_source x site t : sanitizeAuthRedirect x site = Some t →
  ∃ trusted b s u, new_URL None site = Some trusted ∧ web trusted ∧ new_URL b s = Some u ∧ web u ∧
    origin u = origin trusted ∧ t = target_path u ∧ includes s "\" = false ∧ from_option (λ o, includes o "\") false b = false.
Proof.
  destruct x as [| | | |s| |]; try done. simpl. destruct (nonempty (trim s)); [|done]. simpl.
  destruct (includes (trim s) "\") eqn:Hb; [done|]. destruct (startsWith (trim s) "//"); [done|]. simpl.
  destruct (new_URL None site) as [trusted|] eqn:Ht; [|done]. simpl.
  destruct (set_has allowedRedirectProtocols (protocol trusted)) eqn:Hwt; [|done]. apply web_has in Hwt. simpl.
  assert (∃ b, (if startsWith (trim s) "/" then new_URL (Some (origin trusted)) (trim s) else new_URL None (trim s)) = new_URL b (trim s)
    ∧ from_option (λ o, includes o "\") false b = false) as (b & -> & Hnb).
  { destruct (startsWith (trim s) "/"); [exists (Some (origin trusted)); split; [done|by eapply url_origin]|by exists None]. }
  destruct (new_URL b (trim s)) as [u|] eqn:Hu; [|done]. simpl.
  destruct (set_has allowedRedirectProtocols (protocol u)) eqn:Hwu; [|done]. apply web_has in Hwu. simpl.
  unfold str_eqb. case_bool_decide as Ho; [|done]. simpl. intros [= <-].
  exists trusted, b, (trim s), u. done.
Qed.

Lemma target_path_slash b s u : new_URL b s = Some u → web u → startsWith (target_path u) "/" = true.
Proof.
  intros Hu Hw. unfold target_path. pose proof (url_path b s u Hu Hw) as Hp. apply startsWith_take in Hp. rewrite Hp, <- app_assoc.
  apply startsWith_app.
Qed.

(** C14: A sanitised redirect is an absolute path, and it is sanitised to itself
    and leads to the very place on the site it was taken from, unless it
    begins with two slashes: the check of that is made before the target is
    resolved, so such a path gets through, although it is one the function
    itself rejects and a browser takes for another site. *)
Theorem inner_redirect_exact x site t : sanitizeAuthRedirect x site = Some t →
  startsWith t "/" = true ∧
  sanitizeAuthRedirect (VStr t) site = (if startsWith t "//" then None else Some t) ∧
  (startsWith t "//" = false → ∃ trusted u, new_URL None site = Some trusted ∧ web trusted ∧
     new_URL (Some (origin trusted)) t = Some u ∧ web u ∧ origin u = origin trusted ∧ target_path u = t).
Proof.
  intros (trusted & b & s & u & Ht & Hwt & Hu & Hwu & Ho & -> & Hs & Hb)%inner_redirect_source.
  pose proof (target_path_slash b s u Hu Hwu) as Hsl. destruct (url_trimmed b s u Hu Hwu) as [_ Htr].
  destruct (url_no_backslash b s u Hu Hwu Hs Hb) as [_ Hnb].
  assert (startsWith (target_path u) "//" = false → ∃ u', new_URL (Some (origin trusted)) (target_path u) = Some u' ∧ web u' ∧
    origin u' = origin trusted ∧ target_path u' = target_path u) as Hback.
  { intros Hss. rewrite <- Ho. by apply (url_back b s u). }
  split; [done|]. split.
  - simpl. rewrite trim_id, Hnb by done. destruct (nonempty (target_path u)) eqn:Hne; [|by destruct (target_path u)]. simpl.
    destruct (startsWith (target_path u) "//") eqn:Hss; [done|]. rewrite Ht. simpl.
    rewrite (proj2 (web_has trusted) Hwt), Hsl. simpl. destruct (Hback eq_refl) as (u' & -> & Hw' & Ho' & Hp'). simpl.
    rewrite (proj2 (web_has u') Hw'). unfold str_eqb. rewrite bool_decide_true by done. simpl. by rewrite Hp'.
  - intros Hss. destruct (Hback Hss) as (u' & ? & ? & ? & ?). by exists trusted, u'.
Qed.

(** ** Targets on other sites *)

Lemma http_prefix_scheme p rest : p ∈ allowedRedirectProtocols → re_test http_prefix (p ++ "//"%js ++ rest) = true.
Proof.
  unfold allowedRedirectProtocols. intros Hp. apply elem_of_cons in Hp as [->|Hp]; [reflexivity|].
  apply list_elem_of_singleton in Hp as ->. reflexivity.
Qed.

(** The text of a sanitised target is its own sanitised form. *)
Lemma external_stable x t : sanitizeExternalAuthRedirect x = Some t →
  t ≠ [] ∧ sanitizeExternalAuthRedirect (VStr t) = Some t.
Proof.
  destruct x as [| | | |s| |]; try done. simpl. destruct (re_test http_prefix (trim s)); [|done]. simpl.
  destruct (includes (trim s) "\") eqn:Hb; [done|]. destruct (new_URL None (trim s)) as [u|] eqn:Hu; [|done].
  destruct (set_has allowedRedirectProtocols (protocol u)) eqn:Hw; [|done]. intros [= <-]. pose proof (proj1 (web_has u) Hw) as Hwu.
  destruct (url_scheme _ _ _ Hu Hwu) as [rest Hr]. destruct (url_trimmed _ _ _ Hu Hwu) as [Htr _].
  destruct (url_no_backslash _ _ _ Hu Hwu Hb eq_refl) as [Hnb _].
  split; [rewrite Hr; intros Hn%app_eq_nil; by destruct Hn|].
  rewrite trim_id by done. rewrite Hr at 1. rewrite http_prefix_scheme, Hnb, (url_reread _ _ _ Hu Hwu), Hw by done. done.
Qed.

Lemma consume_cleared v : consumeExternalAuthRedirect (clearExternalAuthRedirect v) = (None, clearExternalAuthRedirect v).
Proof.
  unfold consumeExternalAuthRedirect, clearExternalAuthRedirect. destruct v as [[m|] sr li la at_ vi re no]; simpl; [|done].
  rewrite lookup_delete, decide_True by done. simpl. unfold set_session. simpl. by rewrite delete_delete_eq.
Qed.

(** What was saved is consumed, once. *)
Lemma save_consume x v : let r := saveExternalAuthRedirect x v in
  consumeExternalAuthRedirect r.2 = (r.1, clearExternalAuthRedirect v) ∧ (∀ t, r.1 = Some t → nonempty t = true).
Proof.
  simpl. unfold saveExternalAuthRedirect. destruct (sanitizeExternalAuthRedirect x) as [t|] eqn:Hs; [|split; [apply consume_cleared|done]].
  destruct (external_stable x t Hs) as [Hne Hst]. destruct t as [|c t]; [done|]. simpl.
  unfold session_set. destruct v as [[m|] sr li la at_ vi re no]; simpl; [|split; [apply consume_cleared|done]].
  destruct sr; simpl.
  - unfold consumeExternalAuthRedirect, clearExternalAuthRedirect, set_session. simpl. rewrite lookup_insert, decide_True by done.
    unfold from_option. rewrite Hst. split; [|by intros ? [= <-]].
    by rewrite delete_insert_eq, delete_delete_eq.
  - split; [|done]. unfold clearExternalAuthRedirect, set_session, consumeExternalAuthRedirect. simpl.
    rewrite lookup_delete, decide_True by done. simpl. unfold clearExternalAuthRedirect, set_session. simpl. by rewrite !delete_delete_eq.
Qed.

Lemma login_ends_visited site redirectTo v :
  visited (login_ends site redirectTo v) = visited v ++
    [match (consumeExternalAuthRedirect v).1 with
     | Some t => if nonempty t then Outside t else Inside (inner_target site redirectTo DASHBOARD)
     | None => Inside (inner_target site redirectTo DASHBOARD)
     end].
Proof.
  unfold login_ends, consumeExternalAuthRedirect. destruct (sessionItems v) as [m|]; simpl; [|done].
  destruct (sanitizeExternalAuthRedirect _) as [t|]; [|done]. by destruct (nonempty t).
Qed.

Lemma login_ends_session site redirectTo v : sessionItems (login_ends site redirectTo v) = sessionItems (clearExternalAuthRedirect v).
Proof.
  unfold login_ends, consumeExternalAuthRedirect. destruct (sessionItems v) as [m|]; simpl; [|done].
  destruct (sanitizeExternalAuthRedirect _) as [t|]; [|done]. by destruct (nonempty t).
Qed.

(** Only the session storage says what is consumed. *)
Lemma consume_ext v w : sessionItems v = sessionItems w → (consumeExternalAuthRedirect v).1 = (consumeExternalAuthRedirect w).1.
Proof. intros Hvw. unfold consumeExternalAuthRedirect. rewrite Hvw. by destruct (sessionItems w). Qed.

(** A target on another site that was saved is the destination of the next
    sign-in, in the form the browser writes it, and only of that one; what is
    rejected, or cannot be stored, leaves no target behind, not even an older
    one, and the sign-in leads into the console. *)
Theorem external_target_once site redirectTo x v :
  let '(saved, v1) := saveExternalAuthRedirect x v in
  let v2 := login_ends site redirectTo v1 in
  let inside := Inside (inner_target site redirectTo DASHBOARD) in
  visited v2 = visited v1 ++ [from_option Outside inside saved] ∧
  visited (login_ends site redirectTo v2) = visited v2 ++ [inside] ∧
  (∀ t, saved = Some t → sanitizeExternalAuthRedirect (VStr t) = Some t).
Proof.
  destruct (saveExternalAuthRedirect x v) as [saved v1] eqn:Hsave.
  pose proof (save_consume x v) as Hc. rewrite Hsave in Hc. destruct Hc as [Hc Hne]. simpl in Hc, Hne. split_and!.
  - rewrite login_ends_visited, Hc. simpl. destruct saved as [t|]; [|done]. by rewrite (Hne t).
  - rewrite (login_ends_visited _ _ (login_ends _ _ _)).
    rewrite (consume_ext _ _ (login_ends_session site redirectTo v1)), consume_cleared. done.
  - intros t ->. unfold saveExternalAuthRedirect in Hsave.
    destruct (sanitizeExternalAuthRedirect x) as [t'|] eqn:Hs; [|done]. destruct (external_stable x t' Hs) as [_ Hst].
    destruct (negb (nonempty t')); [done|]. destruct (session_set _ _ _); [|done]. by injection Hsave as -> _.
Qed.

(** Signing in keeps the session storage but for the invitation. *)
Lemma login_begins_consume bundle v :
  (consumeExternalAuthRedirect (login_begins bundle v).1).1 = (consumeExternalAuthRedirect v).1.
Proof.
  unfold login_begins, consumeExternalAuthRedirect. simpl. destruct (sessionItems v) as [m|]; simpl; [|done].
  by rewrite !lookup_delete, !decide_False.
Qed.

(** C15: A sign-in through a provider does not use the saved target: it leads
    into the console, the target stays, and the next sign-in with the form, by
    whomever and with whatever redirect, leads to the other site. *)
Theorem provider_login_keeps_target site redirect x v t v1 data loads bundle redirectTo :
  saveExternalAuthRedirect x v = (Some t, v1) →
  truthy (prop data "success") = true → isAuthBundle (prop data "data") = true → (∀ l, loads l = true) →
  let v2 := oauth_login_answered site redirect (LoginBody data) v1 in
  visited v2 = visited v1 ++ [Inside (inner_target site redirect DASHBOARD)] ∧
  visited (handleLoginSuccess site loads bundle redirectTo v2).2 = visited v2 ++ [Outside t].
Proof.
  intros Hsave Hsu Hb Hl v2. pose proof (save_consume x v) as Hc. rewrite Hsave in Hc. destruct Hc as [Hc Hne]. simpl in Hc, Hne.
  assert (v2 = notify (inr (VStr "Signed in successfully!")) (go (Inside (inner_target site redirect DASHBOARD))
    (set_auth (applyAuthBundle (bundle_of (prop data "data")) true) v1))) as Hv2
    by (unfold v2, oauth_login_answered; by rewrite Hsu, Hb).
  split; [by rewrite Hv2|].
  assert ((consumeExternalAuthRedirect v2).1 = Some t) as H2.
  { rewrite (consume_ext v2 v1) by by rewrite Hv2. by rewrite Hc. }
  unfold handleLoginSuccess. pose proof (login_begins_consume bundle v2) as Hbeg.
  assert (visited (login_begins bundle v2).1 = visited v2) as Hvis by done.
  destruct (login_begins bundle v2) as [v3 [l|]]; simpl in *; rewrite ?Hl; simpl; rewrite login_ends_visited;
    [rewrite (consume_ext (set_language l v3) v3) by done|]; by rewrite Hbeg, H2, (Hne t), <- Hvis.
Qed.
End Urls.

(** ** Invitations *)

Lemma clear_invitation_items (m : gmap jsstr jsstr) :
  delete LEGACY_INVITE (delete AFFILIATE (delete LEGACY_INVITE (delete AFFILIATE m))) = delete LEGACY_INVITE (delete AFFILIATE m).
Proof. apply map_eq. intros k. rewrite !lookup_delete. by repeat case_decide. Qed.

Lemma clear_invitation_idemp v : clearInvitationCredentials (clearInvitationCredentials v) = clearInvitationCredentials v.
Proof.
  destruct v as [[m|] sr [lm|] la at_ vi re no]; unfold clearInvitationCredentials, set_local, set_session; simpl;
    by rewrite ?clear_invitation_items.
Qed.

Lemma get_cleared v : getInvitationCredentials (clearInvitationCredentials v) = (None, clearInvitationCredentials v).
Proof.
  unfold getInvitationCredentials. rewrite clear_invitation_idemp.
  destruct v as [[m|] sr li la at_ vi re no]; simpl; [|done].
  rewrite lookup_delete, decide_False by done. by rewrite lookup_delete, decide_True.
Qed.

Lemma get_again v : getInvitationCredentials (getInvitationCredentials v).2 = getInvitationCredentials v.
Proof.
  destruct (getInvitationCredentials v) as [c v'] eqn:Hg. simpl. pose proof Hg as Hg'. unfold getInvitationCredentials in Hg'.
  destruct (sessionItems v) as [m|]; [destruct (nonempty _)|]; simpl in Hg'; injection Hg' as <- <-; [done|apply get_cleared..].
Qed.

Lemma get_saved aff v : getInvitationCredentials (saveInvitationCredentials aff v).2 = saveInvitationCredentials aff v.
Proof.
  unfold saveInvitationCredentials. destruct (nonempty (trim aff)) eqn:Hne; simpl; [|apply get_cleared].
  destruct (session_set _ _ _) as [v'|] eqn:Hs; simpl; [|apply get_cleared].
  unfold session_set in Hs. destruct (sessionItems (clearInvitationCredentials v)) as [m|]; [|done].
  destruct (sessionRoom _); [|done]. injection Hs as <-. unfold getInvitationCredentials. simpl.
  rewrite lookup_insert, decide_True by done. simpl. by rewrite trim_idemp, Hne.
Qed.

Lemma get_replaced a v :
  getInvitationCredentials (replace_address a v) =
  ((getInvitationCredentials v).1, replace_address a (getInvitationCredentials v).2).
Proof. unfold getInvitationCredentials. simpl. destruct (sessionItems v) as [m|]; [|done]. by destruct (nonempty _). Qed.

(** Whatever happens, nothing old is left. *)
Lemma invitation_save_exact text v c v' : saveInvitationCredentials text v = (c, v') →
  let aff := trim text in
  c = match sessionItems v with Some _ => if sessionRoom v && nonempty aff then Some aff else None | None => None end ∧
  replaced v' = replaced v ∧
  (∀ m, localItems v' = Some m → m !! AFFILIATE = None ∧ m !! LEGACY_INVITE = None) ∧
  (∀ m, sessionItems v' = Some m → m !! LEGACY_INVITE = None ∧ m !! AFFILIATE = c).
Proof.
  assert (∀ m : gmap jsstr jsstr, delete LEGACY_INVITE (delete AFFILIATE m) !! AFFILIATE = None ∧
    delete LEGACY_INVITE (delete AFFILIATE m) !! LEGACY_INVITE = None) as Hd
    by (intros m; rewrite !lookup_delete; by repeat case_decide).
  assert (∀ w : option (gmap jsstr jsstr), ∀ m, (λ m, delete LEGACY_INVITE (delete AFFILIATE m)) <$> w = Some m →
    m !! AFFILIATE = None ∧ m !! LEGACY_INVITE = None) as Hd' by (intros w m (m' & _ & ->)%fmap_Some; apply Hd).
  unfold saveInvitationCredentials, session_set. simpl. destruct (nonempty (trim text)) eqn:Hne; simpl.
  - destruct (sessionItems v) as [m|] eqn:Hm; simpl; [destruct (sessionRoom v); simpl|]; intros [= <- <-];
      rewrite ?clear_invitation_idemp; simpl; rewrite ?Hm; split_and!; try done; try apply Hd'.
    + intros m' [= <-]. rewrite !lookup_insert. destruct (decide (AFFILIATE = LEGACY_INVITE)); [done|].
      rewrite decide_True by done. split; [apply Hd|done].
    + intros m' [= <-]. rewrite ?clear_invitation_items. split; apply Hd.
  - intros [= <- <-]. simpl. split_and!; try done; [by destruct (sessionItems v); rewrite ?andb_false_r|apply Hd'|].
    intros m Hm. destruct (Hd' _ m Hm). done.
Qed.

Section Params.
Context `{SearchLaws}.

Lemma params_delete_none k l : params_has k (params_delete k l) = false.
Proof.
  induction l as [|p l IH]; [done|]. simpl. destruct (str_eqb p.1 k) eqn:Hk; [done|]. simpl. by rewrite Hk.
Qed.

Lemma params_delete_keeps k j l : params_has k l = false → params_has k (params_delete j l) = false.
Proof.
  induction l as [|p l IH]; [done|]. simpl. intros [Hp Hl]%orb_false_iff. destruct (str_eqb p.1 j); simpl; [by apply IH|].
  by rewrite Hp, IH.
Qed.

Lemma remaining_clean l : params_has AFFILIATE (remaining l) = false ∧ params_has LEGACY_INVITE (remaining l) = false.
Proof. split; [apply params_delete_keeps|]; apply params_delete_none. Qed.

Lemma lfilter_sublist {A} (P : A → bool) l : List.filter P l `sublist_of` l.
Proof. induction l as [|x l IH]; simpl; [constructor|]. destruct (P x); by constructor. Qed.

Lemma remaining_query_read q : params_of (remaining_query (params_of q)) = remaining (params_of q).
Proof.
  unfold remaining_query. assert (params_of (params_text (remaining (params_of q))) = remaining (params_of q)) as Hr.
  { apply (params_reread q). unfold remaining, params_delete. etrans; [apply lfilter_sublist|apply lfilter_sublist]. }
  destruct (params_text (remaining (params_of q))) as [|c t] eqn:Ht; simpl nonempty; cbv iota.
  - done.
  - rewrite <- Ht, params_mark, Ht. done.
Qed.

(** An address with an invitation leaves no invitation in the address: the
    query that replaces it has the other parameters, in their order.  The
    credentials kept are the first [aff] without outer space, if the storage
    takes it, and nothing of an older invitation is left in either storage;
    doing it again with the new address changes nothing and gives the same
    credentials. *)
Theorem invitation_captured path query frag v :
  let '(c, v') := syncInvitationCredentialsFromSearch path query frag v in
  let query' := remaining_query (params_of query) in
  params_of query' = List.filter (λ p, negb (str_eqb p.1 LEGACY_INVITE)) (List.filter (λ p, negb (str_eqb p.1 AFFILIATE)) (params_of query)) ∧
  syncInvitationCredentialsFromSearch path query' frag v' = (c, v') ∧
  (params_has AFFILIATE (params_of query) = true →
     let aff := trim (default [] (params_get AFFILIATE (params_of query))) in
     c = match sessionItems v with Some _ => if sessionRoom v && nonempty aff then Some aff else None | None => None end ∧
     replaced v' = replaced v ++ [path ++ query' ++ frag] ∧
     (∀ m, localItems v' = Some m → m !! AFFILIATE = None ∧ m !! LEGACY_INVITE = None) ∧
     (∀ m, sessionItems v' = Some m → m !! LEGACY_INVITE = None ∧ m !! AFFILIATE = c)).
Proof.
  destruct (syncInvitationCredentialsFromSearch path query frag v) as [c v'] eqn:Hs. simpl.
  split; [apply remaining_query_read|]. split.
  - unfold syncInvitationCredentialsFromSearch at 1. rewrite remaining_query_read. destruct (remaining_clean (params_of query)) as [-> ->].
    simpl. unfold syncInvitationCredentialsFromSearch in Hs. destruct (_ && _); [|destruct (params_has AFFILIATE _)].
    + pose proof (get_again v) as Hg. by rewrite Hs in Hg.
    + destruct (saveInvitationCredentials _ v) as [c1 v1] eqn:Hsave. injection Hs as <- <-. rewrite get_replaced.
      pose proof (get_saved (default [] (params_get AFFILIATE (params_of query))) v) as Hg. rewrite Hsave in Hg. simpl in Hg. by rewrite Hg.
    + destruct (getInvitationCredentials v) as [c1 v1] eqn:Hget. injection Hs as <- <-. rewrite get_replaced.
      pose proof (get_again v) as Hg. rewrite Hget in Hg. simpl in Hg. by rewrite Hg.
  - intros Haff. unfold syncInvitationCredentialsFromSearch in Hs. rewrite Haff in Hs. simpl in Hs.
    destruct (saveInvitationCredentials _ v) as [c1 v1] eqn:Hsave. injection Hs as <- <-.
    destruct (invitation_save_exact _ _ _ _ Hsave) as (Hc & Hr & Hl & Hse). simpl. rewrite Hr. done.
Qed.
End Params.

(** ** Concrete browsers *)

(** The addresses of a small site, and one of another site, read as the URL
    standard says. *)
Definition demo_url (site path : jsstr) : WebURL := MkWebURL "https:" site path [] [] (site ++ path).
Definition demo_home : WebURL := demo_url "https://a.example" "/".
Definition demo_console : WebURL := demo_url "https://a.example" "/console".
Definition demo_slashes : WebURL := demo_url "https://a.example" "//evil.example".
Definition demo_docs : WebURL := demo_url "https://docs.example" "/start".

Definition demo_urls : list (option jsstr * jsstr * WebURL) :=
  [(None, "https://a.example"%js, demo_home); (None, "https://a.example/"%js, demo_home); (Some "https://a.example"%js, "/"%js, demo_home);
   (None, "https://a.example/console"%js, demo_console); (Some "https://a.example"%js, "/console"%js, demo_console);
   (Some "https://a.example"%js, "/.//evil.example"%js, demo_slashes); (None, "https://a.example//evil.example"%js, demo_slashes);
   (None, "https://docs.example/start"%js, demo_docs); (Some "https://docs.example"%js, "/start"%js, demo_docs)].

Definition demo_parser : UrlParser := λ b t, snd <$> List.find (λ e, bool_decide (e.1 = (b, t))) demo_urls.

Lemma demo_entry b t u : demo_parser b t = Some u → (b, t, u) ∈ demo_urls.
Proof.
  unfold demo_parser. destruct (List.find _ _) as [e|] eqn:He; [|done]. intros [= <-]. apply List.find_some in He as [Hin Hb].
  apply bool_decide_eq_true in Hb. rewrite list_elem_of_In. by rewrite <- Hb, <- surjective_pairing.
Qed.

Ltac demo_cases Hu :=
  apply demo_entry in Hu; unfold demo_urls in Hu;
  repeat (apply elem_of_cons in Hu as [Hu|Hu]; [injection Hu as -> -> ->|]); [..|by apply not_elem_of_nil in Hu].

#[export] Instance demo_laws : @UrlLaws demo_parser.
Proof.
  constructor.
  - intros b t u Hu _. unfold new_URL in *. demo_cases Hu; vm_compute; reflexivity.
  - intros b t u Hu _. unfold new_URL in *. demo_cases Hu; eexists; vm_compute; reflexivity.
  - intros b t u Hu _. unfold new_URL in *. demo_cases Hu; vm_compute; by split.
  - intros b t u Hu _ _ _. unfold new_URL in *. demo_cases Hu; vm_compute; by split.
  - intros b t u Hu _. unfold new_URL in *. demo_cases Hu; vm_compute; reflexivity.
  - intros b t u Hu _. unfold new_URL in *. demo_cases Hu; vm_compute; reflexivity.
  - intros b t u Hu Hw Hs. exists u. unfold new_URL in *. demo_cases Hu; try discriminate Hs; split_and!; vm_compute; try reflexivity; exact Hw.
Qed.

(** Queries of an invitation and a tab. *)
Definition demo_pairs (q : jsstr) : list (jsstr * jsstr) :=
  if str_eqb q "aff=+x" then [(AFFILIATE, " x"%js)]
  else if str_eqb q "tab=1" then [("tab"%js, "1"%js)]
  else if str_eqb q "aff=+x&tab=1" then [(AFFILIATE, " x"%js); ("tab"%js, "1"%js)]
  else [].
Definition demo_text (l : list (jsstr * jsstr)) : jsstr :=
  if bool_decide (l = [(AFFILIATE, " x"%js)]) then "aff=+x"
  else if bool_decide (l = [("tab"%js, "1"%js)]) then "tab=1"
  else if bool_decide (l = [(AFFILIATE, " x"%js); ("tab"%js, "1"%js)]) then "aff=+x&tab=1"
  else [].
Definition demo_params : SearchParams := {|
  params_of q := demo_pairs (if startsWith q "?" then drop 1 q else q);
  params_text := demo_text;
|}.

#[export] Instance demo_search_laws : @SearchLaws demo_params.
Proof.
  constructor.
  - intros q l Hl. simpl in Hl. unfold demo_pairs in Hl.
    assert (l = [] ∨ l = [(AFFILIATE, " x"%js)] ∨ l = [("tab"%js, "1"%js)] ∨ l = [(AFFILIATE, " x"%js); ("tab"%js, "1"%js)]) as Hcases.
    { repeat match type of Hl with context [str_eqb ?a ?b] => destruct (str_eqb a b) end;
        repeat match goal with Hx : sublist _ _ |- _ => inversion Hx; subst; clear Hx end; auto. }
    destruct Hcases as [->|[->|[->| ->]]]; vm_compute; reflexivity.
  - intros l. simpl. unfold demo_text. destruct (bool_decide _); [reflexivity|]. destruct (bool_decide _); [reflexivity|].
    destruct (bool_decide _); reflexivity.
  - reflexivity.
Qed.

Definition demo_visit : Visit := MkVisit (Some ∅) true (Some ∅) "en" initial_tab [] [] [].

Definition demo_answer : value :=
  VObj [("success"%js, VBool true);
    ("data"%js, VObj [("access_token"%js, VStr "t"); ("token_type"%js, VStr "Bearer"); ("access_expires_at"%js, VNum (of_Z 9));
      ("user"%js, VObj [("id"%js, VNum (of_Z 1)); ("username"%js, VStr "u"); ("role"%js, VNum (of_Z 1))]);
      ("session"%js, VObj [("sid"%js, VStr "s"); ("current"%js, VBool true); ("login_method"%js, VStr "oauth"); ("ip"%js, VStr "");
        ("user_agent"%js, VStr ""); ("created_at"%js, VNum (of_Z 1)); ("last_active_at"%js, VNum (of_Z 1)); ("expires_at"%js, VNum (of_Z 9))])])].

Lemma inner_redirect_exact_witness :
  @sanitizeAuthRedirect demo_parser (VStr "/.//evil.example") "https://a.example" = Some "//evil.example"%js ∧
  @sanitizeAuthRedirect demo_parser (VStr "//evil.example") "https://a.example" = None ∧
  @sanitizeAuthRedirect demo_parser (VStr "/console") "https://a.example" = Some "/console"%js.
Proof.
  assert (@sanitizeAuthRedirect demo_parser (VStr "/.//evil.example") "https://a.example" = Some "//evil.example"%js) as Hs
    by (vm_compute; reflexivity).
  split; [exact Hs|]. split; [exact (proj1 (proj2 (@inner_redirect_exact demo_parser demo_laws _ _ _ Hs)))|vm_compute; reflexivity].
Defined.

Lemma provider_login_keeps_target_witness :
  ∃ v1, @saveExternalAuthRedirect demo_parser (VStr " https://docs.example/start") demo_visit = (Some "https://docs.example/start"%js, v1) ∧
    visited (@oauth_login_answered demo_parser "https://a.example" VUndef (LoginBody demo_answer) v1) = [Inside "/dashboard"].
Proof.
  destruct (@saveExternalAuthRedirect demo_parser (VStr " https://docs.example/start") demo_visit) as [o v1] eqn:Hs.
  assert (o = Some "https://docs.example/start"%js) as -> by (vm_compute in Hs; by injection Hs as <- _).
  assert (visited v1 = []) as Hv by (vm_compute in Hs; by injection Hs as <-).
  exists v1. split; [reflexivity|].
  destruct (@provider_login_keeps_target demo_parser demo_laws "https://a.example" VUndef _ demo_visit _ v1 demo_answer (λ _, true)
    (bundle_of (prop demo_answer "data")) VUndef Hs eq_refl eq_refl (λ _, eq_refl)) as [H1 _].
  rewrite H1, Hv. vm_compute. reflexivity.
Defined.

Lemma external_target_once_witness :
  (@saveExternalAuthRedirect demo_parser (VStr " https://docs.example/start") demo_visit).1 = Some "https://docs.example/start"%js ∧
  let '(saved, v1) := @saveExternalAuthRedirect demo_parser (VStr " https://docs.example/start") demo_visit in
  visited (@login_ends demo_parser "https://a.example" VUndef v1) = visited v1 ++ [from_option Outside (Inside "/dashboard") saved].
Proof.
  split; [vm_compute; reflexivity|].
  pose proof (@external_target_once demo_parser demo_laws "https://a.example" VUndef (VStr " https://docs.example/start") demo_visit) as Ht.
  destruct (@saveExternalAuthRedirect demo_parser (VStr " https://docs.example/start") demo_visit) as [saved v1].
  exact (proj1 Ht).
Defined.

Lemma invitation_captured_witness :
  (@syncInvitationCredentialsFromSearch demo_params "/" "?aff=+x&tab=1" [] demo_visit).1 = Some "x"%js ∧
  @params_of demo_params (@remaining_query demo_params (@params_of demo_params "?aff=+x&tab=1")) = [("tab"%js, "1"%js)].
Proof.
  split; [vm_compute; reflexivity|].
  pose proof (@invitation_captured demo_params demo_search_laws "/" "?aff=+x&tab=1" [] demo_visit) as Ht.
  destruct (@syncInvitationCredentialsFromSearch demo_params "/" "?aff=+x&tab=1" [] demo_visit) as [c v'].
  rewrite (proj1 Ht). vm_compute. reflexivity.
Defined.
End AuthRedirectFacts.
