(* ===== verification/ExtensionMarket.v ===== *)
(** * Online extensions
    ([web/src/features/extensions/marketplace-download.ts])

    The catalogue of extensions and their archives come from a public
    repository.  The catalogue is checked member by member; an archive is
    downloaded with a limit on the bytes that are read, and handed on only when
    its size and its digest are those of the catalogue.

    [fetch] and the stream of a body are events: the answer, then chunks until
    the end or an error.  [new URL] is the class [UrlParser]; [sha256] is
    [crypto.subtle.digest], [decode_utf8] the strict [TextDecoder].  A failure
    carries the text of the exception. *)

From S2P Require Import Prelude JsString JsNumber JsInteger JsValue JsonRoundTrip AuthRedirect.

Module ExtensionMarket.
Import AuthRedirect.

Abbreviation bytes := (list N).
Abbreviation failing A := (jsstr + A)%type.

(** ** Texts *)

Definition EXTENSION_CATALOG_URL : jsstr := "https://raw.githubusercontent.com/moeacgx/maolaonewapi-extensions/main/catalog.json".
Definition MAX_EXTENSION_ARCHIVE_BYTES : Z := 100 * 1024 * 1024.
Definition MAX_CATALOG_BYTES : Z := 2 * 1024 * 1024.

Definition is_lower (c : N) : bool := ((97 <=? c) && (c <=? 122))%N.
Definition is_upper (c : N) : bool := ((65 <=? c) && (c <=? 90))%N.

(** [/^[a-z0-9][a-z0-9_-]{0,63}$/] *)
Definition moduleIdPattern (s : jsstr) : bool :=
  match s with
  | [] => false
  | c :: r => (is_lower c || is_digit c) && forallb (λ c, is_lower c || is_digit c || (c =? 95)%N || (c =? 45)%N) r && (length r <=? 63)
  end.

(** [/^[A-Za-z0-9][A-Za-z0-9._+-]{0,127}$/] *)
Definition versionPattern (s : jsstr) : bool :=
  match s with
  | [] => false
  | c :: r =>
    (is_upper c || is_lower c || is_digit c) &&
    forallb (λ c, is_upper c || is_lower c || is_digit c || (c =? 46)%N || (c =? 95)%N || (c =? 43)%N || (c =? 45)%N) r &&
    (length r <=? 127)
  end.

(** [/^[a-f0-9]{64}$/i] *)
Definition sha_pattern (s : jsstr) : bool :=
  forallb (λ c, is_digit c || ((97 <=? c) && (c <=? 102))%N || ((65 <=? c) && (c <=? 70))%N) s && (length s =? 64).

Definition archive_path (i v : jsstr) : jsstr :=
  "published/"%js ++ i ++ "/"%js ++ v ++ "/"%js ++ i ++ "-"%js ++ v ++ ".zip"%js.

Definition plain_object (v : value) : bool := match v with VObj _ => true | _ => false end.
Definition member_text (v : value) (k : jsstr) : jsstr := match prop v k with VStr s => s | _ => [] end.
Definition text_or_absent (v : value) : bool := is_undefined v || is_string v.

(** The integer a size is; [-0] is none, and no size either way. *)
Definition size_of (v : value) : option Z := match v with VNum x => safe_int x | _ => None end.

Definition INVALID_PATH : jsstr := "Invalid extension archive path".
Definition INVALID_CATALOG : jsstr := "Invalid extension catalog".
Definition TOO_LARGE : jsstr := "Extension download exceeds the size limit".
Definition FAILED : jsstr := "Extension download failed".

Section Market.
Context `{UrlParser} (sha256 : bytes → bytes) (decode_utf8 : bytes → option jsstr).

(** ** The catalogue *)

Definition resolveExtensionArchiveUrl (catalogUrl : jsstr) (entry : value) : failing jsstr :=
  let i := member_text entry "id" in
  let v := member_text entry "version" in
  let p := member_text entry "path" in
  if negb (str_eqb catalogUrl EXTENSION_CATALOG_URL) || negb (moduleIdPattern i) || negb (versionPattern v) || includes v ".." ||
     negb (str_eqb p (archive_path i v))
  then inl INVALID_PATH
  else match new_URL (Some catalogUrl) p, new_URL (Some catalogUrl) "." with
       | Some url, Some directory =>
         if negb (str_eqb (origin url) (origin directory)) || negb (startsWith (pathname url) (pathname directory)) ||
            nonempty (search url) || nonempty (hash url)
         then inl INVALID_PATH else inr (href url)
       | _, _ => inl "Invalid URL"%js
       end.

(** The members of an entry that must be there. *)
Definition entry_shape (item : value) : bool :=
  plain_object item && is_string (prop item "id") && is_string (prop item "name") && nonempty (trim (member_text item "name")) &&
  is_string (prop item "version") && is_string (prop item "path") && is_string (prop item "sha256") && sha_pattern (member_text item "sha256") &&
  match size_of (prop item "size") with Some z => (0 <? z)%Z && (z <=? MAX_EXTENSION_ARCHIVE_BYTES)%Z | None => false end &&
  plain_object (prop item "host").

(** Those that may be there. *)
Definition entry_options (item : value) : bool :=
  forallb (λ k, text_or_absent (prop item k)) ["description"; "compatibility"; "status"; "verification"]%js &&
  text_or_absent (prop (prop item "host") "min") && text_or_absent (prop (prop item "host") "max") &&
  match prop item "capabilities" with VUndef => true | VArr vs => forallb is_string vs | _ => false end.

Definition identity (entry : value) : jsstr := member_text entry "id" ++ "@"%js ++ member_text entry "version".

Definition catalog_module (catalogUrl : jsstr) (identities : list jsstr) (item : value) : failing (list jsstr) :=
  if negb (entry_shape item) || negb (entry_options item) then inl INVALID_CATALOG
  else match resolveExtensionArchiveUrl catalogUrl item with
       | inl m => inl m
       | inr _ =>
         if set_has identities (identity item) then inl "Duplicate extension version in catalog"%js
         else inr (set_add identities (identity item))
       end.

Fixpoint catalog_modules (catalogUrl : jsstr) (identities : list jsstr) (items : list value) : failing (list value) :=
  match items with
  | [] => inr []
  | item :: items' =>
    match catalog_module catalogUrl identities item with
    | inl m => inl m
    | inr ids => match catalog_modules catalogUrl ids items' with inl m => inl m | inr l => inr (item :: l) end
    end
  end.

Record ExtensionCatalog := MkCatalog { catalog_name : jsstr; modules : list value }.

Definition parseExtensionCatalog (v : value) (catalogUrl : jsstr) : failing ExtensionCatalog :=
  match prop v "catalogVersion", prop v "purpose", prop v "name", prop v "modules" with
  | VNum x, VStr p, VStr name, VArr items =>
    if num_eqb x (of_Z 1) && str_eqb p "extension-catalog" && nonempty (trim name)
    then match catalog_modules catalogUrl [] items with inl m => inl m | inr l => inr (MkCatalog name l) end
    else inl INVALID_CATALOG
  | _, _, _, _ => inl INVALID_CATALOG
  end.

(** ** Downloads *)

Record Response := MkResponse {
  r_ok : bool;
  r_redirected : bool;
  r_url : jsstr;
  r_length : option jsstr;
  r_body : bool;
}.

(** What is wrong with an answer before its body is read; [inl] is a request
    that failed. *)
Definition response_error (url : jsstr) (limit : Z) (answer : failing Response) : option jsstr :=
  match answer with
  | inl m => Some m
  | inr r =>
    if negb (r_ok r) || r_redirected r || (nonempty (r_url r) && negb (str_eqb (r_url r) url)) then Some FAILED
    else if num_ltb (of_Z limit) (match r_length r with Some t => Number_of_string t | None => of_Z 0 end) then Some TOO_LARGE
    else if negb (r_body r) then Some FAILED
    else None
  end.

Inductive ReadEvent := Chunk (c : bytes) | Done | ReadError (m : jsstr).
Inductive Reader := Reading (chunks : list bytes) | Finished (bs : bytes) | Stopped (m : jsstr).

Definition total (chunks : list bytes) : nat := sum_list_with length chunks.

(** [bytes.set(chunk, offset)] *)
Definition set_at (bs : bytes) (offset : nat) (chunk : bytes) : bytes := take offset bs ++ chunk ++ drop (offset + length chunk) bs.

Definition copy_chunks (chunks : list bytes) : bytes :=
  (fold_left (λ acc chunk, (set_at acc.1 acc.2 chunk, acc.2 + length chunk)) chunks (replicate (total chunks) 0%N, 0)).1.

Definition reader_step (limit : Z) (r : Reader) (ev : ReadEvent) : Reader :=
  match r, ev with
  | Reading cs, Chunk c => if (limit <? Z.of_nat (total cs + length c))%Z then Stopped TOO_LARGE else Reading (cs ++ [c])
  | Reading cs, Done => Finished (copy_chunks cs)
  | Reading _, ReadError m => Stopped m
  | _, _ => r
  end.

Definition downloadBytes (url : jsstr) (limit : Z) (answer : failing Response) (events : list ReadEvent) : Reader :=
  match response_error url limit answer with
  | Some m => Stopped m
  | None => fold_left (reader_step limit) events (Reading [])
  end.

(** What a caller has: nothing yet, an exception, or a value. *)
Inductive Outcome A := Pending | Failed (m : jsstr) | Loaded (a : A).
Arguments Pending {A}.
Arguments Failed {A}.
Arguments Loaded {A}.

Definition fetchExtensionCatalog (catalogUrl : jsstr) (answer : failing Response) (events : list ReadEvent) : Outcome ExtensionCatalog :=
  if negb (str_eqb catalogUrl EXTENSION_CATALOG_URL) then Failed "Invalid extension catalog URL"
  else match downloadBytes catalogUrl MAX_CATALOG_BYTES answer events with
       | Reading _ => Pending
       | Stopped m => Failed m
       | Finished bs =>
         match t ← decode_utf8 bs; JSON_parse t with
         | None => Failed INVALID_CATALOG
         | Some v => match parseExtensionCatalog v catalogUrl with inl m => Failed m | inr c => Loaded c end
         end
       end.

(** [byte.toString(16).padStart(2, '0')] *)
Definition hex_byte (b : N) : jsstr := [hex_digit (b / 16); hex_digit (b mod 16)]%N.
Definition hex_of (bs : bytes) : jsstr := concat (hex_byte <$> bs).

Record File := MkFile { file_name : jsstr; file_bytes : bytes }.

(** The checks before the download, and its limit. *)
Definition archive_request (catalogUrl : jsstr) (entry : value) (hostLimit : number) : failing (jsstr * Z) :=
  match resolveExtensionArchiveUrl catalogUrl entry with
  | inl m => inl m
  | inr url =>
    if negb (sha_pattern (member_text entry "sha256")) then inl "Invalid extension SHA-256"%js
    else match safe_int hostLimit, size_of (prop entry "size") with
         | Some h, Some z =>
           if (h <=? 0)%Z || (z <=? 0)%Z || (Z.min h MAX_EXTENSION_ARCHIVE_BYTES <? z)%Z then inl TOO_LARGE
           else inr (url, Z.min h (Z.min MAX_EXTENSION_ARCHIVE_BYTES z))
         | _, _ => inl TOO_LARGE
         end
  end.

(** [subtle]: the page has [crypto.subtle]. *)
Definition downloadExtensionArchive (subtle : bool) (catalogUrl : jsstr) (entry : value) (hostLimit : number)
    (answer : failing Response) (events : list ReadEvent) : Outcome File :=
  match archive_request catalogUrl entry hostLimit with
  | inl m => Failed m
  | inr (url, limit) =>
    match downloadBytes url limit answer events with
    | Reading _ => Pending
    | Stopped m => Failed m
    | Finished bs =>
      if negb (bool_decide (size_of (prop entry "size") = Some (Z.of_nat (length bs)))) then Failed "Extension archive size does not match"
      else if negb subtle then Failed "SHA-256 verification is unavailable"
      else if negb (str_eqb (hex_of (sha256 bs)) (toLowerCase (member_text entry "sha256"))) then Failed "Extension archive SHA-256 does not match"
      else Loaded (MkFile (member_text entry "id" ++ "-"%js ++ member_text entry "version" ++ ".zip"%js) bs)
    end
  end.

End Market.
Arguments Pending {A}.
Arguments Failed {A}.
Arguments Loaded {A}.

End ExtensionMarket.
