(* ===== verification/ExtensionMarketFacts.v ===== *)
(** * Facts about online extensions

    [catalog_exact]: which catalogues are accepted, against a description of
    their entries that does not use the checks; [archive_exact]: which archives
    are handed on; [download_bounded]: how much is stored. *)

From S2P Require Import Prelude JsString JsNumber JsInteger JsValue JsonRoundTrip AuthRedirect AuthRedirectFacts ExtensionMarket.

Module ExtensionMarketFacts.
Import AuthRedirect AuthRedirectFacts ExtensionMarket.

(** ** Reading *)

(** Writing a chunk after what was written. *)
Lemma set_at_next a (c : bytes) (k : nat) : length c <= k → set_at (a ++ replicate k 0%N) (length a) c = a ++ c ++ replicate (k - length c) 0%N.
Proof.
  intros Hk. unfold set_at. rewrite take_app_length, drop_app_ge by lia. replace (length a + length c - length a) with (length c) by lia.
  by rewrite drop_replicate.
Qed.

(** The copied bytes are the chunks one after the other. *)
Lemma copy_chunks_concat cs : copy_chunks cs = concat cs.
Proof.
  unfold copy_chunks.
  assert (∀ cs a k, total cs <= k →
    (fold_left (λ acc c, (set_at acc.1 acc.2 c, acc.2 + length c)) cs (a ++ replicate k 0%N, length a)).1 = a ++ concat cs ++ replicate (k - total cs) 0%N) as Hgo.
  { clear cs. induction cs as [|c cs IH]; intros a k Hk; [cbn; by rewrite Nat.sub_0_r|].
    change (total (c :: cs)) with (length c + total cs) in *. cbn [fold_left fst snd concat]. rewrite set_at_next by lia.
    specialize (IH (a ++ c) (k - length c) ltac:(lia)). rewrite length_app, <- app_assoc in IH. rewrite IH, <- !app_assoc. do 4 f_equal. lia. }
  specialize (Hgo cs [] (total cs) ltac:(lia)). cbn [app length] in Hgo. rewrite Hgo, Nat.sub_diag. by rewrite app_nil_r.
Qed.

Lemma total_concat cs : total cs = length (concat cs).
Proof. unfold total. induction cs as [|c cs IH]; cbn; [done|]. by rewrite length_app, IH. Qed.

Lemma total_app cs ds : total (cs ++ ds) = total cs + total ds.
Proof. rewrite !total_concat, concat_app, length_app. done. Qed.

(** The chunks that come before the end; [None] if there is no end, or an error
    comes first. *)
Fixpoint body_chunks (events : list ReadEvent) : option (list bytes) :=
  match events with
  | [] => None
  | Chunk c :: evs => cons c <$> body_chunks evs
  | Done :: _ => Some []
  | ReadError _ :: _ => None
  end.

Lemma reader_settled limit events r : (∀ cs, r ≠ Reading cs) → fold_left (reader_step limit) events r = r.
Proof. intros Hr. induction events as [|ev evs IH]; [done|]. cbn. destruct r; [by destruct (Hr chunks)|exact IH..]. Qed.

(** What was read when the reading ends. *)
Lemma reader_finishes limit events cs bs : (Z.of_nat (total cs) <= limit)%Z →
  fold_left (reader_step limit) events (Reading cs) = Finished bs ↔
  ∃ ds, body_chunks events = Some ds ∧ bs = concat (cs ++ ds) ∧ (Z.of_nat (length bs) <= limit)%Z.
Proof.
  revert cs. induction events as [|ev evs IH]; intros cs Hl; [split; [done|by intros (ds & ? & _)]|]. cbn [fold_left]. destruct ev as [c| |m]; cbn [reader_step body_chunks].
  - destruct (Z.ltb_spec limit (Z.of_nat (total cs + length c))) as [Hlt|Hge].
    + rewrite reader_settled by done. split; [done|]. intros (ds & Hd & -> & Hb). exfalso. destruct (body_chunks evs) as [es|]; [|done]. injection Hd as <-.
      rewrite <- total_concat, total_app in Hb. cbn in Hb. lia.
    + rewrite IH by (rewrite total_app; cbn; lia). split.
      * intros (ds & Hd & -> & Hb). exists (c :: ds). rewrite Hd. split; [done|]. split; [|done]. by rewrite <- app_assoc.
      * intros (ds & Hd & -> & Hb). destruct (body_chunks evs) as [es|]; [|done]. injection Hd as <-. exists es. split; [done|]. rewrite <- app_assoc. done.
  - rewrite reader_settled by done. rewrite copy_chunks_concat. split.
    + intros [= <-]. exists []. rewrite app_nil_r. split; [done|]. split; [done|]. by rewrite <- total_concat.
    + intros (ds & [= <-] & -> & _). by rewrite app_nil_r.
  - rewrite reader_settled by done. split; [done|]. by intros (ds & ? & _).
Qed.

(** The bytes that are stored: those of the chunks kept so far, or of the result.
    The chunk that is being compared with the limit is not among them. *)
Definition held (r : Reader) : nat := match r with Reading cs => total cs | Finished bs => length bs | Stopped _ => 0 end.

Lemma reader_held limit events r : (Z.of_nat (held r) <= limit)%Z → (Z.of_nat (held (fold_left (reader_step limit) events r)) <= limit)%Z.
Proof.
  revert r. induction events as [|ev evs IH]; intros r Hr; [done|]. cbn [fold_left]. apply IH. destruct r as [cs|bs|m]; [|by destruct ev..].
  destruct ev as [c| |m]; cbn in *; [|by rewrite copy_chunks_concat, <- total_concat|lia].
  destruct (Z.ltb_spec limit (Z.of_nat (total cs + length c))); cbn; [lia|]. rewrite total_app. cbn. lia.
Qed.

(** C18: However the server answers and whatever chunks it sends, a download
    never holds more bytes than its limit, at no time; what it returns is the
    chunks one after the other up to the end of the body, and it does return
    it if the answer is in order and the body is within the limit; a body that
    is larger is never returned, neither in full nor in part. *)
Theorem download_bounded url limit answer events :
  (0 <= limit)%Z →
  (Z.of_nat (held (downloadBytes url limit answer events)) <= limit)%Z ∧
  ∀ bs, downloadBytes url limit answer events = Finished bs ↔
    response_error url limit answer = None ∧ ∃ cs, body_chunks events = Some cs ∧ bs = concat cs ∧ (Z.of_nat (length bs) <= limit)%Z.
Proof.
  intros Hl. unfold downloadBytes. destruct (response_error url limit answer) as [m|]; [split; [done|]; intros bs; by split; [|intros [? _]]|].
  split; [by apply reader_held|]. intros bs. rewrite reader_finishes by done. split; [intros (ds & H); split; [done|]; by exists ds|intros [_ H]; done].
Qed.

Lemma download_bounded_witness :
  (Z.of_nat (held (downloadBytes "u" 3 (inr (MkResponse true false [] None true)) [Chunk [1;2]%N; Chunk [3;4]%N; Done])) <= 3)%Z ∧
  downloadBytes "u" 4 (inr (MkResponse true false [] None true)) [Chunk [1;2]%N; Chunk [3;4]%N; Done] = Finished [1;2;3;4]%N.
Proof.
  split; [apply download_bounded; lia|].
  apply (download_bounded "u" 4 (inr (MkResponse true false [] None true)) [Chunk [1;2]%N; Chunk [3;4]%N; Done]); [lia|].
  split; [reflexivity|]. by exists [[1;2];[3;4]]%N.
Defined.

Section Market.
Context `{UrlParser} (sha256 : bytes → bytes).

(** ** Archives *)

(** A request is made exactly for an entry with a proper path, digest and size;
    its limit is the size. *)
Lemma request_exact curl entry hl url limit : archive_request curl entry hl = inr (url, limit) ↔
  resolveExtensionArchiveUrl curl entry = inr url ∧ sha_pattern (member_text entry "sha256") = true ∧
  size_of (prop entry "size") = Some limit ∧ (0 < limit <= MAX_EXTENSION_ARCHIVE_BYTES)%Z ∧ ∃ h, safe_int hl = Some h ∧ (limit <= h)%Z.
Proof.
  unfold archive_request. destruct (resolveExtensionArchiveUrl curl entry) as [m|u]; [by split; [|intros (? & _)]|].
  destruct (sha_pattern _); [|by split; [|intros (_ & ? & _)]]. cbn [negb].
  destruct (safe_int hl) as [h|]; [|by split; [|intros (_ & _ & _ & _ & h & ? & _)]].
  destruct (size_of _) as [z|]; [|by split; [|intros (_ & _ & ? & _)]].
  destruct (Z.leb_spec h 0), (Z.leb_spec z 0), (Z.ltb_spec (Z.min h MAX_EXTENSION_ARCHIVE_BYTES) z); cbn [orb].
  all: try (split; [done|]; intros (_ & _ & [= <-] & ? & h' & [= <-] & ?); lia).
  split.
  - intros [= <- <-]. assert (Z.min h (Z.min MAX_EXTENSION_ARCHIVE_BYTES z) = z) as -> by lia. split_and!; try done; [lia|]. exists h. split; [done|lia].
  - intros ([= ->] & _ & [= ->] & ? & h' & [= <-] & ?). do 2 f_equal. lia.
Qed.

(** C19: An archive is handed on exactly if its entry names the official
    catalogue, a path built from its own name and version that stays below the
    catalogue's directory, a digest and a size within both limits; the answer
    is in order; the body ends without an error and has exactly the bytes the
    entry says; and their digest, in hexadecimal, is the one of the entry.  The
    file has those bytes. *)
Theorem archive_exact subtle curl entry hl answer events f :
  downloadExtensionArchive sha256 subtle curl entry hl answer events = Loaded f ↔
  ∃ url h cs, resolveExtensionArchiveUrl curl entry = inr url ∧ sha_pattern (member_text entry "sha256") = true ∧
    safe_int hl = Some h ∧ (0 < Z.of_nat (total cs) <= Z.min h MAX_EXTENSION_ARCHIVE_BYTES)%Z ∧
    size_of (prop entry "size") = Some (Z.of_nat (total cs)) ∧ response_error url (Z.of_nat (total cs)) answer = None ∧
    body_chunks events = Some cs ∧ subtle = true ∧ hex_of (sha256 (concat cs)) = toLowerCase (member_text entry "sha256") ∧
    f = MkFile (member_text entry "id" ++ "-"%js ++ member_text entry "version" ++ ".zip"%js) (concat cs).
Proof.
  unfold downloadExtensionArchive. split.
  - destruct (archive_request curl entry hl) as [m|[url limit]] eqn:E; [done|]. apply request_exact in E as (Hu & Hs & Hz & Hl & h & Hh & Hle).
    destruct (downloadBytes url limit answer events) as [cs|bs|m] eqn:Ed; [done| |done].
    unfold downloadBytes in Ed. destruct (response_error url limit answer) eqn:Hr; [done|]. apply reader_finishes in Ed as (cs & Hb & -> & Hlen); [|cbn; lia].
    cbn [app]. destruct (bool_decide _) eqn:Hsz; [|done]. apply bool_decide_eq_true in Hsz. rewrite <- total_concat in *. destruct subtle; [|done]. cbn [negb].
    destruct (str_eqb _ _) eqn:Hd; [|done]. apply str_eqb_spec in Hd. intros [= <-]. rewrite Hz in Hsz. injection Hsz as ->.
    exists url, h, cs. split_and!; try done; lia.
  - intros (url & h & cs & Hu & Hs & Hh & Hb & Hz & Hr & He & -> & Hd & ->).
    assert (archive_request curl entry hl = inr (url, Z.of_nat (total cs))) as -> by (apply request_exact; split_and!; try done; [lia|lia|]; exists h; split; [done|lia]).
    assert (downloadBytes url (Z.of_nat (total cs)) answer events = Finished (concat cs)) as ->.
    { unfold downloadBytes. rewrite Hr. apply reader_finishes; [cbn; lia|]. exists cs. split_and!; try done. by rewrite <- total_concat. }
    rewrite Hz, total_concat, bool_decide_true by done. cbn [negb]. rewrite Hd. unfold str_eqb. by rewrite bool_decide_true.
Qed.

(** ** The catalogue *)

(** What a well-formed entry is, member by member.  Characters come from
    alphabets that are written out. *)
Definition LOWER : jsstr := "abcdefghijklmnopqrstuvwxyz".
Definition UPPER : jsstr := "ABCDEFGHIJKLMNOPQRSTUVWXYZ".
Definition DIGITS : jsstr := "0123456789".
Definition HEX : jsstr := "0123456789abcdefABCDEF".

(** A text of at least one and at most [n] characters, the first one of [hd]
    and the others of [tl]. *)
Definition spelled (hd tl : jsstr) (n : nat) (s : jsstr) : Prop :=
  ∃ c r, s = c :: r ∧ c ∈ hd ∧ Forall (λ c, c ∈ tl) r ∧ length s <= n.

Definition text_member (e : value) (k : jsstr) : Prop := prop e k = VUndef ∨ ∃ s, prop e k = VStr s.

Record entry_ok (curl : jsstr) (e : value) : Prop := {
  ok_catalog : curl = "https://raw.githubusercontent.com/moeacgx/maolaonewapi-extensions/main/catalog.json"%js;
  ok_object : ∃ fs, e = VObj fs;
  ok_members : ∃ i v name sha x z host,
    prop e "id" = VStr i ∧ spelled (LOWER ++ DIGITS) (LOWER ++ DIGITS ++ "_-"%js) 64 i ∧
    prop e "version" = VStr v ∧ spelled (UPPER ++ LOWER ++ DIGITS) (UPPER ++ LOWER ++ DIGITS ++ "._+-"%js) 128 v ∧
    (¬ ∃ a b, v = a ++ ".."%js ++ b) ∧
    prop e "path" = VStr ("published/"%js ++ i ++ "/"%js ++ v ++ "/"%js ++ i ++ "-"%js ++ v ++ ".zip"%js) ∧
    prop e "name" = VStr name ∧ trim name ≠ [] ∧
    prop e "sha256" = VStr sha ∧ length sha = 64 ∧ Forall (λ c, c ∈ HEX) sha ∧
    prop e "size" = VNum x ∧ safe_int x = Some z ∧ (0 < z <= 104857600)%Z ∧
    prop e "host" = VObj host;
  ok_options : Forall (text_member e) ["description"; "compatibility"; "status"; "verification"]%js;
  ok_host : Forall (text_member (prop e "host")) ["min"; "max"]%js;
  ok_capabilities : prop e "capabilities" = VUndef ∨ ∃ ss, prop e "capabilities" = VArr (VStr <$> ss);
  ok_address : ∃ p url dir, prop e "path" = VStr p ∧ new_URL (Some curl) p = Some url ∧ new_URL (Some curl) "." = Some dir ∧
    origin url = origin dir ∧ (∃ below, pathname url = pathname dir ++ below) ∧ search url = [] ∧ hash url = [];
}.

(** What the code checks of an entry. *)
Definition entry_passes (curl : jsstr) (e : value) : Prop :=
  entry_shape e = true ∧ entry_options e = true ∧ ∃ url, resolveExtensionArchiveUrl curl e = inr url.

Lemma in_range (l : jsstr) (lo hi : N) c :
  bool_decide (l = (λ k, lo + N.of_nat k)%N <$> seq 0 (N.to_nat (hi + 1 - lo))) = true →
  c ∈ l ↔ ((lo <=? c) && (c <=? hi))%N = true.
Proof.
  intros ->%bool_decide_eq_true. rewrite list_elem_of_fmap, andb_true_iff. split.
  - intros (k & -> & Hk%elem_of_seq). lia.
  - intros [? ?]. exists (N.to_nat (c - lo)). rewrite elem_of_seq. lia.
Qed.

Lemma lower_spec c : is_lower c = true ↔ c ∈ LOWER.
Proof. symmetry. apply (in_range LOWER 97 122). by vm_compute. Qed.
Lemma upper_spec c : is_upper c = true ↔ c ∈ UPPER.
Proof. symmetry. apply (in_range UPPER 65 90). by vm_compute. Qed.
Lemma digit_spec c : is_digit c = true ↔ c ∈ DIGITS.
Proof. symmetry. apply (in_range DIGITS 48 57). by vm_compute. Qed.

Lemma spelled_spec (f g : N → bool) hd tl n c r :
  (∀ c, f c = true ↔ c ∈ hd) → (∀ c, g c = true ↔ c ∈ tl) →
  f c && forallb g r && (length r <=? n) = true ↔ spelled hd tl (S n) (c :: r).
Proof.
  intros Hf Hg. rewrite !andb_true_iff, Hf, Nat.leb_le, forallb_forall. split.
  - intros [[Hc Hr] Hl]. exists c, r. split_and!; try done; [|cbn; lia]. apply Forall_forall. intros x Hx%list_elem_of_In. by apply Hg, Hr.
  - intros (? & ? & [= <- <-] & Hc & Hr & Hl). cbn in Hl. split_and!; try done; [|lia]. rewrite Forall_forall in Hr. intros x Hx%list_elem_of_In. by apply Hg, Hr.
Qed.

Lemma id_spec i : moduleIdPattern i = true ↔ spelled (LOWER ++ DIGITS) (LOWER ++ DIGITS ++ "_-"%js) 64 i.
Proof.
  destruct i as [|c r]; [by split; [|intros (? & ? & ? & _)]|]. unfold moduleIdPattern.
  apply (spelled_spec (λ c, is_lower c || is_digit c) (λ c, is_lower c || is_digit c || (c =? 95)%N || (c =? 45)%N) _ _ 63); intros x.
  - by rewrite orb_true_iff, elem_of_app, lower_spec, digit_spec.
  - change "_-"%js with [95; 45]%N. rewrite !orb_true_iff, !elem_of_app, lower_spec, digit_spec, !N.eqb_eq, !elem_of_cons, elem_of_nil. tauto.
Qed.

Lemma version_spec v : versionPattern v = true ↔
  spelled (UPPER ++ LOWER ++ DIGITS) (UPPER ++ LOWER ++ DIGITS ++ "._+-"%js) 128 v.
Proof.
  destruct v as [|c r]; [by split; [|intros (? & ? & ? & _)]|]. unfold versionPattern.
  apply (spelled_spec (λ c, is_upper c || is_lower c || is_digit c)
    (λ c, is_upper c || is_lower c || is_digit c || (c =? 46)%N || (c =? 95)%N || (c =? 43)%N || (c =? 45)%N) _ _ 127); intros x.
  - rewrite !orb_true_iff, !elem_of_app, upper_spec, lower_spec, digit_spec. tauto.
  - change "._+-"%js with [46; 95; 43; 45]%N. rewrite !orb_true_iff, !elem_of_app, upper_spec, lower_spec, digit_spec, !N.eqb_eq, !elem_of_cons, elem_of_nil. tauto.
Qed.

Lemma sha_spec t : sha_pattern t = true ↔ length t = 64 ∧ Forall (λ c, c ∈ HEX) t.
Proof.
  unfold sha_pattern. rewrite andb_true_iff, Nat.eqb_eq, forallb_forall, Forall_forall.
  assert (∀ c, is_digit c || ((97 <=? c) && (c <=? 102))%N || ((65 <=? c) && (c <=? 70))%N = true ↔ c ∈ HEX) as Hc.
  { intros c. change HEX with (DIGITS ++ "abcdef"%js ++ "ABCDEF"%js). rewrite !orb_true_iff, !elem_of_app, digit_spec.
    rewrite (in_range "abcdef"%js 97 102), (in_range "ABCDEF"%js 65 70) by by vm_compute. tauto. }
  split; intros [H1 H2]; split; try done; intros c Hx; apply Hc; apply H1 || apply H2; by apply list_elem_of_In.
Qed.

Lemma startsWith_spec t w : startsWith t w = true ↔ ∃ r, t = w ++ r.
Proof.
  split; [|intros [r ->]; apply startsWith_app]. revert t. induction w as [|c w IH]; intros t; [by exists t|].
  destruct t as [|d t]; [done|]. cbn. rewrite andb_true_iff, N.eqb_eq. intros [-> [r ->]%IH]. by exists r.
Qed.

Lemma includes_spec t w : includes t w = true ↔ ∃ a b, t = a ++ w ++ b.
Proof.
  split; [|intros (a & b & ->); apply includes_app]. induction t as [|c t IH]; cbn [includes]; rewrite orb_true_iff.
  - intros [[r E]%startsWith_spec|]; [|done]. by exists [], r.
  - intros [[r E]%startsWith_spec|(a & b & ->)%IH]; [by exists [], r|]. by exists (c :: a), b.
Qed.

Lemma text_spec v k : text_or_absent (prop v k) = true ↔ text_member v k.
Proof. unfold text_or_absent, text_member. destruct (prop v k); cbn; split; try done; eauto; by intros [|[]]. Qed.

Lemma is_string_spec v : is_string v = true ↔ ∃ t, v = VStr t.
Proof. destruct v; cbn; split; try done; eauto; by intros []. Qed.

Lemma plain_object_spec v : plain_object v = true ↔ ∃ fs, v = VObj fs.
Proof. destruct v; cbn; split; try done; eauto; by intros []. Qed.

Lemma options_spec e : entry_options e = true ↔
  Forall (text_member e) ["description"; "compatibility"; "status"; "verification"]%js ∧
  Forall (text_member (prop e "host")) ["min"; "max"]%js ∧
  (prop e "capabilities" = VUndef ∨ ∃ ss, prop e "capabilities" = VArr (VStr <$> ss)).
Proof.
  unfold entry_options. rewrite !andb_true_iff, !text_spec, !Forall_cons, !Forall_nil. cbn [forallb].
  rewrite !andb_true_iff, !text_spec.
  assert (match prop e "capabilities" with VUndef => true | VArr vs => forallb is_string vs | _ => false end = true ↔
    (prop e "capabilities" = VUndef ∨ ∃ ss, prop e "capabilities" = VArr (VStr <$> ss))) as ->; [|tauto].
  destruct (prop e "capabilities") as [| | | | |vs|]; split; try done; auto; try by intros [|[]].
  - intros Hv. right. induction vs as [|v vs IH]; [by exists []|]. cbn in Hv. bool_hyps.
    match goal with Hs : is_string v = true |- _ => apply is_string_spec in Hs as [t ->] end.
    destruct IH as [ss [= ->]]; [done|]. by exists (t :: ss).
  - intros [|[ss [= ->]]]; [done|]. apply forallb_forall. intros x (t & <- & _)%in_map_iff. done.
Qed.

Lemma address_spec curl e : (∃ url, resolveExtensionArchiveUrl curl e = inr url) ↔
  curl = EXTENSION_CATALOG_URL ∧ moduleIdPattern (member_text e "id") = true ∧ versionPattern (member_text e "version") = true ∧
  includes (member_text e "version") ".." = false ∧ member_text e "path" = archive_path (member_text e "id") (member_text e "version") ∧
  ∃ url dir, new_URL (Some curl) (member_text e "path") = Some url ∧ new_URL (Some curl) "." = Some dir ∧
    origin url = origin dir ∧ (∃ below, pathname url = pathname dir ++ below) ∧ search url = [] ∧ hash url = [].
Proof.
  unfold resolveExtensionArchiveUrl. split.
  - intros [u Hu]. destruct (_ || negb (str_eqb (member_text e "path") _)) eqn:E; [done|]. bool_hyps. rewrite !str_eqb_spec in *.
    destruct (new_URL (Some curl) (member_text e "path")) as [url|]; [|done]. destruct (new_URL (Some curl) ".") as [dir|]; [|done].
    destruct (_ || nonempty (hash url)) eqn:E2; [done|]. bool_hyps. rewrite str_eqb_spec in *. split_and!; try done.
    exists url, dir. split_and!; try done; [by apply startsWith_spec| |]; by match goal with |- ?l = [] => destruct l end.
  - intros (-> & -> & -> & -> & Hp & url & dir & Hu & Hd & Ho & Hb%startsWith_spec & Hs & Hh). rewrite Hu, Hd, Ho, Hb, Hs, Hh, Hp.
    unfold str_eqb. rewrite !bool_decide_true by done. by eexists.
Qed.

Lemma member_text_eq v k t : prop v k = VStr t → member_text v k = t.
Proof. unfold member_text. by intros ->. Qed.

Lemma shape_spec e : entry_shape e = true ↔
  (∃ fs, e = VObj fs) ∧ (∃ i, prop e "id" = VStr i) ∧ (∃ name, prop e "name" = VStr name ∧ trim name ≠ []) ∧
  (∃ v, prop e "version" = VStr v) ∧ (∃ p, prop e "path" = VStr p) ∧
  (∃ sha, prop e "sha256" = VStr sha ∧ length sha = 64 ∧ Forall (λ c, c ∈ HEX) sha) ∧
  (∃ x z, prop e "size" = VNum x ∧ safe_int x = Some z ∧ (0 < z <= 104857600)%Z) ∧ ∃ fs, prop e "host" = VObj fs.
Proof.
  unfold entry_shape. rewrite !andb_true_iff, !plain_object_spec, !is_string_spec, nonempty_spec, sha_spec. split.
  - intros [[[[[[[[[H1 H2] [n Hn]] Hne] H4] H5] [sh Hsh]] H7] Hz] Hh]. rewrite (member_text_eq _ _ _ Hn) in Hne. rewrite (member_text_eq _ _ _ Hsh) in H7.
    split_and!; eauto. unfold size_of in Hz. destruct (prop e "size") as [| | |x| | |]; try done. destruct (safe_int x) as [z|] eqn:Ez; [|done].
    exists x, z. bool_hyps. unfold MAX_EXTENSION_ARCHIVE_BYTES in *. split_and!; try done; lia.
  - intros (H1 & H2 & (n & Hn & Hne) & H4 & H5 & (sh & Hsh & H7) & (x & z & Hx & Hz & Hl) & Hh).
    rewrite (member_text_eq _ _ _ Hn), (member_text_eq _ _ _ Hsh), Hx. cbn [size_of]. rewrite Hz.
    destruct H7. split_and!; eauto. apply andb_true_iff. unfold MAX_EXTENSION_ARCHIVE_BYTES. lia.
Qed.

(** The checks of the code accept exactly the well-formed entries. *)
Lemma entry_ok_spec curl e : entry_passes curl e ↔ entry_ok curl e.
Proof.
  unfold entry_passes. rewrite shape_spec, options_spec, address_spec, id_spec, version_spec. split.
  - intros ((Hf & (i & Hi) & (n & Hn & Hne) & (v & Hv) & (p & Hp) & (sh & Hsh & Hl & Hx) & (x & z & Hz) & [fs Hh]) &
      (Ho1 & Ho2 & Ho3) & -> & Hsi & Hsv & Hd & Hpa & url & dir & Hu).
    rewrite (member_text_eq _ _ _ Hi), (member_text_eq _ _ _ Hv), (member_text_eq _ _ _ Hp) in *. subst p.
    constructor; try done; [|by eexists _, url, dir]. exists i, v, n, sh, x, z, fs. destruct Hz as (? & ? & ?). split_and!; try done; try lia.
    intros Hinc%includes_spec. congruence.
  - intros [-> Hf (i & v & n & sh & x & z & fs & Hi & Hsi & Hv & Hsv & Hd & Hp & Hn & Hne & Hsh & Hl & Hx & Hz1 & Hz2 & Hz3 & Hh) Ho1 Ho2 Ho3 (p & url & dir & Hp' & Hu)].
    rewrite (member_text_eq _ _ _ Hi), (member_text_eq _ _ _ Hv), (member_text_eq _ _ _ Hp). rewrite Hp in Hp'. injection Hp' as <-.
    split; [split_and!; eauto 6|]. split; [done|]. split_and!; try done; try lia; [|by exists url, dir].
    apply not_true_is_false. intros Hinc%includes_spec. done.
Qed.

Definition name_of (e : value) : jsstr * jsstr := (member_text e "id", member_text e "version").

Lemma modules_exact curl items : ∀ ids l, catalog_modules curl ids items = inr l ↔
  l = items ∧ Forall (entry_passes curl) items ∧ NoDup (identity <$> items) ∧ Forall (λ e, identity e ∉ ids) items.
Proof.
  induction items as [|e items IH]; intros ids l; cbn [catalog_modules].
  - split; [intros [= <-]; repeat split; constructor|intros (-> & _); done].
  - rewrite fmap_cons, NoDup_cons, !Forall_cons. unfold catalog_module, entry_passes at 1.
    destruct (entry_shape e); [|by split; [|intros (_ & [[? _] _] & _)]]. destruct (entry_options e); [|by split; [|intros (_ & [[_ [? _]] _] & _)]]. cbn [negb orb].
    destruct (resolveExtensionArchiveUrl curl e) as [m|u]; [by split; [|intros (_ & [[_ [_ [? ?]]] _] & _)]|].
    destruct (set_has ids (identity e)) eqn:Hh; [apply set_has_spec in Hh; by split; [|intros (_ & _ & _ & [? _])]|].
    assert (identity e ∉ ids) as Hn by (intros Hin%set_has_spec; congruence).
    destruct (catalog_modules curl (set_add ids (identity e)) items) as [m|l'] eqn:E.
    + split; [done|]. intros (_ & (_ & Hok) & (Hni & Hd) & (_ & Hf)). exfalso.
      assert (catalog_modules curl (set_add ids (identity e)) items = inr items) as E'; [|congruence]. apply IH. split_and!; try done.
      rewrite Forall_forall in Hf |- *. intros x Hx. rewrite elem_of_set_add. intros [Hi|Hi]; [|by apply (Hf x)]. apply Hni. rewrite <- Hi. by apply list_elem_of_fmap_2.
    + apply IH in E as (-> & Hok & Hd & Hf). rewrite Forall_forall in Hf. split.
      * intros [= <-]. split_and!; try done; [by exists u| |].
        -- intros (x & Hx & Hin)%list_elem_of_fmap. apply (Hf x Hin). rewrite elem_of_set_add. auto.
        -- apply Forall_forall. intros x Hx Hi. apply (Hf x Hx). rewrite elem_of_set_add. auto.
      * by intros (-> & _).
Qed.

(** A name has no [@], so name and version are told from the identity. *)
Lemma at_split (i j v w : jsstr) : lacks 64 i = true → lacks 64 j = true → i ++ 64%N :: v = j ++ 64%N :: w → i = j ∧ v = w.
Proof.
  revert j. induction i as [|c i IH]; intros [|d j] Hi Hj; cbn in *; try done.
  - intros [= ->]. done.
  - intros [= <- _]. done.
  - intros [= -> _]. done.
  - apply andb_true_iff in Hi as [_ Hi], Hj as [_ Hj]. intros [= -> E]. by destruct (IH j Hi Hj E) as [-> ->].
Qed.

Lemma id_lacks i : moduleIdPattern i = true → lacks 64 i = true.
Proof.
  destruct i as [|c r]; [done|]. unfold moduleIdPattern. intros H1. bool_hyps. cbn. apply andb_true_iff. split; [unfold is_lower, is_digit in *; lia|].
  apply forallb_forall. intros x Hx. match goal with Hf : forallb _ r = true |- _ => rewrite forallb_forall in Hf; specialize (Hf x Hx) end.
  unfold is_lower, is_digit in *. lia.
Qed.

Lemma resolved_id curl e url : resolveExtensionArchiveUrl curl e = inr url → moduleIdPattern (member_text e "id") = true.
Proof. unfold resolveExtensionArchiveUrl. destruct (moduleIdPattern (member_text e "id")); [done|]. rewrite orb_true_r. by rewrite !orb_true_l. Qed.

Lemma names_distinct curl items : Forall (entry_passes curl) items → NoDup (identity <$> items) ↔ NoDup (name_of <$> items).
Proof.
  induction 1 as [|e items (_ & _ & u & He) Hok IH]; [by rewrite !fmap_nil, !NoDup_nil|]. rewrite !fmap_cons, !NoDup_cons, IH, !list_elem_of_fmap.
  assert ((∃ y, identity e = identity y ∧ y ∈ items) ↔ (∃ y, name_of e = name_of y ∧ y ∈ items)) as ->; [|done].
  rewrite Forall_forall in Hok. split; intros (y & Hy & Hin); exists y; (split; [|done]).
  - destruct (Hok y Hin) as (_ & _ & u' & Hu'). apply at_split in Hy as [H1 H2]; [|by eapply id_lacks, resolved_id..]. unfold name_of. by rewrite H1, H2.
  - unfold name_of in Hy. injection Hy as H1 H2. unfold identity. by rewrite H1, H2.
Qed.

Lemma entries_ok curl items : Forall (entry_passes curl) items ↔ Forall (entry_ok curl) items.
Proof. apply Forall_iff. intros e. apply entry_ok_spec. Qed.

(** C20: A catalogue is accepted exactly if it has the version, the purpose and
    a name, every entry is well formed ([entry_ok], which does not refer to the
    checks of the code), and no two entries have the same name and version; it
    is accepted with all its entries, in their order.  A well-formed entry of
    the official catalogue has a name and a version of the given alphabets and
    lengths, exactly the path built from them, a digest of 64 hexadecimal
    digits, an integral size of 1 to 104857600 bytes, a host, optional members
    of their types, and an address below the directory of the catalogue. *)
Theorem catalog_exact v curl c :
  parseExtensionCatalog v curl = inr c ↔
  ∃ x items, prop v "catalogVersion" = VNum x ∧ num_eqb x (of_Z 1) = true ∧ prop v "purpose" = VStr "extension-catalog" ∧
     prop v "name" = VStr (catalog_name c) ∧ trim (catalog_name c) ≠ [] ∧ prop v "modules" = VArr items ∧ modules c = items ∧
     Forall (entry_ok curl) items ∧ NoDup (name_of <$> items).
Proof.
  split.
  - intros E. unfold parseExtensionCatalog in E. destruct (prop v "catalogVersion") as [| | |x| | |]; try done. destruct (prop v "purpose") as [| | | |p| |]; try done.
    destruct (prop v "name") as [| | | |n| |]; try done. destruct (prop v "modules") as [| | | | |items|]; try done.
    destruct (num_eqb x (of_Z 1)) eqn:Hx, (str_eqb p "extension-catalog") eqn:Hp, (nonempty (trim n)) eqn:Hn; try done. cbn [andb] in E.
    destruct (catalog_modules curl [] items) as [m|l] eqn:Em; [done|]. injection E as <-. apply modules_exact in Em as (-> & Hok & Hd & _).
    pose proof (proj1 (names_distinct _ _ Hok) Hd) as Hd'. apply entries_ok in Hok.
    apply str_eqb_spec in Hp as ->. exists x, items. cbn [catalog_name modules]. split_and!; try done; by apply nonempty_spec.
  - intros (x & items & Hv & Hx & Hp & Hn & Hne & Hm & Hmod & Hok & Hd). unfold parseExtensionCatalog. rewrite Hv, Hp, Hn, Hm, Hx.
    apply nonempty_spec in Hne. rewrite Hne. unfold str_eqb. rewrite bool_decide_true by done. cbn [andb].
    assert (catalog_modules curl [] items = inr items) as ->.
    { apply entries_ok in Hok. apply modules_exact. split_and!; try done; [by eapply names_distinct|]. apply Forall_forall. intros y _ Hy. by apply not_elem_of_nil in Hy. }
    destruct c. by subst.
Qed.

End Market.

(** ** Example *)

(** The addresses below the catalogue, as the URL standard resolves them. *)
Definition market_parser : UrlParser := λ b t,
  if bool_decide (b = Some EXTENSION_CATALOG_URL)
  then let dir := "/moeacgx/maolaonewapi-extensions/main/"%js in
       let p := if str_eqb t "." then dir else dir ++ t in
       Some (MkWebURL "https:" "https://raw.githubusercontent.com" p [] [] ("https://raw.githubusercontent.com"%js ++ p))
  else None.

Definition sample_entry : value :=
  VObj [("id"%js, VStr "canvas"); ("name"%js, VStr "Canvas"); ("version"%js, VStr "1.0.2"); ("path"%js, VStr (archive_path "canvas" "1.0.2"));
        ("sha256"%js, VStr (replicate 64 48%N)); ("size"%js, VNum (of_Z 3)); ("host"%js, VObj [])].
Definition sample_catalog : value :=
  VObj [("catalogVersion"%js, VNum (of_Z 1)); ("purpose"%js, VStr "extension-catalog"); ("name"%js, VStr "Extensions"); ("modules"%js, VArr [sample_entry])].

Example sample_accepted :
  @parseExtensionCatalog market_parser sample_catalog EXTENSION_CATALOG_URL = inr (MkCatalog "Extensions" [sample_entry]) ∧
  @downloadExtensionArchive market_parser (λ _, replicate 32 0%N) true EXTENSION_CATALOG_URL sample_entry (of_Z 10)
    (inr (MkResponse true false [] (Some "3"%js) true)) [Chunk [1]%N; Chunk [2; 3]%N; Done] = Loaded (MkFile "canvas-1.0.2.zip" [1; 2; 3]%N).
Proof. split; vm_compute; reflexivity. Qed.

End ExtensionMarketFacts.
