(* ===== verification/UpstreamSync.v ===== *)
(** * Upstream price synchronisation
    ([web/src/features/system-settings/models/upstream-ratio-sync-helpers.ts],
    [upstream-ratio-sync.tsx], [upstream-ratio-sync-table.tsx])

    The console compares its prices with those of upstream sources, field by
    field, lets the administrator pick a value for every difference
    ([ResolutionsMap]), and writes the picked values into the price settings.
    A model is billed by a fixed price, by ratios, or by an expression; the
    operations below keep price and ratio values of a model apart.

    An object used as a map is a [gmap] where only its lookups matter and an
    association list where its order does.  Names that plain objects inherit
    are not fields or models. *)

From S2P Require Import Prelude JsString JsNumber JsValue JsMap.

Module UpstreamSync.

(** ** Fields *)

Definition RATIO_SYNC_FIELDS : list jsstr :=
  ["model_ratio"; "completion_ratio"; "cache_ratio"; "create_cache_ratio"; "image_ratio"; "audio_ratio";
   "audio_completion_ratio"]%js.

Definition SYNC_FIELD_ORDER : list jsstr :=
  RATIO_SYNC_FIELDS ++ ["model_price"; "model_price_unit"; "billing_mode"; "billing_expr"]%js.

Definition NUMERIC_SYNC_FIELDS : list jsstr := RATIO_SYNC_FIELDS ++ ["model_price"]%js.

Definition RATIO_TYPE_OPTIONS : list (jsstr * jsstr) :=
  [("Model ratio", "model_ratio"); ("Completion ratio", "completion_ratio"); ("Cache ratio", "cache_ratio");
   ("Create cache ratio", "create_cache_ratio"); ("Image ratio", "image_ratio"); ("Audio ratio", "audio_ratio");
   ("Audio completion ratio", "audio_completion_ratio"); ("Fixed price", "model_price");
   ("Price unit", "model_price_unit"); ("Expression billing", "billing_expr")]%js.

Definition getSyncFieldLabel (ratioType : jsstr) (t : jsstr → jsstr) : jsstr :=
  match list_find (λ o, o.2 = ratioType) RATIO_TYPE_OPTIONS with
  | Some (_, opt) => t opt.1
  | None => ratioType
  end.

(** ** Differences *)

Record RatioDifferenceEntry := MkEntry {
  current : value;
  upstreams : list (jsstr * value);
  confidence : list (jsstr * bool);
}.

Abbreviation RatioTypes := (list (jsstr * RatioDifferenceEntry)).
Abbreviation DifferencesMap := (list (jsstr * RatioTypes)).

(** [ratioTypes[field]?.upstreams?.[sourceName]] *)
Definition upstream_value (ratioTypes : RatioTypes) (field sourceName : jsstr) : value :=
  match map_get ratioTypes field with
  | Some e => default VUndef (map_get (upstreams e) sourceName)
  | None => VUndef
  end.

Definition isSelectableUpstreamValue (v : value) : bool :=
  match v with VUndef | VNull => false | VStr s => negb (str_eqb s "same") | _ => true end.

(** The filter matches everything. *)
Definition no_filter (filter : jsstr) : bool := negb (nonempty filter) || str_eqb filter "__all__".

Definition getOrderedRatioTypes (ratioTypes : RatioTypes) (filter : jsstr) : list jsstr :=
  let keys := ratioTypes.*1 in
  let ordered :=
    List.filter (λ f, bool_decide (f ∈ keys)) SYNC_FIELD_ORDER ++
    List.filter (λ f, negb (bool_decide (f ∈ SYNC_FIELD_ORDER))) keys in
  if no_filter filter then ordered else List.filter (λ f, str_eqb f filter) ordered.

Definition getPreferredSyncField (ratioTypes : RatioTypes) (ratioType sourceName : jsstr) : jsstr :=
  if negb (str_eqb ratioType "billing_expr") &&
     isSelectableUpstreamValue (upstream_value ratioTypes "billing_expr" sourceName)
  then "billing_expr"%js
  else ratioType.

Definition getVisibleRatioTypesForSource (ratioTypes : RatioTypes) (sourceName filter : jsstr) : list jsstr :=
  List.filter (λ ratioType, str_eqb (getPreferredSyncField ratioTypes ratioType sourceName) ratioType)
    (getOrderedRatioTypes ratioTypes filter).

Definition getAlignedRatioTypes (ratioTypes : RatioTypes) (sourceNames : list jsstr) (filter : jsstr) : list jsstr :=
  let ordered := getOrderedRatioTypes ratioTypes filter in
  match sourceNames with
  | [] => ordered
  | _ =>
    let visible := sourceNames ≫= λ sourceName, getVisibleRatioTypesForSource ratioTypes sourceName filter in
    List.filter (λ ratioType, bool_decide (ratioType ∈ visible)) ordered
  end.

Inductive BillingCategory := price | ratio | tiered.
#[global] Instance BillingCategory_eq_dec : EqDecision BillingCategory.
Proof. solve_decision. Defined.

Definition getBillingCategory (ratioType : jsstr) : BillingCategory :=
  if str_eqb ratioType "model_price" || str_eqb ratioType "model_price_unit" then price
  else if str_eqb ratioType "billing_mode" || str_eqb ratioType "billing_expr" then tiered
  else ratio.

Definition OFFICIAL_CHANNEL_NAME : jsstr := "官方倍率预设"%js.
Definition MODELS_DEV_PRESET_NAME : jsstr := "models.dev 价格预设"%js.

Definition getUpstreamDisplayName (sourceName : jsstr) : jsstr :=
  if str_eqb sourceName (OFFICIAL_CHANNEL_NAME ++ "(-100)")%js then OFFICIAL_CHANNEL_NAME
  else if str_eqb sourceName (MODELS_DEV_PRESET_NAME ++ "(-101)")%js then MODELS_DEV_PRESET_NAME
  else sourceName.

(** ** Resolutions *)

(** The picked values of a model, by field. *)
Abbreviation Resolution := (gmap jsstr value).
Abbreviation ResolutionsMap := (gmap jsstr Resolution).

(** [Number(v)] of a number or a text. *)
Definition to_number (v : value) : number :=
  match v with VNum x => x | VStr s => Number_of_string s | VNull => of_Z 0 | VBool b => of_Z (if b then 1 else 0) | _ => NaN end.

(** [===] of numbers and texts. *)
Definition strict_eqb (v w : value) : bool :=
  match v, w with VNum x, VNum y => num_eqb x y | VStr s, VStr u => str_eqb s u | _, _ => false end.

Definition isSelectedResolutionValue (resolutions : ResolutionsMap) (model ratioType : jsstr) (upstreamValue : value) : bool :=
  if negb (isSelectableUpstreamValue upstreamValue) then false
  else
    match resolutions !! model ≫= λ m, m !! ratioType with
    | None => false
    | Some selectedValue =>
      if bool_decide (ratioType ∈ NUMERIC_SYNC_FIELDS) then
        is_finite (to_number selectedValue) && is_finite (to_number upstreamValue) &&
        num_eqb (to_number selectedValue) (to_number upstreamValue)
      else strict_eqb selectedValue upstreamValue
    end.

Record ResolutionSelection := MkSelection {
  sel_model : jsstr;
  sel_type : jsstr;
  sel_value : value;
  sel_source : jsstr;
}.

(** [a ?? b] *)
Definition nullish (a b : value) : value := match a with VUndef | VNull => b | _ => a end.

Definition resolveResolutionSelection (differences : DifferencesMap) (s : ResolutionSelection) : ResolutionSelection :=
  let modelDiffs := default [] (map_get differences (sel_model s)) in
  let preferredType := getPreferredSyncField modelDiffs (sel_type s) (sel_source s) in
  let preferredValue :=
    if str_eqb preferredType (sel_type s) then sel_value s
    else nullish (upstream_value modelDiffs preferredType (sel_source s)) (sel_value s) in
  MkSelection (sel_model s) preferredType preferredValue (sel_source s).

(** Whether a picked field must go when one of category [c] is picked. *)
Definition conflicts (c : BillingCategory) (rt : jsstr) : bool :=
  negb (bool_decide (c = tiered)) && negb (bool_decide (getBillingCategory rt = tiered)) &&
  negb (bool_decide (getBillingCategory rt = c)).

(** The draft of a model after a selection. *)
Definition selection_draft (differences : DifferencesMap) (s : ResolutionSelection) (draft : Resolution) : Resolution :=
  let resolved := resolveResolutionSelection differences s in
  let finalType := sel_type resolved in
  let category := getBillingCategory finalType in
  let draft := filter (λ p, conflicts category p.1 = false) draft in
  let draft := <[finalType := sel_value resolved]> draft in
  match bool_decide (category = tiered), map_get differences (sel_model s) with
  | true, Some modelDiffs =>
    let modeVal := upstream_value modelDiffs "billing_mode" (sel_source s) in
    let exprVal := upstream_value modelDiffs "billing_expr" (sel_source s) in
    let draft :=
      if isSelectableUpstreamValue modeVal then <["billing_mode"%js := modeVal]> draft
      else if str_eqb finalType "billing_expr" then <["billing_mode"%js := VStr "tiered_expr"]> draft
      else draft in
    if isSelectableUpstreamValue exprVal then <["billing_expr"%js := exprVal]> draft else draft
  | _, _ => draft
  end.

Abbreviation Drafts := (list (jsstr * Resolution)).

Definition getDraftModelResolution (drafts : Drafts) (resolutions : ResolutionsMap) (model : jsstr) : Resolution :=
  match map_get drafts model with
  | Some draft => draft
  | None => default ∅ (resolutions !! model)
  end.

Definition applyResolutionSelectionToDraft (resolutions : ResolutionsMap) (differences : DifferencesMap)
    (drafts : Drafts) (s : ResolutionSelection) : Drafts :=
  map_set drafts (sel_model s)
    (selection_draft differences s (getDraftModelResolution drafts resolutions (sel_model s))).

(** A finished draft replaces the model's entry, or removes it when empty. *)
Definition put_draft (next : ResolutionsMap) (p : jsstr * Resolution) : ResolutionsMap :=
  if bool_decide (p.2 = ∅) then delete p.1 next else <[p.1 := p.2]> next.

Definition applyResolutionSelections (resolutions : ResolutionsMap) (differences : DifferencesMap)
    (selections : list ResolutionSelection) : ResolutionsMap :=
  match selections with
  | [] => resolutions
  | _ => fold_left put_draft (fold_left (applyResolutionSelectionToDraft resolutions differences) selections []) resolutions
  end.

Definition applyResolutionSelection (resolutions : ResolutionsMap) (differences : DifferencesMap)
    (s : ResolutionSelection) : ResolutionsMap :=
  applyResolutionSelections resolutions differences [s].

(** The selections in effect: the last one of a field counts, and a later
    category drives out the other one. *)
Definition effective_key (model ratioType : jsstr) : jsstr := model ++ 0%N :: ratioType.

Definition effective_step (differences : DifferencesMap) (m : list (jsstr * ResolutionSelection))
    (s : ResolutionSelection) : list (jsstr * ResolutionSelection) :=
  let resolved := resolveResolutionSelection differences s in
  let category := getBillingCategory (sel_type resolved) in
  let m := List.filter (λ p, negb (str_eqb (sel_model p.2) (sel_model resolved) && conflicts category (sel_type p.2))) m in
  map_set m (effective_key (sel_model resolved) (sel_type resolved)) resolved.

Definition getEffectiveResolutionSelections (differences : DifferencesMap) (selections : list ResolutionSelection) :
    list ResolutionSelection :=
  (fold_left (effective_step differences) selections []).*2.

(** ** Removals *)

Definition remove_field (draft : Resolution) (ratioType : jsstr) : Resolution :=
  let draft := delete ratioType draft in
  let draft := if str_eqb ratioType "billing_expr" then delete "billing_mode"%js draft else draft in
  if str_eqb ratioType "billing_mode" then delete "billing_expr"%js draft else draft.

Abbreviation ResolutionRemovalPlan := (list (jsstr * list jsstr)).

Definition plan_step (resolutions : ResolutionsMap) (next : ResolutionsMap) (p : jsstr * list jsstr) : ResolutionsMap :=
  match resolutions !! p.1 with
  | None => next
  | Some current => put_draft next (p.1, fold_left remove_field p.2 current)
  end.

Definition applyResolutionRemovalPlan (resolutions : ResolutionsMap) (plan : ResolutionRemovalPlan) : ResolutionsMap :=
  fold_left (plan_step resolutions) plan resolutions.

(** [set.add] *)
Definition plan_add (x : jsstr) (l : list jsstr) : list jsstr := if bool_decide (x ∈ l) then l else l ++ [x].

Definition applyResolutionRemovals (resolutions : ResolutionsMap) (removals : list (jsstr * jsstr)) : ResolutionsMap :=
  match removals with
  | [] => resolutions
  | _ =>
    applyResolutionRemovalPlan resolutions
      (fold_left (λ plan r, map_update plan r.1 [] (plan_add r.2)) removals [])
  end.

Definition deleteResolutionField (resolutions : ResolutionsMap) (model ratioType : jsstr) : ResolutionsMap :=
  applyResolutionRemovals resolutions [(model, ratioType)].

(** ** The page *)

(** [handleSelectValue] of the page, written out there a second time. *)
Definition handleSelectValue (differences : DifferencesMap) (s : ResolutionSelection) (prev : ResolutionsMap) : ResolutionsMap :=
  let modelDiffs := default [] (map_get differences (sel_model s)) in
  let preferredType :=
    if nonempty (sel_source s) then getPreferredSyncField modelDiffs (sel_type s) (sel_source s) else sel_type s in
  let finalValue :=
    if str_eqb preferredType (sel_type s) then sel_value s
    else nullish (upstream_value modelDiffs preferredType (sel_source s)) (sel_value s) in
  let category := getBillingCategory preferredType in
  let newModelRes := filter (λ p, conflicts category p.1 = false) (default ∅ (prev !! sel_model s)) in
  let newModelRes := <[preferredType := finalValue]> newModelRes in
  let newModelRes :=
    match bool_decide (category = tiered) && nonempty (sel_source s), map_get differences (sel_model s) with
    | true, Some modelDiffs =>
      let modeVal := upstream_value modelDiffs "billing_mode" (sel_source s) in
      let exprVal := upstream_value modelDiffs "billing_expr" (sel_source s) in
      let r :=
        if isSelectableUpstreamValue modeVal then <["billing_mode"%js := modeVal]> newModelRes
        else if str_eqb preferredType "billing_expr" then <["billing_mode"%js := VStr "tiered_expr"]> newModelRes
        else newModelRes in
      if isSelectableUpstreamValue exprVal then <["billing_expr"%js := exprVal]> r else r
    | _, _ => newModelRes
    end in
  <[sel_model s := newModelRes]> prev.

(** [handleUnselectValue], with the page's own [deleteResolutionField]. *)
Definition handleUnselectValue (model ratioType : jsstr) (res : ResolutionsMap) : ResolutionsMap :=
  match res !! model with
  | None => res
  | Some m =>
    let newModelRes := remove_field m ratioType in
    if bool_decide (newModelRes = ∅) then delete model res else <[model := newModelRes]> res
  end.

(** What the button of an upstream source picks: all its visible values. *)
Definition row_selections (filter upstreamName : jsstr) (row : jsstr * RatioTypes) : list ResolutionSelection :=
  omap (λ ratioType,
    let v := upstream_value row.2 ratioType upstreamName in
    if isSelectableUpstreamValue v then Some (MkSelection row.1 ratioType v upstreamName) else None)
    (getAlignedRatioTypes row.2 [upstreamName] filter).

Record UpstreamBulkSelectState := MkBulk {
  displayName : jsstr;
  selections : list ResolutionSelection;
  removalPlan : ResolutionRemovalPlan;
  selectableCount : nat;
  selectedCount : nat;
}.

Definition bulkSelectState (differences filteredData : DifferencesMap) (resolutions : ResolutionsMap)
    (filter upstreamName : jsstr) : UpstreamBulkSelectState :=
  let all := filteredData ≫= row_selections filter upstreamName in
  let effective := getEffectiveResolutionSelections differences all in
  MkBulk (getUpstreamDisplayName upstreamName) effective
    (fold_left (λ plan s, map_update plan (sel_model s) [] (plan_add (sel_type s))) all [])
    (length effective)
    (length (List.filter (λ s, isSelectedResolutionValue resolutions (sel_model s) (sel_type s) (sel_value s)) effective)).

(** ** Writing the settings *)

(** [word.charAt(0).toUpperCase() + word.slice(1)] for the field names' words. *)
Definition capitalize (word : jsstr) : jsstr :=
  match word with c :: r => (if ((97 <=? c) && (c <=? 122))%N then (c - 32)%N else c) :: r | [] => [] end.

Definition optionKeyBySyncField (ratioType : jsstr) : jsstr :=
  if str_eqb ratioType "billing_mode" then "billing_setting.billing_mode"%js
  else if str_eqb ratioType "billing_expr" then "billing_setting.billing_expr"%js
  else concat (capitalize <$> split_char 95 ratioType).

Definition RATIO_OPTIONS : list jsstr :=
  ["ModelRatio"; "CompletionRatio"; "CacheRatio"; "CreateCacheRatio"; "ImageRatio"; "AudioRatio"; "AudioCompletionRatio"]%js.
Definition FINAL_OPTIONS : list jsstr :=
  RATIO_OPTIONS ++ ["ModelPrice"; "ModelPriceUnit"; "billing_setting.billing_mode"; "billing_setting.billing_expr"]%js.

(** The settings: for every option the values of the models. *)
Abbreviation Ratios := (gmap jsstr (gmap jsstr value)).

Definition setting (r : Ratios) (key model : jsstr) : option value := r !! key ≫= λ m, m !! model.

Definition remove_model (options : list jsstr) (model : jsstr) (r : Ratios) : Ratios :=
  foldr (λ o, alter (delete model) o) r options.

(** [finalRatios[optionKey][model] = value]; [None] where the option is missing
    and the assignment throws. *)
Definition assign (model : jsstr) (r : option Ratios) (p : jsstr * value) : option Ratios :=
  let optionKey := optionKeyBySyncField p.1 in
  match r with
  | Some r =>
    match r !! optionKey with
    | Some m =>
      Some (<[optionKey := <[model := if bool_decide (p.1 ∈ NUMERIC_SYNC_FIELDS) then VNum (to_number p.2) else p.2]> m]> r)
    | None => None
    end
  | None => None
  end.

Definition sync_model (acc : option Ratios) (p : jsstr * Resolution) : option Ratios :=
  let selectedTypes := (map_to_list p.2).*1 in
  let hasPrice := bool_decide ("model_price"%js ∈ selectedTypes) in
  let hasRatio := existsb (λ rt, bool_decide (rt ∈ RATIO_SYNC_FIELDS)) selectedTypes in
  match acc with
  | Some r =>
    let r := if hasPrice then remove_model RATIO_OPTIONS p.1 r else r in
    let r := if hasRatio then remove_model ["ModelPrice"; "ModelPriceUnit"]%js p.1 r else r in
    fold_left (assign p.1) (map_to_list p.2) (Some r)
  | None => None
  end.

(** [performSync] up to its requests: the settings it writes. *)
Definition performSync (currentRatios : Ratios) (resolutions : ResolutionsMap) : option Ratios :=
  let finalRatios := list_to_map ((λ o, (o, default ∅ (currentRatios !! o))) <$> FINAL_OPTIONS) in
  fold_left sync_model (map_to_list resolutions) (Some finalRatios).

Definition getLocalBillingCategory (model : jsstr) (currentRatios : Ratios) : option BillingCategory :=
  if bool_decide (is_Some (setting currentRatios "ModelPrice" model)) then Some price
  else if existsb (λ o, bool_decide (is_Some (setting currentRatios o model))) RATIO_OPTIONS then Some ratio
  else None.

(** The category a model's picked values stand for. *)
Definition new_category (m : Resolution) : BillingCategory :=
  if bool_decide (is_Some (m !! "model_price"%js)) then price
  else if existsb (λ rt, bool_decide (is_Some (m !! rt))) RATIO_SYNC_FIELDS then ratio
  else tiered.

(** [handleApplySync]: the models for which the administrator is asked before
    the settings are written. *)
Definition sync_conflicts (currentRatios : Ratios) (resolutions : ResolutionsMap) : list jsstr :=
  omap (λ p,
    match getLocalBillingCategory p.1 currentRatios with
    | Some localCat =>
      if negb (bool_decide (new_category p.2 = tiered)) && negb (bool_decide (localCat = new_category p.2))
      then Some p.1 else None
    | None => None
    end) (map_to_list resolutions).

(** ** Steps of the page *)

Inductive resolution_step (differences : DifferencesMap) : ResolutionsMap → ResolutionsMap → Prop :=
  | step_select s r : resolution_step differences r (handleSelectValue differences s r)
  | step_select_all ss r : resolution_step differences r (applyResolutionSelections r differences ss)
  | step_unselect model rt r : resolution_step differences r (handleUnselectValue model rt r)
  | step_unselect_all plan r : resolution_step differences r (applyResolutionRemovalPlan r plan).
End UpstreamSync.
