(* ===== verification/UpstreamSyncFacts.v ===== *)
(** * Theorems on upstream price synchronisation

    A batch of selections is the selections one by one; the page's own copies
    of the operations agree with the shared ones; a model's picked values never
    mix a fixed price with ratios; picking all values of a source leaves nothing
    of it unpicked; and the settings written are exactly the picked values over
    the current ones, with the other billing mode cleared. *)

From S2P Require Import Prelude JsString JsNumber JsValue JsMap UpstreamSync.

Module UpstreamSyncFacts.
Import UpstreamSync.

(** ** Batches *)

Lemma draft_final d s m : is_Some (selection_draft d s m !! sel_type (resolveResolutionSelection d s)).
Proof.
  unfold selection_draft. set (ft := sel_type _). set (v := sel_value _). set (m1 := <[ft := v]> _).
  assert (is_Some (m1 !! ft)) as H by (unfold m1; rewrite lookup_insert_eq; eauto).
  assert (Hi : ∀ (k : jsstr) w (x : Resolution), is_Some (x !! ft) → is_Some (<[k := w]> x !! ft)).
  { intros k w x Hx. destruct (decide (k = ft)) as [->|]; [rewrite lookup_insert_eq; eauto|by rewrite lookup_insert_ne]. }
  destruct (bool_decide _); [|done]. destruct (map_get d (sel_model s)); [|done].
  destruct (isSelectableUpstreamValue _), (isSelectableUpstreamValue _), (str_eqb ft "billing_expr"); auto.
Qed.

Lemma draft_nonempty d s m : selection_draft d s m ≠ ∅.
Proof. intros E. destruct (draft_final d s m) as [v Hv]. by rewrite E, lookup_empty in Hv. Qed.

(** The resolutions as the drafts leave them. *)
Definition view (r : ResolutionsMap) (drafts : Drafts) : ResolutionsMap := fold_left put_draft drafts r.

Definition drafts_ok (drafts : Drafts) : Prop := NoDup drafts.*1 ∧ Forall (λ p, p.2 ≠ ∅) drafts.

Lemma view_lookup drafts r model : drafts_ok drafts →
  view r drafts !! model = match map_get drafts model with Some m => Some m | None => r !! model end.
Proof.
  unfold view, drafts_ok. revert r. induction drafts as [|[k m] drafts IH]; intros r [Hd Hn]; [done|].
  cbn [fmap list_fmap fst] in Hd. apply NoDup_cons in Hd as [Hk Hd]. apply Forall_cons in Hn as [Hm Hn].
  cbn [fold_left map_get]. rewrite IH by done. unfold put_draft. cbn [fst snd] in *. rewrite bool_decide_false by done.
  destruct (decide (k = model)) as [->|Hne].
  - apply map_get_None in Hk. rewrite Hk. by rewrite lookup_insert_eq.
  - destruct (map_get drafts model); [done|]. by rewrite lookup_insert_ne.
Qed.

Lemma map_set_forall {A} (P : A → Prop) (l : list (jsstr * A)) k v :
  P v → Forall (λ p, P p.2) l → Forall (λ p, P p.2) (map_set l k v).
Proof.
  intros Hv. induction l as [|[j w] l IH]; cbn; intros H; [by repeat constructor|].
  apply Forall_cons in H as [Hw H]. destruct (decide (j = k)); by constructor; auto.
Qed.

Lemma draft_step_ok r d drafts s : drafts_ok drafts → drafts_ok (applyResolutionSelectionToDraft r d drafts s).
Proof.
  intros [H1 H2]. split; [by apply map_set_NoDup|]. apply (map_set_forall (λ m, m ≠ ∅)); [apply draft_nonempty|done].
Qed.

Lemma view_step r d drafts s : drafts_ok drafts →
  view r (applyResolutionSelectionToDraft r d drafts s) =
  <[sel_model s := selection_draft d s (default ∅ (view r drafts !! sel_model s))]> (view r drafts).
Proof.
  intros H. apply map_eq. intros k. rewrite view_lookup by (by apply draft_step_ok).
  unfold applyResolutionSelectionToDraft. rewrite map_get_set.
  assert (getDraftModelResolution drafts r (sel_model s) = default ∅ (view r drafts !! sel_model s)) as ->.
  { rewrite view_lookup by done. unfold getDraftModelResolution. by destruct (map_get drafts (sel_model s)). }
  destruct (decide (k = sel_model s)) as [->|]; [by rewrite lookup_insert_eq|].
  rewrite lookup_insert_ne by done. by rewrite view_lookup.
Qed.

(** One selection. *)
Lemma selection_one r d s : applyResolutionSelection r d s =
  <[sel_model s := selection_draft d s (default ∅ (r !! sel_model s))]> r.
Proof. apply (view_step r d [] s). by split; constructor. Qed.

Lemma selections_fold r d ss :
  applyResolutionSelections r d ss = fold_left (λ r s, applyResolutionSelection r d s) ss r.
Proof.
  assert (G : ∀ drafts, drafts_ok drafts →
    view r (fold_left (applyResolutionSelectionToDraft r d) ss drafts) =
    fold_left (λ r s, applyResolutionSelection r d s) ss (view r drafts)).
  { induction ss as [|s ss IH]; intros drafts H; [done|]. cbn [fold_left].
    rewrite IH by (by apply draft_step_ok). rewrite view_step, selection_one by done. done. }
  destruct ss as [|s ss]; [done|]. apply (G []). by split; constructor.
Qed.

Lemma select_same d s r : nonempty (sel_source s) = true →
  handleSelectValue d s r = applyResolutionSelection r d s.
Proof.
  intros Hs. rewrite selection_one. unfold handleSelectValue, selection_draft, resolveResolutionSelection.
  rewrite Hs, andb_true_r. cbn [sel_type sel_value sel_model sel_source]. done.
Qed.

Lemma unselect_same model rt r : handleUnselectValue model rt r = deleteResolutionField r model rt.
Proof.
  unfold handleUnselectValue, deleteResolutionField, applyResolutionRemovals, applyResolutionRemovalPlan. cbn.
  unfold plan_step. cbn. by destruct (r !! model).
Qed.

(** Selecting a batch of values is selecting them one by one, and the
    page's own handlers for one value do what the shared helpers do. *)
Theorem selection_batch_exact r d ss :
  applyResolutionSelections r d ss = fold_left (λ r s, applyResolutionSelection r d s) ss r ∧
  (∀ s, nonempty (sel_source s) = true → handleSelectValue d s r = applyResolutionSelection r d s) ∧
  (∀ model rt, handleUnselectValue model rt r = deleteResolutionField r model rt).
Proof.
  split; [apply selections_fold|]. split; [intros s; apply select_same|]. intros. apply unselect_same.
Qed.

(** ** Price or ratios *)

Definition exclusive (m : Resolution) : Prop :=
  ∀ a b, is_Some (m !! a) → is_Some (m !! b) → getBillingCategory a = price → getBillingCategory b ≠ ratio.

(** Keys of [m'] are those of [m] or of [ks]. *)
Lemma exclusive_sub (m m' : Resolution) : (∀ k, is_Some (m' !! k) → is_Some (m !! k)) → exclusive m → exclusive m'.
Proof. unfold exclusive. eauto. Qed.

Lemma exclusive_insert_tiered (m : Resolution) k v : getBillingCategory k = tiered → exclusive m → exclusive (<[k := v]> m).
Proof.
  intros Hk H a b Ha Hb Ea Eb. assert (k ≠ a ∧ k ≠ b) as [? ?] by (split; congruence).
  rewrite lookup_insert_ne in Ha, Hb by done. by apply (H a b).
Qed.

Lemma exclusive_insert (m : Resolution) k v : exclusive m → 
  exclusive (<[k := v]> (filter (λ p, conflicts (getBillingCategory k) p.1 = false) m)).
Proof.
  intros H. destruct (getBillingCategory k) eqn:Ek.
  3: { apply exclusive_insert_tiered; [done|]. eapply exclusive_sub; [|done].
       intros j [w Hj]. apply map_lookup_filter_Some in Hj as [Hj _]. eauto. }
  all: intros a b Ha Hb Ea Eb.
  all: assert (Hc : ∀ j, is_Some (<[k := v]> (filter (λ p, conflicts (getBillingCategory k) p.1 = false) m) !! j) →
    getBillingCategory j = tiered ∨ getBillingCategory j = getBillingCategory k).
  1,3: intros j [w Hj]; destruct (decide (k = j)) as [->|]; [by right|]; rewrite lookup_insert_ne in Hj by done;
    apply map_lookup_filter_Some in Hj as [_ Hj]; unfold conflicts in Hj; cbn in Hj; rewrite Ek in *;
    destruct (getBillingCategory j); auto; by cbn in Hj.
  all: rewrite Ek in Hc; destruct (Hc _ Ha), (Hc _ Hb); congruence.
Qed.

Lemma billing_tiered : getBillingCategory "billing_mode" = tiered ∧ getBillingCategory "billing_expr" = tiered.
Proof. done. Qed.

(** Pairing the fields of an expression touches only those. *)
Lemma exclusive_pair (b1 b2 b3 : bool) (x y z : value) (m : Resolution) : exclusive m →
  exclusive (let m1 := if b1 then <["billing_mode"%js := x]> m else if b2 then <["billing_mode"%js := y]> m else m in
             if b3 then <["billing_expr"%js := z]> m1 else m1).
Proof. intros H. destruct b1, b2, b3; cbv zeta; repeat apply exclusive_insert_tiered; done. Qed.

Lemma exclusive_draft d s m : exclusive m → exclusive (selection_draft d s m).
Proof.
  intros H. unfold selection_draft. pose proof (exclusive_insert m (sel_type (resolveResolutionSelection d s))
    (sel_value (resolveResolutionSelection d s)) H) as Hi. cbv zeta.
  destruct (bool_decide _); [|done]. destruct (map_get d (sel_model s)); [|done]. by apply exclusive_pair.
Qed.

Lemma exclusive_handle d s r m : exclusive (default ∅ (r !! sel_model s)) →
  handleSelectValue d s r !! sel_model s = Some m → exclusive m ∧ m ≠ ∅.
Proof.
  intros H. unfold handleSelectValue. rewrite lookup_insert_eq. intros [= <-].
  set (pt := if nonempty (sel_source s) then _ else _). set (fv := if str_eqb pt (sel_type s) then _ else _).
  pose proof (exclusive_insert _ pt fv H) as Hi. set (m1 := <[pt := fv]> _) in *.
  assert (Hne : m1 ≠ ∅) by (apply insert_non_empty).
  destruct (bool_decide _ && _); [|done]. destruct (map_get d (sel_model s)); [|done].
  split; [by apply exclusive_pair|]. repeat case_match; try apply insert_non_empty; done.
Qed.

Lemma exclusive_empty : exclusive ∅.
Proof. intros a b [x Ha]. by rewrite lookup_empty in Ha. Qed.

Lemma exclusive_remove m rt : exclusive m → exclusive (remove_field m rt).
Proof.
  apply exclusive_sub. intros k. unfold remove_field.
  assert (Hd : ∀ j (x : Resolution), is_Some (delete j x !! k) → is_Some (x !! k)).
  { intros j x [w Hw]. apply lookup_delete_Some in Hw as [_ Hw]. eauto. }
  destruct (str_eqb rt "billing_mode"), (str_eqb rt "billing_expr"); eauto.
Qed.

Definition resolutions_ok (r : ResolutionsMap) : Prop := ∀ model m, r !! model = Some m → exclusive m ∧ m ≠ ∅.

Lemma ok_default r model : resolutions_ok r → exclusive (default ∅ (r !! model)).
Proof. intros H. destruct (r !! model) eqn:E; [by eapply H|apply exclusive_empty]. Qed.

Lemma ok_insert r model m : resolutions_ok r → exclusive m → m ≠ ∅ → resolutions_ok (<[model := m]> r).
Proof.
  intros H H1 H2 k x. destruct (decide (model = k)) as [->|].
  - rewrite lookup_insert_eq. by intros [= <-].
  - rewrite lookup_insert_ne by done. apply H.
Qed.

Lemma ok_put r model m : resolutions_ok r → exclusive m → resolutions_ok (put_draft r (model, m)).
Proof.
  intros H H1. unfold put_draft. cbn. case_bool_decide; [|by apply ok_insert].
  intros k x Hk. apply lookup_delete_Some in Hk as [_ Hk]. by eapply H.
Qed.

Lemma ok_selection r d s : resolutions_ok r → resolutions_ok (applyResolutionSelection r d s).
Proof.
  intros H. rewrite selection_one. apply ok_insert; [done| |apply draft_nonempty].
  by apply exclusive_draft, ok_default.
Qed.

Lemma ok_plan r plan : resolutions_ok r → resolutions_ok (applyResolutionRemovalPlan r plan).
Proof.
  intros Hr. unfold applyResolutionRemovalPlan.
  assert (∀ next, resolutions_ok next → resolutions_ok (fold_left (plan_step r) plan next)) as G; [|by apply G].
  induction plan as [|[model rts] plan IH]; intros next Hn; [done|]. cbn. apply IH. unfold plan_step. cbn.
  destruct (r !! model) as [m|] eqn:E; [|done]. apply ok_put; [done|].
  assert (exclusive m) as Hm by (by eapply Hr). clear -Hm. revert m Hm.
  induction rts as [|rt rts IH]; intros m Hm; [done|]. cbn. by apply IH, exclusive_remove.
Qed.

(** Whatever the administrator selects and unselects, one value at a time
    or all of a source, no model's picked values mix a fixed price with
    ratios, and a model without picked values has no entry. *)
Theorem resolutions_exclusive d r :
  rtc (resolution_step d) ∅ r → resolutions_ok r.
Proof.
  assert (resolutions_ok ∅) as H0 by (intros k m Hk; by rewrite lookup_empty in Hk). revert H0.
  generalize (∅ : ResolutionsMap). intros r0 H0. induction 1 as [|r0 r1 r2 H1 _ IH]; [done|]. apply IH.
  destruct H1 as [s r|ss r|model rt r|plan r].
  - intros k m Hk. destruct (decide (k = sel_model s)) as [->|Hne].
    + eapply exclusive_handle; [|done]. by apply ok_default.
    + unfold handleSelectValue in Hk. rewrite lookup_insert_ne in Hk by done. by eapply H0.
  - rewrite selections_fold. clear -H0. revert r H0. induction ss as [|s ss IH]; intros r H; [done|]. cbn.
    by apply IH, ok_selection.
  - rewrite unselect_same. by apply (ok_plan r [(model, [rt])]).
  - by apply ok_plan.
Qed.

(** ** All values of a source *)

Section Bulk.
Variables (d fd : DifferencesMap) (name fil : jsstr).

(** The rows shown are rows of the comparison. *)
Hypothesis rows : ∀ row, row ∈ fd → map_get d row.1 = Some row.2.

(** A value the comparison can recognise again. *)
Definition recognisable (rt : jsstr) (v : value) : bool :=
  if bool_decide (rt ∈ NUMERIC_SYNC_FIELDS) then is_finite (to_number v) else strict_eqb v v.
Hypothesis values : ∀ row rt, row ∈ fd → isSelectableUpstreamValue (upstream_value row.2 rt name) = true →
  recognisable rt (upstream_value row.2 rt name) = true.

(** What the source's button selects. *)
Definition offered (s : ResolutionSelection) : Prop :=
  ∃ rts, map_get d (sel_model s) = Some rts ∧ getPreferredSyncField rts (sel_type s) name = sel_type s ∧
    sel_value s = upstream_value rts (sel_type s) name ∧ isSelectableUpstreamValue (sel_value s) = true ∧
    sel_source s = name ∧ recognisable (sel_type s) (sel_value s) = true.

Lemma offered_all s : s ∈ fd ≫= row_selections fil name → offered s.
Proof.
  intros ([model rts] & Hs & Hrow)%list_elem_of_bind. unfold row_selections in Hs. cbn [fst snd] in Hs.
  apply list_elem_of_omap in Hs as (rt & Hrt & Hs). destruct (isSelectableUpstreamValue _) eqn:Ev; [|done].
  injection Hs as <-. exists rts. cbn [sel_model sel_type sel_value sel_source].
  split; [by apply (rows (model, rts))|]. split; [|repeat split; [done|by apply (values (model, rts))]].
  unfold getAlignedRatioTypes in Hrt. cbn in Hrt. rewrite app_nil_r in Hrt.
  apply list_elem_of_In, filter_In in Hrt as [_ Hrt]. apply bool_decide_eq_true in Hrt.
  unfold getVisibleRatioTypesForSource in Hrt. apply list_elem_of_In, filter_In in Hrt as [_ Hrt].
  by apply str_eqb_spec in Hrt.
Qed.

Lemma offered_resolved s : offered s → resolveResolutionSelection d s = s.
Proof.
  intros (rts & H1 & H2 & _ & _ & H5 & _). unfold resolveResolutionSelection. rewrite H1, H5. cbn [default]. unfold id.
  rewrite H2, (proj2 (str_eqb_spec _ _) eq_refl). destruct s. cbn in *. congruence.
Qed.

(** *** The selections in effect *)

Definition compatible (s1 s2 : ResolutionSelection) : Prop :=
  sel_model s1 = sel_model s2 → conflicts (getBillingCategory (sel_type s1)) (sel_type s2) = false.

Definition effective_ok (m : list (jsstr * ResolutionSelection)) : Prop :=
  NoDup m.*1 ∧ (∀ k s, (k, s) ∈ m → k = effective_key (sel_model s) (sel_type s) ∧ offered s) ∧
  ∀ k1 s1 k2 s2, (k1, s1) ∈ m → (k2, s2) ∈ m → compatible s1 s2.

Lemma conflicts_sym a b : conflicts (getBillingCategory a) b = conflicts (getBillingCategory b) a.
Proof. unfold conflicts. by destruct (getBillingCategory a), (getBillingCategory b). Qed.

Lemma conflicts_self a : conflicts (getBillingCategory a) a = false.
Proof. unfold conflicts. by destruct (getBillingCategory a). Qed.

Lemma map_set_elem {A} (l : list (jsstr * A)) k v p : p ∈ map_set l k v → p = (k, v) ∨ p ∈ l.
Proof.
  induction l as [|[j w] l IH]; cbn; [rewrite list_elem_of_singleton; auto|].
  destruct (decide (j = k)) as [->|]; rewrite !elem_of_cons; naive_solver.
Qed.

Lemma filter_NoDup_keys {A} (f : jsstr * A → bool) (l : list (jsstr * A)) : NoDup l.*1 → NoDup (List.filter f l).*1.
Proof.
  induction l as [|p l IH]; cbn; [done|]. rewrite NoDup_cons. intros [Hp Hl]. destruct (f p); [|auto].
  cbn. rewrite NoDup_cons. split; [|auto]. intros (q & E & Hq)%list_elem_of_fmap. apply Hp, list_elem_of_fmap.
  exists q. split; [done|]. apply list_elem_of_In, filter_In in Hq as [Hq _]. by apply list_elem_of_In.
Qed.

Lemma effective_step_ok m s : offered s → effective_ok m → effective_ok (effective_step d m s).
Proof.
  intros Hs (H1 & H2 & H3). unfold effective_step. rewrite offered_resolved by done.
  set (m1 := List.filter _ m).
  assert (Hm1 : ∀ k x, (k, x) ∈ m1 → (k, x) ∈ m ∧ compatible s x).
  { intros k x Hx. apply list_elem_of_In, filter_In in Hx as [Hx Hc]. split; [by apply list_elem_of_In|]. intros E.
    cbn in Hc. rewrite (proj2 (str_eqb_spec (sel_model x) (sel_model s)) (eq_sym E)) in Hc. cbn in Hc. by apply negb_true_iff. }
  split; [by apply map_set_NoDup, filter_NoDup_keys|]. split.
  - intros k x [[= -> ->]|Hx]%map_set_elem; [done|]. apply H2, (Hm1 k x Hx).
  - intros k1 s1 k2 s2 [[= -> ->]|Hx1]%map_set_elem [[= -> ->]|Hx2]%map_set_elem.
    + intros _. apply conflicts_self.
    + by apply (Hm1 k2 s2).
    + intros E. rewrite conflicts_sym. apply (Hm1 k1 s1 Hx1). done.
    + eapply H3; [apply (Hm1 k1 s1 Hx1)|apply (Hm1 k2 s2 Hx2)].
Qed.

Lemma effective_fold_ok ss m : Forall offered ss → effective_ok m → effective_ok (fold_left (effective_step d) ss m).
Proof.
  revert m. induction ss as [|s ss IH]; intros m Hs Hm; [done|]. apply Forall_cons in Hs as [Hs Hss].
  cbn. apply IH; [done|]. by apply effective_step_ok.
Qed.

Definition effective : list ResolutionSelection :=
  getEffectiveResolutionSelections d (fd ≫= row_selections fil name).

Lemma effective_spec :
  Forall offered effective ∧ NoDup ((λ s, (sel_model s, sel_type s)) <$> effective) ∧
  ∀ s1 s2, s1 ∈ effective → s2 ∈ effective → compatible s1 s2.
Proof.
  unfold effective, getEffectiveResolutionSelections.
  assert (effective_ok (fold_left (effective_step d) (fd ≫= row_selections fil name) [])) as (H1 & H2 & H3).
  { apply effective_fold_ok; [apply Forall_forall, offered_all|]. split; [constructor|]. split; intros; set_solver. }
  set (m := fold_left _ _ _) in *.
  assert (m.*1 = (λ p, effective_key p.1 p.2) <$> ((λ s, (sel_model s, sel_type s)) <$> m.*2)) as E.
  { rewrite <- !list_fmap_compose. apply list_fmap_ext. intros i [k s] Hi. cbn. apply (H2 k s).
    by eapply list_elem_of_lookup_2. }
  split; [|split].
  - apply Forall_forall. intros s ([k s'] & -> & Hs)%list_elem_of_fmap. apply (H2 k s' Hs).
  - rewrite E in H1. by eapply NoDup_fmap_1.
  - intros s1 s2 ([k1 s1'] & -> & Hs1)%list_elem_of_fmap ([k2 s2'] & -> & Hs2)%list_elem_of_fmap. by eapply H3.
Qed.

(** *** Applying them *)

Definition has (r : ResolutionsMap) (s : ResolutionSelection) : Prop :=
  r !! sel_model s ≫= (λ m, m !! sel_type s) = Some (sel_value s).

(** The pairing of an expression's fields writes what the source offers. *)
Lemma pair_keeps (rts : RatioTypes) (m : Resolution) (t' t : jsstr) (v : value) : v = upstream_value rts t name → isSelectableUpstreamValue v = true →
  m !! t = Some v →
  (let modeVal := upstream_value rts "billing_mode" name in
   let exprVal := upstream_value rts "billing_expr" name in
   let m := if isSelectableUpstreamValue modeVal then <["billing_mode"%js := modeVal]> m
            else if str_eqb t' "billing_expr" then <["billing_mode"%js := VStr "tiered_expr"]> m else m in
   if isSelectableUpstreamValue exprVal then <["billing_expr"%js := exprVal]> m else m) !! t = Some v.
Proof.
  intros Hv Hs Hm. cbv zeta.
  assert (Hput : ∀ k w (x : Resolution), (t = k → w = v) → x !! t = Some v → <[k := w]> x !! t = Some v).
  { intros k w x Hk Hx. destruct (decide (k = t)) as [->|]; [rewrite lookup_insert_eq; f_equal; by apply Hk|by rewrite lookup_insert_ne]. }
  destruct (isSelectableUpstreamValue (upstream_value rts "billing_expr" name)) eqn:E1;
    [apply Hput; [by intros ->|]|];
    (destruct (isSelectableUpstreamValue (upstream_value rts "billing_mode" name)) eqn:E2;
      [apply Hput; [by intros ->|done]|]; destruct (str_eqb t' "billing_expr"); [|done]; apply Hput; [|done];
      intros ->; congruence).
Qed.

Lemma select_has r s' s : offered s' → offered s → compatible s' s →
  s = s' ∨ (sel_model s, sel_type s) ≠ (sel_model s', sel_type s') ∧ has r s →
  has (applyResolutionSelection r d s') s.
Proof.
  intros Hs' (rts & H1 & _ & H3 & H4 & H5 & _) Hc Hor. unfold has. rewrite selection_one.
  destruct (decide (sel_model s = sel_model s')) as [Em|Em].
  - rewrite Em, lookup_insert_eq. cbn. unfold selection_draft. rewrite offered_resolved by done.
    destruct Hs' as (rts' & H1' & _ & _ & _ & H5' & _). rewrite <- Em, H1 in H1'. injection H1' as <-.
    rewrite <- Em, H1, H5'.
    set (m1 := <[sel_type s' := sel_value s']> _).
    assert (m1 !! sel_type s = Some (sel_value s)) as Hm.
    { unfold m1. destruct Hor as [->|[Hne Hh]]; [by rewrite lookup_insert_eq|].
      rewrite lookup_insert_ne by congruence. apply map_lookup_filter_Some. unfold has in Hh.
      destruct (r !! sel_model s) as [m|]; [|done]. split; [done|]. by apply Hc. }
    destruct (bool_decide _); [|done]. by apply (pair_keeps rts m1 (sel_type s') (sel_type s) (sel_value s)).
  - rewrite lookup_insert_ne by congruence. destruct Hor as [->|[_ Hh]]; [done|exact Hh].
Qed.

Lemma apply_has ss r s : Forall offered ss → NoDup ((λ s, (sel_model s, sel_type s)) <$> ss) →
  (∀ s1 s2, s1 ∈ ss → s2 ∈ ss → compatible s1 s2) → s ∈ ss →
  has (fold_left (λ r s, applyResolutionSelection r d s) ss r) s.
Proof.
  intros Ho Hd Hc Hs.
  assert (G : ∀ l r, (∀ x, x ∈ l → x ∈ ss) → NoDup ((λ s, (sel_model s, sel_type s)) <$> l) →
    s ∈ l ∨ has r s ∧ (sel_model s, sel_type s) ∉ ((λ s, (sel_model s, sel_type s)) <$> l) →
    has (fold_left (λ r s, applyResolutionSelection r d s) l r) s); [|apply G; auto].
  rewrite Forall_forall in Ho. clear r Hd. induction l as [|x l IH]; intros r Hl Hn Hor.
  { destruct Hor as [Hor|[? _]]; [by apply elem_of_nil in Hor|done]. }
  cbn [fmap list_fmap] in Hn, Hor. apply NoDup_cons in Hn as [Hx Hn].
  assert (offered x ∧ offered s ∧ compatible x s) as (Hox & Hos & Hcx).
  { assert (x ∈ ss) by (apply Hl; set_solver). repeat split; auto. }
  cbn [fold_left]. apply IH; [intros y Hy; apply Hl; set_solver|done|].
  destruct Hor as [[->|Hin]%elem_of_cons|[Hh [Hne Hnot]%not_elem_of_cons]].
  - right. split; [|done]. by apply select_has; [..|left].
  - by left.
  - right. split; [|done]. by apply select_has; [..|right].
Qed.

Lemma num_eqb_refl x : is_finite x = true → num_eqb x x = true.
Proof.
  destruct x as [s|s| |s m e]; try done. intros _. unfold num_eqb, SpecFloat.SFeqb, SpecFloat.SFcompare.
  rewrite Z.compare_refl. change (Pos.compare_cont Eq m m) with (m ?= m)%positive. rewrite Pos.compare_refl. by destruct s.
Qed.

Lemma has_selected r s : offered s → has r s → isSelectedResolutionValue r (sel_model s) (sel_type s) (sel_value s) = true.
Proof.
  intros (rts & _ & _ & _ & H4 & _ & H6) Hh. unfold isSelectedResolutionValue. rewrite H4. cbn [negb].
  unfold has in Hh. rewrite Hh. unfold recognisable in H6. destruct (bool_decide _); [|done].
  by rewrite H6, num_eqb_refl.
Qed.

(** After the button of a source was pressed, everything the source has to
    offer counts as selected: the button's counter is full, whatever had been
    picked before. *)
Theorem bulk_select_complete r :
  let b := bulkSelectState d fd r fil name in
  let r' := applyResolutionSelections r d (selections b) in
  selectedCount (bulkSelectState d fd r' fil name) = selectableCount (bulkSelectState d fd r' fil name) ∧
  ∀ s, s ∈ selections b → has r' s.
Proof.
  cbv zeta. unfold bulkSelectState. cbn [selections selectedCount selectableCount]. fold effective.
  destruct effective_spec as (E1 & E2 & E3). rewrite selections_fold.
  set (r' := fold_left _ _ _). assert (Hh : ∀ s, s ∈ effective → has r' s) by (intros s Hs; by apply apply_has).
  split; [|done]. f_equal. rewrite Forall_forall in E1.
  assert (G : ∀ l, (∀ s, s ∈ l → s ∈ effective) →
    List.filter (λ s, isSelectedResolutionValue r' (sel_model s) (sel_type s) (sel_value s)) l = l); [|by apply G].
  induction l as [|s l IH]; intros Hl; [done|]. cbn. rewrite has_selected by (apply E1 || apply Hh; apply Hl; set_solver).
  f_equal. apply IH. intros x Hx. apply Hl. set_solver.
Qed.
End Bulk.

(** ** The settings written *)

Definition converted (f : jsstr) (v : value) : value :=
  if bool_decide (f ∈ NUMERIC_SYNC_FIELDS) then VNum (to_number v) else v.
Definition price_picked (m : Resolution) : bool := bool_decide (is_Some (m !! "model_price"%js)).
Definition ratio_picked (m : Resolution) : bool := existsb (λ f, bool_decide (is_Some (m !! f))) RATIO_SYNC_FIELDS.

(** Whether the picked values of a model clear its setting of field [f]. *)
Definition cleared (m : Resolution) (f : jsstr) : bool :=
  price_picked m && bool_decide (f ∈ RATIO_SYNC_FIELDS) ||
  ratio_picked m && bool_decide (f ∈ ["model_price"; "model_price_unit"]%js).

(** A model's setting of field [f] after the synchronisation. *)
Definition synced (m : Resolution) (f : jsstr) (old : option value) : option value :=
  match m !! f with
  | Some v => Some (converted f v)
  | None => if cleared m f then None else old
  end.

Definition field (R : Ratios) (f model : jsstr) : option value := setting R (optionKeyBySyncField f) model.
Definition complete (R : Ratios) : Prop := ∀ f, f ∈ SYNC_FIELD_ORDER → is_Some (R !! optionKeyBySyncField f).

Lemma option_keys_distinct : NoDup (optionKeyBySyncField <$> SYNC_FIELD_ORDER).
Proof. apply (bool_decide_unpack _). vm_compute. exact I. Qed.

Lemma option_key_inj f g : f ∈ SYNC_FIELD_ORDER → g ∈ SYNC_FIELD_ORDER →
  optionKeyBySyncField f = optionKeyBySyncField g → f = g.
Proof.
  intros [i Hi]%list_elem_of_lookup [j Hj]%list_elem_of_lookup E.
  assert (i = j) as ->; [|congruence].
  eapply (NoDup_lookup _ i j _ option_keys_distinct); rewrite list_lookup_fmap.
  - by rewrite Hi.
  - rewrite Hj. cbn. by rewrite E.
Qed.

Lemma remove_model_setting options model R o x :
  setting (remove_model options model R) o x =
  if bool_decide (x = model) && bool_decide (o ∈ options) then None else setting R o x.
Proof.
  unfold remove_model, setting. induction options as [|p options IH]; cbn [foldr].
  { rewrite (bool_decide_false (o ∈ [])) by apply not_elem_of_nil. by rewrite andb_false_r. }
  destruct (decide (o = p)) as [->|Hne].
  - rewrite lookup_alter_eq. rewrite (bool_decide_true (p ∈ p :: options)) by (left; done). rewrite andb_true_r.
    revert IH. destruct (foldr _ R options !! p) as [m|]; cbn; intros IH.
    + case_bool_decide as E.
      * subst. by rewrite lookup_delete_eq.
      * rewrite lookup_delete_ne by done. rewrite IH. done.
    + case_bool_decide; [done|]. by rewrite IH.
  - rewrite lookup_alter_ne by done. rewrite IH.
    by rewrite (bool_decide_ext (o ∈ p :: options) (o ∈ options)) by (rewrite elem_of_cons; naive_solver).
Qed.

Lemma remove_model_complete options model R : complete R → complete (remove_model options model R).
Proof.
  intros H f Hf. unfold remove_model. induction options as [|p options IH]; cbn; [by apply H|].
  destruct (decide (optionKeyBySyncField f = p)) as [<-|Hne]; [|by rewrite lookup_alter_ne].
  rewrite lookup_alter_eq. by apply fmap_is_Some.
Qed.

Lemma assign_all model (fs : list (jsstr * value)) R : complete R → NoDup fs.*1 → (∀ f, f ∈ fs.*1 → f ∈ SYNC_FIELD_ORDER) →
  ∃ R', fold_left (assign model) fs (Some R) = Some R' ∧ complete R' ∧
  ∀ f x, f ∈ SYNC_FIELD_ORDER →
    field R' f x = match (list_to_map fs : Resolution) !! f with
                   | Some v => if decide (x = model) then Some (converted f v) else field R f x
                   | None => field R f x
                   end.
Proof.
  revert R. induction fs as [|[g v] fs IH]; intros R HR Hd Hf; [by exists R|].
  cbn [fmap list_fmap fst] in Hd, Hf. apply NoDup_cons in Hd as [Hg Hd].
  assert (g ∈ SYNC_FIELD_ORDER) as Hgs by (apply Hf; set_solver).
  destruct (HR g Hgs) as [m Hm]. cbn [fold_left assign]. cbn [fst snd]. rewrite Hm.
  set (R1 := <[_ := _]> R). destruct (IH R1) as (R' & E & HR' & Hs); [| |intros f Hff; apply Hf; by right|].
  { intros f Hff. unfold R1. destruct (decide (optionKeyBySyncField g = optionKeyBySyncField f)) as [->|].
    - rewrite lookup_insert_eq. eauto.
    - rewrite lookup_insert_ne by done. by apply HR. }
  { done. }
  exists R'. split; [exact E|]. split; [done|]. intros f x Hff. rewrite Hs by done. cbn [list_to_map foldr].
  assert (Hfield : field R1 f x = if decide (f = g) then (if decide (x = model) then Some (converted g v) else field R f x) else field R f x).
  { unfold field, setting, R1. destruct (decide (f = g)) as [->|Hne].
    - rewrite lookup_insert_eq, Hm. cbn. destruct (decide (x = model)) as [->|].
      + by rewrite lookup_insert_eq.
      + by rewrite lookup_insert_ne.
    - rewrite lookup_insert_ne; [done|]. intros Hk. apply Hne. symmetry. by apply option_key_inj. }
  rewrite Hfield. cbn [uncurry fst snd]. destruct (decide (f = g)) as [->|Hne].
  - rewrite lookup_insert_eq. rewrite not_elem_of_list_to_map_1 by done. done.
  - rewrite lookup_insert_ne by done. done.
Qed.

Lemma keys_of (m : Resolution) f : f ∈ (map_to_list m).*1 ↔ is_Some (m !! f).
Proof.
  rewrite list_elem_of_fmap. split.
  - intros ([k v] & -> & H). apply elem_of_map_to_list in H. eauto.
  - intros [v H]. exists (f, v). by rewrite elem_of_map_to_list.
Qed.

Lemma picked_ratio m : existsb (λ rt, bool_decide (rt ∈ RATIO_SYNC_FIELDS)) (map_to_list m).*1 = ratio_picked m.
Proof.
  apply Bool.eq_iff_eq_true. unfold ratio_picked. rewrite !existsb_exists. split; intros (f & H1 & H2); exists f.
  - apply list_elem_of_In, keys_of in H1. apply bool_decide_eq_true in H2.
    split; [by apply list_elem_of_In|by apply bool_decide_eq_true].
  - apply list_elem_of_In in H1. apply bool_decide_eq_true, keys_of in H2.
    split; [by apply list_elem_of_In|by apply bool_decide_eq_true].
Qed.

Definition known (m : Resolution) : Prop := ∀ f, is_Some (m !! f) → f ∈ SYNC_FIELD_ORDER.

Lemma in_options (fs : list jsstr) f : f ∈ SYNC_FIELD_ORDER → (∀ g, g ∈ fs → g ∈ SYNC_FIELD_ORDER) →
  bool_decide (optionKeyBySyncField f ∈ optionKeyBySyncField <$> fs) = bool_decide (f ∈ fs).
Proof.
  intros Hf Hfs. apply bool_decide_ext. rewrite list_elem_of_fmap. split; [|eauto].
  intros (g & E & Hg). rewrite (option_key_inj f g); auto.
Qed.

Lemma price_fields_known g : g ∈ ["model_price"; "model_price_unit"]%js → g ∈ SYNC_FIELD_ORDER.
Proof.
  intros H. repeat (apply elem_of_cons in H as [->|H]; [apply (bool_decide_unpack _); vm_compute; exact I|]).
  by apply elem_of_nil in H.
Qed.

Lemma sync_model_spec R model m : complete R → known m →
  ∃ R', sync_model (Some R) (model, m) = Some R' ∧ complete R' ∧
  ∀ f x, f ∈ SYNC_FIELD_ORDER → field R' f x = if decide (x = model) then synced m f (field R f x) else field R f x.
Proof.
  intros HR Hm. unfold sync_model. cbn [fst snd]. rewrite picked_ratio.
  assert (bool_decide ("model_price"%js ∈ (map_to_list m).*1) = price_picked m) as -> by (apply bool_decide_ext, keys_of).
  set (R1 := if price_picked m then remove_model RATIO_OPTIONS model R else R).
  set (R2 := if ratio_picked m then _ else R1).
  assert (complete R2) as HR2.
  { unfold R2, R1. destruct (ratio_picked m), (price_picked m); auto using remove_model_complete. }
  destruct (assign_all model (map_to_list m) R2 HR2) as (R' & E & HR' & Hs).
  { apply NoDup_fst_map_to_list. }
  { intros f Hf. by apply Hm, keys_of. }
  exists R'. split; [exact E|]. split; [done|]. intros f x Hf. rewrite Hs, list_to_map_to_list by done.
  assert (field R2 f x = if decide (x = model) then (if cleared m f then None else field R f x) else field R f x) as H2.
  { change RATIO_OPTIONS with (optionKeyBySyncField <$> RATIO_SYNC_FIELDS) in R1.
    change ["ModelPrice"%js; "ModelPriceUnit"%js] with (optionKeyBySyncField <$> ["model_price"; "model_price_unit"]%js) in R2.
    assert (Hin1 := in_options RATIO_SYNC_FIELDS f Hf ltac:(intros g Hg; apply elem_of_app; by left)).
    assert (Hin2 := in_options ["model_price"; "model_price_unit"]%js f Hf price_fields_known).
    unfold field, R2, R1, cleared. destruct (ratio_picked m), (price_picked m); cbn [andb orb];
      rewrite ?remove_model_setting, ?Hin1, ?Hin2; destruct (decide (x = model)) as [Ex|Ex];
      rewrite ?(bool_decide_true (x = model)), ?(bool_decide_false (x = model)) by done; cbn [andb orb]; rewrite ?orb_false_r; try done.
    destruct (bool_decide (f ∈ ["model_price"%js; _])), (bool_decide (f ∈ RATIO_SYNC_FIELDS)); done. }
  rewrite H2. unfold synced. destruct (m !! f); by destruct (decide (x = model)).
Qed.

Lemma sync_fold (l : list (jsstr * Resolution)) R : complete R → NoDup l.*1 → Forall (λ p, known p.2) l →
  ∃ R', fold_left sync_model l (Some R) = Some R' ∧ complete R' ∧
  ∀ f x, f ∈ SYNC_FIELD_ORDER →
    field R' f x = match (list_to_map l : ResolutionsMap) !! x with Some m => synced m f (field R f x) | None => field R f x end.
Proof.
  revert R. induction l as [|[model m] l IH]; intros R HR Hd Hk; [by exists R|].
  cbn [fmap list_fmap fst] in Hd. apply NoDup_cons in Hd as [Hg Hd]. apply Forall_cons in Hk as [Hm Hk].
  destruct (sync_model_spec R model m HR Hm) as (R1 & E1 & HR1 & Hs1). cbn [fold_left]. rewrite E1.
  destruct (IH R1 HR1 Hd Hk) as (R' & E & HR' & Hs). exists R'. split; [done|]. split; [done|].
  intros f x Hf. rewrite Hs, Hs1 by done. cbn [list_to_map foldr uncurry fst snd].
  destruct (decide (x = model)) as [->|].
  - rewrite lookup_insert_eq. by rewrite not_elem_of_list_to_map_1.
  - by rewrite lookup_insert_ne.
Qed.

(** The settings the synchronisation starts from. *)
Lemma initial_settings (cur : Ratios) :
  let R : Ratios := list_to_map ((λ o, (o, default ∅ (cur !! o))) <$> FINAL_OPTIONS) in
  complete R ∧ ∀ f x, f ∈ SYNC_FIELD_ORDER → field R f x = field cur f x.
Proof.
  cbv zeta. set (R := list_to_map _ : Ratios).
  assert (Hl : ∀ f, f ∈ SYNC_FIELD_ORDER → R !! optionKeyBySyncField f = Some (default ∅ (cur !! optionKeyBySyncField f))).
  { intros f Hf. unfold R. apply elem_of_list_to_map_1.
    - exact option_keys_distinct.
    - change FINAL_OPTIONS with (optionKeyBySyncField <$> SYNC_FIELD_ORDER). rewrite <- list_fmap_compose.
      apply list_elem_of_fmap. by exists f. }
  split; [intros f Hf; rewrite Hl by done; eauto|]. intros f x Hf. unfold field, setting. rewrite Hl by done. cbn.
  by destruct (cur !! optionKeyBySyncField f).
Qed.

(** A model is not billed by price and by ratios at once. *)
Definition exclusive_settings (R : Ratios) : Prop :=
  ∀ model f, is_Some (field R "model_price" model) → f ∈ RATIO_SYNC_FIELDS → field R f model = None.

Lemma category_ratio f : f ∈ RATIO_SYNC_FIELDS → getBillingCategory f = ratio.
Proof. intros H. repeat (apply elem_of_cons in H as [->|H]; [done|]). by apply elem_of_nil in H. Qed.

Lemma synced_exclusive m (old : jsstr → option value) : exclusive m →
  (∀ f, is_Some (old "model_price"%js) → f ∈ RATIO_SYNC_FIELDS → old f = None) →
  ∀ f, is_Some (synced m "model_price" (old "model_price"%js)) → f ∈ RATIO_SYNC_FIELDS → synced m f (old f) = None.
Proof.
  intros Hm Hold f Hp Hf. unfold synced in *.
  destruct (m !! f) as [w|] eqn:Ef.
  - exfalso. assert (ratio_picked m = true) as Hr.
    { apply existsb_exists. exists f. split; [by apply list_elem_of_In|]. apply bool_decide_eq_true. eauto. }
    destruct (m !! "model_price"%js) as [v|] eqn:Ev.
    + apply (Hm "model_price"%js f); eauto using category_ratio.
    + unfold cleared in Hp. rewrite Hr in Hp. cbn in Hp. rewrite orb_true_r in Hp. by destruct Hp.
  - unfold cleared. rewrite (bool_decide_true (f ∈ RATIO_SYNC_FIELDS)) by done. rewrite andb_true_r.
    destruct (price_picked m) eqn:Epp; [done|].
    assert (m !! "model_price"%js = None) as Ev.
    { unfold price_picked in Epp. apply bool_decide_eq_false in Epp. by apply eq_None_not_Some. }
    rewrite Ev in Hp. cbn [orb]. destruct (ratio_picked m && _); [done|].
    apply Hold; [|done]. by destruct (cleared m "model_price"); [destruct Hp|].
Qed.

(** The synchronisation never fails on known fields and writes exactly the
    picked values: a picked field gets its value (as a number for numeric
    fields), the fields of the other way of billing are cleared for a model
    whose price or ratios were picked, and everything else stays.  If no model
    had both a price and ratios before, none has afterwards. *)
Theorem sync_exact cur r :
  (∀ model m, r !! model = Some m → known m) →
  ∃ final, performSync cur r = Some final ∧
    (∀ f model, f ∈ SYNC_FIELD_ORDER →
      field final f model = match r !! model with Some m => synced m f (field cur f model) | None => field cur f model end) ∧
    (resolutions_ok r → exclusive_settings cur → exclusive_settings final).
Proof.
  intros Hk. unfold performSync. destruct (initial_settings cur) as [HR Hinit].
  destruct (sync_fold (map_to_list r) _ HR) as (final & E & _ & Hs).
  { apply NoDup_fst_map_to_list. }
  { apply Forall_forall. intros [model m] Hm. apply elem_of_map_to_list in Hm. by eapply Hk. }
  exists final. split; [exact E|]. rewrite list_to_map_to_list in Hs.
  assert (Hfinal : ∀ f model, f ∈ SYNC_FIELD_ORDER → field final f model =
    match r !! model with Some m => synced m f (field cur f model) | None => field cur f model end).
  { intros f model Hf. rewrite Hs, Hinit by done. done. }
  split; [exact Hfinal|]. intros Hok Hcur model f Hp Hf.
  assert (f ∈ SYNC_FIELD_ORDER) as Hfo by (apply elem_of_app; by left).
  rewrite Hfinal in Hp by (apply elem_of_app; right; left; done). rewrite Hfinal by done.
  destruct (r !! model) as [m|] eqn:Em; [|by apply (Hcur model)].
  apply (synced_exclusive m (λ f, field cur f model)); [by eapply Hok| |done|done]. intros g. apply Hcur.
Qed.

(** ** Witnesses *)

Definition sample_differences : DifferencesMap :=
  [("gpt"%js, [("model_ratio"%js, MkEntry (VNum (of_Z 1)) [("up"%js, VNum (of_Z 2))] []);
               ("model_price"%js, MkEntry VNull [("up"%js, VNum (of_Z 3))] [])])].
Definition sample_resolutions : ResolutionsMap :=
  applyResolutionSelections ∅ sample_differences [MkSelection "gpt" "model_ratio" (VNum (of_Z 2)) "up"].

Lemma selection_batch_exact_witness :
  handleSelectValue sample_differences (MkSelection "gpt" "model_price" (VNum (of_Z 3)) "up") sample_resolutions =
  applyResolutionSelection sample_resolutions sample_differences (MkSelection "gpt" "model_price" (VNum (of_Z 3)) "up").
Proof. apply (selection_batch_exact sample_resolutions sample_differences []). reflexivity. Defined.

Lemma resolutions_exclusive_witness : resolutions_ok sample_resolutions.
Proof. apply (resolutions_exclusive sample_differences). apply rtc_once. apply step_select_all. Defined.

Lemma bulk_select_complete_witness :
  let b := bulkSelectState sample_differences sample_differences sample_resolutions [] "up" in
  let r' := applyResolutionSelections sample_resolutions sample_differences (selections b) in
  selectedCount (bulkSelectState sample_differences sample_differences r' [] "up") =
  selectableCount (bulkSelectState sample_differences sample_differences r' [] "up").
Proof.
  apply (bulk_select_complete sample_differences sample_differences "up" []).
  - intros row Hrow. apply list_elem_of_singleton in Hrow as ->. reflexivity.
  - intros row rt Hrow. apply list_elem_of_singleton in Hrow as ->. unfold upstream_value. cbn [map_get snd].
    destruct (decide ("model_ratio"%js = rt)) as [<-|]; [vm_compute; reflexivity|].
    destruct (decide ("model_price"%js = rt)) as [<-|]; [vm_compute; reflexivity|discriminate].
Defined.

Definition picked_ratio_only : ResolutionsMap := {[ "gpt"%js := {[ "model_ratio"%js := VNum (of_Z 2) ]} ]}.

Lemma sync_exact_witness :
  ∃ final, performSync {[ "ModelPrice"%js := {[ "gpt"%js := VNum (of_Z 3) ]} ]} picked_ratio_only = Some final ∧
    field final "model_ratio" "gpt" = Some (VNum (of_Z 2)) ∧ field final "model_price" "gpt" = None.
Proof.
  destruct (sync_exact {[ "ModelPrice"%js := {[ "gpt"%js := VNum (of_Z 3) ]} ]} picked_ratio_only) as (final & E & Hf & _).
  - intros model m Hm f [v Hv]. unfold picked_ratio_only in Hm. apply lookup_singleton_Some in Hm as [_ <-]. apply lookup_singleton_Some in Hv as [<- _].
    apply (bool_decide_unpack _). vm_compute. exact I.
  - exists final. split; [exact E|]. rewrite !Hf by (apply (bool_decide_unpack _); vm_compute; exact I).
    split; vm_compute; reflexivity.
Defined.
End UpstreamSyncFacts.
