(* ===== verification/SensitiveRules.v ===== *)
(** * Sensitive word rules
    ([web/src/features/system-settings/request-limits/sensitive-rule-config.ts])

    The rules that mask or block sensitive words are edited as drafts and kept
    as JSON text.  What JSON holds may be anything, so the fields of a draft
    that are copied without a check are values; an operation that may throw on
    them returns an option.  Case folding ([lower]) and [nanoid], which is
    called for the rule at a given position, are parameters. *)

From S2P Require Import Prelude JsString JsNumber JsValue JsMap.

Module SensitiveRules.

Definition ACTION_MASK : jsstr := "mask".
Definition ACTION_BLOCK : jsstr := "block".
Definition SCOPE_REQUEST : jsstr := "request".
Definition SCOPE_RESPONSE : jsstr := "response".
Definition SCOPE_BOTH : jsstr := "both".
Definition TARGET_CHANNEL_TAGS : jsstr := "channel_tags".
Definition TARGET_ROUTES : jsstr := "routes".
Definition TARGET_ALL : jsstr := "all".
Definition DEFAULT_REPLACEMENT : jsstr := "[REDACTED]".

Record SensitiveRuleDraft := MkDraft {
  draft_id : value;
  draft_name : value;
  enabled : value;
  action : jsstr;
  scope : jsstr;
  replacement : value;
  keywordsText : jsstr;
  groupRefs : list jsstr;
  targetType : jsstr;
  channelIds : list value;
  channelTags : list jsstr;
  groupCodes : list jsstr;
}.

Record SensitiveRouteOption := MkOption {
  opt_value : jsstr;
  opt_label : jsstr;
}.

(** ** Lists *)

(** [value.replaceAll('\r\n', '\n')] *)
Fixpoint replace_crlf (s : jsstr) : jsstr :=
  match s with
  | 13%N :: (10%N :: r) => 10%N :: replace_crlf r
  | c :: r => c :: replace_crlf r
  | [] => []
  end.

(** [Number.parseInt(s, 10)] *)
Definition parseInt10 (s : jsstr) : number :=
  let s := trim_start s in
  let '(neg, r) := match s with 45%N :: r => (true, r) | 43%N :: r => (false, r) | _ => (false, s) end in
  match (span is_digit r).1 with [] => NaN | ds => dec_to_num neg (digits_val ds) 0 end.

Definition route_id (v : value) : number :=
  match v with VNum x => x | _ => parseInt10 (trim (to_string v)) end.

Definition valid_route_id (x : number) : bool := is_integer x && negb (num_leb x (of_Z 0)).

Definition normalizeSensitiveRouteIds (ids : list value) : list number :=
  sort_by num_sub (distinct_by id [] (List.filter valid_route_id (route_id <$> ids))).

Definition normalizeSensitiveChannelTags (tags : list value) : list jsstr :=
  sort_strings (distinct_by id [] (List.filter nonempty ((λ v, trim (to_string (or_empty v))) <$> tags))).

Definition parseSensitiveRuleChannelIds (raw : option jsstr) : list number :=
  let trimmed := default [] (trim <$> raw) in
  if negb (nonempty trimmed) then []
  else match JSON_parse trimmed with
       | Some (VArr vs) => normalizeSensitiveRouteIds vs
       | _ => []
       end.

(** The options and those selected that are not among them. *)
Definition include_missing (options : list SensitiveRouteOption) (selected : list jsstr) (label : jsstr → jsstr) :
    list SensitiveRouteOption :=
  options ++ ((λ v, MkOption v (label v)) <$> List.filter (λ v, negb (bool_decide (v ∈ opt_value <$> options))) selected).

Definition includeMissingSensitiveRouteOptions (options : list SensitiveRouteOption) (selectedIds : list value)
    (missingLabel : jsstr) : list SensitiveRouteOption :=
  include_missing options (num_to_string <$> normalizeSensitiveRouteIds selectedIds) (λ v, missingLabel ++ " #" ++ v).

Definition includeMissingSensitiveTagOptions (options : list SensitiveRouteOption) (selectedTags : list jsstr)
    (missingLabel : jsstr) : list SensitiveRouteOption :=
  include_missing options (normalizeSensitiveChannelTags (VStr <$> selectedTags)) (λ v, missingLabel ++ ": " ++ v).

Section Rules.
Context (lower : jsstr → jsstr) (nanoid : nat → jsstr).

Definition splitSensitiveKeywords (s : jsstr) : list jsstr :=
  distinct_by lower [] (List.filter nonempty (trim <$> split_char 10 (replace_crlf s))).

Definition normalizeSensitiveGroupCodes (codes : list value) : list jsstr :=
  sort_strings (distinct_by id []
    (List.filter (λ code, nonempty code && negb (str_eqb (lower code) "auto"))
       ((λ v, trim (to_string (or_empty v))) <$> codes))).

Definition includeMissingSensitiveGroupOptions (options : list SensitiveRouteOption) (selectedCodes : list jsstr)
    (missingLabel : jsstr) : list SensitiveRouteOption :=
  include_missing options (normalizeSensitiveGroupCodes (VStr <$> selectedCodes)) (λ v, missingLabel ++ ": " ++ v).

Definition normalizeGroupRefs (refs : list value) : list jsstr :=
  distinct_by lower [] (List.filter nonempty ((λ v, trim (to_string v)) <$> refs)).

(** ** Drafts *)

Definition createSensitiveRuleDraft : SensitiveRuleDraft :=
  MkDraft (VStr (nanoid 0)) (VStr []) (VBool true) ACTION_MASK SCOPE_REQUEST (VStr DEFAULT_REPLACEMENT)
    [] [] TARGET_ROUTES [] [] [].

Definition clean_action (a : value) : jsstr :=
  match a with VStr s => if str_eqb s ACTION_BLOCK then ACTION_BLOCK else ACTION_MASK | _ => ACTION_MASK end.
Definition clean_scope (a : value) : jsstr :=
  match a with VStr s => if str_eqb s SCOPE_RESPONSE || str_eqb s SCOPE_BOTH then s else SCOPE_REQUEST | _ => SCOPE_REQUEST end.
Definition clean_target (a : value) : jsstr :=
  match a with VStr s => if str_eqb s TARGET_CHANNEL_TAGS || str_eqb s TARGET_ALL then s else TARGET_ROUTES | _ => TARGET_ROUTES end.

(** [v.trim()], which throws on what is not a text. *)
Definition trim_value (v : value) : option jsstr := match v with VStr s => Some (trim s) | _ => None end.

Definition or_text (s d : jsstr) : jsstr := if nonempty s then s else d.

(** [None] when it throws, [Some None] for a rule without content. *)
Definition normalizeSensitiveRule (i : nat) (rule : SensitiveRuleDraft) : option (option value) :=
  let keywords := splitSensitiveKeywords (keywordsText rule) in
  let refs := normalizeGroupRefs (VStr <$> groupRefs rule) in
  if bool_decide (length keywords = 0) && bool_decide (length refs = 0) then Some None
  else
    let act := clean_action (VStr (action rule)) in
    let sc := clean_scope (VStr (scope rule)) in
    let target := clean_target (VStr (targetType rule)) in
    let fallbackName := match keywords, refs with k :: _, _ => k | [], r :: _ => r | [], [] => [] end in
    match trim_value (draft_name rule),
          (if str_eqb act ACTION_MASK then
             match replacement rule with
             | VUndef | VNull => Some (VStr DEFAULT_REPLACEMENT)
             | r => (λ s, VStr (or_text s DEFAULT_REPLACEMENT)) <$> trim_value r
             end
           else Some VUndef) with
    | Some name, Some repl =>
      Some (Some (VObj [
        ("id"%js, if truthy (draft_id rule) then draft_id rule
                  else VStr (or_text (lower fallbackName) (nanoid i)));
        ("name"%js, VStr (or_text name fallbackName));
        ("enabled"%js, enabled rule);
        ("action"%js, VStr act);
        ("scope"%js, VStr sc);
        ("replacement"%js, repl);
        ("keywords"%js, VArr (VStr <$> keywords));
        ("group_refs"%js, if bool_decide (length refs = 0) then VUndef else VArr (VStr <$> refs));
        ("target_type"%js, VStr target);
        ("channel_ids"%js, if str_eqb target TARGET_ROUTES
                           then VArr (VNum <$> normalizeSensitiveRouteIds (channelIds rule)) else VUndef);
        ("channel_tags"%js, if str_eqb target TARGET_CHANNEL_TAGS
                            then VArr (VStr <$> normalizeSensitiveChannelTags (VStr <$> channelTags rule)) else VUndef);
        ("group_codes"%js, if str_eqb target TARGET_ROUTES
                           then VArr (VStr <$> normalizeSensitiveGroupCodes (VStr <$> groupCodes rule)) else VUndef)]))
    | _, _ => None
    end.

(** [v ?? []] where an array method is called on the result. *)
Definition array_or_empty (v : value) : option (list value) :=
  match v with VUndef | VNull => Some [] | VArr vs => Some vs | _ => None end.

Definition value_or (v d : value) : value := if truthy v then v else d.
Definition value_default (v d : value) : value := match v with VUndef | VNull => d | _ => v end.

Definition rule_to_draft (legacyChannelIds : list value) (i : nat) (rule : value) : option SensitiveRuleDraft :=
  match rule with
  | VUndef | VNull => None
  | _ =>
    let legacy := is_undefined (prop rule "target_type") in
    match array_or_empty (prop rule "keywords"), array_or_empty (prop rule "group_refs"),
          (if legacy then Some legacyChannelIds else array_or_empty (prop rule "channel_ids")),
          array_or_empty (prop rule "channel_tags"), array_or_empty (prop rule "group_codes") with
    | Some keywords, Some refs, Some ids, Some tags, Some codes =>
      Some (MkDraft
        (value_or (prop rule "id") (VStr (nanoid i)))
        (value_default (prop rule "name") (VStr []))
        (value_default (prop rule "enabled") (VBool true))
        (clean_action (prop rule "action"))
        (clean_scope (prop rule "scope"))
        (value_or (prop rule "replacement") (VStr DEFAULT_REPLACEMENT))
        (join [10%N] ((λ v, match v with VUndef | VNull => [] | _ => to_string v end) <$> keywords))
        (normalizeGroupRefs refs)
        (clean_target (prop rule "target_type"))
        (VNum <$> normalizeSensitiveRouteIds ids)
        (normalizeSensitiveChannelTags tags)
        (normalizeSensitiveGroupCodes codes))
    | _, _, _, _, _ => None
    end
  end.

(** All of them, or [None] when one throws. *)
Fixpoint sequence {A} (l : list (option A)) : option (list A) :=
  match l with
  | [] => Some []
  | x :: l' => match x, sequence l' with Some a, Some r => Some (a :: r) | _, _ => None end
  end.

Definition rulesToDrafts (rules legacyChannelIds : list value) : option (list SensitiveRuleDraft) :=
  sequence (imap (rule_to_draft legacyChannelIds) rules).

Definition serializeSensitiveRules (rules : list SensitiveRuleDraft) : option jsstr :=
  match sequence (imap normalizeSensitiveRule rules) with
  | Some normalized => JSON_stringify2 (VObj [("rules"%js, VArr (omap id normalized))])
  | None => None
  end.

Definition legacy_rule (keywords : list jsstr) : value :=
  VObj [("id"%js, VStr "legacy-sensitive-words"); ("name"%js, VStr "Legacy sensitive words"); ("enabled"%js, VBool true);
        ("action"%js, VStr ACTION_BLOCK); ("keywords"%js, VArr (VStr <$> keywords))].

Definition legacy_drafts (legacyWords : option jsstr) (legacyChannelIds : list value) : list SensitiveRuleDraft :=
  let legacyKeywords := splitSensitiveKeywords (default [] legacyWords) in
  if bool_decide (length legacyKeywords = 0) then []
  else default [] (rulesToDrafts [legacy_rule legacyKeywords] legacyChannelIds).

Definition parseSensitiveRulesConfig (raw legacyWords : option jsstr) (legacyChannelIds : list value) :
    list SensitiveRuleDraft :=
  let trimmed := default [] (trim <$> raw) in
  if negb (nonempty trimmed) then legacy_drafts legacyWords legacyChannelIds
  else match JSON_parse trimmed with
       | None | Some VNull => []
       | Some parsed =>
         match prop parsed "rules" with
         | VArr rules => default [] (rulesToDrafts rules legacyChannelIds)
         | _ => legacy_drafts legacyWords legacyChannelIds
         end
       end.

(** ** Validation and expansion *)

Definition has_content (rule : SensitiveRuleDraft) : bool :=
  negb (bool_decide (length (splitSensitiveKeywords (keywordsText rule)) = 0)) ||
  negb (bool_decide (length (normalizeGroupRefs (VStr <$> groupRefs rule)) = 0)).

Definition getEmptySensitiveRuleTarget (rule : SensitiveRuleDraft) : option jsstr :=
  if negb (truthy (enabled rule)) || negb (has_content rule) then None
  else if str_eqb (targetType rule) TARGET_CHANNEL_TAGS &&
          bool_decide (length (normalizeSensitiveChannelTags (VStr <$> channelTags rule)) = 0)
  then Some TARGET_CHANNEL_TAGS
  else if str_eqb (targetType rule) TARGET_ROUTES &&
          bool_decide (length (normalizeSensitiveRouteIds (channelIds rule)) = 0) &&
          bool_decide (length (normalizeSensitiveGroupCodes (VStr <$> groupCodes rule)) = 0)
  then Some TARGET_ROUTES
  else None.

Abbreviation SensitiveRuleExpansionState := (gmap jsstr bool).

Definition getInitialSensitiveRuleExpansion (rules : list SensitiveRuleDraft) : SensitiveRuleExpansionState :=
  fold_left (λ st rule, <[to_string (draft_id rule) := true]> st)
    (List.filter (λ rule, bool_decide (is_Some (getEmptySensitiveRuleTarget rule))) rules) ∅.

Definition is_expanded (current : SensitiveRuleExpansionState) (ruleId : jsstr) : bool :=
  bool_decide (current !! ruleId = Some true).

Definition toggleSensitiveRuleExpansion (current : SensitiveRuleExpansionState) (ruleId : jsstr) :
    SensitiveRuleExpansionState :=
  <[ruleId := negb (is_expanded current ruleId)]> current.

Definition expandInvalidSensitiveRule (current : SensitiveRuleExpansionState) (rule : SensitiveRuleDraft) :
    SensitiveRuleExpansionState :=
  if bool_decide (getEmptySensitiveRuleTarget rule = None) || is_expanded current (to_string (draft_id rule)) then current
  else <[to_string (draft_id rule) := true]> current.

Definition removeSensitiveRuleExpansion (current : SensitiveRuleExpansionState) (ruleId : jsstr) :
    SensitiveRuleExpansionState :=
  match current !! ruleId with None => current | Some _ => delete ruleId current end.
End Rules.
End SensitiveRules.
