(* ===== verification/SensitiveRulesFacts.v ===== *)
(** * Theorems on sensitive word rules

    The normalisations are idempotent and the text the rules are saved as is
    read back as the normalised drafts, which are saved as the same text; a
    saved rule that is reported as having no target is one that would apply
    nowhere. *)

From S2P Require Import Prelude JsString JsNumber JsInteger JsIntegerText JsValue JsonRoundTrip JsMap SensitiveRules.

Module SensitiveRulesFacts.
Import SensitiveRules.

(** ** Lists of words *)

Lemma lacks_trim x s : lacks x s = true → lacks x (trim s) = true.
Proof.
  unfold lacks, trim. destruct (trim_start_suffix s) as [w Hw]. rewrite Hw at 1. rewrite forallb_app, andb_true_iff.
  intros [_ H]. destruct (trim_end_prefix (trim_start s)) as [v Hv]. rewrite Hv in H. rewrite forallb_app, andb_true_iff in H.
  apply H.
Qed.

Lemma trimmed_last s : trimmed s = true → last s ≠ Some 13%N.
Proof.
  unfold trimmed. destruct s as [|c s]; [done|]. cbn [head]. destruct (last (c :: s)) as [b|]; [|done].
  intros [_ H]%andb_true_iff [= ->]. done.
Qed.

Lemma replace_crlf_line k r : lacks 10 k = true → last k ≠ Some 13%N →
  replace_crlf (k ++ 10%N :: r) = k ++ 10%N :: replace_crlf r.
Proof.
  induction k as [|c k IH]; intros Hl Hk; [done|]. cbn in Hl. apply andb_true_iff in Hl as [Hc Hl].
  assert (replace_crlf ((c :: k) ++ 10%N :: r) = c :: replace_crlf (k ++ 10%N :: r)) as ->.
  { destruct (decide (c = 13%N)) as [->|Hne].
    - destruct k as [|d k]; [done|]. cbn in Hl. apply andb_true_iff in Hl as [Hd _].
      cbn [app replace_crlf]. destruct d as [|d]; [done|]. repeat (destruct d as [d|d|]; try done).
    - cbn [app replace_crlf]. destruct c as [|c]; [done|]. repeat (destruct c as [c|c|]; try done). }
  rewrite IH; [done|done|]. destruct k; [done|exact Hk].
Qed.

Lemma replace_crlf_last k : lacks 10 k = true → replace_crlf k = k.
Proof.
  induction k as [|c k IH]; intros Hl; [done|]. cbn in Hl. apply andb_true_iff in Hl as [Hc Hl].
  assert (replace_crlf (c :: k) = c :: replace_crlf k) as ->; [|by rewrite IH].
  destruct k as [|d k]; [destruct c as [|c]; [done|]; by repeat (destruct c as [c|c|]; try done)|].
  cbn in Hl. apply andb_true_iff in Hl as [Hd _]. cbn [replace_crlf].
  destruct c as [|c]; [done|]. repeat (destruct c as [c|c|]; try done).
  destruct d as [|d]; [done|]. repeat (destruct d as [d|d|]; try done).
Qed.

Definition word (k : jsstr) : Prop := trimmed k = true ∧ nonempty k = true.

Lemma replace_crlf_join ks : Forall (λ k, word k ∧ lacks 10 k = true) ks → replace_crlf (join [10%N] ks) = join [10%N] ks.
Proof.
  induction ks as [|k [|k' ks] IH]; intros H; [done|..]; apply Forall_cons in H as [[[Ht _] Hl] H].
  - by apply replace_crlf_last.
  - change (join [10%N] (k :: k' :: ks)) with (k ++ 10%N :: join [10%N] (k' :: ks)).
    rewrite replace_crlf_line, IH by (done || by apply trimmed_last). done.
Qed.

Lemma words_kept ks : Forall word ks → List.filter nonempty (trim <$> ks) = ks.
Proof.
  induction 1 as [|k ks [Ht Hn] _ IH]; [done|]. cbn. rewrite trim_id, Hn by done. by rewrite IH.
Qed.

Lemma filter_words (f : value → jsstr) vs : Forall word (List.filter nonempty ((λ v, trim (f v)) <$> vs)).
Proof.
  apply Forall_forall. intros k [Hk Hn]%elem_of_lfilter. apply list_elem_of_fmap in Hk as (v & -> & _).
  split; [apply trim_trimmed|done].
Qed.

Lemma NoDup_fmap_id {A} (l : list A) : NoDup (id <$> l) → NoDup l.
Proof. by rewrite list_fmap_id. Qed.

(** Normal lists of tags, codes and references. *)
Lemma distinct_words {K} `{EqDecision K} (key : jsstr → K) ws : Forall word ws →
  Forall word (distinct_by key [] ws) ∧ NoDup (key <$> distinct_by key [] ws).
Proof.
  intros H. destruct (distinct_by_spec key [] ws) as [H1 H2]. split; [|done].
  rewrite Forall_forall in *. intros k Hk. apply H, (H2 k Hk).
Qed.

Lemma sort_strings_words ws : Forall word ws → NoDup ws → Forall word (sort_strings ws) ∧ NoDup (sort_strings ws).
Proof. unfold sort_strings. by rewrite sort_by_Permutation. Qed.

Lemma strings_trim (ws : list jsstr) : ((λ v, trim (to_string (or_empty v))) <$> (VStr <$> ws)) = trim <$> ws.
Proof. rewrite <- list_fmap_compose. done. Qed.

Lemma tags_normal vs : let ts := normalizeSensitiveChannelTags vs in
  Forall word ts ∧ normalizeSensitiveChannelTags (VStr <$> ts) = ts.
Proof.
  cbv zeta. unfold normalizeSensitiveChannelTags. set (ws := List.filter _ _).
  destruct (distinct_words id ws (filter_words _ vs)) as [D1 D2].
  destruct (sort_strings_words _ D1 (NoDup_fmap_id _ D2)) as [S1 S2]. split; [done|].
  set (ts := sort_strings _) in *. rewrite strings_trim, words_kept by done.
  rewrite distinct_by_id; [apply sort_strings_idemp| |intros ? _; apply not_elem_of_nil]. by rewrite list_fmap_id.
Qed.

(** ** Route identifiers *)

(** Identifiers that are integers in the safe range. *)
Definition safe_id (x : number) : Prop := ∃ z, x = of_Z z ∧ (0 < z < 2 ^ 53)%Z.

Lemma safe_id_le a b : (0 < a < 2 ^ 53)%Z → (0 < b < 2 ^ 53)%Z → sort_le num_sub (of_Z a) (of_Z b) = (a <=? b)%Z.
Proof.
  intros Ha Hb. unfold sort_le. rewrite num_sub_exact, num_ltb_exact by (unfold safe; lia).
  destruct (Z.ltb_spec 0 (a - b)), (Z.leb_spec a b); lia || done.
Qed.

Lemma safe_ids_sorted l : Forall safe_id l → StronglySorted (λ x y, sort_le num_sub x y = true) (sort_by num_sub l).
Proof.
  apply (sort_by_StronglySorted _ safe_id).
  - intros x y z (a & -> & Ha) (b & -> & Hb) (c & -> & Hc). rewrite !safe_id_le by done. lia.
  - intros x y (a & -> & Ha) (b & -> & Hb). rewrite !safe_id_le by done. lia.
Qed.

(** Raw identifiers whose valid ones are in the safe range. *)
Definition safe_raw (vs : list value) : Prop :=
  Forall (λ v, valid_route_id (route_id v) = true → safe_id (route_id v)) vs.

Lemma route_ids_normal vs : safe_raw vs →
  let ns := normalizeSensitiveRouteIds vs in
  Forall safe_id ns ∧ normalizeSensitiveRouteIds (VNum <$> ns) = ns.
Proof.
  intros Hv. cbv zeta. unfold normalizeSensitiveRouteIds. set (ws := List.filter valid_route_id _).
  assert (Hw : ∀ x, x ∈ distinct_by id [] ws → valid_route_id x = true ∧ safe_id x).
  { intros x Hx. apply (distinct_by_spec id [] ws) in Hx as [[Hin Hx]%elem_of_lfilter _]. split; [done|].
    apply list_elem_of_fmap in Hin as (v & -> & Hin). unfold safe_raw in Hv. rewrite Forall_forall in Hv. by apply Hv. }
  set (ns := sort_by num_sub _).
  assert (Hns : ∀ x, x ∈ ns → valid_route_id x = true ∧ safe_id x) by (intros x Hx; apply elem_of_sort_by in Hx; by apply Hw).
  assert (Hd : NoDup ns) by (unfold ns; rewrite sort_by_Permutation; apply NoDup_fmap_id, (distinct_by_spec id [] ws)).
  split; [apply Forall_forall; intros x Hx; by apply Hns|].
  rewrite <- list_fmap_compose. change (route_id ∘ VNum) with (@id number). rewrite list_fmap_id.
  assert (List.filter valid_route_id ns = ns) as ->.
  { assert (Forall (λ x, valid_route_id x = true) ns) as Hf by (apply Forall_forall; intros x Hx; by apply Hns).
    clear -Hf. induction Hf as [|x l Hx _ IH]; cbn; [done|]. by rewrite Hx, IH. }
  rewrite distinct_by_id; [|by rewrite list_fmap_id|intros ? _; apply not_elem_of_nil].
  apply sort_by_sorted. apply safe_ids_sorted. apply Forall_forall. intros x Hx. by apply Hw.
Qed.

(** ** Rules *)

Section Rules.
Context (lower : jsstr → jsstr) `{!LowerCase lower} (nanoid : nat → jsstr).

Lemma keywords_normal s : let ks := splitSensitiveKeywords lower s in
  Forall word ks ∧ splitSensitiveKeywords lower (join [10%N] ks) = ks.
Proof.
  cbv zeta. unfold splitSensitiveKeywords. set (ws := List.filter nonempty _).
  assert (Hw : Forall (λ k, word k ∧ lacks 10 k = true) ws).
  { apply Forall_forall. intros k [Hk Hn]%elem_of_lfilter. apply list_elem_of_fmap in Hk as (p & -> & Hp).
    split; [split; [apply trim_trimmed|done]|]. apply lacks_trim.
    pose proof (split_char_parts_lack 10 (replace_crlf s)) as H. by apply (forallb_elem _ _ p H). }
  destruct (distinct_by_spec lower [] ws) as [D1 D2]. set (ks := distinct_by lower [] ws) in *.
  assert (Hk : Forall (λ k, word k ∧ lacks 10 k = true) ks).
  { rewrite Forall_forall in *. intros k Hk. apply Hw, (D2 k Hk). }
  assert (Hks : Forall word ks) by (eapply Forall_impl; [done|]; cbn; intuition).
  split; [done|]. rewrite replace_crlf_join by done.
  destruct ks as [|k ks'] eqn:E; [done|]. rewrite split_join; [|done|].
  - rewrite words_kept by done. by rewrite distinct_by_id by (done || (intros ? _; apply not_elem_of_nil)).
  - apply Is_true_true, forallb_True. rewrite Forall_forall in Hk |- *. intros x Hx. by apply Is_true_true, Hk.
Qed.

Lemma refs_normal vs : let rs := normalizeGroupRefs lower vs in
  Forall word rs ∧ normalizeGroupRefs lower (VStr <$> rs) = rs.
Proof.
  cbv zeta. unfold normalizeGroupRefs. set (ws := List.filter _ _).
  destruct (distinct_words lower ws (filter_words _ vs)) as [D1 D2]. split; [done|].
  set (rs := distinct_by lower [] ws) in *. rewrite <- list_fmap_compose.
  change ((λ v, trim (to_string v)) ∘ VStr) with trim. rewrite words_kept by done.
  by rewrite distinct_by_id by (done || (intros ? _; apply not_elem_of_nil)).
Qed.

Lemma codes_normal vs : let cs := normalizeSensitiveGroupCodes lower vs in
  normalizeSensitiveGroupCodes lower (VStr <$> cs) = cs.
Proof.
  cbv zeta. unfold normalizeSensitiveGroupCodes. set (ok := λ code, nonempty code && _).
  set (ws := List.filter ok ((λ v, trim (to_string (or_empty v))) <$> vs)).
  assert (Hw : ∀ k, k ∈ distinct_by id [] ws → trim k = k ∧ ok k = true).
  { intros k Hk. apply (distinct_by_spec id [] ws) in Hk as [[Hk Hok]%elem_of_lfilter _].
    apply list_elem_of_fmap in Hk as (v & -> & _). split; [apply trim_idemp|done]. }
  set (cs := sort_strings (distinct_by id [] ws)).
  assert (Hcs : Forall (λ k, trim k = k ∧ ok k = true) cs).
  { apply Forall_forall. intros k Hk. unfold cs, sort_strings in Hk. rewrite elem_of_sort_by in Hk. by apply Hw. }
  assert (Hd : NoDup cs).
  { unfold cs, sort_strings. rewrite sort_by_Permutation. apply NoDup_fmap_id, (distinct_by_spec id [] ws). }
  rewrite strings_trim. assert (List.filter ok (trim <$> cs) = cs) as ->.
  { clear -Hcs. induction Hcs as [|x l [Hx Hok] _ IH]; cbn; [done|]. by rewrite Hx, Hok, IH. }
  rewrite distinct_by_id; [apply sort_strings_idemp|by rewrite list_fmap_id|intros ? _; apply not_elem_of_nil].
Qed.

(** ** What a draft is saved as *)

(** A draft as the editor holds it: texts where texts belong and channel
    identifiers in the safe range. *)
Definition draft_ok (d : SensitiveRuleDraft) : Prop :=
  (∃ i, draft_id d = VStr i) ∧ (∃ n, draft_name d = VStr n) ∧ (∃ b, enabled d = VBool b) ∧
  (replacement d = VUndef ∨ ∃ r, replacement d = VStr r) ∧ safe_raw (channelIds d).

Definition kws (d : SensitiveRuleDraft) : list jsstr := splitSensitiveKeywords lower (keywordsText d).
Definition refs (d : SensitiveRuleDraft) : list jsstr := normalizeGroupRefs lower (VStr <$> groupRefs d).
Definition fallback (d : SensitiveRuleDraft) : jsstr :=
  match kws d, refs d with k :: _, _ => k | [], r :: _ => r | [], [] => [] end.
Definition text_of (v : value) : jsstr := match v with VStr s => s | _ => [] end.
Definition final_id (d : SensitiveRuleDraft) : jsstr := or_text (text_of (draft_id d)) (lower (fallback d)).
Definition final_name (d : SensitiveRuleDraft) : jsstr := or_text (trim (text_of (draft_name d))) (fallback d).
Definition final_action (d : SensitiveRuleDraft) : jsstr := clean_action (VStr (action d)).
Definition final_scope (d : SensitiveRuleDraft) : jsstr := clean_scope (VStr (scope d)).
Definition final_target (d : SensitiveRuleDraft) : jsstr := clean_target (VStr (targetType d)).
Definition final_replacement (d : SensitiveRuleDraft) : jsstr :=
  or_text (trim (text_of (replacement d))) DEFAULT_REPLACEMENT.
Definition ids (d : SensitiveRuleDraft) : list number :=
  if str_eqb (final_target d) TARGET_ROUTES then normalizeSensitiveRouteIds (channelIds d) else [].
Definition tags (d : SensitiveRuleDraft) : list jsstr :=
  if str_eqb (final_target d) TARGET_CHANNEL_TAGS then normalizeSensitiveChannelTags (VStr <$> channelTags d) else [].
Definition codes (d : SensitiveRuleDraft) : list jsstr :=
  if str_eqb (final_target d) TARGET_ROUTES then normalizeSensitiveGroupCodes lower (VStr <$> groupCodes d) else [].

(** The rule object of a draft with content. *)
Definition rule_obj (d : SensitiveRuleDraft) : value :=
  VObj [
    ("id"%js, VStr (final_id d)); ("name"%js, VStr (final_name d)); ("enabled"%js, enabled d);
    ("action"%js, VStr (final_action d)); ("scope"%js, VStr (final_scope d));
    ("replacement"%js, if str_eqb (final_action d) ACTION_MASK then VStr (final_replacement d) else VUndef);
    ("keywords"%js, VArr (VStr <$> kws d));
    ("group_refs"%js, if bool_decide (length (refs d) = 0) then VUndef else VArr (VStr <$> refs d));
    ("target_type"%js, VStr (final_target d));
    ("channel_ids"%js, if str_eqb (final_target d) TARGET_ROUTES then VArr (VNum <$> ids d) else VUndef);
    ("channel_tags"%js, if str_eqb (final_target d) TARGET_CHANNEL_TAGS then VArr (VStr <$> tags d) else VUndef);
    ("group_codes"%js, if str_eqb (final_target d) TARGET_ROUTES then VArr (VStr <$> codes d) else VUndef)].

(** The draft it is read back as. *)
Definition normal_draft (d : SensitiveRuleDraft) : SensitiveRuleDraft :=
  MkDraft (VStr (final_id d)) (VStr (final_name d)) (enabled d) (final_action d) (final_scope d)
    (VStr (if str_eqb (final_action d) ACTION_MASK then final_replacement d else DEFAULT_REPLACEMENT))
    (join [10%N] (kws d)) (refs d) (final_target d) (VNum <$> ids d) (tags d) (codes d).

Lemma or_text_nonempty s d : nonempty d = true → nonempty (or_text s d) = true.
Proof. unfold or_text. destruct (nonempty s) eqn:E; [by rewrite E|done]. Qed.

Lemma or_text_word s d : word d → word (or_text (trim s) d).
Proof. unfold or_text. destruct (nonempty (trim s)) eqn:E; [|done]. intros _. split; [apply trim_trimmed|done]. Qed.

Lemma or_text_id s d : nonempty s = true → or_text s d = s.
Proof. unfold or_text. by intros ->. Qed.

Lemma fallback_word d : has_content lower d = true → word (fallback d).
Proof.
  unfold has_content, fallback. fold (kws d) (refs d). intros H.
  pose proof (proj1 (keywords_normal (keywordsText d))) as Hk. pose proof (proj1 (refs_normal (VStr <$> groupRefs d))) as Hr.
  fold (kws d) in Hk. fold (refs d) in Hr. destruct (kws d); [|by apply Forall_cons in Hk as [? _]].
  destruct (refs d); [done|by apply Forall_cons in Hr as [? _]].
Qed.

Lemma lower_nonempty s : nonempty s = true → nonempty (lower s) = true.
Proof. destruct (lower s) eqn:E; [|done]. apply lower_empty in E. by subst. Qed.

Lemma final_id_nonempty d : has_content lower d = true → nonempty (final_id d) = true.
Proof. intros H. apply or_text_nonempty, lower_nonempty, (fallback_word d H). Qed.

Lemma replacement_word d : word (final_replacement d).
Proof. by apply or_text_word. Qed.

Lemma normalize_rule i d : draft_ok d →
  normalizeSensitiveRule lower nanoid i d = Some (if has_content lower d then Some (rule_obj d) else None).
Proof.
  intros ((x & Hid) & (n & Hn) & _ & Hrep & _). unfold normalizeSensitiveRule. fold (kws d) (refs d).
  assert (bool_decide (length (kws d) = 0) && bool_decide (length (refs d) = 0) = negb (has_content lower d)) as ->.
  { unfold has_content. fold (kws d) (refs d). by destruct (bool_decide _), (bool_decide _). }
  destruct (has_content lower d) eqn:Hc; cbn [negb]; [|done].
  fold (final_action d) (final_scope d) (final_target d) (fallback d). rewrite Hn. change (trim_value (VStr n)) with (Some (trim n)).
  assert ((if str_eqb (final_action d) ACTION_MASK then
     match replacement d with VUndef | VNull => Some (VStr DEFAULT_REPLACEMENT)
       | r => (λ s, VStr (or_text s DEFAULT_REPLACEMENT)) <$> trim_value r end else Some VUndef)
    = Some (if str_eqb (final_action d) ACTION_MASK then VStr (final_replacement d) else VUndef)) as ->.
  { destruct (str_eqb _ _); [|done]. unfold final_replacement. by destruct Hrep as [->|[r ->]]. }
  unfold rule_obj, ids, tags, codes. unfold final_id at 1, final_name at 1. rewrite Hid, Hn. cbn [truthy text_of].
  rewrite (or_text_id (lower (fallback d)) (nanoid i)) by (apply lower_nonempty, (fallback_word d Hc)).
  assert ((if nonempty x then VStr x else VStr (lower (fallback d))) = VStr (or_text x (lower (fallback d)))) as ->
    by (unfold or_text; by destruct (nonempty x)).
  destruct (str_eqb (final_target d) TARGET_ROUTES), (str_eqb (final_target d) TARGET_CHANNEL_TAGS); done.
Qed.

(** ** Reading it back *)

Lemma defined_strings l : defined (VArr (VStr <$> l)) = VArr (VStr <$> l).
Proof. cbn. f_equal. induction l as [|s l IH]; cbn; [done|]. by rewrite IH. Qed.

Lemma defined_numbers l : defined (VArr (VNum <$> l)) = VArr (VNum <$> l).
Proof. cbn. f_equal. induction l as [|s l IH]; cbn; [done|]. by rewrite IH. Qed.

Lemma action_cases d : final_action d = ACTION_MASK ∨ final_action d = ACTION_BLOCK.
Proof. unfold final_action, clean_action. destruct (str_eqb _ _); auto. Qed.

Lemma scope_clean d : clean_scope (VStr (final_scope d)) = final_scope d.
Proof.
  unfold final_scope, clean_scope. destruct (str_eqb (scope d) SCOPE_RESPONSE || str_eqb (scope d) SCOPE_BOTH) eqn:E; [|done].
  by rewrite E.
Qed.

Lemma target_clean d : clean_target (VStr (final_target d)) = final_target d.
Proof.
  unfold final_target, clean_target.
  destruct (str_eqb (targetType d) TARGET_CHANNEL_TAGS || str_eqb (targetType d) TARGET_ALL) eqn:E; [|done]. by rewrite E.
Qed.

Lemma action_clean d : clean_action (VStr (final_action d)) = final_action d.
Proof. by destruct (action_cases d) as [-> | ->]. Qed.

Lemma strings_of (l : list jsstr) : ((λ v, match v with VUndef | VNull => [] | _ => to_string v end) <$> (VStr <$> l)) = l.
Proof. rewrite <- list_fmap_compose. apply list_fmap_id. Qed.

Lemma ids_normal d : draft_ok d → Forall safe_id (ids d) ∧ normalizeSensitiveRouteIds (VNum <$> ids d) = ids d.
Proof.
  intros (_ & _ & _ & _ & H). unfold ids. destruct (str_eqb _ _); [by apply route_ids_normal|]. split; [constructor|done].
Qed.

Lemma refs_fixed d : normalizeGroupRefs lower (VStr <$> refs d) = refs d.
Proof. apply refs_normal. Qed.

Lemma tags_fixed d : normalizeSensitiveChannelTags (VStr <$> tags d) = tags d.
Proof. unfold tags. destruct (str_eqb _ _); [apply tags_normal|done]. Qed.

Lemma codes_fixed d : normalizeSensitiveGroupCodes lower (VStr <$> codes d) = codes d.
Proof. unfold codes. destruct (str_eqb _ _); [apply codes_normal|done]. Qed.

(** An optional member that holds an array. *)
Lemma optional_array (b : bool) vs : (b = false → vs = []) → defined (VArr vs) = VArr vs →
  array_or_empty (defined (if b then VArr vs else VUndef)) = Some vs.
Proof. intros H E. destruct b; [by rewrite E|]. by rewrite H. Qed.

Lemma rule_back legacy i d : draft_ok d → has_content lower d = true →
  rule_to_draft lower nanoid legacy i (defined (rule_obj d)) = Some (normal_draft d).
Proof.
  intros Hok Hc. assert (Hp : ∀ k, prop (defined (rule_obj d)) k = defined (prop (rule_obj d) k)).
  { intros k. apply prop_defined. apply (bool_decide_unpack _). vm_compute. exact I. }
  unfold rule_to_draft. change (defined (rule_obj d)) with (defined (rule_obj d)).
  destruct (defined (rule_obj d)) as [| | | | | |fs] eqn:E; try done. cbv iota. rewrite !Hp.
  change (prop (rule_obj d) "id") with (VStr (final_id d)). change (prop (rule_obj d) "name") with (VStr (final_name d)).
  change (prop (rule_obj d) "enabled") with (enabled d). change (prop (rule_obj d) "action") with (VStr (final_action d)).
  change (prop (rule_obj d) "scope") with (VStr (final_scope d)). change (prop (rule_obj d) "target_type") with (VStr (final_target d)).
  change (prop (rule_obj d) "keywords") with (VArr (VStr <$> kws d)).
  change (prop (rule_obj d) "replacement") with (if str_eqb (final_action d) ACTION_MASK then VStr (final_replacement d) else VUndef).
  change (prop (rule_obj d) "group_refs") with (if bool_decide (length (refs d) = 0) then VUndef else VArr (VStr <$> refs d)).
  change (prop (rule_obj d) "channel_ids") with (if str_eqb (final_target d) TARGET_ROUTES then VArr (VNum <$> ids d) else VUndef).
  change (prop (rule_obj d) "channel_tags") with (if str_eqb (final_target d) TARGET_CHANNEL_TAGS then VArr (VStr <$> tags d) else VUndef).
  change (prop (rule_obj d) "group_codes") with (if str_eqb (final_target d) TARGET_ROUTES then VArr (VStr <$> codes d) else VUndef).
  rewrite defined_strings. cbn [is_undefined defined array_or_empty].
  assert (array_or_empty (defined (if bool_decide (length (refs d) = 0) then VUndef else VArr (VStr <$> refs d))) = Some (VStr <$> refs d)) as ->.
  { rewrite <- (optional_array (negb (bool_decide (length (refs d) = 0))) (VStr <$> refs d)).
    - by destruct (bool_decide _).
    - destruct (refs d); done.
    - apply defined_strings. }
  rewrite (optional_array _ (VNum <$> ids d)) by (apply defined_numbers || (unfold ids; by intros ->)).
  rewrite (optional_array _ (VStr <$> tags d)) by (apply defined_strings || (unfold tags; by intros ->)).
  rewrite (optional_array _ (VStr <$> codes d)) by (apply defined_strings || (unfold codes; by intros ->)).
  rewrite strings_of, tags_fixed, codes_fixed, (proj2 (ids_normal d Hok)), refs_fixed.
  rewrite scope_clean, action_clean, target_clean. unfold normal_draft. f_equal. f_equal.
  - unfold value_or. cbn [truthy]. by rewrite final_id_nonempty.
  - destruct Hok as (_ & _ & (b & ->) & _). done.
  - destruct (str_eqb (final_action d) ACTION_MASK); [|done]. unfold value_or. cbn [defined truthy].
    by rewrite (proj2 (replacement_word d)).
Qed.

Lemma normal_draft_obj d : draft_ok d → has_content lower d = true →
  draft_ok (normal_draft d) ∧ has_content lower (normal_draft d) = true ∧ rule_obj (normal_draft d) = rule_obj d.
Proof.
  intros Hok Hc. pose proof Hok as (_ & _ & (b & Hb) & _ & _).
  assert (Ek : kws (normal_draft d) = kws d) by apply keywords_normal.
  assert (Er : refs (normal_draft d) = refs d) by apply refs_normal.
  assert (Ea : final_action (normal_draft d) = final_action d) by apply action_clean.
  assert (Es : final_scope (normal_draft d) = final_scope d) by apply scope_clean.
  assert (Et : final_target (normal_draft d) = final_target d) by apply target_clean.
  assert (Ef : fallback (normal_draft d) = fallback d) by (unfold fallback; by rewrite Ek, Er).
  assert (Ei : final_id (normal_draft d) = final_id d).
  { unfold final_id at 1. cbn [draft_id normal_draft text_of]. by apply or_text_id, final_id_nonempty. }
  assert (En : final_name (normal_draft d) = final_name d).
  { unfold final_name at 1. cbn [draft_name normal_draft text_of].
    assert (word (final_name d)) as [H1 H2] by (by apply or_text_word, fallback_word). rewrite trim_id by done. by apply or_text_id. }
  assert (Ep : str_eqb (final_action d) ACTION_MASK = true → final_replacement (normal_draft d) = final_replacement d).
  { intros E. unfold final_replacement at 1. cbn [replacement normal_draft text_of]. rewrite E.
    destruct (replacement_word d) as [H1 H2]. rewrite trim_id by done. by apply or_text_id. }
  assert (Eids : ids (normal_draft d) = ids d).
  { unfold ids at 1. rewrite Et. cbn [channelIds normal_draft]. rewrite (proj2 (ids_normal d Hok)).
    unfold ids. by destruct (str_eqb (final_target d) TARGET_ROUTES). }
  assert (Etags : tags (normal_draft d) = tags d).
  { unfold tags at 1. rewrite Et. cbn [channelTags normal_draft]. rewrite tags_fixed.
    unfold tags. by destruct (str_eqb (final_target d) TARGET_CHANNEL_TAGS). }
  assert (Ecodes : codes (normal_draft d) = codes d).
  { unfold codes at 1. rewrite Et. cbn [groupCodes normal_draft]. rewrite codes_fixed.
    unfold codes. by destruct (str_eqb (final_target d) TARGET_ROUTES). }
  split; [|split].
  - cbn. repeat split; eauto. cbn. unfold safe_raw. apply Forall_fmap, Forall_forall. intros x Hx _. cbn.
    pose proof (proj1 (ids_normal d Hok)) as H. rewrite Forall_forall in H. by apply H.
  - unfold has_content in *. fold (kws (normal_draft d)) (refs (normal_draft d)). rewrite Ek, Er. exact Hc.
  - unfold rule_obj. rewrite Ei, En, Ea, Es, Et, Ek, Er, Eids, Etags, Ecodes. cbn [enabled normal_draft].
    destruct (str_eqb (final_action d) ACTION_MASK); [by rewrite Ep|done].
Qed.

(** ** The saved text *)

Lemma numbers_jsonable l : Forall safe_id l → jsonable (VArr (VNum <$> l)).
Proof.
  intros H. apply forallb_True, Forall_fmap. eapply Forall_impl; [done|]. intros x (z & -> & Hz). cbn.
  apply safe_readable. unfold safe. lia.
Qed.

Lemma rule_obj_jsonable d : draft_ok d → jsonable (defined (rule_obj d)).
Proof.
  intros Hok. pose proof Hok as (_ & _ & (b & Hb) & _). apply defined_obj_jsonable.
  { apply (bool_decide_unpack _). vm_compute. exact I. }
  assert (Hs : ∀ l, jsonable (defined (VArr (VStr <$> l)))) by (intros l; rewrite defined_strings; apply strings_jsonable).
  assert (Hn : jsonable (defined (VArr (VNum <$> ids d)))) by (rewrite defined_numbers; apply numbers_jsonable, (ids_normal d Hok)).
  assert (Ho : ∀ (c : bool) v, jsonable (defined v) →
    ((if c then v else VUndef) = VUndef ∨ jsonable (defined (if c then v else VUndef))) ∧
    ((if c then VUndef else v) = VUndef ∨ jsonable (defined (if c then VUndef else v)))) by (intros [] v; auto).
  repeat (apply Forall_cons; split; [split; [vm_compute; reflexivity|]; cbn [snd]|]); [..|constructor];
    rewrite ?Hb; first [by right|by (right; apply Hs)|by (apply Ho; first [done|apply Hs])].
Qed.

Lemma sequence_imap {A B} (f : nat → A → option B) (g : A → B) l : (∀ i x, x ∈ l → f i x = Some (g x)) →
  sequence (imap f l) = Some (g <$> l).
Proof.
  revert f. induction l as [|x l IH]; intros f H; [done|]. cbn. rewrite (H 0%nat x) by left.
  rewrite IH; [done|]. intros i y Hy. apply H. by right.
Qed.

Lemma omap_content l : omap id ((λ d, if has_content lower d then Some (rule_obj d) else None) <$> l) =
  rule_obj <$> List.filter (has_content lower) l.
Proof. induction l as [|d l IH]; [done|]. cbn. destruct (has_content lower d); cbn; [by rewrite <- IH|exact IH]. Qed.

Definition saved (ds : list SensitiveRuleDraft) : value :=
  VObj [("rules"%js, VArr (rule_obj <$> List.filter (has_content lower) ds))].

Lemma serialize_saved ds : Forall draft_ok ds → serializeSensitiveRules lower nanoid ds = JSON_stringify2 (saved ds).
Proof.
  intros H. unfold serializeSensitiveRules.
  rewrite (sequence_imap _ (λ d, if has_content lower d then Some (rule_obj d) else None)).
  - by rewrite omap_content.
  - intros i d Hd. rewrite Forall_forall in H. by apply normalize_rule, H.
Qed.

(** C34: saving rules and reading them back gives the rules with content, each
    with its normal fields (words split, trimmed and without repetitions, a
    name and an identifier, the lists of the target it applies to), whatever
    the older settings say; and saving that again gives the same text. *)
Theorem rules_text_round_trip ds words channels : Forall draft_ok ds →
  ∃ t, serializeSensitiveRules lower nanoid ds = Some t ∧
    parseSensitiveRulesConfig lower nanoid (Some t) words channels = normal_draft <$> List.filter (has_content lower) ds ∧
    serializeSensitiveRules lower nanoid (normal_draft <$> List.filter (has_content lower) ds) = Some t.
Proof.
  intros Hok. set (l := List.filter (has_content lower) ds).
  assert (Hl : ∀ d, d ∈ l → draft_ok d ∧ has_content lower d = true).
  { intros d [Hd Hc]%elem_of_lfilter. rewrite Forall_forall in Hok. split; [by apply Hok|done]. }
  assert (Hdef : defined (saved ds) = VObj [("rules"%js, VArr ((defined ∘ rule_obj) <$> l))]).
  { unfold saved. fold l. cbn. do 4 f_equal. clear. induction l as [|d l IH]; [done|]. cbn. f_equal. exact IH. }
  assert (Hj : jsonable (defined (saved ds))).
  { rewrite Hdef. apply obj_jsonable; [apply NoDup_singleton|]. intros p ->%list_elem_of_singleton. split; [done|]. cbn [snd].
    apply forallb_True, Forall_fmap, Forall_forall. intros d Hd. cbn. by apply rule_obj_jsonable, Hl. }
  destruct (JSON_parse_stringify2_defined _ Hj) as (t & Ht & (c & t' & Hh & _) & Hp). exists t. rewrite serialize_saved by done. split; [done|].
  split.
  - unfold parseSensitiveRulesConfig. cbn [fmap option_fmap option_map default]. unfold id.
    rewrite trim_id by (by eapply stringify2_obj_trimmed). rewrite Hp, Hdef.
    assert (nonempty t = true) as -> by (by rewrite Hh). cbn [negb].
    change (prop (VObj [("rules"%js, VArr ((defined ∘ rule_obj) <$> l))]) "rules") with (VArr ((defined ∘ rule_obj) <$> l)). cbv iota.
    unfold rulesToDrafts. rewrite imap_fmap.
    rewrite (sequence_imap _ normal_draft); [done|]. intros i d Hd. by apply rule_back; apply Hl.
  - assert (Hn : Forall draft_ok (normal_draft <$> l)).
    { apply Forall_fmap, Forall_forall. intros d Hd. destruct (Hl d Hd). by apply normal_draft_obj. }
    rewrite serialize_saved by done. rewrite <- Ht. f_equal. unfold saved. fold l. do 4 f_equal. clear Hn Hdef Hj Ht Hp.
    clearbody l. induction l as [|d l IH]; [done|]. destruct (Hl d) as [H1 H2]; [left|].
    destruct (normal_draft_obj d H1 H2) as (_ & Hc & Ho). cbn. rewrite Hc. cbn. rewrite Ho. f_equal. apply IH.
    intros x Hx. apply Hl. by right.
Qed.

(** ** Validation *)

Lemma length_0 {A} (l : list A) : bool_decide (length l = 0%nat) = true ↔ l = [].
Proof. rewrite bool_decide_eq_true. apply length_zero_iff_nil. Qed.

Definition target_known (d : SensitiveRuleDraft) : Prop := targetType d = final_target d.

(** Whether the rule a draft is saved as applies anywhere. *)
Definition applies_nowhere (d : SensitiveRuleDraft) : Prop :=
  final_target d ≠ TARGET_ALL ∧ ids d = [] ∧ tags d = [] ∧ codes d = [].

Lemma target_cases d : final_target d = TARGET_CHANNEL_TAGS ∨ final_target d = TARGET_ALL ∨ final_target d = TARGET_ROUTES.
Proof.
  unfold final_target, clean_target. destruct (str_eqb (targetType d) TARGET_CHANNEL_TAGS) eqn:E1; cbn [orb].
  { apply str_eqb_spec in E1. auto. }
  destruct (str_eqb (targetType d) TARGET_ALL) eqn:E2; [apply str_eqb_spec in E2; auto|auto].
Qed.

(** The editor complains about a rule exactly when saving it would leave an
    enabled rule with words that applies to no channel, tag or group, and it
    names the rule's target; and the sections of exactly those rules are open
    at first. *)
Theorem validation_exact d rules i : target_known d →
  (getEmptySensitiveRuleTarget lower d =
    if truthy (enabled d) && has_content lower d && bool_decide (applies_nowhere d) then Some (final_target d) else None) ∧
  (is_expanded (getInitialSensitiveRuleExpansion lower rules) i = true ↔
    ∃ r, r ∈ rules ∧ to_string (draft_id r) = i ∧ is_Some (getEmptySensitiveRuleTarget lower r)).
Proof.
  intros Ht. split.
  - unfold getEmptySensitiveRuleTarget. rewrite <- negb_andb. destruct (truthy (enabled d) && has_content lower d); cbn [negb andb]; [|done].
    rewrite Ht. unfold applies_nowhere, ids, tags, codes.
    destruct (target_cases d) as [E|[E|E]]; rewrite E; cbn [andb].
    + change (str_eqb TARGET_CHANNEL_TAGS TARGET_CHANNEL_TAGS) with true. change (str_eqb TARGET_CHANNEL_TAGS TARGET_ROUTES) with false.
      cbn [andb]. rewrite (bool_decide_ext (length _ = 0%nat) (TARGET_CHANNEL_TAGS ≠ TARGET_ALL ∧ [] = @nil number ∧
        normalizeSensitiveChannelTags (VStr <$> channelTags d) = [] ∧ [] = @nil jsstr)); [done|].
      rewrite length_zero_iff_nil. intuition done.
    + change (str_eqb TARGET_ALL TARGET_CHANNEL_TAGS) with false. change (str_eqb TARGET_ALL TARGET_ROUTES) with false. cbn [andb].
      rewrite bool_decide_false; [done|]. by intros [? _].
    + change (str_eqb TARGET_ROUTES TARGET_CHANNEL_TAGS) with false. change (str_eqb TARGET_ROUTES TARGET_ROUTES) with true.
      cbn [andb]. rewrite <- bool_decide_and.
      rewrite (bool_decide_ext _ (TARGET_ROUTES ≠ TARGET_ALL ∧ normalizeSensitiveRouteIds (channelIds d) = [] ∧ [] = @nil jsstr ∧
        normalizeSensitiveGroupCodes lower (VStr <$> groupCodes d) = [])); [done|].
      rewrite !length_zero_iff_nil. intuition done.
  - unfold getInitialSensitiveRuleExpansion, is_expanded. rewrite bool_decide_eq_true.
    set (bad := List.filter _ rules). transitivity (∃ r, r ∈ bad ∧ to_string (draft_id r) = i).
    + assert (G : ∀ l (st : gmap jsstr bool), fold_left (λ st rule, <[to_string (draft_id rule) := true]> st) l st !! i = Some true ↔
        st !! i = Some true ∨ ∃ r, r ∈ l ∧ to_string (draft_id r) = i).
      { clear bad rules Ht. induction l as [|r l IH]; intros st; cbn; [set_solver|]. rewrite IH.
        destruct (decide (to_string (draft_id r) = i)) as [<-|Hne].
        - rewrite lookup_insert_eq. split; [intros _; right; exists r; split; [left|done]|auto].
        - rewrite lookup_insert_ne by done. split.
          + intros [H|(x & Hx & E)]; [auto|]. right. exists x. split; [by right|done].
          + intros [H|(x & [->|Hx]%elem_of_cons & E)]; [auto|done|]. right. by exists x. }
      rewrite G. rewrite lookup_empty. split; [intros [?|?]; done|auto].
    + split; intros (r & H1 & H2); exists r.
      * apply elem_of_lfilter in H1 as [H1 H3]. apply bool_decide_eq_true in H3. auto.
      * destruct H2 as [H2 H3]. split; [|done]. apply elem_of_lfilter. split; [done|]. by apply bool_decide_eq_true.
Qed.
End Rules.

(** ** Witnesses *)

Definition sample_draft : SensitiveRuleDraft :=
  MkDraft (VStr "r1") (VStr " Bad words ") (VBool true) "mask" "request" (VStr " *** ")
    ("bomb" ++ [13; 10]%N ++ " Bomb " ++ [10]%N ++ "gun" ++ [34]%N)%js ["g2"; "g1"; " G1 "]%js TARGET_ROUTES
    [VNum (of_Z 7); VStr "3x"; VNum (of_Z 7); VNum (of_Z 0)] [] ["vip"; "Auto"]%js.

Lemma safe_ids_37 : safe_raw [VNum (of_Z 7); VStr "3x"; VNum (of_Z 7); VNum (of_Z 0)].
Proof.
  unfold safe_raw.
  do 3 (apply Forall_cons; split; [intros _; first [exists 7%Z; split; [vm_compute; reflexivity|lia]|exists 3%Z; split; [vm_compute; reflexivity|lia]]|]).
  apply Forall_cons. split; [|constructor]. intros H. vm_compute in H. discriminate.
Qed.

Lemma rules_text_round_trip_witness :
  ∃ t, serializeSensitiveRules toLowerCase (λ _, "x"%js) [sample_draft] = Some t ∧
    parseSensitiveRulesConfig toLowerCase (λ _, "x"%js) (Some t) None [] =
      [MkDraft (VStr "r1") (VStr "Bad words") (VBool true) "mask" "request" (VStr "***")
        ("bomb" ++ [10]%N ++ "gun" ++ [34]%N)%js ["g2"; "g1"]%js TARGET_ROUTES [VNum (of_Z 3); VNum (of_Z 7)] [] ["vip"]%js].
Proof.
  destruct (rules_text_round_trip toLowerCase (λ _, "x"%js) [sample_draft] None []) as (t & H1 & H2 & _).
  - apply Forall_singleton. repeat split; [eexists|eexists|eexists|right; eexists|apply safe_ids_37]; reflexivity.
  - exists t. split; [exact H1|]. rewrite H2. vm_compute. reflexivity.
Defined.

Lemma validation_exact_witness :
  getEmptySensitiveRuleTarget toLowerCase sample_draft = None ∧
  (is_expanded (getInitialSensitiveRuleExpansion toLowerCase [sample_draft]) "r1" = true ↔
    ∃ r, r ∈ [sample_draft] ∧ to_string (draft_id r) = "r1"%js ∧ is_Some (getEmptySensitiveRuleTarget toLowerCase r)).
Proof.
  destruct (validation_exact toLowerCase sample_draft [sample_draft] "r1") as [H1 H2]; [vm_compute; reflexivity|].
  split; [rewrite H1; vm_compute; reflexivity|exact H2].
Defined.
End SensitiveRulesFacts.
