(* ===== verification/FlowGraph.v ===== *)
(** * Dashboard flow graphs ([web/src/features/dashboard/lib/flow.ts])

    Usage rows become the nodes and links of a Sankey diagram: a row is a path
    through the visible stages, paths are limited to the top nodes of each
    stage, and metrics accumulate on the nodes and links they pass.  This file
    translates the construction of the graph, its filters, masking and
    highlighting, and the reading of chart data.

    Three things belong to the host or to libraries and are variables:
    [localeCompare], the chart library's colour schemes, and the number format
    of [Intl].  Objects stored in a [Map] and mutated through it are the values
    of the association list; nothing else holds a reference to them while the
    graph is built. *)

From S2P Require Import Prelude JsString JsRegExp JsNumber JsValue JsMap.
Local Open Scope Z_scope.
Local Open Scope js_scope.

Module FlowGraph.

(** ** Data *)

Record FlowQuotaDataItem := MkRow {
  user_id : option number;
  username : option jsstr;
  node_name : option jsstr;
  use_group : option jsstr;
  token_id : option number;
  token_name : option jsstr;
  channel_id : option number;
  channel_name : option jsstr;
  model_name : option jsstr;
  token_used : option number;
  count : option number;
  quota : option number;
}.

Inductive FlowMetric := metric_quota | metric_tokens | metric_requests.
Inductive FlowOverflowMode := aggregate | hide.
Inductive FlowRole := role_user | role_admin | role_root.
Inductive FlowNodeKind := KUser | KNode | KToken | KGroup | KModel | KChannel.

#[global] Instance FlowNodeKind_eq_dec : EqDecision FlowNodeKind.
Proof. solve_decision. Defined.

Record FlowNodeFilter := MkFilter { filter_kind : FlowNodeKind; filter_id : jsstr }.
Record FlowLinkSelection := MkSelection { sel_source : jsstr; sel_target : jsstr }.

Record FlowMetrics := MkMetrics { m_quota : number; m_tokens : number; m_requests : number }.
Record FlowPathNode := MkPathNode { id : jsstr; label : jsstr; kind : FlowNodeKind }.
Record PreparedFlowPath := MkPrepared { path : list FlowPathNode; metrics : FlowMetrics }.

Record DashboardFlowNode := MkNode {
  n_id : jsstr; n_label : jsstr; n_kind : FlowNodeKind;
  n_value : number; n_requests : number; n_quota : number; n_tokens : number;
  n_color : jsstr; n_colorKey : jsstr;
  n_highlighted : option bool; n_dimmed : option bool;
}.

Record DashboardFlowLink := MkLink {
  source : jsstr; target : jsstr;
  l_value : number; l_requests : number; l_quota : number; l_tokens : number;
  sourceLabel : jsstr; targetLabel : jsstr;
  l_color : jsstr; linkColor : jsstr; linkAlpha : number; hoverColor : jsstr; l_colorKey : jsstr;
  share : number;
  l_highlighted : option bool; l_dimmed : option bool;
}.

Record DashboardFlowGraph := MkGraph { nodes : list DashboardFlowNode; links : list DashboardFlowLink }.

Definition FLOW_NODE_KINDS : list FlowNodeKind := [KUser; KNode; KToken; KGroup; KModel; KChannel].

Definition kind_text (k : FlowNodeKind) : jsstr :=
  match k with
  | KUser => "user" | KNode => "node" | KToken => "token"
  | KGroup => "group" | KModel => "model" | KChannel => "channel"
  end.

Definition OTHER_FLOW_NODE_IDS (k : FlowNodeKind) : jsstr :=
  match k with
  | KUser => "user:__other__" | KNode => "node:__other__" | KToken => "token:__other__"
  | KGroup => "group:__other__" | KModel => "model:__other__" | KChannel => "channel:__other__"
  end.

Definition DEFAULT_OTHER_FLOW_NODE_LABELS (k : FlowNodeKind) : jsstr :=
  match k with
  | KUser => "Other users" | KNode => "Other nodes" | KToken => "Other tokens"
  | KGroup => "Other groups" | KModel => "Other models" | KChannel => "Other channels"
  end.

Definition SENSITIVE_FLOW_KINDS : list FlowNodeKind := [KUser; KNode; KToken; KGroup; KChannel].

Definition OTHER_FLOW_NODE_ID_SET : list jsstr := set_of (OTHER_FLOW_NODE_IDS <$> FLOW_NODE_KINDS).

Definition zero : number := of_Z 0.

(** [numberValue] of a field of type [number | undefined]. *)
Definition numberValue (v : option number) : number :=
  match v with Some x => if is_finite x then x else zero | None => zero end.

(** [s || d] *)
Definition or_text (s : option jsstr) (d : jsstr) : jsstr :=
  match s with Some t => if nonempty t then t else d | None => d end.

Definition rowMetrics (row : FlowQuotaDataItem) : FlowMetrics :=
  MkMetrics (numberValue (quota row)) (numberValue (token_used row)) (numberValue (count row)).

Definition metricValue (m : FlowMetrics) (metric : FlowMetric) : number :=
  match metric with
  | metric_requests => m_requests m
  | metric_tokens => m_tokens m
  | metric_quota => m_quota m
  end.

(** ** Nodes of a row *)

Definition positive_num (x : number) : bool := num_ltb zero x.

Definition userNode (row : FlowQuotaDataItem) : FlowPathNode :=
  let userID := numberValue (user_id row) in
  MkPathNode
    ("user:" ++ if positive_num userID then num_to_string userID else or_text (username row) "unknown")
    (or_text (username row) (if positive_num userID then "user-" ++ num_to_string userID else "Unknown User"))
    KUser.

Definition nodeNameNode (row : FlowQuotaDataItem) : FlowPathNode :=
  let nodeName := or_text (node_name row) "default-node" in
  MkPathNode ("node:" ++ nodeName) nodeName KNode.

(** The caller's label for a deleted token, if it gives one. *)
Definition FlowPathContext : Type := option (number → jsstr).

Definition deletedTokenLabel (tokenID : number) (ctx : FlowPathContext) : jsstr :=
  if num_leb tokenID zero then "Unknown Token"
  else match ctx with Some f => f tokenID | None => "token-" ++ num_to_string tokenID end.

Definition tokenNode (row : FlowQuotaDataItem) (ctx : FlowPathContext) : FlowPathNode :=
  let tokenID := numberValue (token_id row) in
  MkPathNode
    ("token:" ++ if positive_num tokenID then num_to_string tokenID else or_text (token_name row) "unknown")
    (or_text (token_name row) (deletedTokenLabel tokenID ctx))
    KToken.

Definition groupNode (row : FlowQuotaDataItem) : FlowPathNode :=
  let useGroup := or_text (use_group row) "unknown" in
  MkPathNode ("group:" ++ useGroup) useGroup KGroup.

Definition modelNode (row : FlowQuotaDataItem) : FlowPathNode :=
  MkPathNode ("model:" ++ or_text (model_name row) "unknown") (or_text (model_name row) "Unknown Model") KModel.

Definition channelNode (row : FlowQuotaDataItem) : FlowPathNode :=
  let channelID := numberValue (channel_id row) in
  MkPathNode
    ("channel:" ++ if positive_num channelID then num_to_string channelID else or_text (channel_name row) "unknown")
    (or_text (channel_name row) (if positive_num channelID then "channel-" ++ num_to_string channelID else "Unknown"))
    KChannel.

Definition NODE_BUILDERS (k : FlowNodeKind) (row : FlowQuotaDataItem) (ctx : FlowPathContext) : FlowPathNode :=
  match k with
  | KUser => userNode row
  | KNode => nodeNameNode row
  | KToken => tokenNode row ctx
  | KGroup => groupNode row
  | KModel => modelNode row
  | KChannel => channelNode row
  end.

(** ** Stages *)

Definition ROLE_FLOW_STAGES (r : FlowRole) : list FlowNodeKind :=
  match r with
  | role_root => [KUser; KNode; KToken; KGroup; KModel; KChannel]
  | role_admin => [KUser; KGroup; KModel; KChannel]
  | role_user => [KToken; KGroup; KModel]
  end.

Definition MIN_FLOW_STAGES : nat := 2.

Definition getFlowStages (r : FlowRole) : list FlowNodeKind := ROLE_FLOW_STAGES r.

Definition has_kind (ks : list FlowNodeKind) (k : FlowNodeKind) : bool := bool_decide (k ∈ ks).
Definition has_id (ids : list jsstr) (i : jsstr) : bool := bool_decide (i ∈ ids).

Definition resolveVisibleStages (role : FlowRole) (visibleStages : option (list FlowNodeKind)) : list FlowNodeKind :=
  let stages := getFlowStages role in
  match visibleStages with
  | None => stages
  | Some vs =>
    let filtered := List.filter (has_kind (set_of vs)) stages in
    if Nat.leb MIN_FLOW_STAGES (length filtered) then filtered else stages
  end.

Definition flowPathForStages (row : FlowQuotaDataItem) (stages : list FlowNodeKind) (ctx : FlowPathContext) :
    list FlowPathNode :=
  map (λ stage, NODE_BUILDERS stage row ctx) stages.

(** ** Filters *)

Definition filterRows (rows : list FlowQuotaDataItem) (selectedUsers : option (list jsstr)) : list FlowQuotaDataItem :=
  let selected := set_of (default [] selectedUsers) in
  match selected with
  | [] => rows
  | _ => List.filter (λ row, has_id selected (id (userNode row))) rows
  end.

Definition nodeFilterKey (f : FlowNodeFilter) : jsstr := kind_text (filter_kind f) ++ [0%N] ++ filter_id f.

Definition normalizeSelectedNodeFilters (selectedNodes : option (list FlowNodeFilter)) (stages : list FlowNodeKind) :
    list (FlowNodeKind * list jsstr) :=
  fold_left (λ filters f,
      if has_kind (set_of stages) (filter_kind f)
      then map_update filters (filter_kind f) [] (λ selected, set_add selected (filter_id f))
      else filters)
    (default [] selectedNodes) [].

Definition path_ids_by_kind (p : list FlowPathNode) : list (FlowNodeKind * list jsstr) :=
  fold_left (λ m node, map_update m (kind node) [] (λ ids, set_add ids (id node))) p [].

Definition pathMatchesNodeFilters (p : list FlowPathNode) (filters : list (FlowNodeKind * list jsstr)) : bool :=
  match filters with
  | [] => true
  | _ =>
    let pathNodesByKind := path_ids_by_kind p in
    forallb (λ f, match map_get pathNodesByKind f.1 with
                  | None => false
                  | Some pathIds => existsb (has_id pathIds) f.2
                  end) filters
  end.

Definition filterRowsByNodes (rows : list FlowQuotaDataItem) (selectedNodes : option (list FlowNodeFilter))
    (stages : list FlowNodeKind) (ctx : FlowPathContext) : list FlowQuotaDataItem :=
  let filters := normalizeSelectedNodeFilters selectedNodes stages in
  match filters with
  | [] => rows
  | _ => List.filter (λ row, pathMatchesNodeFilters (flowPathForStages row stages ctx) filters) rows
  end.

Definition selectedNodeFiltersExceptKind (selectedNodes : option (list FlowNodeFilter)) (k : FlowNodeKind) :
    option (list FlowNodeFilter) :=
  match List.filter (λ f, negb (bool_decide (filter_kind f = k))) (default [] selectedNodes) with
  | [] => None
  | fs => Some fs
  end.

(** ** Accumulation *)

Definition addNode (m : list (jsstr * DashboardFlowNode)) (pathNode : FlowPathNode) (ms : FlowMetrics)
    (metric : FlowMetric) (color colorKey : jsstr) : list (jsstr * DashboardFlowNode) :=
  map_update m (id pathNode)
    (MkNode (id pathNode) (label pathNode) (kind pathNode) zero zero zero zero color colorKey None None)
    (λ p, MkNode (n_id p) (n_label p) (n_kind p)
            (num_add (n_value p) (metricValue ms metric)) (num_add (n_requests p) (m_requests ms))
            (num_add (n_quota p) (m_quota ms)) (num_add (n_tokens p) (m_tokens ms))
            (n_color p) (n_colorKey p) (n_highlighted p) (n_dimmed p)).

Definition pathLinkKey (s t : FlowPathNode) : jsstr := id s ++ [0%N] ++ id t.
Definition linkStableKey (l : DashboardFlowLink) : jsstr := source l ++ [0%N] ++ target l.

Definition addLink (m : list (jsstr * DashboardFlowLink)) (s t : FlowPathNode) (ms : FlowMetrics)
    (metric : FlowMetric) (color colorKey : jsstr) : list (jsstr * DashboardFlowLink) :=
  map_update m (id s ++ [0%N] ++ id t)
    (MkLink (id s) (id t) zero zero zero zero (label s) (label t) color color (of_Z 1) color colorKey zero None None)
    (λ p, MkLink (source p) (target p)
            (num_add (l_value p) (metricValue ms metric)) (num_add (l_requests p) (m_requests ms))
            (num_add (l_quota p) (m_quota ms)) (num_add (l_tokens p) (m_tokens ms))
            (sourceLabel p) (targetLabel p) (l_color p) (linkColor p) (linkAlpha p) (hoverColor p)
            (l_colorKey p) (share p) (l_highlighted p) (l_dimmed p)).

(** Consecutive nodes of a path. *)
Fixpoint steps (p : list FlowPathNode) : list (FlowPathNode * FlowPathNode) :=
  match p with
  | a :: (b :: _) as r => (a, b) :: steps r
  | _ => []
  end.

Record FlowSummary := MkSummary { s_quota : number; s_tokens : number; s_requests : number }.

Definition buildSummary (rows : list FlowQuotaDataItem) : FlowSummary :=
  fold_left (λ s row, let m := rowMetrics row in
      MkSummary (num_add (s_quota s) (m_quota m)) (num_add (s_tokens s) (m_tokens m)) (num_add (s_requests s) (m_requests m)))
    rows (MkSummary zero zero zero).

(** ** The top-node limit *)

Definition normalizeTopNodeLimit (limit : option number) : option Z :=
  match limit with
  | None => None
  | Some x => match num_floor x with Some z => if 0 <? z then Some z else None | None => None end
  end.

Definition otherFlowNode (k : FlowNodeKind) (labeler : option (FlowNodeKind → jsstr)) : FlowPathNode :=
  MkPathNode (OTHER_FLOW_NODE_IDS k)
    (match labeler with Some f => f k | None => DEFAULT_OTHER_FLOW_NODE_LABELS k end) k.

Record FlowNodeRank := MkRank { rank_node : FlowPathNode; rank_value : number }.

Definition add_rank (v : number) (totals : list (FlowNodeKind * list (jsstr * FlowNodeRank))) (node : FlowPathNode) :
    list (FlowNodeKind * list (jsstr * FlowNodeRank)) :=
  match map_get totals (kind node) with
  | None => totals
  | Some stageTotals =>
    map_set totals (kind node)
      (map_update stageTotals (id node) (MkRank node zero)
         (λ r, MkRank (rank_node r) (num_add (rank_value r) v)))
  end.

Definition rank_totals (rows : list FlowQuotaDataItem) (metric : FlowMetric) (stages : list FlowNodeKind)
    (ctx : FlowPathContext) : list (FlowNodeKind * list (jsstr * FlowNodeRank)) :=
  fold_left (λ totals row,
      fold_left (add_rank (metricValue (rowMetrics row) metric)) (flowPathForStages row stages ctx) totals)
    rows (fold_left (λ totals stage, map_set totals stage []) stages []).

Definition isTopFlowNode (node : FlowPathNode) (topNodeSets : option (list (FlowNodeKind * list jsstr))) : bool :=
  match topNodeSets with
  | None => true
  | Some sets => match map_get sets (kind node) with None => true | Some ids => has_id ids (id node) end
  end.

Definition applyTopNodeLimit (p : list FlowPathNode) (topNodeSets : option (list (FlowNodeKind * list jsstr)))
    (mode : FlowOverflowMode) (labeler : option (FlowNodeKind → jsstr)) : option (list FlowPathNode) :=
  match topNodeSets with
  | None => Some p
  | Some _ =>
    if negb (existsb (λ node, negb (isTopFlowNode node topNodeSets)) p) then Some p
    else match mode with
         | hide => None
         | aggregate =>
           Some (map (λ node, if isTopFlowNode node topNodeSets then node else otherFlowNode (kind node) labeler) p)
         end
  end.

(** ** Highlighting *)

Definition pathContainsFlowNode (p : list FlowPathNode) (f : FlowNodeFilter) : bool :=
  existsb (λ node, bool_decide (kind node = filter_kind f) && str_eqb (id node) (filter_id f)) p.

Definition pathContainsFlowLink (p : list FlowPathNode) (l : FlowLinkSelection) : bool :=
  existsb (λ st, str_eqb (id st.1) (sel_source l) && str_eqb (id st.2) (sel_target l)) (steps p).

Record FlowHighlightSets := MkHighlights { h_nodes : list jsstr; h_links : list jsstr }.

Definition buildFlowHighlightSets (preparedPaths : list PreparedFlowPath) (activeNode : option FlowNodeFilter)
    (activeLink : option FlowLinkSelection) (stages : list FlowNodeKind) : option FlowHighlightSets :=
  let nodeActive := match activeNode with Some f => has_kind stages (filter_kind f) | None => false end in
  match negb nodeActive, activeLink with
  | true, None => None
  | _, _ =>
    let matchesPath p :=
      match activeLink, activeNode with
      | Some l, _ => pathContainsFlowLink p l
      | None, Some f => pathContainsFlowNode p f
      | None, None => false
      end in
    let matching := List.filter matchesPath (map path preparedPaths) in
    let ns := fold_left (λ s p, fold_left (λ s node, set_add s (id node)) p s) matching [] in
    let ls := fold_left (λ s p, fold_left (λ s st, set_add s (pathLinkKey st.1 st.2)) (steps p) s) matching [] in
    match ns with [] => None | _ => Some (MkHighlights ns ls) end
  end.

Definition applyFlowHighlights (hs : option FlowHighlightSets) (ns : list (jsstr * DashboardFlowNode))
    (ls : list (jsstr * DashboardFlowLink)) : list (jsstr * DashboardFlowNode) * list (jsstr * DashboardFlowLink) :=
  match hs with
  | None => (ns, ls)
  | Some h =>
    (map (λ e, let n := e.2 in let b := has_id (h_nodes h) (n_id n) in
       (e.1, MkNode (n_id n) (n_label n) (n_kind n) (n_value n) (n_requests n) (n_quota n) (n_tokens n)
               (n_color n) (n_colorKey n) (Some b) (Some (negb b)))) ns,
     map (λ e, let l := e.2 in let b := has_id (h_links h) (linkStableKey l) in
       (e.1, MkLink (source l) (target l) (l_value l) (l_requests l) (l_quota l) (l_tokens l) (sourceLabel l)
               (targetLabel l) (l_color l) (linkColor l) (linkAlpha l) (hoverColor l) (l_colorKey l) (share l)
               (Some b) (Some (negb b)))) ls)
  end.

(** ** Masking *)

(** Four bullets, U+2022. *)
Definition FLOW_MASK_TEXT : jsstr := [8226; 8226; 8226; 8226]%N.

Definition maskFlowLabel (l : jsstr) : jsstr := match l with [] => l | _ => FLOW_MASK_TEXT end.

Definition masks (n : DashboardFlowNode) : bool :=
  has_kind SENSITIVE_FLOW_KINDS (n_kind n) && negb (has_id OTHER_FLOW_NODE_ID_SET (n_id n)).

Definition with_label (t : jsstr) (n : DashboardFlowNode) : DashboardFlowNode :=
  MkNode (n_id n) t (n_kind n) (n_value n) (n_requests n) (n_quota n) (n_tokens n) (n_color n) (n_colorKey n)
    (n_highlighted n) (n_dimmed n).

Definition with_labels (s t : jsstr) (l : DashboardFlowLink) : DashboardFlowLink :=
  MkLink (source l) (target l) (l_value l) (l_requests l) (l_quota l) (l_tokens l) s t (l_color l) (linkColor l)
    (linkAlpha l) (hoverColor l) (l_colorKey l) (share l) (l_highlighted l) (l_dimmed l).

Definition maskFlowGraphLabels (ns : list (jsstr * DashboardFlowNode)) (ls : list (jsstr * DashboardFlowLink)) :
    list (jsstr * DashboardFlowNode) * list (jsstr * DashboardFlowLink) :=
  let ns' := map (λ e, (e.1, if masks e.2 then with_label (maskFlowLabel (n_label e.2)) e.2 else e.2)) ns in
  let maskedById := fold_left (λ m e, if masks e.2 then map_set m (n_id e.2) (maskFlowLabel (n_label e.2)) else m) ns [] in
  match maskedById with
  | [] => (ns', ls)
  | _ =>
    (ns', map (λ e, (e.1, with_labels (default (sourceLabel e.2) (map_get maskedById (source e.2)))
                           (default (targetLabel e.2) (map_get maskedById (target e.2))) e.2)) ls)
  end.

(** ** Colours *)

Definition DEFAULT_FLOW_CHART_COLOR : jsstr := "#1664FF".

(** A colour scheme of the chart library; [None] stands for an entry that is
    not a string. *)
Record ColorScheme := MkScheme { maxDomainLength : option Z; scheme : list (option jsstr) }.

Definition is_hex_char (c : N) : bool := match hex_val c with Some _ => true | None => false end.

Definition hex_number (ds : jsstr) : Z := fold_left (λ acc c, 16 * acc + default 0 (hex_val c)) ds 0.

Definition alphaColor (color : jsstr) (alpha : number) : jsstr * number :=
  let normalized := trim color in
  let hex := if startsWith normalized "#" then drop 1 normalized else normalized in
  if negb (Nat.eqb (length hex) 6 && forallb is_hex_char hex) then (normalized, alpha)
  else
    let v := hex_number hex in
    ("rgba(" ++ Z_to_string (Z.land (Z.shiftr v 16) 255) ++ ", " ++ Z_to_string (Z.land (Z.shiftr v 8) 255) ++ ", " ++
     Z_to_string (Z.land v 255) ++ ", " ++ num_to_fixed2 alpha ++ ")", of_Z 1).

Section Host.
Variable localeCompare : jsstr → jsstr → number.
Variable vchartDefaultDataScheme : list ColorScheme.
Variable formatNumber : number → jsstr.

(** The first scheme that is long enough, else the last. *)
Definition getDashboardChartColors (domainLength : nat) : list jsstr :=
  let fits s := match maxDomainLength s with None => true | Some m => (m =? 0) || (Z.of_nat domainLength <=? m) end in
  match List.find fits vchartDefaultDataScheme, last vchartDefaultDataScheme with
  | Some s, _ | None, Some s => omap (λ c, c) (scheme s)
  | None, None => []
  end.

Definition colorAt (index : nat) (palette : option (list jsstr)) : jsstr :=
  let colors := match palette with Some (c :: cs) => c :: cs | _ => getDashboardChartColors (index + 1) end in
  match colors with
  | [] => DEFAULT_FLOW_CHART_COLOR
  | _ => default DEFAULT_FLOW_CHART_COLOR (colors !! (index mod length colors)%nat)
  end.

Definition colorPalette (colorCount : nat) (palette : option (list jsstr)) : list jsstr :=
  match palette with
  | Some (c :: cs) => c :: cs
  | _ => match getDashboardChartColors colorCount with [] => [DEFAULT_FLOW_CHART_COLOR] | cs => cs end
  end.

Definition stableColorMap (keys : list jsstr) (palette : option (list jsstr)) : list (jsstr * jsstr) :=
  let uniqueKeys := set_of keys in
  let colors := colorPalette (length uniqueKeys) palette in
  imap (λ index key, (key, colorAt index (Some colors))) uniqueKeys.

Definition sort_text (l : list jsstr) : list jsstr := sort_by localeCompare l.

(** The position of the link number [i] in the draw order of its source. *)
Definition by_value_then_key (a b : nat * DashboardFlowLink) : number :=
  cmp_or (num_sub (l_value b.2) (l_value a.2)) (localeCompare (linkStableKey a.2) (linkStableKey b.2)).

Definition display_link (sorted : list (nat * DashboardFlowLink)) (i : nat) (l : DashboardFlowLink) : DashboardFlowLink :=
  let n := Z.of_nat (length sorted) in
  let denominator := of_Z (Z.max (n - 1) 1) in
  let index := default 0%nat (fst <$> list_find (λ e, e.1 = i) sorted) in
  let alpha := if n =? 1 then Number_of_string "0.34"
               else num_add (Number_of_string "0.24")
                      (num_mul (num_div (of_Z (Z.of_nat index)) denominator) (Number_of_string "0.2")) in
  let displayColor := alphaColor (l_color l) alpha in
  MkLink (source l) (target l) (l_value l) (l_requests l) (l_quota l) (l_tokens l) (sourceLabel l) (targetLabel l)
    (l_color l) displayColor.1 displayColor.2 (l_color l) (l_colorKey l) (share l) (l_highlighted l) (l_dimmed l).

Definition assignLinkDisplayColors (ls : list DashboardFlowLink) : list DashboardFlowLink :=
  let indexed := imap pair ls in
  imap (λ i l,
      let sourceLinks := List.filter (λ e, str_eqb (source e.2) (source l)) indexed in
      display_link (sort_by by_value_then_key sourceLinks) i l) ls.

(** ** The graph *)

Definition by_rank (a b : FlowNodeRank) : number :=
  cmp_or (num_sub (rank_value b) (rank_value a))
    (cmp_or (localeCompare (label (rank_node a)) (label (rank_node b)))
       (localeCompare (id (rank_node a)) (id (rank_node b)))).

Definition top_ids (limit : Z) (stageTotals : list (jsstr * FlowNodeRank)) : list jsstr :=
  set_of (map (λ r, id (rank_node r))
    (take (Z.to_nat (Z.min limit (Z.of_nat (length stageTotals)))) (sort_by by_rank (stageTotals.*2)))).

Definition buildTopNodeSets (rows : list FlowQuotaDataItem) (metric : FlowMetric) (stages : list FlowNodeKind)
    (limit : option Z) (ctx : FlowPathContext) : option (list (FlowNodeKind * list jsstr)) :=
  match limit with
  | None => None
  | Some n =>
    if n =? 0 then None
    else Some (fold_left (λ sets e, map_set sets e.1 (top_ids n e.2)) (rank_totals rows metric stages ctx) [])
  end.

Record FlowGraphOptions := MkGraphOptions {
  topNodeLimit : option number;
  overflowMode : option FlowOverflowMode;
  otherNodeLabel : option (FlowNodeKind → jsstr);
  activeNode : option FlowNodeFilter;
  activeLink : option FlowLinkSelection;
  maskSensitive : bool;
}.

Definition prepare (rows : list FlowQuotaDataItem) (metric : FlowMetric) (stages : list FlowNodeKind)
    (ctx : FlowPathContext) (options : FlowGraphOptions) : list PreparedFlowPath :=
  let topNodeSets := buildTopNodeSets rows metric stages (normalizeTopNodeLimit (topNodeLimit options)) ctx in
  omap (λ row,
      match applyTopNodeLimit (flowPathForStages row stages ctx) topNodeSets
              (default aggregate (overflowMode options)) (otherNodeLabel options) with
      | Some p => Some (MkPrepared p (rowMetrics row))
      | None => None
      end) rows.

(** The first node's id of every prepared path. *)
Definition first_ids (ps : list PreparedFlowPath) : list jsstr :=
  List.filter nonempty (omap (λ p, id <$> head (path p)) ps).

Definition add_path (metric : FlowMetric) (palette : option (list jsstr)) (colors : list (jsstr * jsstr))
    (g : list (jsstr * DashboardFlowNode) * list (jsstr * DashboardFlowLink)) (p : PreparedFlowPath) :
    list (jsstr * DashboardFlowNode) * list (jsstr * DashboardFlowLink) :=
  match path p with
  | [] => g
  | root :: _ =>
    let color := default (colorAt 0 palette) (map_get colors (id root)) in
    (fold_left (λ m node, addNode m node (metrics p) metric color (id root)) (path p) g.1,
     fold_left (λ m st, addLink m st.1 st.2 (metrics p) metric color (id root)) (steps (path p)) g.2)
  end.

Definition by_link_ends (a b : DashboardFlowLink) : number :=
  cmp_or (localeCompare (source a) (source b)) (localeCompare (target a) (target b)).

Definition byValueThenLabel (a b : DashboardFlowNode) : number :=
  cmp_or (num_sub (n_value b) (n_value a)) (localeCompare (n_label a) (n_label b)).

Definition with_share (total : number) (l : DashboardFlowLink) : DashboardFlowLink :=
  MkLink (source l) (target l) (l_value l) (l_requests l) (l_quota l) (l_tokens l) (sourceLabel l) (targetLabel l)
    (l_color l) (linkColor l) (linkAlpha l) (hoverColor l) (l_colorKey l)
    (if num_ltb zero total then num_div (l_value l) total else zero) (l_highlighted l) (l_dimmed l).

(** The nodes and links of the prepared paths, before sorting. *)
Definition accumulate (ps : list PreparedFlowPath) (metric : FlowMetric) (palette : option (list jsstr)) :
    list (jsstr * DashboardFlowNode) * list (jsstr * DashboardFlowLink) :=
  fold_left (add_path metric palette (stableColorMap (sort_text (first_ids ps)) palette)) ps ([], []).

Definition buildFlowGraph (rows : list FlowQuotaDataItem) (metric : FlowMetric) (role : FlowRole)
    (palette : option (list jsstr)) (visibleStages : option (list FlowNodeKind)) (ctx : FlowPathContext)
    (options : FlowGraphOptions) : DashboardFlowGraph :=
  let stages := resolveVisibleStages role visibleStages in
  let preparedPaths := prepare rows metric stages ctx options in
  let g := accumulate preparedPaths metric palette in
  let g := if maskSensitive options then maskFlowGraphLabels g.1 g.2 else g in
  let g := applyFlowHighlights
             (buildFlowHighlightSets preparedPaths (activeNode options) (activeLink options) stages) g.1 g.2 in
  let flowLinks := sort_by by_link_ends (g.2.*2) in
  let firstStepSources := set_of (first_ids preparedPaths) in
  let total := fold_left (λ sum l, num_add sum (l_value l))
                 (List.filter (λ l, has_id firstStepSources (source l)) flowLinks) zero in
  MkGraph (sort_by byValueThenLabel (g.1.*2)) (assignLinkDisplayColors (map (with_share total) flowLinks)).

(** ** Filter options *)

Record FlowUserFilterOption := MkUserOption {
  uo_value : jsstr; uo_label : jsstr; uo_valueLabel : jsstr; uo_valueRaw : number; uo_color : jsstr;
}.

Definition buildUserFilterOptions (rows : list FlowQuotaDataItem) (metric : FlowMetric) (palette : option (list jsstr)) :
    list FlowUserFilterOption :=
  let colors := stableColorMap (sort_text (map (λ row, id (userNode row)) rows)) palette in
  let falsy row := negb (match user_id row with Some x => num_truthy x | None => false end) &&
                   negb (match username row with Some s => nonempty s | None => false end) in
  let users := fold_left (λ m row,
      if falsy row then m
      else
        let user := userNode row in
        map_update m (id user)
          (label user, zero, default (colorAt 0 palette) (map_get colors (id user)))
          (λ c, (c.1.1, num_add c.1.2 (metricValue (rowMetrics row) metric), c.2))) rows [] in
  sort_by (λ a b, cmp_or (num_sub (uo_valueRaw b) (uo_valueRaw a)) (localeCompare (uo_label a) (uo_label b)))
    (map (λ e, MkUserOption e.1 e.2.1.1 (formatNumber e.2.1.2) e.2.1.2 e.2.2) users).

Record FlowNodeFilterOption := MkNodeOption {
  no_kind : FlowNodeKind; no_value : jsstr; no_label : jsstr; no_valueLabel : jsstr; no_valueRaw : number; no_color : jsstr;
}.

Definition kind_index (stages : list FlowNodeKind) (k : FlowNodeKind) : number :=
  of_Z (Z.of_nat (default 0%nat (fst <$> list_find (λ s, s = k) stages))).

Definition stage_options (rows : list FlowQuotaDataItem) (metric : FlowMetric) (stages : list FlowNodeKind)
    (palette : option (list jsstr)) (colors : list (jsstr * jsstr)) (ctx : FlowPathContext)
    (selectedNodes : option (list FlowNodeFilter)) (stage : FlowNodeKind) : list FlowNodeFilterOption :=
  let candidateRows := filterRowsByNodes rows (selectedNodeFiltersExceptKind selectedNodes stage) stages ctx in
  let totals := fold_left (λ m row,
      let node := NODE_BUILDERS stage row ctx in
      map_update m (nodeFilterKey (MkFilter (kind node) (id node))) (MkRank node zero)
        (λ r, MkRank (rank_node r) (num_add (rank_value r) (metricValue (rowMetrics row) metric))))
    candidateRows [] in
  map (λ e, let r := e.2 in
      MkNodeOption (kind (rank_node r)) (id (rank_node r)) (label (rank_node r)) (formatNumber (rank_value r))
        (rank_value r) (default (colorAt 0 palette) (map_get colors (id (rank_node r))))) totals.

Definition by_node_option (stages : list FlowNodeKind) (a b : FlowNodeFilterOption) : number :=
  cmp_or (num_sub (kind_index stages (no_kind a)) (kind_index stages (no_kind b)))
    (cmp_or (num_sub (no_valueRaw b) (no_valueRaw a))
       (cmp_or (localeCompare (no_label a) (no_label b)) (localeCompare (no_value a) (no_value b)))).

Definition buildNodeFilterOptions (rows : list FlowQuotaDataItem) (metric : FlowMetric) (role : FlowRole)
    (visibleStages : option (list FlowNodeKind)) (palette : option (list jsstr)) (ctx : FlowPathContext)
    (selectedNodes : option (list FlowNodeFilter)) : list FlowNodeFilterOption :=
  let stages := resolveVisibleStages role visibleStages in
  let colorIds := fold_left (λ s row, fold_left (λ s node, set_add s (id node)) (flowPathForStages row stages ctx) s) rows [] in
  let colors := stableColorMap (sort_text colorIds) palette in
  sort_by (by_node_option stages)
    (flat_map (stage_options rows metric stages palette colors ctx selectedNodes) stages).

Record FlowFilterOptions := MkFilterOptions { fo_users : list FlowUserFilterOption; fo_nodes : list FlowNodeFilterOption }.

Definition buildFlowFilterOptions (rows : list FlowQuotaDataItem) (metric : FlowMetric) (palette : option (list jsstr))
    (role : FlowRole) (visibleStages : option (list FlowNodeKind)) (selectedNodes : option (list FlowNodeFilter)) :
    FlowFilterOptions :=
  MkFilterOptions (buildUserFilterOptions rows metric palette)
    (buildNodeFilterOptions rows metric role visibleStages palette None selectedNodes).

Record FlowBuildOptions := MkBuildOptions {
  role : option FlowRole;
  selectedUsers : option (list jsstr);
  selectedNodes : option (list FlowNodeFilter);
  colorPalette_ : option (list jsstr);
  visibleStages : option (list FlowNodeKind);
  deletedTokenLabel_ : FlowPathContext;
  graph_options : FlowGraphOptions;
}.

Record ProcessedFlowData := MkProcessed { summary : FlowSummary; flow : DashboardFlowGraph; filterOptions : FlowFilterOptions }.

Definition buildDashboardFlowData (rows : list FlowQuotaDataItem) (metric : FlowMetric) (options : FlowBuildOptions) :
    ProcessedFlowData :=
  let r := default role_user (role options) in
  let palette := colorPalette_ options in
  let ctx := deletedTokenLabel_ options in
  let stages := resolveVisibleStages r (visibleStages options) in
  let userFilteredRows := filterRows rows (selectedUsers options) in
  let filteredRows := filterRowsByNodes userFilteredRows (selectedNodes options) stages ctx in
  MkProcessed (buildSummary filteredRows)
    (buildFlowGraph filteredRows metric r palette (visibleStages options) ctx (graph_options options))
    (MkFilterOptions (buildUserFilterOptions rows metric palette)
       (buildNodeFilterOptions userFilteredRows metric r (visibleStages options) palette ctx (selectedNodes options))).
End Host.

(** ** Reading chart data *)

Definition isFlowNodeKind (v : value) : option FlowNodeKind :=
  match v with VStr s => List.find (λ k, str_eqb (kind_text k) s) FLOW_NODE_KINDS | _ => None end.

Definition recordValue (v : value) : option value := if truthy v && is_object v then Some v else None.

(** [nested[depth]] of an array; any other index reads [undefined]. *)
Definition array_at (vs : list value) (depth : number) : value :=
  if is_integer depth then
    match num_floor depth with
    | Some z => if (0 <=? z) && (z <? Z.of_nat (length vs)) then default VUndef (vs !! Z.to_nat z) else VUndef
    | None => VUndef
    end
  else VUndef.

(** [numberValue] of any value: [Number(v)], or zero if that is not finite. *)
Definition value_number (v : value) : number :=
  let n := match v with
           | VUndef => NaN
           | VNull => zero
           | VBool b => of_Z (if b then 1 else 0)
           | VNum x => x
           | VStr s => Number_of_string s
           | VArr _ | VObj _ => Number_of_string (to_string v)
           end in
  numberValue (Some n).

Definition sankeyDatumSource (datum : value) : value :=
  match prop datum "datum" with
  | VArr vs =>
    match recordValue (array_at vs (value_number (prop datum "depth"))), recordValue (array_at vs zero) with
    | Some r, _ | None, Some r => r
    | None, None => datum
    end
  | nested => default datum (recordValue nested)
  end.

Definition sankeyDatumValue (datum : value) (key : jsstr) : value :=
  if negb (is_undefined (prop datum key)) then prop datum key else prop (sankeyDatumSource datum) key.

Definition sankeyDatumFlag (datum : value) (key : jsstr) : bool :=
  match sankeyDatumValue datum key with VBool b => b | _ => false end.

Definition flowSankeyDatumValue (datum : value) (key : jsstr) : value :=
  match recordValue datum with Some r => sankeyDatumValue r key | None => VUndef end.

Definition isSankeyLinkDatum (datum : value) : bool :=
  negb (is_undefined (sankeyDatumValue datum "source")) && negb (is_undefined (sankeyDatumValue datum "target")).

Definition flowNodeFilterFromSankeyDatum (datum : value) : option FlowNodeFilter :=
  match recordValue datum with
  | None => None
  | Some record =>
    if isSankeyLinkDatum record then None
    else
      let idv := flowSankeyDatumValue record "key" in
      match isFlowNodeKind (flowSankeyDatumValue record "kind") with
      | Some k => if is_string idv || is_number idv then Some (MkFilter k (to_string idv)) else None
      | None => None
      end
  end.
End FlowGraph.
