(* ===== verification/FlowGraphFacts.v ===== *)
(** * Theorems on dashboard flow graphs

    The metrics of a node or link are exactly the sums over the paths that pass
    it, links only join nodes of the graph, the top-node limit bounds every
    column and loses no row when it aggregates, masking leaves no sensitive
    label readable, and highlighting marks exactly the selected paths.  They
    hold for every [localeCompare], colour scheme and number format. *)

From S2P Require Import Prelude JsString JsNumber JsValue JsMap FlowGraph.
Local Open Scope Z_scope.

Module FlowGraphFacts.
Import FlowGraph.

(** ** Accumulated maps *)

(** An object that is created by its first event under a key and then only
    accumulates the events of that key. *)
Section Accumulate.
Context {E V : Type} (key : E → jsstr) (new : E → V) (step : E → V → V).

Definition acc_all (es : list E) : list (jsstr * V) :=
  fold_left (λ m e, map_update m (key e) (new e) (step e)) es [].

Definition events_at (es : list E) (i : jsstr) : list E := List.filter (λ e, str_eqb (key e) i) es.

(** The object of a list of events that share a key. *)
Definition object_of (es : list E) : option V :=
  match es with [] => None | e :: _ => Some (fold_left (λ v e, step e v) es (new e)) end.

Lemma object_of_snoc es e :
  object_of (es ++ [e]) = Some (step e (default (new e) (object_of es))).
Proof. destruct es as [|e0 es]; [done|]. cbn. by rewrite fold_left_app. Qed.

Lemma acc_all_snoc es e :
  acc_all (es ++ [e]) = map_update (acc_all es) (key e) (new e) (step e).
Proof. unfold acc_all. by rewrite fold_left_app. Qed.

Lemma acc_all_get es i : map_get (acc_all es) i = object_of (events_at es i).
Proof.
  induction es as [|e es IH] using rev_ind; [done|]. rewrite acc_all_snoc, map_get_update.
  unfold events_at. rewrite List.filter_app. cbn. destruct (str_eqb (key e) i) eqn:Ek.
  - apply str_eqb_spec in Ek as <-. rewrite decide_True by done. rewrite object_of_snoc. fold (events_at es (key e)).
    by rewrite <- IH.
  - apply str_eqb_neq in Ek. rewrite decide_False by done. by rewrite app_nil_r, IH.
Qed.

Lemma acc_all_NoDup es : NoDup (acc_all es).*1.
Proof.
  induction es as [|e es IH] using rev_ind; [constructor|]. rewrite acc_all_snoc. by apply map_set_NoDup.
Qed.

Lemma acc_all_elem es i v : (i, v) ∈ acc_all es → object_of (events_at es i) = Some v.
Proof. intros H. apply map_get_elem in H; [|apply acc_all_NoDup]. by rewrite acc_all_get in H. Qed.

Lemma acc_all_keys es i : i ∈ (acc_all es).*1 ↔ ∃ e, e ∈ es ∧ key e = i.
Proof.
  induction es as [|e es IH] using rev_ind; [cbn; set_solver|]. rewrite acc_all_snoc.
  unfold map_update. rewrite elem_of_map_set_keys, IH. set_solver.
Qed.

(** What holds of a new object and is kept by every event of the key holds of
    the object. *)
Lemma object_of_first es v : object_of es = Some v → ∃ e es', es = e :: es' ∧ v = fold_left (λ v e, step e v) es (new e).
Proof. destruct es as [|e es]; [done|]. intros [= <-]. by exists e, es. Qed.

(** A number that starts at zero and grows with every event. *)
Lemma object_sum (get : V → number) (amount : E → number) es v :
  (∀ e, get (new e) = zero) → (∀ e v, get (step e v) = num_add (get v) (amount e)) →
  object_of es = Some v → get v = fold_left num_add (map amount es) zero.
Proof.
  intros Hn Hs (e & es' & He & ->)%object_of_first. clear es'  He.
  rewrite <- (Hn e). generalize (new e). induction es as [|e' es IH]; intros v0; [done|]. cbn. by rewrite IH, Hs.
Qed.

(** A field no event changes. *)
Lemma object_field {B} (get : V → B) es v :
  (∀ e v, get (step e v) = get v) → object_of es = Some v → ∃ e, head es = Some e ∧ get v = get (new e).
Proof.
  intros Hs (e & es' & -> & ->)%object_of_first. exists e. split; [done|].
  assert (∀ l v0, get (fold_left (λ v e, step e v) l v0) = get v0) as H; [|by rewrite H].
  induction l as [|e' l IH]; intros v0; [done|]. cbn. by rewrite IH.
Qed.

Lemma events_head es i e : head (events_at es i) = Some e → e ∈ es ∧ key e = i.
Proof.
  intros H. assert (e ∈ events_at es i) as Hin by (destruct (events_at es i); [done|]; injection H as ->; left).
  apply elem_of_lfilter in Hin as [? Hk]. split; [done|]. by apply str_eqb_spec in Hk.
Qed.
End Accumulate.

Lemma fold_left_flat_map {A B C} (f : C → B → C) (g : A → list B) l acc :
  fold_left (λ c a, fold_left f (g a) c) l acc = fold_left f (flat_map g l) acc.
Proof. revert acc. induction l as [|a l IH]; intros acc; [done|]. cbn. by rewrite IH, fold_left_app. Qed.

Section Host.
Variable localeCompare : jsstr → jsstr → number.
Variable schemes : list ColorScheme.

(** ** Nodes and links of prepared paths *)

Definition root_of (p : PreparedFlowPath) : jsstr := match path p with [] => [] | r :: _ => id r end.

Definition node_events (ps : list PreparedFlowPath) : list (FlowPathNode * PreparedFlowPath) :=
  flat_map (λ p, map (λ n, (n, p)) (path p)) ps.
Definition link_events (ps : list PreparedFlowPath) : list ((FlowPathNode * FlowPathNode) * PreparedFlowPath) :=
  flat_map (λ p, map (λ st, (st, p)) (steps (path p))) ps.

Section Paths.
Variables (metric : FlowMetric) (color : PreparedFlowPath → jsstr).

Definition new_node (e : FlowPathNode * PreparedFlowPath) : DashboardFlowNode :=
  MkNode (id e.1) (label e.1) (kind e.1) zero zero zero zero (color e.2) (root_of e.2) None None.
Definition step_node (e : FlowPathNode * PreparedFlowPath) (p : DashboardFlowNode) : DashboardFlowNode :=
  MkNode (n_id p) (n_label p) (n_kind p)
    (num_add (n_value p) (metricValue (metrics e.2) metric)) (num_add (n_requests p) (m_requests (metrics e.2)))
    (num_add (n_quota p) (m_quota (metrics e.2))) (num_add (n_tokens p) (m_tokens (metrics e.2)))
    (n_color p) (n_colorKey p) (n_highlighted p) (n_dimmed p).

Definition link_key (e : (FlowPathNode * FlowPathNode) * PreparedFlowPath) : jsstr := pathLinkKey e.1.1 e.1.2.
Definition new_link (e : (FlowPathNode * FlowPathNode) * PreparedFlowPath) : DashboardFlowLink :=
  MkLink (id e.1.1) (id e.1.2) zero zero zero zero (label e.1.1) (label e.1.2) (color e.2) (color e.2) (of_Z 1)
    (color e.2) (root_of e.2) zero None None.
Definition step_link (e : (FlowPathNode * FlowPathNode) * PreparedFlowPath) (p : DashboardFlowLink) : DashboardFlowLink :=
  MkLink (source p) (target p)
    (num_add (l_value p) (metricValue (metrics e.2) metric)) (num_add (l_requests p) (m_requests (metrics e.2)))
    (num_add (l_quota p) (m_quota (metrics e.2))) (num_add (l_tokens p) (m_tokens (metrics e.2)))
    (sourceLabel p) (targetLabel p) (l_color p) (linkColor p) (linkAlpha p) (hoverColor p)
    (l_colorKey p) (share p) (l_highlighted p) (l_dimmed p).

Definition node_map (ps : list PreparedFlowPath) : list (jsstr * DashboardFlowNode) :=
  acc_all (λ e, id e.1) new_node step_node (node_events ps).
Definition link_map (ps : list PreparedFlowPath) : list (jsstr * DashboardFlowLink) :=
  acc_all link_key new_link step_link (link_events ps).
End Paths.

(** The colour a path gives to the nodes and links it creates. *)
Definition path_color (palette : option (list jsstr)) (colors : list (jsstr * jsstr)) (p : PreparedFlowPath) : jsstr :=
  default (colorAt schemes 0 palette) (map_get colors (root_of p)).

Lemma fold_left_map {A B C} (f : C → B → C) (g : A → B) l acc :
  fold_left f (map g l) acc = fold_left (λ c a, f c (g a)) l acc.
Proof. revert acc. induction l as [|a l IH]; intros acc; [done|]. cbn. by rewrite IH. Qed.

Lemma fold_left_ext' {A C} (f g : C → A → C) l acc : (∀ c a, f c a = g c a) → fold_left f l acc = fold_left g l acc.
Proof. intros H. revert acc. induction l as [|a l IH]; intros acc; [done|]. cbn. by rewrite H, IH. Qed.

Lemma add_path_spec metric palette colors g p :
  add_path schemes metric palette colors g p =
  (fold_left (λ m e, map_update m (id e.1) (new_node (path_color palette colors) e) (step_node metric e))
     (map (λ n, (n, p)) (path p)) g.1,
   fold_left (λ m e, map_update m (link_key e) (new_link (path_color palette colors) e) (step_link metric e))
     (map (λ st, (st, p)) (steps (path p))) g.2).
Proof.
  rewrite !fold_left_map. destruct p as [[|r rs] ms]; [by destruct g|]. reflexivity.
Qed.

Lemma accumulate_spec ps metric palette :
  let color := path_color palette (stableColorMap schemes (sort_text localeCompare (first_ids ps)) palette) in
  accumulate localeCompare schemes ps metric palette = (node_map metric color ps, link_map metric color ps).
Proof.
  intros color. unfold accumulate, node_map, link_map, acc_all, node_events, link_events.
  rewrite <- !fold_left_flat_map. set (colors := stableColorMap _ _ _) in *.
  assert (∀ l g, fold_left (add_path schemes metric palette colors) l g =
    (fold_left (λ c a, fold_left (λ m e, map_update m (id e.1) (new_node color e) (step_node metric e))
       (map (λ n, (n, a)) (path a)) c) l g.1,
     fold_left (λ c a, fold_left (λ m e, map_update m (link_key e) (new_link color e) (step_link metric e))
       (map (λ st, (st, a)) (steps (path a))) c) l g.2)) as H; [|by rewrite H].
  induction l as [|p l IH]; intros g; [by destruct g|]. cbn [fold_left]. rewrite IH, add_path_spec. done.
Qed.

(** ** Totals *)

(** The sum of a metric over the passages of the paths through a node, in the
    order of the paths; and over a link. *)
Definition node_total (f : FlowMetrics → number) (ps : list PreparedFlowPath) (i : jsstr) : number :=
  fold_left num_add (map (λ e, f (metrics e.2)) (events_at (λ e, id e.1) (node_events ps) i)) zero.
Definition link_total (f : FlowMetrics → number) (ps : list PreparedFlowPath) (k : jsstr) : number :=
  fold_left num_add (map (λ e, f (metrics e.2)) (events_at link_key (link_events ps) k)) zero.

(** What masking, highlighting, sorting and colouring leave of a node. *)
Record node_ok (metric : FlowMetric) (ps : list PreparedFlowPath) (n : DashboardFlowNode) : Prop := {
  ok_value : n_value n = node_total (λ m, metricValue m metric) ps (n_id n);
  ok_requests : n_requests n = node_total m_requests ps (n_id n);
  ok_quota : n_quota n = node_total m_quota ps (n_id n);
  ok_tokens : n_tokens n = node_total m_tokens ps (n_id n);
  ok_kind : ∃ p nd, p ∈ ps ∧ nd ∈ path p ∧ id nd = n_id n ∧ kind nd = n_kind n;
}.

Record link_ok (metric : FlowMetric) (ps : list PreparedFlowPath) (l : DashboardFlowLink) : Prop := {
  ok_l_value : l_value l = link_total (λ m, metricValue m metric) ps (linkStableKey l);
  ok_l_requests : l_requests l = link_total m_requests ps (linkStableKey l);
  ok_l_quota : l_quota l = link_total m_quota ps (linkStableKey l);
  ok_l_tokens : l_tokens l = link_total m_tokens ps (linkStableKey l);
  ok_ends : ∃ p a b, p ∈ ps ∧ (a, b) ∈ steps (path p) ∧ id a = source l ∧ id b = target l;
}.

Lemma elem_of_node_events ps nd p : (nd, p) ∈ node_events ps ↔ p ∈ ps ∧ nd ∈ path p.
Proof.
  unfold node_events. rewrite list_elem_of_In, in_flat_map. split.
  - intros (q & Hq & Hin). apply in_map_iff in Hin as (n & [= <- <-] & Hn). by rewrite !list_elem_of_In.
  - rewrite !list_elem_of_In. intros [Hp Hn]. exists p. split; [done|]. apply in_map_iff. by exists nd.
Qed.

Lemma elem_of_link_events ps st p : (st, p) ∈ link_events ps ↔ p ∈ ps ∧ st ∈ steps (path p).
Proof.
  unfold link_events. rewrite list_elem_of_In, in_flat_map. split.
  - intros (q & Hq & Hin). apply in_map_iff in Hin as (n & [= <- <-] & Hn). by rewrite !list_elem_of_In.
  - rewrite !list_elem_of_In. intros [Hp Hn]. exists p. split; [done|]. apply in_map_iff. by exists st.
Qed.

Lemma node_map_ok metric color ps i n : (i, n) ∈ node_map metric color ps →
  n_id n = i ∧ node_ok metric ps n.
Proof.
  intros H%acc_all_elem.
  destruct (object_field (new_node color) (step_node metric) n_id _ _ (λ _ _, eq_refl) H) as ([nd p] & He & Hid).
  destruct (object_field (new_node color) (step_node metric) n_kind _ _ (λ _ _, eq_refl) H) as (e2 & He2 & Hk). rewrite He in He2. injection He2 as <-.
  apply events_head in He as [[Hp Hnd]%elem_of_node_events Hi]. cbn in Hid, Hk, Hi. subst i.
  split; [done|]. rewrite <- Hid in H. constructor.
  - exact (object_sum (new_node color) (step_node metric) n_value (λ e, metricValue (metrics e.2) metric) _ _ (λ _, eq_refl) (λ _ _, eq_refl) H).
  - exact (object_sum (new_node color) (step_node metric) n_requests (λ e, m_requests (metrics e.2)) _ _ (λ _, eq_refl) (λ _ _, eq_refl) H).
  - exact (object_sum (new_node color) (step_node metric) n_quota (λ e, m_quota (metrics e.2)) _ _ (λ _, eq_refl) (λ _ _, eq_refl) H).
  - exact (object_sum (new_node color) (step_node metric) n_tokens (λ e, m_tokens (metrics e.2)) _ _ (λ _, eq_refl) (λ _ _, eq_refl) H).
  - by exists p, nd.
Qed.

Lemma link_map_ok metric color ps k l : (k, l) ∈ link_map metric color ps →
  linkStableKey l = k ∧ link_ok metric ps l.
Proof.
  intros H%acc_all_elem.
  destruct (object_field (new_link color) (step_link metric) source _ _ (λ _ _, eq_refl) H) as ([[a b] p] & He & Hs).
  destruct (object_field (new_link color) (step_link metric) target _ _ (λ _ _, eq_refl) H) as (e2 & He2 & Ht). rewrite He in He2. injection He2 as <-.
  apply events_head in He as [[Hp Hst]%elem_of_link_events Hi]. cbn in Hs, Ht.
  assert (linkStableKey l = k) as Hk by (rewrite <- Hi; unfold linkStableKey; by rewrite Hs, Ht).
  split; [done|]. rewrite <- Hk in H. constructor.
  - exact (object_sum (new_link color) (step_link metric) l_value (λ e, metricValue (metrics e.2) metric) _ _ (λ _, eq_refl) (λ _ _, eq_refl) H).
  - exact (object_sum (new_link color) (step_link metric) l_requests (λ e, m_requests (metrics e.2)) _ _ (λ _, eq_refl) (λ _ _, eq_refl) H).
  - exact (object_sum (new_link color) (step_link metric) l_quota (λ e, m_quota (metrics e.2)) _ _ (λ _, eq_refl) (λ _ _, eq_refl) H).
  - exact (object_sum (new_link color) (step_link metric) l_tokens (λ e, m_tokens (metrics e.2)) _ _ (λ _, eq_refl) (λ _ _, eq_refl) H).
  - by exists p, a, b.
Qed.

Lemma steps_in p a b : (a, b) ∈ steps p → a ∈ p ∧ b ∈ p.
Proof.
  induction p as [|x [|y p] IH]; cbn [steps]; [set_solver|set_solver|].
  intros [[= -> ->]|H]%elem_of_cons; [set_solver|]. apply IH in H. set_solver.
Qed.

Lemma node_map_ids metric color ps : NoDup (n_id <$> (node_map metric color ps).*2) ∧
  ∀ i, i ∈ n_id <$> (node_map metric color ps).*2 ↔ ∃ p nd, p ∈ ps ∧ nd ∈ path p ∧ id nd = i.
Proof.
  assert (n_id <$> (node_map metric color ps).*2 = (node_map metric color ps).*1) as ->.
  { rewrite <- list_fmap_compose. apply list_fmap_ext. intros j [i n] Hj.
    apply list_elem_of_lookup_2, node_map_ok in Hj as [? _]. done. }
  split; [apply acc_all_NoDup|]. intros i. unfold node_map. rewrite acc_all_keys. split.
  - intros ([nd p] & Hin & Hi). apply elem_of_node_events in Hin as [? ?]. by exists p, nd.
  - intros (p & nd & ? & ? & ?). exists (nd, p). by rewrite elem_of_node_events.
Qed.

Lemma NoDup_fmap_lfilter {A B} (f : A → B) (P : A → bool) l : NoDup (f <$> l) → NoDup (f <$> List.filter P l).
Proof.
  induction l as [|x l IH]; [done|]. cbn. rewrite NoDup_cons. intros [H1 H2]. destruct (P x); [|by apply IH].
  cbn. rewrite NoDup_cons. split; [|by apply IH]. rewrite list_elem_of_fmap. intros (y & E & [Hy _]%elem_of_lfilter).
  apply H1. rewrite E. by apply list_elem_of_fmap_2.
Qed.

(** ** What decoration keeps *)

Definition node_core (n : DashboardFlowNode) := (n_id n, n_kind n, n_value n, n_requests n, n_quota n, n_tokens n).
Definition link_core (l : DashboardFlowLink) := (source l, target l, l_value l, l_requests l, l_quota l, l_tokens l).

Lemma fmap_snd_map {A B} (f : A → B) (g : jsstr * A → A) (l : list (jsstr * A)) :
  (∀ e, f (g e) = f e.2) → f <$> (map (λ e, (e.1, g e)) l).*2 = f <$> l.*2.
Proof. intros H. induction l as [|e l IH]; [done|]. cbn. by rewrite H, IH. Qed.

Lemma mask_core ns ls :
  node_core <$> (maskFlowGraphLabels ns ls).1.*2 = node_core <$> ns.*2 ∧
  link_core <$> (maskFlowGraphLabels ns ls).2.*2 = link_core <$> ls.*2.
Proof.
  unfold maskFlowGraphLabels. set (m := fold_left _ ns []). split.
  - assert (node_core <$> (map (λ e, (e.1, if masks e.2 then with_label (maskFlowLabel (n_label e.2)) e.2 else e.2)) ns).*2
      = node_core <$> ns.*2) as H by (apply fmap_snd_map; intros e; by destruct (masks e.2)).
    by destruct m.
  - destruct m as [|x m]; [done|]. by apply fmap_snd_map.
Qed.

Lemma highlight_core hs ns ls :
  node_core <$> (applyFlowHighlights hs ns ls).1.*2 = node_core <$> ns.*2 ∧
  link_core <$> (applyFlowHighlights hs ns ls).2.*2 = link_core <$> ls.*2.
Proof. destruct hs as [h|]; [|done]. split; by apply fmap_snd_map. Qed.

Lemma display_core ls : link_core <$> assignLinkDisplayColors localeCompare ls = link_core <$> ls.
Proof.
  unfold assignLinkDisplayColors. apply list_eq. intros i. rewrite !list_lookup_fmap, list_lookup_imap.
  by destruct (ls !! i).
Qed.

(** ** The top-node limit *)

Lemma set_of_length {A} `{EqDecision A} (l : list A) : (length (set_of l) <= length l)%nat.
Proof. apply NoDup_incl_length; [apply NoDup_ListNoDup, NoDup_set_of|]. intros x. by rewrite <- !list_elem_of_In, elem_of_set_of. Qed.

Lemma top_ids_length n totals : 0 < n → Z.of_nat (length (top_ids localeCompare n totals)) <= n.
Proof.
  intros Hn. unfold top_ids. etrans; [apply inj_le, set_of_length|]. rewrite length_map, length_take. lia.
Qed.

Lemma builder_kind k row ctx : kind (NODE_BUILDERS k row ctx) = k.
Proof. by destruct k. Qed.

Lemma add_rank_keys v totals nd : (add_rank v totals nd).*1 = totals.*1.
Proof.
  unfold add_rank. destruct (map_get totals (kind nd)) eqn:E; [|done]. rewrite map_set_keys, decide_True; [done|].
  apply dec_stable. intros Hn. apply map_get_None in Hn. congruence.
Qed.

Lemma fold_keeps {A C B} (f : C → A → C) (g : C → B) l acc : (∀ c a, g (f c a) = g c) → g (fold_left f l acc) = g acc.
Proof. intros H. revert acc. induction l as [|a l IH]; intros acc; [done|]. cbn. by rewrite IH, H. Qed.

Lemma rank_totals_keys rows metric stages ctx k : k ∈ stages → k ∈ (rank_totals rows metric stages ctx).*1.
Proof.
  intros Hk. unfold rank_totals.
  rewrite (fold_keeps _ (λ t, t.*1)) by (intros c a; apply (fold_keeps _ (λ t, t.*1)); intros; apply add_rank_keys).
  assert (∀ l acc, k ∈ l ∨ k ∈ acc.*1 → k ∈ (fold_left (λ (totals : list (FlowNodeKind * list (jsstr * FlowNodeRank))) stage, map_set totals stage []) l acc).*1) as H
    by (induction l as [|s l IH]; intros acc; cbn; [set_solver|]; intros Hin; apply IH;
        rewrite elem_of_map_set_keys; set_solver).
  apply H. by left.
Qed.

(** Every stage has its set, and no set is larger than the limit. *)
Lemma top_sets_spec rows metric stages n ctx sets : 0 < n →
  buildTopNodeSets localeCompare rows metric stages (Some n) ctx = Some sets →
  (∀ k, k ∈ stages → ∃ ids, map_get sets k = Some ids) ∧
  (∀ k ids, map_get sets k = Some ids → Z.of_nat (length ids) <= n).
Proof.
  intros Hn. unfold buildTopNodeSets. destruct (n =? 0) eqn:E0; [lia|]. intros [= <-]. clear E0.
  set (f := λ (sets : list (FlowNodeKind * list jsstr)) (e : FlowNodeKind * list (jsstr * FlowNodeRank)),
    map_set sets e.1 (top_ids localeCompare n e.2)).
  assert (∀ l acc, (∀ k ids, map_get acc k = Some ids → Z.of_nat (length ids) <= n) →
    (∀ k ids, map_get (fold_left f l acc) k = Some ids → Z.of_nat (length ids) <= n) ∧
    ∀ k, k ∈ l.*1 ∨ k ∈ acc.*1 → k ∈ (fold_left f l acc).*1) as H.
  { induction l as [|e l IH]; intros acc Hacc; cbn; [split; [done|set_solver]|].
    destruct (IH (f acc e)) as [H1 H2].
    - intros k ids. unfold f. rewrite map_get_set. destruct (decide (k = e.1)); [|apply Hacc].
      intros [= <-]. by apply top_ids_length.
    - split; [done|]. intros k Hk. apply H2. unfold f. rewrite elem_of_map_set_keys. set_solver. }
  destruct (H (rank_totals rows metric stages ctx) []) as [H1 H2]; [done|]. split; [|done].
  intros k Hk. destruct (map_get _ k) as [ids|] eqn:Eg; [by exists ids|]. exfalso.
  apply map_get_None in Eg. apply Eg, H2. left. by apply rank_totals_keys.
Qed.

Lemma limit_positive limit n : normalizeTopNodeLimit limit = Some n → 0 < n.
Proof.
  unfold normalizeTopNodeLimit. destruct limit as [x|]; [|done]. destruct (num_floor x) as [z|]; [|done].
  destruct (0 <? z) eqn:E; [|done]. intros [= <-]. lia.
Qed.

(** Aggregation keeps every path, hiding those that need no replacement. *)
Lemma apply_top_aggregate p sets labeler : ∃ p', applyTopNodeLimit p sets aggregate labeler = Some p'.
Proof. unfold applyTopNodeLimit. destruct sets; [|by eexists]. destruct (negb _); by eexists. Qed.

Lemma apply_top_hide p sets labeler :
  applyTopNodeLimit p sets hide labeler = if forallb (λ nd, isTopFlowNode nd sets) p then Some p else None.
Proof.
  unfold applyTopNodeLimit. destruct sets as [sets|].
  - assert (forallb (λ nd, isTopFlowNode nd (Some sets)) p =
      negb (existsb (λ nd, negb (isTopFlowNode nd (Some sets))) p)) as ->; [|done].
    induction p as [|nd p IH]; [done|]. cbn [forallb existsb]. rewrite IH. by destruct (isTopFlowNode nd _).
  - by rewrite (proj2 (forallb_forall _ p)).
Qed.

(** The nodes a limited path may contain. *)
Lemma apply_top_nodes p sets mode labeler p' nd :
  applyTopNodeLimit p (Some sets) mode labeler = Some p' → nd ∈ p' →
  (∃ nd0, nd0 ∈ p ∧ kind nd = kind nd0) ∧
  (isTopFlowNode nd (Some sets) = true ∨ (mode = aggregate ∧ id nd = OTHER_FLOW_NODE_IDS (kind nd))).
Proof.
  unfold applyTopNodeLimit. destruct (existsb _ p) eqn:E; cbn [negb].
  - destruct mode; [|done]. intros <-%Some_inj (nd0 & -> & Hin)%list_elem_of_fmap.
    destruct (isTopFlowNode nd0 (Some sets)) eqn:Et; (split; [by exists nd0|]); [by left|by right].
  - intros [= <-] Hin. split; [by exists nd|]. left.
    destruct (isTopFlowNode nd (Some sets)) eqn:Et; [done|]. exfalso.
    assert (existsb (λ node, negb (isTopFlowNode node (Some sets))) p = true) as Hx; [|congruence].
    apply existsb_exists. exists nd. by rewrite <- list_elem_of_In, Et.
Qed.

(** The paths with their metrics before any limit. *)
Definition full_paths (rows : list FlowQuotaDataItem) (stages : list FlowNodeKind) (ctx : FlowPathContext) :
    list PreparedFlowPath :=
  map (λ row, MkPrepared (flowPathForStages row stages ctx) (rowMetrics row)) rows.

(** ** Masking *)

(** What highlighting, sorting and colouring keep of the texts. *)
Definition node_face (n : DashboardFlowNode) := (n_id n, n_kind n, n_label n).
Definition link_face (l : DashboardFlowLink) := (source l, target l, sourceLabel l, targetLabel l).

Lemma highlight_face hs ns ls :
  node_face <$> (applyFlowHighlights hs ns ls).1.*2 = node_face <$> ns.*2 ∧
  link_face <$> (applyFlowHighlights hs ns ls).2.*2 = link_face <$> ls.*2.
Proof. destruct hs as [h|]; [|done]. split; by apply fmap_snd_map. Qed.

Lemma display_face ls : link_face <$> assignLinkDisplayColors localeCompare ls = link_face <$> ls.
Proof.
  unfold assignLinkDisplayColors. apply list_eq. intros i. rewrite !list_lookup_fmap, list_lookup_imap.
  by destruct (ls !! i).
Qed.

Definition hidden (t : jsstr) : Prop := t = [] ∨ t = FLOW_MASK_TEXT.

Lemma hidden_mask t : hidden (maskFlowLabel t).
Proof. destruct t; [by left|by right]. Qed.

Definition masked_ids (ns : list (jsstr * DashboardFlowNode)) (acc : list (jsstr * jsstr)) : list (jsstr * jsstr) :=
  fold_left (λ m e, if masks e.2 then map_set m (n_id e.2) (maskFlowLabel (n_label e.2)) else m) ns acc.

Lemma masked_ids_spec ns acc : (∀ i t, map_get acc i = Some t → hidden t) →
  (∀ i t, map_get (masked_ids ns acc) i = Some t → hidden t) ∧
  (∀ i, i ∈ acc.*1 ∨ (∃ e, e ∈ ns ∧ masks e.2 = true ∧ n_id e.2 = i) → i ∈ (masked_ids ns acc).*1).
Proof.
  revert acc. induction ns as [|e ns IH]; intros acc Ha; cbn; [split; [done|set_solver]|].
  destruct (masks e.2) eqn:Em.
  - destruct (IH (map_set acc (n_id e.2) (maskFlowLabel (n_label e.2)))) as [H1 H2].
    { intros i t. rewrite map_get_set. destruct (decide _); [|apply Ha]. intros [= <-]. apply hidden_mask. }
    split; [done|]. intros i Hi. apply H2. rewrite elem_of_map_set_keys.
    destruct Hi as [Hi|(e' & [->|He']%elem_of_cons & Hm & <-)]; [by left; right|by left; left|right; by exists e'].
  - destruct (IH acc Ha) as [H1 H2]. split; [done|]. intros i Hi. apply H2.
    destruct Hi as [Hi|(e' & [->|He']%elem_of_cons & Hm & <-)]; [by left|congruence|right; by exists e'].
Qed.

(** After masking, no sensitive node shows its label, nor does a link it ends. *)
Lemma mask_hides ns ls :
  let g := maskFlowGraphLabels ns ls in
  (∀ n, n ∈ g.1.*2 → masks n = true → hidden (n_label n)) ∧
  (∀ n l, n ∈ g.1.*2 → masks n = true → l ∈ g.2.*2 →
    (source l = n_id n → hidden (sourceLabel l)) ∧ (target l = n_id n → hidden (targetLabel l))).
Proof.
  intros g. unfold g, maskFlowGraphLabels. fold (masked_ids ns []).
  destruct (masked_ids_spec ns []) as [Hv Hk]; [done|].
  set (ns' := map _ ns).
  assert (Hn : ∀ n, n ∈ ns'.*2 → masks n = true →
    hidden (n_label n) ∧ ∃ t, map_get (masked_ids ns []) (n_id n) = Some t ∧ hidden t).
  { intros n (e' & -> & He')%list_elem_of_fmap Hm. apply list_elem_of_fmap in He' as (e & -> & He). cbn in Hm |- *.
    destruct (masks e.2) eqn:Em; [|congruence]. split; [apply hidden_mask|].
    destruct (map_get (masked_ids ns []) (n_id e.2)) as [t|] eqn:Et; [|exfalso].
    - exists t. split; [done|]. by eapply Hv.
    - apply map_get_None in Et. apply Et, Hk. right. by exists e. }
  destruct (masked_ids ns []) as [|x m] eqn:E; cbn [fst snd]; (split; [intros n H1 H2; by apply Hn|]);
    intros n l Hin Hm Hl; destruct (Hn n Hin Hm) as (_ & t & Ht & Hh); [done|].
  apply list_elem_of_fmap in Hl as (e' & -> & He'). apply list_elem_of_fmap in He' as (e & -> & He). cbn -[map_get] in *.
  split; intros Heq; rewrite Heq, Ht; done.
Qed.

(** The paths of some rows under given sets. *)
Definition limited (sets : option (list (FlowNodeKind * list jsstr))) (mode : FlowOverflowMode)
    (labeler : option (FlowNodeKind → jsstr)) (stages : list FlowNodeKind) (ctx : FlowPathContext)
    (rows : list FlowQuotaDataItem) : list PreparedFlowPath :=
  omap (λ row, match applyTopNodeLimit (flowPathForStages row stages ctx) sets mode labeler with
               | Some p => Some (MkPrepared p (rowMetrics row))
               | None => None
               end) rows.

Lemma limited_aggregate sets labeler stages ctx rows :
  metrics <$> limited sets aggregate labeler stages ctx rows = rowMetrics <$> rows.
Proof.
  induction rows as [|row rows IH]; [done|]. unfold limited in *. cbn.
  destruct (apply_top_aggregate (flowPathForStages row stages ctx) sets labeler) as [p ->]. cbn. by rewrite IH.
Qed.

Lemma limited_hide sets labeler stages ctx rows :
  limited sets hide labeler stages ctx rows =
  List.filter (λ p, forallb (λ nd, isTopFlowNode nd sets) (path p)) (full_paths rows stages ctx).
Proof.
  induction rows as [|row rows IH]; [done|]. unfold limited in *. cbn. rewrite apply_top_hide.
  destruct (forallb _ _); by rewrite IH.
Qed.

Lemma limited_none mode labeler stages ctx rows : limited None mode labeler stages ctx rows = full_paths rows stages ctx.
Proof. induction rows as [|row rows IH]; [done|]. unfold limited in *. cbn. by f_equal. Qed.

Section Graph.
Variables (rows : list FlowQuotaDataItem) (metric : FlowMetric) (r : FlowRole) (palette : option (list jsstr))
  (visible : option (list FlowNodeKind)) (ctx : FlowPathContext) (options : FlowGraphOptions).

Let stages := resolveVisibleStages r visible.
Let ps := prepare localeCompare rows metric stages ctx options.
Let G := buildFlowGraph localeCompare schemes rows metric r palette visible ctx options.
Let color := path_color palette (stableColorMap schemes (sort_text localeCompare (first_ids ps)) palette).

Lemma graph_core :
  node_core <$> nodes G ≡ₚ node_core <$> (node_map metric color ps).*2 ∧
  link_core <$> links G ≡ₚ link_core <$> (link_map metric color ps).*2.
Proof.
  subst G. unfold buildFlowGraph. fold stages. fold ps.
  pose proof (accumulate_spec ps metric palette) as Ha. cbv zeta in Ha. fold color in Ha. rewrite Ha. clear Ha.
  set (g1 := if maskSensitive options then _ else _).
  assert (node_core <$> g1.1.*2 = node_core <$> (node_map metric color ps).*2 ∧
    link_core <$> g1.2.*2 = link_core <$> (link_map metric color ps).*2) as [H1 H2]
    by (unfold g1; destruct (maskSensitive options); [apply mask_core|done]).
  set (hs := buildFlowHighlightSets _ _ _ _). destruct (highlight_core hs g1.1 g1.2) as [H3 H4]. cbn [nodes links].
  rewrite display_core. split.
  - by rewrite sort_by_Permutation, H3, H1.
  - rewrite <- list_fmap_compose. change (link_core ∘ with_share _) with link_core.
    by rewrite sort_by_Permutation, H4, H2.
Qed.

Lemma core_node_ok n n' : node_core n = node_core n' → node_ok metric ps n → node_ok metric ps n'.
Proof. intros [= E1 E2 E3 E4 E5 E6] [H1 H2 H3 H4 H5]. constructor; rewrite <- ?E1, <- ?E2, <- ?E3, <- ?E4, <- ?E5, <- ?E6; done. Qed.

Lemma core_link_ok l l' : link_core l = link_core l' → link_ok metric ps l → link_ok metric ps l'.
Proof.
  intros [= E1 E2 E3 E4 E5 E6] [H1 H2 H3 H4 H5].
  constructor; unfold linkStableKey in *; rewrite <- ?E1, <- ?E2, <- ?E3, <- ?E4, <- ?E5, <- ?E6; done.
Qed.

Lemma graph_node_ok n : n ∈ nodes G → node_ok metric ps n.
Proof.
  intros Hn. destruct graph_core as [Hp _]. apply (list_elem_of_fmap_2 node_core) in Hn. rewrite Hp in Hn.
  apply list_elem_of_fmap in Hn as (n0 & Hc & Hn0). apply list_elem_of_fmap in Hn0 as ([i n1] & -> & Hin).
  apply node_map_ok in Hin as [_ Hok]. by apply (core_node_ok n1).
Qed.

Lemma graph_link_ok l : l ∈ links G → link_ok metric ps l.
Proof.
  intros Hn. destruct graph_core as [_ Hp]. apply (list_elem_of_fmap_2 link_core) in Hn. rewrite Hp in Hn.
  apply list_elem_of_fmap in Hn as (n0 & Hc & Hn0). apply list_elem_of_fmap in Hn0 as ([i n1] & -> & Hin).
  apply link_map_ok in Hin as [_ Hok]. by apply (core_link_ok n1).
Qed.

Lemma graph_ids : n_id <$> nodes G ≡ₚ n_id <$> (node_map metric color ps).*2.
Proof.
  destruct graph_core as [Hp _]. apply (fmap_Permutation (λ c, c.1.1.1.1.1)) in Hp.
  rewrite <- !list_fmap_compose in Hp. rewrite <- (list_fmap_compose snd n_id). exact Hp.
Qed.

(** C32: the graph is exactly its paths: one node per id that occurs on a path
    left by the limit, every metric of a node the sum over the passages through
    it and of a link the sum over the passages along it (in the order of the
    rows, as doubles), and both ends of every link are nodes of the graph. *)
Theorem graph_exact :
  NoDup (n_id <$> nodes G) ∧
  (∀ i, i ∈ n_id <$> nodes G ↔ ∃ p nd, p ∈ ps ∧ nd ∈ path p ∧ id nd = i) ∧
  (∀ n, n ∈ nodes G → node_ok metric ps n) ∧
  (∀ l, l ∈ links G → link_ok metric ps l ∧ source l ∈ n_id <$> nodes G ∧ target l ∈ n_id <$> nodes G).
Proof.
  destruct (node_map_ids metric color ps) as [Hd Hi].
  split; [by rewrite graph_ids|]. split; [intros i; by rewrite graph_ids|]. split; [apply graph_node_ok|].
  intros l Hl. pose proof (graph_link_ok l Hl) as Hok. split; [done|].
  destruct (ok_ends _ _ _ Hok) as (p & a & b & Hp & Hst & Ha & Hb). apply steps_in in Hst as [? ?].
  rewrite graph_ids, !Hi. split; [by exists p, a|by exists p, b].
Qed.

Lemma prepare_nodes n p nd : normalizeTopNodeLimit (topNodeLimit options) = Some n → p ∈ ps → nd ∈ path p →
  ∃ sets ids, buildTopNodeSets localeCompare rows metric stages (Some n) ctx = Some sets ∧
    map_get sets (kind nd) = Some ids ∧ Z.of_nat (length ids) <= n ∧
    (id nd ∈ ids ∨ (default aggregate (overflowMode options) = aggregate ∧ id nd = OTHER_FLOW_NODE_IDS (kind nd))).
Proof.
  intros Hl Hp Hnd. unfold ps, prepare in Hp. rewrite Hl in Hp.
  pose proof (limit_positive _ _ Hl) as Hn.
  destruct (buildTopNodeSets localeCompare rows metric stages (Some n) ctx) as [sets|] eqn:Es;
    [|unfold buildTopNodeSets in Es; destruct (n =? 0) eqn:E; [lia|done]].
  apply list_elem_of_omap in Hp as (row & _ & Hrow).
  destruct (applyTopNodeLimit _ _ _ _) as [p'|] eqn:Ea; [|done]. injection Hrow as <-.
  destruct (apply_top_nodes _ _ _ _ _ _ Ea Hnd) as [(nd0 & Hin & Hk) Ht].
  apply list_elem_of_fmap in Hin as (k & -> & Hk'). rewrite builder_kind in Hk.
  destruct (top_sets_spec _ _ _ _ _ _ Hn Es) as [H1 H2]. destruct (H1 k Hk') as [ids Hids].
  exists sets, ids. rewrite Hk. split; [done|]. split; [done|]. split; [by eapply H2|].
  unfold isTopFlowNode in Ht. rewrite Hk, Hids in Ht. destruct Ht as [Ht|[Hm Ht]]; [left|by right].
  by apply bool_decide_eq_true in Ht.
Qed.

(** The nodes of one kind: top ones, or the node of the others. *)
Lemma column_bound n k : normalizeTopNodeLimit (topNodeLimit options) = Some n → 0 < n →
  Z.of_nat (length (List.filter (λ nd, bool_decide (n_kind nd = k)) (nodes G))) <=
  n + match default aggregate (overflowMode options) with aggregate => 1 | hide => 0 end.
Proof.
  intros Hl Hn. set (ns := List.filter _ (nodes G)).
  assert (Hin : ∀ nd, nd ∈ ns → ∃ sets ids, buildTopNodeSets localeCompare rows metric stages (Some n) ctx = Some sets ∧
    map_get sets k = Some ids ∧ Z.of_nat (length ids) <= n ∧
    n_id nd ∈ ids ++ match default aggregate (overflowMode options) with aggregate => [OTHER_FLOW_NODE_IDS k] | hide => [] end).
  { intros nd [Hnd Hk%bool_decide_eq_true]%elem_of_lfilter.
    destruct (ok_kind _ _ _ (graph_node_ok nd Hnd)) as (p & pn & Hp & Hpn & Hid & Hkd).
    destruct (prepare_nodes n p pn Hl Hp Hpn) as (sets & ids & Hs & Hi & Hlen & Hor).
    rewrite Hkd, Hk in Hi, Hor. exists sets, ids. repeat split; try done. rewrite <- Hid, elem_of_app.
    destruct Hor as [|[-> ->]]; [by left|right; set_solver]. }
  destruct ns as [|n0 ns'] eqn:En; [cbn; destruct (default aggregate _); lia|]. rewrite <- En in *.
  destruct (Hin n0) as (sets & ids & Hs & Hi & Hlen & _); [rewrite En; left|].
  assert (Hd : NoDup (n_id <$> ns)).
  { apply NoDup_fmap_lfilter. rewrite graph_ids. apply node_map_ids. }
  assert (Hle : (length (n_id <$> ns) <= length (ids ++ match default aggregate (overflowMode options) with aggregate => [OTHER_FLOW_NODE_IDS k] | hide => [] end))%nat).
  { apply NoDup_incl_length; [by apply NoDup_ListNoDup|]. intros i. rewrite <- !list_elem_of_In.
    intros (nd & -> & Hnd)%list_elem_of_fmap. destruct (Hin nd Hnd) as (sets' & ids' & Hs' & Hi' & _ & H).
    rewrite Hs in Hs'. injection Hs' as <-. rewrite Hi in Hi'. by injection Hi' as <-. }
  rewrite length_fmap, length_app in Hle. destruct (default aggregate _); cbn in *; lia.
Qed.

(** Without a limit every row is a path.  With a limit of [n] the graph
    has at most [n] nodes of any kind, and one more that stands for the others
    when the rest is aggregated; aggregation keeps the metrics of every row,
    hiding keeps exactly the rows whose nodes are all among the top ones. *)
Theorem top_limit_exact :
  match normalizeTopNodeLimit (topNodeLimit options) with
  | None => ps = full_paths rows stages ctx
  | Some n =>
    let others := match default aggregate (overflowMode options) with aggregate => 1 | hide => 0 end in
    (∀ k, Z.of_nat (length (List.filter (λ nd, bool_decide (n_kind nd = k)) (nodes G))) <= n + others) ∧
    match default aggregate (overflowMode options) with
    | aggregate => metrics <$> ps = rowMetrics <$> rows
    | hide =>
      let sets := buildTopNodeSets localeCompare rows metric stages (Some n) ctx in
      ps = List.filter (λ p, forallb (λ nd, isTopFlowNode nd sets) (path p)) (full_paths rows stages ctx)
    end
  end.
Proof.
  destruct (normalizeTopNodeLimit (topNodeLimit options)) as [n|] eqn:Hl.
  - split; [intros k; apply column_bound; [done|by eapply limit_positive]|].
    unfold ps, prepare. rewrite Hl. destruct (default aggregate (overflowMode options)).
    + apply limited_aggregate.
    + apply limited_hide.
  - unfold ps, prepare. rewrite Hl. apply limited_none.
Qed.

Lemma graph_face : maskSensitive options = true →
  let g := maskFlowGraphLabels (node_map metric color ps) (link_map metric color ps) in
  node_face <$> nodes G ≡ₚ node_face <$> g.1.*2 ∧ link_face <$> links G ≡ₚ link_face <$> g.2.*2.
Proof.
  intros Hm g. subst G. unfold buildFlowGraph. fold stages. fold ps.
  pose proof (accumulate_spec ps metric palette) as Ha. cbv zeta in Ha. fold color in Ha. rewrite Ha, Hm. cbn [fst snd].
  fold g. clear Ha. set (hs := buildFlowHighlightSets _ _ _ _). destruct (highlight_face hs g.1 g.2) as [H3 H4].
  cbn [nodes links]. rewrite display_face. split; [by rewrite sort_by_Permutation, H3|].
  rewrite <- list_fmap_compose. change (link_face ∘ with_share _) with link_face. by rewrite sort_by_Permutation, H4.
Qed.

(** C33: with masking on, every node of a sensitive kind whose id is not one of
    the six reserved ids [<kind>:__other__] shows no label, and no link shows the
    label of such a node.  The reserved ids are excluded, as the code excludes
    them: they are the ids of the nodes that aggregate the others, whose labels
    are shown; so is the label of an entity whose own id is reserved, as that of
    a group named [__other__]. *)
Theorem mask_no_leak : maskSensitive options = true →
  ∀ n, n ∈ nodes G → n_kind n ∈ SENSITIVE_FLOW_KINDS → n_id n ∉ OTHER_FLOW_NODE_ID_SET →
  hidden (n_label n) ∧
  ∀ l, l ∈ links G →
    (source l = n_id n → hidden (sourceLabel l)) ∧ (target l = n_id n → hidden (targetLabel l)).
Proof.
  intros Hm n Hn Hk Ho. destruct (graph_face Hm) as [Hnf Hlf].
  destruct (mask_hides (node_map metric color ps) (link_map metric color ps)) as [M1 M2].
  set (g := maskFlowGraphLabels _ _) in *.
  apply (list_elem_of_fmap_2 node_face) in Hn. rewrite Hnf in Hn.
  apply list_elem_of_fmap in Hn as (n0 & [= E1 E2 E3] & Hn0).
  assert (masks n0 = true) as Hm0.
  { unfold masks. rewrite <- E1, <- E2. apply andb_true_iff. split; [by apply bool_decide_eq_true|].
    apply negb_true_iff. by apply bool_decide_eq_false. }
  rewrite E1, E3. split; [by apply M1|]. intros l Hl.
  apply (list_elem_of_fmap_2 link_face) in Hl. rewrite Hlf in Hl.
  apply list_elem_of_fmap in Hl as (l0 & [= F1 F2 F3 F4] & Hl0). rewrite F1, F2, F3, F4. by apply M2.
Qed.
End Graph.

End Host.

(** ** A sample *)

(** A comparison by code units. *)
Fixpoint unit_compare (a b : jsstr) : number :=
  match a, b with
  | [], [] => of_Z 0
  | [], _ => of_Z (-1)
  | _, [] => of_Z 1
  | x :: a', y :: b' => if (x <? y)%N then of_Z (-1) else if (y <? x)%N then of_Z 1 else unit_compare a' b'
  end.

Definition sample_row (u : Z) (name group model : jsstr) (q : Z) : FlowQuotaDataItem :=
  MkRow (Some (of_Z u)) (Some name) None (Some group) None None (Some (of_Z 3)) (Some "azure"%js) (Some model)
    (Some (of_Z 10)) (Some (of_Z 1)) (Some (of_Z q)).

Definition sample_rows : list FlowQuotaDataItem :=
  [sample_row 1 "zoe" "vip" "gpt-4o" 5; sample_row 2 "adam" "vip" "gpt-4o" 5; sample_row 1 "zoe" "free" "o3" 2;
   sample_row 4 "eve" "vip" "o3" 1].

Definition sample_graph (mask : bool) (limit : option number) : DashboardFlowGraph :=
  buildFlowGraph unit_compare [] sample_rows metric_quota role_admin None None None
    (MkGraphOptions limit None None None None mask).

Definition ids_of (g : DashboardFlowGraph) (k : FlowNodeKind) : list jsstr :=
  n_id <$> List.filter (λ n, bool_decide (n_kind n = k)) (nodes g).

Example sample_limited :
  ids_of (sample_graph false (Some (of_Z 1))) KUser = ["user:1"%js; "user:__other__"%js] ∧
  map (λ n, (n_label n, num_to_string (n_quota n))) (List.filter (λ n, bool_decide (n_kind n = KGroup)) (nodes (sample_graph true None)))
  = [(FLOW_MASK_TEXT, "11"%js); (FLOW_MASK_TEXT, "2"%js)].
Proof. vm_compute. done. Qed.

Lemma mask_no_leak_witness :
  ∃ n, nodes (sample_graph true None) !! 0%nat = Some n ∧ hidden (n_label n).
Proof.
  eexists. split; [vm_compute; reflexivity|].
  apply (mask_no_leak unit_compare [] sample_rows metric_quota role_admin None None None
    (MkGraphOptions None None None None None true) eq_refl).
  - apply (list_elem_of_lookup_2 _ 0). vm_compute. reflexivity.
  - apply (bool_decide_unpack _). vm_compute. exact I.
  - apply (bool_decide_unpack _). vm_compute. exact I.
Defined.

(** Masking can change the order of nodes of equal value: their labels no
    longer tell them apart. *)
Example mask_reorders :
  ids_of (sample_graph false None) KUser = ["user:1"%js; "user:2"%js; "user:4"%js] ∧
  (let two := [sample_row 1 "zoe" "vip" "gpt-4o" 5; sample_row 2 "adam" "vip" "gpt-4o" 5] in
   let g mask := buildFlowGraph unit_compare [] two metric_quota role_admin None None None
     (MkGraphOptions None None None None None mask) in
   ids_of (g false) KUser = ["user:2"%js; "user:1"%js] ∧ ids_of (g true) KUser = ["user:1"%js; "user:2"%js]).
Proof. vm_compute. done. Qed.
End FlowGraphFacts.
