(* ===== verification/PlaygroundMessages.v ===== *)
(** * Messages of the playground ([web/src/features/playground/lib/message/])

    A conversation is a list of messages; an assistant message is created as a
    placeholder, filled while its text streams in and finished with its timing.
    Reasoning arrives on its own or between think tags of the text.

    The clock is a parameter: an operation that reads [Date.now()] several
    times gets its readings as a function [T] of their order.  Generated
    identifiers and the translation of a text ([t]) are parameters too. *)

From S2P Require Import Prelude JsString JsNumber JsValue.

Module PlaygroundMessages.

(** ** Data ([types.ts], [constants.ts]) *)

Inductive MessageRole := user | assistant | system.
Inductive MessageStatus := loading | streaming | complete | error.

#[export] Instance MessageRole_eq_dec : EqDecision MessageRole.
Proof. solve_decision. Defined.
#[export] Instance MessageStatus_eq_dec : EqDecision MessageStatus.
Proof. solve_decision. Defined.

Record MessageVersion := MkVersion {
  version_id : jsstr;
  content : jsstr;
}.

Record Reasoning := MkReasoning {
  r_content : jsstr;
  r_duration : number;
  r_startedAt : option number;
  r_completedAt : option number;
  r_durationMs : option number;
}.

(** [errorCode] is what the server sent, whatever its type. *)
Record Message := MkMessage {
  key : jsstr;
  from : MessageRole;
  versions : list MessageVersion;
  createdAt : option number;
  startedAt : option number;
  completedAt : option number;
  durationMs : option number;
  sources : option (list (jsstr * jsstr));
  reasoning : option Reasoning;
  isReasoningStreaming : option bool;
  isReasoningComplete : option bool;
  isContentComplete : option bool;
  status : option MessageStatus;
  errorCode : value;
}.

Definition API_REQUEST_ERROR : jsstr := "Request error occurred".
Definition PARSE_ERROR : jsstr := "Error parsing response data".
Definition STREAM_START_ERROR : jsstr := "Error establishing connection".
Definition CONNECTION_CLOSED : jsstr := "Connection closed".
Definition INTERRUPTED : jsstr := "Generation was interrupted".
Definition NETWORK_ERROR : jsstr := "Network connection failed or server not responding".

(** Updates of one or more members. *)
Definition with_versions (vs : list MessageVersion) (m : Message) : Message :=
  MkMessage (key m) (from m) vs (createdAt m) (startedAt m) (completedAt m) (durationMs m) (sources m) (reasoning m)
    (isReasoningStreaming m) (isReasoningComplete m) (isContentComplete m) (status m) (errorCode m).
Definition with_createdAt (x : option number) (m : Message) : Message :=
  MkMessage (key m) (from m) (versions m) x (startedAt m) (completedAt m) (durationMs m) (sources m) (reasoning m)
    (isReasoningStreaming m) (isReasoningComplete m) (isContentComplete m) (status m) (errorCode m).
Definition with_timing (s c d : option number) (m : Message) : Message :=
  MkMessage (key m) (from m) (versions m) (createdAt m) s c d (sources m) (reasoning m)
    (isReasoningStreaming m) (isReasoningComplete m) (isContentComplete m) (status m) (errorCode m).
Definition with_reasoning (r : option Reasoning) (m : Message) : Message :=
  MkMessage (key m) (from m) (versions m) (createdAt m) (startedAt m) (completedAt m) (durationMs m) (sources m) r
    (isReasoningStreaming m) (isReasoningComplete m) (isContentComplete m) (status m) (errorCode m).
Definition with_reasoning_streaming (b : bool) (m : Message) : Message :=
  MkMessage (key m) (from m) (versions m) (createdAt m) (startedAt m) (completedAt m) (durationMs m) (sources m) (reasoning m)
    (Some b) (isReasoningComplete m) (isContentComplete m) (status m) (errorCode m).
Definition with_status (s : MessageStatus) (m : Message) : Message :=
  MkMessage (key m) (from m) (versions m) (createdAt m) (startedAt m) (completedAt m) (durationMs m) (sources m) (reasoning m)
    (isReasoningStreaming m) (isReasoningComplete m) (isContentComplete m) (Some s) (errorCode m).
Definition with_errorCode (v : value) (m : Message) : Message :=
  MkMessage (key m) (from m) (versions m) (createdAt m) (startedAt m) (completedAt m) (durationMs m) (sources m) (reasoning m)
    (isReasoningStreaming m) (isReasoningComplete m) (isContentComplete m) (status m) v.

(** ** Think tags ([message-reasoning-utils.ts]) *)

Record ParsedThinkTags := MkThink {
  visibleContent : jsstr;
  think_reasoning : jsstr;
  hasUnclosedTag : bool;
}.

Definition OPEN_TAG : jsstr := "<think>".
Definition CLOSE_TAG : jsstr := "</think>".

(** The loop, with the parts pushed so far. *)
Fixpoint think_loop (n : nat) (text : jsstr) (currentPos : nat) (visibleParts reasoningParts : list jsstr) :
    list jsstr * list jsstr * bool :=
  match n with
  | O => (visibleParts, reasoningParts, false)
  | S n =>
    match indexOf text OPEN_TAG currentPos with
    | None =>
      (if Nat.ltb currentPos (length text) then visibleParts ++ [drop currentPos text] else visibleParts, reasoningParts, false)
    | Some openPos =>
      let visibleParts :=
        if Nat.ltb currentPos openPos then visibleParts ++ [slice text currentPos openPos] else visibleParts in
      match indexOf text CLOSE_TAG (openPos + 7) with
      | None => (visibleParts, reasoningParts ++ [drop (openPos + 7) text], true)
      | Some closePos =>
        think_loop n text (closePos + 8) visibleParts (reasoningParts ++ [slice text (openPos + 7) closePos])
      end
    end
  end.

Definition parseThinkTags (text : jsstr) : ParsedThinkTags :=
  if negb (includes text OPEN_TAG) then MkThink text [] false
  else
    let '(visibleParts, reasoningParts, unclosed) := think_loop (S (length text)) text 0 [] [] in
    MkThink (trim (join [] visibleParts)) (trim (join [10%N; 10%N] reasoningParts)) unclosed.

(** ** Message helpers ([message-utils.ts]) *)

Definition createMessageVersion (id text : jsstr) : MessageVersion := MkVersion id text.

Definition getCurrentVersion (m : Message) : MessageVersion := default (MkVersion "default" []) (head (versions m)).

Definition getMessageContent (m : Message) : jsstr := content (getCurrentVersion m).

Definition hasMessageContent (m : Message) : bool := negb (str_eqb (trim (getMessageContent m)) []).

Definition updateCurrentVersionContent (m : Message) (text : jsstr) : Message :=
  with_versions [MkVersion (version_id (getCurrentVersion m)) text] m.

(** [k] and [v] are the identifiers generated for the message and its version. *)
Definition createUserMessage (k v text : jsstr) (created : number) : Message :=
  MkMessage k user [createMessageVersion v text] (Some created) None None None None None None None None None VUndef.

Definition createLoadingAssistantMessage (k v : jsstr) (started : number) : Message :=
  MkMessage k assistant [createMessageVersion v []] (Some started) (Some started) None None None None
    (Some false) (Some false) (Some false) (Some loading) VUndef.

Definition IMAGE_MODELS : list jsstr :=
  ["grok-imagine-image"; "grok-2-image-1212"; "dall-e-2"; "dall-e-3"; "gpt-image-1"; "gpt-image-2"; "flux-"; "flux.1-"]%js.

Definition isImageGenerationModel (lower : jsstr → jsstr) (modelName : jsstr) : bool :=
  let model := lower modelName in
  existsb (includes model) IMAGE_MODELS || startsWith model "imagen-".

(** What one item of an image response shows. *)
Definition image_link (item : value) : list jsstr :=
  if negb (truthy item) || negb (is_object item) then []
  else match prop item "url", prop item "b64_json" with
       | VStr url, b64 =>
         if nonempty (trim url) then [("![Generated image](" ++ trim url ++ ")")%js]
         else match b64 with
              | VStr b => if nonempty (trim b) then [("![Generated image](data:image/png;base64," ++ trim b ++ ")")%js] else []
              | _ => []
              end
       | _, VStr b => if nonempty (trim b) then [("![Generated image](data:image/png;base64," ++ trim b ++ ")")%js] else []
       | _, _ => []
       end.

Definition getImageResponseContent (response : value) : option jsstr :=
  if negb (truthy response) || negb (is_object response) then None
  else match prop response "data" with
       | VArr items =>
         match concat (image_link <$> items) with
         | [] => None
         | images => Some (join [10%N; 10%N] images)
         end
       | _ => None
       end.

Definition isValidMessage (m : Message) : bool :=
  negb (bool_decide (versions m = [])) &&
  negb (bool_decide (from m = assistant) && negb (hasMessageContent m)).

Definition formatMessageForAPI (m : Message) : MessageRole * jsstr := (from m, getMessageContent m).

(** ** Timing ([message-timing-utils.ts]) *)

Definition or_else {A} (x y : option A) : option A := match x with Some _ => x | None => y end.

Definition completeAssistantTiming (m : Message) (completed : number) : Message :=
  if negb (bool_decide (from m = assistant)) then m
  else
    let started := default completed (or_else (startedAt m) (createdAt m)) in
    with_timing (Some started) (Some completed) (Some (num_max (of_Z 0) (num_sub completed started))) m.

Definition startReasoningTiming (m : Message) (started : number) : Reasoning :=
  MkReasoning
    (default [] (r_content <$> reasoning m))
    (default (of_Z 0) (r_duration <$> reasoning m))
    (Some (default started (reasoning m ≫= r_startedAt)))
    (reasoning m ≫= r_completedAt)
    (reasoning m ≫= r_durationMs).

Definition completeReasoningTiming (m : Message) (completed : number) : Message :=
  match reasoning m with
  | Some r =>
    match r_durationMs r with
    | Some _ => m
    | None =>
      let started := default completed (or_else (r_startedAt r) (startedAt m)) in
      let ms := num_max (of_Z 0) (num_sub completed started) in
      with_reasoning (Some (MkReasoning (r_content r) (num_ceil (num_div ms (of_Z 1000))) (Some started) (Some completed) (Some ms))) m
    end
  | None => m
  end.

Definition set_reasoning_content (text : jsstr) (r : Reasoning) : Reasoning :=
  MkReasoning text (r_duration r) (r_startedAt r) (r_completedAt r) (r_durationMs r).

(** ** Streaming ([message-streaming-utils.ts]) *)

Abbreviation Clock := (nat → number).

Definition processStreamingContent (m : Message) (chunk : jsstr) (T : Clock) : Message :=
  let fullContent := content (getCurrentVersion m) ++ chunk in
  if negb (bool_decide (is_Some (reasoning m))) && negb (includes fullContent OPEN_TAG)
  then with_reasoning_streaming false (updateCurrentVersionContent m fullContent)
  else
    let parsed := parseThinkTags fullContent in
    let finalReasoning :=
      if nonempty (think_reasoning parsed)
      then Some (set_reasoning_content (think_reasoning parsed) (startReasoningTiming m (T 0)))
      else reasoning m in
    with_reasoning_streaming (hasUnclosedTag parsed)
      (with_reasoning finalReasoning (updateCurrentVersionContent m fullContent)).

Inductive StreamChunkType := reasoning_chunk | content_chunk.

Definition getAppendableChunk (currentContent chunk : jsstr) : jsstr :=
  if negb (nonempty currentContent) || negb (startsWith chunk currentContent) then chunk
  else drop (length currentContent) chunk.

Definition applyStreamingChunk (m : Message) (type : StreamChunkType) (chunk : jsstr) (T : Clock) : Message :=
  if bool_decide (status m = Some error) then m
  else match type with
       | reasoning_chunk =>
         let r := startReasoningTiming m (T 0) in
         with_status streaming
           (with_reasoning_streaming true
              (with_reasoning (Some (set_reasoning_content (r_content r ++ getAppendableChunk (r_content r) chunk) r)) m))
       | content_chunk =>
         let appendable := getAppendableChunk (content (getCurrentVersion m)) chunk in
         let contentMessage := processStreamingContent m appendable T in
         with_status streaming
           (if default false (isReasoningStreaming contentMessage) then contentMessage
            else completeReasoningTiming contentMessage (T 1))
       end.

(** [a || b] of texts. *)
Definition text_or (a b : jsstr) : jsstr := if nonempty a then a else b.

Definition finalizeMessage (m : Message) (apiReasoningContent : option jsstr) (T : Clock) : Message :=
  let text := content (getCurrentVersion m) in
  let parsed := if includes text OPEN_TAG then Some (parseThinkTags text) else None in
  let visible := default text (visibleContent <$> parsed) in
  let finalReasoning :=
    text_or (default [] apiReasoningContent)
      (text_or (default [] (r_content <$> reasoning m)) (default [] (think_reasoning <$> parsed))) in
  completeReasoningTiming
    (with_reasoning_streaming false
       (with_reasoning
          (if nonempty finalReasoning then Some (set_reasoning_content finalReasoning (startReasoningTiming m (T 0))) else None)
          (updateCurrentVersionContent m visible)))
    (T 1).

Definition completeAssistantMessage (m : Message) (T : Clock) : Message :=
  completeAssistantTiming (with_status complete (finalizeMessage m None T)) (T 2).

Definition isAssistantMessageFinal (m : Message) : bool :=
  bool_decide (status m = Some complete) || bool_decide (status m = Some error).

Definition isAssistantMessagePending (m : Message) : bool :=
  bool_decide (status m = Some loading) || bool_decide (status m = Some streaming).

Definition isPendingAssistantMessage (m : option Message) : bool :=
  match m with
  | Some m => bool_decide (from m = assistant) && isAssistantMessagePending m
  | None => false
  end.

(** What is read of a choice of a response: [message?.content] and
    [message?.reasoning_content]. *)
Record ChatCompletionChoice := MkChoice {
  choice_content : option jsstr;
  choice_reasoning : option jsstr;
}.

(** The members of a response that are read: [choices], and [data] of an image
    response. *)
Record ChatCompletionResponse := MkResponse {
  choices : option (list ChatCompletionChoice);
  image_data : value;
}.

Definition first_choice (response : ChatCompletionResponse) : option ChatCompletionChoice := choices response ≫= head.

Definition hasChatCompletionChoice (response : ChatCompletionResponse) : bool :=
  bool_decide (is_Some (first_choice response)).

Definition applyChatCompletionChoice (m : Message) (choice : ChatCompletionChoice) (T : Clock) : Message :=
  completeAssistantTiming
    (with_status complete
       (finalizeMessage (updateCurrentVersionContent m (default [] (choice_content choice))) (choice_reasoning choice) T))
    (T 2).

Definition applyChatCompletionResponse (m : Message) (response : ChatCompletionResponse) (T : Clock) : option Message :=
  (λ choice, applyChatCompletionChoice m choice T) <$> first_choice response.

(** The loop from the end: the last index with a pending assistant message. *)
Fixpoint last_pending (messages : list Message) (i : nat) : option nat :=
  match messages with
  | [] => None
  | m :: rest =>
    match last_pending rest (S i) with
    | Some j => Some j
    | None => if isPendingAssistantMessage (Some m) then Some i else None
    end
  end.

Definition sanitize_message (t : jsstr → jsstr) (m : Message) (T : Clock) : Message :=
  let finalized := finalizeMessage m None T in
  let hasReasoning := nonempty (default [] ((λ r, trim (r_content r)) <$> reasoning finalized)) in
  if hasMessageContent finalized || hasReasoning
  then completeAssistantTiming (with_reasoning_streaming false (with_status complete finalized)) (T 2)
  else completeAssistantTiming
         (with_reasoning_streaming false
            (with_status error (updateCurrentVersionContent finalized (t API_REQUEST_ERROR ++ ": " ++ t INTERRUPTED)))) (T 2).

Definition sanitizeMessagesOnLoad (t : jsstr → jsstr) (messages : list Message) (T : Clock) : list Message :=
  match last_pending messages 0 with
  | None => messages
  | Some targetIndex =>
    match messages !! targetIndex with
    | Some m => <[targetIndex := sanitize_message t m T]> messages
    | None => messages
    end
  end.

(** ** Updating the last message ([message-update-utils.ts]) *)

Definition updateLastAssistantMessage (messages : list Message) (updater : Message → Message) : list Message :=
  match last messages with
  | None => messages
  | Some m =>
    if negb (bool_decide (from m = assistant)) then messages
    else <[length messages - 1 := updater m]> messages
  end.

Definition error_message (title errorMessage : jsstr) (code : value) (m : Message) (completed : number) : Message :=
  completeAssistantTiming
    (with_errorCode (if truthy code then code else VNull)
       (with_reasoning_streaming false
          (with_status error (updateCurrentVersionContent m (title ++ ": " ++ errorMessage))))) completed.

Definition updateAssistantMessageWithError (messages : list Message) (errorMessage : jsstr) (code : value) (title : jsstr)
    (completed : number) : list Message :=
  updateLastAssistantMessage messages (λ m, error_message title errorMessage code m completed).

(** ** Conversations ([conversation-message-utils.ts])

    [ids] are the identifiers generated by the operation, in order. *)

Definition appendUserMessagePair (messages : list Message) (text : jsstr) (ids : nat → jsstr) (now : number) : list Message :=
  messages ++ [createUserMessage (ids 0) (ids 1) text now; createLoadingAssistantMessage (ids 2) (ids 3) now].

Definition index_by_key (messages : list Message) (messageKey : jsstr) : option nat :=
  fst <$> list_find (λ m, key m = messageKey) messages.

Definition createRegeneratedMessages (messages : list Message) (messageKey : jsstr) (ids : nat → jsstr) (now : number) :
    option (list Message) :=
  match list_find (λ m, key m = messageKey) messages with
  | None => None
  | Some (messageIndex, m) =>
    if bool_decide (from m = user)
    then Some (take (S messageIndex) messages ++ [createLoadingAssistantMessage (ids 0) (ids 1) now])
    else Some (take messageIndex messages ++ [createLoadingAssistantMessage (ids 0) (ids 1) now])
  end.

Definition removeMessageByKey (messages : list Message) (messageKey : jsstr) : list Message :=
  List.filter (λ m, negb (str_eqb (key m) messageKey)) messages.

(** The loop from [beforeIndex - 1] down. *)
Fixpoint getPreviousUserMessage (messages : list Message) (beforeIndex : nat) : option Message :=
  match beforeIndex with
  | O => None
  | S index =>
    match messages !! index with
    | Some m => if bool_decide (from m = user) then Some m else getPreviousUserMessage messages index
    | None => None
    end
  end.

Definition edit_message (messageKey text : jsstr) (shouldSubmit : bool) (submittedAt : number) (m : Message) : Message :=
  if str_eqb (key m) messageKey
  then with_createdAt (if shouldSubmit then Some submittedAt else createdAt m) (updateCurrentVersionContent m text)
  else m.

Definition applyMessageEdit (messages : list Message) (messageKey text : jsstr) (shouldSubmit : bool)
    (ids : nat → jsstr) (submittedAt : number) : option (list Message * bool) :=
  match index_by_key messages messageKey with
  | None => None
  | Some messageIndex =>
    let updatedMessages := edit_message messageKey text shouldSubmit submittedAt <$> messages in
    if negb shouldSubmit || negb (bool_decide (from <$> updatedMessages !! messageIndex = Some user))
    then Some (updatedMessages, false)
    else Some (take (S messageIndex) updatedMessages ++ [createLoadingAssistantMessage (ids 0) (ids 1) submittedAt], true)
  end.

Definition getEditingMessageContent (messages : list Message) (editingKey : option jsstr) : jsstr :=
  match editingKey with
  | Some k =>
    if negb (nonempty k) then []
    else default [] ((λ p, getMessageContent p.2) <$> list_find (λ m, key m = k) messages)
  | None => []
  end.

(** ** What a message shows ([message-content-utils.ts], [message-error-utils.ts]) *)

Definition shouldShowMessageLoader (m : Message) (isAssistant : bool) (versionContent : jsstr) : bool :=
  isAssistant && negb (default false (isReasoningStreaming m)) &&
  (bool_decide (status m = Some loading) || (bool_decide (status m = Some streaming) && negb (nonempty versionContent))).

Definition shouldShowMessageContent (m : Message) (versionContent : jsstr) : bool :=
  (bool_decide (from m = user) || negb (default false (isReasoningStreaming m))) && Nat.ltb 0 (length versionContent).

Definition getDisplayContent (m : Message) (versionContent : jsstr) : jsstr :=
  if negb (bool_decide (from m = assistant)) then versionContent
  else if negb (includes versionContent OPEN_TAG) then versionContent
  else visibleContent (parseThinkTags versionContent).

(** [reasoningContent] is [None] when [hasReasoning] is false. *)
Record MessageContentState := MkContentState {
  displayContent : jsstr;
  isAssistant : bool;
  showLoader : bool;
  showMessageContent : bool;
  shown_sources : list (jsstr * jsstr);
  reasoningContent : option jsstr;
}.

Definition getMessageContentState (m : Message) (versionContent : jsstr) : MessageContentState :=
  let isAssistant := bool_decide (from m = assistant) in
  MkContentState (getDisplayContent m versionContent) isAssistant
    (shouldShowMessageLoader m isAssistant versionContent)
    (shouldShowMessageContent m versionContent)
    (default [] (sources m))
    (match (if isAssistant then r_content <$> reasoning m else None) with
     | Some r => if nonempty r then Some r else None
     | None => None
     end).

(** The text, whether it is a price error, and whether the settings are linked. *)
Definition getMessageErrorState (m : Message) (isAdmin : bool) : option (jsstr * bool * bool) :=
  if negb (bool_decide (status m = Some error)) then None
  else
    let isModelPriceError := match errorCode m with VStr c => str_eqb c "model_price_error" | _ => false end in
    Some (text_or (getMessageContent m) "An unknown error occurred", isModelPriceError, isModelPriceError && isAdmin).

End PlaygroundMessages.
