(* ===== verification/PlaygroundChat.v ===== *)
(** * Chat requests of the playground
    ([web/src/features/playground/hooks/use-stream-request.ts],
    [use-chat-handler.ts], [use-playground-conversation.ts] and
    [web/src/features/playground/lib/streaming/])

    A chat is the state of three hooks that work together: the list of
    messages kept by React, the references of the chat handler, and the
    variables of the stream controller.  An updater passed to React's setter is
    data ([Updater]): it waits in a queue until the next render and reads the
    handler's references when it runs.  React may run the first updater of an
    empty queue at once; each operation that calls the setter takes that choice
    ([eager]).  A listener or promise continuation that may throw returns
    whether it did. *)

From S2P Require Import Prelude JsString JsNumber JsValue PlaygroundMessages.

Module PlaygroundChat.
Import PlaygroundMessages.

(** ** Requests ([payload-builder.ts]) *)

Record PlaygroundConfig := MkPlayground {
  model : jsstr;
  group : jsstr;
  temperature : number;
  top_p : number;
  max_tokens : number;
  frequency_penalty : number;
  presence_penalty : number;
  seed : option number;
  stream : bool;
}.

Record ParameterEnabled := MkEnabled {
  e_temperature : bool;
  e_top_p : bool;
  e_max_tokens : bool;
  e_frequency_penalty : bool;
  e_presence_penalty : bool;
  e_seed : bool;
}.

Record ChatCompletionRequest := MkRequest {
  req_model : jsstr;
  req_group : jsstr;
  req_messages : list (MessageRole * jsstr);
  req_stream : bool;
  req_temperature : option number;
  req_top_p : option number;
  req_max_tokens : option number;
  req_frequency_penalty : option number;
  req_presence_penalty : option number;
  req_seed : option number;
}.

(** ** Streamed data ([stream-utils.ts]) *)

(** [v?.k] and [v?.[0]] *)
Definition opt_prop (v : value) (k : jsstr) : value := match v with VUndef | VNull => VUndef | _ => prop v k end.
Definition opt_first (v : value) : value :=
  match v with
  | VArr (x :: _) => x
  | VStr (c :: _) => VStr [c]
  | VObj _ => prop v "0"
  | _ => VUndef
  end.

Record StreamErrorDetails := MkDetails {
  d_code : value;
  d_message : value;
}.

(** [a || b] of values *)
Definition val_or (a b : value) : value := if truthy a then a else b.

Definition parseStreamErrorDetails (data : option jsstr) : StreamErrorDetails :=
  let text := default [] data in
  if negb (nonempty text) then MkDetails VUndef (VStr API_REQUEST_ERROR)
  else
    match JSON_parse text with
    | Some parsed =>
      let err := opt_prop parsed "error" in
      if negb (truthy err) then MkDetails VUndef (VStr text)
      else MkDetails (val_or (prop err "code") VUndef) (val_or (prop err "message") (VStr text))
    | None => MkDetails VUndef (VStr text)
    end.

(** [None] when it throws: the text is not JSON, or is [null]. *)
Definition parseStreamMessageUpdates (data : jsstr) : option (list (StreamChunkType * value)) :=
  match JSON_parse data with
  | None | Some VNull | Some VUndef => None
  | Some chunk =>
    let delta := opt_prop (opt_first (prop chunk "choices")) "delta" in
    if negb (truthy delta) then Some []
    else
      Some ((if truthy (prop delta "reasoning_content") then [(reasoning_chunk, prop delta "reasoning_content")] else []) ++
            (if truthy (prop delta "content") then [(content_chunk, prop delta "content")] else []))
  end.

Definition isStreamDoneMessage (data : jsstr) : bool := str_eqb data "[DONE]".

Definition isStreamClosedReadyState (readyState : option Z) : bool := bool_decide (readyState = Some 2%Z).

Definition getStreamReadyStateError (readyState status : option Z) : option jsstr :=
  match readyState, status with
  | Some r, Some s =>
    if (2 <=? r)%Z && negb (s =? 200)%Z then Some ("HTTP " ++ Z_to_string s ++ ": " ++ CONNECTION_CLOSED)%js else None
  | _, _ => None
  end.

(** [request-error-utils.ts] *)
Definition parseRequestErrorDetails (err : value) : StreamErrorDetails :=
  let data := opt_prop (opt_prop err "response") "data" in
  MkDetails (val_or (opt_prop (opt_prop data "error") "code") VUndef)
    (val_or (opt_prop data "message") (val_or (opt_prop err "message") (VStr API_REQUEST_ERROR))).

(** ** The state *)

Record PendingStreamChunks := MkPending {
  p_generation : nat;
  p_content : jsstr;
  p_reasoning : jsstr;
}.

(** The functions given to React's setter; the number is the generation they
    were made in. *)
Inductive Updater :=
  | Replace (ms : list Message)
  | ApplyChunks (g : nat) (r c : jsstr)
  | CompleteLast (g : nat)
  | FailLast (g : nat) (text : jsstr) (code : value)
  | ShowImages (g : nat) (text : jsstr)
  | ShowResponse (g : nat) (response : ChatCompletionResponse)
  | FinishPending (g : nat)
  | RemoveKey (k : jsstr).

(** What React keeps: the rendered messages, the waiting updaters, and two flags. *)
Record View := MkView {
  messages : list Message;
  updates : list Updater;
  isRequesting : bool;
  isStreaming : bool;
  errors_shown : list jsstr;
}.

(** The references of [useChatHandler].  The timer has the generation it was
    started for and whether it is still to fire; an abort controller is named
    by the generation of its request. *)
Record Refs := MkRefs {
  requestGeneration : nat;
  pendingStreamChunks : PendingStreamChunks;
  flushTimer : option (nat * bool);
  abortController : option nat;
  aborted : list nat;
}.

(** An event source: the request it was opened for, the generation its
    callbacks were made in, its payload, and whether it is done or closed. *)
Record Source := MkSource {
  src_request : nat;
  src_chat : nat;
  src_payload : ChatCompletionRequest;
  completed : bool;
  closed : bool;
}.

(** The variables of [createStreamRequestController]; [waiting] are the sends
    that await their headers. *)
Record Controller := MkController {
  generation : nat;
  source : option nat;
  opened : list Source;
  waiting : list (nat * nat * ChatCompletionRequest);
}.

Record Chat := MkChat {
  view : View;
  refs : Refs;
  ctl : Controller;
  inflight : list nat;
}.

Definition on_view (f : View → View) (c : Chat) : Chat := MkChat (f (view c)) (refs c) (ctl c) (inflight c).
Definition on_refs (f : Refs → Refs) (c : Chat) : Chat := MkChat (view c) (f (refs c)) (ctl c) (inflight c).
Definition on_ctl (f : Controller → Controller) (c : Chat) : Chat := MkChat (view c) (refs c) (f (ctl c)) (inflight c).

Definition setIsRequesting (b : bool) : Chat → Chat :=
  on_view (λ v, MkView (messages v) (updates v) b (isStreaming v) (errors_shown v)).
Definition setStreaming (b : bool) : Chat → Chat :=
  on_view (λ v, MkView (messages v) (updates v) (isRequesting v) b (errors_shown v)).
Definition toast (text : jsstr) : Chat → Chat :=
  on_view (λ v, MkView (messages v) (updates v) (isRequesting v) (isStreaming v) (errors_shown v ++ [text])).
Definition set_generation (g : nat) : Chat → Chat :=
  on_refs (λ r, MkRefs g (pendingStreamChunks r) (flushTimer r) (abortController r) (aborted r)).
Definition set_pending (p : PendingStreamChunks) : Chat → Chat :=
  on_refs (λ r, MkRefs (requestGeneration r) p (flushTimer r) (abortController r) (aborted r)).
Definition set_timer (x : option (nat * bool)) : Chat → Chat :=
  on_refs (λ r, MkRefs (requestGeneration r) (pendingStreamChunks r) x (abortController r) (aborted r)).
(** [abortControllerRef.current?.abort()] and then the reference is set. *)
Definition abort_and_set (next : option nat) : Chat → Chat :=
  on_refs (λ r, MkRefs (requestGeneration r) (pendingStreamChunks r) (flushTimer r) next
                  (match abortController r with Some g => g :: aborted r | None => aborted r end)).
Definition set_abort (next : option nat) : Chat → Chat :=
  on_refs (λ r, MkRefs (requestGeneration r) (pendingStreamChunks r) (flushTimer r) next (aborted r)).

Section Hooks.
Context (t lower : jsstr → jsstr).

Definition buildChatCompletionPayload (ms : list Message) (config : PlaygroundConfig) (enabled : ParameterEnabled) :
    ChatCompletionRequest :=
  MkRequest (model config) (group config) (formatMessageForAPI <$> List.filter isValidMessage ms)
    (stream config && negb (isImageGenerationModel lower (model config)))
    (if e_temperature enabled then Some (temperature config) else None)
    (if e_top_p enabled then Some (top_p config) else None)
    (if e_max_tokens enabled then Some (max_tokens config) else None)
    (if e_frequency_penalty enabled then Some (frequency_penalty config) else None)
    (if e_presence_penalty enabled then Some (presence_penalty config) else None)
    (if e_seed enabled then seed config else None).

(** ** Messages as React keeps them *)

(** An updater, given the generation the handler has when it runs. *)
Definition run_updater (now : nat) (u : Updater) (T : Clock) (prev : list Message) : list Message :=
  match u with
  | Replace ms => ms
  | ApplyChunks g r c =>
    if negb (Nat.eqb g now) then prev
    else updateLastAssistantMessage prev (λ m,
      let m1 := if nonempty r then applyStreamingChunk m reasoning_chunk r T else m in
      if nonempty c then applyStreamingChunk m1 content_chunk c (λ i, T (S i)) else m1)
  | CompleteLast g =>
    if negb (Nat.eqb g now) then prev
    else updateLastAssistantMessage prev (λ m, if isAssistantMessageFinal m then m else completeAssistantMessage m T)
  | FailLast g text code =>
    if negb (Nat.eqb g now) then prev
    else updateAssistantMessageWithError prev text code (t API_REQUEST_ERROR) (T 0)
  | ShowImages g text =>
    if negb (Nat.eqb g now) then prev
    else updateLastAssistantMessage prev (λ m, completeAssistantMessage (updateCurrentVersionContent m text) T)
  | ShowResponse g response =>
    if negb (Nat.eqb g now) then prev
    else updateLastAssistantMessage prev (λ m, default m (applyChatCompletionResponse m response T))
  | FinishPending g =>
    if negb (Nat.eqb g now) then prev
    else updateLastAssistantMessage prev (λ m, if isAssistantMessagePending m then completeAssistantMessage m T else m)
  | RemoveKey k => removeMessageByKey prev k
  end.

Definition run_updates (now : nat) (us : list Updater) (T : Clock) (prev : list Message) : list Message :=
  fold_left (λ ms u, run_updater now u T ms) us prev.

(** [onMessageUpdate(updater)] *)
Definition onMessageUpdate (eager : bool) (T : Clock) (u : Updater) (c : Chat) : Chat :=
  on_view (λ v,
    let u' := if eager && bool_decide (length (updates v) = 0)
              then Replace (run_updater (requestGeneration (refs c)) u T (messages v)) else u in
    MkView (messages v) (updates v ++ [u']) (isRequesting v) (isStreaming v) (errors_shown v)) c.

(** A render runs the waiting updaters. *)
Definition render (T : Clock) (c : Chat) : Chat :=
  on_view (λ v, MkView (run_updates (requestGeneration (refs c)) (updates v) T (messages v)) [] (isRequesting v)
                  (isStreaming v) (errors_shown v)) c.

(** ** The chat handler ([use-chat-handler.ts]) *)

Definition clear_timer (c : Chat) : Chat := set_timer None c.

Definition discardPendingStreamUpdates (g : nat) (c : Chat) : Chat := set_pending (MkPending g [] []) (clear_timer c).

(** [None] when it throws: only a text has [startsWith]. *)
Definition mergePendingStreamChunk (currentChunk : jsstr) (nextChunk : value) : option jsstr :=
  if negb (nonempty currentChunk) then Some (to_string nextChunk)
  else match nextChunk with
       | VStr next => Some (if startsWith next currentChunk then next else currentChunk ++ next)
       | _ => None
       end.

Definition flushStreamUpdates (eager : bool) (T : Clock) (g : nat) (c : Chat) : Chat :=
  if negb (Nat.eqb g (requestGeneration (refs c))) then c
  else
    let c := clear_timer c in
    let p := pendingStreamChunks (refs c) in
    if negb (Nat.eqb (p_generation p) g) then c
    else if negb (nonempty (p_reasoning p)) && negb (nonempty (p_content p)) then c
    else onMessageUpdate eager T (ApplyChunks g (p_reasoning p) (p_content p)) (set_pending (MkPending g [] []) c).

Definition scheduleStreamFlush (g : nat) (c : Chat) : Chat :=
  if negb (Nat.eqb g (requestGeneration (refs c))) then c
  else match flushTimer (refs c) with Some _ => c | None => set_timer (Some (g, true)) c end.

(** The timer of the last schedule fires. *)
Definition on_flush_timer (eager : bool) (T : Clock) (c : Chat) : Chat :=
  match flushTimer (refs c) with
  | Some (g, true) => flushStreamUpdates eager T g (set_timer (Some (g, false)) c)
  | _ => c
  end.

Definition KNOWN_ERROR_MESSAGES : list jsstr :=
  [API_REQUEST_ERROR; NETWORK_ERROR; PARSE_ERROR; STREAM_START_ERROR; CONNECTION_CLOSED; INTERRUPTED].

(** [None] when it throws: only a text has [endsWith]. *)
Definition getDisplayError (err : value) : option jsstr :=
  match err with
  | VStr e =>
    Some (if bool_decide (e ∈ KNOWN_ERROR_MESSAGES) then t e
          else if endsWith e (": " ++ CONNECTION_CLOSED)
          then take (length e - length CONNECTION_CLOSED) e ++ t CONNECTION_CLOSED
          else e)
  | _ => None
  end.

Definition handleStreamUpdate (g : nat) (type : StreamChunkType) (chunk : value) (c : Chat) : Chat * bool :=
  if negb (Nat.eqb g (requestGeneration (refs c))) then (c, false)
  else
    let p := pendingStreamChunks (refs c) in
    if negb (Nat.eqb (p_generation p) g) then (c, false)
    else
      match type with
      | reasoning_chunk =>
        match mergePendingStreamChunk (p_reasoning p) chunk with
        | Some r => (scheduleStreamFlush g (set_pending (MkPending (p_generation p) (p_content p) r) c), false)
        | None => (c, true)
        end
      | content_chunk =>
        match mergePendingStreamChunk (p_content p) chunk with
        | Some s => (scheduleStreamFlush g (set_pending (MkPending (p_generation p) s (p_reasoning p)) c), false)
        | None => (c, true)
        end
      end.

Definition handleStreamComplete (eager : bool) (T : Clock) (g : nat) (c : Chat) : Chat :=
  if negb (Nat.eqb g (requestGeneration (refs c))) then c
  else onMessageUpdate eager T (CompleteLast g) (setIsRequesting false (flushStreamUpdates eager T g c)).

Definition handleStreamError (eager : bool) (T : Clock) (g : nat) (err code : value) (c : Chat) : Chat * bool :=
  if negb (Nat.eqb g (requestGeneration (refs c))) then (c, false)
  else
    let c := setIsRequesting false (flushStreamUpdates eager T g c) in
    match getDisplayError err with
    | Some displayError => (onMessageUpdate eager T (FailLast g displayError code) (toast displayError c), false)
    | None => (c, true)
    end.

(** ** The stream controller ([use-stream-request.ts]) *)

Definition close_source (id : nat) : Controller → Controller :=
  λ k, MkController (generation k) (source k)
         (alter (λ s, MkSource (src_request s) (src_chat s) (src_payload s) (completed s) true) id (opened k)) (waiting k).
Definition complete_source (id : nat) : Controller → Controller :=
  λ k, MkController (generation k) (source k)
         (alter (λ s, MkSource (src_request s) (src_chat s) (src_payload s) true (closed s)) id (opened k)) (waiting k).
Definition set_source (o : option nat) : Controller → Controller :=
  λ k, MkController (generation k) o (opened k) (waiting k).
Definition bump : Controller → Controller := λ k, MkController (S (generation k)) (source k) (opened k) (waiting k).
Definition close_opt (o : option nat) (k : Controller) : Controller :=
  match o with Some id => close_source id k | None => k end.

Definition closeActiveSource (target : nat) (c : Chat) : Chat :=
  let c := on_ctl (close_source target) c in
  if bool_decide (source (ctl c) = Some target) then setStreaming false (on_ctl (set_source None) c) else c.

(** [send] up to the [await]; [g] is the generation of the callbacks. *)
Definition stream_send (payload : ChatCompletionRequest) (g : nat) (c : Chat) : Chat :=
  let k := bump (ctl c) in
  setStreaming false
    (on_ctl (λ _, let k' := close_opt (source k) (set_source None k) in
                  MkController (generation k') (source k') (opened k') (waiting k' ++ [(generation k', g, payload)])) c).

Definition source_current (id : nat) (s : Source) (k : Controller) : bool :=
  Nat.eqb (generation k) (src_request s) && bool_decide (source k = Some id).

(** A listener's guard: the source, when it is current and not done. *)
Definition listening (id : nat) (c : Chat) : option Source :=
  match opened (ctl c) !! id with
  | Some s => if source_current id s (ctl c) && negb (completed s) then Some s else None
  | None => None
  end.

Definition handleError (eager : bool) (T : Clock) (id : nat) (err code : value) (c : Chat) : Chat :=
  match listening id c with
  | Some s =>
    match handleStreamError eager T (src_chat s) err code (on_ctl (complete_source id) c) with
    | (c', false) => closeActiveSource id c'
    | (c', true) => c'
    end
  | None => c
  end.

(** The rest of [send], when the headers of the [i]-th waiting send are there
    ([inr]) or could not be had ([inl], with the message of an [Error]);
    [starts] tells whether [nextSource.stream()] returns. *)
Definition on_headers (eager : bool) (T : Clock) (i : nat) (headers : option jsstr + unit) (starts : bool) (c : Chat) : Chat :=
  match waiting (ctl c) !! i with
  | None => c
  | Some (request, g, payload) =>
    let c := on_ctl (λ k, MkController (generation k) (source k) (opened k) (delete i (waiting k))) c in
    if negb (Nat.eqb (generation (ctl c)) request) then c
    else match headers with
         | inl message => (handleStreamError eager T g (VStr (default STREAM_START_ERROR message)) VUndef c).1
         | inr _ =>
           let id := length (opened (ctl c)) in
           let c := setStreaming true
                      (on_ctl (λ k, MkController (generation k) (Some id)
                                      (opened k ++ [MkSource request g payload false false]) (waiting k)) c) in
           if starts then c else handleError eager T id (VStr STREAM_START_ERROR) VUndef c
         end
  end.

(** [for (const update of updates) callbacks.onUpdate(...)] *)
Fixpoint run_stream_updates (g : nat) (us : list (StreamChunkType * value)) (c : Chat) : Chat * bool :=
  match us with
  | [] => (c, false)
  | (type, chunk) :: us' =>
    match handleStreamUpdate g type chunk c with
    | (c', false) => run_stream_updates g us' c'
    | r => r
    end
  end.

Definition on_source_message (eager : bool) (T : Clock) (id : nat) (data : option jsstr) (c : Chat) : Chat :=
  match listening id c with
  | None => c
  | Some s =>
    let data := default [] data in
    if isStreamDoneMessage data
    then handleStreamComplete eager T (src_chat s) (closeActiveSource id (on_ctl (complete_source id) c))
    else
      match parseStreamMessageUpdates data with
      | None => handleError eager T id (VStr PARSE_ERROR) VUndef c
      | Some us =>
        match run_stream_updates (src_chat s) us c with
        | (c', false) => c'
        | (c', true) => handleError eager T id (VStr PARSE_ERROR) VUndef c'
        end
      end
  end.

Definition on_source_error (eager : bool) (T : Clock) (id : nat) (readyState : option Z) (data : option jsstr) (c : Chat) : Chat :=
  match listening id c with
  | None => c
  | Some _ =>
    if isStreamClosedReadyState readyState then c
    else let d := parseStreamErrorDetails data in handleError eager T id (d_message d) (d_code d) c
  end.

Definition on_ready_state (eager : bool) (T : Clock) (id : nat) (readyState status : option Z) (c : Chat) : Chat :=
  match listening id c with
  | None => c
  | Some _ =>
    match getStreamReadyStateError readyState status with
    | Some message => if nonempty message then handleError eager T id (VStr message) VUndef c else c
    | None => c
    end
  end.

Definition cancel (notify : bool) (c : Chat) : Chat :=
  let k := bump (ctl c) in
  let c := on_ctl (λ _, close_opt (source k) (set_source None k)) c in
  if notify then setStreaming false c else c.

(** ** Sending *)

Definition sendStreamingChat (config : PlaygroundConfig) (enabled : ParameterEnabled) (ms : list Message) (c : Chat) : Chat :=
  let g := S (requestGeneration (refs c)) in
  let c := setIsRequesting true (discardPendingStreamUpdates g (abort_and_set None (set_generation g c))) in
  stream_send (buildChatCompletionPayload ms config enabled) g c.

(** [sendNonStreamingChat] up to its [await]. *)
Definition sendNonStreamingChat (config : PlaygroundConfig) (enabled : ParameterEnabled) (ms : list Message) (c : Chat) : Chat :=
  let g := S (requestGeneration (refs c)) in
  let c := abort_and_set (Some g) (discardPendingStreamUpdates g (cancel true (set_generation g c))) in
  let c := setIsRequesting true c in
  MkChat (view c) (refs c) (ctl c) (inflight c ++ [g]).

Definition settle (g : nat) (c : Chat) : Chat :=
  if Nat.eqb (requestGeneration (refs c)) g then setIsRequesting false (set_abort None c) else c.

(** The rest of it, when the request of generation [g] was answered. *)
Definition on_answer (eager : bool) (T : Clock) (g : nat) (answer : value + ChatCompletionResponse) (c : Chat) : Chat :=
  if bool_decide (g ∈ aborted (refs c)) || negb (Nat.eqb (requestGeneration (refs c)) g) then settle g c
  else
    match answer with
    | inr response =>
      match getImageResponseContent (VObj [("data"%js, image_data response)]) with
      | Some text => settle g (onMessageUpdate eager T (ShowImages g text) c)
      | None =>
        if negb (hasChatCompletionChoice response)
        then settle g (handleStreamError eager T g (VStr API_REQUEST_ERROR) VUndef c).1
        else settle g (onMessageUpdate eager T (ShowResponse g response) c)
      end
    | inl err =>
      let d := parseRequestErrorDetails err in
      settle g (handleStreamError eager T g (d_message d) (d_code d) c).1
    end.

Definition answered (eager : bool) (T : Clock) (i : nat) (answer : value + ChatCompletionResponse) (c : Chat) : Chat :=
  match inflight c !! i with
  | None => c
  | Some g => on_answer eager T g answer (MkChat (view c) (refs c) (ctl c) (delete i (inflight c)))
  end.

Definition sendChat (config : PlaygroundConfig) (enabled : ParameterEnabled) (ms : list Message) (c : Chat) : Chat :=
  if stream config && negb (isImageGenerationModel lower (model config))
  then sendStreamingChat config enabled ms c
  else sendNonStreamingChat config enabled ms c.

Definition stopGeneration (eager : bool) (T : Clock) (c : Chat) : Chat :=
  let stopped := requestGeneration (refs c) in
  let c := flushStreamUpdates eager T stopped c in
  let idle := S stopped in
  let c := setIsRequesting false
             (abort_and_set None (cancel true (discardPendingStreamUpdates idle (set_generation idle c)))) in
  onMessageUpdate eager T (FinishPending idle) c.

(** The effects' clean-up functions. *)
Definition unmount (c : Chat) : Chat :=
  cancel false
    (abort_and_set None
       (set_timer ((λ x, (x.1, false)) <$> flushTimer (refs c)) (set_generation (S (requestGeneration (refs c))) c))).

Definition isGenerating (c : Chat) : bool := isStreaming (view c) || isRequesting (view c).

(** ** The conversation ([use-playground-conversation.ts]) *)

Definition handleSendMessage (eager : bool) (T : Clock) (config : PlaygroundConfig) (enabled : ParameterEnabled)
    (ids : nat → jsstr) (text : jsstr) (c : Chat) : Chat :=
  let nextMessages := appendUserMessagePair (messages (view c)) text ids (T 0) in
  sendChat config enabled nextMessages (onMessageUpdate eager T (Replace nextMessages) c).

Definition handleRegenerateMessage (eager : bool) (T : Clock) (config : PlaygroundConfig) (enabled : ParameterEnabled)
    (ids : nat → jsstr) (messageKey : jsstr) (c : Chat) : Chat :=
  match createRegeneratedMessages (messages (view c)) messageKey ids (T 0) with
  | Some nextMessages => sendChat config enabled nextMessages (onMessageUpdate eager T (Replace nextMessages) c)
  | None => c
  end.

Definition applyEdit (eager : bool) (T : Clock) (config : PlaygroundConfig) (enabled : ParameterEnabled)
    (ids : nat → jsstr) (editingMessageKey newContent : jsstr) (shouldSubmit : bool) (c : Chat) : Chat :=
  if negb (nonempty editingMessageKey) then c
  else match applyMessageEdit (messages (view c)) editingMessageKey newContent shouldSubmit ids (T 0) with
       | None => c
       | Some (ms, shouldSend) =>
         let c := onMessageUpdate eager T (Replace ms) c in
         if shouldSend then sendChat config enabled ms c else c
       end.

Definition handleDeleteMessage (eager : bool) (T : Clock) (messageKey : jsstr) (c : Chat) : Chat :=
  onMessageUpdate eager T (RemoveKey messageKey) c.

Definition clearMessages (eager : bool) (T : Clock) (c : Chat) : Chat := onMessageUpdate eager T (Replace []) c.

(** ** Steps

    The steps of a mounted chat.  The page shows what was rendered last.
    Sending, regenerating, deleting and clearing are disabled while the page
    shows that a reply is generated; the flags change together with the updater
    that ends a reply, so these events come when nothing is generated and no
    updater waits.  Stopping and saving an edit are possible at any time; an
    edit works on the messages rendered last, whatever waits.

    A step is [orderly] when it is neither of two things that a chat may do but
    should not: saving an edit after a reply has ended and before its end is
    rendered (unless the edit is submitted again), and failing with an error
    whose message is no text. *)
Definition text_answer (answer : value + ChatCompletionResponse) : bool :=
  match answer with inl err => is_string (d_message (parseRequestErrorDetails err)) | inr _ => true end.

Definition edit_sends (ids : nat → jsstr) (k text : jsstr) (submit : bool) (now : number) (c : Chat) : Prop :=
  snd <$> applyMessageEdit (messages (view c)) k text submit ids now = Some true.

Inductive chat_step (orderly : bool) : Chat → Chat → Prop :=
  | step_render c T : chat_step orderly c (render T c)
  | step_timer c eager T : chat_step orderly c (on_flush_timer eager T c)
  | step_headers c eager T i headers starts : chat_step orderly c (on_headers eager T i headers starts c)
  | step_message c eager T id data : chat_step orderly c (on_source_message eager T id data c)
  | step_error c eager T id readyState data : (orderly = true → is_string (d_message (parseStreamErrorDetails data)) = true) →
      chat_step orderly c (on_source_error eager T id readyState data c)
  | step_ready_state c eager T id readyState status : chat_step orderly c (on_ready_state eager T id readyState status c)
  | step_answered c eager T i answer : (orderly = true → text_answer answer = true) →
      chat_step orderly c (answered eager T i answer c)
  | step_send c eager T config enabled ids text : updates (view c) = [] → isGenerating c = false →
      chat_step orderly c (handleSendMessage eager T config enabled ids text c)
  | step_regenerate c eager T config enabled ids k : updates (view c) = [] → isGenerating c = false →
      chat_step orderly c (handleRegenerateMessage eager T config enabled ids k c)
  | step_edit c eager T config enabled ids k text submit :
      (orderly = true → isGenerating c = true ∨ updates (view c) = [] ∨ edit_sends ids k text submit (T 0) c) →
      chat_step orderly c (applyEdit eager T config enabled ids k text submit c)
  | step_delete c eager T k : updates (view c) = [] → isGenerating c = false →
      chat_step orderly c (handleDeleteMessage eager T k c)
  | step_clear c eager T : updates (view c) = [] → isGenerating c = false → chat_step orderly c (clearMessages eager T c)
  | step_stop c eager T : chat_step orderly c (stopGeneration eager T c).

Definition initial_chat (ms : list Message) : Chat :=
  MkChat (MkView ms [] false false []) (MkRefs 0 (MkPending 0 [] []) None None []) (MkController 0 None [] []) [].
End Hooks.
End PlaygroundChat.
