(* ===== verification/PlaygroundMessagesFacts.v ===== *)
(** * Properties of the playground's messages

    What the think tags of a text denote, the states a message goes through,
    and that requests carry the conversation. *)

From S2P Require Import Prelude JsString JsNumber JsValue JsRegExp PlaygroundMessages.

Module PlaygroundMessagesFacts.
Import PlaygroundMessages.

(** ** Searching *)

(** [w] occurs in [s] after [a] and not before. *)
Definition first_at (w s a b : jsstr) : Prop :=
  s = a ++ w ++ b ∧ ∀ i, i < length a → startsWith (drop i s) w = false.

Lemma find_at_Some w s : ∀ i j, find_at w s i = Some j → ∃ a b, first_at w s a b ∧ j = i + length a.
Proof.
  induction s as [|c s IH]; intros i j; cbn [find_at]; destruct (startsWith _ w) eqn:E; intros H; simplify_eq.
  - exists [], (drop (length w) []). split; [split; [by apply startsWith_take|cbn; lia]|cbn; lia].
  - exists [], (drop (length w) (c :: s)). split; [split; [by apply startsWith_take|cbn; lia]|cbn; lia].
  - apply IH in H as (a & b & [-> Ha] & ->). exists (c :: a), b. repeat split; [|cbn; lia].
    intros [|k] Hk; [exact E|apply Ha; cbn in Hk; lia].
Qed.

Lemma find_at_None w s : ∀ i, find_at w s i = None → includes s w = false.
Proof.
  induction s as [|c s IH]; intros i; cbn [find_at includes]; destruct (startsWith _ w); intros H; simplify_eq; try done.
  by apply IH in H.
Qed.

Lemma indexOf_Some s w i j : indexOf s w i = Some j → ∃ a b, first_at w (drop i s) a b ∧ j = i + length a.
Proof. apply find_at_Some. Qed.

Lemma includes_drop s w i : includes s w = false → startsWith (drop i s) w = false.
Proof.
  revert i. induction s as [|c s IH]; intros i H; cbn [includes] in H; apply orb_false_iff in H as [H1 H2].
  - by rewrite drop_nil.
  - destruct i; [done|by apply IH].
Qed.

Lemma first_at_includes w s a b : first_at w s a b → includes s w = true.
Proof. intros [-> _]. apply includes_app. Qed.

Lemma first_at_drop w s a b : first_at w s a b → startsWith (drop (length a) s) w = true.
Proof. intros [-> _]. rewrite drop_app_length. apply startsWith_app. Qed.

Lemma first_at_unique w s a b a' b' : first_at w s a b → first_at w s a' b' → a = a' ∧ b = b'.
Proof.
  intros H H'. assert (length a = length a') as E.
  { destruct (Nat.lt_trichotomy (length a) (length a')) as [L|[L|L]]; [|done|].
    - pose proof (first_at_drop _ _ _ _ H) as X. rewrite (proj2 H' _ L) in X. done.
    - pose proof (first_at_drop _ _ _ _ H') as X. rewrite (proj2 H _ L) in X. done. }
  destruct H as [-> _], H' as [E' _]. apply app_inj_1 in E' as [-> E'']; [|done].
  split; [done|]. by apply app_inv_head in E''.
Qed.

(** ** Think tags *)

(** The visible parts, the reasoning parts and whether a tag is left open. *)
Inductive thinks : jsstr → list jsstr → list jsstr → bool → Prop :=
  | thinks_end v : includes v OPEN_TAG = false → thinks v [v] [] false
  | thinks_open s v r : first_at OPEN_TAG s v r → includes r CLOSE_TAG = false → thinks s [v] [r] true
  | thinks_block s v x r y vs rs u : first_at OPEN_TAG s v x → first_at CLOSE_TAG x r y → thinks y vs rs u →
      thinks s (v :: vs) (r :: rs) u.

Lemma thinks_unique s vs rs u : thinks s vs rs u → ∀ vs' rs' u', thinks s vs' rs' u' → vs' = vs ∧ rs' = rs ∧ u' = u.
Proof.
  induction 1 as [v Hv|s v r H1 H2|s v x r y vs rs u H1 H2 _ IH]; intros vs' rs' u' H'; inversion H'; subst;
    repeat match goal with
    | H : first_at ?w ?s _ _, H' : includes ?s ?w = false |- _ => apply first_at_includes in H; congruence
    | H : first_at ?w ?s _ _, H' : first_at ?w ?s _ _ |- _ =>
        destruct (first_at_unique _ _ _ _ _ _ H H') as [-> ->]; clear H'
    end; try done.
  match goal with H : thinks _ _ _ _ |- _ => apply IH in H as (-> & -> & ->) end. done.
Qed.

Lemma slice_drop (s : jsstr) i a b : drop i s = a ++ b → slice s i (i + length a) = a.
Proof. intros E. unfold slice. rewrite E. replace (i + length a - i) with (length a) by lia. by rewrite take_app_length. Qed.

Lemma drop_more (s : jsstr) i a b k : drop i s = a ++ b → k = i + length a → drop k s = b.
Proof. intros E ->. rewrite <- drop_drop, E. by rewrite drop_app_length. Qed.

Lemma push_nonempty (V : list jsstr) (v : jsstr) (b : bool) : (b = false → v = []) →
  concat (if b then V ++ [v] else V) = concat V ++ v.
Proof. intros H. destruct b; [rewrite concat_app; cbn; by rewrite app_nil_r|by rewrite H, app_nil_r]. Qed.

Lemma think_loop_spec n : ∀ s pos V R, length s < n + pos →
  ∃ V' vs rs u, think_loop n s pos V R = (V', R ++ rs, u) ∧ thinks (drop pos s) vs rs u ∧ concat V' = concat V ++ concat vs.
Proof.
  induction n as [|n IH]; intros s pos V R Hn; cbn [think_loop].
  { exists V, [[]], [], false. rewrite app_nil_r, drop_ge by lia. split; [done|]. split; [by constructor|by rewrite app_nil_r]. }
  destruct (indexOf s OPEN_TAG pos) as [openPos|] eqn:Eo.
  2: { eexists _, [drop pos s], [], false. rewrite app_nil_r. split; [done|]. split; [constructor; by eapply find_at_None|].
       rewrite push_nonempty; [cbn; by rewrite app_nil_r|]. intros ?%Nat.ltb_ge. by apply drop_ge. }
  apply indexOf_Some in Eo as (a & b & Ha & ->). set (V1 := if Nat.ltb pos _ then _ else _).
  assert (concat V1 = concat V ++ a) as HV1.
  { subst V1. rewrite (slice_drop _ _ _ _ (proj1 Ha)). apply push_nonempty.
    intros ?%Nat.ltb_ge. apply length_zero_iff_nil. lia. }
  assert (drop (pos + length a + 7) s = b) as Eb.
  { apply (drop_more s pos (a ++ OPEN_TAG) b); [by rewrite (proj1 Ha), (assoc (++))|rewrite length_app; cbn; lia]. }
  destruct (indexOf s CLOSE_TAG _) as [closePos|] eqn:Ec.
  - apply indexOf_Some in Ec as (r & y & Hr & ->). rewrite Eb in Hr.
    assert (drop (pos + length a + 7 + length r + 8) s = y) as Ey.
    { eapply (drop_more s (pos + length a + 7) (r ++ CLOSE_TAG) y);
        [by rewrite Eb, (proj1 Hr), (assoc (++))|rewrite length_app; cbn; lia]. }
    destruct (IH s (pos + length a + 7 + length r + 8) V1 (R ++ [slice s (pos + length a + 7) (pos + length a + 7 + length r)]))
      as (V' & vs & rs & u & E & Ht & EV); [lia|].
    rewrite Ey in Ht. rewrite E. eexists V', (a :: vs), (r :: rs), u.
    rewrite (slice_drop s _ r (CLOSE_TAG ++ y)) by (rewrite Eb; apply Hr).
    split; [by rewrite <- (assoc (++))|]. split; [by econstructor|]. rewrite EV, HV1. cbn. by rewrite (assoc (++)).
  - exists V1, [a], [b], true. rewrite Eb. split; [done|]. split; [|rewrite HV1; cbn; by rewrite app_nil_r].
    constructor; [done|]. eapply (find_at_None _ _ (pos + length a + 7)). unfold indexOf in Ec. by rewrite Eb in Ec.
Qed.

Lemma join_nil ps : join [] ps = concat ps.
Proof. induction ps as [|p [|q ps] IH]; [done|cbn; by rewrite app_nil_r|]. cbn [join concat] in *. by rewrite IH. Qed.

Lemma thinks_tagless s vs rs u : thinks s vs rs u → rs = [] ↔ includes s OPEN_TAG = false.
Proof.
  intros [v Hv|s' v r H1 H2|s' v x r y vs' rs' u' H1 H2 H3]; [done|..];
    apply first_at_includes in H1; rewrite H1; (split; intros X; discriminate X).
Qed.

(** Reading think tags.  Every text has exactly one division into visible
    parts and reasoning parts (an opening tag ends a visible part, the first
    closing tag after it ends the reasoning, and a tag may be left open), and
    the loop over positions finds it: a text without tags is shown as it is,
    otherwise the visible parts are shown together, the reasoning parts as
    paragraphs, both trimmed. *)
Theorem think_tags_exact text :
  ∃ vs rs u, thinks text vs rs u ∧
    (∀ vs' rs' u', thinks text vs' rs' u' → vs' = vs ∧ rs' = rs ∧ u' = u) ∧
    parseThinkTags text =
      match rs with
      | [] => MkThink text [] false
      | _ => MkThink (trim (concat vs)) (trim (join [10%N; 10%N] rs)) u
      end.
Proof.
  destruct (think_loop_spec (S (length text)) text 0 [] []) as (V & vs & rs & u & E & Ht & EV); [lia|].
  rewrite drop_0 in Ht. exists vs, rs, u. split; [done|]. split; [intros; by eapply thinks_unique|].
  unfold parseThinkTags. pose proof (thinks_tagless _ _ _ _ Ht) as Hr.
  destruct (includes text OPEN_TAG); cbn [negb].
  - destruct rs as [|r rs]; [by assert (true = false) by by apply Hr|].
    rewrite E. cbn [app]. cbn in EV. by rewrite join_nil, EV.
  - by rewrite (proj2 Hr eq_refl).
Qed.

End PlaygroundMessagesFacts.
