(* ===== verification/PlaygroundChatFacts.v ===== *)
(** * Properties of the playground's chat requests

    Streamed text: what the message holds when the stream is done, whenever the
    timers and renders come.  The chat as a state machine: no message is left
    unfinished, a superseded request is never heard again. *)

From S2P Require Import Prelude JsString JsNumber JsValue JsRegExp PlaygroundMessages PlaygroundMessagesFacts PlaygroundChat.

Module PlaygroundChatFacts.
Import PlaygroundMessages PlaygroundMessagesFacts PlaygroundChat.

Section Chat.
Context (t lower : jsstr → jsstr).

(** ** The messages after the next render *)

Definition shown (T : Clock) (c : Chat) : list Message :=
  run_updates t (requestGeneration (refs c)) (updates (view c)) T (messages (view c)).

Lemma shown_render T T' c : shown T' (render t T c) = shown T c.
Proof. done. Qed.

Lemma messages_render T c : messages (view (render t T c)) = shown T c.
Proof. done. Qed.

Lemma shown_idle T c : updates (view c) = [] → shown T c = messages (view c).
Proof. unfold shown. by intros ->. Qed.

Lemma shown_update eager T T' u c : ∃ T'',
  shown T' (onMessageUpdate t eager T u c) = run_updater t (requestGeneration (refs c)) u T'' (shown T' c).
Proof.
  unfold shown, onMessageUpdate. cbn [view refs on_view updates messages].
  destruct (eager && _) eqn:E; unfold run_updates; rewrite fold_left_app; cbn [fold_left]; [|by eexists].
  bool_hyps. apply length_zero_iff_nil in H0 as ->. by exists T.
Qed.

Lemma updateLast_snoc pre m f :
  updateLastAssistantMessage (pre ++ [m]) f = pre ++ [if bool_decide (from m = assistant) then f m else m].
Proof.
  unfold updateLastAssistantMessage. rewrite last_snoc, length_app. cbn [length].
  replace (length pre + 1 - 1) with (length pre + 0) by lia.
  destruct (bool_decide _); cbn [negb]; [|done]. by rewrite insert_app_r.
Qed.

Lemma updateLast_nil f : updateLastAssistantMessage [] f = [].
Proof. done. Qed.

Lemma updateLast_last ms m f : last ms = Some m → from m = assistant → last (updateLastAssistantMessage ms f) = Some (f m).
Proof.
  intros [pre ->]%last_Some H. rewrite updateLast_snoc, bool_decide_true by done. apply last_snoc.
Qed.

(** ** Streamed text *)

(** An assistant message that is being filled and has the text [C]. *)
Definition live (C : jsstr) (m : Message) : Prop :=
  from m = assistant ∧ isAssistantMessagePending m = true ∧ getMessageContent m = C.

Lemma complete_reasoning_keeps m x : let m' := completeReasoningTiming m x in
  from m' = from m ∧ status m' = status m ∧ versions m' = versions m.
Proof. cbn. unfold completeReasoningTiming. by repeat case_match. Qed.

Lemma process_keeps m s T : let m' := processStreamingContent m s T in
  from m' = from m ∧ getMessageContent m' = getMessageContent m ++ s.
Proof. cbn. unfold processStreamingContent. by case_match. Qed.

Lemma content_chunk_live C P m T : live C m → live (C ++ getAppendableChunk C P) (applyStreamingChunk m content_chunk P T).
Proof.
  intros (Hf & Hp & HC). unfold applyStreamingChunk. rewrite bool_decide_false
    by (intros E; unfold isAssistantMessagePending in Hp; by rewrite E in Hp).
  fold (getMessageContent m). rewrite HC. set (s := getAppendableChunk C P).
  destruct (process_keeps m s T) as [Kf Kc]. rewrite HC in Kc.
  destruct (complete_reasoning_keeps (processStreamingContent m s T) (T 1)) as (Rf & _ & Rv).
  unfold live, getMessageContent, getCurrentVersion in *.
  case_match; cbn [from versions status with_status isAssistantMessagePending]; rewrite ?Rf, ?Rv, ?Kf, ?Kc; done.
Qed.

Lemma finalize_keeps m r T : let m' := finalizeMessage m r T in
  from m' = from m ∧ getMessageContent m' = visibleContent (parseThinkTags (getMessageContent m)).
Proof.
  cbn. unfold finalizeMessage. match goal with |- context [completeReasoningTiming ?a ?b] =>
    destruct (complete_reasoning_keeps a b) as (Rf & _ & Rv) end.
  rewrite Rf. split; [done|]. unfold getMessageContent, getCurrentVersion in *. rewrite Rv. cbn.
  unfold parseThinkTags. by destruct (includes _ OPEN_TAG).
Qed.

Lemma complete_assistant_keeps m x : let m' := completeAssistantTiming m x in
  from m' = from m ∧ status m' = status m ∧ versions m' = versions m.
Proof. cbn. unfold completeAssistantTiming. by case_match. Qed.

Lemma completeAssistantMessage_spec m T : let m' := completeAssistantMessage m T in
  from m' = from m ∧ status m' = Some complete ∧ getMessageContent m' = visibleContent (parseThinkTags (getMessageContent m)).
Proof.
  cbn. unfold completeAssistantMessage. match goal with |- context [completeAssistantTiming ?a ?b] =>
    destruct (complete_assistant_keeps a b) as (-> & -> & Rv) end.
  destruct (finalize_keeps m None T) as [Kf Kc]. split; [done|]. split; [done|].
  rewrite <- Kc. unfold getMessageContent, getCurrentVersion in *. by rewrite Rv.
Qed.

Lemma pending_not_final m : isAssistantMessagePending m = true → isAssistantMessageFinal m = false.
Proof. unfold isAssistantMessagePending, isAssistantMessageFinal. by destruct (status m) as [[]|]. Qed.

(** Generation [g] fills the last message, which has the text [C]; [P] is the
    text that waits for the next flush. *)
Definition Filling (g : nat) (C P : jsstr) (c : Chat) : Prop :=
  requestGeneration (refs c) = g ∧ pendingStreamChunks (refs c) = MkPending g P [] ∧
  ∀ T, ∃ m, last (shown T c) = Some m ∧ live C m.

(** It does so from the source [id]. *)
Definition Streams (g id : nat) (C P : jsstr) (c : Chat) : Prop :=
  Filling g C P c ∧ ∃ s, listening id c = Some s ∧ src_chat s = g.

(** Merging a text into what waits, and flushing it. *)
Definition merge (P s : jsstr) : jsstr := if nonempty P && startsWith s P then s else P ++ s.
Definition flushed (C P : jsstr) : jsstr := C ++ getAppendableChunk C P.

Definition text_of (data : jsstr) : option jsstr :=
  if isStreamDoneMessage data then None
  else match parseStreamMessageUpdates data with
       | Some [(content_chunk, VStr s)] => Some s
       | _ => None
       end.

Lemma merge_text P s : mergePendingStreamChunk P (VStr s) = Some (merge P s).
Proof. unfold mergePendingStreamChunk, merge. by destruct P; [|cbn; case_match]. Qed.

Lemma streams_text g id C P c eager T data s : Streams g id C P c → text_of data = Some s →
  Streams g id C (merge P s) (on_source_message t eager T id (Some data) c).
Proof.
  intros ((Hg & Hp & Hm) & src & Hl & Hs) Ht. unfold text_of in Ht. unfold on_source_message.
  rewrite Hl. change (default [] (Some data)) with data. destruct (isStreamDoneMessage data); [done|].
  destruct (parseStreamMessageUpdates data) as [[|[[] []] []]|]; try done. injection Ht as ->. cbn [run_stream_updates].
  unfold handleStreamUpdate. rewrite Hs, Hg, Nat.eqb_refl. cbn [negb]. rewrite Hp. cbn [p_generation p_content p_reasoning negb].
  rewrite Nat.eqb_refl. cbn [negb]. rewrite merge_text. unfold scheduleStreamFlush.
  cbn [set_pending on_refs refs requestGeneration flushTimer]. rewrite Hg, Nat.eqb_refl. cbn [negb].
  destruct (flushTimer (refs c)); (split; [done|by exists src]).
Qed.

(** The text of the message once what waits is flushed. *)
Definition all_text (C P : jsstr) : jsstr := if nonempty P then flushed C P else C.

Lemma filling_flush g C P c eager T : Filling g C P c →
  let c' := flushStreamUpdates t eager T g c in
  Filling g (all_text C P) [] c' ∧ ctl c' = ctl c ∧ isRequesting (view c') = isRequesting (view c) ∧
  isStreaming (view c') = isStreaming (view c).
Proof.
  intros (Hg & Hp & Hm). cbn zeta. unfold flushStreamUpdates, all_text. rewrite Hg, Nat.eqb_refl. cbn [negb].
  cbn [clear_timer set_timer on_refs refs pendingStreamChunks]. rewrite Hp.
  cbn [p_generation p_content p_reasoning]. rewrite Nat.eqb_refl. cbn [negb nonempty andb].
  destruct (nonempty P) eqn:EP; cbn [negb]; (split; [|done]); [|by destruct P].
  match goal with |- Filling _ _ _ (onMessageUpdate _ _ _ ?u ?c') => set (c1 := c'); set (u1 := u) end.
  split; [done|]. split; [done|]. intros T'.
  destruct (shown_update eager T T' u1 c1) as [T'' ->]. destruct (Hm T') as (m & Hlast & Hlive).
  change (shown T' c1) with (shown T' c). change (requestGeneration (refs c1)) with (requestGeneration (refs c)).
  rewrite Hg. subst u1. cbn [run_updater]. rewrite Nat.eqb_refl. cbn [negb nonempty]. rewrite EP.
  eexists. split; [apply updateLast_last; [done|by destruct Hlive]|]. by apply content_chunk_live.
Qed.

Lemma listening_ctl id c c' : ctl c' = ctl c → listening id c' = listening id c.
Proof. unfold listening. by intros ->. Qed.

Lemma streams_timer g id C P c eager T : Streams g id C P c → ∃ C' P', Streams g id C' P' (on_flush_timer t eager T c) ∧
  (C' = C ∧ P' = P ∨ C' = all_text C P ∧ P' = []).
Proof.
  intros [H Hl]. unfold on_flush_timer. destruct (flushTimer (refs c)) as [[g' []]|]; [|by exists C, P; split; [|left]..].
  set (c1 := set_timer _ c). assert (Filling g C P c1) as H1 by done.
  destruct (decide (g' = g)) as [->|E].
  - destruct (filling_flush g C P c1 eager T H1) as (HF & Hc & _).
    eexists _, []. split; [|by right]. split; [done|]. by rewrite (listening_ctl _ _ _ Hc).
  - exists C, P. split; [|by left]. unfold flushStreamUpdates. rewrite (proj1 H1).
    apply Nat.eqb_neq in E. rewrite E. by split.
Qed.

Lemma streams_render g id C P c T : Streams g id C P c → Streams g id C P (render t T c).
Proof. intros [(Hg & Hp & Hm) Hl]. split; [|done]. split; [done|]. split; [done|]. intros T'. apply Hm. Qed.

(** What happens while a text streams in. *)
Inductive StreamEvent :=
  | EvText (eager : bool) (T : Clock) (data : jsstr)
  | EvTimer (eager : bool) (T : Clock)
  | EvRender (T : Clock).

Definition run_event (id : nat) (c : Chat) (e : StreamEvent) : Chat :=
  match e with
  | EvText eager T data => on_source_message t eager T id (Some data) c
  | EvTimer eager T => on_flush_timer t eager T c
  | EvRender T => render t T c
  end.
Definition run_stream (id : nat) (evs : list StreamEvent) (c : Chat) : Chat := fold_left (run_event id) evs c.

Definition event_text (e : StreamEvent) : option jsstr := match e with EvText _ _ data => text_of data | _ => None end.
Definition stream_texts (evs : list StreamEvent) : list jsstr := omap event_text evs.
(** Every event of the source has a piece of text. *)
Definition texts_only (evs : list StreamEvent) : bool :=
  forallb (λ e, match e with EvText _ _ data => bool_decide (is_Some (text_of data)) | _ => true end) evs.

(** The texts received so far, the text of the message, the text that waits. *)
Inductive fills : list jsstr → jsstr → jsstr → Prop :=
  | fills_start : fills [] [] []
  | fills_text l C P s : fills l C P → fills (l ++ [s]) C (merge P s)
  | fills_flush l C P : fills l C P → fills l (all_text C P) [].

Lemma run_fills g id evs : ∀ c C P l, texts_only evs = true → Streams g id C P c → fills l C P →
  ∃ C' P', Streams g id C' P' (run_stream id evs c) ∧ fills (l ++ stream_texts evs) C' P'.
Proof.
  induction evs as [|e evs IH]; intros c C P l He HS HF.
  { exists C, P. by rewrite app_nil_r. }
  cbn [texts_only forallb] in He. apply andb_true_iff in He as [He Hes].
  unfold run_stream. cbn [fold_left]. change (fold_left (run_event id) evs ?x) with (run_stream id evs x).
  unfold stream_texts. cbn [omap list_omap]. destruct e as [eager T data|eager T|T]; cbn [event_text run_event].
  - bool_hyps. destruct He as [s Hs]. rewrite Hs.
    destruct (IH (on_source_message t eager T id (Some data) c) C (merge P s) (l ++ [s]) Hes) as (C' & P' & HS' & HF');
      [by apply streams_text|by constructor|].
    exists C', P'. by rewrite <- (assoc (++)) in HF'.
  - destruct (streams_timer g id C P c eager T HS) as (C1 & P1 & H1 & H2).
    apply (IH _ C1 P1 l Hes H1). destruct H2 as [[-> ->]|[-> ->]]; [done|by constructor].
  - by apply (IH _ C P l Hes (streams_render _ _ _ _ _ T HS)).
Qed.

(** Each text extends the one before. *)
Fixpoint snapshots (prev : jsstr) (l : list jsstr) : bool :=
  match l with [] => true | s :: l' => startsWith s prev && snapshots s l' end.

Lemma snapshots_snoc l : ∀ prev s, snapshots prev (l ++ [s]) = snapshots prev l && startsWith s (default prev (last l)).
Proof.
  induction l as [|x l IH]; intros prev s; cbn [app snapshots]; [by rewrite andb_true_r|].
  rewrite IH, last_cons, <- andb_assoc. by destruct (last l).
Qed.

Lemma flushed_prefix C P : startsWith P C = true → flushed C P = P.
Proof.
  intros H. unfold flushed, getAppendableChunk. destruct C; cbn [nonempty negb orb]; [done|].
  rewrite H. cbn [negb]. by rewrite <- startsWith_take.
Qed.

Lemma startsWith_refl s : startsWith s s = true.
Proof. rewrite <- (app_nil_r s) at 1. apply startsWith_app. Qed.

Lemma startsWith_trans a b c : startsWith b a = true → startsWith c b = true → startsWith c a = true.
Proof. intros ->%startsWith_take ->%startsWith_take. rewrite <- (assoc (++)). apply startsWith_app. Qed.

Lemma fills_snapshots l C P : fills l C P → snapshots [] l = true →
  P = [] ∧ C = default [] (last l) ∨ P ≠ [] ∧ P = default [] (last l) ∧ startsWith P C = true.
Proof.
  induction 1 as [|l C P s H IH|l C P H IH]; intros Hl; [by left| |].
  - rewrite snapshots_snoc in Hl. apply andb_true_iff in Hl as [Hl Hs]. rewrite last_snoc. cbn [default].
    unfold merge. destruct (IH Hl) as [[-> ->]|(HP & E & HC)].
    + cbn [nonempty andb app]. destruct s as [|x s]; [left|right; done]. destruct (default [] (last l)); done.
    + rewrite <- E in Hs. rewrite (proj2 (nonempty_spec P) HP), Hs. cbn [andb]. right.
      split; [intros ->; by destruct P|]. split; [done|]. by eapply startsWith_trans.
  - left. split; [done|]. unfold all_text. destruct (IH Hl) as [[-> ->]|(HP & E & HC)]; [done|].
    rewrite (proj2 (nonempty_spec P) HP). by rewrite flushed_prefix.
Qed.

(** No run of texts begins with the run of texts just before it. *)
Definition no_echo (l : list jsstr) : bool :=
  let ix := seq 0 (S (length l)) in
  forallb (λ i, forallb (λ j, forallb (λ k,
    let b := concat (take j (drop i l)) in
    let c := take k (drop (i + j) l) in
    negb (nonempty b) || bool_decide (length c = 0) || negb (startsWith (concat c) b)) ix) ix) ix.

Lemma no_echo_spec l a b c d : no_echo l = true → l = a ++ b ++ c ++ d → concat b ≠ [] → c ≠ [] →
  startsWith (concat c) (concat b) = false.
Proof.
  intros H -> Hb Hc. unfold no_echo in H. set (l := a ++ b ++ c ++ d) in *.
  assert (∀ n, n ≤ length l → n ∈ seq 0 (S (length l))) as Hix by (intros n ?; apply elem_of_seq; lia).
  assert (length l = length a + length b + length c + length d) as Hlen by (subst l; rewrite !length_app; lia).
  apply forallb_elem with (x := length a) in H; [|apply Hix; lia].
  apply forallb_elem with (x := length b) in H; [|apply Hix; lia].
  apply forallb_elem with (x := length c) in H; [|apply Hix; lia]. cbn zeta in H.
  assert (take (length b) (drop (length a) l) = b) as Eb by (subst l; by rewrite drop_app_length, take_app_length).
  assert (take (length c) (drop (length a + length b) l) = c) as Ec.
  { subst l. rewrite <- drop_drop, drop_app_length, drop_app_length. by rewrite take_app_length. }
  rewrite Eb, Ec, (proj2 (nonempty_spec _) Hb) in H. rewrite bool_decide_false in H by by destruct c.
  cbn [negb orb] in H. by apply negb_true_iff in H.
Qed.

Lemma fills_concat l C P : fills l C P → ∀ d, no_echo (l ++ d) = true → ∃ a b, l = a ++ b ∧ C = concat a ∧ P = concat b.
Proof.
  induction 1 as [|l C P s H IH|l C P H IH]; intros d Hd; [by exists [], []| |].
  - rewrite <- (assoc (++)) in Hd. destruct (IH _ Hd) as (a & b & -> & -> & ->).
    exists a, (b ++ [s]). split; [by rewrite (assoc (++))|]. split; [done|].
    rewrite concat_app. cbn [concat]. rewrite app_nil_r. unfold merge.
    destruct (nonempty (concat b)) eqn:Eb; [|done]. apply nonempty_spec in Eb.
    pose proof (no_echo_spec _ a b [s] d Hd) as Hs. cbn [concat] in Hs. rewrite app_nil_r in Hs.
    rewrite Hs by (try done; by rewrite <- !(assoc (++))). done.
  - destruct (IH _ Hd) as (a & b & -> & -> & ->). exists (a ++ b), []. split; [by rewrite app_nil_r|]. split; [|done].
    rewrite concat_app. unfold all_text. destruct (nonempty (concat b)) eqn:Eb.
    2: { destruct (concat b); [by rewrite app_nil_r|done]. }
    unfold flushed, getAppendableChunk. destruct (nonempty (concat a)) eqn:Ea; [|done]. apply nonempty_spec in Ea.
    rewrite (no_echo_spec _ [] a b d Hd); [done|by rewrite <- !(assoc (++))|done|]. intros ->. done.
Qed.

Definition DONE : jsstr := "[DONE]".

Lemma listening_spec id c s : listening id c = Some s ↔
  opened (ctl c) !! id = Some s ∧ generation (ctl c) = src_request s ∧ source (ctl c) = Some id ∧ completed s = false.
Proof.
  unfold listening, source_current. destruct (opened (ctl c) !! id) as [s'|] eqn:E; [|split; [done|by intros (? & _)]].
  destruct (Nat.eqb _ _ && _ && _) eqn:Eb.
  - bool_hyps. apply Nat.eqb_eq in H. split; [by intros [= <-]|by intros (? & _)].
  - split; [done|]. intros ([= ->] & E1 & E2 & E3). rewrite E1, Nat.eqb_refl, E3, bool_decide_true in Eb by done. done.
Qed.

(** The message is finished with the text [C] as the reader sees it. *)
Definition finished (C : jsstr) (m : Message) : Prop :=
  from m = assistant ∧ status m = Some complete ∧ getMessageContent m = visibleContent (parseThinkTags C).

Lemma filling_complete g C P c eager T : Filling g C P c → let c' := handleStreamComplete t eager T g c in
  isRequesting (view c') = false ∧ isStreaming (view c') = isStreaming (view c) ∧
  ∀ T', ∃ m, last (shown T' c') = Some m ∧ finished (all_text C P) m.
Proof.
  intros H. cbn zeta. unfold handleStreamComplete. rewrite (proj1 H), Nat.eqb_refl. cbn [negb].
  destruct (filling_flush g C P c eager T H) as ((Hg & Hp & Hm) & _ & _ & Hs).
  set (c1 := flushStreamUpdates t eager T g c) in *.
  split; [done|]. split; [done|]. intros T'.
  destruct (shown_update eager T T' (CompleteLast g) (setIsRequesting false c1)) as [T'' ->].
  change (shown T' (setIsRequesting false c1)) with (shown T' c1).
  change (requestGeneration (refs (setIsRequesting false c1))) with (requestGeneration (refs c1)).
  rewrite Hg. cbn [run_updater]. rewrite Nat.eqb_refl. cbn [negb].
  destruct (Hm T') as (m & Hlast & Hf & Hpend & HC). eexists. split; [by apply updateLast_last|].
  rewrite pending_not_final by done. destruct (completeAssistantMessage_spec m T'') as (K1 & K2 & K3).
  unfold finished. by rewrite K1, K2, K3, HC.
Qed.

Lemma streams_done g id C P c eager T : Streams g id C P c → let c' := on_source_message t eager T id (Some DONE) c in
  isGenerating c' = false ∧ ∀ T', ∃ m, last (shown T' c') = Some m ∧ finished (all_text C P) m.
Proof.
  intros [H (s & Hl & Hs)]. cbn zeta. unfold on_source_message. rewrite Hl. change (isStreamDoneMessage _) with true. cbn iota.
  set (c1 := closeActiveSource id _). assert (Filling g C P c1 ∧ isStreaming (view c1) = false) as [H1 Hstr].
  { subst c1. unfold closeActiveSource. apply listening_spec in Hl as (_ & _ & Hsrc & _).
    rewrite bool_decide_true by done. done. }
  rewrite Hs. destruct (filling_complete g C P c1 eager T H1) as (Hr & Hst & Hm).
  split; [|done]. unfold isGenerating. by rewrite Hr, Hst, Hstr.
Qed.

(** A message is sent and its stream is opened. *)
Definition open_stream (eager eager' : bool) (T T' : Clock) config enabled ids text (c : Chat) : Chat :=
  on_headers t eager' T' (length (waiting (ctl c))) (inr ()) true
    (handleSendMessage t lower eager T config enabled ids text c).

Definition close_if (o : option nat) (l : list Source) : list Source :=
  match o with
  | Some id => alter (λ s, MkSource (src_request s) (src_chat s) (src_payload s) (completed s) true) id l
  | None => l
  end.

Lemma stream_send_ctl payload g c : let k := ctl c in
  ctl (stream_send payload g c) =
    MkController (S (generation k)) None (close_if (source k) (opened k)) (waiting k ++ [(S (generation k), g, payload)]).
Proof. destruct c as [v r [gn [id|] op w] i]; done. Qed.

Lemma cancel_ctl b c : let k := ctl c in
  ctl (cancel b c) = MkController (S (generation k)) None (close_if (source k) (opened k)) (waiting k).
Proof. destruct c as [v r [gn [id|] op w] i], b; done. Qed.

Lemma close_if_length o l : length (close_if o l) = length l.
Proof. destruct o; [apply length_alter|done]. Qed.

(** The controller when the headers of a current send are there. *)
Lemma on_headers_opens eager T i c request g payload :
  waiting (ctl c) !! i = Some (request, g, payload) → generation (ctl c) = request →
  let c' := on_headers t eager T i (inr ()) true c in
  refs c' = refs c ∧ messages (view c') = messages (view c) ∧ updates (view c') = updates (view c) ∧
  isRequesting (view c') = isRequesting (view c) ∧ isStreaming (view c') = true ∧ inflight c' = inflight c ∧
  ctl c' = MkController request (Some (length (opened (ctl c)))) (opened (ctl c) ++ [MkSource request g payload false false])
             (delete i (waiting (ctl c))).
Proof. intros Hw <-. cbn zeta. unfold on_headers. rewrite Hw. cbn. by rewrite Nat.eqb_refl. Qed.

Lemma shown_replace eager T T' ms c : shown T' (onMessageUpdate t eager T (Replace ms) c) = ms.
Proof. destruct (shown_update eager T T' (Replace ms) c) as [T'' ->]. done. Qed.

Lemma updates_replace eager T ms c : ∃ us, updates (view (onMessageUpdate t eager T (Replace ms) c)) = us ++ [Replace ms].
Proof. exists (updates (view c)). cbn. by destruct (eager && _). Qed.

Lemma run_updates_replace n us T ms ms0 : run_updates t n (us ++ [Replace ms]) T ms0 = ms.
Proof. unfold run_updates. by rewrite fold_left_app. Qed.

Lemma send_streams eager eager' T T' config enabled ids text c :
  stream config && negb (isImageGenerationModel lower (model config)) = true →
  Streams (S (requestGeneration (refs c))) (length (opened (ctl c))) [] [] (open_stream eager eager' T T' config enabled ids text c).
Proof.
  intros Hc. unfold open_stream, handleSendMessage, sendChat. rewrite Hc. unfold sendStreamingChat.
  set (next := appendUserMessagePair _ _ _ _). set (payload := buildChatCompletionPayload _ _ _ _).
  destruct (updates_replace eager T next c) as [us Hus].
  match goal with |- context [stream_send payload ?g ?x] => set (c1 := x); set (g1 := g) end.
  pose proof (stream_send_ctl payload g1 c1) as Hk. change (ctl c1) with (ctl c) in Hk. cbn zeta in Hk.
  set (c2 := stream_send payload g1 c1) in *.
  destruct (on_headers_opens eager' T' (length (waiting (ctl c))) c2 (S (generation (ctl c))) g1 payload)
    as (Hr & Hm & Hu & _ & _ & _ & Hk').
  { rewrite Hk. cbn [waiting]. by rewrite lookup_app_r, Nat.sub_diag. } { by rewrite Hk. }
  set (c3 := on_headers _ _ _ _ _ _ _) in *. rewrite Hk in Hk'. cbn [opened waiting] in Hk'. rewrite close_if_length in Hk'. split.
  - unfold Filling. rewrite Hr. split; [done|]. split; [done|]. intros T1. unfold shown. rewrite Hr, Hm, Hu.
    change (updates (view c2)) with (updates (view (onMessageUpdate t eager T (Replace next) c))). rewrite Hus.
    rewrite run_updates_replace. exists (createLoadingAssistantMessage (ids 2) (ids 3) (T 0)). split; [|done].
    subst next. unfold appendUserMessagePair. by rewrite last_app.
  - exists (MkSource (S (generation (ctl c))) g1 payload false false). split; [apply listening_spec|done]. rewrite Hk'. cbn [opened generation source].
    rewrite lookup_app_r by by rewrite close_if_length. by rewrite close_if_length, Nat.sub_diag.
Qed.

(** Streamed text.  A message is sent, its stream opened, and pieces of text
    arrive with the flush timer and renders at any points between; when the
    stream is done and rendered, nothing is being generated and the last message
    is finished with the visible part of: the last piece, if each piece repeats
    what came before; all pieces together, if no run of pieces begins with the
    run just before it. *)
Theorem stream_text_exact eager eager' T T' config enabled ids text c evs eager2 T2 T3 :
  stream config && negb (isImageGenerationModel lower (model config)) = true → texts_only evs = true →
  let id := length (opened (ctl c)) in
  let c' := render t T3 (on_source_message t eager2 T2 id (Some DONE)
              (run_stream id evs (open_stream eager eager' T T' config enabled ids text c))) in
  isGenerating c' = false ∧ ∃ m full, last (messages (view c')) = Some m ∧ finished full m ∧
    (snapshots [] (stream_texts evs) = true → full = default [] (last (stream_texts evs))) ∧
    (no_echo (stream_texts evs) = true → full = concat (stream_texts evs)).
Proof.
  intros Hc He. cbn zeta.
  destruct (run_fills _ _ evs _ _ _ [] He (send_streams eager eager' T T' config enabled ids text c Hc) fills_start)
    as (C & P & HS & HF). cbn [app] in HF.
  destruct (streams_done _ _ C P _ eager2 T2 HS) as [Hgen Hm]. destruct (Hm T3) as (m & Hlast & Hfin).
  split; [done|]. exists m, (all_text C P). split; [done|]. split; [done|].
  apply fills_flush in HF. split; intros H.
  - by destruct (fills_snapshots _ _ _ HF H) as [[_ ?]|[[] _]].
  - destruct (fills_concat _ _ _ HF []) as (a & b & -> & -> & Hb); [by rewrite app_nil_r|].
    by rewrite concat_app, <- Hb, app_nil_r.
Qed.

(** ** Stopping *)

(** The messages once a stop is rendered: what the flush gave the setter is
    applied when it ran at once, and is out of date when it runs later. *)
Lemma stop_shown g C P c eager T T' : Filling g C P c → updates (view c) = [] → ∃ m T'' m',
  last (messages (view c)) = Some m ∧ live C m ∧
  last (shown T' (stopGeneration t eager T c)) = Some (completeAssistantMessage m' T'') ∧
  live (if eager then all_text C P else C) m'.
Proof.
  intros (Hg & Hp & Hm) Hu. destruct (Hm T) as (m & Hlast & Hlive). rewrite shown_idle in Hlast by done.
  unfold stopGeneration. set (c1 := flushStreamUpdates _ _ _ _ _). rewrite Hg.
  match goal with |- context [onMessageUpdate t eager T (FinishPending (S g)) ?x] => set (c2 := x) end.
  destruct (shown_update eager T T' (FinishPending (S g)) c2) as [T'' ->].
  change (requestGeneration (refs c2)) with (S g). cbn [run_updater]. rewrite Nat.eqb_refl. cbn [negb].
  assert (shown T' c2 = run_updates t (S g) (updates (view c1)) T' (messages (view c1))) as -> by done.
  assert (∃ m', last (run_updates t (S g) (updates (view c1)) T' (messages (view c1))) = Some m' ∧
            live (if eager then all_text C P else C) m') as (m' & Hl' & Hlive').
  { subst c1. unfold flushStreamUpdates. rewrite Nat.eqb_refl. cbn [negb].
    cbn [clear_timer set_timer on_refs refs pendingStreamChunks]. rewrite Hp, Hg. cbn [p_generation p_content p_reasoning].
    rewrite Nat.eqb_refl. cbn [negb nonempty andb]. unfold all_text. destruct (nonempty P) eqn:EP; cbn [negb].
    - unfold onMessageUpdate. cbn [view on_view updates messages set_pending on_refs refs requestGeneration clear_timer set_timer].
      rewrite Hu. cbn [length app]. rewrite bool_decide_true, andb_true_r, Hg by done.
      destruct eager; cbn [run_updates fold_left run_updater].
      + rewrite Nat.eqb_refl. cbn [negb nonempty]. rewrite EP. eexists.
        split; [apply updateLast_last; [done|apply Hlive]|by apply content_chunk_live].
      + replace (Nat.eqb g (S g)) with false by (symmetry; apply Nat.eqb_neq; lia). by exists m.
    - cbn [view on_refs clear_timer set_timer]. rewrite Hu. cbn [run_updates fold_left]. exists m. by destruct eager. }
  exists m, T'', m'. split; [done|]. split; [done|]. split; [|done].
  erewrite updateLast_last by (done || apply Hlive'). by rewrite (proj1 (proj2 Hlive')).
Qed.

(** What a stop keeps.  While a reply streams in and what came is rendered,
    stopping finishes the message with the text it shows.  The text that waits
    for the next flush is added to it only if React runs the updater of the
    flush at once; if it waits for the render, the generation has moved on and
    that text is lost. *)
Theorem stop_text_exact eager eager' T T' config enabled ids text c evs eager2 T2 T3 :
  stream config && negb (isImageGenerationModel lower (model config)) = true → texts_only evs = true →
  let c' := run_stream (length (opened (ctl c))) evs (open_stream eager eager' T T' config enabled ids text c) in
  updates (view c') = [] →
  ∃ m m', last (messages (view c')) = Some m ∧
    last (messages (view (render t T3 (stopGeneration t eager2 T2 c')))) = Some m' ∧
    finished (if eager2 then all_text (getMessageContent m) (p_content (pendingStreamChunks (refs c'))) else getMessageContent m) m'.
Proof.
  intros Hc He. cbn zeta. intros Hu.
  destruct (run_fills _ _ evs _ _ _ [] He (send_streams eager eager' T T' config enabled ids text c Hc) fills_start)
    as (C & P & [HF _] & _). generalize dependent (run_stream (length (opened (ctl c))) evs (open_stream eager eager' T T' config enabled ids text c)).
  intros c1 Hu HF. destruct (stop_shown _ _ _ _ eager2 T2 T3 HF Hu) as (m & T'' & m' & Hl & Hm & Hl' & Hm').
  exists m, (completeAssistantMessage m' T''). split; [done|]. rewrite messages_render. split; [done|].
  destruct HF as (_ & -> & _). destruct Hm as (_ & _ & ->), Hm' as (Hf & _ & HC). cbn [p_content].
  destruct (completeAssistantMessage_spec m' T'') as (K1 & K2 & K3). unfold finished. rewrite K1, K2, K3, HC. by destruct eager2.
Qed.
End Chat.

(** ** Examples *)

Definition piece (s : jsstr) : jsstr :=
  default [] (JSON_stringify (VObj [("choices"%js, VArr [VObj [("delta"%js, VObj [("content"%js, VStr s)])]])])).
Definition still : Clock := λ _, of_Z 0.
Definition sample_config : PlaygroundConfig :=
  MkPlayground "gpt-4o" "default" (of_Z 1) (of_Z 1) (of_Z 4096) (of_Z 0) (of_Z 0) None true.
Definition sample_enabled : ParameterEnabled := MkEnabled true true false true true false.
Definition sample_ids (n : nat) : jsstr := Z_to_string (Z.of_nat n).

(** The chat after a stream with these events. *)
Definition streamed (evs : list StreamEvent) : Chat :=
  render id still (on_source_message id false still 0 (Some DONE)
    (run_stream id 0 evs (open_stream id toLowerCase false false still still sample_config sample_enabled sample_ids "Hi"
                            (initial_chat [])))).
Definition streamed_text (evs : list StreamEvent) : option jsstr := getMessageContent <$> last (messages (view (streamed evs))).

Definition text_event (s : jsstr) : StreamEvent := EvText false still (piece s).
Definition delta_events : list StreamEvent :=
  [text_event "Hel"; EvTimer true still; text_event "lo"; EvRender still; text_event " you"].

Lemma stream_text_exact_witness :
  streamed_text delta_events = Some "Hello you"%js ∧
  isGenerating (streamed delta_events) = false ∧ ∃ m full, last (messages (view (streamed delta_events))) = Some m ∧
    finished full m ∧
    (snapshots [] (stream_texts delta_events) = true → full = default [] (last (stream_texts delta_events))) ∧
    (no_echo (stream_texts delta_events) = true → full = concat (stream_texts delta_events)).
Proof.
  split; [vm_compute; reflexivity|].
  apply (stream_text_exact id toLowerCase false false still still sample_config sample_enabled sample_ids "Hi"
           (initial_chat []) delta_events false still still); vm_compute; reflexivity.
Defined.

Definition echo_late : list StreamEvent := [text_event "a"; text_event "ha"; text_event "ha"].
Definition echo_early : list StreamEvent := [text_event "a"; EvTimer false still; text_event "ha"; text_event "ha"].

(** Text is lost.  A piece that begins with the text waiting for the next
    flush replaces it, as if it repeated it: of the pieces a, ha, ha the last is
    kept or lost depending on whether the timer fires after the first. *)
Theorem flush_timing_matters :
  stream_texts echo_late = stream_texts echo_early ∧
  streamed_text echo_late = Some "ahaha"%js ∧ streamed_text echo_early = Some "aha"%js.
Proof. vm_compute. repeat split. Qed.


(** A first piece is shown, a second one waits, and the user stops. *)
Definition stop_events : list StreamEvent :=
  [EvRender still; text_event "Hel"; EvTimer true still; EvRender still; text_event "lo"].
Definition stopped_chat : Chat :=
  run_stream id 0 stop_events (open_stream id toLowerCase false false still still sample_config sample_enabled sample_ids "Hi" (initial_chat [])).
Definition stopped_text (eager : bool) : option jsstr :=
  getMessageContent <$> last (messages (view (render id still (stopGeneration id eager still stopped_chat)))).

Lemma stop_text_exact_witness :
  stopped_text true = Some "Hello"%js ∧ stopped_text false = Some "Hel"%js ∧
  ∃ m m', last (messages (view stopped_chat)) = Some m ∧
    last (messages (view (render id still (stopGeneration id false still stopped_chat)))) = Some m' ∧
    finished (getMessageContent m) m'.
Proof.
  split; [vm_compute; reflexivity|]. split; [vm_compute; reflexivity|].
  apply (stop_text_exact id toLowerCase false false still still sample_config sample_enabled sample_ids "Hi"
           (initial_chat []) stop_events false still still); vm_compute; reflexivity.
Defined.

End PlaygroundChatFacts.
