(* ===== verification/PlaygroundLifecycle.v ===== *)
(** * The life of a chat request

    The playground's chat as a state machine: an invariant of every state
    that orderly steps reach (which request is current, and that only its message
    is unfinished), a run with an edit at the wrong time that leaves an unfinished
    message behind, and that a request which is over is never heard again. *)

From S2P Require Import Prelude JsString JsNumber JsValue PlaygroundMessages PlaygroundMessagesFacts PlaygroundChat PlaygroundChatFacts.

Module PlaygroundLifecycle.
Import PlaygroundMessages PlaygroundMessagesFacts PlaygroundChat PlaygroundChatFacts.

(** ** Unfinished messages *)

Definition unfinished (m : Message) : bool := isPendingAssistantMessage (Some m).

(** No message is unfinished; at most the last one is. *)
Definition calm (ms : list Message) : Prop := Forall (λ m, unfinished m = false) ms.
Definition last_open (ms : list Message) : Prop := ∃ pre m, ms = pre ++ [m] ∧ calm pre.

Lemma calm_app a b : calm (a ++ b) ↔ calm a ∧ calm b.
Proof. apply Forall_app. Qed.

Lemma calm_take n ms : calm ms → calm (take n ms).
Proof. apply Forall_take. Qed.

Lemma calm_last_open ms m : calm ms → last_open (ms ++ [m]).
Proof. by exists ms, m. Qed.

Lemma updateLast_open ms f : last_open ms → last_open (updateLastAssistantMessage ms f).
Proof. intros (pre & m & -> & H). rewrite updateLast_snoc. by apply calm_last_open. Qed.

Lemma updateLast_calm ms f : last_open ms → (∀ m, unfinished (f m) = false) → calm (updateLastAssistantMessage ms f).
Proof.
  intros (pre & m & -> & H) Hf. rewrite updateLast_snoc. apply calm_app. split; [done|]. apply Forall_singleton.
  case_bool_decide as Hm; [done|]. unfold unfinished, isPendingAssistantMessage. by rewrite bool_decide_false.
Qed.

Lemma unfinished_status m : status m = Some complete ∨ status m = Some error → unfinished m = false.
Proof.
  unfold unfinished, isPendingAssistantMessage, isAssistantMessagePending. intros [-> | ->]; by rewrite andb_false_r.
Qed.

Lemma final_not_unfinished m : isAssistantMessagePending m = false → unfinished m = false.
Proof. unfold unfinished, isPendingAssistantMessage. intros ->. apply andb_false_r. Qed.

(** ** Deleting from a filtered list *)

Lemma filter_delete_false {A} (P : A → bool) l : ∀ i x, l !! i = Some x → P x = false →
  List.filter P (delete i l) = List.filter P l.
Proof.
  induction l as [|y l IH]; intros [|i] x Hx HP; simplify_eq/=; [by rewrite HP|]. by rewrite (IH i x).
Qed.

Lemma filter_delete_single {A} (P : A → bool) l : ∀ i x y, l !! i = Some x → P x = true → List.filter P l = [y] →
  y = x ∧ List.filter P (delete i l) = [].
Proof.
  induction l as [|z l IH]; intros [|i] x y Hx HP Hf; simplify_eq/=.
  - by rewrite HP in Hf; simplify_eq.
  - destruct (P z) eqn:Ez; [|by apply (IH i x y)]. injection Hf as -> Hf.
    assert (x ∈ List.filter P l) as Hin by (apply elem_of_lfilter; split; [by eapply list_elem_of_lookup_2|done]).
    by rewrite Hf in Hin; apply elem_of_nil in Hin.
Qed.

Lemma filter_nil_lookup {A} (P : A → bool) l i x : l !! i = Some x → P x = true → List.filter P l = [] → False.
Proof.
  intros Hi HP H. apply (not_elem_of_nil x). rewrite <- H. apply elem_of_lfilter.
  split; [by eapply list_elem_of_lookup_2|done].
Qed.

Lemma filter_none_above (n : nat) {A} (f : A → nat) l : Forall (λ x, f x ≤ n) l → List.filter (λ x, Nat.eqb (f x) (S n)) l = [].
Proof.
  intros H. apply list_filter_none. intros x Hx. rewrite Forall_forall in H. apply H in Hx. apply Nat.eqb_neq. lia.
Qed.

Section Lifecycle.
Context (t lower : jsstr → jsstr).

Lemma completed_message m T : unfinished (completeAssistantMessage m T) = false.
Proof. apply unfinished_status. left. apply completeAssistantMessage_spec. Qed.

Lemma timed_message m x : status m = Some complete ∨ status m = Some error → unfinished (completeAssistantTiming m x) = false.
Proof. intros H. apply unfinished_status. by destruct (complete_assistant_keeps m x) as (_ & -> & _). Qed.

(** The updaters that finish the last message. *)
Definition finishing (u : Updater) : Prop :=
  match u with
  | CompleteLast _ | FailLast _ _ _ | ShowImages _ _ | FinishPending _ => True
  | ShowResponse _ response => hasChatCompletionChoice response = true
  | _ => False
  end.
Definition made_in (u : Updater) (g : nat) : Prop :=
  match u with
  | CompleteLast g' | FailLast g' _ _ | ShowImages g' _ | FinishPending g' | ShowResponse g' _ => g' = g
  | _ => False
  end.

Lemma finishing_calm u g T ms : finishing u → made_in u g → last_open ms → calm (run_updater t g u T ms).
Proof.
  intros Hu Hg Hms. destruct u; try done; cbn [made_in] in Hg; subst; cbn [run_updater]; rewrite Nat.eqb_refl;
    cbn [negb]; apply updateLast_calm; try done; intros m.
  - case_match; [|apply completed_message]. apply unfinished_status. unfold isAssistantMessageFinal in *.
    apply orb_true_iff in H as [H|H]; bool_hyps; auto.
  - unfold error_message. by apply timed_message; right.
  - apply completed_message.
  - cbn [finishing] in Hu. unfold hasChatCompletionChoice in Hu. bool_hyps. destruct Hu as [ch Hc].
    unfold applyChatCompletionResponse. rewrite Hc. unfold applyChatCompletionChoice. apply timed_message. by left.
  - case_match; [apply completed_message|by apply final_not_unfinished].
Qed.

(** ** The invariant *)

Definition current_waiting (c : Chat) := List.filter (λ w, Nat.eqb w.1.1 (generation (ctl c))) (waiting (ctl c)).
Definition current_inflight (c : Chat) := List.filter (Nat.eqb (requestGeneration (refs c))) (inflight c).
Definition quiet (c : Chat) : Prop := pendingStreamChunks (refs c) = MkPending (requestGeneration (refs c)) [] [].

(** What holds of the references whatever the chat is doing. *)
Record Base (c : Chat) : Prop := MkBase {
  base_pending : p_generation (pendingStreamChunks (refs c)) = requestGeneration (refs c);
  base_timer : ∀ g b, flushTimer (refs c) = Some (g, b) → g = requestGeneration (refs c);
  base_waiting : Forall (λ w, w.1.1 ≤ generation (ctl c)) (waiting (ctl c));
  base_inflight : Forall (λ g, g ≤ requestGeneration (refs c)) (inflight c);
  base_aborted : Forall (λ g, g < requestGeneration (refs c)) (aborted (refs c));
  base_abort : ∀ g, abortController (refs c) = Some g → g ≤ requestGeneration (refs c);
}.

(** Nothing runs, a stream waits for its headers, a stream is open, or a plain
    request is under way; and then nothing else is current. *)
Inductive Mode (c : Chat) : Prop :=
  | Idle : isRequesting (view c) = false → isStreaming (view c) = false → source (ctl c) = None →
      current_waiting c = [] → current_inflight c = [] → quiet c →
      (∀ T, calm (shown t T c)) → Mode c
  | AwaitsHeaders payload : isRequesting (view c) = true → isStreaming (view c) = false → source (ctl c) = None →
      current_waiting c = [(generation (ctl c), requestGeneration (refs c), payload)] → current_inflight c = [] → quiet c →
      (∀ T, last_open (shown t T c)) → Mode c
  | StreamOpen id s : isRequesting (view c) = true → isStreaming (view c) = true → listening id c = Some s →
      src_chat s = requestGeneration (refs c) →
      current_waiting c = [] → current_inflight c = [] →
      (∀ T, last_open (shown t T c)) → Mode c
  | AwaitsAnswer : isRequesting (view c) = true → isStreaming (view c) = false → source (ctl c) = None →
      current_waiting c = [] → current_inflight c = [requestGeneration (refs c)] → quiet c →
      (∀ T, last_open (shown t T c)) → Mode c.

Definition Inv (c : Chat) : Prop := Base c ∧ Mode c.

Lemma chat_inv_initial ms : calm ms → Inv (initial_chat ms).
Proof. intros H. split; [by constructor|]. by apply Idle. Qed.

(** ** Effects of the handlers *)

Definition quiet_refs (r : Refs) : Refs :=
  MkRefs (requestGeneration r) (MkPending (requestGeneration r) [] []) None (abortController r) (aborted r).

(** [c'] differs from [c] in the waiting updaters, flags and quiet references only. *)
Definition same_machine (c c' : Chat) : Prop :=
  refs c' = quiet_refs (refs c) ∧ ctl c' = ctl c ∧ inflight c' = inflight c ∧ isStreaming (view c') = isStreaming (view c).

Lemma flush_effect eager T c : Base c → let c' := flushStreamUpdates t eager T (requestGeneration (refs c)) c in
  same_machine c c' ∧ isRequesting (view c') = isRequesting (view c) ∧
  (∀ T', shown t T' c' = shown t T' c ∨ ∃ f, shown t T' c' = updateLastAssistantMessage (shown t T' c) f) ∧
  (quiet c → ∀ T', shown t T' c' = shown t T' c).
Proof.
  intros [Hp _ _ _ _ _]. cbn zeta. unfold flushStreamUpdates. rewrite Nat.eqb_refl. cbn [negb].
  cbn [clear_timer set_timer on_refs refs pendingStreamChunks]. rewrite Hp, Nat.eqb_refl. cbn [negb].
  destruct (pendingStreamChunks (refs c)) as [pg pc pr] eqn:E. cbn [p_generation p_content p_reasoning] in *. subst pg.
  destruct (negb (nonempty pr) && negb (nonempty pc)) eqn:En.
  - bool_hyps. destruct pr, pc; try done. split; [|split; [done|split; [by left|done]]].
    repeat split. unfold quiet_refs. by rewrite <- E.
  - split; [done|]. split; [done|]. split.
    2: { unfold quiet. rewrite E. intros [= -> ->]. done. }
    intros T'. match goal with |- context [onMessageUpdate t eager T ?u ?c1] =>
      destruct (shown_update t eager T T' u c1) as [T'' ->]; change (shown t T' c1) with (shown t T' c) end.
    right. cbn [run_updater]. change (requestGeneration (refs (set_pending ?p ?x))) with (requestGeneration (refs c)).
    rewrite Nat.eqb_refl. cbn [negb]. by eexists.
Qed.

Lemma flush_open eager T c : Base c → (∀ T', last_open (shown t T' c)) →
  ∀ T', last_open (shown t T' (flushStreamUpdates t eager T (requestGeneration (refs c)) c)).
Proof.
  intros Hb Ho T'. destruct (flush_effect eager T c Hb) as (_ & _ & Hs & _).
  destruct (Hs T') as [-> | [f ->]]; [done|by apply updateLast_open].
Qed.

(** A flush followed by an updater that finishes the message. *)
Lemma finish_effect eager T u c (g : Chat → Chat) : Base c → (∀ T', last_open (shown t T' c)) →
  finishing u → made_in u (requestGeneration (refs c)) →
  (∀ x, refs (g x) = refs x ∧ ctl (g x) = ctl x ∧ inflight (g x) = inflight x ∧ isRequesting (view (g x)) = isRequesting (view x) ∧
        isStreaming (view (g x)) = isStreaming (view x) ∧ messages (view (g x)) = messages (view x) ∧
        updates (view (g x)) = updates (view x)) →
  let c' := onMessageUpdate t eager T u
              (g (setIsRequesting false (flushStreamUpdates t eager T (requestGeneration (refs c)) c))) in
  same_machine c c' ∧ isRequesting (view c') = false ∧ ∀ T', calm (shown t T' c').
Proof.
  intros Hb Ho Hu Hg Hf. cbn zeta. pose proof (flush_open eager T c Hb Ho) as Ho'.
  destruct (flush_effect eager T c Hb) as ((Hr & Hk & Hi & Hs) & _).
  set (c1 := flushStreamUpdates _ _ _ _ _) in *. destruct (Hf (setIsRequesting false c1)) as (F1 & F2 & F3 & F4 & F5 & F6 & F7).
  set (c2 := g _) in *. split; [|split].
  - split; [by etrans; [|apply Hr]|]. split; [by etrans; [|apply Hk]|]. split; [by etrans; [|apply Hi]|by etrans; [|apply Hs]].
  - done.
  - intros T'. destruct (shown_update t eager T T' u c2) as [T'' ->].
    assert (shown t T' c2 = shown t T' c1) as -> by (unfold shown; by rewrite F1, F6, F7).
    rewrite F1. change (refs (setIsRequesting false c1)) with (refs c1). rewrite Hr. by apply finishing_calm.
Qed.

Lemma complete_effect eager T c : Base c → (∀ T', last_open (shown t T' c)) →
  let c' := handleStreamComplete t eager T (requestGeneration (refs c)) c in
  same_machine c c' ∧ isRequesting (view c') = false ∧ ∀ T', calm (shown t T' c').
Proof.
  intros Hb Ho. cbn zeta. unfold handleStreamComplete. rewrite Nat.eqb_refl. cbn [negb].
  by apply (finish_effect eager T _ c (λ x, x)).
Qed.

Lemma error_effect eager T e code c : Base c → (∀ T', last_open (shown t T' c)) →
  let r := handleStreamError t eager T (requestGeneration (refs c)) (VStr e) code c in
  r.2 = false ∧ same_machine c r.1 ∧ isRequesting (view r.1) = false ∧ ∀ T', calm (shown t T' r.1).
Proof.
  intros Hb Ho. cbn zeta. unfold handleStreamError. rewrite Nat.eqb_refl. cbn [negb getDisplayError fst snd].
  split; [done|]. match goal with |- context [toast ?d _] => by apply (finish_effect eager T _ c (toast d)) end.
Qed.

(** ** The invariant is kept *)

Lemma base_same c c' : Base c → same_machine c c' → Base c'.
Proof.
  intros [B1 B2 B3 B4 B5 B6] (Hr & Hk & Hi & _). constructor; rewrite ?Hr, ?Hk, ?Hi; try done.
Qed.

Lemma current_waiting_ctl c c' : ctl c' = ctl c → current_waiting c' = current_waiting c.
Proof. unfold current_waiting. by intros ->. Qed.

Lemma current_inflight_same c c' : requestGeneration (refs c') = requestGeneration (refs c) → inflight c' = inflight c →
  current_inflight c' = current_inflight c.
Proof. unfold current_inflight. by intros -> ->. Qed.

Lemma to_idle c c' : Base c → same_machine c c' → isRequesting (view c') = false → isStreaming (view c) = false →
  source (ctl c) = None → current_waiting c = [] → current_inflight c = [] → (∀ T, calm (shown t T c')) → Inv c'.
Proof.
  intros Hb Hm H1 H2 H3 H4 H5 H6. split; [by eapply base_same|]. destruct Hm as (Hr & Hk & Hi & Hs). apply Idle; try done.
  - by rewrite Hs.
  - by rewrite Hk.
  - by rewrite (current_waiting_ctl _ _ Hk).
  - rewrite (current_inflight_same c) by (done || by rewrite Hr). done.
  - unfold quiet. by rewrite Hr.
Qed.

Lemma inv_render T c : Inv c → Inv (render t T c).
Proof.
  intros [[B1 B2 B3 B4 B5 B6] Hm]. split; [by constructor|]. destruct Hm.
  - apply Idle; try done. intros T'. by rewrite shown_render.
  - eapply AwaitsHeaders; try done. intros T'. by rewrite shown_render.
  - eapply StreamOpen; try done. intros T'. by rewrite shown_render.
  - apply AwaitsAnswer; try done. intros T'. by rewrite shown_render.
Qed.

Lemma inv_flush eager T c : Base c → Mode c → Inv (flushStreamUpdates t eager T (requestGeneration (refs c)) c).
Proof.
  intros Hb Hm. pose proof (flush_effect eager T c Hb) as (Hs & Hq & _ & Hquiet). cbn zeta in *.
  set (c' := flushStreamUpdates _ _ _ _ _) in *. split; [by eapply base_same|].
  pose proof (current_waiting_ctl c c' (proj1 (proj2 Hs))) as Hcw.
  assert (current_inflight c' = current_inflight c) as Hci
    by (apply current_inflight_same; [by rewrite (proj1 Hs)|apply Hs]).
  destruct Hs as (Hr & Hk & Hi & Hst). assert (quiet c') as Hq' by (unfold quiet; by rewrite Hr).
  destruct Hm as [M1 M2 M3 M4 M5 M6 M7|p M1 M2 M3 M4 M5 M6 M7|id s M1 M2 M3 M4 M5 M6 M7|M1 M2 M3 M4 M5 M6 M7].
  - apply Idle; rewrite ?Hq, ?Hst, ?Hk, ?Hcw, ?Hci; try done. intros T'. by rewrite (Hquiet M6).
  - eapply AwaitsHeaders; rewrite ?Hq, ?Hst, ?Hk, ?Hcw, ?Hci, ?Hr; try done. intros T'. by rewrite (Hquiet M6).
  - eapply StreamOpen with (id := id); rewrite ?Hq, ?Hst, ?Hcw, ?Hci, ?Hr; try done; [by rewrite (listening_ctl _ _ _ Hk)|].
    by apply flush_open.
  - apply AwaitsAnswer; rewrite ?Hq, ?Hst, ?Hk, ?Hcw, ?Hci, ?Hr; try done. intros T'. by rewrite (Hquiet M6).
Qed.

Lemma inv_timer eager T c : Inv c → Inv (on_flush_timer t eager T c).
Proof.
  intros [Hb Hm]. unfold on_flush_timer. destruct (flushTimer (refs c)) as [[g []]|] eqn:E; [|by split..].
  assert (g = requestGeneration (refs c)) as -> by (by eapply base_timer).
  set (c1 := set_timer _ c). change (requestGeneration (refs c)) with (requestGeneration (refs c1)).
  assert (Base c1) as Hb1.
  { destruct Hb. constructor; try done. by intros ? ? [= <- _]. }
  apply inv_flush; [done|]. destruct Hm; [by apply Idle|by eapply AwaitsHeaders|by eapply StreamOpen|by apply AwaitsAnswer].
Qed.

(** ** An open stream *)

Definition Open (id : nat) (s : Source) (c : Chat) : Prop :=
  Base c ∧ isRequesting (view c) = true ∧ isStreaming (view c) = true ∧ listening id c = Some s ∧
  src_chat s = requestGeneration (refs c) ∧ current_waiting c = [] ∧ current_inflight c = [] ∧ ∀ T, last_open (shown t T c).

Lemma open_inv id s c : Open id s c → Inv c.
Proof. intros (Hb & H1 & H2 & H3 & H4 & H5 & H6 & H7). split; [done|by eapply StreamOpen]. Qed.

Lemma inv_open id s c : Inv c → listening id c = Some s → Open id s c.
Proof.
  intros [Hb Hm] Hl. pose proof (proj1 (listening_spec _ _ _) Hl) as (Ho & _ & Hsrc & _).
  destruct Hm as [M1 M2 M3| |id' s' M1 M2 M3 M4 M5 M6 M7|]; try congruence.
  pose proof (proj1 (listening_spec _ _ _) M3) as (Ho' & _ & Hsrc' & _).
  assert (id' = id) as -> by congruence. assert (s' = s) as -> by congruence. done.
Qed.

Lemma open_update id s type v c : Open id s c → Open id s (handleStreamUpdate (src_chat s) type v c).1.
Proof.
  intros (Hb & H1 & H2 & H3 & H4 & H5 & H6 & H7). unfold handleStreamUpdate. rewrite H4, Nat.eqb_refl. cbn [negb].
  rewrite (base_pending _ Hb), Nat.eqb_refl. cbn [negb].
  assert (∀ pc pr, let c' := scheduleStreamFlush (requestGeneration (refs c))
            (set_pending (MkPending (requestGeneration (refs c)) pc pr) c) in Open id s c') as Hsched.
  { intros pc pr. cbn zeta. unfold scheduleStreamFlush. cbn [set_pending on_refs refs requestGeneration flushTimer].
    rewrite Nat.eqb_refl. cbn [negb]. destruct Hb.
    destruct (flushTimer (refs c)) as [x|] eqn:E; (split; [|done]); constructor; try done; cbn; [by rewrite E|by intros ? ? [= <- _]]. }
  destruct type; (case_match; [apply Hsched|done]).
Qed.

Lemma open_updates id s us : ∀ c, Open id s c → Open id s (run_stream_updates (src_chat s) us c).1.
Proof.
  induction us as [|[type v] us IH]; intros c H; cbn [run_stream_updates]; [done|].
  pose proof (open_update id s type v c H) as H'. destruct (handleStreamUpdate _ type v c) as [c' []]; [done|]. by apply IH.
Qed.

(** Marking and closing the source leaves the rest as it is. *)
Lemma base_ctl c k : Base c → generation k = generation (ctl c) → waiting k = waiting (ctl c) → Base (on_ctl (λ _, k) c).
Proof. intros [B1 B2 B3 B4 B5 B6] Hg Hw. constructor; try done. cbn. by rewrite Hg, Hw. Qed.

Lemma close_fields id c : source (ctl c) = Some id → let c' := closeActiveSource id c in
  refs c' = refs c ∧ inflight c' = inflight c ∧ isRequesting (view c') = isRequesting (view c) ∧
  isStreaming (view c') = false ∧ source (ctl c') = None ∧ generation (ctl c') = generation (ctl c) ∧
  waiting (ctl c') = waiting (ctl c) ∧ ∀ T, shown t T c' = shown t T c.
Proof. intros H. cbn zeta. unfold closeActiveSource. by rewrite bool_decide_true. Qed.

Lemma base_closed id c : Base c → source (ctl c) = Some id → Base (closeActiveSource id c).
Proof.
  intros [B1 B2 B3 B4 B5 B6] H. destruct (close_fields id c H) as (Hr & Hi & _ & _ & _ & Hg & Hw & _).
  constructor; by rewrite ?Hr, ?Hi, ?Hg, ?Hw.
Qed.

Lemma open_error eager T id s e code c : Open id s c → Inv (handleError t eager T id (VStr e) code c).
Proof.
  intros (Hb & H1 & H2 & H3 & H4 & H5 & H6 & H7). unfold handleError. rewrite H3. set (c1 := on_ctl (complete_source id) c).
  assert (Base c1) as Hb1 by (destruct Hb; by constructor).
  destruct (error_effect eager T e code c1 Hb1 H7) as (E2 & (Hr & Hk & Hi & Hs) & Hq & Hcalm).
  rewrite H4. change (requestGeneration (refs c)) with (requestGeneration (refs c1)).
  destruct (handleStreamError _ _ _ _ _ _ _) as [c2 b]. cbn [fst snd] in *. subst b.
  apply listening_spec in H3 as (_ & _ & Hsrc & _).
  assert (source (ctl c2) = Some id) as Hsrc2 by by rewrite Hk.
  destruct (close_fields id c2 Hsrc2) as (Kr & Ki & Kq & Ks & Ksrc & Kg & Kw & Kshown).
  set (c3 := closeActiveSource id c2) in *. split.
  - apply base_closed; [by eapply base_same|done].
  - apply Idle; try done.
    + by rewrite Kq.
    + unfold current_waiting. by rewrite Kw, Kg, Hk.
    + unfold current_inflight. by rewrite Ki, Kr, Hi, Hr.
    + unfold quiet. by rewrite Kr, Hr.
    + intros T'. by rewrite Kshown.
Qed.

Lemma inv_message eager T id data c : Inv c → Inv (on_source_message t eager T id data c).
Proof.
  intros H. unfold on_source_message. destruct (listening id c) as [s|] eqn:Hl; [|done].
  pose proof (inv_open _ _ _ H Hl) as Ho. destruct (isStreamDoneMessage _).
  - destruct Ho as (Hb & H1 & H2 & _ & H4 & H5 & H6 & H7). apply listening_spec in Hl as (_ & _ & Hsrc & _).
    set (c1 := on_ctl (complete_source id) c). assert (Base c1) as Hb1 by (destruct Hb; by constructor).
    destruct (close_fields id c1 Hsrc) as (Kr & Ki & Kq & Ks & Ksrc & Kg & Kw & Kshown).
    pose proof (base_closed id c1 Hb1 Hsrc) as Hb2. set (c2 := closeActiveSource id c1) in *.
    rewrite H4. change (refs c) with (refs c1). rewrite <- Kr.
    destruct (complete_effect eager T c2 Hb2) as (Hs & Hq & Hcalm); [intros T'; rewrite Kshown; apply H7|].
    apply (to_idle c2); try done.
    + unfold current_waiting. by rewrite Kw, Kg.
    + unfold current_inflight. by rewrite Ki, Kr.
  - destruct (parseStreamMessageUpdates _) as [us|]; [|by eapply open_error].
    pose proof (open_updates id s us c Ho) as Hu.
    destruct (run_stream_updates _ _ _) as [c' []]; [by eapply open_error|by eapply open_inv].
Qed.

Lemma inv_source_error eager T id readyState data c : is_string (d_message (parseStreamErrorDetails data)) = true →
  Inv c → Inv (on_source_error t eager T id readyState data c).
Proof.
  intros Hd H. unfold on_source_error. destruct (listening id c) as [s|] eqn:Hl; [|done]. case_match; [done|].
  destruct (d_message _); try done. eapply open_error. by apply inv_open.
Qed.

Lemma inv_ready_state eager T id readyState status c : Inv c → Inv (on_ready_state t eager T id readyState status c).
Proof.
  intros H. unfold on_ready_state. destruct (listening id c) as [s|] eqn:Hl; [|done].
  case_match; [|done]. case_match; [|done]. eapply open_error. by apply inv_open.
Qed.

(** ** Headers and answers *)

Lemma Forall_delete' {A} (P : A → Prop) i l : Forall P l → Forall P (delete i l).
Proof. intros H. rewrite delete_take_drop. apply Forall_app. split; [by apply Forall_take|by apply Forall_drop]. Qed.

Lemma inv_headers eager T i headers starts c : Inv c → Inv (on_headers t eager T i headers starts c).
Proof.
  intros [Hb Hm]. unfold on_headers. destruct (waiting (ctl c) !! i) as [[[request g] payload]|] eqn:Hw; [|by split].
  set (c1 := on_ctl _ c). assert (Base c1) as Hb1.
  { destruct Hb. constructor; try done. by apply Forall_delete'. }
  change (generation (ctl c1)) with (generation (ctl c)). destruct (Nat.eqb (generation (ctl c)) request) eqn:Eg; cbn [negb].
  - apply Nat.eqb_eq in Eg as <-. assert (Nat.eqb (generation (ctl c)) (generation (ctl c)) = true) as Er by apply Nat.eqb_refl.
    destruct Hm as [M1 M2 M3 M4|p M1 M2 M3 M4 M5 M6 M7|id s M1 M2 M3 M4 M5|M1 M2 M3 M4].
    1: by destruct (filter_nil_lookup _ _ _ _ Hw Er M4).
    2: by destruct (filter_nil_lookup _ _ _ _ Hw Er M5).
    2: by destruct (filter_nil_lookup _ _ _ _ Hw Er M4).
    destruct (filter_delete_single _ _ _ _ _ Hw Er M4) as [[= <- <-] Hcw].
    destruct headers as [message|[]].
    + destruct (error_effect eager T (default STREAM_START_ERROR message) VUndef c1 Hb1 M7) as (_ & Hs & Hq & Hcalm).
      by apply (to_idle c1).
    + set (c2 := setStreaming true _).
      assert (Open (length (opened (ctl c1))) (MkSource (generation (ctl c)) (requestGeneration (refs c)) p false false) c2) as Ho.
      { split; [destruct Hb1; by constructor|]. split; [done|]. split; [done|]. split; [|done].
        apply listening_spec. cbn. by rewrite lookup_app_r, Nat.sub_diag. }
      destruct starts; [by eapply open_inv|by eapply open_error].
  - split; [done|]. assert (current_waiting c1 = current_waiting c) as Hcw.
    { apply (filter_delete_false _ _ _ _ Hw). by rewrite Nat.eqb_sym. }
    destruct Hm as [M1 M2 M3 M4|p M1 M2 M3 M4|id s M1 M2 M3 M4 M5|M1 M2 M3 M4]; rewrite <- Hcw in *.
    + by apply Idle. + by eapply AwaitsHeaders. + by eapply StreamOpen. + by apply AwaitsAnswer.
Qed.

Lemma settle_inv c : Inv c → isRequesting (view c) = false → Inv (settle (requestGeneration (refs c)) c).
Proof.
  intros [Hb Hm] Hq. unfold settle. rewrite Nat.eqb_refl. split; [destruct Hb; by constructor|].
  destruct Hm; try congruence. by apply Idle.
Qed.

(** The answer of the current plain request finishes its message. *)
Lemma answer_inv eager T u c : Base c → finishing u → made_in u (requestGeneration (refs c)) → quiet c →
  isStreaming (view c) = false → source (ctl c) = None → current_waiting c = [] → current_inflight c = [] →
  (∀ T', last_open (shown t T' c)) → Inv (settle (requestGeneration (refs c)) (onMessageUpdate t eager T u c)).
Proof.
  intros Hb Hu Hg Hq M2 M3 M4 M5 M7. unfold settle.
  change (requestGeneration (refs (onMessageUpdate t eager T u c))) with (requestGeneration (refs c)). rewrite Nat.eqb_refl.
  split; [destruct Hb; by constructor|]. apply Idle; try done. intros T'.
  match goal with |- calm (shown t T' ?x) => change (shown t T' x) with (shown t T' (onMessageUpdate t eager T u c)) end.
  destruct (shown_update t eager T T' u c) as [T'' ->]. by apply finishing_calm.
Qed.

Lemma inv_answered eager T i answer c : text_answer answer = true → Inv c → Inv (answered t eager T i answer c).
Proof.
  intros Ha [Hb Hm]. unfold answered. destruct (inflight c !! i) as [g|] eqn:Hi; [|by split].
  set (c1 := MkChat _ _ _ (delete i (inflight c))). assert (Base c1) as Hb1.
  { destruct Hb. constructor; try done. by apply Forall_delete'. }
  unfold on_answer. change (refs c1) with (refs c). destruct (decide (requestGeneration (refs c) = g)) as [<-|Hg].
  2: { assert (Nat.eqb (requestGeneration (refs c)) g = false) as Eg by by apply Nat.eqb_neq.
       rewrite Eg. cbn [negb]. rewrite orb_true_r. unfold settle. change (refs c1) with (refs c). rewrite Eg. split; [done|].
       pose proof (filter_delete_false _ _ _ _ Hi Eg : current_inflight c1 = current_inflight c) as Hci.
       destruct Hm as [M1 M2 M3 M4 M5|p M1 M2 M3 M4 M5|id s M1 M2 M3 M4 M5 M6|M1 M2 M3 M4 M5]; rewrite <- Hci in *.
       - by apply Idle. - by eapply AwaitsHeaders. - by eapply StreamOpen. - by apply AwaitsAnswer. }
  rewrite Nat.eqb_refl. cbn [negb]. rewrite orb_false_r. rewrite bool_decide_false.
  2: { intros Hin. destruct Hb as [_ _ _ _ B5 _]. rewrite Forall_forall in B5. apply B5 in Hin. lia. }
  pose proof (Nat.eqb_refl (requestGeneration (refs c))) as Er.
  destruct Hm as [M1 M2 M3 M4 M5|p M1 M2 M3 M4 M5|id s M1 M2 M3 M4 M5 M6|M1 M2 M3 M4 M5 M6 M7].
  1, 2: by destruct (filter_nil_lookup _ _ _ _ Hi Er M5).
  1: by destruct (filter_nil_lookup _ _ _ _ Hi Er M6).
  destruct (filter_delete_single _ _ _ _ _ Hi Er M5) as [_ Hci]. change (refs c) with (refs c1).
  assert (∀ e code, Inv (settle (requestGeneration (refs c1))
            (handleStreamError t eager T (requestGeneration (refs c1)) (VStr e) code c1).1)) as Herr.
  { intros e code. destruct (error_effect eager T e code c1 Hb1 M7) as (_ & Hs & Hq & Hcalm).
    set (c2 := (handleStreamError _ _ _ _ _ _ _).1) in *.
    assert (requestGeneration (refs c1) = requestGeneration (refs c2)) as -> by by rewrite (proj1 Hs).
    apply settle_inv; [by apply (to_idle c1)|done]. }
  destruct answer as [err|response].
  - unfold text_answer in Ha. destruct (d_message _); done.
  - destruct (getImageResponseContent _); [by apply answer_inv|].
    destruct (hasChatCompletionChoice response) eqn:Hch; cbn [negb]; [by apply answer_inv|apply Herr].
Qed.

(** ** What the user does *)

Lemma filter_above (n : nat) l : Forall (λ g, g ≤ n) l → List.filter (Nat.eqb (S n)) l = [].
Proof.
  intros H. apply list_filter_none. intros x Hx. rewrite Forall_forall in H. apply H in Hx. apply Nat.eqb_neq. lia.
Qed.

Lemma Forall_le_S (l : list nat) n : Forall (λ g, g ≤ n) l → Forall (λ g, g ≤ S n) l.
Proof. rewrite !Forall_forall. intros H x Hx. apply H in Hx. lia. Qed.

(** Aborted requests are older than the generation that follows. *)
Lemma aborted_older (c : Chat) : Base c →
  Forall (λ g, g < S (requestGeneration (refs c)))
    (match abortController (refs c) with Some g => g :: aborted (refs c) | None => aborted (refs c) end).
Proof.
  intros [_ _ _ _ B5 B6]. assert (Forall (λ g, g < S (requestGeneration (refs c))) (aborted (refs c))) as H.
  { rewrite Forall_forall in *. intros x Hx. apply B5 in Hx. lia. }
  destruct (abortController (refs c)) as [g|]; [|done]. constructor; [|done]. specialize (B6 g eq_refl). lia.
Qed.

Lemma waiting_le_S (c : Chat) : Base c → Forall (λ w, w.1.1 ≤ S (generation (ctl c))) (waiting (ctl c)).
Proof. intros [_ _ B3 _ _ _]. rewrite Forall_forall in *. intros x Hx. apply B3 in Hx. lia. Qed.

Lemma inv_send_streaming config enabled ms c us next : Base c → updates (view c) = us ++ [Replace next] → last_open next →
  Inv (sendStreamingChat lower config enabled ms c).
Proof.
  intros Hb Hu Hn. unfold sendStreamingChat. set (payload := buildChatCompletionPayload _ _ _ _).
  match goal with |- Inv (stream_send payload ?g ?x) => set (c1 := x); set (g1 := g) end.
  pose proof (stream_send_ctl payload g1 c1) as Hk. change (ctl c1) with (ctl c) in Hk. cbn zeta in Hk. split.
  - pose proof (aborted_older c Hb) as Ha. pose proof (waiting_le_S c Hb) as Hw. destruct Hb as [B1 B2 B3 B4 B5 B6].
    constructor; rewrite ?Hk; try done.
    + cbn [waiting generation]. apply Forall_app. split; [done|]. by apply Forall_singleton.
    + by apply Forall_le_S.
  - apply (AwaitsHeaders _ payload); rewrite ?Hk; try done.
    + unfold current_waiting. rewrite Hk. cbn [waiting generation]. rewrite List.filter_app.
      rewrite filter_none_above by apply Hb. cbn. by rewrite Nat.eqb_refl.
    + unfold current_inflight. apply filter_above. apply Hb.
    + intros T'. match goal with |- last_open (shown t T' ?x) => change (shown t T' x) with
        (run_updates t g1 (updates (view c)) T' (messages (view c))) end.
      by rewrite Hu, run_updates_replace.
Qed.

Lemma inv_send_plain config enabled ms c us next : Base c → updates (view c) = us ++ [Replace next] → last_open next →
  Inv (sendNonStreamingChat config enabled ms c).
Proof.
  intros Hb Hu Hn. unfold sendNonStreamingChat. set (g1 := S (requestGeneration (refs c))).
  match goal with |- context [cancel true ?x] => set (c1 := x); pose proof (cancel_ctl true c1) as Hk end.
  change (ctl c1) with (ctl c) in Hk. cbn zeta in Hk. set (c2 := cancel true c1) in *. split.
  - pose proof (aborted_older c Hb) as Ha. pose proof (waiting_le_S c Hb) as Hw. destruct Hb as [B1 B2 B3 B4 B5 B6].
    constructor; cbn [ctl setIsRequesting on_view abort_and_set discardPendingStreamUpdates set_pending clear_timer set_timer on_refs inflight];
      rewrite ?Hk; try done.
    + apply Forall_app. split; [by apply Forall_le_S|]. apply Forall_singleton. done.
    + cbn. by intros ? [= <-].
  - apply AwaitsAnswer; try done.
    + cbn [ctl setIsRequesting on_view abort_and_set discardPendingStreamUpdates set_pending clear_timer set_timer on_refs]. by rewrite Hk.
    + unfold current_waiting. cbn [ctl setIsRequesting on_view abort_and_set discardPendingStreamUpdates set_pending clear_timer set_timer on_refs].
      rewrite Hk. apply filter_none_above. apply Hb.
    + unfold current_inflight. cbn [inflight]. rewrite List.filter_app.
      match goal with |- List.filter (Nat.eqb ?x) _ ++ _ = _ => change x with g1 end.
      unfold g1 at 1. change (inflight _) with (inflight c). rewrite filter_above by apply Hb. cbn [List.filter app].
      by rewrite Nat.eqb_refl.
    + intros T'. match goal with |- last_open (shown t T' ?x) => change (shown t T' x) with
        (run_updates t g1 (updates (view c)) T' (messages (view c))) end.
      by rewrite Hu, run_updates_replace.
Qed.

Lemma inv_send config enabled eager T next c : Base c → last_open next →
  Inv (sendChat lower config enabled next (onMessageUpdate t eager T (Replace next) c)).
Proof.
  intros Hb Hn. destruct (updates_replace t eager T next c) as [us Hus].
  assert (Base (onMessageUpdate t eager T (Replace next) c)) as Hb1 by (destruct Hb; by constructor).
  unfold sendChat. case_match; [by eapply inv_send_streaming|by eapply inv_send_plain].
Qed.

Lemma idle_spec c : Inv c → isGenerating c = false →
  isRequesting (view c) = false ∧ isStreaming (view c) = false ∧ source (ctl c) = None ∧
  current_waiting c = [] ∧ current_inflight c = [] ∧ quiet c ∧ ∀ T, calm (shown t T c).
Proof.
  intros [_ Hm] Hg. unfold isGenerating in Hg. apply orb_false_iff in Hg as [Hs Hr]. destruct Hm; try congruence. done.
Qed.

Lemma inv_idle_update eager T u c : Inv c → isGenerating c = false →
  (∀ g T' ms, calm ms → calm (run_updater t g u T' ms)) → Inv (onMessageUpdate t eager T u c).
Proof.
  intros H Hg Hu. destruct (idle_spec c H Hg) as (M1 & M2 & M3 & M4 & M5 & M6 & M7). destruct H as [Hb _].
  split; [destruct Hb; by constructor|]. apply Idle; try done. intros T'.
  destruct (shown_update t eager T T' u c) as [T'' ->]. by apply Hu.
Qed.

Lemma mode_replace eager T ms c : Inv c → ((∀ T', calm (shown t T' c)) → calm ms) → ((∀ T', last_open (shown t T' c)) → last_open ms) →
  Inv (onMessageUpdate t eager T (Replace ms) c).
Proof.
  intros [Hb Hm] Hc Ho. split; [destruct Hb; by constructor|].
  destruct Hm as [M1 M2 M3 M4 M5 M6 M7|p M1 M2 M3 M4 M5 M6 M7|id s M1 M2 M3 M4 M5 M6 M7|M1 M2 M3 M4 M5 M6 M7].
  - apply Idle; try done. intros T'. rewrite shown_replace. by apply Hc.
  - eapply AwaitsHeaders; try done. intros T'. rewrite shown_replace. by apply Ho.
  - eapply StreamOpen; try done. intros T'. rewrite shown_replace. by apply Ho.
  - apply AwaitsAnswer; try done. intros T'. rewrite shown_replace. by apply Ho.
Qed.

Lemma calm_filter P ms : calm ms → calm (List.filter P ms).
Proof. unfold calm. rewrite !Forall_forall. intros H x [Hx _]%elem_of_lfilter. by apply H. Qed.

Lemma edit_unfinished k text b now m : unfinished (edit_message k text b now m) = unfinished m.
Proof. unfold edit_message. by case_match. Qed.

Lemma edit_calm k text b now ms : calm ms → calm (edit_message k text b now <$> ms).
Proof. unfold calm. rewrite Forall_fmap, !Forall_forall. intros H m Hm. unfold compose. rewrite edit_unfinished. by apply H. Qed.

Lemma edit_open k text b now ms : last_open ms → last_open (edit_message k text b now <$> ms).
Proof. intros (pre & m & -> & H). rewrite fmap_app. apply calm_last_open. by apply edit_calm. Qed.

Lemma open_take ms i m : last_open ms ∨ calm ms → ms !! i = Some m → unfinished m = false → calm (take (S i) ms).
Proof.
  intros [(pre & l & -> & H)|H] Hi Hm; [|by apply calm_take]. rewrite (take_S_r _ _ m) by done.
  apply calm_app. split; [|by apply Forall_singleton]. apply lookup_lt_Some in Hi. rewrite length_app in Hi. cbn in Hi.
  rewrite take_app_le by lia. by apply calm_take.
Qed.

Lemma inv_shown c : Inv c → (∀ T, last_open (shown t T c)) ∨ (∀ T, calm (shown t T c)).
Proof. intros [_ []]; auto. Qed.

(** ** What waits

    The rendered messages, and every list that waits to replace them, have at
    most their last message unfinished. *)
Definition tidy (ms : list Message) : Prop := last_open ms ∨ calm ms.
Definition queued (u : Updater) : Prop := match u with Replace ms => tidy ms | _ => True end.
Definition Tidy (c : Chat) : Prop := tidy (messages (view c)) ∧ Forall queued (updates (view c)).

Lemma tidy_nonempty ms m : tidy (ms ++ [m]) → last_open (ms ++ [m]).
Proof. intros [H|H]; [done|]. apply calm_app in H as [H _]. by apply calm_last_open. Qed.

Lemma tidy_last ms f : tidy ms → tidy (updateLastAssistantMessage ms f).
Proof.
  destruct ms as [|m ms _] using rev_ind; intros H; [right; apply Forall_nil_2|left; by apply updateLast_open, tidy_nonempty].
Qed.

Lemma tidy_run now u T ms : queued u → tidy ms → tidy (run_updater t now u T ms).
Proof.
  intros Hu H. destruct u; cbn [run_updater]; try done; try (destruct (negb _); [done|by apply tidy_last]).
  unfold removeMessageByKey. destruct H as [(pre & m & -> & H)|H]; [|right; by apply calm_filter].
  rewrite List.filter_app. cbn [List.filter]. destruct (negb _).
  - left. by apply calm_last_open, calm_filter.
  - right. rewrite app_nil_r. by apply calm_filter.
Qed.

Lemma tidy_runs now us T : ∀ ms, Forall queued us → tidy ms → tidy (run_updates t now us T ms).
Proof.
  induction us as [|u us IH]; intros ms Hu H; [done|]. apply Forall_cons in Hu as [Hu Hus]. cbn. apply IH; [done|].
  by apply tidy_run.
Qed.

Lemma tidy_view c c' : messages (view c') = messages (view c) → updates (view c') = updates (view c) → Tidy c → Tidy c'.
Proof. unfold Tidy. by intros -> ->. Qed.

Lemma tidy_update eager T u c : queued u → Tidy c → Tidy (onMessageUpdate t eager T u c).
Proof.
  intros Hu [H1 H2]. split; [done|]. cbn. apply Forall_app. split; [done|]. apply Forall_singleton.
  destruct (eager && _); [|done]. cbn [queued]. by apply tidy_run.
Qed.

Lemma tidy_flush eager T g c : Tidy c → Tidy (flushStreamUpdates t eager T g c).
Proof.
  intros H. unfold flushStreamUpdates. destruct (negb _); [done|]. destruct (negb _); [by apply (tidy_view c)|].
  destruct (_ && _); [by apply (tidy_view c)|]. apply tidy_update; [done|]. by apply (tidy_view c).
Qed.

Lemma tidy_complete eager T g c : Tidy c → Tidy (handleStreamComplete t eager T g c).
Proof.
  intros H. unfold handleStreamComplete. destruct (negb _); [done|]. apply tidy_update; [done|].
  exact (tidy_view _ _ eq_refl eq_refl (tidy_flush eager T g c H)).
Qed.

Lemma tidy_error eager T g e code c : Tidy c → Tidy (handleStreamError t eager T g e code c).1.
Proof.
  intros H. unfold handleStreamError. destruct (negb _); [done|]. pose proof (tidy_flush eager T g c H) as Hf.
  destruct (getDisplayError t e); cbn [fst]; [apply tidy_update; [done|]|]; exact (tidy_view _ _ eq_refl eq_refl Hf).
Qed.

Lemma tidy_close id c : Tidy c → Tidy (closeActiveSource id c).
Proof. intros H. unfold closeActiveSource. destruct (bool_decide _); by apply (tidy_view c). Qed.

Lemma tidy_handle eager T id e code c : Tidy c → Tidy (handleError t eager T id e code c).
Proof.
  intros H. unfold handleError. destruct (listening id c) as [s|]; [|done].
  pose proof (tidy_error eager T (src_chat s) e code (on_ctl (complete_source id) c)) as He.
  destruct (handleStreamError _ _ _ _ _ _ _) as [c' []]; cbn [fst] in He; [|apply tidy_close]; apply He; by apply (tidy_view c).
Qed.

Lemma tidy_stream_updates g us : ∀ c, Tidy c → Tidy (run_stream_updates g us c).1.
Proof.
  induction us as [|[type v] us IH]; intros c H; cbn [run_stream_updates]; [done|].
  assert (Tidy (handleStreamUpdate g type v c).1) as H1.
  { unfold handleStreamUpdate, scheduleStreamFlush. repeat case_match; by (done || apply (tidy_view c)). }
  destruct (handleStreamUpdate g type v c) as [c' []]; [done|]. by apply IH.
Qed.

Lemma tidy_message eager T id data c : Tidy c → Tidy (on_source_message t eager T id data c).
Proof.
  intros H. unfold on_source_message. destruct (listening id c) as [s|]; [|done]. destruct (isStreamDoneMessage _).
  - apply tidy_complete, tidy_close. by apply (tidy_view c).
  - destruct (parseStreamMessageUpdates _) as [us|]; [|by apply tidy_handle].
    pose proof (tidy_stream_updates (src_chat s) us c H) as H1. destruct (run_stream_updates _ us c) as [c' []]; [|done].
    by apply tidy_handle.
Qed.

Lemma tidy_headers eager T i headers starts c : Tidy c → Tidy (on_headers t eager T i headers starts c).
Proof.
  intros H. unfold on_headers. destruct (waiting (ctl c) !! i) as [[[request g] payload]|]; [|done].
  destruct (negb _); [by apply (tidy_view c)|]. destruct headers as [m|[]].
  - apply tidy_error. by apply (tidy_view c).
  - destruct starts; [|apply tidy_handle]; by apply (tidy_view c).
Qed.

Lemma tidy_settle g c : Tidy c → Tidy (settle g c).
Proof. intros H. unfold settle. destruct (Nat.eqb _ _); [by apply (tidy_view c)|done]. Qed.

Lemma tidy_answered eager T i answer c : Tidy c → Tidy (answered t eager T i answer c).
Proof.
  intros H. unfold answered. destruct (inflight c !! i) as [g|]; [|done]. set (c1 := MkChat _ _ _ _).
  assert (Tidy c1) as H1 by by apply (tidy_view c). unfold on_answer. destruct (_ || _); [by apply tidy_settle|].
  destruct answer as [err|response]; [by apply tidy_settle, tidy_error|].
  destruct (getImageResponseContent _); [by apply tidy_settle, tidy_update|].
  destruct (negb _); apply tidy_settle; [by apply tidy_error|by apply tidy_update].
Qed.

Lemma tidy_send config enabled eager T next c : last_open next → Tidy c →
  Tidy (sendChat lower config enabled next (onMessageUpdate t eager T (Replace next) c)).
Proof.
  intros Hn H. apply (tidy_update eager T (Replace next)) in H; [|by left]. revert H. generalize (onMessageUpdate t eager T (Replace next) c).
  intros c1 H. unfold sendChat, sendStreamingChat, sendNonStreamingChat, stream_send, cancel. destruct (_ && _); by apply (tidy_view c1).
Qed.

Lemma tidy_stop eager T c : Tidy c → Tidy (stopGeneration t eager T c).
Proof.
  intros H. unfold stopGeneration. apply tidy_update; [done|]. unfold cancel. by apply (tidy_view _ _ eq_refl eq_refl (tidy_flush eager T (requestGeneration (refs c)) c H)).
Qed.

Lemma mode_generating eager T ms c : Inv c → isGenerating c = true → last_open ms → Inv (onMessageUpdate t eager T (Replace ms) c).
Proof.
  intros [Hb Hm] Hg Ho. split; [destruct Hb; by constructor|]. unfold isGenerating in Hg.
  destruct Hm as [M1 M2|p M1 M2 M3 M4 M5 M6 M7|id s M1 M2 M3 M4 M5 M6 M7|M1 M2 M3 M4 M5 M6 M7]; [by rewrite M1, M2 in Hg|..].
  - eapply AwaitsHeaders; try done. intros T'. by rewrite shown_replace.
  - eapply StreamOpen; try done. intros T'. by rewrite shown_replace.
  - apply AwaitsAnswer; try done. intros T'. by rewrite shown_replace.
Qed.

Lemma edit_tidy k text b now ms : tidy ms → tidy (edit_message k text b now <$> ms).
Proof. intros [H|H]; [left; by apply edit_open|right; by apply edit_calm]. Qed.

(** What an edit leaves: the edited messages, or a new reply to an edited one. *)
Lemma edit_result ids k text submit now c ms sends : Tidy c →
  applyMessageEdit (messages (view c)) k text submit ids now = Some (ms, sends) →
  last_open ms ∧ (sends = false → ms = edit_message k text submit now <$> messages (view c)).
Proof.
  intros [Ht _] H. unfold applyMessageEdit, index_by_key in H. destruct (list_find _ _) as [[i m]|] eqn:Ef; [|done].
  apply list_find_Some in Ef as (Hi & _). cbn [fmap option_fmap option_map fst] in H.
  set (es := edit_message k text submit now <$> messages (view c)) in *.
  pose proof (edit_tidy k text submit now _ Ht) as Hes. fold es in Hes.
  destruct (negb submit || _) eqn:E; injection H as <- <-.
  - split; [|done]. destruct es as [|e es' _] eqn:Ee using rev_ind; [|by apply tidy_nonempty].
    apply (f_equal length) in Ee. unfold es in Ee. rewrite length_fmap in Ee. apply lookup_lt_Some in Hi. cbn in Ee. lia.
  - split; [|done]. apply orb_false_iff in E as [_ E]. bool_hyps. destruct (es !! i) as [x|] eqn:Hx; [|done]. injection E as E.
    apply calm_last_open, (open_take _ _ x); [done|done|]. unfold unfinished, isPendingAssistantMessage. by rewrite E.
Qed.

Lemma inv_edit eager T config enabled ids k text submit c :
  isGenerating c = true ∨ updates (view c) = [] ∨ edit_sends ids k text submit (T 0) c → Inv c → Tidy c →
  Inv (applyEdit t lower eager T config enabled ids k text submit c).
Proof.
  intros Ho H Ht. unfold applyEdit. destruct (negb (nonempty k)); [done|]. unfold edit_sends in Ho.
  destruct (applyMessageEdit _ _ _ _ _ _) as [[ms []]|] eqn:E; [..|done]; apply edit_result in E as [Hms He]; try done.
  - by apply inv_send; [apply H|].
  - destruct (isGenerating c) eqn:Hg; [by apply mode_generating|]. destruct Ho as [?|[Hu|?]]; [done| |done].
    rewrite (He eq_refl) in *. apply mode_replace; [done|..]; intros Hs; [apply edit_calm|apply edit_open];
      rewrite <- (shown_idle t T c Hu); apply Hs.
Qed.

Lemma tidy_edit eager T config enabled ids k text submit c : Tidy c → Tidy (applyEdit t lower eager T config enabled ids k text submit c).
Proof.
  intros Ht. unfold applyEdit. destruct (negb (nonempty k)); [done|].
  destruct (applyMessageEdit _ _ _ _ _ _) as [[ms []]|] eqn:E; [..|done]; apply edit_result in E as [Hms He]; try done.
  - by apply tidy_send.
  - by apply tidy_update; [left|].
Qed.

Lemma inv_regenerate eager T config enabled ids k c : updates (view c) = [] → isGenerating c = false → Inv c →
  Inv (handleRegenerateMessage t lower eager T config enabled ids k c).
Proof.
  intros Hu Hg H. destruct (idle_spec c H Hg) as (_ & _ & _ & _ & _ & _ & Hc). specialize (Hc T). rewrite shown_idle in Hc by done.
  unfold handleRegenerateMessage, createRegeneratedMessages. destruct (list_find _ _) as [[i m]|]; [|done].
  destruct (bool_decide _); (apply inv_send; [apply H|]); by apply calm_last_open, calm_take.
Qed.

Lemma finishing_calm_or_nil u g T ms : finishing u → made_in u g → last_open ms ∨ calm ms → calm (run_updater t g u T ms).
Proof.
  intros Hu Hg [H|H]; [by apply finishing_calm|]. destruct ms as [|m ms _] using rev_ind.
  - destruct u; try done; cbn [made_in] in Hg; subst; cbn [run_updater]; by rewrite Nat.eqb_refl.
  - apply finishing_calm; [done..|]. apply calm_app in H as [H _]. by apply calm_last_open.
Qed.

Lemma inv_stop eager T c : Inv c → Tidy c → Inv (stopGeneration t eager T c).
Proof.
  intros H Ht. destruct H as [Hb Hm]. unfold stopGeneration.
  destruct (flush_effect eager T c Hb) as ((Hr & Hk & Hi & Hs) & _). pose proof (tidy_flush eager T (requestGeneration (refs c)) c Ht) as Hf.
  cbn zeta in *. set (c1 := flushStreamUpdates _ _ _ _ _) in *. set (g := S (requestGeneration (refs c))).
  match goal with |- context [cancel true ?x] => set (c2 := x); pose proof (cancel_ctl true c2) as Hk2 end.
  change (ctl c2) with (ctl c1) in Hk2. cbn zeta in Hk2. rewrite Hk in Hk2.
  match goal with |- Inv (onMessageUpdate _ _ _ _ ?x) => set (c3 := x) end.
  assert (ctl c3 = ctl (cancel true c2)) as Hk3 by done. rewrite Hk2 in Hk3.
  assert (refs c3 = MkRefs g (MkPending g [] []) None None (match abortController (refs c) with
            Some a => a :: aborted (refs c) | None => aborted (refs c) end)) as Hr3.
  { change (refs c3) with (MkRefs g (MkPending g [] []) None None (match abortController (refs c1) with
            Some a => a :: aborted (refs c1) | None => aborted (refs c1) end)). by rewrite Hr. }
  assert (inflight c3 = inflight c) as Hi3 by done. set (c4 := onMessageUpdate _ _ _ _ c3).
  assert (refs c4 = refs c3 ∧ ctl c4 = ctl c3 ∧ inflight c4 = inflight c3) as (Er & Ek & Ei) by done.
  rewrite Hr3 in Er. rewrite Hk3 in Ek. rewrite Hi3 in Ei. split.
  - pose proof (aborted_older c Hb) as Ha. pose proof (waiting_le_S c Hb) as Hw. destruct Hb as [B1 B2 B3 B4 B5 B6].
    constructor; rewrite ?Er, ?Ek, ?Ei; try done. by apply Forall_le_S.
  - apply Idle; try done.
    + by rewrite Ek.
    + unfold current_waiting. rewrite Ek. apply filter_none_above. apply Hb.
    + unfold current_inflight. rewrite Er, Ei. apply filter_above. apply Hb.
    + intros T'. subst c4. destruct (shown_update t eager T T' (FinishPending g) c3) as [T'' ->]. rewrite Hr3. cbn [requestGeneration].
      apply finishing_calm_or_nil; [done..|].
      destruct Hf as [Hf1 Hf2]. by apply (tidy_runs _ (updates (view c1)) T' (messages (view c1))).
Qed.

Lemma idle_calm c : Inv c → isGenerating c = false → updates (view c) = [] → calm (messages (view c)).
Proof.
  intros H Hg Hu. destruct (idle_spec c H Hg) as (_ & _ & _ & _ & _ & _ & Hc). specialize (Hc (λ _, of_Z 0)).
  by rewrite shown_idle in Hc.
Qed.

Lemma pair_open ms text ids now : calm ms → last_open (appendUserMessagePair ms text ids now).
Proof.
  intros H. unfold appendUserMessagePair.
  exists (ms ++ [createUserMessage (ids 0) (ids 1) text now]), (createLoadingAssistantMessage (ids 2) (ids 3) now).
  split; [by rewrite <- (assoc (++))|]. apply calm_app. split; [done|]. by apply Forall_singleton.
Qed.

Lemma chat_inv_step c c' : chat_step t lower true c c' → Inv c ∧ Tidy c → Inv c' ∧ Tidy c'.
Proof.
  intros Hs [H Ht]. destruct Hs as [c T|c eager T|c eager T i h st|c eager T id d|c eager T id r d He|c eager T id r st|c eager T i a Ha
    |c eager T cf en ids text Hu Hg|c eager T cf en ids k Hu Hg|c eager T cf en ids k text sb Ho|c eager T k Hu Hg|c eager T Hu Hg|c eager T]; split.
  - by apply inv_render.
  - destruct Ht as [H1 H2]. split; [by apply tidy_runs|done].
  - by apply inv_timer.
  - unfold on_flush_timer. destruct (flushTimer (refs c)) as [[g []]|]; [apply tidy_flush; by apply (tidy_view c)|done..].
  - by apply inv_headers.
  - by apply tidy_headers.
  - by apply inv_message.
  - by apply tidy_message.
  - by apply inv_source_error; [apply He|].
  - unfold on_source_error. repeat case_match; by (done || apply tidy_handle).
  - by apply inv_ready_state.
  - unfold on_ready_state. repeat case_match; by (done || apply tidy_handle).
  - by apply inv_answered; [apply Ha|].
  - by apply tidy_answered.
  - apply inv_send; [apply H|]. by apply pair_open, idle_calm.
  - apply tidy_send; [|done]. by apply pair_open, idle_calm.
  - by apply inv_regenerate.
  - unfold handleRegenerateMessage, createRegeneratedMessages. pose proof (idle_calm c H Hg Hu) as Hc.
    destruct (list_find _ _) as [[i m]|]; [|done]. destruct (bool_decide _); (apply tidy_send; [|done]); by apply calm_last_open, calm_take.
  - by apply inv_edit; [apply Ho|..].
  - by apply tidy_edit.
  - apply inv_idle_update; [done..|]. intros g T' ms. apply calm_filter.
  - by apply tidy_update.
  - apply inv_idle_update; [done..|]. intros g T' ms _. apply Forall_nil_2.
  - apply tidy_update; [|done]. right. apply Forall_nil_2.
  - by apply inv_stop.
  - by apply tidy_stop.
Qed.

Lemma chat_inv_reachable ms c : calm ms → rtc (chat_step t lower true) (initial_chat ms) c → Inv c ∧ Tidy c.
Proof.
  intros Hms H. assert (Inv (initial_chat ms) ∧ Tidy (initial_chat ms)) as H0.
  { split; [by apply chat_inv_initial|]. split; [by right|constructor]. }
  revert H0. induction H as [|x y z Hxy _ IH]; [done|]. intros Hx. apply IH. by eapply chat_inv_step.
Qed.




(** C38: stopping works at any time.  From every state reached by orderly steps
    (see [chat_settled]), rendered or with updaters waiting, stopping and
    rendering leaves nothing being generated, no message unfinished and no
    stream listened to. *)
Theorem stop_settles ms c eager T T' : calm ms → rtc (chat_step t lower true) (initial_chat ms) c →
  let c' := render t T' (stopGeneration t eager T c) in
  isGenerating c' = false ∧ calm (messages (view c')) ∧ updates (view c') = [] ∧ ∀ id, listening id c' = None.
Proof.
  intros Hms H. cbn zeta. destruct (chat_inv_reachable ms c Hms H) as [HI0 HT]. pose proof (inv_stop eager T c HI0 HT) as HI.
  assert (isGenerating (stopGeneration t eager T c) = false) as Hg by done.
  generalize dependent (stopGeneration t eager T c). intros c1 HI Hg.
  destruct (idle_spec _ HI Hg) as (_ & _ & Hsrc & _ & _ & _ & Hc).
  split; [done|]. split; [apply (Hc T')|]. split; [done|]. intros id.
  destruct (listening id _) as [s|] eqn:E; [|done]. apply listening_spec in E as (_ & _ & E & _).
  change (ctl (render t T' c1)) with (ctl c1) in E. congruence.
Qed.

(** ** Requests that are over *)

(** The first [n] sources are over: done, or opened for an older request. *)
Definition over (n : nat) (c : Chat) : Prop :=
  ∀ id, id < n → ∃ s, opened (ctl c) !! id = Some s ∧ (completed s = true ∨ src_request s < generation (ctl c)).

(** Generations only grow; sources stay what they are, completion stays, and a
    new one belongs to a request that was made. *)
Definition grows (k k' : Controller) : Prop :=
  generation k ≤ generation k' ∧
  (∀ id s, opened k !! id = Some s → ∃ s', opened k' !! id = Some s' ∧ src_request s' = src_request s ∧
    (completed s = true → completed s' = true)) ∧
  ∀ id s', opened k' !! id = Some s' →
    (∃ s, opened k !! id = Some s ∧ src_request s' = src_request s) ∨ src_request s' ≤ generation k'.

Lemma grows_same k g src w : generation k ≤ g → grows k (MkController g src (opened k) w).
Proof. intros L. split; [done|]. split; intros id s H; [by exists s|left; by exists s]. Qed.

Lemma grows_refl k : grows k k.
Proof. destruct k. by apply (grows_same (MkController _ _ _ _)). Qed.

Lemma grows_trans k1 k2 k3 : grows k1 k2 → grows k2 k3 → grows k1 k3.
Proof.
  intros (L1 & H1 & N1) (L2 & H2 & N2). split; [lia|]. split.
  - intros id s Hs. apply H1 in Hs as (s2 & Hs & E & C).
    apply H2 in Hs as (s3 & Hs & E' & C'). exists s3. split; [done|]. split; [congruence|auto].
  - intros id s Hs. apply N2 in Hs as [(s2 & Hs & E)|?]; [|by right].
    apply N1 in Hs as [(s1 & Hs & E')|?]; [left; exists s1; split; [done|congruence]|right; lia].
Qed.

Lemma over_grows n c c' : over n c → grows (ctl c) (ctl c') → over n c'.
Proof.
  intros H (L & G & _) id Hid. destruct (H id Hid) as (s & Hs & Ho). apply G in Hs as (s' & Hs' & E & C).
  exists s'. split; [done|]. destruct Ho; [left; auto|right; lia].
Qed.

Lemma grows_alter f id0 k src w g : generation k ≤ g → (∀ s, src_request (f s) = src_request s ∧ (completed s = true → completed (f s) = true)) →
  grows k (MkController g src (alter f id0 (opened k)) w).
Proof.
  intros L Hf. split; [done|]. split; intros id s Hs; cbn [opened] in *; (destruct (decide (id = id0)) as [->|Hne];
    [rewrite list_lookup_alter_eq in *|rewrite list_lookup_alter_ne in * by done]).
  - rewrite Hs. eexists. split; [done|]. apply Hf.
  - by exists s.
  - destruct (opened k !! id0) as [s0|] eqn:E; [|done]. injection Hs as <-. left. exists s0. split; [done|apply Hf].
  - left. by exists s.
Qed.

Lemma grows_close_if o k src w g : generation k ≤ g → grows k (MkController g src (close_if o (opened k)) w).
Proof. intros L. destruct o; [by apply grows_alter|by apply grows_same]. Qed.

Lemma grows_closeActive id c : grows (ctl c) (ctl (closeActiveSource id c)).
Proof. unfold closeActiveSource. case_match; by apply grows_alter. Qed.

Lemma grows_complete id c : grows (ctl c) (ctl (on_ctl (complete_source id) c)).
Proof. by apply grows_alter. Qed.

Lemma flush_ctl eager T g c : ctl (flushStreamUpdates t eager T g c) = ctl c.
Proof. unfold flushStreamUpdates. by repeat case_match. Qed.

Lemma complete_ctl eager T g c : ctl (handleStreamComplete t eager T g c) = ctl c.
Proof. unfold handleStreamComplete. case_match; [done|]. apply flush_ctl. Qed.

Lemma error_ctl eager T g e code c : ctl (handleStreamError t eager T g e code c).1 = ctl c.
Proof. unfold handleStreamError. case_match; [done|]. case_match; apply flush_ctl. Qed.

Lemma stream_update_ctl g type v c : ctl (handleStreamUpdate g type v c).1 = ctl c.
Proof.
  unfold handleStreamUpdate. case_match; [done|]. case_match; [done|].
  destruct type; (case_match; [|done]); unfold scheduleStreamFlush; by repeat case_match.
Qed.

Lemma stream_updates_ctl g us : ∀ c, ctl (run_stream_updates g us c).1 = ctl c.
Proof.
  induction us as [|[type v] us IH]; intros c; cbn [run_stream_updates]; [done|].
  pose proof (stream_update_ctl g type v c) as H. destruct (handleStreamUpdate g type v c) as [c' []]; [done|].
  cbn [fst] in H. by rewrite IH, H.
Qed.

Lemma grows_handleError eager T id e code c : grows (ctl c) (ctl (handleError t eager T id e code c)).
Proof.
  unfold handleError. destruct (listening id c) as [s|]; [|apply grows_refl].
  pose proof (error_ctl eager T (src_chat s) e code (on_ctl (complete_source id) c)) as H.
  destruct (handleStreamError _ _ _ _ _ _ _) as [c' []]; cbn [fst] in H.
  - rewrite H. apply grows_complete.
  - eapply grows_trans; [apply (grows_complete id)|]. rewrite <- H. apply grows_closeActive.
Qed.

Lemma settle_ctl g c : ctl (settle g c) = ctl c.
Proof. unfold settle. by case_match. Qed.

Lemma answered_ctl eager T i answer c : ctl (answered t eager T i answer c) = ctl c.
Proof.
  unfold answered, on_answer. case_match; [|done]. case_match; [by rewrite settle_ctl|].
  repeat case_match; rewrite settle_ctl, ?error_ctl; done.
Qed.

Lemma grows_headers eager T i headers starts c : grows (ctl c) (ctl (on_headers t eager T i headers starts c)).
Proof.
  unfold on_headers. destruct (waiting (ctl c) !! i) as [[[r g] p]|]; [|apply grows_refl].
  destruct (Nat.eqb _ r) eqn:E; cbn [negb]; [|by apply grows_same]. destruct headers as [m|[]]; [rewrite error_ctl; by apply grows_same|].
  set (c2 := setStreaming true _). assert (grows (ctl c) (ctl c2)) as H2.
  { split; [done|]. split; intros id s Hs; cbn [ctl c2 setStreaming on_view on_ctl opened generation] in *.
    - exists s. split; [by apply lookup_app_l_Some|done].
    - apply lookup_app_Some in Hs as [Hs|[_ Hs]]; [left; by exists s|]. right.
      destruct (id - _); [|done]. injection Hs as <-. apply Nat.eqb_eq in E. by rewrite E. }
  case_match; [done|]. eapply grows_trans; [done|]. apply grows_handleError.
Qed.

Lemma grows_send config enabled ms c : grows (ctl c) (ctl (sendChat lower config enabled ms c)).
Proof.
  unfold sendChat. case_match.
  - unfold sendStreamingChat. rewrite stream_send_ctl. cbn zeta. by apply grows_close_if; cbn; lia.
  - unfold sendNonStreamingChat. cbn [ctl setIsRequesting on_view abort_and_set discardPendingStreamUpdates set_pending clear_timer set_timer on_refs].
    rewrite cancel_ctl. cbn zeta. by apply grows_close_if; cbn; lia.
Qed.

Lemma grows_stop eager T c : grows (ctl c) (ctl (stopGeneration t eager T c)).
Proof.
  unfold stopGeneration. cbn [ctl onMessageUpdate setIsRequesting on_view abort_and_set on_refs].
  rewrite cancel_ctl. cbn zeta. set (c1 := discardPendingStreamUpdates _ _).
  assert (ctl c1 = ctl c) as -> by apply flush_ctl. apply grows_close_if. lia.
Qed.

Lemma grows_step o c c' : chat_step t lower o c c' → grows (ctl c) (ctl c').
Proof.
  intros H. destruct H; try apply grows_refl.
  - unfold on_flush_timer. repeat case_match; rewrite ?flush_ctl; apply grows_refl.
  - apply grows_headers.
  - unfold on_source_message. destruct (listening id c) as [s|]; [|apply grows_refl]. case_match.
    + rewrite complete_ctl. eapply grows_trans; [apply (grows_complete id)|apply grows_closeActive].
    + case_match; [|apply grows_handleError]. match goal with |- context [run_stream_updates ?g ?us c] =>
        pose proof (stream_updates_ctl g us c) as Hu; destruct (run_stream_updates g us c) as [c' []] end; cbn [fst] in Hu.
      * rewrite <- Hu. apply grows_handleError.
      * rewrite Hu. apply grows_refl.
  - unfold on_source_error. repeat case_match; try apply grows_refl. apply grows_handleError.
  - unfold on_ready_state. repeat case_match; try apply grows_refl. apply grows_handleError.
  - rewrite answered_ctl. apply grows_refl.
  - apply (grows_send config enabled _ (onMessageUpdate t eager T _ c)).
  - unfold handleRegenerateMessage. case_match; [|apply grows_refl].
    apply (grows_send config enabled _ (onMessageUpdate t eager T _ c)).
  - unfold applyEdit. case_match; [apply grows_refl|]. destruct (applyMessageEdit _ _ _ _ _ _) as [[ms []]|]; try apply grows_refl.
    apply (grows_send config enabled _ (onMessageUpdate t eager T _ c)).
  - apply grows_stop.
Qed.

Lemma over_deaf n id c : over n c → id < n → listening id c = None.
Proof.
  intros H Hid. destruct (listening id c) as [s|] eqn:E; [|done]. apply listening_spec in E as (Ho & Hg & _ & Hc).
  destruct (H id Hid) as (s' & Hs' & Hd). assert (s' = s) as -> by congruence. destruct Hd; [congruence|lia].
Qed.

Lemma over_steps n c c' : over n c → rtc (chat_step t lower false) c c' → over n c'.
Proof. intros H Hs. induction Hs as [|x y z Hxy _ IH]; [done|]. apply IH. eapply over_grows; [done|by eapply grows_step]. Qed.

(** Every source was opened for the current request or an older one. *)
Definition known (c : Chat) : Prop := ∀ id s, opened (ctl c) !! id = Some s → src_request s ≤ generation (ctl c).

Lemma known_reachable ms c : rtc (chat_step t lower false) (initial_chat ms) c → known c.
Proof.
  intros H. assert (known (initial_chat ms)) as H0 by done. revert H0.
  induction H as [|x y z Hxy _ IH]; [done|]. intros Hx. apply IH. intros id s Hs.
  eapply grows_step in Hxy as (L & _ & N). apply N in Hs as [(s0 & Hs & ->)|?]; [|done]. apply Hx in Hs. lia.
Qed.

(** A stop or a new request leaves every open source behind. *)
Lemma over_after c c' : known c → grows (ctl c) (ctl c') → generation (ctl c) < generation (ctl c') →
  over (length (opened (ctl c))) c'.
Proof.
  intros Hk (_ & G & _) L id Hid. apply lookup_lt_is_Some in Hid as [s Hs]. apply Hk in Hs as Hr.
  apply G in Hs as (s' & Hs' & E & _). exists s'. split; [done|]. right. lia.
Qed.

Lemma stop_generation eager T c : generation (ctl (stopGeneration t eager T c)) = S (generation (ctl c)).
Proof.
  unfold stopGeneration. cbn [ctl onMessageUpdate setIsRequesting on_view abort_and_set on_refs].
  rewrite cancel_ctl. cbn. by rewrite flush_ctl.
Qed.

Lemma send_generation config enabled ms c : generation (ctl (sendChat lower config enabled ms c)) = S (generation (ctl c)).
Proof.
  unfold sendChat. case_match.
  - unfold sendStreamingChat. by rewrite stream_send_ctl.
  - unfold sendNonStreamingChat. cbn [ctl setIsRequesting on_view abort_and_set discardPendingStreamUpdates set_pending clear_timer set_timer on_refs].
    by rewrite cancel_ctl.
Qed.

(** The latest request wins.  Once the user has stopped, or another request
    was sent, no event of a stream opened before changes anything, in any state
    the chat reaches from there. *)
Theorem superseded_silent ms c eager T c1 c2 id : rtc (chat_step t lower false) (initial_chat ms) c →
  c1 = stopGeneration t eager T c ∨ (∃ config enabled next, c1 = sendChat lower config enabled next c) →
  rtc (chat_step t lower false) c1 c2 → id < length (opened (ctl c)) →
  listening id c2 = None ∧ ∀ eager' T' data readyState status,
    on_source_message t eager' T' id data c2 = c2 ∧
    on_source_error t eager' T' id readyState data c2 = c2 ∧
    on_ready_state t eager' T' id readyState status c2 = c2.
Proof.
  intros Hc H1 H2 Hid. assert (over (length (opened (ctl c))) c1) as Ho.
  { apply known_reachable in Hc. destruct H1 as [-> | (config & enabled & next & ->)]; apply over_after; try done.
    - apply grows_stop. - rewrite stop_generation; lia. - apply grows_send. - rewrite send_generation; lia. }
  assert (listening id c2 = None) as Hl by (eapply over_deaf; [by eapply over_steps|done]).
  split; [done|]. intros. unfold on_source_message, on_source_error, on_ready_state. by rewrite Hl.
Qed.
End Lifecycle.

(** ** A run *)

Definition sent : Chat :=
  handleSendMessage id toLowerCase false still sample_config sample_enabled sample_ids "Hi" (initial_chat []).
Definition opened_stream : Chat := render id still (on_headers id false still 0 (inr ()) true sent).
Definition one_piece : Chat := render id still (on_source_message id false still 0 (Some (piece "Hel")) opened_stream).

Lemma one_piece_reachable o : rtc (chat_step id toLowerCase o) (initial_chat []) one_piece.
Proof.
  eapply rtc_l; [by apply (step_send id toLowerCase _ _ false still sample_config sample_enabled sample_ids "Hi")|].
  eapply rtc_l; [apply (step_headers _ _ _ _ false still 0 (inr ()) true)|].
  eapply rtc_l; [apply (step_render _ _ _ _ still)|].
  eapply rtc_l; [apply (step_message _ _ _ _ false still 0 (Some (piece "Hel")))|].
  eapply rtc_l; [apply (step_render _ _ _ _ still)|]. apply rtc_refl.
Qed.


Lemma stop_settles_witness :
  isGenerating one_piece = true ∧
  let c' := render id still (stopGeneration id false still one_piece) in
  isGenerating c' = false ∧ calm (messages (view c')) ∧ updates (view c') = [] ∧ ∀ i, listening i c' = None.
Proof.
  split; [vm_compute; reflexivity|].
  apply (stop_settles id toLowerCase [] one_piece false still still); [constructor|apply one_piece_reachable].
Defined.

Definition stopped_late : Chat := render id still (stopGeneration id false still one_piece).

Lemma superseded_silent_witness :
  listening 0 stopped_late = None ∧ ∀ eager' T' data readyState status,
    on_source_message id eager' T' 0 data stopped_late = stopped_late ∧
    on_source_error id eager' T' 0 readyState data stopped_late = stopped_late ∧
    on_ready_state id eager' T' 0 readyState status stopped_late = stopped_late.
Proof.
  apply (superseded_silent id toLowerCase [] one_piece false still (stopGeneration id false still one_piece));
    [apply one_piece_reachable|by left|apply rtc_once, (step_render id toLowerCase false)|vm_compute; lia].
Defined.

(** An error event whose message is no text: the handler throws after the flags
    are set and before the message is failed and the source closed. *)
Definition odd_error : jsstr :=
  default [] (JSON_stringify (VObj [("error"%js, VObj [("message"%js, VNum (of_Z 5))])])).

Lemma odd_error_leaves_message :
  let c' := render id still (on_source_error id false still 0 (Some 1%Z) (Some odd_error) one_piece) in
  isRequesting (view c') = false ∧ isStreaming (view c') = true ∧ listening 0 c' = None ∧
  (unfinished <$> last (messages (view c'))) = Some true.
Proof. vm_compute. repeat split. Qed.

(** A connection that closes with status 200 and without the final event: the
    chat goes on waiting. *)
Lemma silent_close_waits :
  on_source_error id false still 0 (Some 2%Z) None (on_ready_state id false still 0 (Some 2%Z) (Some 200%Z) one_piece) = one_piece ∧
  isGenerating one_piece = true.
Proof. vm_compute. by split. Qed.

End PlaygroundLifecycle.
