(* ===== verification/PlaygroundStorage.v ===== *)
(** * Storage of the playground ([web/src/features/playground/lib/storage/])

    Settings and messages are kept in the browser's storage as JSON in an
    envelope with a version.  The storage is a map; whether it has room for an
    item is a parameter ([accepts]).  The schemas are those of
    [storage-schema.ts], as the library zod reads them. *)

From S2P Require Import Prelude JsString JsNumber JsValue JsRegExp JsMap JsonRoundTrip PlaygroundMessages PlaygroundChat.

Module PlaygroundStorage.
Import PlaygroundMessages PlaygroundChat.

Definition CONFIG_KEY : jsstr := "playground_config".
Definition MESSAGES_KEY : jsstr := "playground_messages".
Definition PARAMETER_ENABLED_KEY : jsstr := "playground_parameter_enabled".

Definition STORAGE_VERSION : Z := 1.
Definition MAX_STORED_MESSAGES : nat := 100.
Definition MAX_STORED_MESSAGES_BYTES : Z := 1024 * 1024.
Definition MAX_LOADED_MESSAGES_CHARS : Z := 120000.
Definition MAX_LOADED_MESSAGE_CHARS : Z := 40000.

Definition TRUNCATED_CONTENT_SUFFIX : jsstr := [10; 10; 91; 46; 46; 46; 93]%N.
Definition MIN_PREFIX_COLLAPSE_LENGTH : Z := 2000.
Definition MIN_REPEATED_SECTION_COUNT : nat := 3.

(** [s.length] as an integer; the limits are too large for unary numbers. *)
Definition zlen {A} (l : list A) : Z := Z.of_nat (length l).

(** ** Messages as data *)

Definition role_text (r : MessageRole) : jsstr := match r with user => "user" | assistant => "assistant" | system => "system" end.
Definition status_text (s : MessageStatus) : jsstr :=
  match s with loading => "loading" | streaming => "streaming" | complete => "complete" | error => "error" end.

Definition opt_value {A} (f : A → value) (o : option A) : value := match o with Some a => f a | None => VUndef end.

Definition version_value (v : MessageVersion) : value :=
  VObj [("id"%js, VStr (version_id v)); ("content"%js, VStr (content v))].
Definition source_value (s : jsstr * jsstr) : value := VObj [("href"%js, VStr s.1); ("title"%js, VStr s.2)].
Definition reasoning_value (r : Reasoning) : value :=
  VObj [("content"%js, VStr (r_content r)); ("duration"%js, VNum (r_duration r));
        ("startedAt"%js, opt_value VNum (r_startedAt r)); ("completedAt"%js, opt_value VNum (r_completedAt r));
        ("durationMs"%js, opt_value VNum (r_durationMs r))].

(** The members in the order the schema names them. *)
Definition message_value (m : Message) : value :=
  VObj [("key"%js, VStr (key m)); ("from"%js, VStr (role_text (from m)));
        ("versions"%js, VArr (version_value <$> versions m));
        ("createdAt"%js, opt_value VNum (createdAt m)); ("startedAt"%js, opt_value VNum (startedAt m));
        ("completedAt"%js, opt_value VNum (completedAt m)); ("durationMs"%js, opt_value VNum (durationMs m));
        ("sources"%js, opt_value (λ l, VArr (source_value <$> l)) (sources m));
        ("reasoning"%js, opt_value reasoning_value (reasoning m));
        ("isReasoningStreaming"%js, opt_value VBool (isReasoningStreaming m));
        ("isReasoningComplete"%js, opt_value VBool (isReasoningComplete m));
        ("isContentComplete"%js, opt_value VBool (isContentComplete m));
        ("status"%js, opt_value (λ s, VStr (status_text s)) (status m));
        ("errorCode"%js, errorCode m)].
Definition messages_value (ms : list Message) : value := VArr (message_value <$> ms).

(** ** Schemas ([storage-schema.ts])

    What the schemas of zod accept and give; [None] when [parse] throws.  A
    number is finite; an optional member may be missing. *)

Definition z_string (v : value) : option jsstr := match v with VStr s => Some s | _ => None end.
Definition z_number (v : value) : option number := match v with VNum x => if is_finite x then Some x else None | _ => None end.
Definition z_boolean (v : value) : option bool := match v with VBool b => Some b | _ => None end.
Definition z_array {A} (f : value → option A) (v : value) : option (list A) := match v with VArr vs => mapM f vs | _ => None end.
Definition z_optional {A} (f : value → option A) (v : value) : option (option A) :=
  match v with VUndef => Some None | _ => Some <$> f v end.

Definition messageRoleSchema (v : value) : option MessageRole :=
  s ← z_string v;
  if str_eqb s "user" then Some user else if str_eqb s "assistant" then Some assistant
  else if str_eqb s "system" then Some system else None.
Definition messageStatusSchema (v : value) : option MessageStatus :=
  s ← z_string v;
  if str_eqb s "loading" then Some loading else if str_eqb s "streaming" then Some streaming
  else if str_eqb s "complete" then Some complete else if str_eqb s "error" then Some error else None.
Definition messageVersionSchema (v : value) : option MessageVersion :=
  i ← z_string (prop v "id"); s ← z_string (prop v "content"); Some (MkVersion i s).
Definition sourceSchema (v : value) : option (jsstr * jsstr) :=
  h ← z_string (prop v "href"); s ← z_string (prop v "title"); Some (h, s).
Definition reasoningSchema (v : value) : option Reasoning :=
  s ← z_string (prop v "content"); d ← z_number (prop v "duration"); a ← z_optional z_number (prop v "startedAt");
  b ← z_optional z_number (prop v "completedAt"); e ← z_optional z_number (prop v "durationMs"); Some (MkReasoning s d a b e).

(** [z.string().nullable().optional()] *)
Definition error_code_schema (v : value) : option value := match v with VUndef | VNull | VStr _ => Some v | _ => None end.
(** [.min(1)] *)
Definition min_one (vs : list MessageVersion) : option (list MessageVersion) :=
  match vs with [] => None | _ => Some vs end.

Definition messageSchema (v : value) : option Message :=
  k ← z_string (prop v "key"); f ← messageRoleSchema (prop v "from"); vs ← (z_array messageVersionSchema (prop v "versions") ≫= min_one);
  t1 ← z_optional z_number (prop v "createdAt"); t2 ← z_optional z_number (prop v "startedAt");
  t3 ← z_optional z_number (prop v "completedAt"); t4 ← z_optional z_number (prop v "durationMs");
  ss ← z_optional (z_array sourceSchema) (prop v "sources"); r ← z_optional reasoningSchema (prop v "reasoning");
  b1 ← z_optional z_boolean (prop v "isReasoningStreaming"); b2 ← z_optional z_boolean (prop v "isReasoningComplete");
  b3 ← z_optional z_boolean (prop v "isContentComplete"); s ← z_optional messageStatusSchema (prop v "status");
  e ← error_code_schema (prop v "errorCode"); Some (MkMessage k f vs t1 t2 t3 t4 ss r b1 b2 b3 s e).
Definition messagesSchema : value → option (list Message) := z_array messageSchema.

(** An object of optional members: those named that have a value. *)
Definition z_members (shape : list (jsstr * (value → bool))) (v : value) : option value :=
  match v with
  | VObj _ =>
    if forallb (λ p, is_undefined (prop v p.1) || p.2 (prop v p.1)) shape
    then Some (VObj (omap (λ p, if is_undefined (prop v p.1) then None else Some (p.1, prop v p.1)) shape))
    else None
  | _ => None
  end.

Definition z_finite (v : value) : bool := match v with VNum x => is_finite x | _ => false end.

Definition playgroundConfigSchema : value → option value :=
  z_members [("model"%js, is_string); ("group"%js, is_string); ("temperature"%js, z_finite); ("top_p"%js, z_finite);
             ("max_tokens"%js, z_finite); ("frequency_penalty"%js, z_finite); ("presence_penalty"%js, z_finite);
             ("seed"%js, λ v, match v with VNull => true | _ => z_finite v end); ("stream"%js, is_boolean)].

Definition parameterEnabledSchema : value → option value :=
  z_members [("temperature"%js, is_boolean); ("top_p"%js, is_boolean); ("max_tokens"%js, is_boolean);
             ("frequency_penalty"%js, is_boolean); ("presence_penalty"%js, is_boolean); ("seed"%js, is_boolean)].

(** ** Trimming *)

Definition trimMessages (ms : list Message) : list Message :=
  if Nat.leb (length ms) MAX_STORED_MESSAGES then ms else drop (length ms - MAX_STORED_MESSAGES) ms.

Definition getMessageSize (m : Message) : Z :=
  fold_left (λ total v, total + zlen (content v))%Z (versions m) 0%Z + default 0%Z ((λ r, zlen (r_content r)) <$> reasoning m).

Definition truncateText (text : jsstr) (maxLength : Z) : jsstr :=
  if (zlen text <=? maxLength)%Z then text
  else if (maxLength <=? zlen TRUNCATED_CONTENT_SUFFIX)%Z then take (Z.to_nat maxLength) text
  else take (Z.to_nat (maxLength - zlen TRUNCATED_CONTENT_SUFFIX)) text ++ TRUNCATED_CONTENT_SUFFIX.

(** ** Repeated sections *)

Definition SECTION_HEADING_LINE_PATTERN : re :=
  seqs [LineStart; lit_re "##"; Opt (lit_re "#"); Opt (lit_re "#"); Opt (lit_re "#"); Opt (lit_re "#");
        Plus space; Plus digit; lit_re "."; Plus space; Plus any; LineEnd].

(** The headings with their positions. *)
Definition getSectionOccurrences (text : jsstr) : list (jsstr * nat) :=
  (λ m, (m_text m, m_index m)) <$> exec_all SECTION_HEADING_LINE_PATTERN text.

Definition getHeadingCounts (occurrences : list (jsstr * nat)) : list (jsstr * nat) :=
  fold_left (λ counts o, map_set counts o.1 (default 0 (map_get counts o.1) + 1)) occurrences [].

(** The loop from the last occurrence: the positions pushed, given the headings
    seen. *)
Fixpoint repeated_indexes (counts : list (jsstr * nat)) (occurrences : list (jsstr * nat)) (seen : list jsstr) : list nat :=
  match occurrences with
  | [] => []
  | o :: rest =>
    if Nat.ltb (default 0 (map_get counts o.1)) MIN_REPEATED_SECTION_COUNT || bool_decide (o.1 ∈ seen)
    then repeated_indexes counts rest seen
    else o.2 :: repeated_indexes counts rest (o.1 :: seen)
  end.

Definition findLastRepeatedSectionRunStart (text : jsstr) : option nat :=
  let occurrences := getSectionOccurrences text in
  match repeated_indexes (getHeadingCounts occurrences) (reverse occurrences) [] with
  | [] => None
  | i :: is' => Some (fold_left Nat.min is' i)
  end.

Definition collapseRepeatedSectionSnapshots (text : jsstr) : jsstr :=
  if (zlen text <? MIN_PREFIX_COLLAPSE_LENGTH)%Z then text
  else match findLastRepeatedSectionRunStart text with
       | None => text
       | Some i => drop i text
       end.

(** ** Loading *)

Definition normalize_version (v : MessageVersion) : MessageVersion :=
  MkVersion (version_id v) (truncateText (collapseRepeatedSectionSnapshots (content v)) MAX_LOADED_MESSAGE_CHARS).

(** The message before it is finished; unchanged texts leave it as it is. *)
Definition normalize_texts (m : Message) : Message :=
  with_reasoning ((λ r, set_reasoning_content (truncateText (r_content r) MAX_LOADED_MESSAGE_CHARS) r) <$> reasoning m)
    (with_versions (normalize_version <$> versions m) m).

Definition normalizeStoredMessageForLoad (m : Message) (T : Clock) : Message :=
  let normalized := normalize_texts m in
  if negb (isAssistantMessagePending normalized) then normalized
  else
    let hasReasoning := nonempty (default [] ((λ r, trim (r_content r)) <$> reasoning normalized)) in
    if negb (hasMessageContent normalized) && negb hasReasoning then normalized
    else
      let completed := default (T 2)
        (or_else (completedAt normalized) (or_else (reasoning normalized ≫= r_completedAt)
           (or_else (startedAt normalized) (createdAt normalized)))) in
      completeAssistantTiming
        (with_reasoning_streaming false (with_status complete (finalizeMessage normalized None T))) completed.

(** The loop from the last message: what is kept, given the messages kept and
    their size so far. *)
Fixpoint keep_fitting (ms : list Message) (kept : nat) (totalSize : Z) : list Message :=
  match ms with
  | [] => []
  | m :: rest =>
    if Nat.ltb 0 kept && (MAX_LOADED_MESSAGES_CHARS <? totalSize + getMessageSize m)%Z then []
    else m :: keep_fitting rest (S kept) (totalSize + getMessageSize m)
  end.

Definition trimMessagesByContentSize (ms : list Message) : list Message := reverse (keep_fitting (reverse ms) 0 0).

Section Storage.
Context (accepts : gmap jsstr jsstr → jsstr → jsstr → bool) (t : jsstr → jsstr).

(** [localStorage.setItem]; [None] when it throws. *)
Definition setItem (k text : jsstr) (st : gmap jsstr jsstr) : option (gmap jsstr jsstr) :=
  if accepts st k text then Some (<[k := text]> st) else None.

(** [None] when it throws, [Some None] when nothing is stored. *)
Definition readStoredValue (k : jsstr) (st : gmap jsstr jsstr) : option (option value) :=
  match st !! k with
  | Some saved => if nonempty saved then Some <$> JSON_parse saved else Some None
  | None => Some None
  end.

(** With the storage after it: a text that is too long is removed. *)
Definition readStoredMessagesValue (st : gmap jsstr jsstr) : option (option value) * gmap jsstr jsstr :=
  match st !! MESSAGES_KEY with
  | Some saved =>
    if negb (nonempty saved) then (Some None, st)
    else if (MAX_STORED_MESSAGES_BYTES <? zlen saved)%Z then (Some None, delete MESSAGES_KEY st)
    else (Some <$> JSON_parse saved, st)
  | None => (Some None, st)
  end.

Definition unwrapStoredValue (v : value) : value :=
  match v with
  | VObj fs =>
    match obj_get fs "version", obj_get fs "data" with
    | Some _, Some data => data
    | _, _ => v
    end
  | _ => v
  end.

Definition writeStoredValue (k : jsstr) (data : value) (st : gmap jsstr jsstr) : option (gmap jsstr jsstr) :=
  match JSON_stringify (VObj [("version"%js, VNum (of_Z STORAGE_VERSION)); ("data"%js, data)]) with
  | Some text => setItem k text st
  | None => None
  end.

Definition loadConfig (st : gmap jsstr jsstr) : value :=
  match readStoredValue CONFIG_KEY st with
  | Some (Some saved) =>
    if truthy saved then default (VObj []) (playgroundConfigSchema (unwrapStoredValue saved)) else VObj []
  | _ => VObj []
  end.

Definition saveConfig (config : value) (st : gmap jsstr jsstr) : gmap jsstr jsstr :=
  match playgroundConfigSchema config with
  | Some parsed => default st (writeStoredValue CONFIG_KEY parsed st)
  | None => st
  end.

Definition loadParameterEnabled (st : gmap jsstr jsstr) : value :=
  match readStoredValue PARAMETER_ENABLED_KEY st with
  | Some (Some saved) =>
    if truthy saved then default (VObj []) (parameterEnabledSchema (unwrapStoredValue saved)) else VObj []
  | _ => VObj []
  end.

Definition saveParameterEnabled (enabled : value) (st : gmap jsstr jsstr) : gmap jsstr jsstr :=
  match parameterEnabledSchema enabled with
  | Some parsed => default st (writeStoredValue PARAMETER_ENABLED_KEY parsed st)
  | None => st
  end.

Definition saveMessages (ms : list Message) (st : gmap jsstr jsstr) : gmap jsstr jsstr :=
  match messagesSchema (messages_value (trimMessages ms)) with
  | Some parsed => default st (writeStoredValue MESSAGES_KEY (messages_value parsed) st)
  | None => st
  end.

(** The messages as they are after loading; [T i] are the clock readings for
    the [i]-th of them, [T0] those of the end. *)
Definition restore (parsed : list Message) (T : nat → Clock) (T0 : Clock) : list Message :=
  sanitizeMessagesOnLoad t
    (trimMessagesByContentSize (trimMessages (imap (λ i m, normalizeStoredMessageForLoad m (T i)) parsed))) T0.

(** With the storage after it.  [trimMessagesByContentSize] always makes a new
    array, so the comparison by reference always finds a difference and the
    result is always saved. *)
Definition loadMessages (st : gmap jsstr jsstr) (T : nat → Clock) (T0 : Clock) : option (list Message) * gmap jsstr jsstr :=
  match readStoredMessagesValue st with
  | (Some (Some saved), st) =>
    if negb (truthy saved) then (None, st)
    else match messagesSchema (unwrapStoredValue saved) with
         | Some parsed => let sanitized := restore parsed T T0 in (Some sanitized, saveMessages sanitized st)
         | None => (None, st)
         end
  | (_, st) => (None, st)
  end.

Definition clearPlaygroundData (st : gmap jsstr jsstr) : gmap jsstr jsstr :=
  delete MESSAGES_KEY (delete PARAMETER_ENABLED_KEY (delete CONFIG_KEY st)).
End Storage.

(** Three snapshots of two sections: the last one is kept. *)
Example collapse_example :
  let body := ("## 1. One" ++ [10%N] ++ "a" ++ [10%N] ++ "## 2. Two" ++ [10%N] ++ "b" ++ [10%N])%js in
  findLastRepeatedSectionRunStart (body ++ body ++ body) = Some (2 * length body).
Proof. vm_compute. reflexivity. Qed.

End PlaygroundStorage.
