(* ===== verification/PlaygroundStorageFacts.v ===== *)
(** * Properties of the playground's storage

    The schema reads messages as they were saved; what is kept when a stored
    conversation is loaded, that none of its messages is left unfinished, and
    that a saved conversation is read back. *)

From S2P Require Import Prelude JsString JsNumber JsInteger JsValue JsMap JsonRoundTrip PlaygroundMessages PlaygroundMessagesFacts PlaygroundChat PlaygroundChatFacts PlaygroundLifecycle PlaygroundStorage.

Module PlaygroundStorageFacts.
Import PlaygroundMessages PlaygroundMessagesFacts PlaygroundChat PlaygroundChatFacts PlaygroundLifecycle PlaygroundStorage.

(** ** The schema of messages *)

(** A message the schema accepts. *)
Definition storable (m : Message) : Prop :=
  versions m ≠ [] ∧ match errorCode m with VUndef | VNull | VStr _ => True | _ => False end ∧
  Forall (λ x, is_finite x = true)
    (omap id [createdAt m; startedAt m; completedAt m; durationMs m;
              reasoning m ≫= r_startedAt; reasoning m ≫= r_completedAt; reasoning m ≫= r_durationMs; r_duration <$> reasoning m]).

Lemma z_optional_value {A} (f : A → value) (g : value → option A) o : (∀ a, o = Some a → is_undefined (f a) = false ∧ g (f a) = Some a) →
  z_optional g (opt_value f o) = Some o.
Proof.
  intros H. destruct o as [a|]; [|done]. destruct (H a eq_refl) as [H1 H2]. cbn [opt_value]. unfold z_optional.
  destruct (f a) eqn:E; try done; by rewrite H2.
Qed.

Lemma z_array_value {A} (f : A → value) (g : value → option A) l : (∀ a, g (f a) = Some a) → z_array g (VArr (f <$> l)) = Some l.
Proof.
  intros H. unfold z_array. apply mapM_Some. induction l; [constructor|]. constructor; [apply H|done].
Qed.

(** A value as it was saved: with or without its missing members. *)
Definition kept (b : bool) (v : value) : value := if b then defined v else v.

Lemma kept_opt {A} (f : A → value) b o : (∀ a, o = Some a → defined (f a) = f a) → kept b (opt_value f o) = opt_value f o.
Proof. intros H. destruct b, o as [a|]; try done. by apply H. Qed.

Lemma kept_list {A} (f : A → value) b l : (∀ a, is_undefined (f a) = false ∧ defined (f a) = f a) →
  kept b (VArr (f <$> l)) = VArr (f <$> l).
Proof.
  intros H. destruct b; [|done]. cbn [kept defined]. f_equal. rewrite <- list_fmap_compose. induction l as [|a l IH]; [done|].
  cbn. destruct (H a) as [-> ->]. by f_equal.
Qed.

Lemma z_number_finite x : is_finite x = true → z_number (VNum x) = Some x.
Proof. unfold z_number. by intros ->. Qed.

Lemma z_optional_num b o : Forall (λ x, is_finite x = true) (omap id [o]) → z_optional z_number (kept b (opt_value VNum o)) = Some o.
Proof.
  intros H. rewrite kept_opt by done. apply z_optional_value. intros x ->. split; [done|]. cbn in H. apply (proj1 (Forall_singleton _ _)) in H.
  by apply z_number_finite.
Qed.

Lemma messageRoleSchema_text r : messageRoleSchema (VStr (role_text r)) = Some r.
Proof. by destruct r. Qed.

Lemma messageStatusSchema_text s : messageStatusSchema (VStr (status_text s)) = Some s.
Proof. by destruct s. Qed.

Lemma messageVersionSchema_value x : messageVersionSchema (version_value x) = Some x.
Proof. by destruct x. Qed.

Lemma sourceSchema_value x : sourceSchema (source_value x) = Some x.
Proof. by destruct x. Qed.

(** The members of a record of the schema, saved or not. *)
Lemma prop_kept b fs k : NoDup (fs.*1) → prop (kept b (VObj fs)) k = kept b (prop (VObj fs) k).
Proof. intros H. destruct b; [by apply prop_defined|done]. Qed.

Lemma reasoningSchema_value b r :
  Forall (λ x, is_finite x = true) (omap id [r_startedAt r; r_completedAt r; r_durationMs r; Some (r_duration r)]) →
  reasoningSchema (kept b (reasoning_value r)) = Some r.
Proof.
  intros H. assert (∀ o, o ∈ [r_startedAt r; r_completedAt r; r_durationMs r; Some (r_duration r)] →
    z_optional z_number (kept b (opt_value VNum o)) = Some o) as Hn.
  { intros o Ho. apply z_optional_num. rewrite Forall_forall in *. intros x Hx. apply H.
    apply list_elem_of_omap in Hx as (o' & [-> |[]%not_elem_of_nil]%elem_of_cons & E). apply list_elem_of_omap. by exists o. }
  unfold reasoningSchema, reasoning_value. rewrite !prop_kept by (apply (bool_decide_eq_true_1 (NoDup _)); by vm_compute).
  change (prop _ "content") with (VStr (r_content r)). change (prop _ "duration") with (VNum (r_duration r)).
  change (prop _ "startedAt") with (opt_value VNum (r_startedAt r)).
  change (prop _ "completedAt") with (opt_value VNum (r_completedAt r)).
  change (prop _ "durationMs") with (opt_value VNum (r_durationMs r)).
  rewrite (Hn (r_startedAt r)), (Hn (r_completedAt r)), (Hn (r_durationMs r)) by (rewrite !elem_of_cons; tauto).
  assert (z_number (kept b (VNum (r_duration r))) = Some (r_duration r)) as ->.
  { specialize (Hn (Some (r_duration r)) ltac:(set_solver)). cbn [opt_value] in Hn. destruct b; cbn in *; by case_match. }
  destruct b, r; done.
Qed.

Lemma messageSchema_value b m : storable m → messageSchema (kept b (message_value m)) = Some m.
Proof.
  intros (Hv & He & Hn). assert (∀ o, o ∈ [createdAt m; startedAt m; completedAt m; durationMs m] →
    z_optional z_number (kept b (opt_value VNum o)) = Some o) as Ht.
  { intros o Ho. apply z_optional_num. rewrite Forall_forall in *. intros x Hx. apply Hn.
    apply list_elem_of_omap in Hx as (o' & [-> |[]%not_elem_of_nil]%elem_of_cons & E). apply list_elem_of_omap.
    exists o. split; [|done]. rewrite !elem_of_cons in *. tauto. }
  assert (z_optional reasoningSchema (kept b (opt_value reasoning_value (reasoning m))) = Some (reasoning m)) as Hr.
  { destruct (reasoning m) as [r|] eqn:E; [|by destruct b]. cbn [opt_value]. unfold z_optional.
    rewrite (reasoningSchema_value b r); [by destruct b|]. rewrite Forall_forall in *. intros x Hx. apply Hn.
    apply list_elem_of_omap in Hx as (o & Ho & Eo). apply list_elem_of_omap. exists o. split; [|done].
    cbn [mbind option_bind fmap option_fmap option_map]. set_solver. }
  unfold messageSchema, message_value. rewrite !prop_kept by (apply (bool_decide_eq_true_1 (NoDup _)); by vm_compute).
  change (prop _ "key") with (VStr (key m)). change (prop _ "from") with (VStr (role_text (from m))).
  change (prop _ "versions") with (VArr (version_value <$> versions m)).
  change (prop _ "createdAt") with (opt_value VNum (createdAt m)). change (prop _ "startedAt") with (opt_value VNum (startedAt m)).
  change (prop _ "completedAt") with (opt_value VNum (completedAt m)). change (prop _ "durationMs") with (opt_value VNum (durationMs m)).
  change (prop _ "sources") with (opt_value (λ l, VArr (source_value <$> l)) (sources m)).
  change (prop _ "reasoning") with (opt_value reasoning_value (reasoning m)).
  change (prop _ "isReasoningStreaming") with (opt_value VBool (isReasoningStreaming m)).
  change (prop _ "isReasoningComplete") with (opt_value VBool (isReasoningComplete m)).
  change (prop _ "isContentComplete") with (opt_value VBool (isContentComplete m)).
  change (prop _ "status") with (opt_value (λ s, VStr (status_text s)) (status m)).
  change (prop _ "errorCode") with (errorCode m).
  rewrite (Ht (createdAt m)), (Ht (startedAt m)), (Ht (completedAt m)), (Ht (durationMs m)), Hr by (rewrite !elem_of_cons; tauto).
  rewrite (kept_list version_value), (z_array_value version_value) by (try apply messageVersionSchema_value; by intros []).
  rewrite (kept_opt _ b (sources m)) by (intros l _; apply (kept_list source_value true); by intros []).
  rewrite (z_optional_value _ _ (sources m)) by (intros l _; split; [done|]; apply z_array_value, sourceSchema_value).
  rewrite !(kept_opt VBool) by done. rewrite !(z_optional_value VBool) by done.
  rewrite (kept_opt _ b (status m)) by done. rewrite (z_optional_value _ _ (status m)) by (intros st _; split; [done|apply messageStatusSchema_text]).
  assert (error_code_schema (kept b (errorCode m)) = Some (errorCode m)) as -> by (destruct b; by destruct (errorCode m)).
  destruct (versions m) eqn:Ev; [done|]. destruct b; cbn [kept defined]; rewrite messageRoleSchema_text;
    destruct m; cbn in *; by rewrite Ev.
Qed.

Lemma messages_read b ms : Forall storable ms → messagesSchema (kept b (messages_value ms)) = Some ms.
Proof.
  intros Hms. assert (mapM messageSchema ((λ m, kept b (message_value m)) <$> ms) = Some ms) as H.
  { apply mapM_Some. induction Hms; constructor; [by apply messageSchema_value|done]. }
  destruct b; [|done]. unfold messages_value. cbn [kept defined messagesSchema z_array]. etransitivity; [|exact H]. f_equal.
  change (map ?f ?l) with (f <$> l). rewrite <- list_fmap_compose. by apply list_fmap_ext.
Qed.

(** ** Restoring *)

Lemma keep_fitting_prefix ms : ∀ n z, keep_fitting ms n z `prefix_of` ms.
Proof.
  induction ms as [|m ms IH]; intros n z; cbn [keep_fitting]; [done|]. case_match; [apply prefix_nil|by apply prefix_cons].
Qed.

Definition size (ms : list Message) : Z := foldr (λ m z, getMessageSize m + z)%Z 0%Z ms.

Lemma size_app a b : size (a ++ b) = (size a + size b)%Z.
Proof. induction a as [|m a IH]; [done|]. cbn. unfold size in *. lia. Qed.

(** The kept messages fit, or are just one; one more would not. *)
Lemma keep_fitting_spec ms : ∀ n z k r, keep_fitting ms n z = k → ms = k ++ r →
  (0 < n ∨ (k = [] → ms = [])) ∧
  ((z + size k <= MAX_LOADED_MESSAGES_CHARS)%Z ∨ k = [] ∨ (n = 0 ∧ length k = 1)) ∧
  (∀ m r', r = m :: r' → (MAX_LOADED_MESSAGES_CHARS < z + size (k ++ [m]))%Z).
Proof.
  induction ms as [|m ms IH]; intros n z k r; cbn [keep_fitting].
  { intros <- Er. cbn in Er. subst r. split; [by right|]. split; [by right; left|]. intros ? ? [=]. }
  destruct (Nat.ltb 0 n && _) eqn:E; intros <- Er.
  - bool_hyps. apply Nat.ltb_lt in H. split; [by left|]. split; [by right; left|].
    intros m' r' ->. injection Er as <- <-. cbn. lia.
  - injection Er as Er. destruct (IH (S n) _ _ _ eq_refl Er) as (_ & H2 & H3).
    split; [by right|]. split.
    + destruct H2 as [H2|[H2|[]]]; [left; cbn; unfold size in *; lia| |done]. rewrite H2. cbn.
      apply andb_false_iff in E as [E|E]; [apply Nat.ltb_ge in E; right; right; split; [lia|done]|left; lia].
    + intros m' r' ->. specialize (H3 m' r' eq_refl). cbn. unfold size in *. lia.
Qed.

(** The trimmed list is the end of the list that still fits. *)
Lemma trim_by_size ms : ∃ pre, ms = pre ++ trimMessagesByContentSize ms ∧
  (ms ≠ [] → trimMessagesByContentSize ms ≠ []) ∧
  ((size (trimMessagesByContentSize ms) <= MAX_LOADED_MESSAGES_CHARS)%Z ∨ length (trimMessagesByContentSize ms) = 1) ∧
  (∀ m, last pre = Some m → (MAX_LOADED_MESSAGES_CHARS < size (m :: trimMessagesByContentSize ms))%Z).
Proof.
  assert (∀ l, size (reverse l) = size l) as Hrev.
  { induction l as [|x l IH]; [done|]. rewrite reverse_cons, size_app. cbn in *. unfold size in *. lia. }
  unfold trimMessagesByContentSize. set (k := keep_fitting (reverse ms) 0 0).
  destruct (keep_fitting_prefix (reverse ms) 0 0) as [r Hr]. fold k in Hr.
  destruct (keep_fitting_spec (reverse ms) 0 0 k r eq_refl Hr) as (H1 & H2 & H3).
  exists (reverse r). split; [by rewrite <- reverse_app, <- Hr, reverse_involutive|]. split; [|split].
  - intros Hms Hk. apply Hms. rewrite <- (reverse_involutive ms). destruct H1 as [|H1]; [lia|].
    rewrite H1; [done|]. rewrite <- (reverse_involutive k), Hk. done.
  - rewrite Hrev, length_reverse. destruct H2 as [H2|[H2|[_ H2]]]; [by left|left; by rewrite H2|by right].
  - intros m Hm. destruct r as [|m' r']; [done|]. rewrite reverse_cons, last_snoc in Hm. injection Hm as ->.
    specialize (H3 m r' eq_refl). rewrite size_app in H3. cbn in *. rewrite Hrev. unfold size in *. lia.
Qed.

Lemma trimMessages_suffix ms : ∃ pre, ms = pre ++ trimMessages ms ∧ length (trimMessages ms) <= MAX_STORED_MESSAGES ∧
  (pre ≠ [] → length (trimMessages ms) = MAX_STORED_MESSAGES).
Proof.
  unfold trimMessages. destruct (Nat.leb_spec (length ms) MAX_STORED_MESSAGES).
  - by exists [].
  - exists (take (length ms - MAX_STORED_MESSAGES) ms). rewrite take_drop, length_drop. split; [done|]. lia.
Qed.

(** At most the last message is unfinished. *)
Definition settled_but_last (ms : list Message) : Prop := calm ms ∨ last_open ms.

Lemma suffix_settled pre ms : settled_but_last (pre ++ ms) → settled_but_last ms.
Proof.
  intros [H|(a & m & E & H)]; [left; by apply calm_app in H as [_ H]|].
  destruct ms as [|x ms _] using rev_ind; [left; constructor|]. right. apply calm_last_open.
  rewrite (assoc (++)) in E. apply app_inj_tail in E as [<- _]. by apply calm_app in H as [_ H].
Qed.

Lemma normalize_unfinished m T : unfinished m = false → unfinished (normalizeStoredMessageForLoad m T) = false.
Proof.
  intros H. unfold normalizeStoredMessageForLoad. assert (unfinished (normalize_texts m) = false) as Hn by done.
  case_match; [done|]. case_match; [done|]. apply timed_message. by left.
Qed.

Lemma imap_settled (f : nat → Message → Message) ms : (∀ i m, unfinished m = false → unfinished (f i m) = false) →
  settled_but_last ms → settled_but_last (imap f ms).
Proof.
  intros Hf. assert (∀ l (g : nat → Message → Message), (∀ i m, unfinished m = false → unfinished (g i m) = false) → calm l → calm (imap g l)) as Hc.
  { intros l. induction l as [|m l IH]; intros g Hg Hl; [constructor|]. apply Forall_cons in Hl as [Hm Hl].
    rewrite imap_cons. constructor; [by apply Hg|]. apply (IH (g ∘ S)); [|done]. intros i. apply Hg. }
  intros [H|(pre & m & -> & H)]; [left; by apply Hc|]. right. rewrite imap_app. apply calm_last_open. by apply Hc.
Qed.

Lemma last_pending_app a : ∀ b i, calm b → last_pending (a ++ b) i = last_pending a i.
Proof.
  induction a as [|m a IH]; intros b i Hb; cbn [app last_pending].
  - revert i. induction Hb as [|m b Hm Hb IHb]; intros i; cbn [last_pending]; [done|]. rewrite IHb.
    change (isPendingAssistantMessage (Some m)) with (unfinished m). by rewrite Hm.
  - by rewrite IH.
Qed.

Lemma last_pending_calm ms i : calm ms → last_pending ms i = None.
Proof. apply (last_pending_app []). Qed.

Lemma sanitized_message t m T : unfinished (sanitize_message t m T) = false.
Proof. unfold sanitize_message. case_match; apply timed_message; auto. Qed.

Lemma last_pending_last pre m : ∀ i, calm pre → unfinished m = true → last_pending (pre ++ [m]) i = Some (i + length pre).
Proof.
  induction pre as [|x pre IH]; intros i Hp Hm; cbn [app last_pending].
  - change (isPendingAssistantMessage (Some m)) with (unfinished m). rewrite Hm. cbn. f_equal. lia.
  - apply Forall_cons in Hp as [_ Hp]. rewrite IH by done. cbn. f_equal. lia.
Qed.

Lemma sanitize_calm t ms T : settled_but_last ms → calm (sanitizeMessagesOnLoad t ms T).
Proof.
  intros [H|(pre & m & -> & H)]; unfold sanitizeMessagesOnLoad; [by rewrite last_pending_calm|].
  destruct (unfinished m) eqn:E.
  - rewrite last_pending_last by done. cbn [plus]. rewrite lookup_app_r, Nat.sub_diag by lia. cbn [lookup list_lookup].
    replace (length pre) with (length pre + 0) by lia. rewrite insert_app_r. apply calm_app. split; [done|].
    apply Forall_singleton, sanitized_message.
  - assert (calm (pre ++ [m])) as Hc by (apply calm_app; split; [done|by apply Forall_singleton]).
    by rewrite last_pending_calm.
Qed.

(** A loaded conversation is settled.  A conversation saved from any state
    the chat reaches by orderly steps has at most its last message unfinished; after loading none is, so
    the chat starts as its invariant asks. *)
Theorem restore_settled t lower ms0 c T1 parsed T T0 : calm ms0 → rtc (chat_step t lower true) (initial_chat ms0) c →
  parsed = trimMessages (messages (view (render t T1 c))) →
  calm (restore t parsed T T0) ∧ Inv t (initial_chat (restore t parsed T T0)).
Proof.
  intros H0 Hc ->. assert (settled_but_last (messages (view (render t T1 c)))) as Hs.
  { rewrite messages_render. destruct (inv_shown t c (proj1 (chat_inv_reachable t lower ms0 c H0 Hc))) as [H|H]; [by right|by left]. }
  destruct (trimMessages_suffix (messages (view (render t T1 c)))) as (p0 & E0 & _). rewrite E0 in Hs. apply suffix_settled in Hs.
  clear E0. generalize dependent (trimMessages (messages (view (render t T1 c)))). intros parsed Hs.
  assert (calm (restore t parsed T T0)) as Hcalm; [|split; [done|by apply chat_inv_initial]].
  unfold restore. apply sanitize_calm. set (l := imap _ parsed).
  assert (settled_but_last l) as Hl by (apply imap_settled; [|done]; intros; by apply normalize_unfinished).
  destruct (trimMessages_suffix l) as (p1 & E1 & _). rewrite E1 in Hl. apply suffix_settled in Hl.
  destruct (trim_by_size (trimMessages l)) as (p2 & E2 & _). rewrite E2 in Hl. by apply suffix_settled in Hl.
Qed.

(** ** Limits *)

Lemma thinks_length s vs rs u : thinks s vs rs u → length (concat vs) <= length s.
Proof.
  induction 1 as [v Hv|s v r [-> _] _|s v x r y vs rs u [-> _] [-> _] _ IH]; cbn [concat]; rewrite ?app_nil_r, ?length_app; lia.
Qed.

Lemma visible_length s : length (visibleContent (parseThinkTags s)) <= length s.
Proof.
  destruct (think_loop_spec (S (length s)) s 0 [] []) as (V & vs & rs & u & E & Ht & EV); [lia|]. rewrite drop_0 in Ht.
  unfold parseThinkTags. case_match; [done|]. rewrite E. cbn [visibleContent]. etrans; [apply trim_length|].
  rewrite join_nil, EV. by apply thinks_length in Ht.
Qed.

Lemma truncate_length s : (zlen (truncateText s MAX_LOADED_MESSAGE_CHARS) <= MAX_LOADED_MESSAGE_CHARS)%Z.
Proof.
  unfold truncateText. destruct (Z.leb_spec (zlen s) MAX_LOADED_MESSAGE_CHARS); [done|].
  destruct (Z.leb_spec MAX_LOADED_MESSAGE_CHARS (zlen TRUNCATED_CONTENT_SUFFIX)) as [X|_]; [by vm_compute in X|].
  unfold zlen. rewrite length_app. pose proof (length_take_le s (Z.to_nat (MAX_LOADED_MESSAGE_CHARS - zlen TRUNCATED_CONTENT_SUFFIX))) as Hl.
  unfold zlen in *. change (Z.of_nat (length TRUNCATED_CONTENT_SUFFIX)) with 7%Z in *. unfold MAX_LOADED_MESSAGE_CHARS in *.
  change (length TRUNCATED_CONTENT_SUFFIX) with 7. rewrite length_take in *. lia.
Qed.

(** The current text of a normalised message is within the limit. *)
Lemma normalize_length m T : (zlen (getMessageContent (normalizeStoredMessageForLoad m T)) <= MAX_LOADED_MESSAGE_CHARS)%Z.
Proof.
  assert (zlen (getMessageContent (normalize_texts m)) <= MAX_LOADED_MESSAGE_CHARS)%Z as H.
  { unfold getMessageContent, getCurrentVersion. cbn. destruct (versions m); [done|]. apply truncate_length. }
  unfold normalizeStoredMessageForLoad. case_match; [done|]. case_match; [done|].
  match goal with |- context [completeAssistantTiming ?a ?b] => destruct (complete_assistant_keeps a b) as (_ & _ & Ev) end.
  destruct (finalize_keeps (normalize_texts m) None T) as [_ Ef]. unfold getMessageContent, getCurrentVersion in *.
  rewrite Ev. cbn [with_reasoning_streaming with_status versions]. rewrite Ef.
  etrans; [|exact H]. unfold zlen. apply inj_le, visible_length.
Qed.

Lemma timing_key m x : key (completeAssistantTiming m x) = key m.
Proof. unfold completeAssistantTiming. by case_match. Qed.

Lemma finalize_key m r T : key (finalizeMessage m r T) = key m.
Proof. unfold finalizeMessage, completeReasoningTiming. by repeat case_match. Qed.

Lemma sanitize_key t m T : key (sanitize_message t m T) = key m.
Proof. unfold sanitize_message. case_match; rewrite timing_key; apply finalize_key. Qed.

(** What a load keeps.  Loading keeps the end of the conversation, in order:
    at most one hundred messages, together within the size limit unless it is
    one message, each text within its limit; and it drops a message only when
    one hundred newer ones are kept or it would exceed the size limit. *)
Theorem restore_window t parsed T T0 : ∃ pre kept,
  imap (λ i m, normalizeStoredMessageForLoad m (T i)) parsed = pre ++ kept ∧
  key <$> restore t parsed T T0 = key <$> kept ∧
  length kept <= MAX_STORED_MESSAGES ∧ (parsed ≠ [] → kept ≠ []) ∧
  ((size kept <= MAX_LOADED_MESSAGES_CHARS)%Z ∨ length kept = 1) ∧
  Forall (λ m, (zlen (getMessageContent m) <= MAX_LOADED_MESSAGE_CHARS)%Z) kept ∧
  (∀ m, last pre = Some m → length kept = MAX_STORED_MESSAGES ∨ (MAX_LOADED_MESSAGES_CHARS < size (m :: kept))%Z).
Proof.
  unfold restore. set (l := imap _ parsed). destruct (trimMessages_suffix l) as (p1 & E1 & L1 & F1).
  destruct (trim_by_size (trimMessages l)) as (p2 & E2 & N2 & S2 & F2).
  set (kept := trimMessagesByContentSize (trimMessages l)) in *. exists (p1 ++ p2), kept.
  split; [by rewrite <- (assoc (++)), <- E2|]. split; [|split; [|split; [|split; [done|split]]]].
  - unfold sanitizeMessagesOnLoad. destruct (last_pending kept 0) as [j|]; [|done].
    destruct (kept !! j) as [m|] eqn:Ej; [|done]. rewrite list_fmap_insert. apply list_insert_id.
    rewrite list_lookup_fmap, Ej. cbn. f_equal. by rewrite sanitize_key.
  - etrans; [|exact L1]. rewrite E2. rewrite length_app. lia.
  - intros Hp. apply N2. intros E. apply Hp. assert (length l = 0) as Hl.
    { destruct p1; [by rewrite E1, E|]. rewrite F1 in L1 by done. rewrite E in F1. discriminate F1. done. }
    unfold l in Hl. rewrite length_imap in Hl. by apply length_zero_iff_nil.
  - assert (Forall (λ m, (zlen (getMessageContent m) <= MAX_LOADED_MESSAGE_CHARS)%Z) l) as Hl.
    { apply Forall_lookup. intros i m Hi. unfold l in Hi. rewrite list_lookup_imap in Hi.
      destruct (parsed !! i); [|done]. injection Hi as <-. apply normalize_length. }
    rewrite E1, E2 in Hl. apply Forall_app in Hl as [_ Hl]. by apply Forall_app in Hl as [_ Hl].
  - intros m Hm. destruct p2 as [|x p2 _] using rev_ind.
    + left. cbn in E2. rewrite <- E2. apply F1. rewrite app_nil_r in Hm. by destruct p1.
    + rewrite (assoc (++)), last_snoc in Hm. injection Hm as ->. right. apply F2. apply last_snoc.
Qed.

(** ** Saving and loading *)

(** A message whose numbers are safe integers, as clock readings and durations are. *)
Definition plain (m : Message) : Prop :=
  versions m ≠ [] ∧ match errorCode m with VUndef | VNull | VStr _ => True | _ => False end ∧
  Forall (λ x, is_Some (safe_int x))
    (omap id [createdAt m; startedAt m; completedAt m; durationMs m;
              reasoning m ≫= r_startedAt; reasoning m ≫= r_completedAt; reasoning m ≫= r_durationMs; r_duration <$> reasoning m]).

Lemma plain_storable m : plain m → storable m.
Proof.
  intros (H1 & H2 & H3). split; [done|]. split; [done|]. rewrite Forall_forall in *. intros x Hx. apply H3 in Hx as [z Hz].
  apply safe_int_spec in Hz as [-> Hz]. by apply of_Z_finite.
Qed.

Lemma opt_num_jsonable (o : option number) l : Forall (λ x, is_Some (safe_int x)) (omap id l) → o ∈ l →
  is_undefined (opt_value VNum o) = false → jsonable (defined (opt_value VNum o)).
Proof.
  intros H Ho Hu. destruct o as [x|]; [|done]. cbn. apply safe_int_readable. rewrite Forall_forall in H. apply H.
  apply list_elem_of_omap. by exists (Some x).
Qed.

Lemma or_undefined v : (is_undefined v = false → jsonable (defined v)) → v = VUndef ∨ jsonable (defined v).
Proof. destruct v; auto. Qed.

Lemma reasoning_jsonable r :
  Forall (λ x, is_Some (safe_int x)) (omap id [r_startedAt r; r_completedAt r; r_durationMs r; Some (r_duration r)]) →
  jsonable (defined (reasoning_value r)).
Proof.
  intros H. apply defined_obj_jsonable; [apply (bool_decide_eq_true_1 (NoDup _)); by vm_compute|].
  repeat (apply Forall_cons; split; [split; [by vm_compute|apply or_undefined; cbn [snd]]|]); [..|constructor].
  - done.
  - change (VNum (r_duration r)) with (opt_value VNum (Some (r_duration r))).
    eapply opt_num_jsonable; [exact H|]. rewrite !elem_of_cons. tauto.
  - eapply opt_num_jsonable; [exact H|]. rewrite !elem_of_cons. tauto.
  - eapply opt_num_jsonable; [exact H|]. rewrite !elem_of_cons. tauto.
  - eapply opt_num_jsonable; [exact H|]. rewrite !elem_of_cons. tauto.
Qed.

Lemma versions_jsonable vs : jsonable (defined (VArr (version_value <$> vs))).
Proof. apply defined_arr_jsonable. intros v (x & -> & _)%list_elem_of_fmap. split; [done|by vm_compute]. Qed.

Lemma sources_jsonable ss : jsonable (defined (VArr (source_value <$> ss))).
Proof. apply defined_arr_jsonable. intros v (x & -> & _)%list_elem_of_fmap. split; [done|by vm_compute]. Qed.

Lemma message_jsonable m : plain m → jsonable (defined (message_value m)).
Proof.
  intros (_ & He & H). apply defined_obj_jsonable; [apply (bool_decide_eq_true_1 (NoDup _)); by vm_compute|].
  repeat (apply Forall_cons; split; [split; [by vm_compute|apply or_undefined; cbn [snd]]|]); [..|constructor].
  - done.
  - done.
  - intros _. apply versions_jsonable.
  - eapply opt_num_jsonable; [exact H|]. rewrite !elem_of_cons. tauto.
  - eapply opt_num_jsonable; [exact H|]. rewrite !elem_of_cons. tauto.
  - eapply opt_num_jsonable; [exact H|]. rewrite !elem_of_cons. tauto.
  - eapply opt_num_jsonable; [exact H|]. rewrite !elem_of_cons. tauto.
  - destruct (sources m) as [ss|]; [intros _; apply sources_jsonable|done].
  - destruct (reasoning m) as [r|] eqn:E; [|done]. intros _. apply reasoning_jsonable.
    rewrite Forall_forall in *. intros x Hx. apply H. apply list_elem_of_omap in Hx as (o & Ho & Eo). apply list_elem_of_omap.
    exists o. split; [|done]. cbn [mbind option_bind fmap option_fmap option_map]. rewrite !elem_of_cons in *. tauto.
  - by destruct (isReasoningStreaming m).
  - by destruct (isReasoningComplete m).
  - by destruct (isContentComplete m).
  - by destruct (status m).
  - by destruct (errorCode m).
Qed.

Lemma messages_jsonable ms : Forall plain ms → jsonable (defined (messages_value ms)).
Proof.
  intros H. apply defined_arr_jsonable. intros v (m & -> & Hm)%list_elem_of_fmap. split; [done|].
  rewrite Forall_forall in H. by apply message_jsonable, H.
Qed.

(** A text that has no numbered heading three times or more, or is short. *)
Definition heading_count (h text : jsstr) : nat := length (List.filter (λ o, str_eqb o.1 h) (getSectionOccurrences text)).
Definition unrepeated (text : jsstr) : Prop := (zlen text < 2000)%Z ∨ ∀ h, heading_count h text < 3.

Lemma counts_spec os : ∀ acc h, default 0 (map_get (fold_left (λ counts o, map_set counts o.1 (default 0 (map_get counts o.1) + 1)) os acc) h) =
  default 0 (map_get acc h) + length (List.filter (λ o : jsstr * nat, str_eqb o.1 h) os).
Proof.
  induction os as [|o os IH]; intros acc h; [cbn; lia|]. cbn [fold_left List.filter]. rewrite IH, map_get_set. unfold str_eqb.
  destruct (decide (h = o.1)) as [->|Hn].
  - rewrite bool_decide_true by done. cbn. lia.
  - rewrite bool_decide_false by congruence. done.
Qed.

Lemma collapse_unrepeated text : unrepeated text → collapseRepeatedSectionSnapshots text = text.
Proof.
  unfold collapseRepeatedSectionSnapshots, unrepeated. intros [H|H]; [by rewrite (proj2 (Z.ltb_lt _ _))|].
  destruct (_ <? _)%Z; [done|]. unfold findLastRepeatedSectionRunStart.
  assert (∀ os seen, repeated_indexes (getHeadingCounts (getSectionOccurrences text)) os seen = []) as ->; [|done].
  intros os. induction os as [|o os IH]; intros seen; [done|]. cbn [repeated_indexes]. unfold getHeadingCounts at 1.
  rewrite counts_spec. cbn [map_get default]. rewrite (proj2 (Nat.ltb_lt _ _)); [apply IH|]. apply H.
Qed.

(** A message that loading leaves as it is: its texts are within the limit of a
    message, its sections are not repeated, and it is finished. *)
Definition small (m : Message) : Prop :=
  Forall (λ v, unrepeated (content v) ∧ (zlen (content v) <= MAX_LOADED_MESSAGE_CHARS)%Z) (versions m) ∧
  match reasoning m with Some r => (zlen (r_content r) <= MAX_LOADED_MESSAGE_CHARS)%Z | None => True end ∧
  isAssistantMessagePending m = false.

Lemma normalize_small m T : small m → normalizeStoredMessageForLoad m T = m.
Proof.
  intros (Hv & Hr & Hp). assert (normalize_texts m = m) as E.
  { destruct m as [k f vs a b c d ss r x y z st e]. unfold normalize_texts, with_reasoning, with_versions. cbn in *. f_equal.
    - clear Hr Hp. induction Hv as [|[i s] vs [Hs Hl] _ IH]; [done|]. cbn. rewrite IH. f_equal. unfold normalize_version. cbn in *.
      rewrite collapse_unrepeated by done. unfold truncateText. by rewrite (proj2 (Z.leb_le _ _)).
    - destruct r as [[s dd t1 t2 t3]|]; [|done]. cbn in *. unfold truncateText. by rewrite (proj2 (Z.leb_le _ _)). }
  unfold normalizeStoredMessageForLoad. rewrite E, Hp. done.
Qed.

Lemma message_size_nonneg m : (0 <= getMessageSize m)%Z.
Proof.
  assert (∀ vs z, (0 <= z)%Z → (0 <= fold_left (λ total v, total + zlen (content v)) vs z)%Z) as Hf.
  { intros vs. induction vs as [|v vs IH]; intros z Hz; cbn [fold_left]; [done|]. apply IH. unfold zlen. lia. }
  unfold getMessageSize. specialize (Hf (versions m) 0%Z (Z.le_refl _)).
  assert (0 <= default 0 ((λ r, zlen (r_content r)) <$> reasoning m))%Z by (destruct (reasoning m); cbn; unfold zlen; lia). lia.
Qed.

Lemma size_nonneg l : (0 <= size l)%Z.
Proof. induction l as [|m l IH]; [done|]. cbn [size foldr]. pose proof (message_size_nonneg m). unfold size in *. lia. Qed.

Lemma fitting_all ms : (size ms <= MAX_LOADED_MESSAGES_CHARS)%Z → trimMessagesByContentSize ms = ms.
Proof.
  intros H. destruct (trim_by_size ms) as (pre & E & _ & _ & F). destruct pre as [|x pre _] using rev_ind; [by symmetry|].
  specialize (F x (last_snoc _ _)). rewrite E in H. rewrite <- (assoc (++)), size_app in H.
  pose proof (size_nonneg pre) as Hpos. change (size ([x] ++ ?l)) with (size (x :: l)) in H. lia.
Qed.

Lemma restore_small t ms T T0 : Forall small ms → length ms <= MAX_STORED_MESSAGES → (size ms <= MAX_LOADED_MESSAGES_CHARS)%Z →
  restore t ms T T0 = ms.
Proof.
  intros Hs Hl Hz. unfold restore. assert (imap (λ i m, normalizeStoredMessageForLoad m (T i)) ms = ms) as ->.
  { clear Hl Hz. revert T. induction Hs as [|m ms Hm _ IH]; intros T; [done|]. rewrite imap_cons, normalize_small by done.
    f_equal. apply (IH (T ∘ S)). }
  unfold trimMessages. rewrite (proj2 (Nat.leb_le _ _)), fitting_all by done.
  unfold sanitizeMessagesOnLoad. rewrite last_pending_calm; [done|]. unfold calm. rewrite Forall_forall in *. intros m Hm.
  apply final_not_unfinished. by apply Hs.
Qed.

Section RoundTrip.
Context (accepts : gmap jsstr jsstr → jsstr → jsstr → bool) (t : jsstr → jsstr).

(** The text a conversation is saved as. *)
Definition saved_text (ms : list Message) : jsstr :=
  default [] (JSON_stringify (VObj [("version"%js, VNum (of_Z STORAGE_VERSION)); ("data"%js, messages_value ms)])).

(** C39: a saved conversation is read back, for any storage with room: a
    conversation is loaded as it was saved, and loading leaves the saved text as
    it was, provided it has at most 100 messages and 120000 characters, its JSON
    at most 1048576; its messages have a version each and an error code that is
    a text or none, and numbers that are safe integers ([plain]); no message is
    pending, no text is longer than 40000 characters, and no content of 2000
    characters or more has a numbered section heading three times or more
    ([small]; such a content is collapsed on loading). *)
Theorem save_load_round_trip ms st T T0 : Forall plain ms → Forall small ms → length ms <= MAX_STORED_MESSAGES →
  (size ms <= MAX_LOADED_MESSAGES_CHARS)%Z → (zlen (saved_text ms) <= MAX_STORED_MESSAGES_BYTES)%Z →
  (∀ st', accepts st' MESSAGES_KEY (saved_text ms) = true) →
  let st1 := saveMessages accepts ms st in
  loadMessages accepts t st1 T T0 = (Some ms, st1) ∧ st1 !! MESSAGES_KEY = Some (saved_text ms).
Proof.
  intros Hp Hs Hl Hz Ht Ha. cbn zeta. set (env := VObj [("version"%js, VNum (of_Z STORAGE_VERSION)); ("data"%js, messages_value ms)]).
  assert (jsonable (defined env)) as Hj.
  { apply defined_obj_jsonable; [apply (bool_decide_eq_true_1 (NoDup _)); by vm_compute|].
    repeat (apply Forall_cons; split); [split; [by vm_compute|by right]| |constructor].
    split; [by vm_compute|]. right. by apply messages_jsonable. }
  destruct (JSON_parse_stringify_defined _ Hj) as (text & Htext & (c & tail & Ec & _) & Hparse).
  assert (saved_text ms = text) as Esaved by (unfold saved_text; fold env; by rewrite Htext).
  assert (Forall storable ms) as Hst by (rewrite Forall_forall in *; intros m Hm; by apply plain_storable, Hp).
  assert (∀ st', saveMessages accepts ms st' = <[MESSAGES_KEY := text]> st') as Hsave.
  { intros st'. unfold saveMessages, trimMessages. rewrite (proj2 (Nat.leb_le _ _)) by done.
    rewrite (messages_read false ms Hst : messagesSchema (messages_value ms) = Some ms).
    unfold writeStoredValue, setItem. fold env. rewrite Htext, <- Esaved, Ha. done. }
  rewrite Hsave, Esaved, lookup_insert_eq. split; [|done]. unfold loadMessages, readStoredMessagesValue. rewrite lookup_insert_eq.
  rewrite Esaved in Ht. rewrite (proj2 (Z.ltb_ge _ _)) by done. rewrite Hparse. assert (nonempty text = true) as -> by by rewrite Ec.
  cbn [negb fmap option_fmap option_map]. change (truthy (defined env)) with true. cbn [negb].
  change (unwrapStoredValue (defined env)) with (defined (messages_value ms)).
  rewrite (messages_read true ms Hst : messagesSchema (defined (messages_value ms)) = Some ms), restore_small, Hsave by done. by rewrite insert_insert_eq.
Qed.
End RoundTrip.

(** ** Examples *)

Definition restored : list Message := restore id (trimMessages (messages (view (render id still one_piece)))) (λ _, still) still.

Lemma restore_settled_witness :
  (existsb unfinished (trimMessages (messages (view (render id still one_piece)))) = true) ∧
  calm restored ∧ Inv id (initial_chat restored).
Proof.
  split; [vm_compute; reflexivity|].
  apply (restore_settled id toLowerCase [] one_piece still _ (λ _, still) still); [constructor|apply one_piece_reachable|reflexivity].
Defined.

Definition small_talk : list Message :=
  [createUserMessage "k1" "v1" "Hi" (of_Z 5);
   completeAssistantMessage (updateCurrentVersionContent (createLoadingAssistantMessage "k2" "v2" (of_Z 5)) "Hello")
     (λ _, of_Z 1205)].
Definition roomy (st : gmap jsstr jsstr) (k text : jsstr) : bool := true.

Lemma save_load_round_trip_witness :
  let st1 := saveMessages roomy small_talk ∅ in
  loadMessages roomy id st1 (λ _, still) still = (Some small_talk, st1) ∧
  st1 !! MESSAGES_KEY = Some (saved_text small_talk).
Proof.
  apply (save_load_round_trip roomy id small_talk ∅ (λ _, still) still).
  - repeat constructor; try done; vm_compute; eauto.
  - repeat constructor; try done; try (left; reflexivity); vm_compute; discriminate.
  - vm_compute. lia.
  - vm_compute. discriminate.
  - vm_compute. discriminate.
  - reflexivity.
Defined.

End PlaygroundStorageFacts.
