(* ===== verification/CustomNav.v ===== *)
(** * Custom navigation items ([web/src/lib/custom-nav.ts], [web/src/lib/canvas-settings.ts])

    Links an administrator adds to the header and the sidebar, read from
    untyped settings.  Parameters: the result of [new URL] ([parse_url]: its
    protocol, text and origin), [toLowerCase], [localeCompare], and which code
    points are letters or numbers ([word_cp]); what is used of the latter is
    the class [WordClass].  Settings with a member named [toString] of their
    own, for which [String] throws, are outside the model. *)

From S2P Require Import Prelude JsString JsRegExp JsNumber JsValue JsMap.

Module CustomNav.

(** What is read of a parsed address. *)
Record Address := MkAddress {
  protocol : jsstr;
  href : jsstr;
  origin : jsstr;
}.

Record CustomNavItem := MkItem {
  item_id : jsstr;
  item_title : jsstr;
  item_url : jsstr;
  item_enabled : bool;
  item_icon : option jsstr;
  item_order : number;
  item_requireAuth : bool;
  item_openInNewTab : bool;
  item_section : option jsstr;
  item_external : bool;
}.

Definition CUSTOM_NAV_ICONS : list jsstr :=
  ["Activity"; "BookOpen"; "Bot"; "Box"; "Brush"; "ChartNoAxesColumn"; "CircleHelp"; "CreditCard"; "ExternalLink"; "FileText";
   "FlaskConical"; "Gamepad2"; "Globe"; "HandCoins"; "Home"; "Key"; "LayoutDashboard"; "Link"; "ListTodo"; "MessageSquare";
   "Puzzle"; "Radio"; "Settings"; "Sparkles"; "Ticket"; "User"; "Users"; "Wallet"].

Definition CUSTOM_NAV_SECTIONS : list jsstr := ["header"; "chat"; "console"; "personal"; "admin"].

(** Whether [getCustomNavIcon] gives something: the table is an object, so the
    members every object has are found too. *)
Definition getCustomNavIcon (name : value) : bool :=
  match name with VStr s => bool_decide (s ∈ CUSTOM_NAV_ICONS) || bool_decide (s ∈ object_prototype) | _ => false end.

(** ** Code points *)

Fixpoint unicode_points (s : jsstr) : list N :=
  match s with
  | a :: (b :: r) as r' =>
    if is_lead a && is_trail b then ((a - 55296) * 1024 + (b - 56320) + 65536)%N :: unicode_points r else a :: unicode_points r'
  | _ => s
  end.

Definition units_of (c : N) : jsstr :=
  if (c <? 65536)%N then [c] else [((c - 65536) / 1024 + 55296)%N; ((c - 65536) mod 1024 + 56320)%N].
Definition to_units (cs : list N) : jsstr := concat (units_of <$> cs).

(** [s.replaceAll(/[P]+/g, '-')]: a run of characters becomes one dash; [run]
    tells whether one was just written. *)
Fixpoint dash_runs (P : N → bool) (run : bool) (s : list N) : list N :=
  match s with
  | [] => []
  | c :: r => if P c then if run then dash_runs P true r else 45%N :: dash_runs P true r else c :: dash_runs P false r
  end.

Definition is_dash (c : N) : bool := (c =? 45)%N.

(** [s.replaceAll(/^-|-$/g, '')] *)
Definition strip_start (s : list N) : list N := match s with c :: r => if is_dash c then r else s | [] => [] end.
Definition strip_dashes (s : list N) : list N := reverse (strip_start (reverse (strip_start s))).

(** ** Values *)

(** [None] when [typeof value] is none that decides. *)
Definition number_flag (x : number) : option bool :=
  if num_eqb x (of_Z 1) then Some true else if num_eqb x (of_Z 0) then Some false else None.

Section Nav.
Context (lower : jsstr → jsstr) (localeCompare : jsstr → jsstr → number) (parse_url : jsstr → option Address) (word_cp : N → bool).

Definition toBoolean (v : value) (fallback : bool) : bool :=
  match v with
  | VBool b => b
  | VNum x => default fallback (number_flag x)
  | VStr s =>
    let normalized := lower (trim s) in
    if str_eqb normalized "true" || str_eqb normalized "1" then true
    else if str_eqb normalized "false" || str_eqb normalized "0" then false
    else fallback
  | _ => fallback
  end.

Definition toOrder (v : value) (fallback : number) : number :=
  match v with
  | VNum x => if is_finite x then x else fallback
  | VStr s => let parsed := Number_of_string s in if is_finite parsed then parsed else fallback
  | _ => fallback
  end.

(** Letters, numbers and the marks an identifier may have. *)
Definition id_cp (c : N) : bool := word_cp c || bool_decide (c ∈ [58; 95; 46; 45]%N).

Definition normalize_text (raw : jsstr) : jsstr :=
  let s := dash_runs is_ws false raw in
  let s := to_units (dash_runs (λ c, negb (id_cp c)) false (unicode_points s)) in
  strip_dashes (dash_runs is_dash false s).

Definition normalizeId (v : value) (fallback : jsstr) : jsstr :=
  let raw := match v with VStr s => trim s | _ => [] end in
  let normalized := normalize_text raw in
  if nonempty normalized then normalized else fallback.

Definition http_protocol (p : jsstr) : bool := str_eqb p "http:" || str_eqb p "https:".

(** The address and whether it is external. *)
Definition normalizeUrl (v : value) : option (jsstr * bool) :=
  match v with
  | VStr s =>
    let raw := trim s in
    if negb (nonempty raw) then None
    else if startsWith raw "/" then if startsWith raw "//" then None else Some (raw, false)
    else match parse_url raw with
         | Some url => if http_protocol (protocol url) then Some (href url, true) else None
         | None => None
         end
  | _ => None
  end.

Definition getSidebarCustomModuleKey (id : jsstr) : jsstr := "custom:" ++ normalizeId (VStr id) "item".

(** [a ?? b] *)
Definition coalesce (a b : value) : value := match a with VUndef | VNull => b | _ => a end.

Definition parse_item (index : nat) (raw : value) : option CustomNavItem :=
  if negb (truthy raw) || negb (is_object raw) then None
  else match normalizeUrl (coalesce (prop raw "url") (prop raw "href")) with
       | None => None
       | Some (url, ext) =>
         let title := match prop raw "title" with VStr s => trim s | _ => [] end in
         if negb (nonempty title) then None
         else
           let openInNewTab :=
             match prop raw "target" with
             | VStr s => if str_eqb s "blank" then true else toBoolean (prop raw "openInNewTab") ext
             | _ => toBoolean (prop raw "openInNewTab") ext
             end in
           Some (MkItem (normalizeId (prop raw "id") ("custom-" ++ Z_to_string (Z.of_nat index + 1)))
                   title url (toBoolean (prop raw "enabled") true)
                   (match prop raw "icon" with VStr s => if getCustomNavIcon (VStr s) then Some s else None | _ => None end)
                   (toOrder (prop raw "order") (of_Z (Z.of_nat index)))
                   (toBoolean (prop raw "requireAuth") false) openInNewTab
                   (match prop raw "section" with
                    | VStr s => if bool_decide (s ∈ CUSTOM_NAV_SECTIONS) then Some s else None
                    | _ => None
                    end)
                   (ext || openInNewTab))
       end.

Definition compare_items (a b : CustomNavItem) : number :=
  cmp_or (num_sub (item_order a) (item_order b)) (localeCompare (item_title a) (item_title b)).

Definition parseCustomNavItems (v : value) (includeDisabled : bool) : list CustomNavItem :=
  match v with
  | VArr vs => sort_by compare_items (List.filter (λ i, includeDisabled || item_enabled i) (omap id (imap parse_item vs)))
  | _ => []
  end.

Definition parseTopNavCustomItems (headerItems sidebarItems : value) : list CustomNavItem :=
  let parsedHeaderItems := parseCustomNavItems headerItems false in
  let headerItemIds := item_id <$> parsedHeaderItems in
  let placedHeaderItems :=
    List.filter (λ i, bool_decide (item_section i = Some "header"%js) && negb (bool_decide (item_id i ∈ headerItemIds)))
      (parseCustomNavItems sidebarItems false) in
  sort_by compare_items (parsedHeaderItems ++ placedHeaderItems).

(** ** Canvas settings *)

Definition DEFAULT_CANVAS_APP_ORIGIN : jsstr := "https://canvas.maolaoapi.com".
Definition DEFAULT_CANVAS_ICON : jsstr := "Brush".

Definition is_alpha (c : N) : bool := ((65 <=? c) && (c <=? 90) || (97 <=? c) && (c <=? 122))%N.
Definition scheme_re : re :=
  seqs [Bol; Chr is_alpha; Star (Chr (λ c, is_alpha c || is_digit c || bool_decide (c ∈ [43; 46; 45]%N))); lit_re "://"].

Definition normalizeCanvasOrigin (v : value) (fallback : jsstr) : jsstr :=
  let raw := match v with VStr s => trim s | _ => [] end in
  if negb (nonempty raw) then fallback
  else
    let candidate := if re_test scheme_re raw then raw else "https://" ++ raw in
    match parse_url candidate with
    | Some url => if http_protocol (protocol url) then origin url else fallback
    | None => fallback
    end.

Definition normalizeCanvasIcon (v : value) (fallback : jsstr) : jsstr :=
  match v with VStr s => if getCustomNavIcon v then s else fallback | _ => fallback end.

Record CanvasModuleSettings := MkCanvas {
  canvasOrigin : jsstr;
  canvasIcon : jsstr;
}.

(** [None] for [null]; arrays are no settings here. *)
Definition parseSidebarModulesRecord (raw : value) : option obj :=
  if negb (truthy raw) || str_eqb (trim (to_string raw)) [] then None
  else match raw with
       | VObj fs => Some fs
       | _ => match JSON_parse (to_string raw) with Some (VObj fs) => Some fs | _ => None end
       end.

Definition getCanvasSettingsFromSidebarModules (raw : value) : CanvasModuleSettings :=
  let chat := match parseSidebarModulesRecord raw with Some parsed => default VUndef (obj_get parsed "chat") | None => VUndef end in
  let chatConfig := match chat with VObj fs => fs | _ => [] end in
  MkCanvas (normalizeCanvasOrigin (default VUndef (obj_get chatConfig "canvasOrigin")) DEFAULT_CANVAS_APP_ORIGIN)
    (normalizeCanvasIcon (default VUndef (obj_get chatConfig "canvasIcon")) DEFAULT_CANVAS_ICON).
End Nav.

(** What is used of the classes L and N of Unicode: they hold no surrogates and
    no white space, all of them are code points, and the letters and digits of
    ASCII are among them. *)
Class WordClass (word_cp : N → bool) : Prop := {
  word_range c : word_cp c = true → (c < 1114112)%N;
  word_no_surrogate c : word_cp c = true → is_lead c = false ∧ is_trail c = false;
  word_no_space c : word_cp c = true → is_ws c = false;
  word_ascii c : is_alpha c || is_digit c = true → word_cp c = true;
}.

Example nav_key_1 : getSidebarCustomModuleKey (λ c, is_word c || (19968 <=? c) && (c <=? 40959))%N "工具 1" = "custom:工具-1"%js.
Proof. vm_compute. reflexivity. Qed.
Example nav_key_2 : getSidebarCustomModuleKey is_word "  report / daily  " = "custom:report-daily"%js.
Proof. vm_compute. reflexivity. Qed.

End CustomNav.
