(* ===== verification/CustomNavFacts.v ===== *)
(** * Facts about the custom navigation items

    The normal form of an identifier: letters, numbers and four marks, without
    two dashes in a row or a dash at an end.  [normalizeId] gives it and leaves
    it alone, so the switch of an item is kept under the identifier the item
    has.  The items that are kept lead inside the site or to an HTTP address. *)

From S2P Require Import Prelude JsString JsRegExp JsNumber JsIntegerText JsValue JsMap CustomNav.

Module CustomNavFacts.
Import CustomNav.

(** ** Dashes *)

(** No two dashes in a row; [run] tells whether one precedes. *)
Fixpoint clean (run : bool) (s : list N) : bool :=
  match s with
  | [] => true
  | c :: r => if is_dash c then negb run && clean true r else clean false r
  end.

Lemma dash_runs_clean run s : clean run (dash_runs is_dash run s) = true.
Proof. revert run. induction s as [|c s IH]; intros run; [done|]. cbn. destruct (is_dash c) eqn:E, run; cbn; rewrite ?E; auto. Qed.

Lemma clean_dash_runs run s : clean run s = true → dash_runs is_dash run s = s.
Proof.
  revert run. induction s as [|c s IH]; intros run; [done|]. cbn. destruct (is_dash c) eqn:E; [|by intros ->%IH].
  destruct run; [done|]. apply N.eqb_eq in E as ->. by intros ->%IH.
Qed.

Lemma clean_weaken s : clean true s = true → clean false s = true.
Proof. destruct s as [|c s]; [done|]. cbn. by destruct (is_dash c). Qed.

Lemma clean_prefix run s t : clean run (s ++ t) = true → clean run s = true.
Proof.
  revert run. induction s as [|c s IH]; intros run; [done|]. cbn. destruct (is_dash c); [|apply IH].
  rewrite !andb_true_iff. intros [? ?%IH]. done.
Qed.

Lemma clean_two run s t : clean run (s ++ 45%N :: 45%N :: t) = false.
Proof. revert run. induction s as [|c s IH]; intros run; cbn; [by destruct run|]. destruct (is_dash c); rewrite IH; [by rewrite andb_false_r|done]. Qed.

Definition no_dash_end (s : list N) : Prop := head s ≠ Some 45%N ∧ last s ≠ Some 45%N.

Lemma strip_start_spec s : clean false s = true → clean false (strip_start s) = true ∧ head (strip_start s) ≠ Some 45%N.
Proof.
  destruct s as [|c s]; [done|]. cbn. destruct (is_dash c) eqn:E.
  - intros H. cbn in H. split; [by apply clean_weaken|]. destruct s as [|d s]; [done|]. cbn in *. intros [= ->]. done.
  - intros H. cbn. rewrite E. split; [done|]. by intros [= ->].
Qed.

Lemma strip_end_snoc s c : reverse (strip_start (reverse (s ++ [c]))) = if is_dash c then s else s ++ [c].
Proof.
  rewrite reverse_snoc. cbn [strip_start]. destruct (is_dash c); [by rewrite reverse_involutive|]. by rewrite reverse_cons, reverse_involutive.
Qed.

Lemma strip_dashes_spec s : clean false s = true → clean false (strip_dashes s) = true ∧ no_dash_end (strip_dashes s).
Proof.
  intros [H Hh]%strip_start_spec. unfold strip_dashes. revert H Hh. generalize (strip_start s). clear s. intros s.
  destruct s as [|c s _] using rev_ind; [done|]. rewrite strip_end_snoc. intros H Hh. destruct (is_dash c) eqn:E.
  - apply N.eqb_eq in E as ->. split; [by eapply clean_prefix|]. split; [by destruct s|]. intros Hl.
    apply last_Some in Hl as [t ->]. rewrite <- (assoc_L (++)) in H. cbn in H. by rewrite clean_two in H.
  - split; [done|]. split; [done|]. rewrite last_snoc. by intros [= ->].
Qed.

Lemma strip_dashes_id s : no_dash_end s → strip_dashes s = s.
Proof.
  intros [H1 H2]. unfold strip_dashes. assert (strip_start s = s) as ->.
  { destruct s as [|c s]; [done|]. cbn. destruct (is_dash c) eqn:E; [|done]. apply N.eqb_eq in E as ->. done. }
  destruct s as [|c s _] using rev_ind; [done|]. rewrite strip_end_snoc. rewrite last_snoc in H2.
  destruct (is_dash c) eqn:E; [|done]. apply N.eqb_eq in E as ->. done.
Qed.

Lemma strip_dashes_incl (P : N → Prop) s : Forall P s → Forall P (strip_dashes s).
Proof.
  assert (∀ t, Forall P t → Forall P (strip_start t)) as H.
  { intros [|c t]; [done|]. rewrite Forall_cons. cbn. intros [? ?]. destruct (is_dash c); [done|]. by constructor. }
  intros Hs. unfold strip_dashes. apply Forall_reverse, H, Forall_reverse, H, Hs.
Qed.

Lemma dash_runs_Forall (P : N → bool) (Q : N → Prop) run s : Q 45%N → (∀ c, c ∈ s → P c = false → Q c) → Forall Q (dash_runs P run s).
Proof.
  intros H. revert run. induction s as [|c s IH]; intros run Hs; [constructor|]. cbn.
  assert (∀ b, Forall Q (dash_runs P b s)) as H'.
  { intros b. apply IH. intros d Hd. apply Hs. by right. }
  destruct (P c) eqn:E; [destruct run; [done|by constructor]|]. constructor; [|done]. apply Hs; [by left|done].
Qed.

Lemma dash_runs_none (P : N → bool) run s : Forall (λ c, P c = false) s → dash_runs P run s = s.
Proof. intros H. revert run. induction H as [|c s Hc H IH]; intros run; [done|]. cbn. by rewrite Hc, IH. Qed.

(** ** Code points and units *)

Definition scalar (c : N) : Prop := (c < 1114112)%N ∧ is_lead c = false ∧ is_trail c = false.

Lemma units_cases c : units_of c = [c] ∨
  (65536 <= c)%N ∧ ∃ a b, units_of c = [a; b] ∧ a = ((c - 65536) / 1024 + 55296)%N ∧ b = ((c - 65536) mod 1024 + 56320)%N.
Proof. unfold units_of. destruct (N.ltb_spec c 65536); [by left|]. right. split; [done|]. do 2 eexists; split_and!; reflexivity. Qed.

Lemma units_high c d : (65536 <= c)%N → d ∈ units_of c → (55296 <= d)%N.
Proof.
  intros Hc. unfold units_of. destruct (N.ltb_spec c 65536); [lia|]. rewrite !elem_of_cons, elem_of_nil. intros [->|[->|[]]]; lia.
Qed.

(** What holds of the code points and of every surrogate holds of the units. *)
Lemma units_Forall (P : N → Prop) cs : (∀ c, c ∈ cs → scalar c ∧ P c) → (∀ c, (55296 <= c <= 57343)%N → P c) → Forall P (to_units cs).
Proof.
  intros H1 H2. unfold to_units. apply Forall_concat, Forall_fmap, Forall_forall. intros c Hc. cbn.
  destruct (H1 c Hc) as [[Hr _] HP]. destruct (units_cases c) as [->|(Hge & a & b & -> & -> & ->)]; [by repeat constructor|].
  pose proof (N.mod_lt (c - 65536) 1024 ltac:(lia)) as Hm.
  assert ((c - 65536) / 1024 < 1024)%N as Hq by (apply N.Div0.div_lt_upper_bound; lia).
  repeat constructor; apply H2; lia.
Qed.

Lemma units_cons c cs : to_units (c :: cs) = units_of c ++ to_units cs.
Proof. done. Qed.

Lemma units_snoc cs c : to_units (cs ++ [c]) = to_units cs ++ units_of c.
Proof. unfold to_units. by rewrite fmap_app, concat_app; cbn; rewrite app_nil_r. Qed.

Lemma dash_runs_app_none (P : N → bool) run s t : s ≠ [] → Forall (λ c, P c = false) s → dash_runs P run (s ++ t) = s ++ dash_runs P false t.
Proof.
  intros Hn Hs. revert run Hn. induction Hs as [|c s Hc Hs IH]; intros run Hn; [done|]. cbn. rewrite Hc. f_equal.
  destruct s as [|d s]; [done|]. by apply IH.
Qed.

Lemma units_ne c : units_of c ≠ [].
Proof. unfold units_of. by destruct (c <? 65536)%N. Qed.

Lemma units_no_dash c : is_dash c = false → Forall (λ d, is_dash d = false) (units_of c).
Proof.
  intros H. destruct (units_cases c) as [->|[Hge _]]; [by repeat constructor|].
  apply Forall_forall. intros d Hd%units_high; [|done]. unfold is_dash. apply N.eqb_neq. lia.
Qed.

Lemma dash_runs_units run cs : dash_runs is_dash run (to_units cs) = to_units (dash_runs is_dash run cs).
Proof.
  revert run. induction cs as [|c cs IH]; intros run; [done|]. rewrite units_cons. cbn [dash_runs]. destruct (is_dash c) eqn:E.
  - apply N.eqb_eq in E as ->. cbn. destruct run; [apply IH|]. rewrite units_cons, <- IH. done.
  - rewrite dash_runs_app_none by eauto using units_ne, units_no_dash. by rewrite units_cons, IH.
Qed.

Lemma strip_start_units cs : strip_start (to_units cs) = to_units (strip_start cs).
Proof.
  destruct cs as [|c cs]; [done|]. rewrite units_cons. cbn [strip_start]. destruct (is_dash c) eqn:E.
  - apply N.eqb_eq in E as ->. done.
  - pose proof (units_ne c). pose proof (units_no_dash c E) as H'. destruct (units_of c) as [|d ds] eqn:Eu; [done|].
    cbn [app strip_start]. inversion_clear H' as [|? ? Hd]. rewrite Hd. by rewrite units_cons, Eu.
Qed.

Lemma strip_end_units cs : reverse (strip_start (reverse (to_units cs))) = to_units (reverse (strip_start (reverse cs))).
Proof.
  destruct cs as [|c cs _] using rev_ind; [done|]. rewrite units_snoc, strip_end_snoc. destruct (is_dash c) eqn:E.
  - apply N.eqb_eq in E as ->. change (units_of 45) with [45%N]. by rewrite strip_end_snoc.
  - pose proof (units_ne c). pose proof (units_no_dash c E) as H'. rewrite units_snoc.
    destruct (units_of c) as [|d ds _] eqn:Eu using rev_ind; [done|]. rewrite Forall_app, Forall_singleton in H'.
    rewrite (assoc_L (++)), strip_end_snoc. by rewrite (proj2 H').
Qed.

Lemma strip_dashes_units cs : strip_dashes (to_units cs) = to_units (strip_dashes cs).
Proof. unfold strip_dashes. by rewrite strip_start_units, strip_end_units. Qed.

Lemma unicode_points_single c s : is_lead c = false → unicode_points (c :: s) = c :: unicode_points s.
Proof. intros H. cbn. rewrite H. by destruct s. Qed.

Lemma unicode_points_pair a b s : is_lead a = true → is_trail b = true →
  unicode_points (a :: b :: s) = ((a - 55296) * 1024 + (b - 56320) + 65536)%N :: unicode_points s.
Proof. intros Ha Hb. cbn [unicode_points]. by rewrite Ha, Hb. Qed.

Lemma unicode_points_units cs : Forall scalar cs → unicode_points (to_units cs) = cs.
Proof.
  induction 1 as [|c cs (Hr & Hl & Ht) _ IH]; [done|]. rewrite units_cons.
  destruct (units_cases c) as [->|(Hge & a & b & -> & -> & ->)]; cbn [app]; [by rewrite unicode_points_single, IH|].
  pose proof (N.div_mod (c - 65536) 1024 ltac:(lia)) as Hd. pose proof (N.mod_lt (c - 65536) 1024 ltac:(lia)) as Hm.
  assert ((c - 65536) / 1024 < 1024)%N as Hq by (apply N.Div0.div_lt_upper_bound; lia).
  rewrite unicode_points_pair, IH.
  - f_equal. lia.
  - unfold is_lead. apply andb_true_iff. rewrite !N.leb_le. lia.
  - unfold is_trail. apply andb_true_iff. rewrite !N.leb_le. lia.
Qed.

Lemma units_bmp cs : Forall (λ c, (c < 65536)%N) cs → to_units cs = cs.
Proof. induction 1 as [|c cs Hc _ IH]; [done|]. rewrite units_cons, IH. unfold units_of. by apply N.ltb_lt in Hc as ->. Qed.

(** ** Identifiers *)

Section Identifiers.
Context (word_cp : N → bool) `{!WordClass word_cp}.

Definition normal_id (s : jsstr) : Prop :=
  s ≠ [] ∧ ∃ cs, s = to_units cs ∧ Forall (λ c, id_cp word_cp c = true) cs ∧ clean false cs = true ∧ no_dash_end cs.

Lemma id_cp_scalar c : id_cp word_cp c = true → scalar c ∧ is_ws c = false.
Proof.
  unfold id_cp. rewrite orb_true_iff. intros [H|H%bool_decide_eq_true_1].
  - split; [split; [by apply word_range|by apply word_no_surrogate]|by apply word_no_space].
  - rewrite !elem_of_cons, elem_of_nil in H. destruct H as [->|[->|[->|[->|[]]]]]; done.
Qed.

Lemma id_cp_dash : id_cp word_cp 45 = true.
Proof. unfold id_cp. apply orb_true_r. Qed.

Lemma normalize_text_normal raw : normalize_text word_cp raw ≠ [] → normal_id (normalize_text word_cp raw).
Proof.
  intros Hne. split; [done|]. unfold normalize_text. rewrite dash_runs_units, strip_dashes_units.
  eexists. split; [done|]. split; [|apply strip_dashes_spec, dash_runs_clean].
  apply strip_dashes_incl, dash_runs_Forall; [apply id_cp_dash|]. intros c Hc _. revert c Hc. apply Forall_forall.
  apply dash_runs_Forall; [apply id_cp_dash|]. intros c _. apply negb_false_iff.
Qed.

Lemma normal_no_ws cs : Forall (λ c, id_cp word_cp c = true) cs → Forall (λ c, is_ws c = false) (to_units cs).
Proof.
  intros H. rewrite Forall_forall in H. apply units_Forall.
  - intros c Hc. by apply id_cp_scalar, H.
  - intros c Hc. unfold is_ws. rewrite ?orb_false_iff, ?andb_false_iff, ?N.eqb_neq, ?N.leb_gt. lia.
Qed.

Lemma normal_trim s : normal_id s → trim s = s.
Proof.
  intros (_ & cs & -> & Hcs%normal_no_ws & _). apply no_ws_trim. unfold no_ws. apply forallb_forall. intros c Hc%list_elem_of_In.
  rewrite Forall_forall in Hcs. by rewrite Hcs.
Qed.

Lemma normal_stable s : normal_id s → normalize_text word_cp s = s.
Proof.
  intros (_ & cs & -> & Hcs & Hcl & He). unfold normalize_text. rewrite (dash_runs_none is_ws) by by apply normal_no_ws.
  rewrite unicode_points_units by (eapply Forall_impl; [done|]; intros c Hc; by apply id_cp_scalar).
  rewrite (dash_runs_none (λ c, negb (id_cp word_cp c))).
  - rewrite dash_runs_units, clean_dash_runs, strip_dashes_units, strip_dashes_id by done. done.
  - eapply Forall_impl; [done|]. intros c Hc. cbn. by rewrite Hc.
Qed.

Lemma key_normal s : normal_id s → getSidebarCustomModuleKey word_cp s = "custom:" ++ s.
Proof.
  intros Hs. unfold getSidebarCustomModuleKey, normalizeId. rewrite normal_trim, normal_stable by done.
  destruct Hs as [Hne _]. by destruct s.
Qed.

Lemma clean_digits run s : forallb is_digit s = true → clean run s = true.
Proof.
  revert run. induction s as [|c s IH]; intros run; [done|]. cbn [forallb clean]. rewrite andb_true_iff. intros [Hc Hs].
  assert (is_dash c = false) as -> by (unfold is_digit, is_dash in *; lia). by apply IH.
Qed.

Lemma fallback_normal (index : nat) : normal_id ("custom-" ++ Z_to_string (Z.of_nat index + 1)).
Proof.
  unfold Z_to_string. destruct (Z.ltb_spec (Z.of_nat index + 1) 0); [lia|]. set (z := (Z.of_nat index + 1)%Z).
  pose proof (Z_digits_are_digits z ltac:(lia)) as Hd. destruct (Z_digits_head z ltac:(lia)) as (c & r & Hz & _).
  assert (∀ d, d ∈ Z_digits z → is_digit d = true) as Hin.
  { intros d Hd'%list_elem_of_In. by eapply forallb_forall in Hd. }
  split; [done|]. exists ("custom-"%js ++ Z_digits z). split_and!.
  - symmetry. apply units_bmp. rewrite Forall_app. split; [by repeat constructor|].
    apply Forall_forall. intros d Hd'%Hin. unfold is_digit in Hd'. lia.
  - rewrite Forall_app. split.
    + apply Forall_forall. intros d Hd'. destruct (decide (d = 45%N)) as [->|Hn]; [apply id_cp_dash|]. unfold id_cp.
      rewrite word_ascii; [done|]. rewrite !elem_of_cons, elem_of_nil in Hd'. by intuition subst.
    + apply Forall_forall. intros d Hd'%Hin. unfold id_cp. rewrite word_ascii; [done|]. by rewrite Hd', orb_true_r.
  - cbn. by apply clean_digits.
  - split; [done|]. rewrite last_app. destruct (last (Z_digits z)) eqn:El; [|apply last_None in El; by rewrite Hz in El].
    intros [= ->]. apply last_Some in El as [t Ht].
    assert (45%N ∈ Z_digits z) as H'%Hin by (rewrite Ht; apply elem_of_app; right; by left). done.
Qed.

Lemma normalizeId_normal v index : normal_id (normalizeId word_cp v ("custom-" ++ Z_to_string (Z.of_nat index + 1))).
Proof.
  unfold normalizeId. destruct (nonempty _) eqn:E; [|apply fallback_normal].
  apply normalize_text_normal. by apply nonempty_spec.
Qed.
End Identifiers.

(** ** Items *)

Section Items.
Context (lower : jsstr → jsstr) (localeCompare : jsstr → jsstr → number) (parse_url : jsstr → option Address) (word_cp : N → bool).

(** A path of the site, or the text of an address read as HTTP. *)
Definition leads_to (url : jsstr) (external : bool) : Prop :=
  startsWith url "/" = true ∧ startsWith url "//" = false ∨
  external = true ∧ ∃ raw a, parse_url raw = Some a ∧ http_protocol (protocol a) = true ∧ url = href a.

Lemma normalizeUrl_leads v url ext : normalizeUrl parse_url v = Some (url, ext) → leads_to url ext.
Proof.
  destruct v as [| | | |s| |]; try done. cbn. destruct (nonempty (trim s)); [|done]. cbn.
  destruct (startsWith (trim s) "/") eqn:E1.
  - destruct (startsWith (trim s) "//") eqn:E2; [done|]. intros [= <- <-]. by left.
  - destruct (parse_url (trim s)) as [a|] eqn:Ea; [|done]. destruct (http_protocol (protocol a)) eqn:Ep; [|done].
    intros [= <- <-]. right. split; [done|]. by exists (trim s), a.
Qed.

Lemma leads_external url e e' : leads_to url e → leads_to url (e || e').
Proof. intros [?|[-> ?]]; [by left|by right]. Qed.

(** What a kept item looks like. *)
Definition item_ok (i : CustomNavItem) : Prop :=
  leads_to (item_url i) (item_external i) ∧
  item_title i ≠ [] ∧ trimmed (item_title i) = true ∧
  (∀ s, item_section i = Some s → s ∈ CUSTOM_NAV_SECTIONS) ∧
  (∀ s, item_icon i = Some s → getCustomNavIcon (VStr s) = true) ∧
  (item_openInNewTab i = true → item_external i = true).

Lemma parse_item_ok index raw i : parse_item lower parse_url word_cp index raw = Some i → item_ok i.
Proof.
  unfold parse_item. destruct (_ || _); [done|]. destruct (normalizeUrl _ _) as [[url ext]|] eqn:Eu; [|done].
  apply normalizeUrl_leads in Eu. set (title := match prop raw "title" with VStr s => trim s | _ => [] end).
  assert (trimmed title = true) as Ht by (subst title; destruct (prop raw "title"); try done; apply trim_trimmed).
  clearbody title. destruct (nonempty title) eqn:En; [|done]. apply nonempty_spec in En. intros [= <-].
  split_and!; cbn; [by apply leads_external|done|done| | |].
  - intros s. destruct (prop raw "section"); try done. case_bool_decide; [|done]. by intros [= ->].
  - intros s. destruct (prop raw "icon") as [| | | |s'| |]; try done. destruct (_ || _) eqn:E; [|done]. by intros [= ->].
  - intros ->. apply orb_true_r.
Qed.

Lemma items_elem v inc i : i ∈ parseCustomNavItems lower localeCompare parse_url word_cp v inc ↔
  (inc || item_enabled i = true) ∧ ∃ vs k raw, v = VArr vs ∧ vs !! k = Some raw ∧ parse_item lower parse_url word_cp k raw = Some i.
Proof.
  unfold parseCustomNavItems. destruct v as [| | | | |vs|]; try (split; [by intros ?%elem_of_nil|by intros (_ & ? & ? & ? & ? & _)]).
  rewrite elem_of_sort_by, elem_of_lfilter, list_elem_of_omap. split.
  - intros [(o & Ho & Ei) Hb]. cbn in Ei. subst o. split; [done|]. apply list_elem_of_lookup_1 in Ho as [k Hk].
    rewrite list_lookup_imap in Hk. apply fmap_Some in Hk as (raw & Hr & Hp). by exists vs, k, raw.
  - intros (Hb & vs' & k & raw & [= <-] & Hr & Hp). split; [|done]. exists (Some i). split; [|done].
    apply (list_elem_of_lookup_2 _ k). by rewrite list_lookup_imap, Hr, <- Hp.
Qed.

(** The items shown on a page are safe to show: each leads to a path of
    this site (one slash at its start) or to the normalised text of an address
    whose protocol is HTTP, and then counts as external; it has a title without
    white space around it, a known section and icon, and is enabled; an item of
    the top bar is one set for the header, or one of the sidebar placed in the
    header whose identifier no header item has. *)
Theorem top_items_safe headerItems sidebarItems i :
  let parse v := parseCustomNavItems lower localeCompare parse_url word_cp v false in
  i ∈ parseTopNavCustomItems lower localeCompare parse_url word_cp headerItems sidebarItems →
  item_ok i ∧ item_enabled i = true ∧
  (i ∈ parse headerItems ∨
   i ∈ parse sidebarItems ∧ item_section i = Some "header"%js ∧ ∀ j, j ∈ parse headerItems → item_id j ≠ item_id i).
Proof.
  intros parse. unfold parseTopNavCustomItems. rewrite elem_of_sort_by, elem_of_app, elem_of_lfilter.
  assert (∀ v, i ∈ parse v → item_ok i ∧ item_enabled i = true) as Hok.
  { intros v (Hb & ? & ? & ? & _ & _ & Hp)%items_elem. by apply parse_item_ok in Hp. }
  intros [H|[H Hb]]; (destruct (Hok _ H) as [? ?]; split_and!; [done|done|]); [by left|].
  right. rewrite andb_true_iff, negb_true_iff, bool_decide_eq_true, bool_decide_eq_false in Hb. destruct Hb as [Hs Hn].
  split_and!; [done|done|]. intros j Hj Hid. apply Hn, list_elem_of_fmap. by exists j.
Qed.

Lemma item_id_normal `{!WordClass word_cp} v inc i :
  i ∈ parseCustomNavItems lower localeCompare parse_url word_cp v inc → normal_id word_cp (item_id i).
Proof.
  intros (_ & ? & k & raw & _ & _ & Hp)%items_elem. unfold parse_item in Hp. destruct (_ || _); [done|].
  destruct (normalizeUrl _ _) as [[url ext]|]; [|done]. destruct (negb _); [done|]. injection Hp as <-. by apply normalizeId_normal.
Qed.
End Items.

(** ** Examples *)

Definition ascii_word (c : N) : bool := is_alpha c || is_digit c.

#[export] Instance ascii_word_class : WordClass ascii_word.
Proof.
  split; unfold ascii_word, is_alpha, is_digit, is_lead, is_trail, is_ws; intros c H; try done.
  - lia.
  - split; lia.
  - rewrite ?orb_false_iff, ?andb_false_iff, ?N.eqb_neq, ?N.leb_gt. lia.
Qed.

Definition sample_url (s : jsstr) : option Address := if startsWith s "https://" then Some (MkAddress "https:" s s) else None.

Definition sample_header : value :=
  VArr [VObj [("title"%js, VStr " Docs "); ("url"%js, VStr "/docs"); ("id"%js, VStr "docs")];
        VObj [("title"%js, VStr "Other"); ("url"%js, VStr "//evil.example")]].
Definition sample_sidebar : value :=
  VArr [VObj [("title"%js, VStr "Tools"); ("href"%js, VStr "https://tools.example/"); ("section"%js, VStr "header"); ("id"%js, VStr "my tools!")];
        VObj [("title"%js, VStr "Docs"); ("url"%js, VStr "/d"); ("section"%js, VStr "header"); ("id"%js, VStr "docs")]].

Definition sample_top : list CustomNavItem :=
  parseTopNavCustomItems toLowerCase cmp_strings sample_url ascii_word sample_header sample_sidebar.

Lemma top_items_safe_witness : (item_id <$> sample_top) = ["docs"; "my-tools"]%js ∧ Forall (item_ok sample_url) sample_top.
Proof.
  split; [by vm_compute|]. apply Forall_forall. intros i Hi.
  exact (proj1 (top_items_safe toLowerCase cmp_strings sample_url ascii_word sample_header sample_sidebar i Hi)).
Defined.
End CustomNavFacts.
