(* ===== verification/NavModules.v ===== *)
(** * Navigation modules ([web/src/lib/nav-modules.ts])

    Which parts of the site are shown, and to whom, as an administrator set it.
    The settings are untyped JSON, as text or parsed; the parsed modules are
    objects (members in order).  A setting named [__proto__], which an
    assignment treats apart, is outside the model.  The cached status is what
    the browser's storage holds. *)

From S2P Require Import Prelude JsString JsRegExp JsNumber JsValue JsMap CustomNav.

Module NavModules.
Import CustomNav.

Record ModuleAccess := MkAccess {
  enabled : bool;
  requireAuth : bool;
}.

Definition access_value (a : ModuleAccess) : value :=
  VObj [("enabled"%js, VBool (enabled a)); ("requireAuth"%js, VBool (requireAuth a))].

Inductive HeaderNavModule := rankings | pricing.
Definition module_key (m : HeaderNavModule) : jsstr := match m with rankings => "rankings" | pricing => "pricing" end.

Definition DEFAULT_ACCESS : ModuleAccess := MkAccess true false.

Definition DEFAULT_HEADER_NAV_MODULES : obj :=
  [("home"%js, VBool true); ("console"%js, VBool true); ("pricing"%js, access_value DEFAULT_ACCESS);
   ("rankings"%js, access_value DEFAULT_ACCESS); ("docs"%js, VBool true); ("about"%js, VBool true); ("customItems"%js, VArr [])].

(** [Object.entries(v)] of a value that is not [null] or [undefined]. *)
Definition entries (v : value) : list (jsstr * value) :=
  match v with
  | VObj fs => fs
  | VArr vs => imap (λ i x, (Z_to_string (Z.of_nat i), x)) vs
  | VStr s => imap (λ i c, (Z_to_string (Z.of_nat i), VStr [c])) s
  | _ => []
  end.

Section Modules.
Context (lower : jsstr → jsstr) (parse_url : jsstr → option Address) (word_cp : N → bool).

Definition parseHeaderNavBoolean (raw : value) (fallback : bool) : bool :=
  match raw with
  | VBool b => b
  | VNum x => if num_eqb x (of_Z 1) then true else if num_eqb x (of_Z 0) then false else fallback
  | VStr s =>
    let normalized := lower (trim s) in
    if str_eqb normalized "true" || str_eqb normalized "1" then true
    else if str_eqb normalized "false" || str_eqb normalized "0" then false
    else fallback
  | _ => fallback
  end.

Definition parseAccess (raw : value) (fallback : ModuleAccess) : ModuleAccess :=
  if is_boolean raw || is_number raw || is_string raw
  then MkAccess (parseHeaderNavBoolean raw (enabled fallback)) (requireAuth fallback)
  else if truthy raw && is_object raw
  then MkAccess (parseHeaderNavBoolean (prop raw "enabled") (enabled fallback))
         (parseHeaderNavBoolean (prop raw "requireAuth") (requireAuth fallback))
  else fallback.

(** [None] for [null]. *)
Definition parseHeaderNavRecord (raw : value) : option value :=
  if negb (truthy raw) || str_eqb (trim (to_string raw)) [] then None
  else if is_object raw then Some raw
  else JSON_parse (to_string raw).

(** A member read as the access it was written as. *)
Definition access_of (v : value) : ModuleAccess :=
  match prop v "enabled", prop v "requireAuth" with
  | VBool e, VBool r => MkAccess e r
  | _, _ => DEFAULT_ACCESS
  end.

(** The body of the loop over the entries. *)
Definition header_entry (result : obj) (e : jsstr * value) : obj :=
  let '(key, v) := e in
  if str_eqb key "customItems" && is_array v then obj_set result "customItems" v
  else if str_eqb key "pricing"
  then obj_set result "pricing" (access_value (parseAccess v (access_of (default VUndef (obj_get result "pricing")))))
  else if str_eqb key "rankings"
  then obj_set result "rankings" (access_value (parseAccess v (access_of (default VUndef (obj_get result "rankings")))))
  else
    let fallback := default VUndef (obj_get result key) in
    if is_boolean fallback || is_boolean v || is_number v || is_string v
    then obj_set result key (VBool (parseHeaderNavBoolean v (match fallback with VBool b => b | _ => true end)))
    else result.

Definition parseHeaderNavModules (raw : value) : obj :=
  match parseHeaderNavRecord raw with
  | Some parsed => if truthy parsed then fold_left header_entry (entries parsed) DEFAULT_HEADER_NAV_MODULES
                   else DEFAULT_HEADER_NAV_MODULES
  | None => DEFAULT_HEADER_NAV_MODULES
  end.

(** One module of a section. *)
Definition section_entry (sectionKey : jsstr) (section : obj) (e : jsstr * value) : obj :=
  let '(moduleKey, v) := e in
  if str_eqb moduleKey "enabled" then section
  else if str_eqb sectionKey "chat" && str_eqb moduleKey "canvasOrigin"
  then obj_set section "canvasOrigin" (VStr (normalizeCanvasOrigin parse_url v DEFAULT_CANVAS_APP_ORIGIN))
  else if str_eqb sectionKey "chat" && str_eqb moduleKey "canvasIcon"
  then obj_set section "canvasIcon" (VStr (normalizeCanvasIcon v DEFAULT_CANVAS_ICON))
  else obj_set section moduleKey (VBool (parseHeaderNavBoolean v true)).

Definition sidebar_entry (result : obj) (e : jsstr * value) : obj :=
  let '(sectionKey, v) := e in
  if str_eqb sectionKey "customItems" && is_array v then obj_set result "customItems" v
  else match v with
       | VObj record =>
         obj_set result sectionKey
           (VObj (fold_left (section_entry sectionKey) record
                    [("enabled"%js, VBool (parseHeaderNavBoolean (prop v "enabled") true))]))
       | _ => result
       end.

Definition parseSidebarModules (raw : value) : obj :=
  match parseHeaderNavRecord raw with
  | Some parsed => if truthy parsed then fold_left sidebar_entry (entries parsed) [("customItems"%js, VArr [])]
                   else [("customItems"%js, VArr [])]
  | None => [("customItems"%js, VArr [])]
  end.

(** [status?.k] *)
Definition status_member (status : option value) (k : jsstr) : value :=
  match status with Some s => prop s k | None => VUndef end.

Definition parseSidebarModulesFromStatus (status : option value) : obj :=
  parseSidebarModules (status_member status "SidebarModulesAdmin").
Definition parseHeaderNavModulesFromStatus (status : option value) : obj :=
  parseHeaderNavModules (status_member status "HeaderNavModules").

(** The status in the browser's storage; [None] without one, or when it is no JSON. *)
Definition getCachedStatus (stored : option jsstr) : option value :=
  match stored with
  | Some raw => if nonempty raw then match JSON_parse raw with Some VNull => None | r => r end else None
  | None => None
  end.

Definition getModuleAccessFromStatus (status : option value) (m : HeaderNavModule) : ModuleAccess :=
  match obj_get (parseHeaderNavModulesFromStatus status) (module_key m) with
  | Some v => access_of v
  | None => DEFAULT_ACCESS
  end.

Definition getModuleAccess (stored : option jsstr) (m : HeaderNavModule) : ModuleAccess :=
  getModuleAccessFromStatus (getCachedStatus stored) m.

(** The access, and what the storage holds afterwards; [answer] is [None] when
    the request fails, [Some None] for an answer without a status. *)
Definition getFreshModuleAccess (answer : option (option value)) (stored : option jsstr) (m : HeaderNavModule) :
    ModuleAccess * option jsstr :=
  match answer with
  | None => (MkAccess false true, stored)
  | Some status =>
    (getModuleAccessFromStatus status m,
     match status with
     | Some s => if truthy s then match JSON_stringify s with Some text => Some text | None => stored end else stored
     | None => stored
     end)
  end.

Definition isSidebarModuleEnabled (stored : option jsstr) (section module : jsstr) : bool :=
  match getCachedStatus stored with
  | None => true
  | Some status =>
    if negb (truthy status) then true
    else
      let raw := prop status "SidebarModulesAdmin" in
      if negb (truthy raw) || str_eqb (trim (to_string raw)) [] then true
      else
        let parsed := parseSidebarModules raw in
        let not_false v := match v with Some (VBool false) => false | _ => true end in
        if str_eqb section "__custom" then
          match obj_get parsed "custom" with
          | Some (VObj custom) => not_false (obj_get custom (getSidebarCustomModuleKey word_cp module))
          | _ => true
          end
        else
          match obj_get parsed section with
          | Some (VObj config) =>
            if not_false (obj_get config "enabled") then not_false (obj_get config module) else false
          | _ => true
          end
  end.
End Modules.
End NavModules.
