(* ===== verification/NavModulesFacts.v ===== *)
(** * Facts about the navigation modules

    The parsed header modules have the type the code gives them exactly when
    the stored item list is no primitive and, if it is an array, one of items;
    each switch of the sidebar and each
    access is read from the one setting that is stored for it. *)

From S2P Require Import Prelude JsString JsRegExp JsNumber JsIntegerText JsValue JsObject JsonRoundTrip JsMap CustomNav CustomNavFacts NavModules.

Module NavModulesFacts.
Import CustomNav CustomNavFacts NavModules.

(** A loop over entries whose step writes and reads its own key only, at a key:
    the entry of that key is what counts. *)
Lemma fold_entries (step : obj → jsstr * value → obj) fs r k :
  (∀ r k v j, j ≠ k → obj_get (step r (k, v)) j = obj_get r j) →
  (∀ r r' k v, obj_get r k = obj_get r' k → obj_get (step r (k, v)) k = obj_get (step r' (k, v)) k) →
  NoDup fs.*1 →
  obj_get (fold_left step fs r) k = match obj_get fs k with Some v => obj_get (step r (k, v)) k | None => obj_get r k end.
Proof.
  intros Ho Hs. revert r. induction fs as [|[j v] fs IH]; intros r; [done|]. cbn. intros [Hn Hd]%NoDup_cons. rewrite IH by done.
  unfold str_eqb. case_bool_decide as E; subst.
  - apply obj_get_absent in Hn. by rewrite Hn.
  - destruct (obj_get fs k); [apply Hs|]; by apply Ho.
Qed.

Section Facts.
Context (lower : jsstr → jsstr) (parse_url : jsstr → option Address) (word_cp : N → bool).

Lemma header_entry_other r k v j : j ≠ k → obj_get (header_entry lower r (k, v)) j = obj_get r j.
Proof.
  intros H. unfold header_entry, str_eqb. repeat case_bool_decide; cbn [andb]; subst; repeat case_match; auto using obj_get_set_ne.
Qed.

Lemma header_entry_own r r' k v : obj_get r k = obj_get r' k →
  obj_get (header_entry lower r (k, v)) k = obj_get (header_entry lower r' (k, v)) k.
Proof.
  intros H. unfold header_entry, str_eqb. repeat case_bool_decide; cbn [andb]; subst; rewrite ?H; repeat case_match;
    rewrite ?obj_get_set_eq; done.
Qed.

Lemma sidebar_entry_other r k v j : j ≠ k → obj_get (sidebar_entry lower parse_url r (k, v)) j = obj_get r j.
Proof.
  intros H. unfold sidebar_entry, str_eqb. repeat case_bool_decide; cbn [andb]; subst; repeat case_match; auto using obj_get_set_ne.
Qed.

Lemma sidebar_entry_own r r' k v : obj_get r k = obj_get r' k →
  obj_get (sidebar_entry lower parse_url r (k, v)) k = obj_get (sidebar_entry lower parse_url r' (k, v)) k.
Proof.
  intros H. unfold sidebar_entry, str_eqb. repeat case_bool_decide; cbn [andb]; subst; repeat case_match; rewrite ?obj_get_set_eq; done.
Qed.

Lemma section_entry_other s r k v j : j ≠ k → obj_get (section_entry lower parse_url s r (k, v)) j = obj_get r j.
Proof.
  intros H. unfold section_entry, str_eqb. repeat case_bool_decide; cbn [andb]; subst; auto using obj_get_set_ne.
Qed.

Lemma section_entry_own s r r' k v : obj_get r k = obj_get r' k →
  obj_get (section_entry lower parse_url s r (k, v)) k = obj_get (section_entry lower parse_url s r' (k, v)) k.
Proof.
  intros H. unfold section_entry, str_eqb. repeat case_bool_decide; cbn [andb]; subst; rewrite ?obj_get_set_eq; done.
Qed.

Lemma record_distinct raw parsed : keys_distinct raw = true → parseHeaderNavRecord raw = Some parsed → keys_distinct parsed = true.
Proof.
  intros H. unfold parseHeaderNavRecord. destruct (_ || _); [done|]. destruct (is_object raw); [by intros [= <-]|].
  apply JSON_parse_distinct.
Qed.
End Facts.

(** ** The type of the header modules *)

Section HeaderType.
Context (lower : jsstr → jsstr).

(** The type [CustomMenuItemConfig]. *)
Definition item_typed (v : value) : Prop :=
  (∃ fs, v = VObj fs) ∧
  Forall (λ k, is_string (prop v k) = true) ["id"; "title"; "url"]%js ∧
  is_boolean (prop v "enabled") = true ∧ is_number (prop v "order") = true ∧
  Forall (λ k, prop v k = VUndef ∨ is_string (prop v k) = true) ["icon"; "section"]%js ∧
  Forall (λ k, prop v k = VUndef ∨ is_boolean (prop v k) = true) ["requireAuth"; "openInNewTab"]%js.

(** What the declared type says of a member. *)
Definition member_typed (k : jsstr) (v : value) : Prop :=
  if decide (k = "pricing"%js ∨ k = "rankings"%js) then ∃ a, v = access_value a
  else if decide (k = "customItems"%js) then ∃ items, v = VArr items ∧ Forall item_typed items
  else is_boolean v = true.

(** The declared members are there and every member has its type. *)
Definition header_typed (o : obj) : Prop :=
  (∀ k, k ∈ DEFAULT_HEADER_NAV_MODULES.*1 → is_Some (obj_get o k)) ∧ (∀ k v, obj_get o k = Some v → member_typed k v).

Definition primitive (v : value) : bool := is_boolean v || is_number v || is_string v.

(** A stored item list that does not break the type. *)
Definition items_ok (v : value) : Prop := primitive v = false ∧ ∀ items, v = VArr items → Forall item_typed items.

Lemma set_typed o k v : member_typed k v → header_typed o → header_typed (obj_set o k v).
Proof.
  intros Hv [H1 H2]. split.
  - intros j Hj%H1. rewrite obj_get_set. by destruct (decide (j = k)).
  - intros j w. rewrite obj_get_set. destruct (decide (j = k)) as [->|]; [by intros [= <-]|apply H2].
Qed.

Lemma typed_items o : header_typed o → is_boolean (default VUndef (obj_get o "customItems")) = false.
Proof.
  intros [H1 H2]. destruct (H1 "customItems"%js) as [v Hv]; [apply (bool_decide_eq_true_1 (_ ∈ _)); by vm_compute|].
  rewrite Hv. cbn. apply H2 in Hv. by destruct Hv as (items & -> & _).
Qed.

Lemma header_entry_typed o k v : (k = "customItems"%js → items_ok v) → header_typed o → header_typed (header_entry lower o (k, v)).
Proof.
  intros Hp Ho. unfold header_entry, str_eqb. destruct (decide (k = "customItems"%js)) as [->|Hk].
  - specialize (Hp eq_refl). destruct Hp as [Hp Hi]. pose proof (typed_items o Ho) as Hb. unfold primitive in Hp. rewrite !orb_false_iff in Hp. destruct Hp as [[-> ->] ->].
    cbn. rewrite Hb. cbn. destruct (is_array v) eqn:E; cbn; [|done]. apply set_typed; [|done].
    destruct v as [| | | | |vs|]; try done. exists vs. auto.
  - rewrite (bool_decide_eq_false_2 _ Hk). cbn [andb]. repeat case_bool_decide; subst.
    1,2: apply set_typed; [eexists; reflexivity|done].
    destruct (_ || _); [|done]. apply set_typed; [|done]. unfold member_typed. repeat destruct (decide _); naive_solver.
Qed.

Lemma default_typed : header_typed DEFAULT_HEADER_NAV_MODULES.
Proof.
  split.
  - apply Forall_forall. repeat constructor; by eexists.
  - intros k v. cbn. unfold str_eqb. repeat case_bool_decide; intros; simplify_eq; first [reflexivity | eexists; reflexivity | exists []; by split].
Qed.

Lemma index_key_ne i k : forallb is_digit k = false → Z_to_string (Z.of_nat i) ≠ k.
Proof.
  unfold Z_to_string. destruct (Z.ltb_spec (Z.of_nat i) 0); [lia|]. intros Hk E.
  pose proof (Z_digits_are_digits (Z.of_nat i) ltac:(lia)) as H'. by rewrite E, Hk in H'.
Qed.

Lemma fold_header_typed es o : Forall (λ e, e.1 = "customItems"%js → items_ok e.2) es → header_typed o →
  header_typed (fold_left (header_entry lower) es o).
Proof. intros H. revert o. induction H as [|[k v] es He H IH]; intros o Ho; [done|]. cbn. by apply IH, header_entry_typed. Qed.

(** Only an object has an entry named [customItems]. *)
Lemma entries_items parsed : (∀ fs, parsed = VObj fs → Forall (λ e, e.1 = "customItems"%js → items_ok e.2) fs) →
  Forall (λ e, e.1 = "customItems"%js → items_ok e.2) (entries parsed).
Proof.
  intros H. destruct parsed as [| | | |s|vs|fs]; try by constructor. 3: by apply H.
  all: cbn [entries]; apply Forall_forall; intros [k v] (i & Hi)%list_elem_of_lookup_1; rewrite list_lookup_imap in Hi;
    apply fmap_Some in Hi as (? & _ & [= -> ->]); intros E; by apply index_key_ne in E.
Qed.

(** C40: the header modules read from a setting have the declared type (the
    four switches are booleans, pricing and rankings are accesses, the item
    list is an array of [CustomMenuItemConfig], any other member is a boolean)
    exactly when the setting stores no boolean, number or text as its item list
    and, if it stores an array there, every element of it is already such an
    item: the elements are taken without a check.  Whatever else the setting
    holds, or if it is no JSON at all, the result has the type. *)
Theorem header_modules_typed raw : keys_distinct raw = true →
  header_typed (parseHeaderNavModules lower raw) ↔
  ∀ fs, parseHeaderNavRecord raw = Some (VObj fs) →
    let stored := default VUndef (obj_get fs "customItems") in
    primitive stored = false ∧ ∀ items, stored = VArr items → Forall item_typed items.
Proof.
  intros Hd. unfold parseHeaderNavModules. destruct (parseHeaderNavRecord raw) as [parsed|] eqn:Ep; [|by split; [done|intros _; apply default_typed]].
  pose proof (record_distinct _ _ Hd Ep) as Hd'. split.
  - intros Ht fs [= ->]. cbn in Ht. apply distinct_obj in Hd' as [Hn _]. cbv zeta. pose proof (typed_items _ Ht) as Hb.
    destruct Ht as [_ Ht]. specialize (Ht "customItems"%js).
    rewrite fold_entries in Hb, Ht by eauto using header_entry_other, header_entry_own.
    destruct (obj_get fs "customItems") as [v|]; [|done]. cbn in Hb |- *. unfold header_entry in Hb, Ht. cbn in Hb, Ht.
    destruct v as [| | | | |vs|]; cbn in Hb; try done; try by rewrite obj_get_set_eq in Hb.
    split; [done|]. intros items [= <-]. by destruct (Ht (VArr vs) eq_refl) as (l & [= <-] & ?).
  - intros H. destruct (truthy parsed); [|apply default_typed]. apply fold_header_typed; [|apply default_typed].
    apply entries_items. intros fs ->. specialize (H fs eq_refl). apply distinct_obj in Hd' as [Hn _].
    clear -H Hn. induction fs as [|[k v] fs IH]; [constructor|]. cbn in H, Hn. apply NoDup_cons in Hn as [Hk Hn]. unfold str_eqb in H.
    case_bool_decide as E; subst.
    + constructor; [done|]. apply Forall_forall. intros e He E. destruct Hk. rewrite <- E. by apply list_elem_of_fmap_2.
    + constructor; [cbn; congruence|by apply IH].
Qed.
End HeaderType.

(** ** What is shown *)

Section Shown.
Context (lower : jsstr → jsstr) (parse_url : jsstr → option Address) (word_cp : N → bool).

(** The setting stored for a key, as a switch that is on without one. *)
Definition switch (config : obj) (k : jsstr) : bool :=
  match obj_get config k with Some v => parseHeaderNavBoolean lower v true | None => true end.

(** The members of the chat section that hold texts. *)
Definition text_member (section module : jsstr) : bool :=
  str_eqb section "chat" && (str_eqb module "canvasOrigin" || str_eqb module "canvasIcon").

(** The contract of the sidebar, on the settings as they are stored. *)
Definition module_shown (fs : obj) (section module : jsstr) : bool :=
  match obj_get fs section with
  | Some (VObj c) => switch c "enabled" && (text_member section module || switch c module)
  | _ => true
  end.

Definition shown_item (fs : obj) (id : jsstr) : bool :=
  match obj_get fs "custom" with Some (VObj c) => switch c ("custom:" ++ id) | _ => true end.

Definition not_false (v : option value) : bool := match v with Some (VBool false) => false | _ => true end.

Lemma str_eqb_refl s : str_eqb s s = true.
Proof. by apply str_eqb_spec. Qed.

Lemma not_false_bool b : not_false (Some (VBool b)) = b.
Proof. by destruct b. Qed.

(** A parsed section at a key. *)
Lemma section_at section c k : NoDup c.*1 → let config := fold_left (section_entry lower parse_url section) c
    [("enabled"%js, VBool (parseHeaderNavBoolean lower (prop (VObj c) "enabled") true))] in
  not_false (obj_get config k) = if str_eqb k "enabled" then switch c "enabled" else text_member section k || switch c k.
Proof.
  intros Hd. cbn zeta. rewrite fold_entries by eauto using section_entry_other, section_entry_own.
  unfold str_eqb at 1. case_bool_decide as Ek; subst.
  - unfold switch. cbn [prop]. destruct (obj_get c "enabled") as [v|]; [|done]. apply not_false_bool.
  - unfold switch. destruct (obj_get c k) as [v|].
    + unfold section_entry, text_member, str_eqb. rewrite (bool_decide_eq_false_2 _ Ek).
      repeat case_bool_decide; subst; cbn [andb orb]; rewrite obj_get_set_eq; rewrite ?not_false_bool; done.
    + cbn. unfold str_eqb. rewrite (bool_decide_eq_false_2 _ Ek). by rewrite orb_true_r.
Qed.

Lemma parsed_section fs k : NoDup fs.*1 → obj_get (fold_left (sidebar_entry lower parse_url) fs [("customItems"%js, VArr [])]) k =
  match obj_get fs k with
  | Some (VObj c) => Some (VObj (fold_left (section_entry lower parse_url k) c
                             [("enabled"%js, VBool (parseHeaderNavBoolean lower (prop (VObj c) "enabled") true))]))
  | Some (VArr vs) => if str_eqb k "customItems" then Some (VArr vs) else None
  | _ => if str_eqb k "customItems" then Some (VArr []) else None
  end.
Proof.
  intros Hd. rewrite fold_entries by eauto using sidebar_entry_other, sidebar_entry_own.
  destruct (obj_get fs k) as [v|]; [|done]. unfold sidebar_entry, str_eqb.
  case_bool_decide; subst; destruct v; cbn [andb is_array]; rewrite ?obj_get_set_eq; cbn; unfold str_eqb;
    first [done | by rewrite bool_decide_eq_true_2 | by rewrite bool_decide_eq_false_2].
Qed.

(** A section of the stored settings has distinct keys too. *)
Lemma section_distinct fs k c : keys_distinct (VObj fs) = true → obj_get fs k = Some (VObj c) → NoDup c.*1.
Proof.
  intros Hd E. apply (distinct_prop _ k) in Hd. unfold prop in Hd. rewrite E in Hd. by apply distinct_obj in Hd as [? _].
Qed.

(** The stored settings, when they are an object, are what counts. *)
Lemma enabled_parsed text status fs section module : JSON_parse text = Some status →
  parseHeaderNavRecord (prop status "SidebarModulesAdmin") = Some (VObj fs) →
  keys_distinct (VObj fs) = true ∧
  let parsed := fold_left (sidebar_entry lower parse_url) fs [("customItems"%js, VArr [])] in
  isSidebarModuleEnabled lower parse_url word_cp (Some text) section module =
    if str_eqb section "__custom" then
      match obj_get parsed "custom" with
      | Some (VObj custom) => not_false (obj_get custom (getSidebarCustomModuleKey word_cp module))
      | _ => true
      end
    else
      match obj_get parsed section with
      | Some (VObj config) => if not_false (obj_get config "enabled") then not_false (obj_get config module) else false
      | _ => true
      end.
Proof.
  intros Hp Hr. split.
  { eapply record_distinct; [|done]. by eapply distinct_prop, JSON_parse_distinct. }
  cbn zeta. unfold isSidebarModuleEnabled, getCachedStatus. rewrite Hp.
  destruct (nonempty text) eqn:En; [|by destruct text]. destruct status as [| | | | | |ms]; try done. cbn [truthy negb].
  set (raw := prop (VObj ms) "SidebarModulesAdmin") in *. clearbody raw. unfold parseSidebarModules. rewrite Hr. cbn [truthy entries].
  unfold parseHeaderNavRecord in Hr. destruct (_ || _); [done|]. done.
Qed.

(** A module of the sidebar is shown exactly when the stored settings say
    so: neither its section nor the module itself is switched off (a text or a
    number counts as the switch it spells, anything else as on; the two texts of
    the chat section are no switches), whatever the order of the settings and
    whether they are stored as an object or as the text of one. *)
Theorem sidebar_switch_exact text status fs section module : JSON_parse text = Some status →
  parseHeaderNavRecord (prop status "SidebarModulesAdmin") = Some (VObj fs) → section ≠ "__custom"%js →
  isSidebarModuleEnabled lower parse_url word_cp (Some text) section module = module_shown fs section module.
Proof.
  intros Hp Hr Hs. destruct (enabled_parsed text status fs section module Hp Hr) as [Hd ->].
  unfold str_eqb, module_shown. rewrite (bool_decide_eq_false_2 _ Hs). rewrite parsed_section by by apply distinct_obj in Hd as [? _].
  destruct (obj_get fs section) as [v|] eqn:E; [|by destruct (str_eqb section _)]. destruct v; try by destruct (str_eqb section _).
  pose proof (section_distinct fs section _ Hd E) as Hc. rewrite !section_at by done. rewrite str_eqb_refl.
  destruct (switch _ "enabled") eqn:En; [|done]. cbn [andb]. unfold str_eqb. case_bool_decide; subst; [|done].
  by rewrite En, orb_true_r.
Qed.

(** The switch of a custom item is the one stored under its identifier:
    normalising the identifier of an item that was read changes nothing, so
    turning the item off under the key the settings page writes hides this item
    and no other. *)
Theorem item_switch_exact `{!WordClass word_cp} localeCompare items inc i text status fs :
  i ∈ parseCustomNavItems lower localeCompare parse_url word_cp items inc →
  JSON_parse text = Some status → parseHeaderNavRecord (prop status "SidebarModulesAdmin") = Some (VObj fs) →
  isSidebarModuleEnabled lower parse_url word_cp (Some text) "__custom" (item_id i) = shown_item fs (item_id i).
Proof.
  intros Hi Hp Hr. destruct (enabled_parsed text status fs "__custom" (item_id i) Hp Hr) as [Hd ->].
  cbn [str_eqb]. rewrite str_eqb_refl. unfold shown_item. rewrite parsed_section by by apply distinct_obj in Hd as [? _].
  destruct (obj_get fs "custom") as [v|] eqn:E; [|done]. destruct v; try done.
  rewrite (key_normal word_cp (item_id i)) by by eapply item_id_normal. rewrite section_at by by eapply section_distinct. done.
Qed.
End Shown.

(** ** Access *)

Section Access.
Context (lower : jsstr → jsstr).

Lemma access_of_value a : access_of (access_value a) = a.
Proof. by destruct a. Qed.

Lemma fold_absent es o k : k ∉ es.*1 → obj_get (fold_left (header_entry lower) es o) k = obj_get o k.
Proof.
  revert o. induction es as [|[j v] es IH]; intros o; [done|]. cbn. rewrite not_elem_of_cons. intros [H1 H2].
  rewrite IH by done. by apply header_entry_other.
Qed.

Lemma imap_keys_absent {A} (f : A → value) (l : list A) k : forallb is_digit k = false → k ∉ (imap (λ i x, (Z_to_string (Z.of_nat i), f x)) l).*1.
Proof.
  intros Hk ([k' v] & -> & (i & Hi)%list_elem_of_lookup_1)%list_elem_of_fmap. rewrite list_lookup_imap in Hi.
  apply fmap_Some in Hi as (x & _ & [= -> ->]). by eapply index_key_ne.
Qed.

(** The setting stored for a module. *)
Definition access_setting (status : option value) (m : HeaderNavModule) : value :=
  match parseHeaderNavRecord (status_member status "HeaderNavModules") with Some parsed => prop parsed (module_key m) | None => VUndef end.

Lemma access_from_status status m : (∀ s, status = Some s → keys_distinct s = true) →
  getModuleAccessFromStatus lower status m = parseAccess lower (access_setting status m) DEFAULT_ACCESS.
Proof.
  intros Hs. unfold getModuleAccessFromStatus, parseHeaderNavModulesFromStatus, access_setting, parseHeaderNavModules.
  assert (keys_distinct (status_member status "HeaderNavModules") = true) as Hd.
  { destruct status as [s|]; [|done]. by apply distinct_prop, Hs. }
  assert (forallb is_digit (module_key m) = false) as Hk by by destruct m.
  assert (obj_get DEFAULT_HEADER_NAV_MODULES (module_key m) = Some (access_value DEFAULT_ACCESS)) as Hdef by by destruct m.
  destruct (parseHeaderNavRecord _) as [parsed|] eqn:Ep; [|by rewrite Hdef].
  apply (record_distinct _ _ Hd) in Ep. destruct parsed as [| | b | x | s | vs | fs]; cbn [entries fold_left]; try (destruct (truthy _); by rewrite Hdef).
  - destruct (truthy _); [|by rewrite Hdef]. rewrite fold_absent, Hdef; [done|]. by apply (imap_keys_absent (λ c, VStr [c])).
  - cbn [truthy]. rewrite fold_absent, Hdef; [done|]. by apply (imap_keys_absent id).
  - cbn [truthy prop]. rewrite fold_entries; [|apply header_entry_other|apply header_entry_own|by apply distinct_obj in Ep as [? _]].
    destruct (obj_get fs (module_key m)) as [v|]; [|by rewrite Hdef]. cbn [default].
    destruct m; cbn; by destruct (parseAccess lower v _).
Qed.

Lemma cached_distinct stored s : getCachedStatus stored = Some s → keys_distinct s = true.
Proof.
  unfold getCachedStatus. destruct stored as [raw|]; [|done]. destruct (nonempty raw); [|done].
  destruct (JSON_parse raw) as [v|] eqn:E; [|done]. apply JSON_parse_distinct in E. destruct v; by intros [= <-].
Qed.

(** Who may open the pricing and the ranking pages is what the setting
    stored for that page says, read over the default, whatever the browser has
    cached; a fresh status is cached so that every later check without a request
    gives the same answer; and when the status cannot be fetched the page is
    closed and the cache is kept. *)
Theorem module_access_exact stored m :
  getModuleAccess lower stored m = parseAccess lower (access_setting (getCachedStatus stored) m) DEFAULT_ACCESS ∧
  (∀ status, jsonable status → truthy status = true →
    let '(access, stored') := getFreshModuleAccess lower (Some (Some status)) stored m in
    access = parseAccess lower (access_setting (Some status) m) DEFAULT_ACCESS ∧
    ∀ m', getModuleAccess lower stored' m' = getModuleAccessFromStatus lower (Some status) m') ∧
  getFreshModuleAccess lower None stored m = (MkAccess false true, stored).
Proof.
  split_and!; [|intros status Hj Ht|done].
  - apply access_from_status. intros s. apply cached_distinct.
  - destruct (JSON_parse_stringify status Hj) as (t & Hs & Hh & Hp). unfold getFreshModuleAccess. rewrite Ht, Hs. split.
    + apply access_from_status. intros s [= <-]. by eapply JSON_parse_distinct.
    + intros m'. unfold getModuleAccess, getCachedStatus. rewrite Hp. destruct t as [|c t]; [done|]. by destruct status.
Qed.
End Access.

(** ** Examples *)

Definition sample_settings : obj :=
  [("chat"%js, VObj [("enabled"%js, VBool true); ("canvasOrigin"%js, VStr "false"); ("playground"%js, VStr " False ")]);
   ("custom"%js, VObj [("custom:my-tools"%js, VNum (of_Z 0))])].

Definition sample_status : value :=
  VObj [("HeaderNavModules"%js, VStr "{}"); ("SidebarModulesAdmin"%js, VObj sample_settings)].

Definition sample_text : jsstr := default [] (JSON_stringify sample_status).

Definition sample_modules : obj := [("pricing"%js, VStr "0"); ("extra"%js, VNum (of_Z 1)); ("customItems"%js, VNull)].
Definition sample_untyped : obj := [("customItems"%js, VArr [VNum (of_Z 42)])].

Lemma header_modules_typed_witness :
  header_typed (parseHeaderNavModules toLowerCase (VObj sample_modules)) ∧
  ¬ header_typed (parseHeaderNavModules toLowerCase (VObj sample_untyped)).
Proof.
  split.
  - apply (header_modules_typed toLowerCase (VObj sample_modules)); [by vm_compute|]. intros fs [= <-]. cbv zeta. split; [by vm_compute|].
    intros items E. vm_compute in E. discriminate E.
  - intros H. apply (header_modules_typed toLowerCase (VObj sample_untyped)) with (fs := sample_untyped) in H; [|by vm_compute..].
    destruct H as [_ H]. specialize (H _ eq_refl). apply Forall_cons in H as [[[fs H] _] _]. discriminate H.
Defined.

Lemma sidebar_switch_exact_witness :
  isSidebarModuleEnabled toLowerCase sample_url ascii_word (Some sample_text) "chat" "playground" = false ∧
  isSidebarModuleEnabled toLowerCase sample_url ascii_word (Some sample_text) "chat" "canvasOrigin" = true.
Proof.
  split.
  - rewrite (sidebar_switch_exact toLowerCase sample_url ascii_word sample_text sample_status sample_settings); by vm_compute.
  - rewrite (sidebar_switch_exact toLowerCase sample_url ascii_word sample_text sample_status sample_settings); by vm_compute.
Defined.

Lemma item_switch_exact_witness : ∃ i,
  i ∈ parseCustomNavItems toLowerCase cmp_strings sample_url ascii_word sample_sidebar true ∧
  isSidebarModuleEnabled toLowerCase sample_url ascii_word (Some sample_text) "__custom" (item_id i) = false.
Proof.
  set (items := parseCustomNavItems toLowerCase cmp_strings sample_url ascii_word sample_sidebar true).
  assert (is_Some (head items)) as [i Hi] by (vm_compute; by eexists). exists i.
  assert (i ∈ items) as Hin by (destruct items; [done|]; injection Hi as <-; by left). split; [done|].
  rewrite (item_switch_exact toLowerCase sample_url ascii_word cmp_strings sample_sidebar true i sample_text sample_status sample_settings Hin);
    [|by vm_compute|by vm_compute].
  assert (item_id i = "my-tools"%js) as -> by (vm_compute in Hi; by injection Hi as <-). by vm_compute.
Defined.

Lemma module_access_exact_witness :
  getFreshModuleAccess toLowerCase (Some (Some sample_status)) None pricing = (MkAccess true false, Some sample_text) ∧
  getModuleAccess toLowerCase (Some sample_text) pricing = MkAccess true false.
Proof.
  split; [by vm_compute|].
  destruct (module_access_exact toLowerCase (Some sample_text) pricing) as [-> _]. by vm_compute.
Defined.
End NavModulesFacts.
