(* ===== verification/PasskeyEncoding.v ===== *)
(** * Bytes of passkeys as text
    ([web/src/lib/passkey.ts])

    The server sends and expects the bytes of a passkey (challenges, ids,
    signatures) as base64url text.  [atob] and [btoa] are as the HTML standard
    defines them (forgiving-base64); where a host has neither, [Buffer] is used,
    which is a parameter of the record [Globals]. *)

From S2P Require Import Prelude JsString.
Local Open Scope N_scope.

Module PasskeyEncoding.

Abbreviation bytes := (list N).

(** ** Base64 *)

Definition b64_char (v : N) : N :=
  if v <? 26 then v + 65 else if v <? 52 then v + 71 else if v <? 62 then v - 4 else if v =? 62 then 43 else 47.

Definition b64_val (c : N) : option N :=
  if (65 <=? c) && (c <=? 90) then Some (c - 65)
  else if (97 <=? c) && (c <=? 122) then Some (c - 71)
  else if (48 <=? c) && (c <=? 57) then Some (c + 4)
  else if c =? 43 then Some 62 else if c =? 47 then Some 63 else None.

(** The groups of six bits of bytes, the last one filled with zeros. *)
Fixpoint sextets (bs : bytes) : list N :=
  match bs with
  | a :: b :: c :: r => a / 4 :: (a mod 4) * 16 + b / 16 :: (b mod 16) * 4 + c / 64 :: c mod 64 :: sextets r
  | [a; b] => [a / 4; (a mod 4) * 16 + b / 16; (b mod 16) * 4]
  | [a] => [a / 4; (a mod 4) * 16]
  | [] => []
  end.

(** Bytes of groups of six bits; what is left over is dropped. *)
Fixpoint octets (vs : list N) : bytes :=
  match vs with
  | a :: b :: c :: d :: r => a * 4 + b / 16 :: (b mod 16) * 16 + c / 4 :: (c mod 4) * 64 + d :: octets r
  | [a; b; c] => [a * 4 + b / 16; (b mod 16) * 16 + c / 4]
  | [a; b] => [a * 4 + b / 16]
  | _ => []
  end.

(** The number of [=] that fill a text of length [n] up. *)
Definition padding (n : nat) : nat := (4 - n mod 4) mod 4.

(** [None] when the text has a character that is no byte. *)
Definition btoa (s : jsstr) : option jsstr :=
  if forallb (λ c, c <? 256) s
  then let t := map b64_char (sextets s) in Some (t ++ replicate (padding (length t)) 61)
  else None.

Definition ascii_space (c : N) : bool := (c =? 9) || (c =? 10) || (c =? 12) || (c =? 13) || (c =? 32).

Definition atob (s : jsstr) : option jsstr :=
  let t := List.filter (λ c, negb (ascii_space c)) s in
  let t := if Nat.eqb (length t mod 4) 0
           then match reverse t with 61 :: 61 :: r => reverse r | 61 :: r => reverse r | _ => t end
           else t in
  if Nat.eqb (length t mod 4) 1 then None
  else vs ← mapM b64_val t; Some (octets vs).

(** ** The host *)

Record Globals := MkGlobals {
  g_atob : option (jsstr → option jsstr);
  g_btoa : option (jsstr → option jsstr);
  g_buffer : option ((jsstr → jsstr) * (jsstr → jsstr));
}.

Definition browser : Globals := MkGlobals (Some atob) (Some btoa) None.

Definition decode (g : Globals) (s : jsstr) : option jsstr :=
  match g_atob g with
  | Some f => f s
  | None => match g_buffer g with Some (f, _) => Some (f s) | None => None end
  end.
Definition encode (g : Globals) (s : jsstr) : option jsstr :=
  match g_btoa g with
  | Some f => f s
  | None => match g_buffer g with Some (_, f) => Some (f s) | None => None end
  end.

(** ** The two functions *)

Definition base64UrlToArrayBuffer (g : Globals) (value : option jsstr) : option bytes :=
  match value with
  | None | Some [] => Some []
  | Some v =>
    let base64 := replace_char 95 "/" (replace_char 45 "+" (v ++ replicate (padding (length v)) 61)) in
    match decode g base64 with Some binary => Some (map (λ c, c mod 256) binary) | None => None end
  end.

(** [s.replaceAll(/=+$/g, '')] *)
Fixpoint drop_eq (s : jsstr) : jsstr := match s with 61 :: r => drop_eq r | _ => s end.
Definition strip_eq (s : jsstr) : jsstr := reverse (drop_eq (reverse s)).

Definition arrayBufferToBase64Url (g : Globals) (buffer : option bytes) : option jsstr :=
  match buffer with
  | None => Some []
  | Some bs => match encode g bs with Some t => Some (strip_eq (replace_char 47 "_" (replace_char 43 "-" t))) | None => None end
  end.

(** ** Reading back *)

Definition url_char (v : N) : N := if v =? 62 then 45 else if v =? 63 then 95 else b64_char v.

Lemma bytes_ind3 (P : bytes → Prop) : P [] → (∀ a, P [a]) → (∀ a b, P [a; b]) → (∀ a b c r, P r → P (a :: b :: c :: r)) → ∀ bs, P bs.
Proof.
  intros H0 H1 H2 H3. fix IH 1. intros [|a [|b [|c r]]]; [exact H0|apply H1|apply H2|apply H3, IH].
Qed.

Ltac divmod := Z.to_euclidean_division_equations; lia.

Lemma sextets_small bs : Forall (λ b, b < 256) bs → Forall (λ v, v < 64) (sextets bs).
Proof.
  induction bs as [|a|a b|a b c r IH] using bytes_ind3; intros H; cbn [sextets]; rewrite ?Forall_cons in H; repeat (apply Forall_cons; split); try (apply Forall_nil; done).
  all: try (destruct_and?; zify; divmod). apply IH. by destruct_and?.
Qed.

Lemma octets_sextets bs : Forall (λ b, b < 256) bs → octets (sextets bs) = bs.
Proof.
  induction bs as [|a|a b|a b c r IH] using bytes_ind3; intros H; cbn [sextets octets]; [done|..]; rewrite ?Forall_cons in H; destruct_and?.
  - f_equal. zify; divmod.
  - f_equal; [zify; divmod|]. f_equal. zify; divmod.
  - f_equal; [zify; divmod|]. f_equal; [zify; divmod|]. f_equal; [zify; divmod|]. by apply IH.
Qed.

(** The letters of a group: what reads them, and what tells them from the
    other characters. *)
Lemma letter_facts v : v < 64 →
  b64_val (b64_char v) = Some v ∧ ascii_space (b64_char v) = false ∧ b64_char v ≠ 61 ∧ url_char v ≠ 61 ∧
  (let c := (if b64_char v =? 43 then 45 else b64_char v) in if c =? 47 then 95 else c) = url_char v ∧
  (let c := (if url_char v =? 45 then 43 else url_char v) in if c =? 95 then 47 else c) = b64_char v ∧
  (is_word (url_char v) || (url_char v =? 45)) = true.
Proof.
  intros Hv. unfold b64_val, url_char, b64_char, ascii_space, is_word, is_digit.
  destruct (v <? 26) eqn:?, (v <? 52) eqn:?, (v <? 62) eqn:?, (v =? 62) eqn:?, (v =? 63) eqn:?; try lia.
  all: split_and!; cbv zeta; repeat case_match; try lia; f_equal; lia.
Qed.

Lemma replace_one c d (s : jsstr) : replace_char c [d] s = map (λ x, if x =? c then d else x) s.
Proof. unfold replace_char. induction s as [|x s IH]; [done|]. cbn. rewrite IH. by destruct (x =? c). Qed.

Lemma map_replicate (f : N → N) k x : map f (replicate k x) = replicate k (f x).
Proof. induction k as [|k IH]; cbn; [done|]. by rewrite IH. Qed.

Lemma sextets_length bs : (length (sextets bs) mod 4 ≠ 1)%nat ∧ length (sextets bs) = ((4 * length bs + 2) / 3)%nat.
Proof.
  induction bs as [|a|a b|a b c r IH] using bytes_ind3; [done..|]. cbn [sextets length]. destruct IH as [H1 H2].
  change (S (S (S (S (length (sextets r)))))) with (4 + length (sextets r))%nat. rewrite (Nat.add_comm 4). split.
  - replace (length (sextets r) + 4)%nat with (length (sextets r) + 1 * 4)%nat by lia. by rewrite Nat.Div0.mod_add.
  - rewrite H2. replace (4 * S (S (S (length r))) + 2)%nat with (4 * length r + 2 + 4 * 3)%nat by lia. by rewrite Nat.div_add by lia.
Qed.

Lemma strip_filled s k : Forall (λ c, c ≠ 61) s → strip_eq (s ++ replicate k 61) = s.
Proof.
  intros Hs. unfold strip_eq. rewrite reverse_app, reverse_replicate.
  assert (drop_eq (replicate k 61 ++ reverse s) = drop_eq (reverse s)) as -> by (induction k; done).
  assert (drop_eq (reverse s) = reverse s) as ->; [|apply reverse_involutive].
  apply Forall_reverse in Hs. destruct (reverse s) as [|c r]; [done|]. apply Forall_cons in Hs as [Hc _]. cbn.
  destruct c as [|c]; [done|]. repeat (destruct c as [c|c|]; try done).
Qed.

(** The text of bytes. *)
Lemma url_text bs : Forall (λ b, b < 256) bs → arrayBufferToBase64Url browser (Some bs) = Some (map url_char (sextets bs)).
Proof.
  intros Hb. unfold arrayBufferToBase64Url, encode, browser, btoa. cbn [g_btoa].
  assert (forallb (λ c, c <? 256) bs = true) as ->.
  { apply forallb_forall. intros x Hx. rewrite Forall_forall in Hb. apply N.ltb_lt, Hb. by apply list_elem_of_In. }
  pose proof (sextets_small bs Hb) as Hs. rewrite !replace_one, map_map, map_app. f_equal.
  assert (map (λ x, let c := (if x =? 43 then 45 else x) in if c =? 47 then 95 else c) (map b64_char (sextets bs)) = map url_char (sextets bs)) as Hm.
  { rewrite map_map. apply map_ext_in. intros v Hv. rewrite Forall_forall in Hs. apply (letter_facts v), Hs, list_elem_of_In, Hv. }
  cbv zeta in Hm. rewrite Hm. rewrite map_replicate. apply strip_filled. apply Forall_forall. intros c (v & <- & Hv)%list_elem_of_In%in_map_iff.
  rewrite Forall_forall in Hs. apply (letter_facts v), Hs. by apply list_elem_of_In.
Qed.

Lemma filled_length n : (n mod 4 ≠ 1)%nat → ((n + padding n) mod 4 = 0)%nat ∧ (padding n = 0 ∨ padding n = 1 ∨ padding n = 2)%nat.
Proof.
  unfold padding. intros H. pose proof (Nat.div_mod_eq n 4) as E. pose proof (Nat.mod_upper_bound n 4 ltac:(done)) as Hb.
  assert (∀ k, ((4 * (n / 4) + 4 * k) mod 4 = 0)%nat) as Hz by (intros k; rewrite <- Nat.mul_add_distr_l, Nat.mul_comm; apply Nat.Div0.mod_mul).
  destruct (n mod 4)%nat as [|[|[|[|m]]]]; try lia; cbn -[Nat.modulo Nat.mul Nat.div].
  - split; [|auto]. rewrite Nat.add_0_r, E. exact (Hz 0%nat).
  - split; [|auto]. rewrite E, <- Nat.add_assoc. exact (Hz 1%nat).
  - split; [|auto]. rewrite E, <- Nat.add_assoc. exact (Hz 1%nat).
Qed.

Lemma mapM_letters vs : Forall (λ v, v < 64) vs → mapM b64_val (map b64_char vs) = Some vs.
Proof. induction 1 as [|v vs Hv _ IH]; [done|]. cbn. rewrite (proj1 (letter_facts v Hv)), IH. done. Qed.

(** What [btoa] writes, [atob] reads. *)
Lemma atob_filled vs : Forall (λ v, v < 64) vs → (length vs mod 4 ≠ 1)%nat →
  atob (map b64_char vs ++ replicate (padding (length vs)) 61) = Some (octets vs).
Proof.
  intros Hv Hl. unfold atob. destruct (filled_length _ Hl) as [Hm Hk].
  assert (List.filter (λ c, negb (ascii_space c)) (map b64_char vs ++ replicate (padding (length vs)) 61) = map b64_char vs ++ replicate (padding (length vs)) 61) as ->.
  { apply list_filter_all. intros c [Hc|Hc]%elem_of_app; [|by apply elem_of_replicate in Hc as [-> _]]. revert c Hc. intros c (v & <- & Hin)%list_elem_of_In%in_map_iff. rewrite Forall_forall in Hv.
    destruct (letter_facts v) as (_ & -> & _); [|done]. by apply Hv, list_elem_of_In. }
  rewrite length_app, length_map, length_replicate, Hm. cbn [Nat.eqb].
  assert (match reverse (map b64_char vs ++ replicate (padding (length vs)) 61) with 61 :: 61 :: r => reverse r | 61 :: r => reverse r
          | _ => map b64_char vs ++ replicate (padding (length vs)) 61 end = map b64_char vs) as ->.
  { rewrite reverse_app, reverse_replicate. assert (Forall (λ c, c ≠ 61) (reverse (map b64_char vs))) as Hr.
    { apply Forall_reverse, Forall_forall. intros c (v & <- & Hin)%list_elem_of_In%in_map_iff. rewrite Forall_forall in Hv.
      apply (letter_facts v), Hv. by apply list_elem_of_In. }
    remember (reverse (map b64_char vs)) as R eqn:ER. assert (map b64_char vs = reverse R) as -> by (rewrite ER; symmetry; apply reverse_involutive).
    clear ER. destruct Hk as [-> |[-> | -> ]]; cbn [replicate app].
    - rewrite app_nil_r. destruct R as [|c r]; [done|]. apply Forall_cons in Hr as [Hc _].
      destruct c as [|c]; [done|]. repeat (destruct c as [c|c|]; try done).
    - destruct R as [|c r]; [done|]. apply Forall_cons in Hr as [Hc _].
      destruct c as [|c]; [done|]. repeat (destruct c as [c|c|]; try done).
    - done. }
  rewrite length_map. destruct (Nat.eqb_spec (length vs mod 4) 1) as [|_]; [done|]. by rewrite mapM_letters.
Qed.

(** C21: The bytes of a passkey survive the way through text: what
    [arrayBufferToBase64Url] writes is read back by [base64UrlToArrayBuffer] as
    the same bytes, consists of letters, digits, [-] and [_] only, without
    filling, and has four characters for every three bytes. *)
Theorem passkey_bytes_round_trip bs : Forall (λ b, b < 256) bs →
  ∃ t, arrayBufferToBase64Url browser (Some bs) = Some t ∧ base64UrlToArrayBuffer browser (Some t) = Some bs ∧
       forallb (λ c, is_word c || (c =? 45)) t = true ∧ length t = ((4 * length bs + 2) / 3)%nat.
Proof.
  intros Hb. exists (map url_char (sextets bs)). split; [by apply url_text|]. pose proof (sextets_small bs Hb) as Hs. pose proof (sextets_length bs) as [Hl Hn].
  split_and!; [| |by rewrite length_map].
  - destruct (map url_char (sextets bs)) as [|c t] eqn:E; [by destruct bs as [|? [|? [|? ?]]]|]. rewrite <- E. clear E c t.
    assert (∀ t, t = map url_char (sextets bs) → t ≠ [] → base64UrlToArrayBuffer browser (Some t) = Some bs) as Hgo; [|].
    2:{ destruct (map url_char (sextets bs)) eqn:E; [by destruct bs as [|? [|? [|? ?]]]|]. apply Hgo; [done|done]. }
    intros t -> Hne. unfold base64UrlToArrayBuffer. destruct (map url_char (sextets bs)) as [|c t] eqn:E; [done|]. rewrite <- E. clear Hne.
    rewrite !replace_one, map_map, map_app, length_map, map_replicate.
    assert (map (λ x, let c := (if x =? 45 then 43 else x) in if c =? 95 then 47 else c) (map url_char (sextets bs)) = map b64_char (sextets bs)) as Hm.
    { rewrite map_map. apply map_ext_in. intros v Hv. rewrite Forall_forall in Hs. apply (letter_facts v), Hs, list_elem_of_In, Hv. }
    cbv zeta in Hm. rewrite Hm. cbn [decode browser g_atob N.eqb Pos.eqb]. rewrite atob_filled, octets_sextets by done. f_equal.
    rewrite <- (map_id bs) at 2. apply map_ext_in. intros x Hx. rewrite Forall_forall in Hb. apply N.mod_small, Hb. by apply list_elem_of_In.
  - apply forallb_forall. intros c (v & <- & Hv)%in_map_iff. rewrite Forall_forall in Hs. apply (letter_facts v), Hs. by apply list_elem_of_In.
Qed.

Lemma passkey_bytes_round_trip_witness :
  Forall (λ b, b < 256) [251; 255; 1; 0] ∧ ∃ t, arrayBufferToBase64Url browser (Some [251; 255; 1; 0]) = Some t ∧ base64UrlToArrayBuffer browser (Some t) = Some [251; 255; 1; 0].
Proof.
  assert (Forall (λ b, b < 256) [251; 255; 1; 0]) as Hb by (by apply (bool_decide_unpack _)). split; [done|].
  destruct (passkey_bytes_round_trip _ Hb) as (t & H1 & H2 & _). by exists t.
Defined.

End PasskeyEncoding.
