(* ===== verification/SecureVerification.v ===== *)
(** * Verification before sensitive actions
    ([web/src/features/auth/secure-verification/hooks/use-secure-verification.ts],
    [web/src/features/auth/secure-verification/api.ts],
    [web/src/features/auth/secure-verification/components/secure-verification-dialog.tsx],
    [web/src/lib/secure-verification.ts])

    A protected call that the server refuses is repeated with a proof, which the
    server gives for a scope after a second factor or a passkey.  The hook keeps
    the call in a dialog's state while the visitor verifies.

    The hook is a state machine.  A callback sees the state of the last render,
    which every event follows; an exception before the first [await] of
    [verify] comes back before any other event.  Protected calls are numbers;
    [v_calls] are the calls that were made, with the proof they were given, and
    [v_runs] the executions, each at the [await] it stands at.  What a server or
    an authenticator answers is in the events.  [onError] is called with every
    failure of an execution, together with its notice; [v_succeeded] are the
    calls of [onSuccess]. *)

From S2P Require Import Prelude JsString JsNumber JsValue.

Module SecureVerification.

(** ** Data *)

Inductive VerificationMethod := TwoFA | Passkey.
Inductive SecurityProofScope := ChannelKeyRead | PasskeyRegister | PasskeyDelete.

#[export] Instance method_eq_dec : EqDecision VerificationMethod.
Proof. solve_decision. Defined.
#[export] Instance scope_eq_dec : EqDecision SecurityProofScope.
Proof. solve_decision. Defined.

Record VerificationMethods := MkMethods { has2FA : bool; hasPasskey : bool; passkeySupported : bool }.

Record StartVerificationOptions := MkStart {
  preferredMethod : option VerificationMethod;
  s_scope : SecurityProofScope;
  s_title : option jsstr;
  s_description : option jsstr;
}.

Record InternalState := MkInternal {
  method : option VerificationMethod;
  loading : bool;
  code : jsstr;
  scope : option SecurityProofScope;
  title : option jsstr;
  i_description : option jsstr;
  apiCall : option nat;
}.

Definition defaultMethods : VerificationMethods := MkMethods false false false.
Definition initialState : InternalState := MkInternal None false [] None None None None.

(** Where an execution stands: in [verify], in the protected call with its
    proof, or at its end, with the proof it got. *)
Inductive RunPhase := Verifying | Calling (proof : jsstr) | Over (proof : option jsstr).
Record Run := MkRun { x_call : nat; x_scope : SecurityProofScope; x_method : VerificationMethod; x_code : jsstr; x_phase : RunPhase }.

(** What the visitor is told. *)
Inductive VerifyNotice := NError (m : jsstr) | NInfo (m : jsstr) | NSuccess (m : jsstr).

Record Hook := MkHook {
  v_methods : VerificationMethods;
  v_state : InternalState;
  v_open : bool;
  v_runs : list Run;
  v_calls : list (nat * option jsstr);
  v_notices : list VerifyNotice;
  v_succeeded : list nat;
}.

Definition set_methods m h := MkHook m (v_state h) (v_open h) (v_runs h) (v_calls h) (v_notices h) (v_succeeded h).
Definition set_internal f h := MkHook (v_methods h) (f (v_state h)) (v_open h) (v_runs h) (v_calls h) (v_notices h) (v_succeeded h).
Definition set_open b h := MkHook (v_methods h) (v_state h) b (v_runs h) (v_calls h) (v_notices h) (v_succeeded h).
Definition set_runs f h := MkHook (v_methods h) (v_state h) (v_open h) (f (v_runs h)) (v_calls h) (v_notices h) (v_succeeded h).
Definition log_call c h := MkHook (v_methods h) (v_state h) (v_open h) (v_runs h) (v_calls h ++ [c]) (v_notices h) (v_succeeded h).
Definition tell n h := MkHook (v_methods h) (v_state h) (v_open h) (v_runs h) (v_calls h) (v_notices h ++ [n]) (v_succeeded h).
Definition succeeded c h := MkHook (v_methods h) (v_state h) (v_open h) (v_runs h) (v_calls h) (v_notices h) (v_succeeded h ++ [c]).

Definition with_loading b s := MkInternal (method s) b (code s) (scope s) (title s) (i_description s) (apiCall s).

(** The options of the hook; [closeCancels]: whether its dialog, closed by the
    keyboard or by a click outside, is cancelled (the channel drawer) or only
    hidden (the passkey card). *)
Record HookOptions := MkOptions { autoReset : bool; successMessage : jsstr; closeCancels : bool }.

Definition mounted_hook : Hook := MkHook defaultMethods initialState false [] [] [] [].

(** ** Methods *)

Record StatusAnswer := MkStatus { success : bool; enabled : bool }.

(** [None] when one of the three requests fails. *)
Definition checkVerificationMethods (answers : option (StatusAnswer * StatusAnswer * bool)) : VerificationMethods :=
  match answers with
  | Some (twoFA, passkey, supported) => MkMethods (success twoFA && enabled twoFA) (success passkey && enabled passkey) supported
  | None => MkMethods false false false
  end.

Definition canUseMethod (m : VerificationMethods) (x : VerificationMethod) : bool :=
  match x with TwoFA => has2FA m | Passkey => hasPasskey m && passkeySupported m end.

Definition recommendedMethod (m : VerificationMethods) : option VerificationMethod :=
  if hasPasskey m && passkeySupported m then Some Passkey else if has2FA m then Some TwoFA else None.

(** The method a verification starts with. *)
Definition defaultMethod (m : VerificationMethods) (preferred : option VerificationMethod) : option VerificationMethod :=
  let d := match preferred with
           | Some Passkey => if negb (hasPasskey m) || negb (passkeySupported m) then None else Some Passkey
           | Some TwoFA => if negb (has2FA m) then None else Some TwoFA
           | None => None
           end in
  match d with
  | Some x => Some x
  | None => if hasPasskey m && passkeySupported m then Some Passkey else if has2FA m then Some TwoFA else None
  end.

(** ** Starting *)

(** What follows the answer on the methods. *)
Definition startVerification (call : nat) (config : StartVerificationOptions) (m : VerificationMethods) (h : Hook) : Hook :=
  let h := set_methods m h in
  if negb (has2FA m) && negb (hasPasskey m)
  then tell (NError "Please enable Two-factor Authentication or Passkey before proceeding") h
  else set_open true (set_internal (λ s, MkInternal (defaultMethod m (preferredMethod config)) (loading s) (code s) (Some (s_scope config))
                                        (s_title config) (s_description config) (Some call)) h).

Definition resetVerification (h : Hook) : Hook := set_open false (set_internal (λ _, initialState) h).

(** ** Proofs *)

(** The answer of the server to a code. *)
Definition verifyTwoFA (ok : bool) (message proof_token : jsstr) : jsstr + jsstr :=
  if negb ok then inl (if nonempty message then message else "Verification failed"%js)
  else if negb (nonempty proof_token) then inl "Verification proof was not returned"%js
  else inr proof_token.

(** The answers on the way of a passkey: the first request, the options (when
    they can be read), the token of the flow, the authenticator, the assertion
    built from its credential ([buildAssertionResult], which may throw or give
    [null]), the second request. *)
Record PasskeyAnswers := MkPasskey {
  p_supported : bool;
  p_begin : jsstr + (bool * jsstr);
  p_options : jsstr + unit;
  p_flow_token : jsstr;
  p_credential : (jsstr * jsstr) + bool;
  p_assertion : jsstr + bool;
  p_finish : jsstr + (bool * jsstr * jsstr);
}.

(** The message of an exception of the authenticator, by its name. *)
Definition passkey_failure (name message : jsstr) : jsstr :=
  if str_eqb name "NotAllowedError" then "Passkey verification was cancelled or timed out"
  else if str_eqb name "InvalidStateError" then "Passkey verification is not available in the current state"
  else message.

Definition verifyPasskey (a : PasskeyAnswers) : jsstr + jsstr :=
  if negb (p_supported a) then inl "Passkey verification is not supported in this environment"%js
  else match p_begin a with
       | inl m => inl m
       | inr (ok, message) =>
         if negb ok then inl (if nonempty message then message else "Failed to start verification"%js)
         else match p_options a with
              | inl m => inl m
              | inr _ =>
                if negb (nonempty (p_flow_token a)) then inl "Verification flow expired"%js
                else match p_credential a with
                     | inl (name, message) => inl (passkey_failure name message)
                     | inr false => inl "Passkey verification was cancelled"%js
                     | inr true =>
                       match p_assertion a with
                       | inl m => inl m
                       | inr false => inl "Unable to build Passkey assertion"%js
                       | inr true =>
                         match p_finish a with
                         | inl m => inl m
                         | inr (ok, message, token) =>
                           if negb ok then inl (if nonempty message then message else "Passkey verification failed"%js)
                           else if negb (nonempty token) then inl "Verification proof was not returned"%js
                           else inr token
                         end
                       end
                     end
              end
       end.

(** ** Executing *)

(** The end of an execution that throws: the [catch] and the [finally]. *)
Definition run_fails (m : jsstr) (h : Hook) : Hook := set_internal (with_loading false) (tell (NError m) h).

Definition executeVerification (m : option VerificationMethod) (c : option jsstr) (h : Hook) : Hook :=
  let s := v_state h in
  match apiCall s with
  | None => tell (NError "Verification is not configured properly") h
  | Some call =>
    match (match m with Some x => Some x | None => method s end) with
    | None => tell (NError "Select a verification method first") h
    | Some actual =>
      let h := set_internal (with_loading true) h in
      match scope s with
      | None => run_fails "Verification scope is missing" h
      | Some sc =>
        let text := default (code s) c in
        if bool_decide (actual = TwoFA) && negb (nonempty (trim text))
        then run_fails "Please enter the verification code or backup code" h
        else set_runs (λ l, l ++ [MkRun call sc actual text Verifying]) h
      end
    end
  end.

Definition set_phase (i : nat) (p : RunPhase) : list Run → list Run :=
  alter (λ r, MkRun (x_call r) (x_scope r) (x_method r) (x_code r) p) i.

(** The end of [verify]. *)
Definition verify_answered (i : nat) (answer : jsstr + jsstr) (h : Hook) : Hook :=
  match v_runs h !! i with
  | Some (MkRun call _ _ _ Verifying) =>
    match answer with
    | inl m => run_fails m (set_runs (set_phase i (Over None)) h)
    | inr proof => log_call (call, Some proof) (set_runs (set_phase i (Calling proof)) h)
    end
  | _ => h
  end.

(** The end of the protected call; [successMessage] is [''] when there is none. *)
Definition call_answered (opts : HookOptions) (i : nat) (answer : jsstr + unit) (h : Hook) : Hook :=
  match v_runs h !! i with
  | Some (MkRun call _ _ _ (Calling proof)) =>
    let h := set_runs (set_phase i (Over (Some proof))) h in
    match answer with
    | inl m => run_fails m h
    | inr _ =>
      let h := if nonempty (successMessage opts) then tell (NSuccess (successMessage opts)) h else h in
      let h := succeeded call h in
      set_internal (with_loading false) (if autoReset opts then resetVerification h else h)
    end
  | _ => h
  end.

(** ** Calls that may need a proof *)

Definition verificationCodes : list jsstr :=
  ["VERIFICATION_REQUIRED"; "VERIFICATION_EXPIRED"; "VERIFICATION_INVALID"; "SECURITY_PROOF_REQUIRED"; "SECURITY_PROOF_EXPIRED";
   "SECURITY_PROOF_INVALID"; "SECURITY_PROOF_SCOPE_MISMATCH"; "SECURITY_PROOF_METHOD_MISMATCH"]%js.

(** An error of a call: the status and the body of the answer, if there is one. *)
Record CallError := MkError { e_status : option Z; e_code : value; e_message : value }.

Definition isVerificationRequiredError (e : CallError) : bool :=
  bool_decide (e_status e = Some 403%Z) && match e_code e with VStr c => set_has verificationCodes c | _ => false end.

Definition extractVerificationInfo (e : CallError) : jsstr :=
  match e_message e with VUndef | VNull => "Secure verification is required" | v => to_string v end.

(** The first attempt is refused: [inl] passes the exception on. *)
Definition withVerification (call : nat) (config : StartVerificationOptions) (e : CallError) (m : VerificationMethods) (h : Hook) : unit + Hook :=
  if isVerificationRequiredError e then inr (startVerification call config m (tell (NInfo (extractVerificationInfo e)) h)) else inl tt.

(** ** The dialog *)

Definition availableTabs (m : VerificationMethods) : list VerificationMethod :=
  (if has2FA m then [TwoFA] else []) ++ (if hasPasskey m && passkeySupported m then [Passkey] else []).

Definition activeMethod (m : VerificationMethods) (s : InternalState) : option VerificationMethod :=
  match method s with Some x => Some x | None => head (availableTabs m) end.

Definition verifyDisabled (m : VerificationMethods) (s : InternalState) : bool :=
  loading s || (bool_decide (activeMethod m s = Some TwoFA) && (negb (nonempty (trim (code s))) || Nat.ltb (length (code s)) 6)).

(** A press of the button that verifies. *)
Definition handleVerify (h : Hook) : Hook :=
  if negb (v_open h) || bool_decide (availableTabs (v_methods h) = []) || verifyDisabled (v_methods h) (v_state h) then h
  else match activeMethod (v_methods h) (v_state h) with
       | None => h
       | Some x => executeVerification (Some x) (if bool_decide (x = TwoFA) then Some (code (v_state h)) else None) h
       end.

(** ** The machine *)

Inductive VerifyEvent :=
  | MethodsFetched (answers : option (StatusAnswer * StatusAnswer * bool))
  | Started (call : nat) (config : StartVerificationOptions) (answers : option (StatusAnswer * StatusAnswer * bool))
  | Attempt (call : nat)
  | Refused (call : nat) (config : StartVerificationOptions) (e : CallError) (answers : option (StatusAnswer * StatusAnswer * bool))
  | Press
  | TwoFAAnswered (i : nat) (answer : jsstr + (bool * jsstr * jsstr))
  | PasskeyAnswered (i : nat) (a : PasskeyAnswers)
  | CallAnswered (i : nat) (answer : jsstr + unit)
  | SetCode (c : jsstr)
  | SwitchMethod (x : VerificationMethod)
  | CancelPressed
  | OpenChanged (b : bool).

(** The cancel button is disabled while loading; closing by the keyboard or
    outside is not. *)
Definition hook_step (opts : HookOptions) (ev : VerifyEvent) (h : Hook) : Hook :=
  match ev with
  | MethodsFetched a => set_methods (checkVerificationMethods a) h
  | Started call config a => startVerification call config (checkVerificationMethods a) h
  | Attempt call => log_call (call, None) h
  | Refused call config e a => match withVerification call config e (checkVerificationMethods a) h with inr h' => h' | inl _ => h end
  | Press => handleVerify h
  | TwoFAAnswered i a =>
    match v_runs h !! i with
    | Some (MkRun _ _ TwoFA _ Verifying) =>
      verify_answered i (match a with inl m => inl m | inr (ok, m, t) => verifyTwoFA ok m t end) h
    | _ => h
    end
  | PasskeyAnswered i a =>
    match v_runs h !! i with Some (MkRun _ _ Passkey _ Verifying) => verify_answered i (verifyPasskey a) h | _ => h end
  | CallAnswered i a => call_answered opts i a h
  | SetCode c => set_internal (λ s, MkInternal (method s) (loading s) c (scope s) (title s) (i_description s) (apiCall s)) h
  | SwitchMethod x => set_internal (λ s, MkInternal (Some x) (loading s) [] (scope s) (title s) (i_description s) (apiCall s)) h
  | CancelPressed => if loading (v_state h) then h else resetVerification h
  | OpenChanged b => if closeCancels opts then (if b then h else resetVerification h) else set_open b h
  end.

Definition hook_run (opts : HookOptions) (evs : list VerifyEvent) (h : Hook) : Hook :=
  fold_left (λ h ev, hook_step opts ev h) evs h.

End SecureVerification.
