(* ===== verification/SecureVerificationFacts.v ===== *)
(** * Facts about verification before sensitive actions

    [proofs_in_scope]: where the proof of a protected call comes from;
    [dismissed_runs_on]: what closing the dialog does not stop. *)

From S2P Require Import Prelude JsString JsNumber JsValue SecureVerification.

Module SecureVerificationFacts.
Import SecureVerification.

(** ** The method *)

(** The preferred method if it can be used, and else the recommended one. *)
Lemma defaultMethod_exact m p : defaultMethod m p = match p with
  | Some x => if canUseMethod m x then Some x else recommendedMethod m | None => recommendedMethod m end.
Proof. destruct m as [[] [] []], p as [[]|]; done. Qed.

Lemma defaultMethod_usable m p x : defaultMethod m p = Some x → canUseMethod m x = true.
Proof. destruct m as [[] [] []], p as [[]|]; cbn; intros [= <-]; done. Qed.

(** ** Proofs *)

(** The calls that were started with a scope. *)
Definition starts (evs : list VerifyEvent) : list (nat * SecurityProofScope) :=
  omap (λ ev, match ev with Started c g _ | Refused c g _ _ => Some (c, s_scope g) | _ => None end) evs.

(** An answer to execution [i] that gives the proof [p]. *)
Definition gives (i : nat) (x : VerificationMethod) (p : jsstr) (ev : VerifyEvent) : Prop :=
  match ev, x with
  | TwoFAAnswered j (inr (ok, m, t)), TwoFA => j = i ∧ verifyTwoFA ok m t = inr p
  | PasskeyAnswered j a, Passkey => j = i ∧ verifyPasskey a = inr p
  | _, _ => False
  end.

Lemma gives_nonempty i x p ev : gives i x p ev → p ≠ [].
Proof.
  destruct ev as [| | | | |j [m|[[ok m] t]]|j a| | | | |], x; try done; cbn; intros [_ H] ->.
  - unfold verifyTwoFA in H. destruct ok, t; done.
  - unfold verifyPasskey in H. repeat case_match; simplify_eq; done.
Qed.

Definition proof_of (r : Run) : option jsstr := match x_phase r with Calling p | Over (Some p) => Some p | _ => None end.
Definition call_of (r : Run) : option (nat * jsstr) := pair (x_call r) <$> proof_of r.
Definition proven (c : nat * option jsstr) : option (nat * jsstr) := pair c.1 <$> c.2.

(** What holds of a hook after [evs]. *)
Record hook_inv (evs : list VerifyEvent) (h : Hook) : Prop := {
  inv_pair : ∀ c, apiCall (v_state h) = Some c → ∃ sc, scope (v_state h) = Some sc ∧ (c, sc) ∈ starts evs;
  inv_started : Forall (λ r, (x_call r, x_scope r) ∈ starts evs) (v_runs h);
  inv_given : ∀ i r p, v_runs h !! i = Some r → proof_of r = Some p → Exists (gives i (x_method r) p) evs;
  inv_calls : omap proven (v_calls h) ≡ₚ omap call_of (v_runs h);
}.

Lemma starts_app a b : starts (a ++ b) = starts a ++ starts b.
Proof. apply omap_app. Qed.

(** Events that touch neither calls nor executions. *)
Lemma hook_quiet evs ev h h' : hook_inv evs h → v_runs h' = v_runs h → v_calls h' = v_calls h →
  (∀ c, apiCall (v_state h') = Some c → ∃ sc, scope (v_state h') = Some sc ∧ (c, sc) ∈ starts (evs ++ [ev])) → hook_inv (evs ++ [ev]) h'.
Proof.
  intros [H1 H2 H3 H4] Hr Hc Hp. constructor; [done|rewrite Hr..|].
  - eapply Forall_impl; [exact H2|]. intros r Hin. simpl in *. rewrite starts_app. apply elem_of_app. by left.
  - intros i r p Hi Hg. apply Exists_app. left. by eapply H3.
  - by rewrite Hr, Hc.
Qed.

Lemma pair_kept evs ev h : hook_inv evs h →
  ∀ c, apiCall (v_state h) = Some c → ∃ sc, scope (v_state h) = Some sc ∧ (c, sc) ∈ starts (evs ++ [ev]).
Proof. intros [H1 _ _ _] c Hc. destruct (H1 c Hc) as (sc & Hs & Hin). exists sc. split; [done|]. rewrite starts_app. apply elem_of_app. by left. Qed.

Lemma start_runs call g m h : v_runs (startVerification call g m h) = v_runs h ∧ v_calls (startVerification call g m h) = v_calls h ∧
  (v_state (startVerification call g m h) = v_state h ∨
   apiCall (v_state (startVerification call g m h)) = Some call ∧ scope (v_state (startVerification call g m h)) = Some (s_scope g)).
Proof. unfold startVerification. destruct (negb (has2FA m) && negb (hasPasskey m)); cbn; auto. Qed.

Lemma hook_starts evs ev call g m h h0 : hook_inv evs h → v_runs h0 = v_runs h → v_calls h0 = v_calls h → v_state h0 = v_state h →
  starts [ev] = [(call, s_scope g)] → hook_inv (evs ++ [ev]) (startVerification call g m h0).
Proof.
  intros Hi Hr Hc Hs Hev. destruct (start_runs call g m h0) as (H1 & H2 & H3). apply (hook_quiet _ _ h); [done|congruence..|].
  destruct H3 as [H3|[H3 H4]].
  - rewrite H3, Hs. by apply pair_kept.
  - intros c Hc'. rewrite H3 in Hc'. injection Hc' as <-. exists (s_scope g). split; [done|]. rewrite starts_app, Hev. apply elem_of_app. right. by left.
Qed.

(** *** One execution changes *)

Lemma alter_split {A} (f : A → A) (l : list A) i r : l !! i = Some r → alter f i l = take i l ++ f r :: drop (S i) l.
Proof.
  revert i. induction l as [|x l IH]; intros [|i] Hi; [done..| |].
  - by injection Hi as ->.
  - cbn in *. f_equal. by apply IH.
Qed.

Lemma calls_split (l : list Run) i r : l !! i = Some r → omap call_of l = omap call_of (take i l) ++ omap call_of [r] ++ omap call_of (drop (S i) l).
Proof. intros Hi. rewrite <- (take_drop_middle l i r Hi) at 1. change (r :: drop (S i) l) with ([r] ++ drop (S i) l). by rewrite !omap_app. Qed.

(** An execution goes on to phase [ph]. *)
Lemma phase_changes evs ev h h' i r ph : hook_inv evs h → v_runs h !! i = Some r → v_runs h' = set_phase i ph (v_runs h) →
  let r' := MkRun (x_call r) (x_scope r) (x_method r) (x_code r) ph in
  (∀ p, proof_of r' = Some p → proof_of r = Some p ∨ gives i (x_method r) p ev) →
  omap proven (v_calls h') ≡ₚ omap proven (v_calls h) ++ (match proof_of r with Some _ => [] | None => omap call_of [r'] end) →
  (∀ p, proof_of r = Some p → proof_of r' = Some p) →
  (∀ c, apiCall (v_state h') = Some c → ∃ sc, scope (v_state h') = Some sc ∧ (c, sc) ∈ starts (evs ++ [ev])) → hook_inv (evs ++ [ev]) h'.
Proof.
  intros Hi Hr Hruns r' Hg Hc Hkeep Hp. pose proof Hi as [_ H2 H3 H4]. unfold set_phase in Hruns.
  pose proof (alter_split (λ r, MkRun (x_call r) (x_scope r) (x_method r) (x_code r) ph) _ _ _ Hr) as Hs. cbv beta in Hs. fold r' in Hs. constructor; [done|..].
  - rewrite Hruns. apply Forall_alter; [|].
    + eapply Forall_impl; [exact H2|]. intros x Hx. simpl in *. rewrite starts_app. apply elem_of_app. by left.
    + intros x _ Hx. exact Hx.
  - intros j x p Hj Hpx. apply Exists_app. rewrite Hruns in Hj. rewrite list_lookup_alter in Hj. destruct (decide (i = j)) as [->|Hne].
    + rewrite Hr in Hj. injection Hj as <-. fold r' in Hpx |- *. destruct (Hg p Hpx) as [Hold|Hnew]; [left; exact (H3 _ _ _ Hr Hold)|right; by constructor].
    + left. by eapply H3.
  - assert (omap call_of [r'] = omap call_of [r] ++ (match proof_of r with Some _ => [] | None => omap call_of [r'] end)) as Hx.
    { unfold call_of. cbn. destruct (proof_of r) as [p|] eqn:E; [by rewrite (Hkeep p eq_refl)|done]. }
    revert Hc Hx. generalize (match proof_of r with Some _ => [] | None => omap call_of [r'] end). intros X Hc Hx.
    rewrite Hc, H4, Hruns, Hs, (calls_split _ _ _ Hr).
    change (r' :: drop (S i) (v_runs h)) with ([r'] ++ drop (S i) (v_runs h)). rewrite !omap_app.
    rewrite Hx. rewrite <- !app_assoc. apply Permutation_app_head, Permutation_app_head. apply Permutation_app_comm.
Qed.

(** A new execution, for the call and the scope of the dialog. *)
Lemma run_added evs ev h h' c sc x t : hook_inv evs h → apiCall (v_state h) = Some c → scope (v_state h) = Some sc →
  v_runs h' = v_runs h ++ [MkRun c sc x t Verifying] → v_calls h' = v_calls h → apiCall (v_state h') = apiCall (v_state h) →
  scope (v_state h') = scope (v_state h) → hook_inv (evs ++ [ev]) h'.
Proof.
  intros Hi Hc Hs Hr Hcs Ha Hsc. pose proof (pair_kept evs ev h Hi) as Hpk. pose proof Hi as [_ H2 H3 H4]. constructor.
  - rewrite Ha, Hsc. exact Hpk.
  - rewrite Hr. apply Forall_app. split.
    + eapply Forall_impl; [exact H2|]. intros r Hx. simpl in *. rewrite starts_app. apply elem_of_app. by left.
    + apply Forall_singleton. cbn. destruct (Hpk c Hc) as (sc' & Hs' & Hin). congruence.
  - intros i r p Hi' Hp. rewrite Hr in Hi'. apply lookup_app_Some in Hi' as [Hi'|[_ Hi']]; [apply Exists_app; left; by eapply H3|].
    apply list_lookup_singleton_Some in Hi' as [_ <-]. done.
  - rewrite Hr, Hcs, omap_app. cbn. by rewrite app_nil_r.
Qed.

Lemma inv_execute evs ev m c h : hook_inv evs h → hook_inv (evs ++ [ev]) (executeVerification m c h).
Proof.
  intros Hi. pose proof (pair_kept evs ev h Hi) as Hpk. unfold executeVerification. destruct (apiCall (v_state h)) as [call|] eqn:Ha; [|apply (hook_quiet _ _ h); try done; cbn; congruence].
  assert (∀ h', v_runs h' = v_runs h → v_calls h' = v_calls h → apiCall (v_state h') = apiCall (v_state h) → scope (v_state h') = scope (v_state h) →
    hook_inv (evs ++ [ev]) h') as Hq by (intros h' H1 H2 H3 H4; apply (hook_quiet _ _ h); try done; rewrite H3, H4, Ha; exact Hpk).
  destruct (match m with Some x => Some x | None => method (v_state h) end) as [x|]; [|by apply Hq].
  destruct (scope (v_state h)) as [sc|] eqn:Hs; [|by apply Hq]. destruct (bool_decide (x = TwoFA) && _); [by apply Hq|].
  by eapply (run_added _ _ h).
Qed.

Lemma inv_verify_answered evs ev i r answer h : hook_inv evs h → v_runs h !! i = Some r → x_phase r = Verifying →
  (∀ p, answer = inr p → gives i (x_method r) p ev) → hook_inv (evs ++ [ev]) (verify_answered i answer h).
Proof.
  intros Hi Hr Hph Hg. unfold verify_answered. rewrite Hr. destruct r as [call sc x t ph]. cbn in Hph, Hg. subst ph. destruct answer as [m|p].
  - apply (phase_changes _ _ h _ i _ (Over None) Hi Hr); try done; cbn; [by rewrite app_nil_r|]. exact (pair_kept evs ev h Hi).
  - apply (phase_changes _ _ h _ i _ (Calling p) Hi Hr); try done; cbn.
    + intros q [= <-]. right. by apply Hg.
    + by rewrite omap_app.
    + exact (pair_kept evs ev h Hi).
Qed.

Lemma inv_call_answered opts evs ev i answer h : hook_inv evs h → hook_inv (evs ++ [ev]) (call_answered opts i answer h).
Proof.
  intros Hi. unfold call_answered. destruct (v_runs h !! i) as [r|] eqn:Hr; [|apply (hook_quiet _ _ h); try done; by apply pair_kept].
  destruct r as [call sc x t [|p|o]]; try (apply (hook_quiet _ _ h); try done; by apply pair_kept).
  apply (phase_changes _ _ h _ i _ (Over (Some p)) Hi Hr); try done.
  - destruct answer as [m|[]]; [done|]. by destruct (nonempty (successMessage opts)), (autoReset opts).
  - intros q [= <-]. by left.
  - cbn. rewrite app_nil_r. destruct answer as [m|[]]; [done|]. by destruct (nonempty (successMessage opts)), (autoReset opts).
  - destruct answer as [m|[]]; [exact (pair_kept evs ev h Hi)|]. destruct (autoReset opts); [by destruct (nonempty (successMessage opts))|].
    destruct (nonempty (successMessage opts)); exact (pair_kept evs ev h Hi).
Qed.

Lemma inv_attempt evs ev call h : hook_inv evs h → hook_inv (evs ++ [ev]) (log_call (call, None) h).
Proof.
  intros Hi. pose proof (hook_quiet evs ev h h Hi eq_refl eq_refl (pair_kept evs ev h Hi)) as [H1 H2 H3 H4].
  constructor; cbn; try done. rewrite omap_app. cbn. by rewrite app_nil_r.
Qed.

Lemma hook_inv_step opts evs ev h : hook_inv evs h → hook_inv (evs ++ [ev]) (hook_step opts ev h).
Proof.
  intros Hi. pose proof (pair_kept evs ev h Hi) as Hpk.
  assert (∀ h', v_runs h' = v_runs h → v_calls h' = v_calls h → (apiCall (v_state h') = None ∨ apiCall (v_state h') = apiCall (v_state h) ∧ scope (v_state h') = scope (v_state h)) →
    hook_inv (evs ++ [ev]) h') as Hq.
  { intros h' H1 H2 [H3|[H3 H4]]; apply (hook_quiet _ _ h); try done; rewrite H3; [done|]. by rewrite H4. }
  destruct ev; cbn [hook_step]; try (by apply Hq; auto).
  - by apply (hook_starts _ _ _ _ _ h).
  - by apply inv_attempt.
  - unfold withVerification. destruct (isVerificationRequiredError e); [|by apply Hq; auto]. by apply (hook_starts _ _ _ _ _ h).
  - unfold handleVerify. destruct (_ || _); [by apply Hq; auto|]. destruct (activeMethod _ _); [by apply inv_execute|by apply Hq; auto].
  - destruct (v_runs h !! i) as [r|] eqn:Hr; [|by apply Hq; auto]. destruct r as [call sc [] t []]; try (by apply Hq; auto).
    eapply inv_verify_answered; [done..|]. intros p Hp. destruct answer as [m|[[ok m] tok]]; [done|]. done.
  - destruct (v_runs h !! i) as [r|] eqn:Hr; [|by apply Hq; auto]. destruct r as [call sc [] t []]; try (by apply Hq; auto).
    eapply inv_verify_answered; [done..|]. done.
  - by apply inv_call_answered.
  - destruct (loading (v_state h)); apply Hq; cbn; auto.
  - destruct (closeCancels opts); [destruct b|]; apply Hq; cbn; auto.
Qed.

Lemma hook_inv_run opts evs : hook_inv evs (hook_run opts evs mounted_hook).
Proof.
  induction evs as [|ev evs IH] using rev_ind; [by constructor|]. unfold hook_run. rewrite fold_left_app. by apply hook_inv_step.
Qed.

(** C16: After any sequence of events, the protected calls that were made with a
    proof are, one for one, the calls of the executions that got one; and the
    proof of an execution is what the server answered to that execution, by
    the method it used, and the call it was started for is the one the scope
    was given with.  So no call is ever made with a proof for the scope of
    another, with a proof that was not given, or twice with one. *)
Theorem proofs_in_scope opts evs :
  let h := hook_run opts evs mounted_hook in
  omap proven (v_calls h) ≡ₚ omap call_of (v_runs h) ∧
  ∀ i r, v_runs h !! i = Some r →
    (x_call r, x_scope r) ∈ starts evs ∧ ∀ p, proof_of r = Some p → p ≠ [] ∧ Exists (gives i (x_method r) p) evs.
Proof.
  cbv zeta. destruct (hook_inv_run opts evs) as [_ H2 H3 H4]. split; [done|]. intros i r Hr. rewrite Forall_forall in H2. split.
  - apply (H2 r). by eapply list_elem_of_lookup_2.
  - intros p Hp. pose proof (H3 i r p Hr Hp) as He. split; [|done]. apply Exists_exists in He as (ev & _ & Hg). by eapply gives_nonempty.
Qed.

(** ** Closing the dialog *)

(** The answer that gives a proof makes the call. *)
Lemma proof_calls opts h i r p ev : v_runs h !! i = Some r → x_phase r = Verifying → gives i (x_method r) p ev →
  hook_step opts ev h = log_call (x_call r, Some p) (set_runs (set_phase i (Calling p)) h).
Proof.
  intros Hr Hph Hg. destruct r as [call sc x t ph]. cbn in Hph, Hg. subst ph.
  destruct ev as [| | | | |j [m|[[ok m] tok]]|j a| | | | |], x; try done; destruct Hg as [-> Hv]; cbn [hook_step]; rewrite Hr; unfold verify_answered; by rewrite Hr, Hv.
Qed.

(** C17: Closing the dialog while a verification is under way does not stop it:
    when the proof comes, the protected call is made, with no dialog to be
    seen.  And a verification that is started meanwhile is lost when that call
    succeeds: its dialog is closed and its call forgotten. *)
Theorem dismissed_runs_on opts h i r p ev call g answers :
  v_runs h !! i = Some r → x_phase r = Verifying → gives i (x_method r) p ev →
  has2FA (checkVerificationMethods answers) || hasPasskey (checkVerificationMethods answers) = true → autoReset opts = true →
  let h1 := hook_step opts (OpenChanged false) h in
  let h2 := hook_step opts ev h1 in
  let h3 := hook_step opts (Started call g answers) h2 in
  let h4 := hook_step opts (CallAnswered i (inr tt)) h3 in
  v_open h1 = false ∧
  v_open h2 = false ∧ v_calls h2 = v_calls h ++ [(x_call r, Some p)] ∧
  v_open h3 = true ∧ apiCall (v_state h3) = Some call ∧
  v_open h4 = false ∧ apiCall (v_state h4) = None ∧ v_calls h4 = v_calls h2 ∧ v_succeeded h4 = v_succeeded h ++ [x_call r].
Proof.
  intros Hr Hph Hg Hm Ha. cbv zeta. set (h1 := hook_step opts (OpenChanged false) h).
  assert (v_runs h1 = v_runs h ∧ v_calls h1 = v_calls h ∧ v_open h1 = false ∧ v_succeeded h1 = v_succeeded h) as (Hr1 & Hc1 & Ho1 & Hs1).
  { unfold h1. cbn [hook_step]. by destruct (closeCancels opts). }
  clearbody h1. rewrite <- Hr1 in Hr. rewrite (proof_calls opts h1 i r p ev Hr Hph Hg).
  set (h2 := log_call (x_call r, Some p) (set_runs (set_phase i (Calling p)) h1)).
  assert (hook_step opts (Started call g answers) h2 =
    set_open true (set_internal (λ s, MkInternal (defaultMethod (checkVerificationMethods answers) (preferredMethod g)) (loading s) (code s) (Some (s_scope g))
                                        (s_title g) (s_description g) (Some call)) (set_methods (checkVerificationMethods answers) h2))) as ->.
  { cbn [hook_step]. unfold startVerification. by rewrite <- negb_orb, Hm. }
  assert (v_runs h2 !! i = Some (MkRun (x_call r) (x_scope r) (x_method r) (x_code r) (Calling p))) as Hr2.
  { change (v_runs h2) with (set_phase i (Calling p) (v_runs h1)). unfold set_phase. rewrite list_lookup_alter, decide_True by done. by rewrite Hr. }
  cbn [hook_step]. unfold call_answered. cbn [v_runs set_open set_internal set_methods]. rewrite Hr2, Ha.
  destruct (nonempty (successMessage opts)); unfold h2; cbn; rewrite ?Hc1, ?Hs1; done.
Qed.

(** ** Example *)

Definition demo_options : HookOptions := MkOptions true [] true.
Definition demo_answers : option (StatusAnswer * StatusAnswer * bool) := Some (MkStatus true true, MkStatus true false, true).
Definition demo_hook : Hook :=
  hook_run demo_options [Started 7 (MkStart None PasskeyDelete None None) demo_answers; SetCode "123456"; Press] mounted_hook.

Lemma dismissed_runs_on_witness :
  v_calls (hook_step demo_options (TwoFAAnswered 0 (inr (true, [], "proof"%js))) (hook_step demo_options (OpenChanged false) demo_hook)) = [(7, Some "proof"%js)].
Proof.
  destruct (dismissed_runs_on demo_options demo_hook 0 (MkRun 7 PasskeyDelete TwoFA "123456" Verifying) "proof" (TwoFAAnswered 0 (inr (true, [], "proof"%js)))
    8 (MkStart None PasskeyRegister None None) demo_answers) as (_ & _ & H & _); [reflexivity|reflexivity|by split|reflexivity|reflexivity|]. exact H.
Defined.

End SecureVerificationFacts.
